(* ===== verification/_CoqProject ===== *)
-Q . S2P
Prelude.v
Rp1Protocol.v
Rp1Store.v
Rp1Loop.v
Rp1Frame.v
Rp1Fixture.v
Rp1Safety.v
Rp1Latch.v
Rp1Queue.v
Rp1Order.v
Rp1Scan.v
Rp1Run.v
Rp1Progress.v
Rp1Deadline.v
MemoryMap.v
Except.v
Rp1Window.v
Rp1Submitter.v
SubmitterLog.v
SubmitterStage.v
SubmitterDrain.v
ControlLowering.v
Buddy.v
BufferAllocator.v
BarrierLowering.v
BarrierFacts.v
BarrierInv.v
BarrierRound.v
BarrierDomain.v
BarrierTree.v
BarrierInput.v
BarrierTheorems.v
MainlineImage.v
MainlineSchedule.v
MainlineFacts.v
MainlineArgs.v
MainlineEmit.v
MainlineBuild.v
MainlinePlan.v
MainlineOrder.v
MainlineTypes.v
MainlineLaunch.v
MainlineTheorems.v
Clock.v
ClockSearch.v
ClockTheorems.v
Policy.v
Auth.v
PolicyTheorems.v
Daemon.v
DaemonMemory.v
DaemonTheorems.v
Accept.v
Serve.v
ServeTheorems.v
