(* ===== verification/Prelude.v ===== *)
(** * SLASH: verification of the RP1 graph-execution stack, the memory
      allocators and the vrtd daemon

    SLASH runs dataflow graphs on FPGA cards.  This development covers the
    path a graph takes from the host to the device and back, the two
    allocators that give out device memory, and the daemon that shares the
    cards between its clients.

    ** The program and how its parts interact

    - RP1 is bare-metal firmware on a Cortex-R5 of the card
      (linker/slashkit/resources/aved/rp1).  The host stages a graph as 64-byte
      packets in a 64 MB window of DDR, rings a doorbell ([graph_seq]), and
      the firmware checks the configuration ([rp1_store_init]), validates the
      packets ([validate_nodes]), then scans them until nothing can progress
      ([rp1_loop]): it starts packets whose barrier bits are set, polls the
      kernels in flight and the waits, and publishes completions in a ring.
      The outer loop (rp1_run.c) accepts one graph at a time and publishes its
      result; ERROR and HALTED are left by a reset only.
    - The host side (vrt/src/graph/device/fpga) reaches the window through
      [Rp1BarWindow], and [Rp1Submitter] does the handshake, validation,
      staging, doorbell, wait and draining.  control_lowering.cpp turns graph
      conditions into the comparisons the firmware evaluates, and events with
      dependencies into barrier bits of reset domains.  [FpgaDevicePlan]
      (fpga_device.cpp) lowers a queue program (a list of kernel, load, signal
      and wait commands with symbolic dependencies) to the packets, argument
      words and signal slots the submitter stages, and patches the scalar
      arguments at launch.
    - The daemon vrtd owns the card's DDR and HBM and gives them out in 64 MB
      subregions to its clients (vrt/vrtd/src/allocator.c).  A client connects
      to its socket (accept.c) and gets the permissions its user and groups
      have in the configuration files (config.c, auth.c).  An event loop
      (serve.c) receives one request at a time of each client and answers it,
      from the callback or, for design writes, flash programming and resets,
      from a timer that polls two worker threads.  Requests open and close
      buffers with their queue pairs (buffer.c), set the clocks of the user and
      service regions (clock.c), and remove or reset devices.
    - Inside a client, the VRT allocator (vrt/src/allocator) cuts the buffers
      it opened into blocks with buddy superblocks.

    ** Files

    - [Prelude]: words, the state monad and its postconditions, shared lemmas.
    - [Rp1Protocol]: include/slash/uapi/rp1_protocol.h, layouts and encodings.
    - [Rp1Store]: rp1_store.c and .h, rp1_hal.c and .h; the firmware state
      [st], the hardware interface [Hal], the platform constants [Platform],
      [check_config], [rp1_store_init], the error latch.
    - [Rp1Loop]: rp1_pdi.c and rp1_loop.c, one definition per C function.
    - [Rp1Run]: rp1_run.c, [rp1_startup] and one [outer_pass] of the endless
      loop, and the system of passes and host moves ([running]).
    - [Rp1Frame]: footprints of all these operations.  [Rp1Fixture]: a concrete
      fabric for evaluating them.
    - [Rp1Safety], [Rp1Latch], [Rp1Queue], [Rp1Order], [Rp1Scan],
      [Rp1Progress], [Rp1Deadline]: the firmware theorems.
    - [MemoryMap]: vrtd/src/allocator.c and its theorems.
    - [Except]: state computations that can throw, for the C++ parts.
    - [Rp1Window]: rp1_bar_window.cpp and .hpp and its theorems.
    - [Rp1Submitter]: rp1_submitter.cpp and .hpp; its theorems are in
      [SubmitterLog], [SubmitterStage] and [SubmitterDrain].
    - [ControlLowering]: condition.hpp, the condition evaluator of
      cpu_device.cpp, conditions and slot allocators of control_lowering.cpp.
    - [Buddy], [BufferAllocator]: allocator.hpp and allocator.cpp of vrt.
    - [BarrierLowering]: the class [BarrierLowerer] of control_lowering.cpp, one
      definition per member function.  [BarrierFacts], [BarrierInv],
      [BarrierRound], [BarrierDomain], [BarrierTree] and [BarrierInput] prove
      its invariant over events, buckets and domains through the phases of a
      run; [BarrierTheorems] states what it means.
    - [MainlineImage]: [buildMainlineImage] of fpga_device.cpp and what it
      calls, on the program and device data of rp1_program.hpp, io_type_map.hpp,
      kernel_descriptor.hpp, port_bindings.hpp and vbin_spec.hpp.
      [MainlineLaunch]: [resolveDeferredScalars].  [MainlineSchedule] is the
      reference they are compared with: the schedule ([plan]) of a program as a
      list of entries with a position, the positions they need and a task, and
      the argument words of a kernel.  [MainlineFacts] (bit groups and joins),
      [MainlineArgs] (packing), [MainlineEmit] and [MainlineBuild] (the image
      holds the plan), [MainlinePlan] and [MainlineOrder] (what the plan
      orders), [MainlineTypes] (field ranges) and [MainlineTheorems].
    - [Clock]: vrtd/src/clock.c over the registers and the time of the class
      [Wizard].  [ClockSearch]: the search for dividers.  [ClockTheorems]: the
      calls that read and set the rate of a region.
    - [Policy]: config.c and config.h over the class [System] of files, user
      and group databases.  [Auth]: auth.c and its theorem.  [PolicyTheorems].
    - [Daemon]: buffer.c, the buffer handlers and the clean-up of clients of
      serve.c, over the class [Qdma] and the memory map of [MemoryMap].
      [DaemonMemory]: the memory of a map as regions, owned or free, and what
      allocating and freeing do to it.  [DaemonTheorems]: the system of
      connections, requests, disconnections and device operations.  [Accept]: accept.c and its theorem.
    - [Serve]: the request loop of serve.c with the handlers that work in the
      background or change the devices, design_writer.c and flash_worker.c as
      the loop sees them, over the class [Outside].  [ServeTheorems]: the
      system of callbacks, timer runs, worker steps and connections.
      [Daemon] and [Serve] are two views of the daemon: buffers and what they
      own, and the order of requests; each has the fields of [struct vrtd],
      [struct client] and [struct device] that its part uses.

    ** How code is rendered

    C integers are [Z] with their wrap-around written out ([u32], [add32],
    [sub64], ...).  A computation on a state is [SM S A]; it returns, meets
    undefined behaviour ([Ub]: an index outside its array, an address outside
    the window, a dangling pointer) or runs out of fuel.  [safe m s Q] says it
    never meets [Ub], [total m s Q] that it returns.  C++ exceptions are
    results of the monad of [Except]; what was done before a throw stays.

    What is outside the sources is a parameter: the registers, the clock and
    the host as the firmware sees them are the class [Hal]; the device as the
    host sees it changes the shared memory arbitrarily before every access
    ([Rp1Window]); [vrtd::Device::openBuffer] is an argument; the libraries and
    system calls of the daemon are the classes [Wizard], [System], [Qdma] and
    [Outside], whose operations answer anything.  Theorems that need more of
    them say so: [Responsive] (kernels are found busy boundedly
    often, the host drains its queue), [Ticking] (the counter, or the clock of
    the system, advances), [Holds] (registers hold what is written), finitely
    many files, device buffers that do not overlap, and for the submitter a
    device that is idle, or only appends completions ([Appends]), reports a
    graph done after its completions ([Finishes]) and has a clock that advances
    ([Advances]).  An input of the barrier lowering is [lowerable] when its
    domains form a tree and its names are neither empty nor those it makes up.

    ** What the theorems show

    - Firmware.  No pass accesses memory outside its objects, for any staged
      content whose software DMA names addresses outside the window, which the
      firmware does not check ([Rp1Run.firmware_memory_safe]); a started node has had all its
      dependencies released by finished producers ([Rp1Order]); a submission
      is answered within a stated number of passes ([Rp1Progress]); a PDI load
      honours its deadline across the wrap of the counter ([Rp1Deadline]); the
      completion ring is a FIFO that loses nothing ([Rp1Queue], [Rp1Scan]);
      the first error is kept and no failure is silent ([Rp1Latch]); invalid
      packets and configurations are rejected without a register access, and
      terminal states are final ([Rp1Run]).
    - Host.  The window accessors stay inside the mapping ([Rp1Window]); the
      submitter writes only what it owns, rings the doorbell once and last
      ([SubmitterLog]); what it stages is what the firmware accepts, host
      checks imply firmware checks ([SubmitterStage]); a wait collects every
      completion once and in order ([SubmitterDrain]); a lowered condition
      means what the CPU evaluates ([ControlLowering]).
    - Barrier lowering ([BarrierTheorems]).  Every event gets a bit of its own
      and waits for bits of one bucket, which lead through collectors and
      transitions to exactly its dependencies; the range of a domain contains
      exactly the buckets of its subtree; the lowering returns on every lowerable
      input.
    - Image lowering ([MainlineTheorems]).  The packets of an image are the
      plan, each with a bit of its own, waiting for exactly what its entry
      needs.  Composed with the firmware theorems: RP1 runs the commands in
      dependency order, and starts the sentinel when everything else is
      finished.  The image is well typed and passes the submitter's checks, so
      the theorems on submissions apply to it.  Scalars are forwarded between
      kernels through one slot, and arrive in the registers of their ports.
    - Memory.  Outstanding allocations are disjoint, accounted for and freed
      by their owner only ([MemoryMap]); every byte of a superblock is in
      exactly one block, freeing restores it exactly ([Buddy]); no two
      outstanding blocks share memory, releases never abort, and nothing but
      a device error is thrown ([BufferAllocator]).
    - Daemon.  Loading gives every user and group the roles the files name for
      it ([PolicyTheorems]), an answer of the authorisation functions is what
      those roles allow ([Auth]), and loading the configuration ends however
      files include each other; every buffer has an owner, and allocations,
      queue pairs and descriptors are exactly those of the buffers, apart from
      queue pairs whose deletion failed; a disconnection releases those of the
      client and a close only its own ([DaemonTheorems]); requests are answered once, in order, under
      their sequence number, callbacks return, and a client that waits for its
      answers is never forgotten ([ServeTheorems]); the clock search is optimal
      ([ClockSearch]), and a rate that is reported is the rate that runs
      ([ClockTheorems]).
    - Where the code does something else than it means to, a theorem exhibits
      it: [MainlineTheorems.dependent_overtakes_read],
      [BarrierTheorems.empty_event_id_collides],
      [SubmitterStage.args_overrun_signals],
      [MemoryMap.free_huge_size_unchecked], [Rp1Window.window_origin_truncated],
      [ControlLowering.wide_constant_diverges], [Buddy.buddy_foreign_accepted],
      [Accept.accept_exact], [ServeTheorems.second_request_waits],
      [ServeTheorems.removed_device_is_used],
      [ServeTheorems.write_answered_for_another],
      [ClockTheorems.lock_is_divider_bit],
      [PolicyTheorems.additional_role_revokes],
      [PolicyTheorems.relative_glob_misses].

    ** Fuel

    Fuel bounds only loops that wait for something outside.  [rp1_loop] takes
    three bounds: [fuel] for scan passes and the wait for ring space, [pf] for
    the polls of a PDI load, [qf] for quiescence passes.  With kernels found
    busy at most [B] times, more than [2 n (32 B + 1)] passes over [n] nodes
    are enough: a pass starts or finishes a node, at most [2 n] times, or
    lowers the summed ranks of the at most 32 kernels in flight; [qf > B] is
    enough for quiescence ([Rp1Progress.submission_answered]).  [pf] equal to
    the timeout in ticks is enough ([Rp1Deadline.pdi_load_deadline]).  Safety
    theorems hold for all fuel.  The loops over nodes, table entries, ring
    entries and buckets are bounded by what they iterate over.  The polling
    loops of [Rp1Submitter] take fuel too: safety holds for all of it, and a
    wait ends within as many rounds as its timeout has ticks
    ([SubmitterDrain.wait_collects_everything]).  [BarrierLowering] bounds the rounds of a domain and the walks in the
    domain tree: more rounds than there are bits ([bitsPerBucket * maxBuckets])
    and fuel of twice the number of domains are enough, since a round places an
    event or ends ([BarrierTheorems.lowering_total]).  [MainlineImage] needs no
    fuel: its loops run over commands, ports and groups.  A wait for the lock of
    a clock takes at most [ClockTheorems.lock_polls] polls, as each pauses for
    100 microseconds of the timeout ([ClockTheorems.clock_calls_return]); loading a configuration recurses at
    most once per file ([PolicyTheorems.config_load_returns]).  [Daemon],
    [Accept] and [Serve] need no fuel.

    ** Not modelled

    Mutexes and the concurrency of host threads and diagnostics strings.  In
    fpga_device.cpp: images with loops and conditionals ([buildControlImage]),
    the lowering of scheduled regions to queue programs, and at launch the
    staging of buffers and PDIs, loop trip counts and the worker thread.  The
    graph compiler, the CPU and GPU devices apart from condition evaluation,
    the kernel driver, the linker generators and the command-line tools.  In
    the daemon: the discovery of devices, the AMI reset and flash sequences,
    the transfers of the worker threads, start-up and shutdown, and the
    handlers of bars, queue pairs, sensors, clocks and device information,
    whose answers are arbitrary in [Serve]: I/O, operating-system interfaces,
    generated code or user interface.  The typed stores of [Rp1Store] do not describe
    configurations in which the host programs overlapping regions. *)

From Stdlib Require Export ZArith Lia Bool.
From stdpp Require Export base tactics numbers list functions.

#[export] Set Default Proof Using "Type".

Declare Scope fw_scope.
Delimit Scope fw_scope with fw.
Open Scope Z_scope.

(** ** Machine words

    A [w]-bit unsigned integer is a [Z]; every C expression that can leave
    the range is written with its wrap-around. *)

Definition u8 (z : Z) : Z := z mod 2 ^ 8.
Definition u16 (z : Z) : Z := z mod 2 ^ 16.
Definition u32 (z : Z) : Z := z mod 2 ^ 32.
Definition u64 (z : Z) : Z := z mod 2 ^ 64.

Definition add32 (a b : Z) : Z := u32 (a + b).
Definition sub32 (a b : Z) : Z := u32 (a - b).
Definition add64 (a b : Z) : Z := u64 (a + b).
Definition sub64 (a b : Z) : Z := u64 (a - b).

(** [x] is a value of the C type [uintN_t]. *)
Definition is_u8 (x : Z) : Prop := 0 <= x < 2 ^ 8.
Definition is_u16 (x : Z) : Prop := 0 <= x < 2 ^ 16.
Definition is_u32 (x : Z) : Prop := 0 <= x < 2 ^ 32.
Definition is_u64 (x : Z) : Prop := 0 <= x < 2 ^ 64.

(** C's truth value of [(flags & bit) != 0]. *)
Definition has_flag (flags bit : Z) : bool := negb (Z.land flags bit =? 0).

Create HintDb slash.

Lemma u32_range z : is_u32 (u32 z).
Proof. unfold is_u32, u32. apply Z.mod_pos_bound. lia. Qed.

Lemma u32_small z : is_u32 z -> u32 z = z.
Proof. unfold is_u32, u32. intros. by apply Z.mod_small. Qed.

Lemma sub32_range a b : is_u32 (sub32 a b).
Proof. apply u32_range. Qed.

Lemma add32_range a b : is_u32 (add32 a b).
Proof. apply u32_range. Qed.

#[export] Hint Resolve u32_range sub32_range add32_range : slash.

(** Solves goals about wrapped 32- and 64-bit expressions by turning every
    [mod] into its defining equations. *)
Ltac words :=
  unfold add32, sub32, add64, sub64, u8, u16, u32, u64,
    is_u8, is_u16, is_u32, is_u64 in *;
  Z.div_mod_to_equations; lia.

Lemma sub32_diag a : sub32 a a = 0.
Proof. unfold sub32, u32. by rewrite Z.sub_diag. Qed.

(** Monotonic cursors: unsigned subtraction measures the distance between two
    cursors across the wrap, as long as the distance fits the word. *)
Lemma sub32_add32_cancel a b n :
  sub32 (add32 a n) b = add32 (sub32 a b) n.
Proof. unfold sub32, add32, u32. rewrite Zminus_mod_idemp_l, Zplus_mod_idemp_l. f_equal. lia. Qed.

Lemma sub32_add32_self a n : is_u32 n -> sub32 (add32 a n) a = n.
Proof.
  intros Hn. rewrite sub32_add32_cancel, sub32_diag.
  unfold add32. rewrite Z.add_0_l. by apply u32_small.
Qed.

(** ** Bit masks *)

Lemma land_nonneg_r a b : 0 <= b -> 0 <= Z.land a b.
Proof. intros. apply Z.land_nonneg. auto. Qed.

Lemma lor_u32 a b : is_u32 a -> is_u32 b -> is_u32 (Z.lor a b).
Proof.
  unfold is_u32. intros [Ha1 Ha2] [Hb1 Hb2]. split; [by apply Z.lor_nonneg|].
  destruct (decide (Z.lor a b = 0)) as [->|Hz]; [lia|].
  assert (0 < Z.lor a b) by (pose proof (proj2 (Z.lor_nonneg a b)); lia).
  apply Z.log2_lt_pow2; [done|]. rewrite Z.log2_lor by done.
  apply Z.max_lub_lt.
  - destruct (decide (a = 0)) as [->|]; [done|]. apply Z.log2_lt_pow2; lia.
  - destruct (decide (b = 0)) as [->|]; [done|]. apply Z.log2_lt_pow2; lia.
Qed.

Lemma land_u32 a b : is_u32 a -> is_u32 b -> is_u32 (Z.land a b).
Proof.
  unfold is_u32. intros [Ha1 Ha2] [Hb1 Hb2].
  split; [apply Z.land_nonneg; auto|].
  destruct (decide (Z.land a b = 0)) as [->|Hz]; [lia|].
  assert (0 < Z.land a b).
  { assert (0 <= Z.land a b) by (apply Z.land_nonneg; auto). lia. }
  apply Z.log2_lt_pow2; [done|].
  eapply Z.le_lt_trans; [apply Z.log2_land; done|].
  apply Z.min_lt_iff. left. apply Z.log2_lt_pow2; [|done].
  destruct (decide (a = 0)) as [->|]; [done|lia].
Qed.

#[export] Hint Resolve lor_u32 land_u32 : slash.

(** [mask] is satisfied by [v] iff every bit of [mask] is set in [v]. *)
Lemma land_mask_spec v mask :
  Z.land v mask = mask <-> forall k, 0 <= k -> Z.testbit mask k = true -> Z.testbit v k = true.
Proof.
  split.
  - intros H k Hk Hm. rewrite <-H in Hm. rewrite Z.land_spec in Hm.
    by apply andb_true_iff in Hm as [??].
  - intros H. apply Z.bits_inj'. intros k Hk. rewrite Z.land_spec.
    destruct (Z.testbit mask k) eqn:E; [|by rewrite andb_false_r].
    by rewrite (H k Hk E).
Qed.

(** [x & (2^k - 1)] is [x mod 2^k], and a power of two has one bit. *)
Lemma land_pow2_pred x k : 0 <= k -> Z.land x (2 ^ k - 1) = x mod 2 ^ k.
Proof. intros. rewrite <-Z.land_ones by done. f_equal. rewrite Z.ones_equiv. lia. Qed.

(** C's [v != 0 && (v & (v - 1)) == 0] recognises exactly the powers of two. *)
Lemma power_of_two_spec v :
  0 <= v ->
  negb (v =? 0) && (Z.land v (v - 1) =? 0) = true <-> exists k, 0 <= k /\ v = 2 ^ k.
Proof.
  intros Hv. rewrite andb_true_iff, negb_true_iff, Z.eqb_neq, Z.eqb_eq. split.
  - intros [Hnz Hl]. exists (Z.log2 v). split; [apply Z.log2_nonneg|].
    pose proof (Z.log2_spec v ltac:(lia)) as [Hlo Hhi].
    destruct (decide (v = 2 ^ Z.log2 v)) as [|Hne]; [done|].
    exfalso.
    assert (Hb : Z.testbit (Z.land v (v - 1)) (Z.log2 v) = true).
    { rewrite Z.land_spec, Z.bit_log2 by lia. cbn.
      replace (Z.log2 v) with (Z.log2 (v - 1)); [apply Z.bit_log2|].
      + pose proof (Z.pow_pos_nonneg 2 (Z.log2 v) ltac:(lia) (Z.log2_nonneg v)). lia.
      + apply Z.log2_unique; [apply Z.log2_nonneg|]. split; [lia|].
        rewrite <-Z.add_1_r in Hhi |- *. lia. }
    by rewrite Hl, Z.bits_0 in Hb.
  - intros (k & Hk & ->). pose proof (Z.pow_pos_nonneg 2 k ltac:(lia) Hk).
    split; [lia|]. rewrite land_pow2_pred by done. apply Z.mod_same. lia.
Qed.

(** ** State-and-failure computations

    C code is translated to functions from the state to an outcome: [Ret]
    is a normal return, [Ub] an access outside the object it indexes
    (undefined behaviour in C), [NoFuel] an unbounded wait cut short. *)

Inductive res (S A : Type) : Type :=
  | Ret (a : A) (s : S)
  | Ub
  | NoFuel.
Arguments Ret {S A} a s.
Arguments Ub {S A}.
Arguments NoFuel {S A}.

Definition SM (S A : Type) : Type := S -> res S A.

#[export] Instance SM_ret {S} : MRet (SM S) := fun A a s => Ret a s.
#[export] Instance SM_bind {S} : MBind (SM S) := fun A B k m s =>
  match m s with
  | Ret a s' => k a s'
  | Ub => Ub
  | NoFuel => NoFuel
  end.

Definition gets {S A} (f : S -> A) : SM S A := fun s => Ret (f s) s.
Definition modify {S} (f : S -> S) : SM S unit := fun s => Ret tt (f s).
Definition ub {S A} : SM S A := fun _ => Ub.
Definition no_fuel {S A} : SM S A := fun _ => NoFuel.
Definition when {S} (b : bool) (m : SM S unit) : SM S unit := if b then m else mret tt.

(** Indexing an object of [n] elements. *)
Definition in_bounds (n i : Z) : bool := (0 <=? i) && (i <? n).
Definition checked {S} (b : bool) : SM S unit := if b then mret tt else ub.

(** [for (i = lo; i < lo + k; i++) body(i)] *)
Fixpoint for_up {S} (k : nat) (lo : Z) (body : Z -> SM S unit) : SM S unit :=
  match k with
  | O => mret tt
  | S k' => body lo;; for_up k' (lo + 1) body
  end.

(** [for (i = lo; i <= hi; i++) body(i)] *)
Definition for_range {S} (lo hi : Z) (body : Z -> SM S unit) : SM S unit :=
  for_up (Z.to_nat (hi - lo + 1)) lo body.

(** [post ub nf m s Q]: run from [s], the results of [m] satisfy [Q]; it
    meets undefined behaviour only where [ub] allows it and runs out of fuel
    only where [nf] allows it.  [safe] excludes undefined behaviour, [total]
    excludes both, [wlp] neither. *)
Definition post {S A} (ub nf : Prop) (m : SM S A) (s : S) (Q : A -> S -> Prop) : Prop :=
  match m s with
  | Ret a s' => Q a s'
  | Ub => ub
  | NoFuel => nf
  end.

Abbreviation safe := (post False True).
Abbreviation total := (post False False).
Abbreviation wlp := (post True True).

Section post.
Context {S : Type} {ub nf : Prop}.
Implicit Types s : S.

Lemma post_ret {A} (a : A) s (Q : A -> S -> Prop) : Q a s -> post ub nf (mret a) s Q.
Proof. done. Qed.

Lemma post_bind {A B} (m : SM S A) (k : A -> SM S B) s Q :
  post ub nf m s (fun a s' => post ub nf (k a) s' Q) -> post ub nf (m ≫= k) s Q.
Proof. unfold post, mbind, SM_bind. by destruct (m s). Qed.

Lemma post_mono {A} (m : SM S A) s (P Q : A -> S -> Prop) :
  post ub nf m s P -> (forall a s', P a s' -> Q a s') -> post ub nf m s Q.
Proof. unfold post. destruct (m s); auto. Qed.

Lemma post_gets {A} (f : S -> A) s (Q : A -> S -> Prop) : Q (f s) s -> post ub nf (gets f) s Q.
Proof. done. Qed.

Lemma post_modify (f : S -> S) s (Q : unit -> S -> Prop) :
  Q tt (f s) -> post ub nf (modify f) s Q.
Proof. done. Qed.

Lemma post_checked b s (Q : unit -> S -> Prop) :
  b = true -> Q tt s -> post ub nf (checked b) s Q.
Proof. by intros ->. Qed.

Lemma wlp_checked b s (Q : unit -> S -> Prop) :
  (b = true -> Q tt s) -> post True nf (checked b) s Q.
Proof. intros HQ. destruct b; [by apply HQ|done]. Qed.

Lemma post_when b (m : SM S unit) s (Q : unit -> S -> Prop) :
  (b = true -> post ub nf m s Q) -> (b = false -> Q tt s) -> post ub nf (when b m) s Q.
Proof. destruct b; cbn; auto. Qed.

Lemma post_if {A} (b : bool) (m1 m2 : SM S A) s Q :
  (b = true -> post ub nf m1 s Q) -> (b = false -> post ub nf m2 s Q) ->
  post ub nf (if b then m1 else m2) s Q.
Proof. destruct b; auto. Qed.

Lemma post_for_up (I : Z -> S -> Prop) k : forall lo (body : Z -> SM S unit) s,
  I lo s ->
  (forall i s', lo <= i < lo + Z.of_nat k -> I i s' ->
     post ub nf (body i) s' (fun _ => I (i + 1))) ->
  post ub nf (for_up k lo body) s (fun _ => I (lo + Z.of_nat k)).
Proof.
  induction k as [|k IH]; intros lo body s HI Hb; cbn.
  - rewrite Z.add_0_r. by apply post_ret.
  - apply post_bind. eapply post_mono; [apply Hb; [lia|done]|].
    intros [] s' HI'. eapply post_mono; [apply (IH (lo + 1)); [done|]|].
    + intros i s2 Hi. apply Hb. lia.
    + intros [] s2. by replace (lo + 1 + Z.of_nat k) with (lo + Z.of_nat (Datatypes.S k)) by lia.
Qed.

Lemma post_for_range (I : S -> Prop) lo hi (body : Z -> SM S unit) s :
  I s ->
  (forall i s', lo <= i <= hi -> I s' -> post ub nf (body i) s' (fun _ => I)) ->
  post ub nf (for_range lo hi body) s (fun _ => I).
Proof.
  intros HI Hb. unfold for_range.
  eapply (post_for_up (fun _ => I)); [done|]. intros i s' Hi. apply Hb. lia.
Qed.
End post.

(** A total run is a run that returns. *)
Lemma total_ret {S A} (m : SM S A) s Q :
  total m s Q <-> exists a s', m s = Ret a s' /\ Q a s'.
Proof.
  unfold post. destruct (m s) as [a s'| |]; split; try done; eauto.
  - by intros (?&?&[= <- <-]&?).
  - by intros (?&?&?&?).
  - by intros (?&?&?&?).
Qed.

(** Whether a run returns, and the state it ends in (its start otherwise). *)
Definition returns {S A} (m : SM S A) (s : S) : bool :=
  match m s with Ret _ _ => true | _ => false end.
Definition final {S A} (m : SM S A) (s : S) : S :=
  match m s with Ret _ s' => s' | _ => s end.

Lemma returns_final {S A} (m : SM S A) s :
  returns m s = true -> exists a, m s = Ret a (final m s).
Proof. unfold returns, final. destruct (m s); [eauto|done|done]. Qed.

(** Steps through the plumbing of a computation. *)
Ltac post_step :=
  lazymatch goal with
  | |- post _ _ (_ ≫= _) _ _ => apply post_bind
  | |- post _ _ (mret _) _ _ => apply post_ret
  | |- post _ _ (gets _) _ _ => apply post_gets
  | |- post _ _ (modify _) _ _ => apply post_modify
  | |- post _ _ (checked _) _ _ => apply post_checked
  | |- post _ _ (when _ _) _ _ => apply post_when; intros ?
  | |- post _ _ (if _ then _ else _) _ _ => apply post_if; intros ?
  end; cbn beta.

(** [keeps R m]: when [m] returns, its final state is [R]-related to its
    initial state.  For a preorder [R] this composes. *)
Definition keeps {S A} (R : S -> S -> Prop) (m : SM S A) : Prop :=
  forall s, match m s with Ret _ s' => R s s' | _ => True end.

Section keeps.
Context {S : Type} (R : S -> S -> Prop) `{!PreOrder R}.

Lemma keeps_ret {A} (a : A) : keeps R (mret a : SM S A).
Proof using Type*. intros s. cbn. reflexivity. Qed.

Lemma keeps_gets {A} (f : S -> A) : keeps R (gets f).
Proof using Type*. intros s. cbn. reflexivity. Qed.

Lemma keeps_bind {A B} (m : SM S A) (k : A -> SM S B) :
  keeps R m -> (forall a, keeps R (k a)) -> keeps R (m ≫= k).
Proof using Type*.
  intros Hm Hk s. unfold mbind, SM_bind. specialize (Hm s). destruct (m s) as [a s'| |]; auto.
  specialize (Hk a s'). destruct (k a s'); auto. by etrans.
Qed.

Lemma keeps_checked b : keeps R (checked b : SM S unit).
Proof using Type*. destruct b; [apply keeps_ret|done]. Qed.

Lemma keeps_no_fuel {A} : keeps R (no_fuel : SM S A).
Proof using Type*. done. Qed.

Lemma keeps_when b (m : SM S unit) : keeps R m -> keeps R (when b m).
Proof using Type*. destruct b; [done|]. intros _. apply keeps_ret. Qed.

Lemma keeps_for_up k : forall lo (body : Z -> SM S unit),
  (forall i, keeps R (body i)) -> keeps R (for_up k lo body).
Proof using Type*.
  induction k; intros lo body Hb; cbn; [apply keeps_ret|]. apply keeps_bind; auto.
Qed.

Lemma keeps_for_range lo hi (body : Z -> SM S unit) :
  (forall i, keeps R (body i)) -> keeps R (for_range lo hi body).
Proof using Type*. apply keeps_for_up. Qed.
End keeps.

Lemma keeps_modify {S} (R : S -> S -> Prop) (f : S -> S) :
  (forall s, R s (f s)) -> keeps R (modify f).
Proof. intros H s. apply H. Qed.

Lemma keeps_mono {S A} (R1 R2 : S -> S -> Prop) (m : SM S A) :
  keeps R1 m -> (forall s s', R1 s s' -> R2 s s') -> keeps R2 m.
Proof. intros H HR s. specialize (H s). destruct (m s); auto. Qed.

(** A kept relation as an addition to a postcondition. *)
Lemma post_keeps {S A} {ub nf : Prop} R (m : SM S A) s (Q : A -> S -> Prop) :
  keeps R m -> post ub nf m s Q -> post ub nf m s (fun a s' => Q a s' /\ R s s').
Proof. unfold post. intros H HQ. specialize (H s). destruct (m s); auto. Qed.

(** Properties of a run from properties of the computation. *)
Lemma keeps_run {S A} (R : S -> S -> Prop) (m : SM S A) s a s' :
  keeps R m -> m s = Ret a s' -> R s s'.
Proof. intros H E. specialize (H s). by rewrite E in H. Qed.

Lemma post_run {S A} {ub nf : Prop} (m : SM S A) s a s' (Q : A -> S -> Prop) :
  post ub nf m s Q -> m s = Ret a s' -> Q a s'.
Proof. unfold post. intros H E. by rewrite E in H. Qed.

Lemma post_wlp {S A} {ub nf : Prop} (m : SM S A) s (P Q : A -> S -> Prop) :
  post ub nf m s P -> wlp m s Q -> post ub nf m s (fun a s' => P a s' /\ Q a s').
Proof. unfold post. by destruct (m s). Qed.

(** Steps through the control structure of a computation. *)
Ltac keeps_step :=
  lazymatch goal with
  | |- keeps _ (_ ≫= _) => apply keeps_bind; [apply _| |intros ?]
  | |- keeps _ (mret _) => apply keeps_ret; apply _
  | |- keeps _ (gets _) => apply keeps_gets; apply _
  | |- keeps _ (checked _) => apply keeps_checked; apply _
  | |- keeps _ no_fuel => apply keeps_no_fuel; apply _
  | |- keeps _ (when _ _) => apply keeps_when; [apply _|]
  | |- keeps _ (for_up _ _ _) => apply keeps_for_up; [apply _|intros ?]
  | |- keeps _ (for_range _ _ _) => apply keeps_for_range; [apply _|intros ?]
  | |- keeps _ (match ?x with _ => _ end) => destruct x
  | |- keeps _ (let _ := _ in _) => cbv zeta
  | |- keeps _ _ => match goal with IH : context [keeps _ _] |- _ => apply IH end
  end; cbv beta.

(** Boolean guards of the source as propositions. *)
Ltac bools :=
  repeat match goal with
  | H : _ && _ = true |- _ => apply andb_true_iff in H as [? ?]
  | H : _ || _ = false |- _ => apply orb_false_iff in H as [? ?]
  | H : _ && _ = false |- _ => apply andb_false_iff in H
  | H : _ || _ = true |- _ => apply orb_true_iff in H
  | H : negb _ = true |- _ => apply negb_true_iff in H
  | H : negb _ = false |- _ => apply negb_false_iff in H
  | H : (_ =? _) = true |- _ => apply Z.eqb_eq in H
  | H : (_ =? _) = false |- _ => apply Z.eqb_neq in H
  | H : (_ <? _) = true |- _ => apply Z.ltb_lt in H
  | H : (_ <? _) = false |- _ => apply Z.ltb_ge in H
  | H : (_ <=? _) = true |- _ => apply Z.leb_le in H
  | H : (_ <=? _) = false |- _ => apply Z.leb_gt in H
  end.

Lemma in_bounds_spec n i : in_bounds n i = true <-> 0 <= i < n.
Proof. unfold in_bounds. rewrite andb_true_iff, Z.leb_le, Z.ltb_lt. done. Qed.

(** ** Little-endian bytes *)

Fixpoint le_bytes (w : nat) (v : Z) : list Z :=
  match w with
  | O => []
  | S w' => v mod 256 :: le_bytes w' (v / 256)
  end.

Fixpoint le_val (bs : list Z) : Z :=
  match bs with
  | [] => 0
  | b :: bs' => b + 256 * le_val bs'
  end.

(** The [w]-byte little-endian load at byte offset [off]. *)
Definition ld (w off : nat) (bs : list Z) : Z := le_val (take w (drop off bs)).

Lemma length_le_bytes w : forall v, length (le_bytes w v) = w.
Proof. induction w; intros; cbn; auto. Qed.

Lemma le_val_bytes w : forall v, le_val (le_bytes w v) = v mod 256 ^ Z.of_nat w.
Proof.
  induction w as [|w IH]; intros v.
  - cbn [le_bytes le_val]. change (256 ^ Z.of_nat 0) with 1. by rewrite Z.mod_1_r.
  - cbn [le_bytes le_val]. rewrite IH.
    rewrite Nat2Z.inj_succ, Z.pow_succ_r by lia.
    rewrite Z.rem_mul_r by lia. lia.
Qed.

Lemma ld_here w v rest : ld w 0 (le_bytes w v ++ rest) = v mod 256 ^ Z.of_nat w.
Proof.
  unfold ld. rewrite drop_0, take_app_le by (by rewrite length_le_bytes).
  rewrite take_ge by (by rewrite length_le_bytes). apply le_val_bytes.
Qed.

Lemma ld_skip w w' off v rest :
  (w' <= off)%nat -> ld w off (le_bytes w' v ++ rest) = ld w (off - w') rest.
Proof. intros. unfold ld. rewrite drop_app_ge by (by rewrite length_le_bytes). by rewrite length_le_bytes. Qed.

Lemma le_val_range bs : Forall is_u8 bs -> 0 <= le_val bs < 256 ^ Z.of_nat (length bs).
Proof.
  induction 1 as [|b bs Hb Hbs IH]; cbn [le_val length]; [by cbn|].
  rewrite Nat2Z.inj_succ, Z.pow_succ_r by lia. unfold is_u8 in Hb. lia.
Qed.

Lemma le_bytes_u8 w : forall v, Forall is_u8 (le_bytes w v).
Proof.
  induction w; intros v; constructor; [|done].
  unfold is_u8. apply Z.mod_pos_bound. lia.
Qed.
