(* ===== verification/Rp1Protocol.v ===== *)
(** * The RP1 wire protocol (rp1_protocol.h)

    Constants, the 64-byte node packet with its 48-byte payload union, the
    control block, signal slots, completion-queue and trace entries, and the
    in-flight table entry.  The payload union is the list of its 48 bytes;
    each member is a view that loads its fields at their C offsets, so a
    packet means what its bytes say whatever member was written.  The
    encoders write a member the way a C assignment to it does, and the
    round-trip theorems show the views read back what was written. *)

From S2P Require Import Prelude.

(** ** Memory layout *)

Definition RP1_CTRL_PHYS_ADDR : Z := 0x30000000.
Definition RP1_CTRL_WINDOW_SIZE : Z := 0x04000000.
Definition RP1_DEFAULT_NODE_ARRAY_OFFSET : Z := 0x00001000.
Definition RP1_DEFAULT_CQ_OFFSET : Z := 0x00041000.
Definition RP1_DEFAULT_ARG_BUF_OFFSET : Z := 0x00051000.
Definition RP1_DEFAULT_SIG_ARRAY_OFFSET : Z := 0x00151000.
Definition RP1_DEFAULT_TRACE_OFFSET : Z := 0x00152000.

(** ** Opcodes *)

Definition RP1_OP_NOP : Z := 0x0000.
Definition RP1_OP_WAIT : Z := 0x0001.
Definition RP1_OP_SIGNAL : Z := 0x0002.
Definition RP1_OP_KERNEL_DISPATCH : Z := 0x0010.
Definition RP1_OP_SCALAR_WRITE : Z := 0x0011.
Definition RP1_OP_SCALAR_READ : Z := 0x0012.
Definition RP1_OP_SCALAR_COPY : Z := 0x0013.
Definition RP1_OP_DMA_COPY : Z := 0x0020.
Definition RP1_OP_DMA_FILL : Z := 0x0021.
Definition RP1_OP_PDI_LOAD : Z := 0x0030.
Definition RP1_OP_LOOP : Z := 0x0040.
Definition RP1_OP_COND : Z := 0x0041.
Definition RP1_OP_RERUN : Z := 0x0042.
Definition RP1_OP_HALT : Z := 0x00FF.

(** The opcodes as the enumeration [rp1_opcode_t]; a packet's 16-bit opcode
    field decodes to one of them or to none. *)
Inductive opcode :=
  | NOP | WAIT | SIGNAL | KERNEL_DISPATCH | SCALAR_WRITE | SCALAR_READ | SCALAR_COPY
  | DMA_COPY | DMA_FILL | PDI_LOAD | LOOP | COND | RERUN | HALT.

#[export] Instance opcode_eq_dec : EqDecision opcode.
Proof. solve_decision. Defined.

Definition opcode_of (z : Z) : option opcode :=
  if z =? RP1_OP_NOP then Some NOP
  else if z =? RP1_OP_WAIT then Some WAIT
  else if z =? RP1_OP_SIGNAL then Some SIGNAL
  else if z =? RP1_OP_KERNEL_DISPATCH then Some KERNEL_DISPATCH
  else if z =? RP1_OP_SCALAR_WRITE then Some SCALAR_WRITE
  else if z =? RP1_OP_SCALAR_READ then Some SCALAR_READ
  else if z =? RP1_OP_SCALAR_COPY then Some SCALAR_COPY
  else if z =? RP1_OP_DMA_COPY then Some DMA_COPY
  else if z =? RP1_OP_DMA_FILL then Some DMA_FILL
  else if z =? RP1_OP_PDI_LOAD then Some PDI_LOAD
  else if z =? RP1_OP_LOOP then Some LOOP
  else if z =? RP1_OP_COND then Some COND
  else if z =? RP1_OP_RERUN then Some RERUN
  else if z =? RP1_OP_HALT then Some HALT
  else None.

(** ** Flags, statuses, error codes *)

Definition RP1_FLAG_HALT_ON_ERROR : Z := Z.shiftl 1 0.
Definition RP1_FLAG_SILENT : Z := Z.shiftl 1 1.
Definition RP1_FLAG_INFINITE : Z := Z.shiftl 1 2.

Definition RP1_NODE_PENDING : Z := 0x0000.
Definition RP1_NODE_DISPATCHED : Z := 0x0001.
Definition RP1_NODE_DONE : Z := 0x0002.
Definition RP1_NODE_WAITING : Z := 0x0003.
Definition RP1_NODE_ERROR : Z := 0x00FF.

Definition RP1_ERR_INFLIGHT_FULL : Z := 1.
Definition RP1_ERR_KERNEL_TIMEOUT : Z := 2.
Definition RP1_ERR_PDI_TIMEOUT : Z := 3.
Definition RP1_ERR_IMAGE_MISMATCH : Z := 4.
Definition RP1_ERR_PDI_FAILED : Z := 5.
Definition RP1_ERR_INVALID_CONFIG : Z := 6.
Definition RP1_ERR_INVALID_NODE : Z := 7.
Definition RP1_ERR_CQ_CORRUPT : Z := 8.
Definition RP1_ERR_RECOVERY_REQUIRED : Z := Z.shiftl 1 31.
(** [~RP1_ERR_RECOVERY_REQUIRED] at 32 bits. *)
Definition RP1_ERR_CODE_MASK : Z := 2 ^ 32 - 1 - RP1_ERR_RECOVERY_REQUIRED.

Definition RP1_CONFIG_NODE_COUNT : Z := 1.
Definition RP1_CONFIG_NODE_BASE : Z := 2.
Definition RP1_CONFIG_CQ_SIZE : Z := 3.
Definition RP1_CONFIG_CQ_BASE : Z := 4.
Definition RP1_CONFIG_CQ_CURSORS : Z := 5.
Definition RP1_CONFIG_ARG_BASE : Z := 6.
Definition RP1_CONFIG_SIGNAL_BASE : Z := 7.
Definition RP1_CONFIG_TRACE : Z := 8.

Definition RP1_NODE_BAD_BARRIER : Z := 1.
Definition RP1_NODE_BAD_SIGNAL_SLOT : Z := 2.
Definition RP1_NODE_BAD_LOOP_CONFIG : Z := 3.
Definition RP1_NODE_BAD_TARGET : Z := 4.
Definition RP1_NODE_BAD_OPERATION : Z := 5.
Definition RP1_NODE_BAD_ARGUMENTS : Z := 6.
Definition RP1_NODE_PDI_WITHOUT_CQ : Z := 7.

(** Condition operators and SIGNAL operations. *)
Definition RP1_COP_EQ : Z := 0.
Definition RP1_COP_NE : Z := 1.
Definition RP1_COP_LT : Z := 2.
Definition RP1_COP_GE : Z := 3.
Definition RP1_COP_AND_NZ : Z := 4.
Definition RP1_COP_AND_Z : Z := 5.

Definition RP1_SIGOP_SET : Z := 0.
Definition RP1_SIGOP_ADD : Z := 1.
Definition RP1_SIGOP_OR : Z := 2.
Definition RP1_SIGOP_AND : Z := 3.

Definition RP1_RERUN_CLEAR_STATE : Z := Z.shiftl 1 0.

Definition RP1_STATE_INIT : Z := 0.
Definition RP1_STATE_READY : Z := 1.
Definition RP1_STATE_RUNNING : Z := 2.
Definition RP1_STATE_ERROR : Z := 3.
Definition RP1_STATE_HALTED : Z := 4.

Definition RP1_TRACE_GRAPH_START : Z := 0.
Definition RP1_TRACE_NODE_ACTIVATE : Z := 1.
Definition RP1_TRACE_KERNEL_LAUNCH : Z := 2.
Definition RP1_TRACE_KERNEL_DONE : Z := 3.
Definition RP1_TRACE_KERNEL_TIMEOUT : Z := 4.
Definition RP1_TRACE_LOOP_ITER : Z := 5.
Definition RP1_TRACE_COND_EVAL : Z := 6.
Definition RP1_TRACE_WAIT_PARK : Z := 7.
Definition RP1_TRACE_WAIT_WAKE : Z := 8.
Definition RP1_TRACE_PDI_LOAD : Z := 9.
Definition RP1_TRACE_IMAGE_MISMATCH : Z := 10.
Definition RP1_TRACE_GRAPH_DONE : Z := 11.

Definition RP1_SCALAR_WRITE_MAX : nat := 6.

Definition RP1_CTRL_MAGIC : Z := 0x53515231.
Definition RP1_REQUIRED_CAPABILITIES : Z :=
  Z.lor (Z.shiftl 1 0) (Z.lor (Z.shiftl 1 1) (Z.lor (Z.shiftl 1 2)
    (Z.lor (Z.shiftl 1 3) (Z.shiftl 1 4)))).
Definition RP1_PDI_IPI_PLATFORM_UNKNOWN : Z := 0.
Definition RP1_TERMINAL_ERROR_NODE_NONE : Z := 0xFFFFFFFF.

Definition RP1_CQ_OK : Z := 0.
Definition RP1_CQ_ERROR : Z := 1.
Definition RP1_CQ_TIMEOUT : Z := 2.

Definition RP1_MAX_NODES : Z := 4096.
Definition RP1_MAX_CQ_ENTRIES : Z := 4096.
Definition RP1_MAX_TRACE_ENTRIES : Z := 4096.
Definition RP1_MAX_LOOPS : Z := 64.
Definition RP1_MAX_INFLIGHT : Z := 32.
Definition RP1_MAX_SIGNALS : Z := 256.
Definition RP1_MAX_BUCKETS : Z := 32.

Definition RP1_PROTOCOL_VERSION : Z := 4.
Definition RP1_PMU_CYCLE_DIVISOR : Z := 64.
Definition RP1_DEFAULT_KERNEL_TIMEOUT_MS : Z := 1000.
Definition RP1_DEFAULT_PDI_TIMEOUT_MS : Z := 5000.

(** Sizes of the protocol structures, as asserted at the end of the header. *)
Definition sizeof_node : Z := 64.
Definition sizeof_kernel_arg : Z := 8.
Definition sizeof_signal_slot : Z := 16.
Definition sizeof_cq_entry : Z := 16.
Definition sizeof_trace_entry : Z := 16.
Definition sizeof_ctrl : Z := 0x1000.

(** ** Payload views of the 48-byte union *)

Record rp1_kernel_arg_t := { arg_reg_offset : Z; arg_value : Z }.

Record rp1_payload_kernel_dispatch_t := {
  kernel_base_addr : Z;
  arg_buffer_offset : Z;
  arg_count : Z;
  ctrl_flags : Z;
  kd_timeout_cycles : Z;
  expected_image_id : Z
}.

Definition view_kernel_dispatch (p : list Z) : rp1_payload_kernel_dispatch_t := {|
  kernel_base_addr := ld 4 0 p;
  arg_buffer_offset := ld 4 4 p;
  arg_count := ld 2 8 p;
  ctrl_flags := ld 2 10 p;
  kd_timeout_cycles := ld 4 12 p;
  expected_image_id := ld 4 16 p
|}.

Record rp1_write_pair_t := { wp_addr : Z; wp_value : Z }.

(** SCALAR_WRITE: [writes[6]]. *)
Definition view_scalar_write (p : list Z) : list rp1_write_pair_t :=
  map (fun w => {| wp_addr := ld 4 (8 * w) p; wp_value := ld 4 (8 * w + 4) p |})
    (seq 0 RP1_SCALAR_WRITE_MAX).

Record rp1_payload_scalar_read_t := { source_addr : Z; sr_target_slot : Z }.

Definition view_scalar_read (p : list Z) : rp1_payload_scalar_read_t :=
  {| source_addr := ld 4 0 p; sr_target_slot := ld 4 4 p |}.

Record rp1_payload_scalar_copy_t := { source_slot : Z; dest_addr : Z }.

Definition view_scalar_copy (p : list Z) : rp1_payload_scalar_copy_t :=
  {| source_slot := ld 4 0 p; dest_addr := ld 4 4 p |}.

Record rp1_payload_signal_t := { sig_target_slot : Z; sig_value : Z; sig_operation : Z }.

Definition view_signal (p : list Z) : rp1_payload_signal_t :=
  {| sig_target_slot := ld 4 0 p; sig_value := ld 4 4 p; sig_operation := ld 2 8 p |}.

Record rp1_payload_wait_t := {
  wait_condition_signal : Z;
  wait_condition_value : Z;
  wait_condition_op : Z
}.

Definition view_wait (p : list Z) : rp1_payload_wait_t := {|
  wait_condition_signal := ld 4 0 p;
  wait_condition_value := ld 4 4 p;
  wait_condition_op := ld 2 8 p
|}.

Record rp1_payload_dma_copy_t := {
  src_addr_lo : Z;
  src_addr_hi : Z;
  dc_dst_addr_lo : Z;
  dc_dst_addr_hi : Z;
  dc_length : Z;
  src_type : Z;
  dc_dst_type : Z
}.

Definition view_dma_copy (p : list Z) : rp1_payload_dma_copy_t := {|
  src_addr_lo := ld 4 0 p;
  src_addr_hi := ld 4 4 p;
  dc_dst_addr_lo := ld 4 8 p;
  dc_dst_addr_hi := ld 4 12 p;
  dc_length := ld 4 16 p;
  src_type := ld 2 20 p;
  dc_dst_type := ld 2 22 p
|}.

Record rp1_payload_dma_fill_t := {
  df_dst_addr_lo : Z;
  df_dst_addr_hi : Z;
  df_length : Z;
  df_pattern : Z;
  df_dst_type : Z
}.

Definition view_dma_fill (p : list Z) : rp1_payload_dma_fill_t := {|
  df_dst_addr_lo := ld 4 0 p;
  df_dst_addr_hi := ld 4 4 p;
  df_length := ld 4 8 p;
  df_pattern := ld 4 12 p;
  df_dst_type := ld 2 16 p
|}.

Record rp1_payload_pdi_load_t := {
  pdi_addr_lo : Z;
  pdi_addr_hi : Z;
  pdi_timeout_cycles : Z;
  pdi_image_id : Z
}.

Definition view_pdi_load (p : list Z) : rp1_payload_pdi_load_t := {|
  pdi_addr_lo := ld 4 0 p;
  pdi_addr_hi := ld 4 4 p;
  pdi_timeout_cycles := ld 4 8 p;
  pdi_image_id := ld 4 12 p
|}.

Record rp1_payload_loop_t := {
  loop_body_start : Z;
  loop_body_end : Z;
  loop_max_iterations : Z;
  loop_condition_signal : Z;
  loop_condition_value : Z;
  loop_condition_op : Z;
  loop_bucket_clear_start : Z;
  loop_bucket_clear_end : Z;
  loop_loop_id : Z
}.

Definition view_loop (p : list Z) : rp1_payload_loop_t := {|
  loop_body_start := ld 4 0 p;
  loop_body_end := ld 4 4 p;
  loop_max_iterations := ld 4 8 p;
  loop_condition_signal := ld 4 12 p;
  loop_condition_value := ld 4 16 p;
  loop_condition_op := ld 2 20 p;
  loop_bucket_clear_start := ld 1 22 p;
  loop_bucket_clear_end := ld 1 23 p;
  loop_loop_id := ld 1 24 p
|}.

Record rp1_payload_cond_t := {
  cond_condition_signal : Z;
  cond_condition_value : Z;
  cond_condition_op : Z;
  cond_bucket_clear_start : Z;
  cond_bucket_clear_end : Z;
  cond_body_start : Z;
  cond_body_end : Z;
  cond_done_bucket : Z;
  cond_done_mask : Z
}.

Definition view_cond (p : list Z) : rp1_payload_cond_t := {|
  cond_condition_signal := ld 4 0 p;
  cond_condition_value := ld 4 4 p;
  cond_condition_op := ld 2 8 p;
  cond_bucket_clear_start := ld 1 10 p;
  cond_bucket_clear_end := ld 1 11 p;
  cond_body_start := ld 4 12 p;
  cond_body_end := ld 4 16 p;
  cond_done_bucket := ld 1 20 p;
  cond_done_mask := ld 4 24 p
|}.

Record rp1_payload_rerun_t := {
  target_node : Z;
  rerun_flags : Z;
  rerun_loop_id : Z
}.

Definition view_rerun (p : list Z) : rp1_payload_rerun_t :=
  {| target_node := ld 4 0 p; rerun_flags := ld 2 4 p; rerun_loop_id := ld 1 6 p |}.

(** The union as one type: the active member named by the opcode. *)
Inductive payload :=
  | P_none
  | P_kernel_dispatch (p : rp1_payload_kernel_dispatch_t)
  | P_scalar_write (p : list rp1_write_pair_t)
  | P_scalar_read (p : rp1_payload_scalar_read_t)
  | P_scalar_copy (p : rp1_payload_scalar_copy_t)
  | P_signal (p : rp1_payload_signal_t)
  | P_wait (p : rp1_payload_wait_t)
  | P_dma_copy (p : rp1_payload_dma_copy_t)
  | P_dma_fill (p : rp1_payload_dma_fill_t)
  | P_pdi_load (p : rp1_payload_pdi_load_t)
  | P_loop (p : rp1_payload_loop_t)
  | P_cond (p : rp1_payload_cond_t)
  | P_rerun (p : rp1_payload_rerun_t).

Definition view_payload (op : opcode) (p : list Z) : payload :=
  match op with
  | NOP | HALT => P_none
  | KERNEL_DISPATCH => P_kernel_dispatch (view_kernel_dispatch p)
  | SCALAR_WRITE => P_scalar_write (view_scalar_write p)
  | SCALAR_READ => P_scalar_read (view_scalar_read p)
  | SCALAR_COPY => P_scalar_copy (view_scalar_copy p)
  | SIGNAL => P_signal (view_signal p)
  | WAIT => P_wait (view_wait p)
  | DMA_COPY => P_dma_copy (view_dma_copy p)
  | DMA_FILL => P_dma_fill (view_dma_fill p)
  | PDI_LOAD => P_pdi_load (view_pdi_load p)
  | LOOP => P_loop (view_loop p)
  | COND => P_cond (view_cond p)
  | RERUN => P_rerun (view_rerun p)
  end.

(** The bytes of the union after a value-initialised packet's active member
    is assigned; reserved bytes stay zero. *)
Definition enc_payload (p : payload) : list Z :=
  match p with
  | P_none => le_bytes 48 0
  | P_kernel_dispatch r =>
      le_bytes 4 (kernel_base_addr r) ++ le_bytes 4 (arg_buffer_offset r) ++
      le_bytes 2 (arg_count r) ++ le_bytes 2 (ctrl_flags r) ++
      le_bytes 4 (kd_timeout_cycles r) ++ le_bytes 4 (expected_image_id r) ++ le_bytes 28 0
  | P_scalar_write ws =>
      concat (map (fun w => le_bytes 4 (wp_addr w) ++ le_bytes 4 (wp_value w)) ws)
  | P_scalar_read r => le_bytes 4 (source_addr r) ++ le_bytes 4 (sr_target_slot r) ++ le_bytes 40 0
  | P_scalar_copy r => le_bytes 4 (source_slot r) ++ le_bytes 4 (dest_addr r) ++ le_bytes 40 0
  | P_signal r =>
      le_bytes 4 (sig_target_slot r) ++ le_bytes 4 (sig_value r) ++
      le_bytes 2 (sig_operation r) ++ le_bytes 38 0
  | P_wait r =>
      le_bytes 4 (wait_condition_signal r) ++ le_bytes 4 (wait_condition_value r) ++
      le_bytes 2 (wait_condition_op r) ++ le_bytes 38 0
  | P_dma_copy r =>
      le_bytes 4 (src_addr_lo r) ++ le_bytes 4 (src_addr_hi r) ++
      le_bytes 4 (dc_dst_addr_lo r) ++ le_bytes 4 (dc_dst_addr_hi r) ++
      le_bytes 4 (dc_length r) ++ le_bytes 2 (src_type r) ++ le_bytes 2 (dc_dst_type r) ++
      le_bytes 24 0
  | P_dma_fill r =>
      le_bytes 4 (df_dst_addr_lo r) ++ le_bytes 4 (df_dst_addr_hi r) ++
      le_bytes 4 (df_length r) ++ le_bytes 4 (df_pattern r) ++ le_bytes 2 (df_dst_type r) ++
      le_bytes 30 0
  | P_pdi_load r =>
      le_bytes 4 (pdi_addr_lo r) ++ le_bytes 4 (pdi_addr_hi r) ++
      le_bytes 4 (pdi_timeout_cycles r) ++ le_bytes 4 (pdi_image_id r) ++ le_bytes 32 0
  | P_loop r =>
      le_bytes 4 (loop_body_start r) ++ le_bytes 4 (loop_body_end r) ++
      le_bytes 4 (loop_max_iterations r) ++ le_bytes 4 (loop_condition_signal r) ++
      le_bytes 4 (loop_condition_value r) ++ le_bytes 2 (loop_condition_op r) ++
      le_bytes 1 (loop_bucket_clear_start r) ++ le_bytes 1 (loop_bucket_clear_end r) ++
      le_bytes 1 (loop_loop_id r) ++ le_bytes 23 0
  | P_cond r =>
      le_bytes 4 (cond_condition_signal r) ++ le_bytes 4 (cond_condition_value r) ++
      le_bytes 2 (cond_condition_op r) ++ le_bytes 1 (cond_bucket_clear_start r) ++
      le_bytes 1 (cond_bucket_clear_end r) ++ le_bytes 4 (cond_body_start r) ++
      le_bytes 4 (cond_body_end r) ++ le_bytes 1 (cond_done_bucket r) ++ le_bytes 3 0 ++
      le_bytes 4 (cond_done_mask r) ++ le_bytes 20 0
  | P_rerun r =>
      le_bytes 4 (target_node r) ++ le_bytes 2 (rerun_flags r) ++
      le_bytes 1 (rerun_loop_id r) ++ le_bytes 41 0
  end.

(** Every field of the member is a value of its C type. *)
Definition payload_wf (p : payload) : Prop :=
  match p with
  | P_none => True
  | P_kernel_dispatch r =>
      is_u32 (kernel_base_addr r) /\ is_u32 (arg_buffer_offset r) /\ is_u16 (arg_count r) /\
      is_u16 (ctrl_flags r) /\ is_u32 (kd_timeout_cycles r) /\ is_u32 (expected_image_id r)
  | P_scalar_write ws =>
      length ws = RP1_SCALAR_WRITE_MAX /\
      Forall (fun w => is_u32 (wp_addr w) /\ is_u32 (wp_value w)) ws
  | P_scalar_read r => is_u32 (source_addr r) /\ is_u32 (sr_target_slot r)
  | P_scalar_copy r => is_u32 (source_slot r) /\ is_u32 (dest_addr r)
  | P_signal r => is_u32 (sig_target_slot r) /\ is_u32 (sig_value r) /\ is_u16 (sig_operation r)
  | P_wait r =>
      is_u32 (wait_condition_signal r) /\ is_u32 (wait_condition_value r) /\
      is_u16 (wait_condition_op r)
  | P_dma_copy r =>
      is_u32 (src_addr_lo r) /\ is_u32 (src_addr_hi r) /\ is_u32 (dc_dst_addr_lo r) /\
      is_u32 (dc_dst_addr_hi r) /\ is_u32 (dc_length r) /\ is_u16 (src_type r) /\
      is_u16 (dc_dst_type r)
  | P_dma_fill r =>
      is_u32 (df_dst_addr_lo r) /\ is_u32 (df_dst_addr_hi r) /\ is_u32 (df_length r) /\
      is_u32 (df_pattern r) /\ is_u16 (df_dst_type r)
  | P_pdi_load r =>
      is_u32 (pdi_addr_lo r) /\ is_u32 (pdi_addr_hi r) /\ is_u32 (pdi_timeout_cycles r) /\
      is_u32 (pdi_image_id r)
  | P_loop r =>
      is_u32 (loop_body_start r) /\ is_u32 (loop_body_end r) /\ is_u32 (loop_max_iterations r) /\
      is_u32 (loop_condition_signal r) /\ is_u32 (loop_condition_value r) /\
      is_u16 (loop_condition_op r) /\ is_u8 (loop_bucket_clear_start r) /\
      is_u8 (loop_bucket_clear_end r) /\ is_u8 (loop_loop_id r)
  | P_cond r =>
      is_u32 (cond_condition_signal r) /\ is_u32 (cond_condition_value r) /\
      is_u16 (cond_condition_op r) /\ is_u8 (cond_bucket_clear_start r) /\
      is_u8 (cond_bucket_clear_end r) /\ is_u32 (cond_body_start r) /\
      is_u32 (cond_body_end r) /\ is_u8 (cond_done_bucket r) /\ is_u32 (cond_done_mask r)
  | P_rerun r => is_u32 (target_node r) /\ is_u16 (rerun_flags r) /\ is_u8 (rerun_loop_id r)
  end.

(** The opcodes whose active member is [p]. *)
Definition member_of (op : opcode) (p : payload) : Prop :=
  match op, p with
  | (NOP | HALT), P_none
  | KERNEL_DISPATCH, P_kernel_dispatch _ | SCALAR_WRITE, P_scalar_write _
  | SCALAR_READ, P_scalar_read _ | SCALAR_COPY, P_scalar_copy _ | SIGNAL, P_signal _
  | WAIT, P_wait _ | DMA_COPY, P_dma_copy _ | DMA_FILL, P_dma_fill _
  | PDI_LOAD, P_pdi_load _ | LOOP, P_loop _ | COND, P_cond _ | RERUN, P_rerun _ => True
  | _, _ => False
  end.

(** ** Node packet: 16-byte header and payload *)

Record rp1_node_t := {
  node_opcode : Z;
  node_flags : Z;
  barrier_await_mask : Z;
  barrier_set_mask : Z;
  barrier_await_bucket : Z;
  barrier_set_bucket : Z;
  node_status_field : Z;
  node_payload : list Z
}.

Definition with_status (n : rp1_node_t) (v : Z) : rp1_node_t := {|
  node_opcode := node_opcode n;
  node_flags := node_flags n;
  barrier_await_mask := barrier_await_mask n;
  barrier_set_mask := barrier_set_mask n;
  barrier_await_bucket := barrier_await_bucket n;
  barrier_set_bucket := barrier_set_bucket n;
  node_status_field := v;
  node_payload := node_payload n
|}.

Definition encode_node (n : rp1_node_t) : list Z :=
  le_bytes 2 (node_opcode n) ++ le_bytes 2 (node_flags n) ++
  le_bytes 4 (barrier_await_mask n) ++ le_bytes 4 (barrier_set_mask n) ++
  le_bytes 1 (barrier_await_bucket n) ++ le_bytes 1 (barrier_set_bucket n) ++
  le_bytes 2 (node_status_field n) ++ node_payload n.

Definition decode_node (bs : list Z) : rp1_node_t := {|
  node_opcode := ld 2 0 bs;
  node_flags := ld 2 2 bs;
  barrier_await_mask := ld 4 4 bs;
  barrier_set_mask := ld 4 8 bs;
  barrier_await_bucket := ld 1 12 bs;
  barrier_set_bucket := ld 1 13 bs;
  node_status_field := ld 2 14 bs;
  node_payload := drop 16 bs
|}.

Definition node_wf (n : rp1_node_t) : Prop :=
  is_u16 (node_opcode n) /\ is_u16 (node_flags n) /\ is_u32 (barrier_await_mask n) /\
  is_u32 (barrier_set_mask n) /\ is_u8 (barrier_await_bucket n) /\
  is_u8 (barrier_set_bucket n) /\ is_u16 (node_status_field n) /\
  length (node_payload n) = 48%nat /\ Forall is_u8 (node_payload n).

(** ** Control block

    Concurrently owned at 32-bit word granularity: the model is a map from
    its fields to words. *)

Inductive ctrl_field :=
  | magic | version | node_count | cq_size
  | node_base_lo | node_base_hi | cq_base_lo | cq_base_hi
  | graph_seq | graph_done_seq | cq_write_idx | cq_read_idx
  | rp1_state | rp1_error_code | rp1_current_node | heartbeat
  | arg_buf_base_lo | arg_buf_base_hi | sig_array_base_lo | sig_array_base_hi
  | trace_enable | trace_base_lo | trace_base_hi | trace_size | trace_write_idx
  | capabilities | pdi_ipi_platform_id
  | terminal_error_node | terminal_error_detail | terminal_error_aux.

#[export] Instance ctrl_field_eq_dec : EqDecision ctrl_field.
Proof. solve_decision. Defined.

Abbreviation rp1_ctrl_t := (ctrl_field -> Z).

(** [offsetof(rp1_ctrl_t, f)] *)
Definition ctrl_offset (f : ctrl_field) : Z :=
  match f with
  | magic => 0x00 | version => 0x04 | node_count => 0x08 | cq_size => 0x0C
  | node_base_lo => 0x10 | node_base_hi => 0x14 | cq_base_lo => 0x18 | cq_base_hi => 0x1C
  | graph_seq => 0x20 | graph_done_seq => 0x24 | cq_write_idx => 0x28 | cq_read_idx => 0x2C
  | rp1_state => 0x30 | rp1_error_code => 0x34 | rp1_current_node => 0x38 | heartbeat => 0x3C
  | arg_buf_base_lo => 0x40 | arg_buf_base_hi => 0x44
  | sig_array_base_lo => 0x48 | sig_array_base_hi => 0x4C
  | trace_enable => 0x50 | trace_base_lo => 0x54 | trace_base_hi => 0x58
  | trace_size => 0x5C | trace_write_idx => 0x60
  | capabilities => 0x64 | pdi_ipi_platform_id => 0x68
  | terminal_error_node => 0x6C | terminal_error_detail => 0x70 | terminal_error_aux => 0x74
  end.

(** ** Signal slots, completion-queue and trace entries, in-flight entries *)

Record rp1_signal_slot_t := {
  slot_value : Z;
  slot_reserved : Z;
  last_writer_node : Z;
  slot_flags : Z
}.

Record rp1_cq_entry_t := {
  cq_node_index : Z;
  cq_status : Z;
  cq_error_detail : Z;
  cq_timestamp : Z
}.

Record rp1_trace_entry_t := {
  te_timestamp : Z;
  te_event : Z;
  te_node_index : Z;
  te_aux0 : Z;
  te_aux1 : Z
}.

Record rp1_inflight_t := {
  if_base_addr : Z;
  if_node_index : Z;
  if_set_mask : Z;
  if_timeout_start : Z;
  if_timeout_cycles : Z;
  if_set_bucket : Z;
  if_infinite : Z;
  if_settle_polls : Z
}.

(** ** Round trips *)

Lemma mod_pow_small w v : 0 <= v < 256 ^ Z.of_nat w -> v mod 256 ^ Z.of_nat w = v.
Proof. apply Z.mod_small. Qed.

Lemma ld_last w v : ld w 0 (le_bytes w v) = v mod 256 ^ Z.of_nat w.
Proof. rewrite <-(app_nil_r (le_bytes w v)). apply ld_here. Qed.

(** Walks an encoded structure to the field a view loads. *)
Ltac ld_walk :=
  repeat first
    [ rewrite ld_here
    | rewrite ld_last
    | rewrite ld_skip by (cbn; lia); cbn [Nat.sub Nat.add Nat.mul] ];
  rewrite ?mod_pow_small by assumption.

Lemma length_enc_payload p : payload_wf p -> length (enc_payload p) = 48%nat.
Proof.
  destruct p; cbn [enc_payload]; intros Hwf; rewrite ?length_app, ?length_le_bytes; try done.
  destruct Hwf as [Hl _].
  assert (Hc : forall ws : list rp1_write_pair_t,
    length (concat (map (fun w => le_bytes 4 (wp_addr w) ++ le_bytes 4 (wp_value w)) ws))
      = (8 * length ws)%nat).
  { induction ws as [|w ws IH]; [done|].
    cbn [map concat length]. rewrite !length_app, !length_le_bytes, IH. lia. }
  rewrite Hc, Hl. done.
Qed.

Lemma view_scalar_write_enc ws :
  payload_wf (P_scalar_write ws) -> view_scalar_write (enc_payload (P_scalar_write ws)) = ws.
Proof.
  intros [Hl Hf]. unfold RP1_SCALAR_WRITE_MAX in Hl.
  do 6 (destruct ws as [|[? ?] ws]; [done|]). destruct ws; [|done].
  repeat match goal with H : Forall _ (_ :: _) |- _ => inversion_clear H end.
  cbn [wp_addr wp_value] in *; destruct_and!.
  cbn [enc_payload map concat wp_addr wp_value]. rewrite <-!app_assoc, app_nil_r.
  unfold view_scalar_write, RP1_SCALAR_WRITE_MAX. cbn [seq map].
  cbn [Nat.mul Nat.add]. ld_walk. done.
Qed.

(** The view an opcode selects reads back exactly the member that was
    written, and the member fills the 48-byte union. *)
Lemma payload_roundtrip op p :
  member_of op p -> payload_wf p ->
  view_payload op (enc_payload p) = p /\ length (enc_payload p) = 48%nat.
Proof.
  intros Hm Hwf. split; [|by apply length_enc_payload].
  destruct op, p; try (by destruct Hm); cbn [view_payload];
    try (by rewrite view_scalar_write_enc); try done;
    cbn [payload_wf] in Hwf; destruct_and!; destruct p; f_equal;
    cbn [enc_payload kernel_base_addr arg_buffer_offset arg_count ctrl_flags kd_timeout_cycles
      expected_image_id source_addr sr_target_slot source_slot dest_addr sig_target_slot sig_value
      sig_operation wait_condition_signal wait_condition_value wait_condition_op src_addr_lo
      src_addr_hi dc_dst_addr_lo dc_dst_addr_hi dc_length src_type dc_dst_type df_dst_addr_lo
      df_dst_addr_hi df_length df_pattern df_dst_type pdi_addr_lo pdi_addr_hi pdi_timeout_cycles
      pdi_image_id loop_body_start loop_body_end loop_max_iterations loop_condition_signal
      loop_condition_value loop_condition_op loop_bucket_clear_start loop_bucket_clear_end
      loop_loop_id cond_condition_signal cond_condition_value cond_condition_op
      cond_bucket_clear_start cond_bucket_clear_end cond_body_start cond_body_end
      cond_done_bucket cond_done_mask target_node rerun_flags rerun_loop_id] in *;
    unfold view_kernel_dispatch, view_scalar_read, view_scalar_copy, view_signal, view_wait,
      view_dma_copy, view_dma_fill, view_pdi_load, view_loop, view_cond, view_rerun;
    ld_walk; done.
Qed.

Lemma node_roundtrip n :
  node_wf n -> decode_node (encode_node n) = n /\ length (encode_node n) = 64%nat.
Proof.
  intros (H1&H2&H3&H4&H5&H6&H7&H8&H9). split.
  - destruct n. unfold encode_node, decode_node.
    cbn [node_opcode node_flags barrier_await_mask barrier_set_mask barrier_await_bucket
      barrier_set_bucket node_status_field node_payload] in *.
    f_equal; ld_walk; done.
  - unfold encode_node. rewrite !length_app, !length_le_bytes, H8. done.
Qed.
