(* ===== verification/Rp1Store.v ===== *)
(** * RP1 static storage (rp1_store.c, rp1_store.h, rp1_hal.h)

    The firmware state: the BTCM stores (barriers, node statuses, loop
    counters, in-flight table), the DDR structures reached through the
    pointers the control block supplies, and the hardware behind the HAL.

    An array is a function of its index and every access carries the bounds
    check C leaves out: a BTCM array has its declared length, and an element
    of a DDR structure must lie inside the 64 MB shared window.  A failed
    check is [Ub].  The DDR structures are separate typed stores, so the
    model describes configurations whose regions do not overlap, like the
    default layout of the protocol, the only one Rp1Submitter programs. *)

From S2P Require Import Prelude Rp1Protocol.

(** ** The hardware abstraction layer (rp1_hal.c) and the platform header

    [Hal] is the hook table [rp1_hal_hooks_t] over an opaque context, with
    the PMU set-up and one more hook, [hal_host]: what the host has written to its own words of
    the shared memory (the CQ consumer cursor and the signal slots) when the
    firmware next reads one of them.  It may act at every such read. *)

Class Hal (HW : Type) := {
  hal_read32 : Z -> HW -> Z * HW;
  hal_write32 : Z -> Z -> HW -> HW;
  hal_barrier : HW -> HW;
  hal_pmu_init : HW -> HW;
  hal_cycles : HW -> Z * HW;
  hal_host : HW -> rp1_ctrl_t -> (Z -> rp1_signal_slot_t) ->
             HW * Z * (Z -> rp1_signal_slot_t)
}.

(** rp1_platform_config.h is generated; its values are parameters. *)
Class Platform := {
  RP1_PLATFORM_ID : Z;
  RP1_R5_FREQ_HZ : Z;
  RP1_PDI_IPI_REQUEST_BASE : Z;
  RP1_PDI_IPI_RESPONSE_BASE : Z;
  RP1_PDI_IPI_TRIGGER_REG : Z;
  RP1_PDI_IPI_OBSERVATION_REG : Z;
  RP1_PDI_IPI_TARGET_MASK : Z
}.

Definition rp1_timeout_elapsed (start timeout now : Z) : bool :=
  timeout <=? sub32 now start.

Definition RP1_PMU_TICKS_PER_SECOND `{Platform} : Z :=
  u32 (RP1_R5_FREQ_HZ + RP1_PMU_CYCLE_DIVISOR - 1) / RP1_PMU_CYCLE_DIVISOR.

Definition RP1_TIMEOUT_TICKS `{Platform} (milliseconds : Z) : Z :=
  u32 (u64 (RP1_PMU_TICKS_PER_SECOND * milliseconds + 999) / 1000).

Definition RP1_DEFAULT_KERNEL_TIMEOUT_TICKS `{Platform} : Z :=
  RP1_TIMEOUT_TICKS RP1_DEFAULT_KERNEL_TIMEOUT_MS.
Definition RP1_DEFAULT_PDI_TIMEOUT_TICKS `{Platform} : Z :=
  RP1_TIMEOUT_TICKS RP1_DEFAULT_PDI_TIMEOUT_MS.

(** ** State *)

(** Scalar globals and the resolved DDR pointers. *)
Inductive global :=
  | g_graph_start_cycles | g_trace_size | g_trace_enable | g_active_image_id
  | g_cq_blocked
  | g_nodes | g_cq | g_signals | g_arg_buf | g_trace.

#[export] Instance global_eq_dec : EqDecision global.
Proof. solve_decision. Defined.

Record st (HW : Type) := mkst {
  ctrl : rp1_ctrl_t;
  glob : global -> Z;
  barriers : Z -> Z;
  node_status : Z -> Z;
  loop_iters : Z -> Z;
  inflight : list rp1_inflight_t;  (* g_inflight[0 .. g_inflight_count) *)
  nodes : Z -> rp1_node_t;
  cq : Z -> rp1_cq_entry_t;
  signals : Z -> rp1_signal_slot_t;
  arg_words : Z -> Z;
  trace_ring : Z -> rp1_trace_entry_t;
  ddr : Z -> Z;                    (* the rest of DDR, by byte address *)
  hw : HW
}.
Arguments mkst {HW}.
Arguments ctrl {HW}.
Arguments glob {HW}.
Arguments barriers {HW}.
Arguments node_status {HW}.
Arguments loop_iters {HW}.
Arguments inflight {HW}.
Arguments nodes {HW}.
Arguments cq {HW}.
Arguments signals {HW}.
Arguments arg_words {HW}.
Arguments trace_ring {HW}.
Arguments ddr {HW}.
Arguments hw {HW}.

Section setters.
Context {HW : Type}.
Implicit Types s : st HW.

Definition set_ctrl f v s : st HW :=
  mkst (<[f := v]> (ctrl s)) (glob s) (barriers s) (node_status s) (loop_iters s)
    (inflight s) (nodes s) (cq s) (signals s) (arg_words s) (trace_ring s) (ddr s) (hw s).
Definition set_glob g v s : st HW :=
  mkst (ctrl s) (<[g := v]> (glob s)) (barriers s) (node_status s) (loop_iters s)
    (inflight s) (nodes s) (cq s) (signals s) (arg_words s) (trace_ring s) (ddr s) (hw s).
Definition set_barriers (v : Z -> Z) s : st HW :=
  mkst (ctrl s) (glob s) v (node_status s) (loop_iters s)
    (inflight s) (nodes s) (cq s) (signals s) (arg_words s) (trace_ring s) (ddr s) (hw s).
Definition set_status_array (v : Z -> Z) s : st HW :=
  mkst (ctrl s) (glob s) (barriers s) v (loop_iters s)
    (inflight s) (nodes s) (cq s) (signals s) (arg_words s) (trace_ring s) (ddr s) (hw s).
Definition set_loop_iters (v : Z -> Z) s : st HW :=
  mkst (ctrl s) (glob s) (barriers s) (node_status s) v
    (inflight s) (nodes s) (cq s) (signals s) (arg_words s) (trace_ring s) (ddr s) (hw s).
Definition set_inflight (v : list rp1_inflight_t) s : st HW :=
  mkst (ctrl s) (glob s) (barriers s) (node_status s) (loop_iters s)
    v (nodes s) (cq s) (signals s) (arg_words s) (trace_ring s) (ddr s) (hw s).
Definition set_nodes (v : Z -> rp1_node_t) s : st HW :=
  mkst (ctrl s) (glob s) (barriers s) (node_status s) (loop_iters s)
    (inflight s) v (cq s) (signals s) (arg_words s) (trace_ring s) (ddr s) (hw s).
Definition set_cq (v : Z -> rp1_cq_entry_t) s : st HW :=
  mkst (ctrl s) (glob s) (barriers s) (node_status s) (loop_iters s)
    (inflight s) (nodes s) v (signals s) (arg_words s) (trace_ring s) (ddr s) (hw s).
Definition set_signals (v : Z -> rp1_signal_slot_t) s : st HW :=
  mkst (ctrl s) (glob s) (barriers s) (node_status s) (loop_iters s)
    (inflight s) (nodes s) (cq s) v (arg_words s) (trace_ring s) (ddr s) (hw s).
Definition set_trace_ring (v : Z -> rp1_trace_entry_t) s : st HW :=
  mkst (ctrl s) (glob s) (barriers s) (node_status s) (loop_iters s)
    (inflight s) (nodes s) (cq s) (signals s) (arg_words s) v (ddr s) (hw s).
Definition set_ddr (v : Z -> Z) s : st HW :=
  mkst (ctrl s) (glob s) (barriers s) (node_status s) (loop_iters s)
    (inflight s) (nodes s) (cq s) (signals s) (arg_words s) (trace_ring s) v (hw s).
Definition set_hw (v : HW) s : st HW :=
  mkst (ctrl s) (glob s) (barriers s) (node_status s) (loop_iters s)
    (inflight s) (nodes s) (cq s) (signals s) (arg_words s) (trace_ring s) (ddr s) v.
End setters.

(** ** HAL calls *)

Section hal.
Context {HW : Type} `{!Hal HW}.

Definition rp1_mmio_read32 (address : Z) : SM (st HW) Z := fun s =>
  let '(v, hw') := hal_read32 address (hw s) in Ret (u32 v) (set_hw hw' s).
Definition rp1_mmio_write32 (address value : Z) : SM (st HW) unit :=
  modify (fun s => set_hw (hal_write32 address value (hw s)) s).
Definition rp1_barrier : SM (st HW) unit :=
  modify (fun s => set_hw (hal_barrier (hw s)) s).
Definition rp1_pmu_init : SM (st HW) unit :=
  modify (fun s => set_hw (hal_pmu_init (hw s)) s).
Definition rp1_cycles : SM (st HW) Z := fun s =>
  let '(v, hw') := hal_cycles (hw s) in Ret (u32 v) (set_hw hw' s).

(** The host's writes become visible. *)
Definition host_writes : SM (st HW) unit := fun s =>
  let '(hw', rd, sigs) := hal_host (hw s) (ctrl s) (signals s) in
  Ret tt (set_hw hw' (set_ctrl cq_read_idx (u32 rd) (set_signals sigs s))).
End hal.

(** Whatever the hardware does, it changes only the hardware state, and the
    host only its own words. *)
Section hal_post.
Context {HW : Type} `{!Hal HW} {ub nf : Prop}.
Implicit Types s : st HW.

Lemma post_mmio_read32 a s Q :
  (forall v h, Q (u32 v) (set_hw h s)) -> post ub nf (rp1_mmio_read32 a) s Q.
Proof. intros H. unfold rp1_mmio_read32, post. destruct (hal_read32 _ _). apply H. Qed.

Lemma post_mmio_write32 a v s Q :
  (forall h, Q tt (set_hw h s)) -> post ub nf (rp1_mmio_write32 a v) s Q.
Proof. intros H. apply H. Qed.

Lemma post_barrier s Q : (forall h, Q tt (set_hw h s)) -> post ub nf rp1_barrier s Q.
Proof. intros H. apply H. Qed.

Lemma post_cycles s Q : (forall v h, Q (u32 v) (set_hw h s)) -> post ub nf rp1_cycles s Q.
Proof. intros H. unfold rp1_cycles, post. destruct (hal_cycles _). apply H. Qed.

Lemma post_host_writes s Q :
  (forall h rd sigs, Q tt (set_hw h (set_ctrl cq_read_idx (u32 rd) (set_signals sigs s)))) ->
  post ub nf host_writes s Q.
Proof. intros H. unfold host_writes, post. destruct (hal_host _ _ _) as [[??]?]. apply H. Qed.
End hal_post.

(** ** Bounds-checked accesses *)

Definition in_window (addr len : Z) : bool :=
  (RP1_CTRL_PHYS_ADDR <=? addr) && (addr + len <=? RP1_CTRL_PHYS_ADDR + RP1_CTRL_WINDOW_SIZE).

Section access.
Context {HW : Type} `{!Hal HW}.

Definition get_ctrl (f : ctrl_field) : SM (st HW) Z := gets (fun s => ctrl s f).
Definition put_ctrl (f : ctrl_field) (v : Z) : SM (st HW) unit := modify (set_ctrl f v).
Definition get_glob (g : global) : SM (st HW) Z := gets (fun s => glob s g).
Definition put_glob (g : global) (v : Z) : SM (st HW) unit := modify (set_glob g v).

(** [g_nodes[i]] *)
Definition get_node (i : Z) : SM (st HW) rp1_node_t :=
  p ← get_glob g_nodes;
  checked ((0 <=? i) && in_window (p + sizeof_node * i) sizeof_node);;
  gets (fun s => nodes s i).

(** [g_node_status[i]] *)
Definition get_status (i : Z) : SM (st HW) Z :=
  checked (in_bounds RP1_MAX_NODES i);; gets (fun s => node_status s i).

(** [g_barriers[b]] and [g_barriers[b] |= mask], [g_barriers[b] = 0] *)
Definition get_barrier (b : Z) : SM (st HW) Z :=
  checked (in_bounds RP1_MAX_BUCKETS b);; gets (fun s => barriers s b).
Definition raise_barrier (b mask : Z) : SM (st HW) unit :=
  checked (in_bounds RP1_MAX_BUCKETS b);;
  modify (fun s => set_barriers (<[b := Z.lor (barriers s b) mask]> (barriers s)) s).
Definition clear_barrier (b : Z) : SM (st HW) unit :=
  checked (in_bounds RP1_MAX_BUCKETS b);;
  modify (fun s => set_barriers (<[b := 0]> (barriers s)) s).

(** [g_loop_iters[id]] *)
Definition get_loop_iter (id : Z) : SM (st HW) Z :=
  checked (in_bounds RP1_MAX_LOOPS id);; gets (fun s => loop_iters s id).
Definition put_loop_iter (id v : Z) : SM (st HW) unit :=
  checked (in_bounds RP1_MAX_LOOPS id);;
  modify (fun s => set_loop_iters (<[id := v]> (loop_iters s)) s).

(** [g_signals[slot]]; a read observes the host's writes. *)
Definition signal_ok (slot : Z) : SM (st HW) unit :=
  p ← get_glob g_signals;
  checked ((0 <=? slot) && in_window (p + sizeof_signal_slot * slot) sizeof_signal_slot).
Definition get_signal (slot : Z) : SM (st HW) Z :=
  signal_ok slot;; host_writes;; gets (fun s => u32 (slot_value (signals s slot))).
Definition put_signal (slot v writer : Z) : SM (st HW) unit :=
  signal_ok slot;;
  modify (fun s => set_signals (<[slot := {|
    slot_value := v;
    slot_reserved := slot_reserved (signals s slot);
    last_writer_node := writer;
    slot_flags := slot_flags (signals s slot) |}]> (signals s)) s).

(** A [uint32_t] at an arbitrary DDR address, for the software DMA.  The
    shared window is kept in the typed stores above, so an access to it is
    outside this model. *)
Definition outside_window (a : Z) : bool :=
  (a + 4 <=? RP1_CTRL_PHYS_ADDR) || (RP1_CTRL_PHYS_ADDR + RP1_CTRL_WINDOW_SIZE <=? a).
Definition ddr_load (a : Z) : SM (st HW) Z :=
  checked (outside_window a);;
  gets (fun s => u8 (ddr s a) + 2 ^ 8 * u8 (ddr s (a + 1)) +
                 2 ^ 16 * u8 (ddr s (a + 2)) + 2 ^ 24 * u8 (ddr s (a + 3))).
Definition ddr_store (a v : Z) : SM (st HW) unit :=
  checked (outside_window a);;
  modify (fun s => set_ddr (<[a + 3 := u8 (v / 2 ^ 24)]> (<[a + 2 := u8 (v / 2 ^ 16)]>
    (<[a + 1 := u8 (v / 2 ^ 8)]> (<[a := u8 v]> (ddr s))))) s).

(** [g_arg_buf[w]], a word of the argument buffer *)
Definition get_arg_word (w : Z) : SM (st HW) Z :=
  p ← get_glob g_arg_buf;
  checked ((0 <=? w) && in_window (p + 4 * w) 4);;
  gets (fun s => u32 (arg_words s w)).
End access.

(** ** rp1_store.c *)

Definition make64 (lo hi : Z) : Z := Z.lor (Z.shiftl hi 32) lo.

(** [(T * )(uintptr_t)make64(lo, hi)]: a Cortex-R5 pointer has 32 bits. *)
Definition to_ptr (lo hi : Z) : Z := u32 (make64 lo hi).

Definition is_power_of_two (value : Z) : bool :=
  negb (value =? 0) && (Z.land value (sub32 value 1) =? 0).

Definition valid_window_range (lo hi size alignment : Z) : bool :=
  if negb (hi =? 0) || (lo <? RP1_CTRL_PHYS_ADDR) || (RP1_CTRL_WINDOW_SIZE <? size) then false
  else if negb (alignment =? 0) && negb (Z.land lo (sub32 alignment 1) =? 0) then false
  else sub32 lo RP1_CTRL_PHYS_ADDR <=? sub32 RP1_CTRL_WINDOW_SIZE size.

(** The configuration checks of [rp1_store_init], in order: [Some (detail,
    aux)] for the first that fails. *)
Definition check_config (c : rp1_ctrl_t) : option (Z * Z) :=
  let node_count := c node_count in
  let cq_size := c cq_size in
  if (node_count =? 0) || (RP1_MAX_NODES <? node_count) then
    Some (RP1_CONFIG_NODE_COUNT, node_count)
  else if negb (valid_window_range (c node_base_lo) (c node_base_hi)
                  (u32 (node_count * sizeof_node)) 64) then
    Some (RP1_CONFIG_NODE_BASE, c node_base_lo)
  else if negb (is_power_of_two cq_size) || (RP1_MAX_CQ_ENTRIES <? cq_size) then
    Some (RP1_CONFIG_CQ_SIZE, cq_size)
  else if negb (valid_window_range (c cq_base_lo) (c cq_base_hi)
                  (u32 (cq_size * sizeof_cq_entry)) 16) then
    Some (RP1_CONFIG_CQ_BASE, c cq_base_lo)
  else if cq_size <? sub32 (c cq_write_idx) (c cq_read_idx) then
    Some (RP1_CONFIG_CQ_CURSORS, sub32 (c cq_write_idx) (c cq_read_idx))
  else if negb (valid_window_range (c arg_buf_base_lo) (c arg_buf_base_hi) 4 4) then
    Some (RP1_CONFIG_ARG_BASE, c arg_buf_base_lo)
  else if negb (valid_window_range (c sig_array_base_lo) (c sig_array_base_hi)
                  (u32 (RP1_MAX_SIGNALS * sizeof_signal_slot)) 16) then
    Some (RP1_CONFIG_SIGNAL_BASE, c sig_array_base_lo)
  else if negb (c trace_enable =? 0) &&
          (negb (is_power_of_two (c trace_size)) || (RP1_MAX_TRACE_ENTRIES <? c trace_size) ||
           negb (valid_window_range (c trace_base_lo) (c trace_base_hi)
                   (u32 (c trace_size * sizeof_trace_entry)) 16)) then
    Some (RP1_CONFIG_TRACE, c trace_size)
  else None.

Section store.
Context {HW : Type} `{!Hal HW}.

Definition rp1_store_reset_graph : SM (st HW) unit :=
  modify (fun s => set_inflight [] (set_loop_iters (fun _ => 0)
    (set_status_array (fun _ => 0) (set_barriers (fun _ => 0) s)))).

(** [g_nodes[i].status = v] *)
Definition put_packet_status (i v : Z) : SM (st HW) unit :=
  p ← get_glob g_nodes;
  checked ((0 <=? i) && in_window (p + sizeof_node * i) sizeof_node);;
  modify (fun s => set_nodes (<[i := with_status (nodes s i) v]> (nodes s)) s).

(** [None] is the C result 0, [Some (detail, aux)] the result -1. *)
Definition rp1_store_init : SM (st HW) (option (Z * Z)) :=
  c ← gets ctrl;
  match check_config c with
  | Some e => mret (Some e)
  | None =>
      put_glob g_nodes (to_ptr (c node_base_lo) (c node_base_hi));;
      put_glob g_cq (to_ptr (c cq_base_lo) (c cq_base_hi));;
      put_glob g_signals (to_ptr (c sig_array_base_lo) (c sig_array_base_hi));;
      put_glob g_arg_buf (to_ptr (c arg_buf_base_lo) (c arg_buf_base_hi));;
      put_glob g_trace (to_ptr (c trace_base_lo) (c trace_base_hi));;
      put_glob g_trace_size (c trace_size);;
      put_glob g_trace_enable (c trace_enable);;
      put_ctrl trace_write_idx 0;;
      rp1_store_reset_graph;;
      for_up (Z.to_nat (c node_count)) 0 (fun i => put_packet_status i RP1_NODE_PENDING);;
      mret None
  end.

Definition rp1_clear_error_latch : SM (st HW) unit :=
  put_ctrl rp1_error_code 0;;
  put_ctrl terminal_error_node RP1_TERMINAL_ERROR_NODE_NONE;;
  put_ctrl terminal_error_detail 0;;
  put_ctrl terminal_error_aux 0.

Definition rp1_latch_error (code node detail aux : Z) : SM (st HW) unit :=
  e ← get_ctrl rp1_error_code;
  if negb (Z.land e RP1_ERR_CODE_MASK =? 0) then mret tt
  else
    put_ctrl rp1_error_code (Z.lor (Z.land e RP1_ERR_RECOVERY_REQUIRED) code);;
    put_ctrl terminal_error_node node;;
    put_ctrl terminal_error_detail detail;;
    put_ctrl terminal_error_aux aux.

Definition rp1_mark_recovery_required : SM (st HW) unit :=
  e ← get_ctrl rp1_error_code;
  put_ctrl rp1_error_code (Z.lor e RP1_ERR_RECOVERY_REQUIRED).
End store.
