(* ===== verification/Rp1Loop.v ===== *)
(** * The RP1 graph dispatch loop (rp1_loop.c) and PDI loader (rp1_pdi.c)

    One definition per C function, in the order of the source.  A scan pass
    is [activate_nodes], [check_inflight], [check_waits]; [rp1_loop] repeats
    it and [quiesce_inflight] drains tracked kernels after a fatal result.
    The loops that wait for hardware or the host take fuel; the loops over
    nodes and in-flight entries are bounded by what they iterate over. *)

From S2P Require Import Prelude Rp1Protocol Rp1Store.

(** ** rp1_pdi.c *)

Inductive rp1_pdi_outcome_t :=
  | RP1_PDI_RESULT_OK | RP1_PDI_RESULT_TIMEOUT | RP1_PDI_RESULT_PLM_ERROR.

Record rp1_pdi_result_t := {
  pdi_outcome : rp1_pdi_outcome_t;
  pdi_status : Z;
  pdi_detail : Z
}.

Definition RP1_PDI_CMD_LOAD : Z := 0x00030701.
Definition RP1_PDI_SRC_DDR : Z := 0x0000000F.

Section pdi.
Context {HW : Type} `{!Hal HW} `{!Platform}.

(** Polls the observation register; [false] when the deadline passed. *)
Fixpoint pdi_wait (fuel : nat) (start timeout : Z) : SM (st HW) bool :=
  match fuel with
  | O => no_fuel
  | S fuel' =>
      obs ← rp1_mmio_read32 RP1_PDI_IPI_OBSERVATION_REG;
      if Z.land obs RP1_PDI_IPI_TARGET_MASK =? 0 then mret true
      else
        now ← rp1_cycles;
        if rp1_timeout_elapsed start timeout now then mret false
        else pdi_wait fuel' start timeout
  end.

Definition rp1_pdi_load (fuel : nat) (addr_lo addr_hi timeout_cycles : Z)
    : SM (st HW) rp1_pdi_result_t :=
  rp1_mmio_write32 (RP1_PDI_IPI_REQUEST_BASE + 0) RP1_PDI_CMD_LOAD;;
  rp1_mmio_write32 (RP1_PDI_IPI_REQUEST_BASE + 4) RP1_PDI_SRC_DDR;;
  rp1_mmio_write32 (RP1_PDI_IPI_REQUEST_BASE + 8) addr_hi;;
  rp1_mmio_write32 (RP1_PDI_IPI_REQUEST_BASE + 12) addr_lo;;
  rp1_barrier;;
  rp1_mmio_write32 RP1_PDI_IPI_TRIGGER_REG RP1_PDI_IPI_TARGET_MASK;;
  rp1_barrier;;
  let timeout := if timeout_cycles =? 0 then RP1_DEFAULT_PDI_TIMEOUT_TICKS
                 else timeout_cycles in
  start ← rp1_cycles;
  ack ← pdi_wait fuel start timeout;
  if (ack : bool) then
    rp1_barrier;;
    status ← rp1_mmio_read32 (RP1_PDI_IPI_RESPONSE_BASE + 0);
    detail ← rp1_mmio_read32 (RP1_PDI_IPI_RESPONSE_BASE + 4);
    mret {| pdi_outcome := if status =? 0 then RP1_PDI_RESULT_OK
                           else RP1_PDI_RESULT_PLM_ERROR;
            pdi_status := status; pdi_detail := detail |}
  else mret {| pdi_outcome := RP1_PDI_RESULT_TIMEOUT; pdi_status := 0; pdi_detail := 0 |}.
End pdi.

(** ** rp1_loop.c: pure helpers *)

(** Condition evaluation, shared with LOOP, COND and WAIT. *)
Definition compare (sig op val : Z) : bool :=
  if op =? RP1_COP_EQ then sig =? val
  else if op =? RP1_COP_NE then negb (sig =? val)
  else if op =? RP1_COP_LT then sig <? val
  else if op =? RP1_COP_GE then val <=? sig
  else if op =? RP1_COP_AND_NZ then negb (Z.land sig val =? 0)
  else if op =? RP1_COP_AND_Z then Z.land sig val =? 0
  else false.

Definition valid_condition (op : Z) : bool := op <=? RP1_COP_AND_Z.
Definition valid_signal_slot (slot : Z) : bool := slot <? RP1_MAX_SIGNALS.

(** The checks [validate_nodes] makes on one packet: [Some (detail, aux)]
    when it is rejected. *)
Definition validate_node (node_count arg_available : Z) (node : rp1_node_t) : option (Z * Z) :=
  let p := node_payload node in
  if (RP1_MAX_BUCKETS <=? barrier_await_bucket node) ||
     (RP1_MAX_BUCKETS <=? barrier_set_bucket node) then
    Some (RP1_NODE_BAD_BARRIER,
          Z.lor (Z.shiftl (barrier_await_bucket node) 8) (barrier_set_bucket node))
  else match opcode_of (node_opcode node) with
  | Some (NOP | SCALAR_WRITE | DMA_COPY | DMA_FILL | HALT) => None
  | Some SIGNAL =>
      let q := view_signal p in
      if negb (valid_signal_slot (sig_target_slot q)) then
        Some (RP1_NODE_BAD_SIGNAL_SLOT, sig_target_slot q)
      else if RP1_SIGOP_AND <? sig_operation q then
        Some (RP1_NODE_BAD_OPERATION, sig_operation q)
      else None
  | Some WAIT =>
      let q := view_wait p in
      if negb (valid_signal_slot (wait_condition_signal q)) then
        Some (RP1_NODE_BAD_SIGNAL_SLOT, wait_condition_signal q)
      else if negb (valid_condition (wait_condition_op q)) then
        Some (RP1_NODE_BAD_OPERATION, wait_condition_op q)
      else None
  | Some SCALAR_READ =>
      let q := view_scalar_read p in
      if valid_signal_slot (sr_target_slot q) then None
      else Some (RP1_NODE_BAD_SIGNAL_SLOT, sr_target_slot q)
  | Some SCALAR_COPY =>
      let q := view_scalar_copy p in
      if valid_signal_slot (source_slot q) then None
      else Some (RP1_NODE_BAD_SIGNAL_SLOT, source_slot q)
  | Some KERNEL_DISPATCH =>
      let kd := view_kernel_dispatch p in
      let bytes := u32 (arg_count kd * sizeof_kernel_arg) in
      if negb (kernel_base_addr kd =? 0) &&
         (Z.land (arg_buffer_offset kd) 7 =? 0) &&
         (arg_buffer_offset kd <=? arg_available) &&
         (bytes <=? sub32 arg_available (arg_buffer_offset kd)) then None
      else Some (RP1_NODE_BAD_ARGUMENTS, arg_buffer_offset kd)
  | Some PDI_LOAD =>
      if has_flag (node_flags node) RP1_FLAG_SILENT then Some (RP1_NODE_PDI_WITHOUT_CQ, 0)
      else None
  | Some LOOP =>
      let loop := view_loop p in
      if valid_signal_slot (loop_condition_signal loop) &&
         valid_condition (loop_condition_op loop) &&
         (loop_loop_id loop <? RP1_MAX_LOOPS) &&
         (loop_body_start loop <=? loop_body_end loop) &&
         (loop_body_end loop <? node_count) &&
         (loop_bucket_clear_start loop <=? loop_bucket_clear_end loop) &&
         (loop_bucket_clear_end loop <? RP1_MAX_BUCKETS) then None
      else if valid_signal_slot (loop_condition_signal loop) then
        Some (RP1_NODE_BAD_LOOP_CONFIG, loop_body_end loop)
      else Some (RP1_NODE_BAD_SIGNAL_SLOT, loop_condition_signal loop)
  | Some COND =>
      let cond := view_cond p in
      let empty_body := cond_body_end cond <? cond_body_start cond in
      let empty_buckets := cond_bucket_clear_end cond <? cond_bucket_clear_start cond in
      if valid_signal_slot (cond_condition_signal cond) &&
         valid_condition (cond_condition_op cond) &&
         (cond_done_bucket cond <? RP1_MAX_BUCKETS) &&
         (empty_body || (cond_body_end cond <? node_count)) &&
         (empty_buckets || (cond_bucket_clear_end cond <? RP1_MAX_BUCKETS)) then None
      else if valid_signal_slot (cond_condition_signal cond) then
        Some (RP1_NODE_BAD_LOOP_CONFIG, cond_body_end cond)
      else Some (RP1_NODE_BAD_SIGNAL_SLOT, cond_condition_signal cond)
  | Some RERUN =>
      let rr := view_rerun p in
      if (target_node rr <? node_count) &&
         (negb (has_flag (rerun_flags rr) RP1_RERUN_CLEAR_STATE) ||
          (rerun_loop_id rr <? RP1_MAX_LOOPS)) then None
      else Some (RP1_NODE_BAD_TARGET, target_node rr)
  | None => Some (RP1_NODE_BAD_OPERATION, node_opcode node)
  end.

(** How the body of the activation loop leaves an iteration: [continue] (or
    fall through without progress), fall through with progress, [return r]. *)
Inductive ctl := Skip | Progress | Stop (r : Z).

Section loop.
Context {HW : Type} `{!Hal HW} `{!Platform}.

(** [set_node_status]: the BTCM cache keeps the low byte, the packet the
    16-bit status. *)
Definition set_node_status (node_index status : Z) : SM (st HW) unit :=
  checked (in_bounds RP1_MAX_NODES node_index);;
  modify (fun s => set_status_array (<[node_index := u8 status]> (node_status s)) s);;
  put_packet_status node_index status.

(** ** Completion queue *)

(** 1: a slot is available (or not needed), 0: full, -1: corrupt. *)
Definition cq_can_write (flags : Z) : SM (st HW) Z :=
  if has_flag flags RP1_FLAG_SILENT then mret 1
  else
    host_writes;;
    w ← get_ctrl cq_write_idx;
    r ← get_ctrl cq_read_idx;
    size ← get_ctrl cq_size;
    let used := sub32 w r in
    if size <? used then
      rp1_latch_error RP1_ERR_CQ_CORRUPT RP1_TERMINAL_ERROR_NODE_NONE used size;;
      mret (-1)
    else mret (if used =? size then 0 else 1).

(** [g_cq[idx] = e] *)
Definition put_cq (idx : Z) (e : rp1_cq_entry_t) : SM (st HW) unit :=
  p ← get_glob g_cq;
  checked ((0 <=? idx) && in_window (p + sizeof_cq_entry * idx) sizeof_cq_entry);;
  modify (fun s => set_cq (<[idx := e]> (cq s)) s).

Definition write_cq_entry (flags node_index status error_detail : Z) : SM (st HW) Z :=
  available ← cq_can_write flags;
  if available <=? 0 then mret available
  else if has_flag flags RP1_FLAG_SILENT then mret 1
  else
    w ← get_ctrl cq_write_idx;
    size ← get_ctrl cq_size;
    now ← rp1_cycles;
    start ← get_glob g_graph_start_cycles;
    put_cq (Z.land w (sub32 size 1))
      {| cq_node_index := node_index; cq_status := status;
         cq_error_detail := error_detail; cq_timestamp := sub32 now start |};;
    rp1_barrier;;
    put_ctrl cq_write_idx (add32 w 1);;
    rp1_barrier;;
    mret 1.

(** ** Trace ring *)

Definition put_trace (idx : Z) (e : rp1_trace_entry_t) : SM (st HW) unit :=
  p ← get_glob g_trace;
  checked ((0 <=? idx) && in_window (p + sizeof_trace_entry * idx) sizeof_trace_entry);;
  modify (fun s => set_trace_ring (<[idx := e]> (trace_ring s)) s).

Definition trace (event node_index aux0 aux1 : Z) : SM (st HW) unit :=
  enable ← get_glob g_trace_enable;
  ring ← get_glob g_trace;
  size ← get_glob g_trace_size;
  if (enable =? 0) || (ring =? 0) || (size =? 0) then mret tt
  else
    w ← get_ctrl trace_write_idx;
    now ← rp1_cycles;
    start ← get_glob g_graph_start_cycles;
    put_trace (w mod size)
      {| te_timestamp := sub32 now start; te_event := event;
         te_node_index := u16 node_index; te_aux0 := aux0; te_aux1 := aux1 |};;
    rp1_barrier;;
    put_ctrl trace_write_idx (add32 w 1);;
    rp1_barrier.

(** ** In-flight kernels *)

Definition add_inflight (node : rp1_node_t) (node_index : Z) : SM (st HW) unit :=
  let kd := view_kernel_dispatch (node_payload node) in
  n ← gets (fun s => Z.of_nat (length (inflight s)));
  checked (n <? RP1_MAX_INFLIGHT);;
  now ← rp1_cycles;
  modify (fun s => set_inflight (inflight s ++ [{|
    if_base_addr := kernel_base_addr kd;
    if_node_index := node_index;
    if_set_mask := barrier_set_mask node;
    if_timeout_start := now;
    if_timeout_cycles := if kd_timeout_cycles kd =? 0 then RP1_DEFAULT_KERNEL_TIMEOUT_TICKS
                         else kd_timeout_cycles kd;
    if_set_bucket := barrier_set_bucket node;
    if_infinite := if has_flag (node_flags node) RP1_FLAG_INFINITE then 1 else 0;
    if_settle_polls := 0 |}]) s).

(** Decrement the count and move the last entry into the hole. *)
Definition remove_at (idx : nat) (l : list rp1_inflight_t) : list rp1_inflight_t :=
  let n := (length l - 1)%nat in
  match l !! n with
  | Some last => if (idx <? n)%nat then <[idx := last]> (take n l) else take n l
  | None => l
  end.

Definition remove_inflight (idx : nat) : SM (st HW) unit :=
  modify (fun s => set_inflight (remove_at idx (inflight s)) s).

(** ** Kernel launch *)

Definition launch_kernel (node : rp1_node_t) : SM (st HW) unit :=
  let kd := view_kernel_dispatch (node_payload node) in
  let args := arg_buffer_offset kd / 4 in
  _ ← rp1_mmio_read32 (kernel_base_addr kd);
  rp1_barrier;;
  for_up (Z.to_nat (arg_count kd)) 0 (fun i =>
    reg_offset ← get_arg_word (args + 2 * i);
    value ← get_arg_word (args + 2 * i + 1);
    rp1_mmio_write32 (add32 (kernel_base_addr kd) reg_offset) value);;
  rp1_barrier;;
  rp1_mmio_write32 (kernel_base_addr kd) 0x01.

(** ** Immediate-completion opcodes *)

(** The register writes of SCALAR_WRITE stop at the first zero address. *)
Fixpoint scalar_writes (ws : list rp1_write_pair_t) : SM (st HW) unit :=
  match ws with
  | [] => mret tt
  | w :: ws' =>
      if wp_addr w =? 0 then mret tt
      else rp1_mmio_write32 (wp_addr w) (wp_value w);; scalar_writes ws'
  end.

Definition apply_sigop (op old value : Z) : Z :=
  if op =? RP1_SIGOP_SET then value
  else if op =? RP1_SIGOP_ADD then add32 old value
  else if op =? RP1_SIGOP_OR then Z.lor old value
  else if op =? RP1_SIGOP_AND then Z.land old value
  else old.

Definition execute_immediate (node : rp1_node_t) (node_index : Z) : SM (st HW) unit :=
  let p := node_payload node in
  match opcode_of (node_opcode node) with
  | Some SIGNAL =>
      let q := view_signal p in
      old ← get_signal (sig_target_slot q);
      put_signal (sig_target_slot q) (apply_sigop (sig_operation q) old (sig_value q)) node_index
  | Some SCALAR_WRITE => scalar_writes (view_scalar_write p);; rp1_barrier
  | Some SCALAR_READ =>
      let q := view_scalar_read p in
      v ← rp1_mmio_read32 (source_addr q);
      put_signal (sr_target_slot q) v node_index
  | Some SCALAR_COPY =>
      let q := view_scalar_copy p in
      v ← get_signal (source_slot q);
      rp1_mmio_write32 (dest_addr q) v;;
      rp1_barrier
  | Some DMA_COPY =>
      let q := view_dma_copy p in
      for_up (Z.to_nat (dc_length q / 4)) 0 (fun w =>
        v ← ddr_load (add32 (src_addr_lo q) (4 * w));
        ddr_store (add32 (dc_dst_addr_lo q) (4 * w)) v);;
      rp1_barrier
  | Some DMA_FILL =>
      let q := view_dma_fill p in
      for_up (Z.to_nat (df_length q / 4)) 0 (fun w =>
        ddr_store (add32 (df_dst_addr_lo q) (4 * w)) (df_pattern q));;
      rp1_barrier
  | _ => mret tt
  end.

(** ** Packet validation *)

(** [Some (bad_node, detail, aux)] is the C result -1. *)
Fixpoint validate_from (k : nat) (i count arg_available : Z)
    : SM (st HW) (option (Z * Z * Z)) :=
  match k with
  | O => mret None
  | S k' =>
      node ← get_node i;
      match validate_node count arg_available node with
      | Some (detail, aux) => mret (Some (i, detail, aux))
      | None => validate_from k' (i + 1) count arg_available
      end
  end.

Definition validate_nodes (count : Z) : SM (st HW) (option (Z * Z * Z)) :=
  base ← get_ctrl arg_buf_base_lo;
  validate_from (Z.to_nat count) 0 count
    (sub32 (RP1_CTRL_PHYS_ADDR + RP1_CTRL_WINDOW_SIZE) base).

(** ** In-flight polling: 1 progress, 0 none, -1 fatal *)

(** The loop body for entry [k]: [Skip] leaves it in the table and advances
    ([i++]), [Progress] ends in [remove_inflight(i)]. *)
Definition poll_kernel (k : rp1_inflight_t) : SM (st HW) ctl :=
  node ← get_node (if_node_index k);
  let flags := node_flags node in
  cq_available ← cq_can_write flags;
  if cq_available <? 0 then mret (Stop (-1))
  else if (if_infinite k =? 0) && (cq_available =? 0) then
    put_glob g_cq_blocked 1;; mret Skip
  else
    ctrl ← rp1_mmio_read32 (if_base_addr k);
    if has_flag ctrl 0x2 then
      fatal ← (if if_infinite k =? 0 then
                 set_node_status (if_node_index k) RP1_NODE_DONE;;
                 raise_barrier (if_set_bucket k) (if_set_mask k);;
                 r ← write_cq_entry flags (if_node_index k) RP1_CQ_OK 0;
                 mret (r <? 0)
               else mret false);
      if (fatal : bool) then mret (Stop (-1))
      else
        trace RP1_TRACE_KERNEL_DONE (if_node_index k) (if_base_addr k) (if_infinite k);;
        mret Progress
    else
      now ← rp1_cycles;
      if rp1_timeout_elapsed (if_timeout_start k) (if_timeout_cycles k) now then
        if cq_available =? 0 then put_glob g_cq_blocked 1;; mret Skip
        else
          set_node_status (if_node_index k) RP1_NODE_ERROR;;
          rp1_latch_error RP1_ERR_KERNEL_TIMEOUT (if_node_index k)
            (if_base_addr k) (if_timeout_cycles k);;
          r ← write_cq_entry flags (if_node_index k) RP1_CQ_TIMEOUT (if_base_addr k);
          if r <? 0 then mret (Stop (-1))
          else
            trace RP1_TRACE_KERNEL_TIMEOUT (if_node_index k)
              (if_base_addr k) (if_timeout_cycles k);;
            if has_flag flags RP1_FLAG_HALT_ON_ERROR then mret (Stop (-1))
            else raise_barrier (if_set_bucket k) (if_set_mask k);; mret Progress
      else mret Skip.

Fixpoint check_inflight_from (fuel i : nat) (made_progress : Z) : SM (st HW) Z :=
  table ← gets inflight;
  match table !! i with
  | None => mret made_progress
  | Some k =>
    match fuel with
    | O => no_fuel
    | S fuel' =>
      c ← poll_kernel k;
      match c with
      | Skip => check_inflight_from fuel' (S i) made_progress
      | Progress => remove_inflight i;; check_inflight_from fuel' i 1
      | Stop r => mret r
      end
    end
  end.

(** Every iteration advances [i] or shrinks the table. *)
Definition check_inflight : SM (st HW) Z :=
  n ← gets (fun s => length (inflight s));
  check_inflight_from n 0 0.

(** ** WAIT polling *)

Definition poll_wait (i : Z) : SM (st HW) ctl :=
  status ← get_status i;
  if negb (status =? RP1_NODE_WAITING) then mret Skip
  else
    node ← get_node i;
    let w := view_wait (node_payload node) in
    cq_available ← cq_can_write (node_flags node);
    if cq_available <? 0 then mret (Stop (-1))
    else if cq_available =? 0 then put_glob g_cq_blocked 1;; mret Skip
    else
      sig_val ← get_signal (wait_condition_signal w);
      if compare sig_val (wait_condition_op w) (wait_condition_value w) then
        set_node_status i RP1_NODE_DONE;;
        raise_barrier (barrier_set_bucket node) (barrier_set_mask node);;
        r ← write_cq_entry (node_flags node) i RP1_CQ_OK 0;
        if r <? 0 then mret (Stop (-1))
        else trace RP1_TRACE_WAIT_WAKE i (wait_condition_signal w) sig_val;; mret Progress
      else mret Skip.

(** A loop over the nodes that collects progress: [for (i = 0; i < count; i++)]
    with a body that continues, makes progress, or returns. *)
Fixpoint scan_from (body : Z -> SM (st HW) ctl) (k : nat) (i made_progress : Z) : SM (st HW) Z :=
  match k with
  | O => mret made_progress
  | S k' =>
      c ← body i;
      match c with
      | Skip => scan_from body k' (i + 1) made_progress
      | Progress => scan_from body k' (i + 1) 1
      | Stop r => mret r
      end
  end.

Definition check_waits (count : Z) : SM (st HW) Z := scan_from poll_wait (Z.to_nat count) 0 0.

(** ** Node activation *)

(** The sequence shared by the completing opcodes: status, barriers, CQ. *)
Definition complete_node (node : rp1_node_t) (i : Z) : SM (st HW) ctl :=
  set_node_status i RP1_NODE_DONE;;
  raise_barrier (barrier_set_bucket node) (barrier_set_mask node);;
  r ← write_cq_entry (node_flags node) i RP1_CQ_OK 0;
  mret (if r <? 0 then Stop (-1) else Progress).

(** Launch and mark: an INFINITE kernel is done at once, any other is
    DISPATCHED.  [true] when the CQ turned out corrupt. *)
Definition launch_and_mark (node : rp1_node_t) (i : Z) : SM (st HW) bool :=
  let kd := view_kernel_dispatch (node_payload node) in
  launch_kernel node;;
  trace RP1_TRACE_KERNEL_LAUNCH i (kernel_base_addr kd) (arg_count kd);;
  if has_flag (node_flags node) RP1_FLAG_INFINITE then
    set_node_status i RP1_NODE_DONE;;
    raise_barrier (barrier_set_bucket node) (barrier_set_mask node);;
    r ← write_cq_entry (node_flags node) i RP1_CQ_OK 0;
    mret (r <? 0)
  else set_node_status i RP1_NODE_DISPATCHED;; mret false.

Definition activate_kernel_dispatch (node : rp1_node_t) (i : Z) : SM (st HW) ctl :=
  let kd := view_kernel_dispatch (node_payload node) in
  active ← get_glob g_active_image_id;
  if negb (expected_image_id kd =? 0) && negb (expected_image_id kd =? active) then
    set_node_status i RP1_NODE_ERROR;;
    rp1_latch_error RP1_ERR_IMAGE_MISMATCH i (expected_image_id kd) active;;
    r ← write_cq_entry (node_flags node) i RP1_CQ_ERROR active;
    if r <? 0 then mret (Stop (-1))
    else
      trace RP1_TRACE_IMAGE_MISMATCH i (expected_image_id kd) active;;
      if has_flag (node_flags node) RP1_FLAG_HALT_ON_ERROR then mret (Stop (-1))
      else
        raise_barrier (barrier_set_bucket node) (barrier_set_mask node);;
        mret Progress
  else
    n ← gets (fun s => Z.of_nat (length (inflight s)));
    if RP1_MAX_INFLIGHT <=? n then
      set_node_status i RP1_NODE_ERROR;;
      rp1_latch_error RP1_ERR_INFLIGHT_FULL i n RP1_MAX_INFLIGHT;;
      _ ← write_cq_entry (node_flags node) i RP1_CQ_ERROR n;
      mret (Stop (-1))
    else
      fatal ← launch_and_mark node i;
      if (fatal : bool) then mret (Stop (-1))
      else add_inflight node i;; mret Progress.

Definition activate_pdi_load (pf : nat) (node : rp1_node_t) (i : Z) : SM (st HW) ctl :=
  let p := view_pdi_load (node_payload node) in
  result ← rp1_pdi_load pf (pdi_addr_lo p) (pdi_addr_hi p) (pdi_timeout_cycles p);
  trace RP1_TRACE_PDI_LOAD i (pdi_status result) (pdi_detail result);;
  match pdi_outcome result with
  | RP1_PDI_RESULT_OK =>
      put_glob g_active_image_id (pdi_image_id p);;
      complete_node node i
  | outcome =>
      set_node_status i RP1_NODE_ERROR;;
      r ← match outcome with
          | RP1_PDI_RESULT_TIMEOUT =>
              let timeout := if pdi_timeout_cycles p =? 0 then RP1_DEFAULT_PDI_TIMEOUT_TICKS
                             else pdi_timeout_cycles p in
              rp1_latch_error RP1_ERR_PDI_TIMEOUT i 0 timeout;;
              write_cq_entry (node_flags node) i RP1_CQ_TIMEOUT 0
          | _ =>
              rp1_latch_error RP1_ERR_PDI_FAILED i (pdi_status result) (pdi_detail result);;
              write_cq_entry (node_flags node) i RP1_CQ_ERROR (pdi_status result)
          end;
      if r <? 0 then mret (Stop (-1))
      else if has_flag (node_flags node) RP1_FLAG_HALT_ON_ERROR then mret (Stop (-1))
      else
        raise_barrier (barrier_set_bucket node) (barrier_set_mask node);;
        mret Progress
  end.

(** Clear a bucket range and re-arm a body range (LOOP and COND). *)
Definition rearm_body (bucket_start bucket_end body_start body_end : Z) : SM (st HW) unit :=
  for_range bucket_start bucket_end clear_barrier;;
  for_range body_start body_end (fun n => set_node_status n RP1_NODE_PENDING).

Definition activate_loop (node : rp1_node_t) (i : Z) : SM (st HW) ctl :=
  let lp := view_loop (node_payload node) in
  it0 ← get_loop_iter (loop_loop_id lp);
  let it := add32 it0 1 in
  put_loop_iter (loop_loop_id lp) it;;
  sig_val ← get_signal (loop_condition_signal lp);
  let exit_loop :=
    ((0 <? loop_max_iterations lp) && (loop_max_iterations lp <? it)) ||
    compare sig_val (loop_condition_op lp) (loop_condition_value lp) in
  trace RP1_TRACE_LOOP_ITER i (loop_loop_id lp)
    (Z.lor (u32 (Z.shiftl it 1)) (if exit_loop then 1 else 0));;
  if exit_loop then complete_node node i
  else
    rearm_body (loop_bucket_clear_start lp) (loop_bucket_clear_end lp)
      (loop_body_start lp) (loop_body_end lp);;
    set_node_status i RP1_NODE_DONE;;
    mret Progress.

Definition activate_cond (node : rp1_node_t) (i : Z) : SM (st HW) ctl :=
  let cd := view_cond (node_payload node) in
  sig_val ← get_signal (cond_condition_signal cd);
  let cond_met := compare sig_val (cond_condition_op cd) (cond_condition_value cd) in
  trace RP1_TRACE_COND_EVAL i (cond_condition_signal cd) (if cond_met then 1 else 0);;
  (if cond_met then raise_barrier (cond_done_bucket cd) (cond_done_mask cd)
   else rearm_body (cond_bucket_clear_start cd) (cond_bucket_clear_end cd)
          (cond_body_start cd) (cond_body_end cd));;
  complete_node node i.

Definition activate_rerun (node : rp1_node_t) (i : Z) : SM (st HW) ctl :=
  let rr := view_rerun (node_payload node) in
  set_node_status (target_node rr) RP1_NODE_PENDING;;
  when (has_flag (rerun_flags rr) RP1_RERUN_CLEAR_STATE) (put_loop_iter (rerun_loop_id rr) 0);;
  complete_node node i.

Definition activate_wait (node : rp1_node_t) (i : Z) : SM (st HW) ctl :=
  let w := view_wait (node_payload node) in
  sig_val ← get_signal (wait_condition_signal w);
  if compare sig_val (wait_condition_op w) (wait_condition_value w) then complete_node node i
  else
    set_node_status i RP1_NODE_WAITING;;
    trace RP1_TRACE_WAIT_PARK i (wait_condition_signal w) (wait_condition_value w);;
    mret Skip.

Definition activate_halt (node : rp1_node_t) (i : Z) : SM (st HW) ctl :=
  set_node_status i RP1_NODE_DONE;;
  r ← write_cq_entry (node_flags node) i RP1_CQ_OK 0;
  mret (if r <? 0 then Stop (-1) else Stop (-2)).

(** The switch on the opcode. *)
Definition activate_op (pf : nat) (node : rp1_node_t) (i : Z) : SM (st HW) ctl :=
  match opcode_of (node_opcode node) with
  | Some KERNEL_DISPATCH => activate_kernel_dispatch node i
  | Some PDI_LOAD => activate_pdi_load pf node i
  | Some LOOP => activate_loop node i
  | Some COND => activate_cond node i
  | Some RERUN => activate_rerun node i
  | Some WAIT => activate_wait node i
  | Some HALT => activate_halt node i
  | _ => execute_immediate node i;; complete_node node i
  end.

(** One iteration of the scan. *)
Definition activate_node (pf : nat) (i : Z) : SM (st HW) ctl :=
  status ← get_status i;
  if negb (status =? RP1_NODE_PENDING) then mret Skip
  else
    node ← get_node i;
    bar ← get_barrier (barrier_await_bucket node);
    if negb (Z.land bar (barrier_await_mask node) =? barrier_await_mask node) then mret Skip
    else
      cq_available ← cq_can_write (node_flags node);
      if cq_available <? 0 then mret (Stop (-1))
      else if cq_available =? 0 then put_glob g_cq_blocked 1;; mret Skip
      else
        put_ctrl rp1_current_node i;;
        trace RP1_TRACE_NODE_ACTIVATE i (node_opcode node) (node_flags node);;
        activate_op pf node i.

(** 1 progress, 0 none, -1 error, -2 HALT. *)
Definition activate_nodes (pf : nat) (count : Z) : SM (st HW) Z :=
  scan_from (activate_node pf) (Z.to_nat count) 0 0.

(** ** Fatal quiescence *)

(** The loop body for one entry: [true] when it is removed. *)
Definition quiesce_kernel (kernel : rp1_inflight_t) : SM (st HW) bool :=
  node ← get_node (if_node_index kernel);
  let flags := node_flags node in
  if negb (if_infinite kernel =? 0) then rp1_mark_recovery_required;; mret true
  else
    available ← cq_can_write flags;
    if available <? 0 then rp1_mark_recovery_required;; mret true
    else if available =? 0 then mret false
    else
      control ← rp1_mmio_read32 (if_base_addr kernel);
      if has_flag control 0x2 then
        status ← get_status (if_node_index kernel);
        when (negb (status =? RP1_NODE_ERROR)) (
          set_node_status (if_node_index kernel) RP1_NODE_DONE;;
          r ← write_cq_entry flags (if_node_index kernel) RP1_CQ_OK 0;
          when (r <? 0) rp1_mark_recovery_required);;
        trace RP1_TRACE_KERNEL_DONE (if_node_index kernel) (if_base_addr kernel) 0;;
        mret true
      else
        now ← rp1_cycles;
        if rp1_timeout_elapsed (if_timeout_start kernel) (if_timeout_cycles kernel) now then
          status ← get_status (if_node_index kernel);
          when (negb (status =? RP1_NODE_ERROR)) (
            set_node_status (if_node_index kernel) RP1_NODE_ERROR;;
            r ← write_cq_entry flags (if_node_index kernel) RP1_CQ_TIMEOUT
                  (if_base_addr kernel);
            when (r <? 0) rp1_mark_recovery_required);;
          rp1_mark_recovery_required;;
          mret true
        else mret false.

Fixpoint quiesce_pass (fuel i : nat) : SM (st HW) unit :=
  table ← gets inflight;
  match table !! i with
  | None => mret tt
  | Some kernel =>
    match fuel with
    | O => no_fuel
    | S fuel' =>
      removed ← quiesce_kernel kernel;
      if (removed : bool) then remove_inflight i;; quiesce_pass fuel' i
      else quiesce_pass fuel' (S i)
    end
  end.

Definition bump_heartbeat : SM (st HW) unit :=
  h ← get_ctrl heartbeat; put_ctrl heartbeat (add32 h 1).

Fixpoint quiesce_inflight (fuel : nat) : SM (st HW) unit :=
  n ← gets (fun s => length (inflight s));
  match n with
  | O => mret tt
  | _ =>
    match fuel with
    | O => no_fuel
    | S fuel' => quiesce_pass n 0;; bump_heartbeat;; quiesce_inflight fuel'
    end
  end.

(** ** Main dispatch loop *)

(** The forced CQ error of a rejected graph waits for ring space. *)
Fixpoint publish_rejection (fuel : nat) (bad_node detail : Z) : SM (st HW) unit :=
  match fuel with
  | O => no_fuel
  | S fuel' =>
      r ← write_cq_entry 0 bad_node RP1_CQ_ERROR detail;
      if r =? 0 then bump_heartbeat;; publish_rejection fuel' bad_node detail
      else mret tt
  end.

(** Does any node have status [v]? *)
Fixpoint any_status (k : nat) (i v : Z) : SM (st HW) bool :=
  match k with
  | O => mret false
  | S k' =>
      status ← get_status i;
      rest ← any_status k' (i + 1) v;
      mret ((status =? v) || rest)
  end.

(** One scan pass: [Some r] when [rp1_loop] returns [r]. *)
Definition scan_pass (pf qf : nat) (count : Z) : SM (st HW) (option Z) :=
  put_glob g_cq_blocked 0;;
  activated ← activate_nodes pf count;
  if activated <? 0 then quiesce_inflight qf;; mret (Some activated)
  else
    inflight_progress ← check_inflight;
    if inflight_progress <? 0 then quiesce_inflight qf;; mret (Some inflight_progress)
    else
      wait_progress ← check_waits count;
      if wait_progress <? 0 then quiesce_inflight qf;; mret (Some (-1))
      else
        blocked ← get_glob g_cq_blocked;
        finished ←
          (if (activated =? 0) && (inflight_progress =? 0) && (wait_progress =? 0) &&
              (blocked =? 0) then
             has_dispatched ← any_status (Z.to_nat count) 0 RP1_NODE_DISPATCHED;
             has_waiting ← any_status (Z.to_nat count) 0 RP1_NODE_WAITING;
             mret (negb has_dispatched && negb has_waiting)
           else mret false);
        if (finished : bool) then mret (Some 0)
        else bump_heartbeat;; mret None.

Fixpoint scan (fuel pf qf : nat) (count : Z) : SM (st HW) Z :=
  match fuel with
  | O => no_fuel
  | S fuel' =>
      r ← scan_pass pf qf count;
      match r with
      | Some r => mret r
      | None => scan fuel' pf qf count
      end
  end.

(** 0 complete, -1 error, -2 halt.  [fuel] bounds scan passes and waits for
    CQ space, [pf] the polls of one PDI load, [qf] the quiescence passes. *)
Definition rp1_loop (fuel pf qf : nat) : SM (st HW) Z :=
  count ← get_ctrl node_count;
  bad ← validate_nodes count;
  match bad with
  | Some (bad_node, detail, aux) =>
      rp1_latch_error RP1_ERR_INVALID_NODE bad_node detail aux;;
      set_node_status bad_node RP1_NODE_ERROR;;
      publish_rejection fuel bad_node detail;;
      mret (-1)
  | None => scan fuel pf qf count
  end.
End loop.
