(* ===== verification/Rp1Frame.v ===== *)
(** * Footprints of the RP1 firmware operations

    [writes fp m]: when [m] returns, the state differs from the one it
    started in only at the locations of [fp].  Every operation of the
    dispatch loop gets the footprint its C code has; invariants that do not
    mention a location survive the operations that do not write it. *)

From S2P Require Import Prelude Rp1Protocol Rp1Store Rp1Loop.

(** The parts of the firmware state; [L_image] is the packets apart from their
    status fields. *)
Inductive loc :=
  | L_ctrl (f : ctrl_field) | L_glob (g : global)
  | L_barriers | L_status | L_loops | L_inflight | L_packets | L_image
  | L_cq | L_signals | L_args | L_trace | L_ddr | L_hw.

#[export] Instance loc_eq_dec : EqDecision loc.
Proof. solve_decision. Defined.

Definition same_at {HW} (l : loc) (s s' : st HW) : Prop :=
  match l with
  | L_ctrl f => ctrl s' f = ctrl s f
  | L_glob g => glob s' g = glob s g
  | L_barriers => barriers s' = barriers s
  | L_status => node_status s' = node_status s
  | L_loops => loop_iters s' = loop_iters s
  | L_inflight => inflight s' = inflight s
  | L_packets => nodes s' = nodes s
  | L_image => forall i, with_status (nodes s' i) 0 = with_status (nodes s i) 0
  | L_cq => cq s' = cq s
  | L_signals => signals s' = signals s
  | L_args => arg_words s' = arg_words s
  | L_trace => trace_ring s' = trace_ring s
  | L_ddr => ddr s' = ddr s
  | L_hw => hw s' = hw s
  end.

Definition agree {HW} (fp : list loc) (s s' : st HW) : Prop :=
  forall l, l ∉ fp -> same_at l s s'.

Abbreviation writes fp := (keeps (agree fp)).

(** Decides the inclusion of two footprints. *)
Definition within (fp1 fp2 : list loc) : bool :=
  forallb (fun l => bool_decide (l ∈ fp2)) fp1.

Section agree.
Context {HW : Type}.
Implicit Types s : st HW.

#[export] Instance same_at_preorder l : PreOrder (same_at (HW := HW) l).
Proof. split; [by destruct l|]. intros s1 s2 s3. destruct l; cbn; congruence. Qed.

#[export] Instance agree_preorder fp : PreOrder (agree (HW := HW) fp).
Proof.
  split; [by intros s l _|]. intros s1 s2 s3 H1 H2 l Hl.
  etrans; [by apply H1|by apply H2].
Qed.

Lemma within_spec fp1 fp2 : within fp1 fp2 = true -> fp1 ⊆ fp2.
Proof.
  unfold within. rewrite forallb_forall. intros H l Hl%list_elem_of_In.
  by apply H, bool_decide_eq_true in Hl.
Qed.

Lemma agree_mono fp1 fp2 s s' : within fp1 fp2 = true -> agree fp1 s s' -> agree fp2 s s'.
Proof. intros Hw%within_spec H l Hl. apply H. auto. Qed.

Lemma agree_at fp l s s' : agree fp s s' -> bool_decide (l ∈ fp) = false -> same_at l s s'.
Proof. intros H Hl%bool_decide_eq_false. auto. Qed.

(** Footprints that have no location in common. *)
Definition disjoint_fp (fp1 fp2 : list loc) : bool :=
  forallb (fun l => bool_decide (l ∉ fp2)) fp1.

Lemma agree_disjoint fp1 fp2 l s s' :
  agree fp2 s s' -> l ∈ fp1 -> disjoint_fp fp1 fp2 = true -> same_at l s s'.
Proof.
  unfold disjoint_fp. rewrite forallb_forall. intros Ha Hl%list_elem_of_In Hd.
  apply Hd, bool_decide_eq_true in Hl. auto.
Qed.

Lemma agree_set_ctrl f v s : agree [L_ctrl f] s (set_ctrl f v s).
Proof.
  intros l Hl. destruct l as [f'| | | | | | | | | | | | |]; try done. unfold set_ctrl. cbn [same_at ctrl].
  apply fn_lookup_insert_ne. intros ->. apply Hl. by left.
Qed.

Lemma agree_set_glob g v s : agree [L_glob g] s (set_glob g v s).
Proof.
  intros l Hl. destruct l as [|g'| | | | | | | | | | | |]; try done. unfold set_glob. cbn [same_at glob].
  apply fn_lookup_insert_ne. intros ->. apply Hl. by left.
Qed.

(** A setter of one component writes that component. *)
Ltac one_loc := intros l Hl; destruct l; try done; exfalso; apply Hl; by left.

Lemma agree_set_barriers v s : agree [L_barriers] s (set_barriers v s).
Proof. one_loc. Qed.
Lemma agree_set_status_array v s : agree [L_status] s (set_status_array v s).
Proof. one_loc. Qed.
Lemma agree_set_loop_iters v s : agree [L_loops] s (set_loop_iters v s).
Proof. one_loc. Qed.
Lemma agree_set_inflight v s : agree [L_inflight] s (set_inflight v s).
Proof. one_loc. Qed.
Lemma agree_set_packet_status i v s :
  agree [L_packets] s (set_nodes (<[i := with_status (nodes s i) v]> (nodes s)) s).
Proof.
  intros l Hl. destruct l; try done; [exfalso; apply Hl; by left|]. intros j. cbn [nodes set_nodes].
  destruct (decide (j = i)) as [->|Hne]; [by rewrite fn_lookup_insert|by rewrite fn_lookup_insert_ne].
Qed.
Lemma agree_set_cq v s : agree [L_cq] s (set_cq v s).
Proof. one_loc. Qed.
Lemma agree_set_signals v s : agree [L_signals] s (set_signals v s).
Proof. one_loc. Qed.
Lemma agree_set_trace_ring v s : agree [L_trace] s (set_trace_ring v s).
Proof. one_loc. Qed.
Lemma agree_set_ddr v s : agree [L_ddr] s (set_ddr v s).
Proof. one_loc. Qed.
Lemma agree_set_hw v s : agree [L_hw] s (set_hw v s).
Proof. one_loc. Qed.
End agree.

Section writes.
Context {HW : Type}.
Implicit Types fp : list loc.

Lemma writes_mono {A} fp1 fp2 (m : SM (st HW) A) :
  writes fp1 m -> within fp1 fp2 = true -> writes fp2 m.
Proof. intros H Hw s. specialize (H s). destruct (m s); auto. by eapply agree_mono. Qed.

(** What a footprint says of one run. *)
Lemma writes_run {A} fp (m : SM (st HW) A) s a s' l :
  writes fp m -> m s = Ret a s' -> bool_decide (l ∈ fp) = false -> same_at l s s'.
Proof.
  intros H E Hl. specialize (H s). rewrite E in H. apply H.
  by apply bool_decide_eq_false in Hl.
Qed.

End writes.

Create HintDb fp.

(** The control structure of an operation; the primitives and the operations
    already treated come from the database. *)
Ltac fp_step :=
  first
    [ keeps_step
    | lazymatch goal with
      | |- keeps (agree _) _ => eapply writes_mono; [solve [eauto with fp nocore]|reflexivity]
      end ].

Ltac fp_go := repeat fp_step.

(** ** Footprints of the primitives *)

Definition fp_hw : list loc := [L_hw].
Definition fp_host : list loc := [L_hw; L_ctrl cq_read_idx; L_signals].
Definition fp_latch : list loc :=
  [L_ctrl rp1_error_code; L_ctrl terminal_error_node; L_ctrl terminal_error_detail;
   L_ctrl terminal_error_aux].
Definition fp_cq : list loc := fp_host ++ fp_latch ++ [L_cq; L_ctrl cq_write_idx].
Definition fp_trace : list loc := [L_hw; L_trace; L_ctrl trace_write_idx].
Definition fp_status : list loc := [L_status; L_packets].

Section primitives.
Context {HW : Type} `{!Hal HW} `{!Platform}.
Abbreviation writes fp := (keeps (agree (HW := HW) fp)).

Lemma fp_put_ctrl f v : writes [L_ctrl f] (put_ctrl f v).
Proof. apply keeps_modify. intros. apply agree_set_ctrl. Qed.
Lemma fp_put_glob g v : writes [L_glob g] (put_glob g v).
Proof. apply keeps_modify. intros. apply agree_set_glob. Qed.
Lemma fp_get_ctrl f : writes [] (get_ctrl f).
Proof. apply keeps_gets, _. Qed.
Lemma fp_get_glob g : writes [] (get_glob g).
Proof. apply keeps_gets, _. Qed.

Lemma fp_mmio_read32 a : writes fp_hw (rp1_mmio_read32 a).
Proof. intros s. unfold rp1_mmio_read32. destruct (hal_read32 _ _). apply agree_set_hw. Qed.
Lemma fp_mmio_write32 a v : writes fp_hw (rp1_mmio_write32 a v).
Proof. apply keeps_modify. intros. apply agree_set_hw. Qed.
Lemma fp_barrier : writes fp_hw rp1_barrier.
Proof. apply keeps_modify. intros. apply agree_set_hw. Qed.
Lemma fp_cycles : writes fp_hw rp1_cycles.
Proof. intros s. unfold rp1_cycles. destruct (hal_cycles _). apply agree_set_hw. Qed.

Lemma fp_host_writes : writes fp_host host_writes.
Proof.
  intros s. unfold host_writes. destruct (hal_host _ _ _) as [[h rd] sigs].
  etrans; [apply (agree_mono [L_signals]), agree_set_signals; reflexivity|].
  etrans; [apply (agree_mono [L_ctrl cq_read_idx]), agree_set_ctrl; reflexivity|].
  apply (agree_mono [L_hw]), agree_set_hw. reflexivity.
Qed.
End primitives.

#[export] Hint Resolve fp_put_ctrl fp_put_glob fp_get_ctrl fp_get_glob fp_mmio_read32
  fp_mmio_write32 fp_barrier fp_cycles fp_host_writes : fp.
#[export] Hint Resolve agree_set_barriers agree_set_status_array agree_set_loop_iters
  agree_set_inflight agree_set_packet_status agree_set_cq agree_set_signals agree_set_trace_ring
  agree_set_ddr agree_set_hw : fp.
#[export] Hint Resolve keeps_modify : fp.

(** ** Footprints of the operations *)

Section operations.
Context {HW : Type} `{!Hal HW} `{!Platform}.
Abbreviation writes fp := (keeps (agree (HW := HW) fp)).

Lemma fp_get_node i : writes [] (get_node i).
Proof. unfold get_node. fp_go. Qed.
Lemma fp_get_status i : writes [] (get_status i).
Proof. unfold get_status. fp_go. Qed.
Lemma fp_get_barrier i : writes [] (get_barrier i).
Proof. unfold get_barrier. fp_go. Qed.
Lemma fp_raise_barrier b m : writes [L_barriers] (raise_barrier b m).
Proof. unfold raise_barrier. fp_go. Qed.
Lemma fp_clear_barrier b : writes [L_barriers] (clear_barrier b).
Proof. unfold clear_barrier. fp_go. Qed.
Lemma fp_get_loop_iter i : writes [] (get_loop_iter i).
Proof. unfold get_loop_iter. fp_go. Qed.
Lemma fp_put_loop_iter i v : writes [L_loops] (put_loop_iter i v).
Proof. unfold put_loop_iter. fp_go. Qed.
Lemma fp_signal_ok i : writes [] (signal_ok i).
Proof. unfold signal_ok. fp_go. Qed.
Hint Resolve fp_signal_ok : fp.
Lemma fp_get_signal i : writes fp_host (get_signal i).
Proof. unfold get_signal. fp_go. Qed.
Lemma fp_put_signal i v w : writes [L_signals] (put_signal i v w).
Proof. unfold put_signal. fp_go. Qed.
Lemma fp_put_packet_status i v : writes [L_packets] (put_packet_status i v).
Proof. unfold put_packet_status. fp_go. Qed.
Hint Resolve fp_put_packet_status : fp.
Lemma fp_set_node_status i v : writes fp_status (set_node_status i v).
Proof. unfold set_node_status. fp_go. Qed.
Lemma fp_latch_error c i d a : writes fp_latch (rp1_latch_error c i d a).
Proof. unfold rp1_latch_error. fp_go. Qed.
Lemma fp_mark_recovery : writes [L_ctrl rp1_error_code] rp1_mark_recovery_required.
Proof. unfold rp1_mark_recovery_required. fp_go. Qed.
Hint Resolve fp_latch_error : fp.
Lemma fp_cq_can_write f : writes (fp_host ++ fp_latch) (cq_can_write f).
Proof. unfold cq_can_write. fp_go. Qed.
Hint Resolve fp_cq_can_write : fp.
Lemma fp_put_cq i e : writes [L_cq] (put_cq i e).
Proof. unfold put_cq. fp_go. Qed.
Hint Resolve fp_put_cq : fp.
Lemma fp_write_cq_entry f i c d : writes fp_cq (write_cq_entry f i c d).
Proof. unfold write_cq_entry. fp_go. Qed.
Lemma fp_put_trace i e : writes [L_trace] (put_trace i e).
Proof. unfold put_trace. fp_go. Qed.
Hint Resolve fp_put_trace : fp.
Lemma fp_trace_op e i a b : writes fp_trace (trace e i a b).
Proof. unfold trace. fp_go. Qed.
Lemma fp_add_inflight nd i : writes (L_inflight :: fp_hw) (add_inflight nd i).
Proof. unfold add_inflight. fp_go. Qed.
Lemma fp_remove_inflight i : writes [L_inflight] (remove_inflight i).
Proof. unfold remove_inflight. fp_go. Qed.
Lemma fp_get_arg_word i : writes [] (get_arg_word i).
Proof. unfold get_arg_word. fp_go. Qed.
Hint Resolve fp_get_arg_word : fp.
Lemma fp_launch_kernel nd : writes fp_hw (launch_kernel nd).
Proof. unfold launch_kernel. fp_go. Qed.
Lemma fp_scalar_writes ws : writes fp_hw (scalar_writes ws).
Proof. induction ws; cbn [scalar_writes]; fp_go. Qed.
Lemma fp_ddr_load a : writes [] (ddr_load a).
Proof. unfold ddr_load. fp_go. Qed.
Lemma fp_ddr_store a v : writes [L_ddr] (ddr_store a v).
Proof. unfold ddr_store. fp_go. Qed.
Lemma fp_bump_heartbeat : writes [L_ctrl heartbeat] bump_heartbeat.
Proof. unfold bump_heartbeat. fp_go. Qed.
Lemma fp_pdi_wait fuel a b : writes fp_hw (pdi_wait fuel a b).
Proof using. induction fuel; cbn [pdi_wait]; fp_go. Qed.
Hint Resolve fp_pdi_wait : fp.
Lemma fp_pdi_load fuel a b c : writes fp_hw (rp1_pdi_load fuel a b c).
Proof. unfold rp1_pdi_load. fp_go. Qed.
End operations.

#[export] Hint Resolve fp_signal_ok fp_put_cq fp_put_trace fp_put_packet_status fp_get_arg_word
  fp_get_node fp_get_status fp_get_barrier fp_raise_barrier fp_clear_barrier
  fp_get_loop_iter fp_put_loop_iter fp_get_signal fp_put_signal fp_set_node_status fp_latch_error
  fp_mark_recovery fp_cq_can_write fp_write_cq_entry fp_trace_op fp_add_inflight
  fp_remove_inflight fp_launch_kernel fp_scalar_writes fp_ddr_load fp_ddr_store
  fp_bump_heartbeat fp_pdi_load : fp.

(** ** Footprints of the phases of a scan *)

Definition fp_complete : list loc := L_barriers :: fp_status ++ fp_cq.
Definition fp_poll : list loc :=
  L_inflight :: L_glob g_cq_blocked :: fp_complete ++ fp_trace.
(** Quiescence: no barrier, no loop counter, no signal of its own. *)
Definition fp_quiesce : list loc :=
  L_inflight :: L_ctrl heartbeat :: fp_status ++ fp_cq ++ fp_trace.
Definition fp_activate : list loc :=
  L_loops :: L_ddr :: L_ctrl rp1_current_node :: L_glob g_active_image_id :: fp_poll.
Definition fp_scan : list loc := L_ctrl heartbeat :: fp_activate.

Section phases.
Context {HW : Type} `{!Hal HW} `{!Platform}.
Abbreviation writes fp := (keeps (agree (HW := HW) fp)).

Lemma fp_execute_immediate nd i :
  writes (L_ddr :: fp_host) (execute_immediate nd i).
Proof. unfold execute_immediate. fp_go. Qed.
Lemma fp_complete_node nd i : writes fp_complete (complete_node nd i).
Proof. unfold complete_node. fp_go. Qed.
Lemma fp_rearm_body a b c d : writes (L_barriers :: fp_status) (rearm_body a b c d).
Proof. unfold rearm_body. fp_go. Qed.
Hint Resolve fp_execute_immediate fp_complete_node fp_rearm_body : fp.

Lemma fp_launch_and_mark nd i : writes (fp_complete ++ fp_trace) (launch_and_mark nd i).
Proof. unfold launch_and_mark. fp_go. Qed.
Hint Resolve fp_launch_and_mark : fp.

Lemma fp_activate_kernel_dispatch nd i : writes fp_poll (activate_kernel_dispatch nd i).
Proof. unfold activate_kernel_dispatch. fp_go. Qed.
Lemma fp_activate_pdi_load pf nd i :
  writes (L_glob g_active_image_id :: fp_poll) (activate_pdi_load pf nd i).
Proof. unfold activate_pdi_load. fp_go. Qed.
Lemma fp_activate_loop nd i : writes (L_loops :: fp_poll) (activate_loop nd i).
Proof. unfold activate_loop. fp_go. Qed.
Lemma fp_activate_cond nd i : writes fp_poll (activate_cond nd i).
Proof. unfold activate_cond. fp_go. Qed.
Lemma fp_activate_rerun nd i : writes (L_loops :: fp_poll) (activate_rerun nd i).
Proof. unfold activate_rerun. fp_go. Qed.
Lemma fp_activate_wait nd i : writes fp_poll (activate_wait nd i).
Proof. unfold activate_wait. fp_go. Qed.
Lemma fp_activate_halt nd i : writes fp_poll (activate_halt nd i).
Proof. unfold activate_halt. fp_go. Qed.
Hint Resolve fp_activate_kernel_dispatch fp_activate_pdi_load fp_activate_loop fp_activate_cond
  fp_activate_rerun fp_activate_wait fp_activate_halt : fp.

Lemma fp_activate_op pf nd i : writes fp_activate (activate_op pf nd i).
Proof. unfold activate_op. fp_go. Qed.
Hint Resolve fp_activate_op : fp.
Lemma fp_activate_node pf i : writes fp_activate (activate_node pf i).
Proof. unfold activate_node. fp_go. Qed.
Hint Resolve fp_activate_node : fp.
Lemma fp_scan_from fp body k : (forall i, writes fp (body i)) ->
  forall i mp, writes fp (scan_from body k i mp).
Proof. intros Hb. induction k; intros; cbn [scan_from]; fp_go. Qed.
Lemma fp_activate_nodes pf c : writes fp_activate (activate_nodes pf c).
Proof. apply fp_scan_from. intros. fp_go. Qed.

Lemma fp_poll_kernel k : writes (L_glob g_cq_blocked :: fp_complete ++ fp_trace) (poll_kernel k).
Proof. unfold poll_kernel. fp_go. Qed.
Hint Resolve fp_poll_kernel : fp.
Lemma fp_check_inflight_from fuel : forall i mp, writes fp_poll (check_inflight_from fuel i mp).
Proof. induction fuel; intros; cbn [check_inflight_from]; fp_go. Qed.
Lemma fp_check_inflight : writes fp_poll check_inflight.
Proof. unfold check_inflight. fp_go. apply fp_check_inflight_from. Qed.
Lemma fp_poll_wait i : writes (L_glob g_cq_blocked :: fp_complete ++ fp_trace) (poll_wait i).
Proof. unfold poll_wait. fp_go. Qed.
Hint Resolve fp_poll_wait : fp.
Lemma fp_check_waits c : writes fp_poll (check_waits c).
Proof. apply fp_scan_from. intros. fp_go. Qed.

Lemma fp_quiesce_kernel k : writes (fp_status ++ fp_cq ++ fp_trace) (quiesce_kernel k).
Proof. unfold quiesce_kernel. fp_go. Qed.
Hint Resolve fp_quiesce_kernel : fp.
Lemma fp_quiesce_pass fuel : forall i, writes fp_quiesce (quiesce_pass fuel i).
Proof. induction fuel; intros; cbn [quiesce_pass]; fp_go. Qed.
Hint Resolve fp_quiesce_pass : fp.
Lemma fp_quiesce_inflight fuel : writes fp_quiesce (quiesce_inflight fuel).
Proof. induction fuel; cbn [quiesce_inflight]; fp_go. Qed.
Hint Resolve fp_activate_nodes fp_check_inflight fp_check_waits fp_quiesce_inflight : fp.

Lemma fp_any_status k : forall i v, writes [] (any_status k i v).
Proof. induction k; intros; cbn [any_status]; fp_go. Qed.
Hint Resolve fp_any_status : fp.
Lemma fp_scan_pass pf qf c : writes fp_scan (scan_pass pf qf c).
Proof. unfold scan_pass. fp_go. Qed.
Hint Resolve fp_scan_pass : fp.
Lemma fp_scan_loop fuel pf qf c : writes fp_scan (scan fuel pf qf c).
Proof. induction fuel; cbn [scan]; fp_go. Qed.
Lemma fp_publish_rejection fuel b d :
  writes (L_ctrl heartbeat :: fp_cq) (publish_rejection fuel b d).
Proof. induction fuel; cbn [publish_rejection]; fp_go. Qed.
Lemma fp_validate_from k : forall i c a, writes [] (validate_from k i c a).
Proof. induction k; intros; cbn [validate_from]; fp_go. Qed.
Lemma fp_validate_nodes c : writes [] (validate_nodes c).
Proof. unfold validate_nodes. fp_go. apply fp_validate_from. Qed.
Hint Resolve fp_scan_loop fp_publish_rejection fp_validate_nodes : fp.
Lemma fp_rp1_loop fuel pf qf : writes fp_scan (rp1_loop fuel pf qf).
Proof. unfold rp1_loop. fp_go. Qed.
End phases.

#[export] Hint Resolve fp_launch_and_mark fp_execute_immediate fp_complete_node fp_rearm_body fp_activate_op
  fp_activate_node fp_activate_nodes fp_poll_kernel fp_poll_wait fp_check_inflight fp_check_waits
  fp_quiesce_kernel fp_quiesce_pass
  fp_quiesce_inflight fp_any_status fp_scan_pass fp_scan_loop fp_publish_rejection
  fp_validate_nodes fp_rp1_loop : fp.

(** ** Relations a scan maintains

    A relation between the states before and after a run that every leaf
    operation maintains is maintained by the whole dispatch loop.  The leaves
    are: writes outside the error latch and the completion ring, the host's
    writes, the two latch operations, and the two queue operations. *)

Definition fp_quiet : list loc :=
  [L_barriers; L_status; L_loops; L_inflight; L_packets; L_signals; L_args; L_trace; L_ddr; L_hw;
   L_ctrl trace_write_idx; L_ctrl rp1_current_node; L_ctrl heartbeat;
   L_glob g_cq_blocked; L_glob g_active_image_id].

Class ScanRel {HW} `{!Hal HW} (R : st HW -> st HW -> Prop) : Prop := {
  sr_preorder :: PreOrder R;
  sr_frame s s' : agree fp_quiet s s' -> R s s';
  sr_host : keeps R host_writes;
  sr_latch_error c i d a : keeps R (rp1_latch_error c i d a);
  sr_mark_recovery : keeps R rp1_mark_recovery_required;
  sr_cq_can_write f : keeps R (cq_can_write f);
  sr_write_cq_entry f i c d : keeps R (write_cq_entry f i c d)
}.

Lemma rel_fp {HW} `{!Hal HW} (R : st HW -> st HW -> Prop) `{!ScanRel R} {A} fp
    (m : SM (st HW) A) :
  writes fp m -> within fp fp_quiet = true -> keeps R m.
Proof.
  intros Hm Hfp. eapply keeps_mono; [done|]. intros s s' Ha. apply sr_frame.
  by eapply agree_mono.
Qed.

Create HintDb scan_rel.
#[export] Hint Resolve sr_host sr_latch_error sr_mark_recovery sr_cq_can_write
  sr_write_cq_entry : scan_rel.

#[export] Hint Extern 0 (ScanRel _) => apply _ : scan_rel.

Ltac rel_step :=
  first
    [ keeps_step
    | lazymatch goal with
      | |- keeps _ _ =>
          first [ solve [eauto with scan_rel nocore]
                | eapply rel_fp; [apply _|solve [eauto with fp nocore]|reflexivity] ]
      end ].
Ltac rel_go := repeat rel_step.

Section scan_rel.
Context {HW : Type} `{!Hal HW} `{!Platform} (R : st HW -> st HW -> Prop) `{!ScanRel R}.
Abbreviation kept m := (keeps R m).


Lemma rel_get_signal i : kept (get_signal i).
Proof using ScanRel0. unfold get_signal. rel_go. Qed.
Hint Resolve rel_get_signal : scan_rel.
Lemma rel_execute_immediate nd i : kept (execute_immediate nd i).
Proof using ScanRel0. unfold execute_immediate. rel_go. Qed.
Hint Resolve rel_execute_immediate : scan_rel.
Lemma rel_complete_node nd i : kept (complete_node nd i).
Proof using ScanRel0. unfold complete_node. rel_go. Qed.
Hint Resolve rel_complete_node : scan_rel.
Lemma rel_launch_and_mark nd i : kept (launch_and_mark nd i).
Proof using ScanRel0. unfold launch_and_mark. rel_go. Qed.
Hint Resolve rel_launch_and_mark : scan_rel.

Lemma rel_activate_op pf nd i : kept (activate_op pf nd i).
Proof using ScanRel0.
  unfold activate_op. destruct (opcode_of _) as [[]|];
    unfold activate_kernel_dispatch, activate_pdi_load, activate_loop, activate_cond,
      activate_rerun, activate_wait, activate_halt; rel_go.
Qed.
Hint Resolve rel_activate_op : scan_rel.
Lemma rel_activate_node pf i : kept (activate_node pf i).
Proof using ScanRel0. unfold activate_node. rel_go. Qed.
Hint Resolve rel_activate_node : scan_rel.

Lemma rel_scan_from (body : Z -> SM (st HW) ctl) k :
  (forall i, kept (body i)) -> forall i mp, kept (scan_from body k i mp).
Proof using ScanRel0. intros Hb. induction k; intros; cbn [scan_from]; rel_go. Qed.

Lemma rel_poll_kernel k : kept (poll_kernel k).
Proof using ScanRel0. unfold poll_kernel. rel_go. Qed.
Hint Resolve rel_poll_kernel : scan_rel.
Lemma rel_check_inflight_from fuel : forall i mp, kept (check_inflight_from fuel i mp).
Proof using ScanRel0. induction fuel; intros; cbn [check_inflight_from]; rel_go. Qed.
Lemma rel_poll_wait i : kept (poll_wait i).
Proof using ScanRel0. unfold poll_wait. rel_go. Qed.
Lemma rel_quiesce_kernel k : kept (quiesce_kernel k).
Proof using ScanRel0. unfold quiesce_kernel. rel_go. Qed.
Hint Resolve rel_quiesce_kernel : scan_rel.
Lemma rel_quiesce_pass fuel : forall i, kept (quiesce_pass fuel i).
Proof using ScanRel0. induction fuel; intros; cbn [quiesce_pass]; rel_go. Qed.
Hint Resolve rel_quiesce_pass : scan_rel.
Lemma rel_quiesce_inflight fuel : kept (quiesce_inflight fuel).
Proof using ScanRel0. induction fuel; cbn [quiesce_inflight]; rel_go. Qed.
Hint Resolve rel_quiesce_inflight : scan_rel.

Lemma rel_activate_nodes pf c : kept (activate_nodes pf c).
Proof using ScanRel0. apply rel_scan_from. auto with scan_rel. Qed.
Lemma rel_check_inflight : kept check_inflight.
Proof using ScanRel0. unfold check_inflight. rel_go. apply rel_check_inflight_from. Qed.
Lemma rel_check_waits c : kept (check_waits c).
Proof using ScanRel0. apply rel_scan_from. apply rel_poll_wait. Qed.
Hint Resolve rel_activate_nodes rel_check_inflight rel_check_waits : scan_rel.
Lemma rel_scan_pass pf qf c : kept (scan_pass pf qf c).
Proof using ScanRel0. unfold scan_pass. rel_go. Qed.
Hint Resolve rel_scan_pass : scan_rel.
Lemma rel_scan fuel pf qf c : kept (scan fuel pf qf c).
Proof using ScanRel0. induction fuel; cbn [scan]; rel_go. Qed.
Lemma rel_publish_rejection fuel b d : kept (publish_rejection fuel b d).
Proof using ScanRel0. induction fuel; cbn [publish_rejection]; rel_go. Qed.
Hint Resolve rel_scan rel_publish_rejection : scan_rel.
Lemma rel_rp1_loop fuel pf qf : kept (rp1_loop fuel pf qf).
Proof using ScanRel0. unfold rp1_loop. rel_go. Qed.
End scan_rel.

#[export] Hint Resolve rel_get_signal rel_execute_immediate rel_activate_node rel_poll_kernel
  rel_poll_wait rel_activate_nodes rel_check_inflight rel_check_waits rel_complete_node
  rel_launch_and_mark rel_activate_op rel_quiesce_inflight rel_scan_pass rel_scan
  rel_publish_rejection rel_rp1_loop : scan_rel.

