(* ===== verification/Rp1Fixture.v ===== *)
(** * A concrete fabric for evaluating the firmware model

    A small instance of the hardware interface, used by the witnesses: every
    MMIO access is logged, a started kernel reports ap_done at its next
    control-register read (and the read clears it, as HLS does), the cycle
    counter advances by one per read, and the host either drains the
    completion queue at once or leaves it alone.  Also packet and state
    builders for concrete graphs. *)

From S2P Require Import Prelude Rp1Protocol Rp1Store Rp1Loop.

Inductive io := Rd (a : Z) | Wr (a v : Z).

Record fabric := {
  fab_clock : Z;
  fab_log : list io;      (* newest first *)
  fab_running : list Z;   (* started kernels that have not been polled *)
  fab_stuck : list Z;     (* kernels that never finish *)
  fab_drains : bool
}.

Definition fab_done (a : Z) (f : fabric) : bool :=
  existsb (Z.eqb a) (fab_running f) && negb (existsb (Z.eqb a) (fab_stuck f)).

#[export] Instance fabric_hal : Hal fabric := {
  hal_read32 a f :=
    ((if fab_done a f then 2 else 0),
     {| fab_clock := fab_clock f; fab_log := Rd a :: fab_log f;
        fab_running := if fab_done a f then List.filter (fun b => negb (b =? a)) (fab_running f)
                       else fab_running f;
        fab_stuck := fab_stuck f; fab_drains := fab_drains f |});
  hal_write32 a v f :=
    {| fab_clock := fab_clock f; fab_log := Wr a v :: fab_log f;
       fab_running := if v =? 1 then a :: fab_running f else fab_running f;
       fab_stuck := fab_stuck f; fab_drains := fab_drains f |};
  hal_barrier f := f;
  hal_pmu_init f :=
    {| fab_clock := 0; fab_log := fab_log f; fab_running := fab_running f;
       fab_stuck := fab_stuck f; fab_drains := fab_drains f |};
  hal_cycles f :=
    (fab_clock f,
     {| fab_clock := fab_clock f + 1; fab_log := fab_log f; fab_running := fab_running f;
        fab_stuck := fab_stuck f; fab_drains := fab_drains f |});
  hal_host f c sigs := (f, if fab_drains f then c cq_write_idx else c cq_read_idx, sigs)
}.

(** The fixture platform of config/qemu/rp1_platform_config.h. *)
#[export] Instance qemu_platform : Platform := {
  RP1_PLATFORM_ID := 0x51454D55;
  RP1_R5_FREQ_HZ := 100000000;
  RP1_PDI_IPI_REQUEST_BASE := 0xFF3F0A40;
  RP1_PDI_IPI_RESPONSE_BASE := 0xFF3F0A60;
  RP1_PDI_IPI_TRIGGER_REG := 0xFF360000;
  RP1_PDI_IPI_OBSERVATION_REG := 0xFF360004;
  RP1_PDI_IPI_TARGET_MASK := 0x00000002
}.

Definition fabric0 : fabric :=
  {| fab_clock := 0; fab_log := []; fab_running := []; fab_stuck := []; fab_drains := true |}.

(** A packet with opcode value [op]. *)
Definition packet (op flags await_bucket await_mask set_bucket set_mask : Z) (p : payload)
    : rp1_node_t := {|
  node_opcode := op; node_flags := flags;
  barrier_await_mask := await_mask; barrier_set_mask := set_mask;
  barrier_await_bucket := await_bucket; barrier_set_bucket := set_bucket;
  node_status_field := 0; node_payload := enc_payload p
|}.

Definition dispatch (base : Z) : payload := P_kernel_dispatch {|
  kernel_base_addr := base; arg_buffer_offset := 0; arg_count := 0; ctrl_flags := 0;
  kd_timeout_cycles := 1000; expected_image_id := 0 |}.

Definition empty_slot : rp1_signal_slot_t :=
  {| slot_value := 0; slot_reserved := 0; last_writer_node := 0; slot_flags := 0 |}.

(** The control block as the host programs it for [n] nodes. *)
Definition default_ctrl (n : Z) : rp1_ctrl_t := fun f =>
  match f with
  | node_count => n
  | cq_size => 64
  | node_base_lo => RP1_CTRL_PHYS_ADDR + RP1_DEFAULT_NODE_ARRAY_OFFSET
  | cq_base_lo => RP1_CTRL_PHYS_ADDR + RP1_DEFAULT_CQ_OFFSET
  | arg_buf_base_lo => RP1_CTRL_PHYS_ADDR + RP1_DEFAULT_ARG_BUF_OFFSET
  | sig_array_base_lo => RP1_CTRL_PHYS_ADDR + RP1_DEFAULT_SIG_ARRAY_OFFSET
  | trace_base_lo => RP1_CTRL_PHYS_ADDR + RP1_DEFAULT_TRACE_OFFSET
  | trace_size => 256
  | _ => 0
  end.

Definition nop_packet : rp1_node_t := packet RP1_OP_NOP 0 0 0 0 0 P_none.

Definition empty_cq_entry : rp1_cq_entry_t :=
  {| cq_node_index := 0; cq_status := 0; cq_error_detail := 0; cq_timestamp := 0 |}.

(** DDR as the host staged it, before the firmware accepts the graph. *)
Definition staged {HW} (f : HW) (graph : list rp1_node_t) (words : list Z) : st HW :=
  mkst (default_ctrl (Z.of_nat (length graph))) (fun _ => 0) (fun _ => 0) (fun _ => 0)
    (fun _ => 0) [] (fun i => nth (Z.to_nat i) graph nop_packet) (fun _ => empty_cq_entry)
    (fun _ => empty_slot) (fun w => nth (Z.to_nat w) words 0)
    (fun _ => {| te_timestamp := 0; te_event := 0; te_node_index := 0; te_aux0 := 0;
                 te_aux1 := 0 |}) (fun _ => 0) f.

(** The state [rp1_loop] starts from: staged, then [rp1_store_init]. *)
Definition booted (f : fabric) (graph : list rp1_node_t) (words : list Z) : st fabric :=
  match rp1_store_init (staged f graph words) with
  | Ret _ s => s
  | _ => staged f graph words
  end.

(** What a run of [rp1_loop] did: result, node statuses, MMIO log. *)
Definition outcome (fuel : nat) (f : fabric) (graph : list rp1_node_t) (words : list Z)
    : option (Z * list Z * list io) :=
  match rp1_loop fuel fuel fuel (booted f graph words) with
  | Ret r s => Some (r, map (fun i => node_status s (Z.of_nat i)) (seq 0 (length graph)),
                     rev (fab_log (hw s)))
  | _ => None
  end.

(** Two kernels, the second waiting for the first, and a final NOP that
    waits for both. *)
Definition chain : list rp1_node_t :=
  [packet RP1_OP_KERNEL_DISPATCH 0 0 0 0 1 (dispatch 0xA4000000);
   packet RP1_OP_KERNEL_DISPATCH 0 0 1 0 2 (dispatch 0xA4010000);
   packet RP1_OP_NOP 0 0 3 1 1 P_none].

(** A graph whose second packet waits on a bucket that does not exist. *)
Definition malformed : list rp1_node_t := [nop_packet; packet RP1_OP_NOP 0 40 1 0 0 P_none].

(** [graph] staged and the doorbell rung, before the firmware boots. *)
Definition submitted (graph : list rp1_node_t) : st fabric :=
  set_ctrl graph_seq 1 (staged fabric0 graph []).
