(* ===== verification/Rp1Safety.v ===== *)
(** * Memory safety of the RP1 firmware

    [rp1_store_init] and [validate_nodes] together establish an invariant
    under which no later access of the scanner leaves the object it indexes:
    not the BTCM arrays, not the in-flight table, not the shared window.
    The invariant survives every operation of the scan, whatever the kernels,
    the clock and the host do.  *)

From S2P Require Import Prelude Rp1Protocol Rp1Store Rp1Loop Rp1Frame Rp1Fixture.

(** A software-DMA packet stays clear of the shared window (the host's
    responsibility: the firmware does not check it). *)
Definition dma_clear (node : rp1_node_t) : Prop :=
  match opcode_of (node_opcode node) with
  | Some DMA_COPY =>
      let q := view_dma_copy (node_payload node) in
      forall w, 0 <= w < dc_length q / 4 ->
        outside_window (add32 (src_addr_lo q) (4 * w)) = true /\
        outside_window (add32 (dc_dst_addr_lo q) (4 * w)) = true
  | Some DMA_FILL =>
      let q := view_dma_fill (node_payload node) in
      forall w, 0 <= w < df_length q / 4 ->
        outside_window (add32 (df_dst_addr_lo q) (4 * w)) = true
  | _ => True
  end.

(** A packet is made of bytes. *)
Definition bytes_ok (node : rp1_node_t) : Prop :=
  0 <= barrier_await_bucket node /\ 0 <= barrier_set_bucket node /\
  Forall is_u8 (node_payload node).

Definition window_end : Z := RP1_CTRL_PHYS_ADDR + RP1_CTRL_WINDOW_SIZE.

(** What acceptance by [validate_nodes] gives for one packet. *)
Definition pkt_ok (n base : Z) (node : rp1_node_t) : Prop :=
  bytes_ok node /\ dma_clear node /\ validate_node n (sub32 window_end base) node = None.

(** Equal up to the status field, the only one the firmware writes. *)
Definition same_packet (a b : rp1_node_t) : Prop := with_status a 0 = with_status b 0.

(** [len] bytes at [p] lie in the shared window. *)
Definition covers (p len : Z) : Prop := RP1_CTRL_PHYS_ADDR <= p /\ p + len <= window_end.

(** What [rp1_store_init] established: counts, and every region in window. *)
Definition cfg_ok (n base : Z) (g : global -> Z) (size argbase : Z) : Prop :=
  0 < n <= RP1_MAX_NODES /\
  covers (g g_nodes) (sizeof_node * n) /\
  (exists k, 0 <= k /\ size = 2 ^ k) /\
  covers (g g_cq) (sizeof_cq_entry * size) /\
  covers (g g_signals) (sizeof_signal_slot * RP1_MAX_SIGNALS) /\
  argbase = base /\ g g_arg_buf = base /\ covers base 4 /\
  (g g_trace_enable <> 0 ->
     0 < g g_trace_size /\ covers (g g_trace) (sizeof_trace_entry * g g_trace_size)).

Definition inflight_ok (n : Z) (k : rp1_inflight_t) : Prop :=
  0 <= if_node_index k < n /\ 0 <= if_set_bucket k < RP1_MAX_BUCKETS.

(** The safety invariant of a running graph of [n] packets [prog]. *)
Record Inv {HW} (n base : Z) (prog : Z -> rp1_node_t) (s : st HW) : Prop := {
  inv_cfg : cfg_ok n base (glob s) (ctrl s cq_size) (ctrl s arg_buf_base_lo);
  inv_prog : forall i, 0 <= i < n -> same_packet (nodes s i) (prog i);
  inv_count : Z.of_nat (length (inflight s)) <= RP1_MAX_INFLIGHT;
  inv_inflight : Forall (inflight_ok n) (inflight s);
  inv_waiting : forall i, 0 <= i < n -> node_status s i = RP1_NODE_WAITING ->
    opcode_of (node_opcode (prog i)) = Some WAIT
}.

(** ** Packets and their status field *)

Lemma same_packet_refl a : same_packet a a.
Proof. done. Qed.

Lemma same_packet_status a b v : same_packet a b -> same_packet (with_status a v) b.
Proof. by destruct a, b. Qed.

#[export] Instance same_packet_equiv : Equivalence same_packet.
Proof. unfold same_packet. split; congruence. Qed.

(** What a packet means does not depend on its status field. *)
Lemma same_packet_fields a b :
  same_packet a b ->
  node_opcode a = node_opcode b /\ node_flags a = node_flags b /\
  node_payload a = node_payload b /\
  barrier_await_mask a = barrier_await_mask b /\ barrier_set_mask a = barrier_set_mask b /\
  barrier_await_bucket a = barrier_await_bucket b /\
  barrier_set_bucket a = barrier_set_bucket b.
Proof. destruct a, b. unfold same_packet, with_status. cbn. by intros [= -> -> -> -> -> -> ->]. Qed.

#[export] Instance pkt_ok_proper n base : Proper (same_packet ==> iff) (pkt_ok n base).
Proof.
  intros a b (Ho & Hf & Hp & Ham & Hsm & Hab & Hsb)%same_packet_fields.
  unfold pkt_ok, bytes_ok, dma_clear, validate_node. by rewrite Ho, Hf, Hp, Hab, Hsb.
Qed.

(** ** Frames: updates outside the configuration keep the invariant *)

(** The globals [rp1_store_init] sets and nothing changes afterwards. *)
Definition config_global (g : global) : bool :=
  match g with
  | g_graph_start_cycles | g_active_image_id | g_cq_blocked => false
  | _ => true
  end.

Section frames.
Context {HW : Type} (n base : Z) (prog : Z -> rp1_node_t).
Implicit Types s : st HW.
Abbreviation Inv := (Inv n base prog).

Lemma Inv_set_ctrl s f v :
  f <> cq_size -> f <> arg_buf_base_lo -> Inv s -> Inv (set_ctrl f v s).
Proof.
  intros ?? []. split; try done. unfold set_ctrl. cbn [ctrl glob].
  by rewrite !fn_lookup_insert_ne by done.
Qed.

Lemma Inv_set_glob s g v : config_global g = false -> Inv s -> Inv (set_glob g v s).
Proof.
  intros Hg []. split; try done. unfold set_glob, cfg_ok in *. cbn [ctrl glob].
  rewrite !fn_lookup_insert_ne by (by intros ->). done.
Qed.

Lemma Inv_packet_status s i v :
  Inv s -> Inv (set_nodes (<[i := with_status (nodes s i) v]> (nodes s)) s).
Proof.
  intros []. split; try done. intros j Hj. cbn. unfold insert, fn_insert.
  destruct (decide (i = j)) as [->|]; [|auto]. apply same_packet_status. auto.
Qed.

Lemma Inv_status s i v :
  (v <> RP1_NODE_WAITING \/ opcode_of (node_opcode (prog i)) = Some WAIT) ->
  Inv s -> Inv (set_status_array (<[i := v]> (node_status s)) s).
Proof.
  intros Hv []. split; try done. intros j Hj. cbn. unfold insert, fn_insert.
  destruct (decide (i = j)) as [->|]; [|auto]. by destruct Hv.
Qed.

Lemma Inv_set_inflight s l :
  Z.of_nat (length l) <= RP1_MAX_INFLIGHT -> Forall (inflight_ok n) l ->
  Inv s -> Inv (set_inflight l s).
Proof. by intros ?? []. Qed.

Lemma Inv_set_hw s h : Inv s -> Inv (set_hw h s).
Proof. by intros []. Qed.
Lemma Inv_set_signals s v : Inv s -> Inv (set_signals v s).
Proof. by intros []. Qed.
Lemma Inv_set_barriers s v : Inv s -> Inv (set_barriers v s).
Proof. by intros []. Qed.
Lemma Inv_set_loop_iters s v : Inv s -> Inv (set_loop_iters v s).
Proof. by intros []. Qed.
Lemma Inv_set_cq s v : Inv s -> Inv (set_cq v s).
Proof. by intros []. Qed.
Lemma Inv_set_trace_ring s v : Inv s -> Inv (set_trace_ring v s).
Proof. by intros []. Qed.
Lemma Inv_set_ddr s v : Inv s -> Inv (set_ddr v s).
Proof. by intros []. Qed.
End frames.

Create HintDb rp1safe.

(** Peels the updates that do not concern the invariant off a state. *)
Ltac inv_solve :=
  repeat first
    [ eassumption | apply Inv_set_hw | apply Inv_set_signals | apply Inv_set_barriers
    | apply Inv_set_loop_iters | apply Inv_set_cq | apply Inv_set_trace_ring | apply Inv_set_ddr
    | apply Inv_packet_status | apply Inv_set_ctrl; [done|done|]
    | apply Inv_set_glob; [reflexivity|] ].

#[export] Hint Extern 0 (Inv _ _ _ _) => solve [inv_solve] : rp1safe.
#[export] Hint Extern 1 (_ <= _ < _) => lia : rp1safe.
#[export] Hint Extern 1 (_ <> _) => done : rp1safe.

(** One step of a safety proof: plumbing, or a lemma of the database. *)
Ltac safe_step :=
  lazymatch goal with
  | |- post _ _ (_ ≫= _) _ _ => apply post_bind
  | |- post _ _ (mret _) _ _ => apply post_ret
  | |- post _ _ (get_ctrl _) _ _ => apply post_gets
  | |- post _ _ (get_glob _) _ _ => apply post_gets
  | |- post _ _ (gets _) _ _ => apply post_gets
  | |- post _ _ (put_ctrl _ _) _ _ => apply post_modify
  | |- post _ _ (put_glob _ _) _ _ => apply post_modify
  | |- post _ _ (modify _) _ _ => apply post_modify
  | |- post _ _ (rp1_mmio_read32 _) _ _ => apply post_mmio_read32; intros ??
  | |- post _ _ (rp1_mmio_write32 _ _) _ _ => apply post_mmio_write32; intros ?
  | |- post _ _ rp1_barrier _ _ => apply post_barrier; intros ?
  | |- post _ _ rp1_cycles _ _ => apply post_cycles; intros ??
  | |- post _ _ host_writes _ _ => apply post_host_writes; intros ???
  | |- post _ _ (when _ _) _ _ => apply post_when; intros ?
  | |- post _ _ (if _ then _ else _) _ _ => apply post_if; intros ?
  | |- post _ _ _ _ _ =>
      eapply post_mono; [solve [eauto with rp1safe]|cbn beta; let H := fresh in intros ?? H; destruct_and? H]
  end; cbn beta.

Ltac safe_go := repeat safe_step; try done; eauto 6 with rp1safe.

(** ** Operations that do not depend on the packets being valid *)

Section base.
Context {HW : Type} `{!Hal HW} (n base : Z) (prog : Z -> rp1_node_t) (nf : Prop).
Implicit Types s : st HW.
Abbreviation Inv := (Inv n base prog).
Abbreviation preserves := (fun _ s' => Inv s').

Lemma in_window_covers p len a l :
  covers p len -> p <= a -> a + l <= p + len -> in_window a l = true.
Proof.
  unfold covers, in_window, window_end. intros. apply andb_true_iff.
  rewrite !Z.leb_le. lia.
Qed.

(** Element [i] of an array of [k] elements of [sz] bytes that is in window. *)
Lemma element_in_window p sz k i :
  0 < sz -> covers p (sz * k) -> 0 <= i < k ->
  (0 <=? i) && in_window (p + sz * i) sz = true.
Proof.
  intros ? Hc ?. apply andb_true_iff. split; [apply Z.leb_le; lia|].
  apply (in_window_covers _ _ _ _ Hc); nia.
Qed.

Lemma get_node_run s i : Inv s -> 0 <= i < n -> get_node i s = Ret (nodes s i) s.
Proof.
  intros HI Hi. destruct (inv_cfg _ _ _ _ HI) as (_ & Hc & _).
  unfold get_node, get_glob, mbind, SM_bind, gets, checked.
  by rewrite (element_in_window _ _ n).
Qed.

Lemma get_node_safe s i :
  Inv s -> 0 <= i < n ->
  post False nf (get_node i) s (fun node s' => Inv s' /\ same_packet node (prog i)).
Proof.
  intros HI Hi. unfold post. rewrite get_node_run by done.
  split; [done|]. by apply (inv_prog _ _ _ _ HI).
Qed.

Lemma put_packet_status_safe s i v :
  Inv s -> 0 <= i < n -> post False nf (put_packet_status i v) s preserves.
Proof.
  intros HI Hi. unfold put_packet_status, get_glob. repeat post_step.
  - destruct (inv_cfg _ _ _ _ HI) as (_ & Hc & _). by apply (element_in_window _ _ n).
  - by apply Inv_packet_status.
Qed.

Lemma get_status_safe s i :
  Inv s -> 0 <= i < n ->
  post False nf (get_status i) s (fun v s' => Inv s' /\ s' = s /\ v = node_status s i).
Proof.
  intros HI Hi. unfold get_status. repeat post_step; [|done].
  destruct (inv_cfg _ _ _ _ HI) as (? & _). apply in_bounds_spec. lia.
Qed.

Lemma get_barrier_safe s b :
  Inv s -> 0 <= b < RP1_MAX_BUCKETS -> post False nf (get_barrier b) s preserves.
Proof. intros. unfold get_barrier. repeat post_step; [by apply in_bounds_spec|done]. Qed.

Lemma raise_barrier_safe s b m :
  Inv s -> 0 <= b < RP1_MAX_BUCKETS -> post False nf (raise_barrier b m) s preserves.
Proof.
  intros. unfold raise_barrier. repeat post_step; [by apply in_bounds_spec|].
  by apply Inv_set_barriers.
Qed.

Lemma clear_barrier_safe s b :
  Inv s -> 0 <= b < RP1_MAX_BUCKETS -> post False nf (clear_barrier b) s preserves.
Proof.
  intros. unfold clear_barrier. repeat post_step; [by apply in_bounds_spec|].
  by apply Inv_set_barriers.
Qed.

Lemma get_loop_iter_safe s b :
  Inv s -> 0 <= b < RP1_MAX_LOOPS -> post False nf (get_loop_iter b) s preserves.
Proof. intros. unfold get_loop_iter. repeat post_step; [by apply in_bounds_spec|done]. Qed.

Lemma put_loop_iter_safe s b v :
  Inv s -> 0 <= b < RP1_MAX_LOOPS -> post False nf (put_loop_iter b v) s preserves.
Proof.
  intros. unfold put_loop_iter. repeat post_step; [by apply in_bounds_spec|].
  by apply Inv_set_loop_iters.
Qed.

Lemma signal_ok_safe s slot :
  Inv s -> 0 <= slot < RP1_MAX_SIGNALS -> post False nf (signal_ok slot) s preserves.
Proof.
  intros HI ?. unfold signal_ok, get_glob. repeat post_step; [|done].
  destruct (inv_cfg _ _ _ _ HI) as (_ & _ & _ & _ & Hc & _).
  by apply (element_in_window _ _ RP1_MAX_SIGNALS).
Qed.

Hint Resolve signal_ok_safe : rp1safe.

Lemma get_signal_safe s slot :
  Inv s -> 0 <= slot < RP1_MAX_SIGNALS -> post False nf (get_signal slot) s preserves.
Proof. intros. unfold get_signal. safe_go. Qed.

Lemma put_signal_safe s slot v w :
  Inv s -> 0 <= slot < RP1_MAX_SIGNALS -> post False nf (put_signal slot v w) s preserves.
Proof. intros. unfold put_signal. safe_go. Qed.
End base.

#[export] Hint Resolve get_node_safe put_packet_status_safe get_status_safe get_barrier_safe
  raise_barrier_safe clear_barrier_safe get_loop_iter_safe put_loop_iter_safe
  get_signal_safe put_signal_safe : rp1safe.

(** ** Latch, completion queue, trace ring, in-flight table *)

Section queues.
Context {HW : Type} `{!Hal HW} `{!Platform} (n base : Z) (prog : Z -> rp1_node_t) (nf : Prop).
Implicit Types s : st HW.
Abbreviation Inv := (Inv n base prog).
Abbreviation preserves := (fun _ s' => Inv s').

Lemma rp1_latch_error_safe s c nd d a : Inv s -> post False nf (rp1_latch_error c nd d a) s preserves.
Proof. intros. unfold rp1_latch_error. safe_go. Qed.

Lemma rp1_mark_recovery_required_safe s :
  Inv s -> post False nf rp1_mark_recovery_required s preserves.
Proof. intros. unfold rp1_mark_recovery_required. safe_go. Qed.

Lemma bump_heartbeat_safe s : Inv s -> post False nf bump_heartbeat s preserves.
Proof. intros. unfold bump_heartbeat. safe_go. Qed.

Lemma set_node_status_safe s i v :
  Inv s -> 0 <= i < n ->
  (u8 v <> RP1_NODE_WAITING \/ opcode_of (node_opcode (prog i)) = Some WAIT) ->
  post False nf (set_node_status i v) s preserves.
Proof.
  intros HI Hi Hv. unfold set_node_status. repeat post_step.
  - destruct (inv_cfg _ _ _ _ HI) as (? & _). apply in_bounds_spec. lia.
  - apply put_packet_status_safe; [|done]. by apply Inv_status.
Qed.

Hint Resolve rp1_latch_error_safe : rp1safe.

Lemma cq_can_write_safe s f : Inv s -> post False nf (cq_can_write f) s preserves.
Proof. intros. unfold cq_can_write. safe_go. Qed.

Hint Resolve cq_can_write_safe : rp1safe.

(** The masked write cursor is an index of the ring. *)
Lemma cq_index_bounds s w :
  Inv s -> 0 <= Z.land w (sub32 (ctrl s cq_size) 1) < ctrl s cq_size.
Proof.
  intros [(_ & _ & (k & Hk & ->) & Hc & _) _ _ _ _].
  assert (0 < 2 ^ k) by (apply Z.pow_pos_nonneg; lia).
  unfold covers, window_end, sizeof_cq_entry, RP1_CTRL_PHYS_ADDR, RP1_CTRL_WINDOW_SIZE in Hc.
  unfold sub32. rewrite u32_small by (unfold is_u32; lia).
  rewrite land_pow2_pred by done. by apply Z.mod_pos_bound.
Qed.

Lemma put_cq_safe s idx e :
  Inv s -> 0 <= idx < ctrl s cq_size -> post False nf (put_cq idx e) s preserves.
Proof.
  intros HI ?. unfold put_cq, get_glob. repeat post_step; [|eauto with rp1safe].
  destruct (inv_cfg _ _ _ _ HI) as (_ & _ & _ & Hc & _).
  by apply (element_in_window _ _ (ctrl s cq_size)).
Qed.

Lemma write_cq_entry_safe s f i c d : Inv s -> post False nf (write_cq_entry f i c d) s preserves.
Proof.
  intros. unfold write_cq_entry. apply post_bind.
  eapply post_mono; [by apply cq_can_write_safe|]. intros a s' HI'.
  repeat (lazymatch goal with |- post _ _ (put_cq _ _) _ _ => fail | _ => safe_step end); try done.
  eapply post_mono; [apply put_cq_safe; [eauto with rp1safe|]|cbn beta; intros; safe_go].
  by apply (cq_index_bounds s').
Qed.

Lemma put_trace_safe s idx e :
  Inv s -> glob s g_trace_enable <> 0 -> 0 <= idx < glob s g_trace_size ->
  post False nf (put_trace idx e) s preserves.
Proof.
  intros HI He ?. unfold put_trace, get_glob. repeat post_step; [|eauto with rp1safe].
  destruct (inv_cfg _ _ _ _ HI) as (_ & _ & _ & _ & _ & _ & _ & _ & Hc).
  destruct (Hc He). by apply (element_in_window _ _ (glob s g_trace_size)).
Qed.

Lemma trace_safe s ev i a b : Inv s -> post False nf (trace ev i a b) s preserves.
Proof.
  intros HI. unfold trace.
  repeat (lazymatch goal with |- post _ _ (put_trace _ _) _ _ => fail | _ => safe_step end); [done|].
  bools. eapply post_mono; [apply put_trace_safe; [eauto with rp1safe|done|]|].
  - destruct (inv_cfg _ _ _ _ HI) as (_ & _ & _ & _ & _ & _ & _ & _ & Hc).
    apply Z.mod_pos_bound. by apply Hc.
  - cbn beta. intros. safe_go.
Qed.

Lemma add_inflight_safe s node i :
  Inv s -> 0 <= i < n -> 0 <= barrier_set_bucket node < RP1_MAX_BUCKETS ->
  Z.of_nat (length (inflight s)) < RP1_MAX_INFLIGHT ->
  post False nf (add_inflight node i) s preserves.
Proof.
  intros HI Hi Hb Hc. unfold add_inflight. do 4 post_step; [by apply Z.ltb_lt|].
  do 3 safe_step. apply Inv_set_inflight; [| |by apply Inv_set_hw].
  - cbn. rewrite length_app. cbn. lia.
  - cbn. apply Forall_app. split; [apply (inv_inflight _ _ _ _ HI)|]. by apply Forall_singleton.
Qed.

Lemma remove_at_Forall (P : rp1_inflight_t -> Prop) idx l : Forall P l -> Forall P (remove_at idx l).
Proof.
  intros Hl. unfold remove_at. destruct (l !! _) as [last|] eqn:E; [|done].
  assert (P last) by (eapply Forall_lookup_1; eauto).
  destruct (_ <? _)%nat; auto using Forall_insert, Forall_take.
Qed.

Lemma remove_at_length idx l : length (remove_at idx l) = (length l - 1)%nat.
Proof.
  unfold remove_at. destruct (l !! _) eqn:E.
  - destruct (_ <? _)%nat; rewrite ?length_insert, length_take; lia.
  - apply lookup_ge_None_1 in E. lia.
Qed.

Lemma remove_inflight_safe s idx : Inv s -> post False nf (remove_inflight idx) s preserves.
Proof.
  intros HI. unfold remove_inflight. post_step. apply Inv_set_inflight; [| |done].
  - rewrite remove_at_length. pose proof (inv_count _ _ _ _ HI). lia.
  - apply remove_at_Forall, (inv_inflight _ _ _ _ HI).
Qed.

Lemma remove_inflight_len s idx :
  Inv s -> post False nf (remove_inflight idx) s (fun _ s' =>
    Inv s' /\ length (inflight s') = (length (inflight s) - 1)%nat).
Proof.
  intros HI. pose proof (remove_inflight_safe _ idx HI) as HI2.
  split; [exact HI2|]. cbn. apply remove_at_length.
Qed.
End queues.

#[export] Hint Resolve rp1_latch_error_safe rp1_mark_recovery_required_safe bump_heartbeat_safe
  cq_can_write_safe write_cq_entry_safe trace_safe remove_inflight_safe : rp1safe.

(** ** What validation guarantees per opcode *)

Lemma ld_range w off p : Forall is_u8 p -> 0 <= ld w off p < 256 ^ Z.of_nat w.
Proof.
  intros Hp. unfold ld. pose proof (le_val_range (take w (drop off p)) ltac:(auto using Forall_take, Forall_drop)) as [H1 H2].
  split; [done|]. eapply Z.lt_le_trans; [exact H2|].
  apply Z.pow_le_mono_r; [lia|]. rewrite length_take. lia.
Qed.

Definition valid_slot (slot : Z) : Prop := 0 <= slot < RP1_MAX_SIGNALS.

(** A range of indices, empty or inside [0 .. k). *)
Definition valid_range (lo hi k : Z) : Prop := forall i, lo <= i <= hi -> 0 <= i < k.

(** The indices an opcode uses are indices of the arrays it uses them on. *)
Definition op_facts (n base : Z) (node : rp1_node_t) : Prop :=
  let p := node_payload node in
  match opcode_of (node_opcode node) with
  | Some SIGNAL => valid_slot (sig_target_slot (view_signal p))
  | Some WAIT => valid_slot (wait_condition_signal (view_wait p))
  | Some SCALAR_READ => valid_slot (sr_target_slot (view_scalar_read p))
  | Some SCALAR_COPY => valid_slot (source_slot (view_scalar_copy p))
  | Some KERNEL_DISPATCH =>
      let kd := view_kernel_dispatch p in
      forall i, 0 <= i < arg_count kd ->
        0 <= arg_buffer_offset kd / 4 /\
        base + 4 * (arg_buffer_offset kd / 4 + 2 * i + 1) + 4 <= window_end
  | Some LOOP =>
      let lp := view_loop p in
      valid_slot (loop_condition_signal lp) /\ 0 <= loop_loop_id lp < RP1_MAX_LOOPS /\
      valid_range (loop_body_start lp) (loop_body_end lp) n /\
      valid_range (loop_bucket_clear_start lp) (loop_bucket_clear_end lp) RP1_MAX_BUCKETS
  | Some COND =>
      let cd := view_cond p in
      valid_slot (cond_condition_signal cd) /\ 0 <= cond_done_bucket cd < RP1_MAX_BUCKETS /\
      valid_range (cond_body_start cd) (cond_body_end cd) n /\
      valid_range (cond_bucket_clear_start cd) (cond_bucket_clear_end cd) RP1_MAX_BUCKETS
  | Some RERUN =>
      let rr := view_rerun p in
      0 <= target_node rr < n /\
      (has_flag (rerun_flags rr) RP1_RERUN_CLEAR_STATE = true ->
       0 <= rerun_loop_id rr < RP1_MAX_LOOPS)
  | _ => dma_clear node
  end.

Lemma pkt_buckets n base node :
  pkt_ok n base node ->
  0 <= barrier_await_bucket node < RP1_MAX_BUCKETS /\
  0 <= barrier_set_bucket node < RP1_MAX_BUCKETS.
Proof.
  intros ((Ha & Hs & _) & _ & Hv). unfold validate_node in Hv.
  destruct (_ || _) eqn:E; [done|]. bools. lia.
Qed.

(** The argument range check of [validate_nodes], over the integers. *)
Lemma arg_range_sound base off count i :
  covers base 4 -> 0 <= off -> 0 <= count < 2 ^ 16 -> 0 <= i < count ->
  (off <=? sub32 window_end base) &&
    (u32 (count * sizeof_kernel_arg) <=? sub32 (sub32 window_end base) off) = true ->
  0 <= off / 4 /\ base + 4 * (off / 4 + 2 * i + 1) + 4 <= window_end.
Proof.
  unfold covers. intros [Hb1 Hb2] Hoff Hc Hi H. bools.
  unfold window_end, sizeof_kernel_arg, RP1_CTRL_PHYS_ADDR, RP1_CTRL_WINDOW_SIZE in *.
  change (sub32 (805306368 + 67108864) base) with (u32 (872415232 - base)) in *.
  rewrite (u32_small (872415232 - base)) in * by (unfold is_u32; lia).
  rewrite (u32_small (count * 8)) in * by (unfold is_u32; lia).
  unfold sub32 in *. rewrite u32_small in * by (unfold is_u32; lia).
  split; [apply Z.div_pos; lia|]. pose proof (Z.mul_div_le off 4 ltac:(lia)). lia.
Qed.

Lemma pkt_op_facts n base node : covers base 4 -> pkt_ok n base node -> op_facts n base node.
Proof.
  intros Hbase ((_ & _ & Hp) & Hdma & Hv). unfold validate_node in Hv.
  destruct (_ || _); [done|]. unfold op_facts, valid_slot, valid_range.
  assert (Hld := fun w off => ld_range w off _ Hp).
  destruct (opcode_of _) as [[]|] eqn:Eop; try done;
    unfold valid_signal_slot in Hv; cbn zeta in *.
  all: repeat match type of Hv with (if ?b then _ else _) = _ => destruct b eqn:?; try done end;
    bools; cbn [sig_target_slot wait_condition_signal sr_target_slot source_slot target_node
      rerun_loop_id rerun_flags view_signal view_wait view_scalar_read view_scalar_copy
      view_rerun view_loop view_cond loop_condition_signal loop_loop_id loop_body_start
      loop_body_end loop_bucket_clear_start loop_bucket_clear_end cond_condition_signal
      cond_done_bucket cond_body_start cond_body_end cond_bucket_clear_start
      cond_bucket_clear_end] in *.
  all: try (split; [apply Hld|done]).
  - intros i Hi.
    apply (arg_range_sound base _ _ i Hbase (proj1 (Hld 4%nat 4%nat)) (Hld 2%nat 8%nat) Hi).
    apply andb_true_iff. split; by apply Z.leb_le.
  - pose proof (Hld 4%nat 0%nat). pose proof (Hld 1%nat 22%nat). pose proof (Hld 4%nat 12%nat).
    pose proof (Hld 1%nat 24%nat). repeat split; intros; lia.
  - pose proof (Hld 4%nat 0%nat). pose proof (Hld 1%nat 10%nat). pose proof (Hld 4%nat 12%nat).
    pose proof (Hld 1%nat 20%nat). repeat split; intros; bools; destruct_or?; bools; lia.
  - pose proof (Hld 4%nat 0%nat). pose proof (Hld 1%nat 6%nat). split; [lia|].
    intros. destruct_or?; bools; [congruence|lia].
Qed.

(** ** Operations on validated packets *)

Section ops.
Context {HW : Type} `{!Hal HW} `{!Platform} (n base : Z) (prog : Z -> rp1_node_t) (nf : Prop).
Context (Hprog : forall i, 0 <= i < n -> pkt_ok n base (prog i)).
Implicit Types s : st HW.
Abbreviation Inv := (Inv n base prog).
Abbreviation preserves := (fun _ s' => Inv s').

Lemma node_facts s node i :
  Inv s -> 0 <= i < n -> same_packet node (prog i) ->
  op_facts n base node /\ 0 <= barrier_await_bucket node < RP1_MAX_BUCKETS /\
  0 <= barrier_set_bucket node < RP1_MAX_BUCKETS.
Proof using Hprog.
  intros HI Hi Hsp. assert (Hok : pkt_ok n base node) by (rewrite Hsp; auto).
  destruct (inv_cfg _ _ _ _ HI) as (_ & _ & _ & _ & _ & _ & _ & Hb & _).
  split; [by apply pkt_op_facts|]. by eapply pkt_buckets.
Qed.

Lemma get_arg_word_safe s w :
  Inv s -> 0 <= w -> base + 4 * w + 4 <= window_end -> post False nf (get_arg_word w) s preserves.
Proof.
  intros HI Hw Hend. unfold get_arg_word, get_glob. repeat post_step; [|done].
  destruct (inv_cfg _ _ _ _ HI) as (_ & _ & _ & _ & _ & _ & -> & Hb & _).
  unfold covers, in_window, window_end in *.
  rewrite !andb_true_iff, !Z.leb_le. lia.
Qed.

Lemma launch_kernel_safe s node i :
  Inv s -> 0 <= i < n -> same_packet node (prog i) ->
  opcode_of (node_opcode node) = Some KERNEL_DISPATCH ->
  post False nf (launch_kernel node) s preserves.
Proof using Hprog.
  intros HI Hi Hsp Hop. destruct (node_facts _ _ _ HI Hi Hsp) as [Hf _].
  unfold op_facts in Hf. rewrite Hop in Hf. cbn zeta in Hf.
  unfold launch_kernel. do 5 safe_step.
  eapply post_mono; [eapply (post_for_up (fun _ => Inv)); [eauto with rp1safe|]|].
  - intros j s' Hj HI'. destruct (Hf j) as [? ?]; [lia|]. safe_step.
    eapply post_mono; [apply get_arg_word_safe; [done|lia|lia]|]. intros a s2 HI2. safe_step.
    eapply post_mono; [apply get_arg_word_safe; [done|lia|lia]|]. intros a2 s3 HI3. safe_go.
  - cbn beta. intros. safe_go.
Qed.

Lemma scalar_writes_safe ws : forall s, Inv s -> post False nf (scalar_writes ws) s preserves.
Proof. induction ws as [|w ws IH]; intros s HI; cbn [scalar_writes]; safe_go. Qed.

Lemma execute_immediate_safe s node i :
  Inv s -> 0 <= i < n -> same_packet node (prog i) ->
  post False nf (execute_immediate node i) s preserves.
Proof using Hprog.
  intros HI Hi Hsp. destruct (node_facts _ _ _ HI Hi Hsp) as [Hf _].
  unfold op_facts, dma_clear, valid_slot in Hf. unfold execute_immediate.
  destruct (opcode_of _) as [[]|]; cbn zeta in *; try (by apply post_ret);
    try (solve [safe_go]).
  - safe_step. eapply post_mono; [by apply scalar_writes_safe|]. cbn beta. intros. safe_go.
  - safe_step. eapply post_mono; [eapply (post_for_up (fun _ => Inv)); [done|]|].
    + intros j s' Hj HI'. destruct (Hf j) as [? ?]; [lia|]. unfold ddr_load, ddr_store.
      repeat post_step; auto. by apply Inv_set_ddr.
    + cbn beta. intros. safe_go.
  - safe_step. eapply post_mono; [eapply (post_for_up (fun _ => Inv)); [done|]|].
    + intros j s' Hj HI'. specialize (Hf j ltac:(lia)). unfold ddr_store.
      repeat post_step; auto. by apply Inv_set_ddr.
    + cbn beta. intros. safe_go.
Qed.

Lemma mark_status_safe s i v :
  Inv s -> 0 <= i < n -> (u8 v =? RP1_NODE_WAITING) = false ->
  post False nf (set_node_status i v) s preserves.
Proof. intros ?? Hv. apply set_node_status_safe; auto. left. by apply Z.eqb_neq. Qed.

#[local] Hint Resolve mark_status_safe execute_immediate_safe launch_kernel_safe : rp1safe.
#[local] Hint Extern 1 ((u8 _ =? _) = false) => reflexivity : rp1safe.

Lemma complete_node_safe s node i :
  Inv s -> 0 <= i < n -> same_packet node (prog i) ->
  post False nf (complete_node node i) s preserves.
Proof using Hprog.
  intros HI Hi Hsp. destruct (node_facts _ _ _ HI Hi Hsp) as (_ & _ & ?).
  unfold complete_node. safe_go.
Qed.

#[local] Hint Resolve complete_node_safe : rp1safe.

Lemma rearm_body_safe s b1 b2 n1 n2 :
  Inv s -> valid_range b1 b2 RP1_MAX_BUCKETS -> valid_range n1 n2 n ->
  post False nf (rearm_body b1 b2 n1 n2) s preserves.
Proof.
  intros HI Hb Hr. unfold rearm_body. safe_step.
  eapply post_mono; [apply (post_for_range Inv); [done|]; eauto with rp1safe|].
  intros [] s' HI'. apply (post_for_range Inv); [done|]. eauto with rp1safe.
Qed.

#[local] Hint Resolve rearm_body_safe : rp1safe.


(** The table does not grow between the capacity check and [add_inflight]. *)
Lemma add_inflight_later s s' fp node i :
  agree fp s s' -> bool_decide (L_inflight ∈ fp) = false ->
  Inv s' -> 0 <= i < n -> same_packet node (prog i) ->
  Z.of_nat (length (inflight s)) < RP1_MAX_INFLIGHT ->
  post False nf (add_inflight node i) s' preserves.
Proof using Hprog.
  intros Ha Hfp HI Hi Hsp Hc. apply add_inflight_safe; auto; [by eapply node_facts|].
  by rewrite (agree_at _ L_inflight _ _ Ha Hfp : inflight s' = inflight s).
Qed.

Lemma launch_and_mark_safe s node i :
  Inv s -> 0 <= i < n -> same_packet node (prog i) ->
  opcode_of (node_opcode node) = Some KERNEL_DISPATCH ->
  post False nf (launch_and_mark node i) s preserves.
Proof using Hprog.
  intros HI Hi Hsp Hop. destruct (node_facts _ _ _ HI Hi Hsp) as (_ & _ & ?).
  unfold launch_and_mark. safe_go.
Qed.

Lemma activate_kernel_dispatch_safe s node i :
  Inv s -> 0 <= i < n -> same_packet node (prog i) ->
  opcode_of (node_opcode node) = Some KERNEL_DISPATCH ->
  post False nf (activate_kernel_dispatch node i) s preserves.
Proof using Hprog.
  intros HI Hi Hsp Hop. destruct (node_facts _ _ _ HI Hi Hsp) as (_ & _ & ?).
  unfold activate_kernel_dispatch. do 3 safe_step; [safe_go|]. do 3 safe_step; [safe_go|]. bools.
  safe_step. eapply post_mono.
  { eapply post_keeps; [eauto with fp|by apply launch_and_mark_safe]. }
  intros fatal s' [HI' Ha]. destruct fatal; [safe_go|]. safe_step.
  eapply post_mono; [by eapply add_inflight_later|]. cbn beta. intros. safe_go.
Qed.

Context (Hnf : nf).

Lemma pdi_wait_safe fuel : forall s a b, Inv s -> post False nf (pdi_wait fuel a b) s preserves.
Proof using Hnf. induction fuel; intros; cbn [pdi_wait]; [done|]. safe_go. Qed.

#[local] Hint Resolve pdi_wait_safe : rp1safe.

Lemma rp1_pdi_load_safe fuel s a b c : Inv s -> post False nf (rp1_pdi_load fuel a b c) s preserves.
Proof using Hnf. intros. unfold rp1_pdi_load. cbv zeta. safe_go. Qed.

#[local] Hint Resolve rp1_pdi_load_safe : rp1safe.

Lemma activate_pdi_load_safe pf s node i :
  Inv s -> 0 <= i < n -> same_packet node (prog i) ->
  post False nf (activate_pdi_load pf node i) s preserves.
Proof using Hprog Hnf.
  intros HI Hi Hsp. destruct (node_facts _ _ _ HI Hi Hsp) as (_ & _ & ?).
  unfold activate_pdi_load. do 4 safe_step. destruct (pdi_outcome _); safe_go.
Qed.

Lemma activate_loop_safe s node i :
  Inv s -> 0 <= i < n -> same_packet node (prog i) ->
  opcode_of (node_opcode node) = Some LOOP -> post False nf (activate_loop node i) s preserves.
Proof using Hprog.
  intros HI Hi Hsp Hop. destruct (node_facts _ _ _ HI Hi Hsp) as (Hf & _).
  unfold op_facts, valid_slot in Hf. rewrite Hop in Hf. cbn zeta in Hf. destruct_and!.
  unfold activate_loop. safe_go.
Qed.

Lemma activate_cond_safe s node i :
  Inv s -> 0 <= i < n -> same_packet node (prog i) ->
  opcode_of (node_opcode node) = Some COND -> post False nf (activate_cond node i) s preserves.
Proof using Hprog.
  intros HI Hi Hsp Hop. destruct (node_facts _ _ _ HI Hi Hsp) as (Hf & _).
  unfold op_facts, valid_slot in Hf. rewrite Hop in Hf. cbn zeta in Hf. destruct_and!.
  unfold activate_cond. safe_go.
Qed.

Lemma activate_rerun_safe s node i :
  Inv s -> 0 <= i < n -> same_packet node (prog i) ->
  opcode_of (node_opcode node) = Some RERUN -> post False nf (activate_rerun node i) s preserves.
Proof using Hprog.
  intros HI Hi Hsp Hop. destruct (node_facts _ _ _ HI Hi Hsp) as (Hf & _).
  unfold op_facts in Hf. rewrite Hop in Hf. cbn zeta in Hf. destruct_and!.
  unfold activate_rerun. safe_go.
Qed.

Lemma activate_wait_safe s node i :
  Inv s -> 0 <= i < n -> same_packet node (prog i) ->
  opcode_of (node_opcode node) = Some WAIT -> post False nf (activate_wait node i) s preserves.
Proof using Hprog.
  intros HI Hi Hsp Hop. destruct (node_facts _ _ _ HI Hi Hsp) as (Hf & _).
  unfold op_facts, valid_slot in Hf. rewrite Hop in Hf. cbn zeta in Hf.
  unfold activate_wait. do 3 safe_step; [safe_go|]. safe_step.
  destruct (same_packet_fields _ _ Hsp) as [Ho _].
  eapply post_mono; [apply set_node_status_safe; [done|done|right; by rewrite <-Ho]|].
  cbn beta. intros. safe_go.
Qed.

Lemma activate_halt_safe s node i :
  Inv s -> 0 <= i < n -> post False nf (activate_halt node i) s preserves.
Proof. intros. unfold activate_halt. safe_go. Qed.

#[local] Hint Resolve activate_kernel_dispatch_safe activate_pdi_load_safe activate_loop_safe
  activate_cond_safe activate_rerun_safe activate_wait_safe activate_halt_safe : rp1safe.

Lemma activate_op_safe pf s node i :
  Inv s -> 0 <= i < n -> same_packet node (prog i) ->
  post False nf (activate_op pf node i) s preserves.
Proof using Hprog Hnf.
  intros. unfold activate_op. destruct (opcode_of _) as [[]|] eqn:?; safe_go.
Qed.

#[local] Hint Resolve activate_op_safe : rp1safe.

Lemma activate_node_safe pf s i :
  Inv s -> 0 <= i < n -> post False nf (activate_node pf i) s preserves.
Proof using Hprog Hnf.
  intros HI Hi. unfold activate_node. do 3 safe_step; [safe_go|].
  safe_step. eapply post_mono; [by apply get_node_safe|].
  intros node s2 [HI2 Hsp]. destruct (node_facts _ _ _ HI2 Hi Hsp) as (_ & ? & _). safe_go.
Qed.

Lemma scan_from_safe (body : Z -> SM (st HW) ctl) :
  (forall s i, Inv s -> 0 <= i < n -> post False nf (body i) s preserves) ->
  forall k s i mp, Inv s -> 0 <= i -> i + Z.of_nat k <= n ->
  post False nf (scan_from body k i mp) s preserves.
Proof.
  intros Hb k. induction k as [|k IH]; intros s i mp HI Hi Hk; cbn [scan_from]; [safe_go|].
  safe_step. eapply post_mono; [apply Hb; [done|lia]|]. intros [] s' HI'.
  - apply IH; [done|lia|lia].
  - apply IH; [done|lia|lia].
  - safe_go.
Qed.

Lemma activate_nodes_safe pf s : Inv s -> post False nf (activate_nodes pf n) s preserves.
Proof using Hprog Hnf.
  intros HI. destruct (inv_cfg _ _ _ _ HI) as (? & _).
  apply scan_from_safe; auto; [|lia|lia]. apply activate_node_safe.
Qed.

Lemma poll_wait_safe s i : Inv s -> 0 <= i < n -> post False nf (poll_wait i) s preserves.
Proof using Hprog.
  intros HI Hi. unfold poll_wait. safe_step.
  eapply post_mono; [by apply get_status_safe|]. intros v s1 (HI1 & -> & ->).
  safe_step; [safe_go|]. bools.
  safe_step. eapply post_mono; [by apply get_node_safe|]. intros node s2 [HI2 Hsp].
  destruct (node_facts _ _ _ HI2 Hi Hsp) as (Hf & _ & ?).
  destruct (same_packet_fields _ _ Hsp) as [Ho _].
  assert (Hop : opcode_of (node_opcode node) = Some WAIT).
  { rewrite Ho. by apply (inv_waiting _ _ _ _ HI). }
  unfold op_facts, valid_slot in Hf. rewrite Hop in Hf. cbn zeta in Hf. safe_go.
Qed.

Lemma check_waits_safe s : Inv s -> post False nf (check_waits n) s preserves.
Proof using Hprog.
  intros HI. destruct (inv_cfg _ _ _ _ HI) as (? & _).
  apply scan_from_safe; auto; [|lia|lia]. apply poll_wait_safe.
Qed.

Lemma poll_kernel_safe s k : Inv s -> inflight_ok n k -> post False nf (poll_kernel k) s preserves.
Proof using Hprog. intros HI [? ?]. unfold poll_kernel. safe_go. Qed.

Lemma quiesce_kernel_safe s k :
  Inv s -> inflight_ok n k -> post False nf (quiesce_kernel k) s preserves.
Proof using Hprog. intros HI [? ?]. unfold quiesce_kernel. safe_go. Qed.

Lemma inflight_lookup s i k : Inv s -> inflight s !! i = Some k -> inflight_ok n k.
Proof. intros HI Hk. by eapply Forall_lookup_1; [apply (inv_inflight _ _ _ _ HI)|]. Qed.

(** Each iteration advances the index or shrinks the table. *)
Lemma check_inflight_from_safe fuel : forall s i mp,
  Inv s -> (length (inflight s) <= i + fuel)%nat ->
  post False nf (check_inflight_from fuel i mp) s preserves.
Proof using Hprog.
  clear Hnf. induction fuel as [|fuel IH]; intros s i mp HI Hlen; cbn [check_inflight_from];
    do 2 safe_step; destruct (inflight s !! i) as [k|] eqn:Hk; try safe_go.
  - apply lookup_lt_Some in Hk. lia.
  - eapply post_mono.
    { eapply post_keeps; [eauto with fp|]. apply poll_kernel_safe; eauto using inflight_lookup. }
    intros c s1 [HI1 Ha].
    assert (Hl : inflight s1 = inflight s) by exact (agree_at _ L_inflight _ _ Ha eq_refl).
    destruct c; [apply IH; [done|rewrite Hl; lia]| |safe_go].
    safe_step. eapply post_mono; [by apply remove_inflight_len|].
    intros [] s2 [HI2 Hl2]. apply IH; [done|]. rewrite Hl2, Hl. lia.
Qed.

Lemma check_inflight_safe s : Inv s -> post False nf check_inflight s preserves.
Proof using Hprog.
  intros HI. unfold check_inflight. do 2 safe_step. apply check_inflight_from_safe; [done|lia].
Qed.

Lemma quiesce_pass_safe fuel : forall s i,
  Inv s -> (length (inflight s) <= i + fuel)%nat ->
  post False nf (quiesce_pass fuel i) s preserves.
Proof using Hprog.
  clear Hnf. induction fuel as [|fuel IH]; intros s i HI Hlen; cbn [quiesce_pass];
    do 2 safe_step; destruct (inflight s !! i) as [k|] eqn:Hk; try safe_go.
  - apply lookup_lt_Some in Hk. lia.
  - eapply post_mono.
    { eapply post_keeps; [eauto with fp|]. apply quiesce_kernel_safe; eauto using inflight_lookup. }
    intros c s1 [HI1 Ha].
    assert (Hl : inflight s1 = inflight s) by exact (agree_at _ L_inflight _ _ Ha eq_refl).
    destruct c; [|apply IH; [done|rewrite Hl; lia]].
    safe_step. eapply post_mono; [by apply remove_inflight_len|].
    intros [] s2 [HI2 Hl2]. apply IH; [done|]. rewrite Hl2, Hl. lia.
Qed.

Lemma quiesce_inflight_safe fuel : forall s, Inv s -> post False nf (quiesce_inflight fuel) s preserves.
Proof using Hprog Hnf.
  induction fuel as [|fuel IH]; intros s HI; cbn [quiesce_inflight]; do 2 safe_step;
    (destruct (length (inflight s)) as [|m] eqn:Hl; [by apply post_ret|]); [done|].
  safe_step. eapply post_mono; [apply quiesce_pass_safe; [done|lia]|]. cbn beta. intros. safe_go.
Qed.

Lemma any_status_safe k : forall s i v,
  Inv s -> 0 <= i -> i + Z.of_nat k <= n -> post False nf (any_status k i v) s preserves.
Proof.
  induction k as [|k IH]; intros s i v HI Hi Hk; cbn [any_status]; [safe_go|].
  do 2 safe_step. safe_step. eapply post_mono; [apply IH; [done|lia|lia]|].
  cbn beta. intros. safe_go.
Qed.

#[local] Hint Resolve activate_nodes_safe check_inflight_safe check_waits_safe
  quiesce_inflight_safe : rp1safe.

Lemma scan_pass_safe pf qf s : Inv s -> post False nf (scan_pass pf qf n) s preserves.
Proof using Hprog Hnf.
  intros HI. unfold scan_pass.
  repeat (lazymatch goal with |- post _ _ (any_status _ _ _) _ _ => fail | _ => safe_step end);
    try solve [safe_go].
  eapply post_mono.
  all: destruct (inv_cfg _ _ _ _ HI) as (? & _).
  { apply any_status_safe; [eauto with rp1safe|lia|lia]. }
  cbn beta. intros. safe_step. eapply post_mono; [apply any_status_safe; [done|lia|lia]|].
  cbn beta. intros. safe_go.
Qed.

Lemma scan_safe fuel pf qf : forall s, Inv s -> post False nf (scan fuel pf qf n) s preserves.
Proof using Hprog Hnf.
  induction fuel as [|fuel IH]; intros s HI; cbn [scan]; [done|]. safe_step.
  eapply post_mono; [by apply scan_pass_safe|]. intros [r|] s' HI'; [safe_go|by apply IH].
Qed.
End ops.

(** ** Configuration checks *)

(** [size] bytes at the 64-bit address [hi:lo] lie in the shared window at
    the required alignment, over the integers. *)
Definition region_ok (lo hi size alignment : Z) : Prop :=
  hi = 0 /\ covers lo size /\ (alignment | lo).

(** What the configuration of a graph must satisfy. *)
Definition config_valid (c : rp1_ctrl_t) : Prop :=
  0 < c node_count <= RP1_MAX_NODES /\
  region_ok (c node_base_lo) (c node_base_hi) (sizeof_node * c node_count) 64 /\
  (exists k, 0 <= k <= 12 /\ c cq_size = 2 ^ k) /\
  region_ok (c cq_base_lo) (c cq_base_hi) (sizeof_cq_entry * c cq_size) 16 /\
  sub32 (c cq_write_idx) (c cq_read_idx) <= c cq_size /\
  region_ok (c arg_buf_base_lo) (c arg_buf_base_hi) 4 4 /\
  region_ok (c sig_array_base_lo) (c sig_array_base_hi)
    (sizeof_signal_slot * RP1_MAX_SIGNALS) 16 /\
  (c trace_enable <> 0 ->
     (exists k, 0 <= k <= 12 /\ c trace_size = 2 ^ k) /\
     region_ok (c trace_base_lo) (c trace_base_hi) (sizeof_trace_entry * c trace_size) 16).

Lemma valid_window_range_spec lo hi size k :
  is_u32 lo -> is_u32 hi -> 0 <= size <= RP1_CTRL_WINDOW_SIZE -> 0 <= k < 32 ->
  valid_window_range lo hi size (2 ^ k) = true <-> region_ok lo hi size (2 ^ k).
Proof.
  intros Hlo Hhi Hs Hk. unfold valid_window_range, region_ok, covers, window_end.
  assert (0 < 2 ^ k) by (apply Z.pow_pos_nonneg; lia).
  assert (2 ^ k < 2 ^ 32) by (apply Z.pow_lt_mono_r; lia).
  unfold is_u32, sub32, RP1_CTRL_PHYS_ADDR, RP1_CTRL_WINDOW_SIZE in *.
  rewrite (u32_small (2 ^ k - 1)) by (unfold is_u32; lia). rewrite land_pow2_pred by lia.
  rewrite <-Z.mod_divide by lia. rewrite (u32_small (_ - size)) by (unfold is_u32; lia).
  destruct (_ || _) eqn:E1; bools; [split; [done|]; destruct_or?; bools; lia|].
  rewrite u32_small by (unfold is_u32; lia).
  destruct (_ && _) eqn:E2; bools; [split; [done|]; lia|].
  rewrite Z.leb_le. destruct_or?; bools; split; intros; repeat split; lia.
Qed.

(** A power of two up to 4096, as [is_power_of_two] and the limit test it. *)
Lemma ring_size_spec v :
  is_u32 v ->
  negb (is_power_of_two v) || (4096 <? v) = false <-> exists k, 0 <= k <= 12 /\ v = 2 ^ k.
Proof.
  intros Hv. unfold is_u32 in Hv. rewrite orb_false_iff, negb_false_iff, Z.ltb_ge.
  unfold is_power_of_two. destruct (decide (v = 0)) as [->|Hnz].
  { split; [by intros [[=] _]|]. intros (k & ? & Hk).
    pose proof (Z.pow_pos_nonneg 2 k ltac:(lia) ltac:(lia)). lia. }
  unfold sub32. rewrite u32_small by (unfold is_u32; lia). rewrite power_of_two_spec by lia.
  change 4096 with (2 ^ 12). split.
  - intros [(k & Hk & ->) Hle]. exists k. split; [|done].
    split; [done|]. by apply (Z.pow_le_mono_r_iff 2).
  - intros (k & [? ?] & ->). split; [eauto|]. by apply Z.pow_le_mono_r.
Qed.

Lemma ring_size_small v : (exists k, 0 <= k <= 12 /\ v = 2 ^ k) -> 0 < v <= 4096.
Proof.
  intros (k & Hk & ->). split; [apply Z.pow_pos_nonneg; lia|].
  change 4096 with (2 ^ 12). apply Z.pow_le_mono_r; lia.
Qed.

(** The fields of the control block the host programs for a graph, as the
    words they are. *)
Definition config_fields : list ctrl_field :=
  [node_count; cq_size; node_base_lo; node_base_hi; cq_base_lo; cq_base_hi;
   arg_buf_base_lo; arg_buf_base_hi; sig_array_base_lo; sig_array_base_hi;
   trace_enable; trace_base_lo; trace_base_hi; trace_size].
Definition config_words (c : rp1_ctrl_t) : Prop := Forall (fun f => is_u32 (c f)) config_fields.

Lemma config_word c f :
  config_words c -> bool_decide (f ∈ config_fields) = true -> is_u32 (c f).
Proof. intros Hc Hf%bool_decide_eq_true. unfold config_words in Hc. rewrite Forall_forall in Hc. by apply Hc, list_elem_of_In. Qed.

(** A chain of checks passes when each check passes; a later check may rely
    on the earlier ones. *)
Lemma check_cons {A} (b : bool) (x : A) rest :
  (if b then Some x else rest) = None <-> b = false /\ rest = None.
Proof. destruct b; intuition congruence. Qed.

Lemma and_iff_dep (P P' Q Q' : Prop) : (P <-> P') -> (P' -> Q <-> Q') -> P /\ Q <-> P' /\ Q'.
Proof. tauto. Qed.

(** [rp1_store_init] accepts exactly the valid configurations. *)
Lemma check_config_valid c :
  config_words c -> check_config c = None <-> config_valid c.
Proof.
  intros Hw. assert (Hc := fun f => config_word c f Hw).
  unfold check_config, config_valid. cbv zeta. rewrite !check_cons.
  assert (Hvr : forall lo hi size size' k,
    bool_decide (lo ∈ config_fields) = true -> bool_decide (hi ∈ config_fields) = true ->
    size = u32 size' -> 0 <= size' <= RP1_CTRL_WINDOW_SIZE -> 0 <= k < 32 ->
    negb (valid_window_range (c lo) (c hi) size (2 ^ k)) = false <->
    region_ok (c lo) (c hi) size' (2 ^ k)).
  { intros ????? ?? -> Hs ?. rewrite u32_small by (unfold is_u32, RP1_CTRL_WINDOW_SIZE in *; lia).
    rewrite negb_false_iff. apply valid_window_range_spec; auto. }
  apply and_iff_dep; [|intros Hn].
  { pose proof (Hc node_count eq_refl). unfold is_u32, RP1_MAX_NODES in *.
    rewrite orb_false_iff, Z.eqb_neq, Z.ltb_ge. lia. }
  unfold RP1_MAX_NODES in Hn.
  apply and_iff_dep; [apply (Hvr _ _ _ _ 6); [done|done|..];
    unfold sizeof_node, RP1_CTRL_WINDOW_SIZE; [f_equal|..]; lia|intros _].
  apply and_iff_dep; [by apply ring_size_spec, Hc|intros Hcq%ring_size_small].
  apply and_iff_dep; [apply (Hvr _ _ _ _ 4); [done|done|..];
    unfold sizeof_cq_entry, RP1_CTRL_WINDOW_SIZE; [f_equal|..]; lia|intros _].
  apply and_iff_dep; [apply Z.ltb_ge|intros _].
  apply and_iff_dep; [by apply (Hvr _ _ _ _ 2)|intros _].
  apply and_iff_dep; [by apply (Hvr _ _ _ _ 4)|intros _].
  assert (Hdrop : forall P, P /\ @None (Z * Z) = None <-> P) by tauto. rewrite Hdrop.
  destruct (c trace_enable =? 0) eqn:Et; bools; cbn [negb andb]; [tauto|].
  rewrite orb_false_iff, ring_size_spec by (by apply Hc).
  transitivity ((exists k, 0 <= k <= 12 /\ c trace_size = 2 ^ k) /\
    region_ok (c trace_base_lo) (c trace_base_hi) (sizeof_trace_entry * c trace_size) 16); [|tauto].
  apply and_iff_dep; [done|intros Ht%ring_size_small].
  apply (Hvr _ _ _ _ 4); [done|done|..]; unfold sizeof_trace_entry, RP1_CTRL_WINDOW_SIZE;
    [f_equal|..]; lia.
Qed.

Lemma to_ptr_lo lo : is_u32 lo -> to_ptr lo 0 = lo.
Proof. intros. unfold to_ptr, make64. cbn. rewrite Z.lor_0_l. by apply u32_small. Qed.

(** The state [rp1_store_init] builds before it resets the packet statuses. *)
Definition accepted {HW} (s : st HW) : st HW :=
  let c := ctrl s in
  set_inflight [] (set_loop_iters (fun _ => 0) (set_status_array (fun _ => 0)
    (set_barriers (fun _ => 0) (set_ctrl trace_write_idx 0
      (set_glob g_trace_enable (c trace_enable) (set_glob g_trace_size (c trace_size)
      (set_glob g_trace (to_ptr (c trace_base_lo) (c trace_base_hi))
      (set_glob g_arg_buf (to_ptr (c arg_buf_base_lo) (c arg_buf_base_hi))
      (set_glob g_signals (to_ptr (c sig_array_base_lo) (c sig_array_base_hi))
      (set_glob g_cq (to_ptr (c cq_base_lo) (c cq_base_hi))
      (set_glob g_nodes (to_ptr (c node_base_lo) (c node_base_hi)) s))))))))))).

Section init.
Context {HW : Type} `{!Hal HW} {nf : Prop}.
Implicit Types s : st HW.

Lemma accepted_inv s :
  config_words (ctrl s) -> config_valid (ctrl s) ->
  Inv (ctrl s node_count) (ctrl s arg_buf_base_lo) (nodes s) (accepted s).
Proof.
  intros Hw (Hn & (Hn1 & Hn2 & _) & (k & Hk & Hcq) & (Hq1 & Hq2 & _) & _ & (Ha1 & Ha2 & _) &
             (Hs1 & Hs2 & _) & Ht).
  assert (Hc := fun f => config_word _ f Hw).
  split; [|done| |done|done]; [|by vm_compute]. unfold accepted, cfg_ok. cbv zeta.
  cbn [set_inflight set_loop_iters set_status_array set_barriers set_ctrl set_glob ctrl glob].
  rewrite !fn_lookup_insert_ne by done. rewrite ?fn_lookup_insert.
  repeat (rewrite fn_lookup_insert_ne by done). rewrite ?fn_lookup_insert.
  rewrite Hn1, Hq1, Ha1, Hs1, !to_ptr_lo by (by apply Hc).
  split; [done|]. split; [done|]. split; [exists k; split; [lia|done]|]. do 5 (split; [done|]).
  intros (( k' & Hk' & Hts) & Ht1 & Ht2 & _)%Ht.
  rewrite Hts in *. rewrite Ht1, to_ptr_lo by (by apply Hc). split; [|done].
  apply Z.pow_pos_nonneg; lia.
Qed.

(** Acceptance: the state is untouched when the configuration is refused,
    and satisfies the invariant when it is accepted. *)
Lemma rp1_store_init_inv s :
  config_words (ctrl s) ->
  post False nf rp1_store_init s (fun r s' =>
    match r with
    | Some _ => s' = s
    | None => config_valid (ctrl s) /\
        Inv (ctrl s node_count) (ctrl s arg_buf_base_lo) (nodes s) s' /\
        agree [L_packets] (accepted s) s'
    end).
Proof.
  intros Hc. unfold rp1_store_init. do 2 post_step.
  destruct (check_config (ctrl s)) as [e|] eqn:E; [by apply post_ret|].
  apply check_config_valid in E; [|done]. unfold put_glob, put_ctrl, rp1_store_reset_graph.
  repeat (apply post_bind || apply post_modify); cbn beta.
  set (s1 := accepted s).
  eapply post_mono; [apply (post_for_up (fun _ s' =>
    Inv (ctrl s node_count) (ctrl s arg_buf_base_lo) (nodes s) s' /\ agree [L_packets] s1 s'))|].
  - split; [by apply accepted_inv|done].
  - intros i s' Hi [HI Ha]. eapply post_mono.
    { eapply post_keeps; [apply fp_put_packet_status|apply put_packet_status_safe; [done|]].
      rewrite Z2Nat.id in Hi by (destruct E; lia). lia. }
    intros [] s2 [HI2 Ha2]. split; [done|]. by etrans.
  - intros [] s' [HI Ha]. by apply post_ret.
Qed.
End init.

(** ** The dispatch loop *)

Section main.
Context {HW : Type} `{!Hal HW} `{!Platform} (n base : Z) (prog : Z -> rp1_node_t).
Context (Hprog : forall i, 0 <= i < n -> bytes_ok (prog i) /\ dma_clear (prog i)).
Implicit Types s : st HW.

(** Validation rejects with the index of a packet, or finds every packet
    acceptable. *)
Lemma validate_from_spec nf k : forall s i,
  Inv n base prog s -> 0 <= i -> i + Z.of_nat k <= n ->
  post False nf (validate_from k i n (sub32 window_end base)) s (fun r s' => s' = s /\
    match r with
    | Some (bad, _, _) => i <= bad < n
    | None => forall j, i <= j < i + Z.of_nat k -> pkt_ok n base (prog j)
    end).
Proof using Hprog.
  induction k as [|k IH]; intros s i HI Hi Hk; cbn [validate_from].
  { apply post_ret. split; [done|]. intros; lia. }
  apply post_bind. unfold post at 1. rewrite (get_node_run n base prog) by (done || lia).
  pose proof (inv_prog _ _ _ _ HI i ltac:(lia)) as Hsp.
  destruct (validate_node n _ (nodes s i)) as [[d a]|] eqn:Hv.
  { apply post_ret. split; [done|lia]. }
  assert (pkt_ok n base (prog i)).
  { rewrite <-Hsp. destruct (Hprog i ltac:(lia)) as [Hb Hd].
    destruct (same_packet_fields _ _ Hsp) as (Ho & _ & Hp & _ & _ & Hab & Hsb).
    unfold pkt_ok, bytes_ok, dma_clear in *. by rewrite Ho, Hp, Hab, Hsb. }
  eapply post_mono; [apply IH; [done|lia|lia]|]. intros r s' [-> Hr]. split; [done|].
  destruct r as [[[bad ?] ?]|]; [lia|]. intros j Hj.
  destruct (decide (j = i)) as [->|]; [done|]. apply Hr. lia.
Qed.

Lemma publish_rejection_safe fuel : forall s b d,
  Inv n base prog s -> safe (publish_rejection fuel b d) s (fun _ s' => Inv n base prog s').
Proof. induction fuel; intros; cbn [publish_rejection]; [done|]. safe_go. Qed.

Lemma rp1_loop_inv fuel pf qf s :
  Inv n base prog s -> ctrl s node_count = n ->
  safe (rp1_loop fuel pf qf) s (fun _ s' => Inv n base prog s').
Proof using Hprog.
  intros HI Hn. pose proof (inv_cfg _ _ _ _ HI) as (Hn2 & _ & _ & _ & _ & Hbase & _).
  unfold rp1_loop, validate_nodes, get_ctrl. do 2 safe_step. rewrite Hn.
  do 3 safe_step. rewrite Hbase. eapply post_mono; [apply validate_from_spec; [done|lia|lia]|].
  intros [[[bad d] a]|] s' [-> Hr].
  - safe_step. eapply post_mono; [by apply rp1_latch_error_safe|]. intros [] s1 HI1.
    safe_step. eapply post_mono; [by apply mark_status_safe|]. intros [] s2 HI2.
    safe_step. eapply post_mono; [by apply publish_rejection_safe|]. cbn beta. intros. safe_go.
  - apply scan_safe; [|done|done]. intros i Hi. apply Hr. lia.
Qed.
End main.

(** The invariant holds where [rp1_loop] starts. *)
Lemma booted_inv f graph words :
  config_words (ctrl (staged f graph words)) -> check_config (ctrl (staged f graph words)) = None ->
  Inv (Z.of_nat (length graph)) (RP1_CTRL_PHYS_ADDR + RP1_DEFAULT_ARG_BUF_OFFSET)
    (nodes (staged f graph words)) (booted f graph words).
Proof.
  intros W C. pose proof (rp1_store_init_inv (nf := False) _ W) as P. unfold post in P.
  unfold booted. destruct (rp1_store_init (staged f graph words)) as [r s'| |] eqn:E; [|done|done].
  destruct r as [e|]; [|apply P].
  unfold rp1_store_init, mbind, SM_bind, gets in E. rewrite C in E.
  exfalso. revert E. generalize (Z.to_nat (ctrl (staged f graph words) node_count)).
  intros k. cbn. destruct (for_up _ _ _ _); discriminate.
Qed.
