(* ===== verification/Rp1Latch.v ===== *)
(** * The error latch of the RP1 firmware

    First error wins: once a graph has latched a base error, nothing the scan
    or the quiescence does replaces its code, node, detail or aux; only the
    recovery bit can still be added.  And no graph fails silently: a scan that
    returns -1 has latched an error. *)

From S2P Require Import Prelude Rp1Protocol Rp1Store Rp1Loop Rp1Frame Rp1Fixture.

(** A base error is recorded. *)
Definition latched {HW} (s : st HW) : Prop :=
  Z.land (ctrl s rp1_error_code) RP1_ERR_CODE_MASK <> 0.

(** The host must reset the board. *)
Definition recovery_required {HW} (s : st HW) : Prop :=
  Z.testbit (ctrl s rp1_error_code) 31 = true.

(** The diagnosis [s] holds, if any, survives in [s']. *)
Definition latch_le {HW} (s s' : st HW) : Prop :=
  (latched s ->
     Z.land (ctrl s' rp1_error_code) RP1_ERR_CODE_MASK =
       Z.land (ctrl s rp1_error_code) RP1_ERR_CODE_MASK /\
     ctrl s' terminal_error_node = ctrl s terminal_error_node /\
     ctrl s' terminal_error_detail = ctrl s terminal_error_detail /\
     ctrl s' terminal_error_aux = ctrl s terminal_error_aux) /\
  (recovery_required s -> recovery_required s').

Section latch.
Context {HW : Type} `{!Hal HW}.
Implicit Types s : st HW.

#[export] Instance latch_le_preorder : PreOrder (latch_le (HW := HW)).
Proof.
  split; [done|]. intros s1 s2 s3 [H1 R1] [H2 R2]. split; [|by auto].
  intros Hl. destruct (H1 Hl) as (E1 & E2 & E3 & E4).
  assert (Hl2 : latched s2) by (unfold latched; by rewrite E1).
  destruct (H2 Hl2) as (F1 & F2 & F3 & F4). by rewrite F1, F2, F3, F4.
Qed.

Lemma latch_le_latched s s' : latch_le s s' -> latched s -> latched s'.
Proof. intros [H _] Hl. destruct (H Hl) as [E _]. unfold latched. by rewrite E. Qed.

(** Operations that do not write the latch keep it. *)
Definition avoids_latch (fp : list loc) : bool :=
  forallb (fun l => bool_decide (l ∉ fp)) fp_latch.

Lemma agree_latch fp s s' : avoids_latch fp = true -> agree fp s s' -> latch_le s s'.
Proof.
  unfold avoids_latch, fp_latch. cbn [forallb]. intros Ha H. bools.
  repeat match goal with H : bool_decide _ = true |- _ => apply bool_decide_eq_true in H end.
  unfold latch_le, latched, recovery_required.
  rewrite (H (L_ctrl rp1_error_code)), (H (L_ctrl terminal_error_node)),
    (H (L_ctrl terminal_error_detail)), (H (L_ctrl terminal_error_aux)) by done. done.
Qed.

Lemma keeps_latch_fp {A} fp (m : SM (st HW) A) :
  writes fp m -> avoids_latch fp = true -> keeps latch_le m.
Proof. intros Hm Hfp. eapply keeps_mono; [done|]. intros s s'. by apply agree_latch. Qed.

(** ** The two operations on the latch *)

Lemma latch_error_run code node detail aux s s' a :
  rp1_latch_error code node detail aux s = Ret a s' ->
  (latched s /\ s' = s) \/
  (~ latched s /\ ctrl s' rp1_error_code =
     Z.lor (Z.land (ctrl s rp1_error_code) RP1_ERR_RECOVERY_REQUIRED) code /\
   ctrl s' terminal_error_node = node /\ ctrl s' terminal_error_detail = detail /\
   ctrl s' terminal_error_aux = aux).
Proof.
  unfold rp1_latch_error, get_ctrl, put_ctrl, gets, modify, mbind, SM_bind, latched.
  destruct (_ =? 0) eqn:E; cbn [negb]; intros [= <- <-]; bools; [right|left; done].
  split; [lia|]. unfold set_ctrl. cbn [ctrl].
  repeat (rewrite fn_lookup_insert || rewrite fn_lookup_insert_ne by done). done.
Qed.

Lemma keeps_latch_error code node detail aux :
  keeps latch_le (rp1_latch_error code node detail aux : SM (st HW) unit).
Proof.
  intros s. destruct (rp1_latch_error _ _ _ _ s) as [[] s'| |] eqn:E; auto.
  apply latch_error_run in E as [[_ ->]|(Hn & Hc & _)]; [done|].
  split; [done|]. unfold recovery_required. intros Hr. rewrite Hc.
  by rewrite Z.lor_spec, Z.land_spec, Hr.
Qed.

(** A code of the protocol's error enumeration. *)
Definition base_code (code : Z) : Prop := Z.land code RP1_ERR_CODE_MASK <> 0.

Lemma wlp_latch_error code node detail aux s :
  base_code code ->
  wlp (rp1_latch_error code node detail aux) s (fun _ s' => latched s').
Proof.
  intros Hc. unfold post. destruct (rp1_latch_error _ _ _ _ s) as [[] s'| |] eqn:E; auto.
  apply latch_error_run in E as [[? ->]|(_ & E & _)]; [done|].
  unfold latched, base_code in *. rewrite E. intros H. apply Hc. rewrite Z.land_lor_distr_l in H.
  by apply Z.lor_eq_0_iff in H as [_ ?].
Qed.

Lemma keeps_mark_recovery : keeps latch_le (rp1_mark_recovery_required : SM (st HW) unit).
Proof.
  intros s. unfold rp1_mark_recovery_required, get_ctrl, put_ctrl, gets, modify, mbind, SM_bind.
  unfold latch_le, latched, recovery_required, set_ctrl. cbn [ctrl].
  repeat (rewrite fn_lookup_insert || rewrite fn_lookup_insert_ne by done). split.
  - intros _. rewrite Z.land_lor_distr_l.
    change (Z.land RP1_ERR_RECOVERY_REQUIRED RP1_ERR_CODE_MASK) with 0. by rewrite Z.lor_0_r.
  - intros Hr. by rewrite Z.lor_spec, Hr.
Qed.
End latch.

(** ** The whole scan keeps the latch *)

Section keep_latch.
Context {HW : Type} `{!Hal HW}.

#[export] Instance latch_scan_rel : ScanRel (latch_le (HW := HW)).
Proof.
  assert (Hfp : forall A fp (m : SM (st HW) A), writes fp m -> avoids_latch fp = true ->
    keeps latch_le m) by (intros; by eapply keeps_latch_fp).
  split.
  - apply _.
  - intros s s'. by apply agree_latch.
  - by apply (Hfp _ _ _ fp_host_writes).
  - apply keeps_latch_error.
  - apply keeps_mark_recovery.
  - intros f. unfold cq_can_write. repeat first
      [ keeps_step | apply keeps_latch_error
      | eapply Hfp; [solve [eauto with fp nocore]|reflexivity] ].
  - intros f i c d. unfold write_cq_entry, cq_can_write. repeat first
      [ keeps_step | apply keeps_latch_error
      | eapply Hfp; [solve [eauto using fp_put_cq with fp nocore]|reflexivity] ].
Qed.
End keep_latch.

(** ** No silent failure: a negative result comes with a latched error *)

Lemma wlp_keeps {S A} R (m : SM S A) s : keeps R m -> wlp m s (fun _ s' => R s s').
Proof. intros H. unfold post. specialize (H s). by destruct (m s). Qed.

(** Steps through an operation collecting what each call says about the latch. *)
Ltac cause_step :=
  lazymatch goal with
  | |- post _ _ (_ ≫= _) _ _ => apply post_bind
  | |- post _ _ (mret _) _ _ => apply post_ret
  | |- post _ _ (when _ _) _ _ => apply post_when; intros ?
  | |- post _ _ (match ?x with _ => _ end) _ _ => destruct x eqn:?
  | |- post _ _ no_fuel _ _ => exact I
  | |- post _ _ _ _ _ =>
      first
        [ eapply post_mono;
          [eapply (post_keeps latch_le); [|solve [eauto with latch_cause nocore]]; solve [rel_go]
          |cbn beta; intros ?? [? ?]]
        | eapply post_mono; [apply (wlp_keeps latch_le); solve [rel_go]|cbn beta; intros]
        | eapply post_mono;
          [ apply (wlp_keeps latch_le); eapply keeps_latch_fp;
            [solve [eauto with fp nocore]|reflexivity]
          | cbn beta; intros ] ]
  end; cbn beta.

Ltac cause_done :=
  intros; repeat case_match; bools; simplify_eq; try lia;
  eauto 10 using latch_le_latched.

Create HintDb latch_cause.

Section cause.
Context {HW : Type} `{!Hal HW} `{!Platform}.
Implicit Types s : st HW.

Lemma cause_latch_error c node detail aux s :
  base_code c -> wlp (rp1_latch_error c node detail aux) s (fun _ s' => latched s').
Proof. apply wlp_latch_error. Qed.
#[local] Hint Extern 1 (base_code _) => (vm_compute; discriminate) : latch_cause.
Hint Resolve cause_latch_error : latch_cause.

Lemma cause_cq_can_write f s : wlp (cq_can_write f) s (fun r s' => r < 0 -> latched s').
Proof. unfold cq_can_write. repeat cause_step; cause_done. Qed.
Hint Resolve cause_cq_can_write : latch_cause.

Lemma cause_write_cq_entry f i c d s :
  wlp (write_cq_entry f i c d) s (fun r s' => r < 0 -> latched s').
Proof. unfold write_cq_entry. repeat cause_step; cause_done. Qed.
Hint Resolve cause_write_cq_entry : latch_cause.

(** The body of a node loop that stops with -1 has latched an error. *)
Abbreviation stop_cause := (fun c s' => c = Stop (-1) -> latched s').

Lemma cause_complete_node nd i s : wlp (complete_node nd i) s stop_cause.
Proof. unfold complete_node. repeat cause_step; cause_done. Qed.
Hint Resolve cause_complete_node : latch_cause.

Lemma cause_launch_and_mark nd i s :
  wlp (launch_and_mark nd i) s (fun fatal s' => fatal = true -> latched s').
Proof. unfold launch_and_mark. repeat cause_step; cause_done. Qed.
Hint Resolve cause_launch_and_mark : latch_cause.

Lemma cause_activate_op pf nd i s : wlp (activate_op pf nd i) s stop_cause.
Proof.
  unfold activate_op. destruct (opcode_of _) as [[]|];
    unfold activate_kernel_dispatch, activate_pdi_load, activate_loop, activate_cond,
      activate_rerun, activate_wait, activate_halt; repeat cause_step; cause_done.
Qed.
Hint Resolve cause_activate_op : latch_cause.

Lemma cause_activate_node pf i s : wlp (activate_node pf i) s stop_cause.
Proof. unfold activate_node. repeat cause_step; cause_done. Qed.

Lemma cause_poll_kernel k s : wlp (poll_kernel k) s stop_cause.
Proof. unfold poll_kernel. repeat cause_step; cause_done. Qed.

Lemma cause_poll_wait i s :
  wlp (poll_wait i) s (fun c s' => forall r, c = Stop r -> r < 0 -> latched s').
Proof. unfold poll_wait. repeat cause_step; cause_done. Qed.

Lemma cause_scan_from (fatal : Z -> Prop) (body : Z -> SM (st HW) ctl) k :
  (forall i s, wlp (body i) s (fun c s' => forall r, c = Stop r -> fatal r -> latched s')) ->
  ~ fatal 1 ->
  forall i mp s, ~ fatal mp -> wlp (scan_from body k i mp) s (fun r s' => fatal r -> latched s').
Proof.
  intros Hb H1. induction k as [|k IH]; intros i mp s Hmp; cbn [scan_from]; [by apply post_ret|].
  apply post_bind. eapply post_mono; [apply Hb|]. intros [| |r] s' Hc; auto.
  apply post_ret. eauto.
Qed.

Lemma cause_check_inflight_from fuel : forall i mp s, mp <> -1 ->
  wlp (check_inflight_from fuel i mp) s (fun r s' => r = -1 -> latched s').
Proof.
  induction fuel as [|fuel IH]; intros i mp s Hmp; cbn [check_inflight_from];
    apply post_bind, post_gets; (destruct (_ !! i) as [k|]; [|by apply post_ret]); [done|].
  apply post_bind. eapply post_mono; [apply cause_poll_kernel|]. intros [| |r] s' Hc.
  - by apply IH.
  - apply post_bind, post_modify. by apply IH.
  - apply post_ret. intros ->. auto.
Qed.

Lemma cause_activate_nodes pf c s :
  wlp (activate_nodes pf c) s (fun r s' => r = -1 -> latched s').
Proof.
  apply (cause_scan_from (fun r => r = -1)); [|lia|lia]. intros i s0.
  eapply post_mono; [apply cause_activate_node|]. intros ? ? Hc r -> ->. auto.
Qed.
Lemma cause_check_waits c s : wlp (check_waits c) s (fun r s' => r < 0 -> latched s').
Proof. apply (cause_scan_from (fun r => r < 0)); [apply cause_poll_wait|lia|lia]. Qed.
Lemma cause_check_inflight s : wlp check_inflight s (fun r s' => r = -1 -> latched s').
Proof. apply post_bind, post_gets, cause_check_inflight_from. lia. Qed.
Hint Resolve cause_activate_nodes cause_check_waits cause_check_inflight : latch_cause.

Lemma cause_scan_pass pf qf c s :
  wlp (scan_pass pf qf c) s (fun r s' => r = Some (-1) -> latched s').
Proof. unfold scan_pass. repeat cause_step; cause_done. Qed.

Lemma cause_scan fuel pf qf c : forall s,
  wlp (scan fuel pf qf c) s (fun r s' => r = -1 -> latched s').
Proof.
  induction fuel as [|fuel IH]; intros s; cbn [scan]; [done|].
  apply post_bind. eapply post_mono; [apply cause_scan_pass|]. intros [r|] s' Hc.
  - apply post_ret. intros ->. auto.
  - apply IH.
Qed.
Hint Resolve cause_scan : latch_cause.

Lemma cause_rp1_loop fuel pf qf s :
  wlp (rp1_loop fuel pf qf) s (fun r s' => r = -1 -> latched s').
Proof. unfold rp1_loop. repeat cause_step; cause_done. Qed.
End cause.
