(* ===== verification/Rp1Queue.v ===== *)
(** * The completion queue as a bounded FIFO

    The CQ is a power-of-two ring with two monotonic 32-bit cursors, the
    firmware's [cq_write_idx] and the host's [cq_read_idx].  Against a host
    that only drains what was published, the ring refines a FIFO: publication
    appends one entry, the host removes a prefix, nothing unread is ever
    overwritten, and a slot reserved by [cq_can_write] is still there when
    [write_cq_entry] uses it. *)

From S2P Require Import Prelude Rp1Protocol Rp1Store Rp1Loop Rp1Frame Rp1Fixture.

(** What the firmware relies on: the host's consumer cursor never passes the
    producer cursor and never moves back. *)
Class CqHost (HW : Type) `{!Hal HW} : Prop :=
  cq_host_drains : forall h c sigs h' rd sigs',
    hal_host h c sigs = (h', rd, sigs') ->
    sub32 (c cq_write_idx) (u32 rd) <= sub32 (c cq_write_idx) (c cq_read_idx).

#[export] Instance fabric_cq_host : CqHost fabric.
Proof.
  intros h c sigs h' rd sigs' [= <- <- <-].
  assert (Hu : forall a b, sub32 a (u32 b) = sub32 a b).
  { intros. unfold sub32, u32. by rewrite Zminus_mod_idemp_r. }
  rewrite Hu. destruct (fab_drains h); [|lia].
  rewrite sub32_diag. apply sub32_range.
Qed.

(** Entries published and not yet consumed. *)
Definition cq_used {HW} (s : st HW) : Z := sub32 (ctrl s cq_write_idx) (ctrl s cq_read_idx).

(** The ring slot of cursor value [c]. *)
Definition cq_slot {HW} (s : st HW) (c : Z) : Z := Z.land c (sub32 (ctrl s cq_size) 1).

(** The unread entries, oldest first. *)
Definition cq_contents {HW} (s : st HW) : list rp1_cq_entry_t :=
  map (fun j => cq s (cq_slot s (add32 (ctrl s cq_read_idx) (Z.of_nat j))))
    (seq 0 (Z.to_nat (cq_used s))).

(** The ring invariant, as [rp1_store_init] checks it. *)
Definition cq_ok {HW} (s : st HW) : Prop :=
  (exists k, 0 <= k <= 12 /\ ctrl s cq_size = 2 ^ k) /\ cq_used s <= ctrl s cq_size /\
  is_u32 (ctrl s cq_read_idx) /\ is_u32 (ctrl s cq_write_idx).

(** [s'] has the queue of [s] with a prefix consumed. *)
Definition drained {HW} (s s' : st HW) : Prop :=
  ctrl s' cq_size = ctrl s cq_size /\ ctrl s' cq_write_idx = ctrl s cq_write_idx /\
  cq_ok s' /\ cq_used s' <= cq_used s /\
  exists k, cq_contents s' = drop k (cq_contents s).

(** ** Ring arithmetic *)

(** With a power-of-two size that divides the cursor range, the slot of a
    cursor does not notice the cursor's wrap. *)
Lemma cq_slot_mod {HW} (s : st HW) c :
  cq_ok s -> cq_slot s (u32 c) = c mod ctrl s cq_size.
Proof.
  intros ((k & Hk & Hs) & _). unfold cq_slot. rewrite Hs.
  assert (0 < 2 ^ k) by (apply Z.pow_pos_nonneg; lia).
  assert (2 ^ k <= 2 ^ 12) by (apply Z.pow_le_mono_r; lia).
  unfold sub32. rewrite (u32_small (2 ^ k - 1)) by (unfold is_u32; lia).
  rewrite land_pow2_pred by lia. unfold u32.
  replace (2 ^ 32) with (2 ^ k * 2 ^ (32 - k)) by (rewrite <-Z.pow_add_r by lia; f_equal; lia).
  rewrite Z.rem_mul_r by (apply Z.pow_nonzero || apply Z.pow_pos_nonneg; lia).
  rewrite Z.mul_comm, Z_mod_plus_full. apply Zmod_mod.
Qed.

(** Cursor offsets smaller than the size use distinct slots. *)
Lemma mod_shift_inj size r i j :
  0 < size -> 0 <= i < size -> 0 <= j < size ->
  (r + i) mod size = (r + j) mod size -> i = j.
Proof.
  intros Hs Hi Hj E. assert (H : (i - j) mod size = 0).
  { replace (i - j) with ((r + i) - (r + j)) by lia. rewrite Zminus_mod, E, Z.sub_diag.
    apply Z.mod_0_l. lia. }
  apply Z.mod_divide in H; [|lia]. destruct H as [q Hq].
  assert (q = 0) by nia. lia.
Qed.

Lemma cq_used_range {HW} (s : st HW) : is_u32 (cq_used s).
Proof. apply sub32_range. Qed.

(** The write cursor is the read cursor plus the number of unread entries. *)
Lemma cq_write_cursor {HW} (s : st HW) :
  cq_ok s -> ctrl s cq_write_idx = add32 (ctrl s cq_read_idx) (cq_used s).
Proof.
  intros (_ & _ & Hr & Hw). unfold add32, cq_used, sub32, u32.
  rewrite Zplus_mod_idemp_r.
  replace (ctrl s cq_read_idx + (ctrl s cq_write_idx - ctrl s cq_read_idx))
    with (ctrl s cq_write_idx) by lia.
  symmetry. by apply Z.mod_small.
Qed.

(** ** The host consumes a prefix *)

Lemma drop_map_seq {A} (f : nat -> A) d n :
  drop d (map f (seq 0 (d + n))) = map (fun j => f (d + j)%nat) (seq 0 n).
Proof.
  apply list_eq. intros i. rewrite lookup_drop.
  change (@map nat) with (@fmap list _ nat). rewrite !list_lookup_fmap.
  destruct (decide (i < n)%nat).
  - rewrite !lookup_seq_lt by lia. done.
  - rewrite !lookup_seq_ge by lia. done.
Qed.

Lemma cursor_shift w r r' j :
  add32 r' j = add32 r (sub32 w r - sub32 w r' + j).
Proof.
  unfold add32, sub32, u32. rewrite !Z.mod_eq with (b := 2 ^ 32) (a := w - _) by lia.
  match goal with |- _ = ?x mod _ => replace x with
    (r' + j + ((w - r') / 2 ^ 32 - (w - r) / 2 ^ 32) * 2 ^ 32) by lia end.
  by rewrite Z_mod_plus_full.
Qed.

Lemma contents_advance {HW} (s s' : st HW) :
  cq_ok s -> cq_ok s' -> cq s' = cq s -> ctrl s' cq_size = ctrl s cq_size ->
  ctrl s' cq_write_idx = ctrl s cq_write_idx -> cq_used s' <= cq_used s ->
  cq_contents s' = drop (Z.to_nat (cq_used s - cq_used s')) (cq_contents s).
Proof.
  intros Hok Hok' Hcq Hsz Hw Hu. pose proof (cq_used_range s). pose proof (cq_used_range s').
  unfold is_u32 in *. set (d := Z.to_nat (cq_used s - cq_used s')). unfold cq_contents.
  replace (Z.to_nat (cq_used s)) with (d + Z.to_nat (cq_used s'))%nat by lia.
  rewrite drop_map_seq, Hcq. apply map_ext. intros j. f_equal.
  unfold cq_slot. rewrite Hsz. f_equal.
  rewrite (cursor_shift (ctrl s cq_write_idx) (ctrl s cq_read_idx)). f_equal.
  subst d. unfold cq_used in *. rewrite Hw in *. lia.
Qed.

(** ** FIFO evolution

    From [s] to [s'] the firmware published [es], in order, and the host
    consumed the first [k] of the unread entries; everything else is still
    unread, in order. *)
Definition fifo {HW} (s s' : st HW) : Prop :=
  cq_ok s ->
  cq_ok s' /\ ctrl s' cq_size = ctrl s cq_size /\
  exists es k, (k <= length (cq_contents s ++ es))%nat /\
    cq_contents s' = drop k (cq_contents s ++ es) /\
    ctrl s' cq_write_idx = add32 (ctrl s cq_write_idx) (Z.of_nat (length es)).

Lemma add32_assoc a b c : add32 (add32 a b) c = add32 a (b + c).
Proof. unfold add32, u32. rewrite Zplus_mod_idemp_l. f_equal. lia. Qed.

Lemma add32_0 a : is_u32 a -> add32 a 0 = a.
Proof. intros. unfold add32. rewrite Z.add_0_r. by apply u32_small. Qed.

#[export] Instance fifo_preorder {HW} : PreOrder (fifo (HW := HW)).
Proof.
  split.
  - intros s Hok. split; [done|]. split; [done|]. exists [], 0%nat.
    rewrite app_nil_r, drop_0. split; [lia|]. split; [done|]. symmetry. apply add32_0, Hok.
  - intros s1 s2 s3 H12 H23 H1. destruct (H12 H1) as (H2 & Hs2 & es1 & k1 & Hk1 & Hc2 & Hw2).
    destruct (H23 H2) as (H3 & Hs3 & es2 & k2 & Hk2 & Hc3 & Hw3).
    split; [done|]. split; [congruence|]. exists (es1 ++ es2), (k1 + k2)%nat.
    rewrite Hc2 in Hk2, Hc3. rewrite length_app, length_drop in Hk2. rewrite app_assoc.
    split; [rewrite length_app; lia|]. split.
    + rewrite Hc3, <-drop_app_le by done. rewrite drop_drop. done.
    + rewrite Hw3, Hw2, add32_assoc, length_app. f_equal. lia.
Qed.

(** The locations the queue lives in. *)
Definition fp_ring : list loc :=
  [L_cq; L_ctrl cq_write_idx; L_ctrl cq_read_idx; L_ctrl cq_size].

Definition avoids_ring (fp : list loc) : bool :=
  forallb (fun l => bool_decide (l ∉ fp)) fp_ring.

Lemma agree_ring {HW} fp (s s' : st HW) :
  avoids_ring fp = true -> agree fp s s' ->
  cq s' = cq s /\ ctrl s' cq_write_idx = ctrl s cq_write_idx /\
  ctrl s' cq_read_idx = ctrl s cq_read_idx /\ ctrl s' cq_size = ctrl s cq_size.
Proof.
  unfold avoids_ring, fp_ring. cbn [forallb]. intros Ha H. bools.
  repeat match goal with H : bool_decide _ = true |- _ => apply bool_decide_eq_true in H end.
  repeat split; [apply (H L_cq)|apply (H (L_ctrl _))..]; done.
Qed.

(** States with the same ring. *)
Lemma ring_eq {HW} (s s' : st HW) :
  cq s' = cq s /\ ctrl s' cq_write_idx = ctrl s cq_write_idx /\
  ctrl s' cq_read_idx = ctrl s cq_read_idx /\ ctrl s' cq_size = ctrl s cq_size ->
  cq_used s' = cq_used s /\ cq_contents s' = cq_contents s /\ (cq_ok s -> cq_ok s').
Proof.
  intros (Hc & Hw & Hr & Hs). unfold cq_ok, cq_contents, cq_used, cq_slot.
  by rewrite Hc, Hw, Hr, Hs.
Qed.

Lemma fifo_fp {HW A} fp (m : SM (st HW) A) :
  writes fp m -> avoids_ring fp = true -> keeps fifo m.
Proof.
  intros Hm Hfp. eapply keeps_mono; [done|]. intros s s' Ha Hok.
  pose proof (agree_ring _ _ _ Hfp Ha) as Hr. destruct (ring_eq _ _ Hr) as (_ & Hc & Hok').
  destruct Hr as (_ & Hw & _ & Hs).
  split; [auto|]. split; [done|]. exists [], 0%nat. rewrite app_nil_r, drop_0, add32_0 by apply Hok.
  split; [lia|]. done.
Qed.

Section ring.
Context {HW : Type} `{!Hal HW} `{!CqHost HW} `{!Platform}.
Implicit Types s : st HW.

(** The host's move: a prefix is consumed, nothing else changes in the ring. *)
Lemma host_writes_run s a s' :
  cq_ok s -> host_writes s = Ret a s' ->
  cq_ok s' /\ cq s' = cq s /\ ctrl s' cq_size = ctrl s cq_size /\
  ctrl s' cq_write_idx = ctrl s cq_write_idx /\ cq_used s' <= cq_used s.
Proof using CqHost0.
  intros (Hk & Hu & Hr & Hw) E. unfold host_writes in E.
  destruct (hal_host _ _ _) as [[h' rd] sigs] eqn:Eh. injection E as <- <-.
  apply cq_host_drains in Eh. unfold cq_ok, cq_used in *. unfold set_hw, set_ctrl, set_signals.
  cbn [ctrl cq]. repeat (rewrite fn_lookup_insert || rewrite fn_lookup_insert_ne by done).
  pose proof (u32_range rd). split; [|split; [done|split; [done|split; [done|lia]]]].
  split; [done|]. split; [lia|]. done.
Qed.

Lemma fifo_host_writes : keeps fifo host_writes.
Proof using CqHost0.
  intros s. destruct (host_writes s) as [a s'| |] eqn:E; auto. intros Hok.
  destruct (host_writes_run _ _ _ Hok E) as (Hok' & Hc & Hs & Hw & Hu).
  split; [done|]. split; [done|].
  exists [], (Z.to_nat (cq_used s - cq_used s')). rewrite app_nil_r.
  split; [|split; [by apply contents_advance|by rewrite Hw, add32_0 by apply Hok]].
  unfold cq_contents. rewrite length_map, length_seq. pose proof (cq_used_range s').
  unfold is_u32 in *. lia.
Qed.

(** Publishing one entry at the write cursor of a ring that is not full. *)
Definition publish (e : rp1_cq_entry_t) s : st HW :=
  set_ctrl cq_write_idx (add32 (ctrl s cq_write_idx) 1)
    (set_cq (<[cq_slot s (ctrl s cq_write_idx) := e]> (cq s)) s).

Lemma publish_used e s :
  cq_ok s -> cq_used s < ctrl s cq_size -> cq_used (publish e s) = cq_used s + 1.
Proof.
  intros ((k & Hk & Hs) & _) Hlt. unfold cq_used, publish, set_ctrl, set_cq. cbn [ctrl].
  rewrite fn_lookup_insert, fn_lookup_insert_ne by done. rewrite sub32_add32_cancel.
  apply u32_small. pose proof (cq_used_range s). unfold is_u32, cq_used in *.
  assert (2 ^ k <= 2 ^ 12) by (apply Z.pow_le_mono_r; lia). lia.
Qed.

Lemma publish_ok e s : cq_ok s -> cq_used s < ctrl s cq_size -> cq_ok (publish e s).
Proof.
  intros Hok Hlt. unfold cq_ok at 1. rewrite publish_used by done.
  unfold publish, set_ctrl, set_cq. cbn [ctrl].
  rewrite fn_lookup_insert, !fn_lookup_insert_ne by done. destruct Hok as (? & ? & ? & ?).
  split; [done|]. split; [lia|]. split; [done|]. apply add32_range.
Qed.

Lemma publish_contents e s :
  cq_ok s -> cq_used s < ctrl s cq_size ->
  cq_contents (publish e s) = cq_contents s ++ [e].
Proof.
  intros Hok Hlt. unfold cq_contents at 1. rewrite publish_used by done.
  pose proof (cq_used_range s) as Hu. unfold is_u32 in Hu.
  replace (Z.to_nat (cq_used s + 1)) with (Z.to_nat (cq_used s) + 1)%nat by lia.
  rewrite seq_app, map_app. cbn [seq map].
  assert (Hslot : forall c, cq_slot (publish e s) c = cq_slot s c) by done.
  assert (Hrd : ctrl (publish e s) cq_read_idx = ctrl s cq_read_idx) by done.
  assert (Hin : forall j, cq_slot s (add32 (ctrl s cq_read_idx) j) =
    (ctrl s cq_read_idx + j) mod ctrl s cq_size) by (intros; by apply cq_slot_mod).
  assert (Hpos : 0 < ctrl s cq_size).
  { destruct Hok as ((k & ? & ->) & _). apply Z.pow_pos_nonneg; lia. }
  unfold publish at 1, set_ctrl, set_cq. cbn [cq]. f_equal.
  - unfold cq_contents. apply map_ext_in. intros j Hj%in_seq.
    rewrite Hslot, Hrd, (cq_write_cursor s Hok). apply fn_lookup_insert_ne. rewrite !Hin.
    intros E. apply mod_shift_inj in E; lia.
  - rewrite Hslot, Hrd. unfold publish, set_ctrl, set_cq. cbn [cq].
    rewrite (cq_write_cursor s Hok), Nat.add_0_l, Z2Nat.id by lia. by rewrite fn_lookup_insert.
Qed.

Lemma fifo_publish e s : cq_used s < ctrl s cq_size -> fifo s (publish e s).
Proof.
  intros Hlt Hok. split; [by apply publish_ok|]. split; [done|]. exists [e], 0%nat.
  split; [lia|]. rewrite drop_0, publish_contents by done. split; [done|].
  unfold publish, set_ctrl. cbn [ctrl]. by rewrite fn_lookup_insert.
Qed.

(** ** Reservation and publication *)

Lemma fifo_cq_can_write f : keeps fifo (cq_can_write f).
Proof using CqHost0.
  unfold cq_can_write. repeat first
    [ keeps_step | apply fifo_host_writes
    | eapply fifo_fp; [solve [eauto with fp nocore]|reflexivity] ].
Qed.

(** With a draining host the ring is never found corrupt, and a positive
    answer means a free slot. *)
Lemma cq_can_write_spec f s :
  cq_ok s ->
  wlp (cq_can_write f) s (fun r s' => fifo s s' /\ cq_used s' <= cq_used s /\
    agree fp_host s s' /\
    (if has_flag f RP1_FLAG_SILENT then r = 1
     else (r = 1 /\ cq_used s' < ctrl s' cq_size) \/ (r = 0 /\ cq_used s' = ctrl s' cq_size))).
Proof using CqHost0.
  intros Hok. unfold cq_can_write. destruct (has_flag _ _).
  { apply post_ret. split; [done|]. split; [lia|]. split; [|done]. done. }
  apply post_bind. unfold post at 1. pose proof (fifo_host_writes s) as Hf.
  pose proof (fp_host_writes s) as Hfp.
  destruct (host_writes s) as [[] s1| |] eqn:E; [|done|done].
  destruct (host_writes_run _ _ _ Hok E) as ((_ & Hu1 & _) & _ & Hs & Hw & Hu).
  unfold get_ctrl. do 6 post_step. fold (cq_used s1).
  destruct (_ <? _) eqn:Elt; bools; [lia|].
  apply post_ret. split; [done|]. split; [done|]. split; [done|].
  destruct (_ =? _) eqn:Eeq; bools; [by right|left]. split; [done|]. lia.
Qed.

(** The entry of a completion. *)
Definition evidence (i c d : Z) (e : rp1_cq_entry_t) : Prop :=
  cq_node_index e = i /\ cq_status e = c /\ cq_error_detail e = d.

Lemma fifo_trans_ring s s1 s2 :
  fifo s s1 ->
  cq s2 = cq s1 /\ ctrl s2 cq_write_idx = ctrl s1 cq_write_idx /\
  ctrl s2 cq_read_idx = ctrl s1 cq_read_idx /\ ctrl s2 cq_size = ctrl s1 cq_size ->
  fifo s s2.
Proof.
  intros Hf He Hok. destruct (Hf Hok) as (Hok1 & Hs & es & k & ? & ? & ?).
  destruct (ring_eq _ _ He) as (_ & Hc & Hok2). destruct He as (_ & Hw & _ & Hs2).
  split; [auto|]. split; [congruence|]. exists es, k. rewrite Hc, Hw. done.
Qed.

(** A draining host leaves an unchanged ring, or one with fewer entries. *)
Lemma can_write_contents f s r s' :
  cq_ok s -> cq_can_write f s = Ret r s' -> exists k, cq_contents s' = drop k (cq_contents s).
Proof using CqHost0.
  intros Hok. unfold cq_can_write. destruct (has_flag _ _).
  { intros [= _ <-]. exists 0%nat. by rewrite drop_0. }
  unfold mbind, SM_bind at 1. destruct (host_writes s) as [[] s1| |] eqn:E; [|done|done].
  destruct (host_writes_run _ _ _ Hok E) as (Hok1 & Hc & Hs & Hw & Hu).
  pose proof (contents_advance _ _ Hok Hok1 Hc Hs Hw Hu) as Hd.
  unfold get_ctrl, gets, SM_bind. destruct (_ <? _) eqn:Elt.
  - bools. destruct Hok1 as (_ & ? & _). unfold cq_used in *. lia.
  - intros [= _ <-]. eauto.
Qed.

Lemma write_cq_entry_spec f i c d s :
  cq_ok s ->
  wlp (write_cq_entry f i c d) s (fun r s' => fifo s s' /\
    (if has_flag f RP1_FLAG_SILENT then r = 1 /\ s' = s
     else (r = 0 /\ cq_used s = ctrl s cq_size) \/
          (r = 1 /\ exists e k, evidence i c d e /\
             cq_contents s' = drop k (cq_contents s) ++ [e]))).
Proof using CqHost0.
  intros Hok. unfold write_cq_entry. apply post_bind.
  pose proof (cq_can_write_spec f s Hok) as Hcan. unfold post at 1. unfold post in Hcan.
  destruct (cq_can_write f s) as [r s1| |] eqn:Ecan; [|done|done].
  destruct Hcan as (Hf & Hu & Ha & Hr). destruct (has_flag f RP1_FLAG_SILENT) eqn:Hsil.
  { subst r. apply post_ret. unfold cq_can_write in Ecan. rewrite Hsil in Ecan.
    injection Ecan as <-. done. }
  destruct (can_write_contents _ _ _ _ Hok Ecan) as [k Hk].
  destruct (Hf Hok) as (Hok1 & Hsz & _).
  destruct Hr as [[-> Hlt]|[-> Hfull]].
  2: { apply post_ret. split; [done|]. left. split; [done|].
       destruct Hok as (_ & ? & _). rewrite Hsz in *. lia. }
  cbn [Z.leb Z.compare]. unfold get_ctrl, put_ctrl, put_cq, get_glob.
  do 4 post_step. apply post_bind, post_cycles. intros now h. do 4 post_step.
  apply post_bind, wlp_checked. intros _. post_step. apply post_bind, post_barrier. intros h2.
  do 2 post_step. apply post_bind, post_barrier. intros h3. apply post_ret.
  fold (cq_slot s1 (ctrl s1 cq_write_idx)).
  set (e := {| cq_node_index := i |}).
  match goal with |- fifo s ?sf /\ _ => set (s' := sf) end.
  assert (He : cq s' = cq (publish e s1) /\
    ctrl s' cq_write_idx = ctrl (publish e s1) cq_write_idx /\
    ctrl s' cq_read_idx = ctrl (publish e s1) cq_read_idx /\
    ctrl s' cq_size = ctrl (publish e s1) cq_size) by done.
  split.
  - eapply fifo_trans_ring; [|exact He]. etrans; [done|]. by apply fifo_publish.
  - right. split; [done|]. exists e, k. split; [done|].
    destruct (ring_eq _ _ He) as (_ & -> & _). by rewrite publish_contents, Hk.
Qed.

Lemma fifo_write_cq_entry f i c d : keeps fifo (write_cq_entry f i c d).
Proof using CqHost0.
  intros s. destruct (write_cq_entry f i c d s) as [r s'| |] eqn:E; auto. intros Hok.
  pose proof (write_cq_entry_spec f i c d s Hok) as Hsp. unfold post in Hsp.
  rewrite E in Hsp. by apply Hsp.
Qed.

#[export] Instance fifo_scan_rel : ScanRel (fifo (HW := HW)).
Proof using CqHost0.
  split.
  - apply _.
  - intros s s' Ha Hok. assert (Hr := agree_ring fp_quiet s s' eq_refl Ha).
    by apply (fifo_trans_ring s s s').
  - apply fifo_host_writes.
  - intros. by apply (fifo_fp _ _ (fp_latch_error _ _ _ _)).
  - by apply (fifo_fp _ _ fp_mark_recovery).
  - apply fifo_cq_can_write.
  - apply fifo_write_cq_entry.
Qed.
End ring.
