(* ===== verification/Rp1Order.v ===== *)
(** * Dependency order

    A graph without LOOP, COND and RERUN only ever raises barrier bits, and
    only on behalf of a node that has finished.  So a node is activated only
    when every bit it awaits was released by a finished producer: the scan
    respects the graph's dependencies, in whatever order kernels finish. *)

From S2P Require Import Prelude Rp1Protocol Rp1Store Rp1Loop Rp1Frame Rp1Fixture Rp1Safety.

(** A node has finished, successfully or not. *)
Definition finished {HW} (s : st HW) (i : Z) : Prop :=
  node_status s i = RP1_NODE_DONE \/ node_status s i = RP1_NODE_ERROR.

(** Every bit node [i] awaits is set. *)
Definition ready {HW} (prog : Z -> rp1_node_t) (s : st HW) (i : Z) : Prop :=
  Z.land (barriers s (barrier_await_bucket (prog i))) (barrier_await_mask (prog i)) =
    barrier_await_mask (prog i).

(** Bit [k] of bucket [b] is produced by node [j]. *)
Definition produces (prog : Z -> rp1_node_t) (j b k : Z) : Prop :=
  barrier_set_bucket (prog j) = b /\ Z.testbit (barrier_set_mask (prog j)) k = true.

(** No control-flow node: nothing is re-armed, no bit is cleared. *)
Definition straight_line (n : Z) (prog : Z -> rp1_node_t) : Prop :=
  forall i, 0 <= i < n ->
    opcode_of (node_opcode (prog i)) <> Some LOOP /\
    opcode_of (node_opcode (prog i)) <> Some COND /\
    opcode_of (node_opcode (prog i)) <> Some RERUN.

Definition tracked {HW} (n : Z) (prog : Z -> rp1_node_t) (s : st HW) (k : rp1_inflight_t) : Prop :=
  0 <= if_node_index k < n /\
  if_set_bucket k = barrier_set_bucket (prog (if_node_index k)) /\
  if_set_mask k = barrier_set_mask (prog (if_node_index k)) /\
  node_status s (if_node_index k) <> RP1_NODE_PENDING.

(** The dependency invariant. *)
Record Ord {HW} (n : Z) (prog : Z -> rp1_node_t) (s : st HW) : Prop := {
  ord_prog : forall i, 0 <= i < n -> same_packet (nodes s i) (prog i);
  ord_released : forall b k, 0 <= k -> Z.testbit (barriers s b) k = true ->
    exists j, 0 <= j < n /\ produces prog j b k /\ finished s j;
  ord_started : forall i, 0 <= i < n -> node_status s i <> RP1_NODE_PENDING -> ready prog s i;
  ord_tracked : Forall (tracked n prog s) (inflight s)
}.

(** The locations the invariant depends on. *)
Definition fp_order : list loc := [L_barriers; L_status; L_packets; L_inflight].
Definition avoids_order (fp : list loc) : bool :=
  forallb (fun l => bool_decide (l ∉ fp)) fp_order.

Section order.
Context {HW : Type} `{!Hal HW} `{!Platform} (n : Z) (prog : Z -> rp1_node_t).
Implicit Types s : st HW.
Abbreviation Ord := (Ord n prog).
Abbreviation ready := (ready prog).

Lemma order_frame fp s s' :
  avoids_order fp = true -> agree fp s s' ->
  barriers s' = barriers s /\ node_status s' = node_status s /\ nodes s' = nodes s /\
  inflight s' = inflight s.
Proof.
  unfold avoids_order, fp_order. cbn [forallb]. intros Ha Hag. bools.
  repeat match goal with H : bool_decide _ = true |- _ => apply bool_decide_eq_true in H end.
  split; [by apply (Hag L_barriers)|]. split; [by apply (Hag L_status)|].
  split; [by apply (Hag L_packets)|by apply (Hag L_inflight)].
Qed.

Lemma Ord_eq s s' :
  barriers s' = barriers s -> node_status s' = node_status s -> nodes s' = nodes s ->
  inflight s' = inflight s -> Ord s -> Ord s'.
Proof.
  intros Hb Hs Hn Hi [H1 H2 H3 H4]. split.
  - by rewrite Hn.
  - unfold finished in *. by rewrite Hb, Hs.
  - unfold ready in *. by rewrite Hb, Hs.
  - rewrite Hi. unfold tracked in *. by rewrite Hs.
Qed.

(** ** The three updates that matter *)

(** Starting or finishing a ready node. *)
Lemma Ord_status s i v :
  Ord s -> 0 <= i < n -> ready s i -> v <> RP1_NODE_PENDING ->
  (finished s i -> v = RP1_NODE_DONE \/ v = RP1_NODE_ERROR) ->
  Ord (set_status_array (<[i := v]> (node_status s)) s).
Proof.
  intros [H1 H2 H3 H4] Hi Hr Hv Hfin. split; [done| | |].
  - intros b k Hk Hb. destruct (H2 b k Hk Hb) as (j & Hj & Hp & Hf). exists j.
    split; [done|]. split; [done|]. unfold finished in *. cbn [node_status set_status_array].
    destruct (decide (i = j)) as [->|]; [rewrite fn_lookup_insert; auto|].
    by rewrite fn_lookup_insert_ne.
  - intros j Hj Hst. cbn [node_status set_status_array] in Hst.
    destruct (decide (i = j)) as [->|]; [done|]. rewrite fn_lookup_insert_ne in Hst by done.
    by apply H3.
  - cbn [inflight set_status_array]. eapply Forall_impl; [|exact H4].
    intros k (? & ? & ? & ?). repeat (split; [done|]). cbn [node_status set_status_array].
    destruct (decide (i = if_node_index k)) as [<-|]; [by rewrite fn_lookup_insert|].
    by rewrite fn_lookup_insert_ne.
Qed.

(** Releasing the bits of a finished node. *)
Lemma Ord_raise s i :
  Ord s -> 0 <= i < n -> finished s i ->
  Ord (set_barriers (<[barrier_set_bucket (prog i) :=
    Z.lor (barriers s (barrier_set_bucket (prog i))) (barrier_set_mask (prog i))]> (barriers s)) s).
Proof.
  intros [H1 H2 H3 H4] Hi Hf. split; [done| | |done].
  - intros b k Hk Hb. cbn [barriers set_barriers] in Hb.
    destruct (decide (barrier_set_bucket (prog i) = b)) as [<-|Hne].
    + rewrite fn_lookup_insert, Z.lor_spec in Hb. apply orb_true_iff in Hb as [Hb|Hb].
      * by destruct (H2 _ k Hk Hb) as (j & ? & ? & ?); exists j.
      * exists i. done.
    + rewrite fn_lookup_insert_ne in Hb by done.
      by destruct (H2 _ k Hk Hb) as (j & ? & ? & ?); exists j.
  - intros j Hj Hst. specialize (H3 j Hj Hst). unfold Rp1Order.ready in *.
    cbn [barriers set_barriers].
    destruct (decide (barrier_set_bucket (prog i) = barrier_await_bucket (prog j))) as [->|Hne];
      [|by rewrite fn_lookup_insert_ne].
    rewrite fn_lookup_insert, Z.land_lor_distr_l, H3.
    apply Z.bits_inj'. intros k Hk. rewrite Z.lor_spec, Z.land_spec.
    destruct (Z.testbit (barrier_await_mask _) k); [by rewrite orb_true_l|].
    by rewrite andb_false_r.
Qed.

Lemma Ord_inflight s l :
  Ord s -> Forall (tracked n prog s) l -> Ord (set_inflight l s).
Proof. by intros [] ?. Qed.

Lemma Ord_packet_status s i v :
  Ord s -> Ord (set_nodes (<[i := with_status (nodes s i) v]> (nodes s)) s).
Proof.
  intros []. split; try done. intros j Hj. cbn [nodes set_nodes].
  destruct (decide (i = j)) as [->|]; [|rewrite fn_lookup_insert_ne by done; auto].
  rewrite fn_lookup_insert. apply same_packet_status. auto.
Qed.

(** ** Operations *)

(** Equal in what the invariant depends on. *)
Definition Same s s' : Prop :=
  barriers s' = barriers s /\ node_status s' = node_status s /\ nodes s' = nodes s /\
  inflight s' = inflight s.

Lemma wlp_same {A} fp (m : SM (st HW) A) s :
  writes fp m -> avoids_order fp = true -> wlp m s (fun _ s' => Same s s').
Proof.
  intros Hm Hfp. unfold post. specialize (Hm s). destruct (m s); [|done|done].
  by eapply order_frame.
Qed.

Lemma Same_Ord s s' : Same s s' -> Ord s -> Ord s'.
Proof. intros (? & ? & ? & ?). by apply Ord_eq. Qed.
Lemma Same_ready s s' i : Same s s' -> ready s i -> ready s' i.
Proof. intros (Hb & _). unfold Rp1Order.ready. by rewrite Hb. Qed.
Lemma Same_status s s' i v : Same s s' -> node_status s i = v -> node_status s' i = v.
Proof. intros (_ & Hs & _). by rewrite Hs. Qed.
Lemma Same_finished s s' i : Same s s' -> finished s i -> finished s' i.
Proof. intros (_ & Hs & _). unfold finished. by rewrite Hs. Qed.

Lemma ord_set_status s i v :
  Ord s -> 0 <= i < n -> ready s i -> (u8 v =? RP1_NODE_PENDING) = false ->
  (finished s i -> u8 v = RP1_NODE_DONE \/ u8 v = RP1_NODE_ERROR) ->
  wlp (set_node_status i v) s (fun _ s' =>
    Ord s' /\ ready s' i /\ node_status s' i = u8 v).
Proof.
  intros HO Hi Hr Hv%Z.eqb_neq Hfin. unfold set_node_status, put_packet_status, get_glob.
  apply post_bind, wlp_checked. intros _. do 4 post_step. apply post_bind, wlp_checked. intros _.
  post_step. split; [|split; [done|]].
  - set (s1 := set_status_array _ s). by apply (Ord_packet_status s1), Ord_status.
  - cbn [node_status set_status_array set_nodes]. by rewrite fn_lookup_insert.
Qed.

Lemma ord_raise s i node :
  Ord s -> 0 <= i < n -> finished s i -> same_packet node (prog i) ->
  wlp (raise_barrier (barrier_set_bucket node) (barrier_set_mask node)) s (fun _ s' => Ord s').
Proof.
  intros HO Hi Hf (_ & _ & _ & _ & -> & _ & ->)%same_packet_fields. unfold raise_barrier.
  apply post_bind, wlp_checked. intros _. post_step. by apply Ord_raise.
Qed.

Lemma finished_done s i : node_status s i = u8 RP1_NODE_DONE -> finished s i.
Proof. by left. Qed.
Lemma finished_error s i : node_status s i = u8 RP1_NODE_ERROR -> finished s i.
Proof. by right. Qed.
Lemma pending_not_finished s i : node_status s i = RP1_NODE_PENDING -> ~ finished s i.
Proof. unfold finished. intros ->. by intros [[=]|[=]]. Qed.
End order.

#[export] Hint Resolve finished_done finished_error : slash.

(** Moves the facts about the state before a framed operation to the state
    after it. *)
Ltac same_move HS :=
  repeat match type of HS with
  | Same ?s ?s' =>
    match goal with
    | H : Ord _ _ s |- _ => apply (Same_Ord _ _ _ _ HS) in H
    | H : ready _ s _ |- _ => apply (Same_ready _ _ _ _ HS) in H
    | H : finished s _ |- _ => apply (Same_finished _ _ _ HS) in H
    | H : node_status s _ = _ |- _ => apply (Same_status _ _ _ _ HS) in H
    end
  end.

Create HintDb ord.

(** Steps through an operation: the updates of the database, or a frame. *)
Ltac ord_step :=
  lazymatch goal with
  | |- post _ _ (_ ≫= _) _ _ => apply post_bind
  | |- post _ _ (mret _) _ _ => apply post_ret
  | |- post _ _ (when _ _) _ _ => apply post_when; intros ?
  | |- post _ _ (match ?x with _ => _ end) _ _ => destruct x eqn:?
  | |- post _ _ no_fuel _ _ => exact I
  | |- post _ _ _ _ _ =>
      first
        [ eapply post_mono; [solve [eauto with ord]|]; cbn beta;
          let H := fresh "HO" in intros ?? H; destruct_and? H
        | eapply post_mono; [eapply wlp_same; [solve [eauto with fp nocore]|reflexivity]|];
          cbn beta; let H := fresh "HS" in intros ?? H; same_move H ]
  end; cbn beta.
Ltac ord_go := repeat ord_step; try done; eauto with ord.

Section scan.
Context {HW : Type} `{!Hal HW} `{!Platform} (n : Z) (prog : Z -> rp1_node_t).
Context (Hsl : straight_line n prog).
Implicit Types s : st HW.
Abbreviation Ord := (Ord n prog).
Abbreviation ready := (ready prog).

Lemma ord_get_node s i :
  Ord s -> 0 <= i < n ->
  wlp (get_node i) s (fun node s' => s' = s /\ same_packet node (prog i)).
Proof.
  intros HO Hi. unfold get_node, get_glob. do 2 post_step. apply post_bind, wlp_checked.
  intros _. post_step. split; [done|]. by apply (ord_prog _ _ _ HO).
Qed.

(** Finishing a ready node and releasing its bits. *)
Lemma ord_finish s i v :
  Ord s -> 0 <= i < n -> ready s i -> v = RP1_NODE_DONE \/ v = RP1_NODE_ERROR ->
  wlp (set_node_status i v) s (fun _ s' => Ord s' /\ ready s' i /\ finished s' i).
Proof.
  intros HO Hi Hr Hv. eapply post_mono.
  - apply (ord_set_status n prog s i v); try done; [by destruct Hv as [->| ->]|].
    intros _. destruct Hv as [->| ->]; auto.
  - intros [] s' (? & ? & Hst). split; [done|]. split; [done|].
    destruct Hv as [->| ->]; auto with slash.
Qed.

Lemma ord_finish_done s i :
  Ord s -> 0 <= i < n -> ready s i ->
  wlp (set_node_status i RP1_NODE_DONE) s (fun _ s' => Ord s' /\ ready s' i /\ finished s' i).
Proof. intros. apply ord_finish; auto. Qed.
Lemma ord_finish_error s i :
  Ord s -> 0 <= i < n -> ready s i ->
  wlp (set_node_status i RP1_NODE_ERROR) s (fun _ s' => Ord s' /\ ready s' i /\ finished s' i).
Proof. intros. apply ord_finish; auto. Qed.

(** Starting a pending, ready node. *)
Lemma ord_start s i v :
  Ord s -> 0 <= i < n -> ready s i -> node_status s i = RP1_NODE_PENDING ->
  (u8 v =? RP1_NODE_PENDING) = false ->
  wlp (set_node_status i v) s (fun _ s' => Ord s' /\ ready s' i /\ node_status s' i = u8 v).
Proof.
  intros HO Hi Hr Hp Hv. apply ord_set_status; try done.
  intros Hf. by apply pending_not_finished in Hp.
Qed.

#[local] Hint Resolve ord_finish_done ord_finish_error ord_raise : ord.

Lemma ord_complete_node s i node :
  Ord s -> 0 <= i < n -> ready s i -> same_packet node (prog i) ->
  wlp (complete_node node i) s (fun _ s' => Ord s').
Proof. intros. unfold complete_node. ord_go. Qed.

Lemma ord_add_inflight s i node :
  Ord s -> 0 <= i < n -> same_packet node (prog i) -> node_status s i <> RP1_NODE_PENDING ->
  wlp (add_inflight node i) s (fun _ s' => Ord s').
Proof.
  intros HO Hi (_ & _ & _ & _ & Hm & _ & Hb)%same_packet_fields Hst. unfold add_inflight.
  do 2 post_step. apply post_bind, wlp_checked. intros _. apply post_bind, post_cycles.
  intros now h. post_step. apply Ord_inflight; [by destruct HO|].
  apply Forall_app. split; [apply (ord_tracked _ _ _ HO)|]. apply Forall_singleton.
  split; [done|]. cbn [if_set_bucket if_set_mask if_node_index]. by rewrite Hm, Hb.
Qed.

Lemma ord_launch_and_mark s i node :
  Ord s -> 0 <= i < n -> ready s i -> node_status s i = RP1_NODE_PENDING ->
  same_packet node (prog i) ->
  wlp (launch_and_mark node i) s (fun _ s' => Ord s' /\ node_status s' i <> RP1_NODE_PENDING).
Proof.
  intros HO Hi Hr Hp Hsp. unfold launch_and_mark. do 4 ord_step. destruct (has_flag _ _).
  - ord_step. eapply post_mono; [by apply ord_start|]. intros [] s1 (HO1 & Hr1 & Hst).
    ord_step. assert (Hf : finished s1 i) by auto with slash.
    unfold raise_barrier. apply post_bind, wlp_checked. intros _. post_step.
    destruct (same_packet_fields _ _ Hsp) as (_ & _ & _ & _ & -> & _ & ->).
    apply (Ord_raise n prog) in Hf; [|done|done].
    set (s2 := set_barriers _ s1) in *.
    assert (Hst2 : node_status s2 i = u8 RP1_NODE_DONE) by done. clearbody s2. clear HO1 Hr1 Hst.
    do 2 ord_step. split; [done|]. by rewrite Hst2.
  - ord_step. eapply post_mono; [by apply ord_start|]. intros [] s1 (HO1 & Hr1 & Hst).
    apply post_ret. split; [done|]. by rewrite Hst.
Qed.

#[local] Hint Resolve ord_complete_node : ord.

Lemma ord_activate_kernel_dispatch s i node :
  Ord s -> 0 <= i < n -> ready s i -> node_status s i = RP1_NODE_PENDING ->
  same_packet node (prog i) ->
  wlp (activate_kernel_dispatch node i) s (fun _ s' => Ord s').
Proof.
  intros HO Hi Hr Hp Hsp. unfold activate_kernel_dispatch. ord_step. ord_step.
  destruct (_ && _); [ord_go|]. apply post_bind, post_gets. destruct (_ <=? _); [ord_go|].
  apply post_bind. eapply post_mono; [by apply ord_launch_and_mark|].
  intros fatal s1 [HO1 Hst1]. destruct fatal; [ord_go|].
  apply post_bind. eapply post_mono; [by apply ord_add_inflight|]. cbn beta. intros. ord_go.
Qed.

Lemma ord_activate_wait s i node :
  Ord s -> 0 <= i < n -> ready s i -> node_status s i = RP1_NODE_PENDING ->
  same_packet node (prog i) -> wlp (activate_wait node i) s (fun _ s' => Ord s').
Proof.
  intros HO Hi Hr Hp Hsp. unfold activate_wait. ord_step. ord_step.
  destruct (compare _ _ _); [ord_go|].
  apply post_bind. eapply post_mono; [by apply ord_start|]. intros [] s1 (HO1 & Hr1 & Hst).
  ord_go.
Qed.

Lemma ord_activate_op pf s i node :
  Ord s -> 0 <= i < n -> ready s i -> node_status s i = RP1_NODE_PENDING ->
  same_packet node (prog i) -> wlp (activate_op pf node i) s (fun _ s' => Ord s').
Proof using Hsl.
  intros HO Hi Hr Hp Hsp. destruct (Hsl i Hi) as (Hl & Hc & Hrr).
  destruct (same_packet_fields _ _ Hsp) as (Ho & _). rewrite <-Ho in *. unfold activate_op.
  destruct (opcode_of _) as [[]|]; try done;
    eauto using ord_activate_kernel_dispatch, ord_activate_wait;
    unfold activate_pdi_load, activate_halt; ord_go.
Qed.

(** A node is only activated when it is pending and ready. *)
Lemma ord_activate_node pf s i :
  Ord s -> 0 <= i < n -> wlp (activate_node pf i) s (fun _ s' => Ord s').
Proof using Hsl.
  intros HO Hi. unfold activate_node, get_status.
  apply post_bind, post_bind, wlp_checked. intros _. do 2 post_step; [ord_go|]. bools.
  apply post_bind. eapply post_mono; [by apply ord_get_node|]. intros node s1 [-> Hsp].
  unfold get_barrier. apply post_bind, post_bind, wlp_checked. intros _.
  do 2 post_step; [ord_go|]. bools.
  assert (Hr : ready s i).
  { destruct (same_packet_fields _ _ Hsp) as (_ & _ & _ & Hm & _ & Hb & _).
    unfold Rp1Order.ready. by rewrite <-Hm, <-Hb. }
  do 2 ord_step. do 2 (ord_step; [ord_go|]). do 4 ord_step. by apply ord_activate_op.
Qed.

Lemma ord_scan_from (body : Z -> SM (st HW) ctl) :
  (forall s i, Ord s -> 0 <= i < n -> wlp (body i) s (fun _ s' => Ord s')) ->
  forall k s i mp, Ord s -> 0 <= i -> i + Z.of_nat k <= n ->
  wlp (scan_from body k i mp) s (fun _ s' => Ord s').
Proof.
  intros Hb k. induction k as [|k IH]; intros s i mp HO Hi Hk; cbn [scan_from]; [ord_go|].
  apply post_bind. eapply post_mono; [apply Hb; [done|lia]|].
  intros [] s' HO'; [apply IH; [done|lia|lia]..|ord_go].
Qed.

Lemma ord_poll_wait s i :
  Ord s -> 0 <= i < n -> wlp (poll_wait i) s (fun _ s' => Ord s').
Proof.
  intros HO Hi. unfold poll_wait, get_status.
  apply post_bind, post_bind, wlp_checked. intros _. do 2 post_step; [ord_go|]. bools.
  assert (Hr : ready s i).
  { apply (ord_started _ _ _ HO); [done|]. by intros E; rewrite E in *. }
  apply post_bind. eapply post_mono; [by apply ord_get_node|]. intros node s1 [-> Hsp].
  ord_go.
Qed.

(** Releasing the bits recorded in the in-flight table. *)
Lemma ord_raise_tracked s k b m :
  Ord s -> 0 <= k < n -> finished s k ->
  b = barrier_set_bucket (prog k) -> m = barrier_set_mask (prog k) ->
  wlp (raise_barrier b m) s (fun _ s' => Ord s').
Proof. intros HO Hi Hf -> ->. by apply ord_raise with k. Qed.

Lemma tracked_ready s k : Ord s -> tracked n prog s k -> ready s (if_node_index k).
Proof. intros HO (? & _ & _ & ?). by apply (ord_started _ _ _ HO). Qed.

#[local] Hint Resolve ord_raise_tracked : ord.

Lemma ord_poll_kernel s k :
  Ord s -> tracked n prog s k -> wlp (poll_kernel k) s (fun _ s' => Ord s').
Proof.
  intros HO Ht. assert (Hr := tracked_ready _ _ HO Ht). destruct Ht as (Hi & Hb & Hm & Hst).
  unfold poll_kernel.
  apply post_bind. eapply post_mono; [by apply ord_get_node|]. intros node s1 [-> Hsp]. ord_go.
Qed.

Lemma ord_quiesce_kernel s k :
  Ord s -> tracked n prog s k -> wlp (quiesce_kernel k) s (fun _ s' => Ord s').
Proof.
  intros HO Ht. assert (Hr := tracked_ready _ _ HO Ht). destruct Ht as (Hi & Hb & Hm & Hst).
  unfold quiesce_kernel.
  apply post_bind. eapply post_mono; [by apply ord_get_node|]. intros node s1 [-> Hsp]. ord_go.
Qed.

Lemma ord_remove_inflight s i : Ord s -> wlp (remove_inflight i) s (fun _ s' => Ord s').
Proof.
  intros HO. unfold remove_inflight. post_step. apply Ord_inflight; [done|].
  apply remove_at_Forall, (ord_tracked _ _ _ HO).
Qed.

Lemma ord_lookup s i k : Ord s -> inflight s !! i = Some k -> tracked n prog s k.
Proof. intros HO Hk. by eapply Forall_lookup_1; [apply (ord_tracked _ _ _ HO)|]. Qed.

#[local] Hint Resolve ord_poll_kernel ord_quiesce_kernel ord_remove_inflight ord_lookup : ord.

Lemma ord_check_inflight_from fuel : forall s i mp,
  Ord s -> wlp (check_inflight_from fuel i mp) s (fun _ s' => Ord s').
Proof.
  induction fuel as [|fuel IH]; intros s i mp HO; cbn [check_inflight_from];
    apply post_bind, post_gets; (destruct (_ !! i) as [k|] eqn:Hk; [|ord_go]); [done|].
  apply post_bind. eapply post_mono; [eauto with ord|]. intros [] s' HO'; ord_go.
Qed.

Lemma ord_quiesce_pass fuel : forall s i,
  Ord s -> wlp (quiesce_pass fuel i) s (fun _ s' => Ord s').
Proof.
  induction fuel as [|fuel IH]; intros s i HO; cbn [quiesce_pass];
    apply post_bind, post_gets; (destruct (_ !! i) as [k|] eqn:Hk; [|ord_go]); [done|].
  apply post_bind. eapply post_mono; [eauto with ord|]. intros [] s' HO'; ord_go.
Qed.

#[local] Hint Resolve ord_quiesce_pass ord_check_inflight_from : ord.

Lemma ord_quiesce_inflight fuel : forall s,
  Ord s -> wlp (quiesce_inflight fuel) s (fun _ s' => Ord s').
Proof.
  induction fuel as [|fuel IH]; intros s HO; cbn [quiesce_inflight];
    apply post_bind, post_gets; (destruct (length _) eqn:Hk; [ord_go|]); [done|]. ord_go.
Qed.

Lemma ord_scan_pass pf qf s :
  0 <= n -> Ord s -> wlp (scan_pass pf qf n) s (fun _ s' => Ord s').
Proof using Hsl.
  intros Hn HO. unfold scan_pass. do 3 ord_step.
  eapply post_mono; [apply ord_scan_from; [apply ord_activate_node|done|lia|lia]|].
  cbn beta. intros act s1 HO1. pose proof ord_quiesce_inflight as Hq.
  destruct (act <? 0); [ord_go|]. unfold check_inflight.
  apply post_bind, post_bind, post_gets. eapply post_mono; [by apply ord_check_inflight_from|].
  cbn beta. intros infl s2 HO2. destruct (infl <? 0); [ord_go|].
  apply post_bind. eapply post_mono; [apply ord_scan_from; [apply ord_poll_wait|done|lia|lia]|].
  cbn beta. intros wt s3 HO3. ord_go.
Qed.
End scan.

(** ** Reachable scan states *)

(** The states a running graph goes through, pass by pass. *)
Inductive passes {HW} `{!Hal HW} `{!Platform} (pf qf : nat) (count : Z) (s : st HW)
    : st HW -> Prop :=
  | passes_start : passes pf qf count s s
  | passes_pass s1 s2 r :
      passes pf qf count s s1 -> scan_pass pf qf count s1 = Ret r s2 -> passes pf qf count s s2.

Section reach.
Context {HW : Type} `{!Hal HW} `{!Platform}.
Implicit Types s : st HW.

Lemma accepted_ord s0 s :
  config_words (ctrl s0) -> rp1_store_init s0 = Ret None s ->
  0 < ctrl s0 node_count /\ Ord (ctrl s0 node_count) (nodes s0) s.
Proof.
  intros Hc E. pose proof (rp1_store_init_inv (nf := True) s0 Hc) as H0.
  unfold post in H0. rewrite E in H0. destruct H0 as ([Hn _] & HI & Ha). split; [lia|].
  assert (Hb : barriers s = fun _ => 0) by exact (agree_at _ L_barriers _ _ Ha eq_refl).
  assert (Hs : node_status s = fun _ => 0) by exact (agree_at _ L_status _ _ Ha eq_refl).
  assert (Hi : inflight s = []) by exact (agree_at _ L_inflight _ _ Ha eq_refl).
  split.
  - apply (inv_prog _ _ _ _ HI).
  - intros b k _. rewrite Hb, Z.testbit_0_l. done.
  - intros i _. by rewrite Hs.
  - by rewrite Hi.
Qed.

Lemma passes_ord pf qf n prog s s' :
  0 <= n -> straight_line n prog -> Ord n prog s -> passes pf qf n s s' -> Ord n prog s'.
Proof.
  intros Hn Hsl HO. induction 1 as [|s1 s2 r _ IH E]; [done|].
  pose proof (ord_scan_pass n prog Hsl pf qf s1 Hn IH) as H2. unfold post in H2.
  by rewrite E in H2.
Qed.

(** C2: in a graph without control-flow nodes, at every scan pass a node that
    has been started has every bit it awaits released by a node that produces
    the bit and has finished.  Whatever the hardware and the host do. *)
Theorem dependency_order pf qf s0 s s' i k :
  config_words (ctrl s0) -> straight_line (ctrl s0 node_count) (nodes s0) ->
  rp1_store_init s0 = Ret None s -> passes pf qf (ctrl s0 node_count) s s' ->
  0 <= i < ctrl s0 node_count -> node_status s' i <> RP1_NODE_PENDING ->
  0 <= k -> Z.testbit (barrier_await_mask (nodes s0 i)) k = true ->
  exists j, 0 <= j < ctrl s0 node_count /\
    produces (nodes s0) j (barrier_await_bucket (nodes s0 i)) k /\ finished s' j.
Proof.
  intros Hc Hsl E Hp Hi Hst Hk Hbit. destruct (accepted_ord _ _ Hc E) as [Hn HO].
  apply passes_ord with (prog := nodes s0) in Hp; [|lia|done|done].
  apply (ord_released _ _ _ Hp); [done|].
  pose proof (ord_started _ _ _ Hp i Hi Hst) as Hr. unfold ready in Hr.
  by apply (proj1 (land_mask_spec _ _) Hr).
Qed.

(** A pending node with an unreleased dependency is not touched: its
    activation reads the status and the barrier word and does nothing else,
    no register access, no completion, no reservation. *)
Theorem not_ready_untouched pf n base prog s i :
  Inv n base prog s -> 0 <= i < n -> 0 <= barrier_await_bucket (prog i) < RP1_MAX_BUCKETS ->
  node_status s i = RP1_NODE_PENDING -> ~ ready prog s i ->
  activate_node pf i s = Ret Skip s.
Proof.
  intros HI Hi Hb Hp Hr. unfold activate_node, get_status, get_barrier, mbind, SM_bind, checked.
  destruct (inv_cfg _ _ _ _ HI) as (Hn & _).
  rewrite (proj2 (in_bounds_spec _ _)) by lia. cbn. rewrite Hp. cbn.
  rewrite (get_node_run n base prog) by done.
  destruct (same_packet_fields _ _ (inv_prog _ _ _ _ HI i Hi)) as (_ & _ & _ & Hm & _ & Hb2 & _).
  rewrite Hb2, Hm. rewrite (proj2 (in_bounds_spec _ _)) by lia. cbn.
  unfold ready in Hr. destruct (_ =? _) eqn:E; [by bools|done].
Qed.
End reach.

(** ** Concrete runs *)

(** After two scan passes the second kernel of the chain has been started, so
    the first one, the producer of the bit it awaits, has finished. *)
Lemma dependency_order_witness :
  exists s, passes 5 5 3 (booted fabric0 chain []) s /\ node_status s 1 <> RP1_NODE_PENDING /\
    exists j, 0 <= j < 3 /\ produces (nodes (staged fabric0 chain [])) j 0 0 /\ finished s j.
Proof.
  set (s0 := staged fabric0 chain []). set (s1 := final (scan_pass 5 5 3) (booted fabric0 chain [])).
  set (s2 := final (scan_pass 5 5 3) s1).
  assert (passes 5 5 3 (booted fabric0 chain []) s2) as P.
  { destruct (returns_final (scan_pass 5 5 3) s1) as [r2 E2]; [by vm_compute|].
    destruct (returns_final (scan_pass 5 5 3) (booted fabric0 chain [])) as [r1 E1]; [by vm_compute|].
    exact (passes_pass _ _ _ _ _ _ _ (passes_pass _ _ _ _ _ _ _ (passes_start _ _ _ _) E1) E2). }
  assert (node_status s2 1 <> RP1_NODE_PENDING) as N by (vm_compute; discriminate).
  exists s2. split; [exact P|]. split; [exact N|].
  apply (dependency_order 5 5 s0 (booted fabric0 chain []) s2 1 0).
  - repeat constructor; done.
  - intros i Hi. change (0 <= i < 3) in Hi. assert (i = 0 \/ i = 1 \/ i = 2) as [->|[->| ->]] by lia;
      vm_compute; repeat split; discriminate.
  - unfold booted, s0. destruct (returns_final rp1_store_init (staged fabric0 chain [])) as [r E];
      [by vm_compute|]. rewrite E. f_equal.
    apply (f_equal (fun x => match x with Ret a _ => a | _ => None end)) in E. rewrite <- E.
    vm_compute. reflexivity.
  - exact P.
  - split; [lia|reflexivity].
  - exact N.
  - lia.
  - reflexivity.
Defined.

(** The second kernel of the chain before the first one has run. *)
Lemma not_ready_untouched_witness :
  activate_node 5 1 (booted fabric0 chain []) = Ret Skip (booted fabric0 chain []).
Proof.
  apply (not_ready_untouched 5 3 (RP1_CTRL_PHYS_ADDR + RP1_DEFAULT_ARG_BUF_OFFSET)
    (nodes (staged fabric0 chain []))).
  - apply (booted_inv fabric0 chain []); [repeat constructor; done|reflexivity].
  - lia.
  - vm_compute. split; discriminate || reflexivity.
  - vm_compute. reflexivity.
  - vm_compute. discriminate.
Defined.
