(* ===== verification/Rp1Scan.v ===== *)
(** * What a whole scan guarantees

    The component results of [Rp1Safety], [Rp1Latch] and [Rp1Queue] put
    together for the acceptance of a graph, the reports of its completions and
    a complete run of [rp1_loop]. *)

From S2P Require Import Prelude Rp1Protocol Rp1Store Rp1Loop.
From S2P Require Import Rp1Frame Rp1Fixture Rp1Safety Rp1Latch Rp1Queue.

Section scan.
Context {HW : Type} `{!Hal HW} `{!Platform}.
Implicit Types s : st HW.

(** [rp1_store_init] accepts exactly the valid configurations: a node
    count in range, ring sizes that are powers of two up to 4096, cursors no
    further apart than the ring, and every region aligned and inside the
    64 MB window in 32-bit address space; a refusal leaves the state as it
    was. *)
Theorem config_accepted_iff s :
  config_words (ctrl s) ->
  ((exists s', rp1_store_init s = Ret None s') <-> config_valid (ctrl s)) /\
  forall e s', rp1_store_init s = Ret (Some e) s' -> s' = s.
Proof.
  intros W. pose proof (rp1_store_init_inv (nf := False) s W) as P. unfold post in P. split; [split|].
  - intros [s' E]. rewrite E in P. apply P.
  - intros V. destruct (rp1_store_init s) as [[e|] s'| |] eqn:E; [|eauto|done|done].
    exfalso. apply check_config_valid in V; [|done].
    unfold rp1_store_init, mbind, SM_bind, gets in E. rewrite V in E.
    revert E. generalize (Z.to_nat (ctrl s node_count)). intros k. cbn.
    destruct (for_up _ _ _ _); discriminate.
  - intros e s' E. by rewrite E in P.
Qed.

(** First error wins.  No activation of a node, poll of a kernel or a
    wait, or step of the fatal quiescence replaces a recorded error: its
    code, node, detail and auxiliary word stay, and a recovery mark is never
    withdrawn.  And a scan that ends with -1 has recorded one. *)
Theorem first_error_wins fuel pf qf :
  (forall i, keeps (latch_le (HW := HW)) (activate_node pf i)) /\
  (forall k, keeps (latch_le (HW := HW)) (poll_kernel k)) /\
  (forall i, keeps (latch_le (HW := HW)) (poll_wait i)) /\
  keeps (latch_le (HW := HW)) (quiesce_inflight qf) /\
  forall s s', rp1_loop fuel pf qf s = Ret (-1) s' -> latched s'.
Proof.
  split_and!; try (intros; solve [eauto with scan_rel]).
  intros s s' E. pose proof (cause_rp1_loop fuel pf qf s) as C. unfold post in C.
  rewrite E in C. by apply C.
Qed.

Context `{!CqHost HW}.

Lemma sub32_consumed w r r' : sub32 w r' <= sub32 w r -> sub32 r' r = sub32 w r - sub32 w r'.
Proof using Type.
  intros Hle. assert (E : sub32 r' r = u32 (sub32 w r - sub32 w r')).
  { unfold sub32, u32. rewrite <-Zminus_mod. f_equal. lia. }
  rewrite E. apply u32_small. pose proof (sub32_range w r). pose proof (sub32_range w r').
  unfold is_u32 in *. lia.
Qed.

(** The cursor the host has moved to when the firmware looks, and the entries
    it has consumed since. *)
Definition host_cursor s : Z := u32 (snd (fst (hal_host (hw s) (ctrl s) (signals s)))).
Definition consumed s : Z := sub32 (host_cursor s) (ctrl s cq_read_idx).

(** C28: a completion is reported exactly once or not at all.  For any host
    that only consumes entries, reporting a completion to a running graph's
    queue returns.  A silent one changes nothing.  Otherwise the host's cursor
    is taken over; when the queue was full and the host consumed nothing, the
    report is refused and the queue stays as it is; in every other case the
    queue afterwards holds the entries the host has not consumed, in their
    order, and behind them the one new entry, with the node, the status and the
    detail given and the cycles since the graph started, and the producer index
    is one further, across its 32-bit wrap.  Nothing else changes but what the
    host moves itself. *)
Theorem completion_reported n base prog f i c d s :
  Inv n base prog s -> cq_ok s ->
  total (write_cq_entry f i c d) s (fun r s' =>
    if has_flag f RP1_FLAG_SILENT then r = 1 /\ s' = s
    else
      cq_ok s' /\ ctrl s' cq_read_idx = host_cursor s /\
      agree (L_hw :: L_signals :: L_cq :: map L_ctrl [cq_read_idx; cq_write_idx]) s s' /\
      if (consumed s =? 0) && (cq_used s =? ctrl s cq_size)
      then r = 0 /\ cq_contents s' = cq_contents s /\ ctrl s' cq_write_idx = ctrl s cq_write_idx
      else r = 1 /\ ctrl s' cq_write_idx = add32 (ctrl s cq_write_idx) 1 /\
        let now := u32 (fst (hal_cycles (fst (fst (hal_host (hw s) (ctrl s) (signals s)))))) in
        cq_contents s' = drop (Z.to_nat (consumed s)) (cq_contents s) ++
          [{| cq_node_index := i; cq_status := c; cq_error_detail := d;
              cq_timestamp := sub32 now (glob s g_graph_start_cycles) |}]).
Proof using CqHost0.
  intros HI Hok. eapply post_mono; [apply post_wlp; [by apply (write_cq_entry_safe n base prog)|]|].
  2: { cbn beta. intros r s' [_ HQ]. exact HQ. }
  unfold write_cq_entry, cq_can_write. destruct (has_flag f RP1_FLAG_SILENT); [by do 2 post_step|].
  apply post_bind, post_bind. pose proof (fp_host_writes s) as Ha. unfold post at 1.
  destruct (host_writes s) as [[] s1| |] eqn:E; [|done|done].
  destruct (host_writes_run _ _ _ Hok E) as (Hok1 & Hc & Hs & Hw & Hu).
  pose proof (contents_advance _ _ Hok Hok1 Hc Hs Hw Hu) as Hd.
  assert (Hhost : ctrl s1 cq_read_idx = host_cursor s /\ hw s1 = fst (fst (hal_host (hw s) (ctrl s) (signals s)))).
  { unfold host_cursor, host_writes in *. destruct (hal_host _ _ _) as [[h rd] sg]. injection E as <-. split; [|done].
    unfold set_hw, set_ctrl, set_signals. cbn [ctrl]. by rewrite fn_lookup_insert. }
  destruct Hhost as [Hrd Hhw].
  assert (Hk : consumed s = cq_used s - cq_used s1).
  { unfold consumed. rewrite <-Hrd. unfold cq_used in *. rewrite Hw in *. by apply sub32_consumed. }
  rewrite <-Hk in Hd. unfold get_ctrl. do 6 post_step. fold (cq_used s1).
  destruct Hok as (_ & Hle & _ & Hwu). pose proof Hok1 as (_ & Hle1 & _). rewrite (proj2 (Z.ltb_ge _ _)) by lia. apply post_ret.
  destruct (Z.eqb_spec (cq_used s1) (ctrl s1 cq_size)) as [Hfull|Hroom]; cbn [Z.leb Z.compare].
  { apply post_ret. rewrite Hs in *. rewrite (proj2 (Z.eqb_eq (consumed s) 0)), (proj2 (Z.eqb_eq (cq_used s) _)) by lia.
    cbn [andb]. split_and!; try done; [by eapply agree_mono, Ha|]. rewrite Hd. by replace (consumed s) with 0 by lia. }
  assert (Hno : (consumed s =? 0) && (cq_used s =? ctrl s cq_size) = false).
  { apply andb_false_iff. rewrite !Z.eqb_neq. rewrite Hs in *. lia. }
  rewrite Hno. unfold get_glob, put_ctrl, put_cq. do 4 post_step. apply post_bind. unfold post at 1, rp1_cycles. rewrite Hhw.
  destruct (hal_cycles (fst (fst (hal_host (hw s) (ctrl s) (signals s))))) as [v h] eqn:Eh.
  do 4 post_step. apply post_bind, wlp_checked. intros _. post_step. apply post_bind, post_barrier. intros h2.
  do 2 post_step. apply post_bind, post_barrier. intros h3. apply post_ret. fold (cq_slot s1 (ctrl s1 cq_write_idx)).
  change (glob (set_hw h s1) g_graph_start_cycles) with (glob s1 g_graph_start_cycles).
  rewrite (agree_at _ (L_glob g_graph_start_cycles) _ _ Ha eq_refl : glob s1 g_graph_start_cycles = glob s g_graph_start_cycles).
  set (e := {| cq_node_index := i |}). match goal with |- cq_ok ?sf /\ _ => set (s' := sf) end.
  assert (He : cq s' = cq (publish e s1) /\ ctrl s' cq_write_idx = ctrl (publish e s1) cq_write_idx /\
    ctrl s' cq_read_idx = ctrl (publish e s1) cq_read_idx /\ ctrl s' cq_size = ctrl (publish e s1) cq_size) by done.
  destruct (ring_eq _ _ He) as (_ & Hcont & Hok'). destruct He as (_ & Hwr & Hre & _).
  split_and!; [apply Hok', publish_ok; [done|lia]|by rewrite Hre| |done| |].
  - etrans; [eapply agree_mono, Ha; reflexivity|].
    etrans; [apply (agree_mono [L_hw]), agree_set_hw; reflexivity|].
    etrans; [apply (agree_mono [L_cq]), agree_set_cq; reflexivity|].
    etrans; [apply (agree_mono [L_hw]), agree_set_hw; reflexivity|].
    etrans; [apply (agree_mono [L_ctrl cq_write_idx]), agree_set_ctrl; reflexivity|].
    apply (agree_mono [L_hw]), agree_set_hw. reflexivity.
  - rewrite Hwr. unfold publish, set_ctrl. cbn [ctrl]. by rewrite fn_lookup_insert, Hw.
  - rewrite Hcont, publish_contents by (done || lia). by rewrite Hd.
Qed.
End scan.

Lemma config_accepted_iff_witness :
  exists s', rp1_store_init (staged fabric0 chain []) = Ret None s'.
Proof.
  apply config_accepted_iff; [repeat constructor; done|].
  apply check_config_valid; [repeat constructor; done|reflexivity].
Defined.

(** The completion of node 0 of the chain. *)
Lemma completion_reported_witness :
  total (write_cq_entry 0 0 RP1_CQ_OK 0) (booted fabric0 chain []) (fun r s' =>
    r = 1 /\ cq_node_index <$> cq_contents s' = [0]).
Proof.
  assert (cq_ok (booted fabric0 chain [])) as Hok.
  { split; [exists 6; split; [lia|reflexivity]|]. split; [by vm_compute|].
    split; by split; vm_compute. }
  eapply post_mono; [eapply (completion_reported 3 (RP1_CTRL_PHYS_ADDR + RP1_DEFAULT_ARG_BUF_OFFSET)
    (nodes (staged fabric0 chain [])) 0 0 RP1_CQ_OK 0 (booted fabric0 chain []))|].
  - apply (booted_inv fabric0 chain []); [repeat constructor; done|reflexivity].
  - exact Hok.
  - intros r s' (_ & _ & _ & Hr & _ & Hc). split; [exact Hr|]. cbv zeta in Hc. rewrite Hc.
    by vm_compute.
Defined.
