(* ===== verification/Rp1Run.v ===== *)
(** * The RP1 outer loop (rp1_run.c)

    Start-up publishes the protocol contract; then every pass of the endless
    loop either idles, stays in a terminal state, or accepts one graph:
    latch cleared, configuration checked, scan run, result published.  The
    system is the firmware's passes interleaved with the host's moves on the
    words it owns. *)

From S2P Require Import Prelude Rp1Protocol Rp1Store Rp1Loop.
From S2P Require Import Rp1Frame Rp1Fixture Rp1Safety Rp1Latch Rp1Queue.

Section run.
Context {HW : Type} `{!Hal HW} `{!Platform}.

(** Start-up: the magic is published last. *)
Definition rp1_startup : SM (st HW) unit :=
  rp1_pmu_init;;
  put_ctrl magic 0;;
  put_ctrl rp1_state RP1_STATE_INIT;;
  put_ctrl version RP1_PROTOCOL_VERSION;;
  put_ctrl capabilities RP1_REQUIRED_CAPABILITIES;;
  put_ctrl pdi_ipi_platform_id RP1_PLATFORM_ID;;
  rp1_clear_error_latch;;
  put_ctrl graph_done_seq 0;;
  put_ctrl cq_write_idx 0;;
  put_ctrl heartbeat 0;;
  put_ctrl rp1_state RP1_STATE_READY;;
  rp1_barrier;;
  put_ctrl magic RP1_CTRL_MAGIC;;
  rp1_barrier.

(** Phase 1 of an accepted graph: clear the latch and enter RUNNING. *)
Definition begin_graph : SM (st HW) unit :=
  rp1_clear_error_latch;;
  put_ctrl rp1_current_node RP1_TERMINAL_ERROR_NODE_NONE;;
  put_ctrl rp1_state RP1_STATE_RUNNING;;
  rp1_barrier.

(** Phase 2: the scan of an initialised store, between its trace events. *)
Definition scan_graph (fuel pf qf : nat) (accepted_seq : Z) : SM (st HW) Z :=
  now ← rp1_cycles;
  put_glob g_graph_start_cycles now;;
  count ← get_ctrl node_count;
  trace RP1_TRACE_GRAPH_START 0xFFFF accepted_seq count;;
  result ← rp1_loop fuel pf qf;
  trace RP1_TRACE_GRAPH_DONE 0xFFFF (u32 result) accepted_seq;;
  mret result.

(** Phases 1 and 2: validate the configuration, and run the scanner only over
    an initialised store. *)
Definition execute_graph (fuel pf qf : nat) (accepted_seq : Z) : SM (st HW) Z :=
  begin_graph;;
  config ← rp1_store_init;
  match config with
  | Some (config_detail, config_aux) =>
      rp1_latch_error RP1_ERR_INVALID_CONFIG RP1_TERMINAL_ERROR_NODE_NONE
        config_detail config_aux;;
      now ← rp1_cycles;
      put_glob g_graph_start_cycles now;;
      mret (-1)
  | None => scan_graph fuel pf qf accepted_seq
  end.

(** Phase 3: classification. *)
Definition terminal_state (result : Z) : Z :=
  if result =? -1 then RP1_STATE_ERROR
  else if result =? -2 then RP1_STATE_HALTED
  else RP1_STATE_READY.

Definition publish_result (accepted_seq result : Z) : SM (st HW) unit :=
  rp1_barrier;;
  put_ctrl rp1_state (terminal_state result);;
  rp1_barrier;;
  put_ctrl graph_done_seq accepted_seq;;
  rp1_barrier.

(** One pass of the endless loop: [Some result] when a graph was run. *)
Definition outer_pass (fuel pf qf : nat) : SM (st HW) (option Z) :=
  state ← get_ctrl rp1_state;
  if (state =? RP1_STATE_ERROR) || (state =? RP1_STATE_HALTED) then
    bump_heartbeat;; mret None
  else
    submitted ← get_ctrl graph_seq;
    done_seq ← get_ctrl graph_done_seq;
    if submitted =? done_seq then bump_heartbeat;; mret None
    else
      accepted_seq ← get_ctrl graph_seq;
      result ← execute_graph fuel pf qf accepted_seq;
      publish_result accepted_seq result;;
      mret (Some result).
End run.

(** ** The host between passes *)

(** The words and structures the protocol gives to the host. *)
Definition fp_host_owned : list loc :=
  map L_ctrl (graph_seq :: cq_read_idx :: config_fields) ++
  [L_packets; L_image; L_signals; L_args; L_ddr; L_hw].

(** Staged packets are made of bytes. *)
Definition packets_ok {HW} (s : st HW) : Prop :=
  forall i, 0 <= i < ctrl s node_count -> bytes_ok (nodes s i).

(** The software DMA of the staged graph stays clear of the shared window. *)
Definition dma_outside {HW} (s : st HW) : Prop :=
  forall i, 0 <= i < ctrl s node_count -> dma_clear (nodes s i).

Definition host_move {HW} (s s' : st HW) : Prop :=
  agree fp_host_owned s s' /\ config_words (ctrl s') /\ packets_ok s'.

(** The firmware booted and every pass and host move since. *)
Inductive running {HW} `{!Hal HW} `{!Platform} : st HW -> Prop :=
  | running_boot s0 s :
      config_words (ctrl s0) -> packets_ok s0 -> rp1_startup s0 = Ret tt s -> running s
  | running_host s s' : running s -> host_move s s' -> running s'
  | running_pass s s' fuel pf qf r :
      running s -> outer_pass fuel pf qf s = Ret r s' -> running s'.

(** ** Footprints *)

Definition fp_resolved : list loc :=
  map L_glob [g_nodes; g_cq; g_signals; g_arg_buf; g_trace; g_trace_size; g_trace_enable].
Definition fp_store_init : list loc :=
  fp_resolved ++ [L_ctrl trace_write_idx; L_barriers; L_status; L_loops; L_inflight; L_packets].
Definition fp_outer : list loc :=
  [L_ctrl rp1_state; L_ctrl graph_done_seq; L_glob g_graph_start_cycles] ++
  fp_store_init ++ fp_scan.

Section footprints.
Context {HW : Type} `{!Hal HW} `{!Platform}.
Abbreviation writes fp := (keeps (agree (HW := HW) fp)).

Lemma fp_pmu_init : writes fp_hw rp1_pmu_init.
Proof. apply keeps_modify. intros. apply agree_set_hw. Qed.
Hint Resolve fp_pmu_init : fp.

Lemma fp_clear_latch : writes fp_latch rp1_clear_error_latch.
Proof. unfold rp1_clear_error_latch. fp_go. Qed.
Hint Resolve fp_clear_latch : fp.

Lemma fp_reset_graph :
  writes [L_barriers; L_status; L_loops; L_inflight] rp1_store_reset_graph.
Proof.
  apply keeps_modify. intros s.
  etrans; [eapply agree_mono; [|apply agree_set_barriers]; reflexivity|].
  etrans; [eapply agree_mono; [|apply agree_set_status_array]; reflexivity|].
  etrans; [eapply agree_mono; [|apply agree_set_loop_iters]; reflexivity|].
  eapply agree_mono; [|apply agree_set_inflight]; reflexivity.
Qed.
Hint Resolve fp_reset_graph : fp.

Lemma fp_rp1_store_init : writes fp_store_init rp1_store_init.
Proof. unfold rp1_store_init. fp_go. Qed.
Hint Resolve fp_rp1_store_init : fp.

Lemma fp_begin_graph :
  writes (L_ctrl rp1_current_node :: L_ctrl rp1_state :: fp_hw ++ fp_latch) begin_graph.
Proof. unfold begin_graph. fp_go. Qed.
Hint Resolve fp_begin_graph : fp.

Lemma fp_scan_graph fuel pf qf a :
  writes (L_glob g_graph_start_cycles :: fp_scan) (scan_graph fuel pf qf a).
Proof. unfold scan_graph. fp_go. Qed.
Hint Resolve fp_scan_graph : fp.

Lemma fp_execute_graph fuel pf qf a : writes fp_outer (execute_graph fuel pf qf a).
Proof. unfold execute_graph. fp_go. Qed.
Hint Resolve fp_execute_graph : fp.

Lemma fp_publish_result a r :
  writes (L_ctrl rp1_state :: L_ctrl graph_done_seq :: fp_hw) (publish_result a r).
Proof. unfold publish_result. fp_go. Qed.
Hint Resolve fp_publish_result : fp.

Lemma fp_outer_pass fuel pf qf : writes fp_outer (outer_pass fuel pf qf).
Proof. unfold outer_pass. fp_go. Qed.
End footprints.

#[export] Hint Resolve fp_pmu_init fp_clear_latch fp_begin_graph fp_rp1_store_init fp_execute_graph fp_publish_result
  fp_outer_pass : fp.

(** ** Memory safety of the whole firmware *)

Section safety.
Context {HW : Type} `{!Hal HW} `{!Platform}.
Implicit Types s : st HW.

(** Host-owned data as the safety argument needs it. *)
Definition staged_ok s : Prop := config_words (ctrl s) /\ packets_ok s.

Lemma config_words_eq (c c' : rp1_ctrl_t) :
  (forall f, f ∈ config_fields -> c' f = c f) -> config_words c -> config_words c'.
Proof.
  intros Heq. unfold config_words. rewrite !Forall_forall. intros Hc f Hf.
  rewrite Heq; [|by apply list_elem_of_In]. auto.
Qed.

Definition avoids_config (fp : list loc) : bool :=
  forallb (fun f => bool_decide (L_ctrl f ∉ fp)) config_fields.

Lemma agree_config fp s s' f :
  avoids_config fp = true -> agree fp s s' -> f ∈ config_fields -> ctrl s' f = ctrl s f.
Proof.
  unfold avoids_config. rewrite forallb_forall. intros Ha Hag Hf.
  apply (Hag (L_ctrl f)). assert (Hb := Ha f (proj1 (list_elem_of_In _ _) Hf)).
  by apply bool_decide_eq_true in Hb.
Qed.

Lemma agree_config_words fp s s' :
  avoids_config fp = true -> agree fp s s' -> config_words (ctrl s) -> config_words (ctrl s').
Proof. intros Ha Hag. apply config_words_eq. intros f. by apply (agree_config fp). Qed.

Lemma agree_node_count fp s s' :
  avoids_config fp = true -> agree fp s s' -> ctrl s' node_count = ctrl s node_count.
Proof. intros Ha Hag. apply (agree_config fp); try done. by left. Qed.

(** An operation that writes neither the configuration nor the packets, their
    status apart. *)
Lemma staged_frame fp s s' :
  agree fp s s' -> avoids_config fp = true -> bool_decide (L_image ∈ fp) = false ->
  staged_ok s -> staged_ok s'.
Proof.
  intros Hag Ha Hp [Hc Hk]. split; [by eapply agree_config_words|].
  pose proof (agree_at _ L_image _ _ Hag Hp) as Hn. intros i. rewrite (agree_node_count fp s s') by done. intros Hi.
  destruct (same_packet_fields _ _ (Hn i)) as (Ho & _ & Hpl & _ & _ & Hab & Hsb).
  specialize (Hk i Hi). unfold bytes_ok in *. by rewrite Hpl, Hab, Hsb.
Qed.

Lemma dma_frame fp s s' :
  agree fp s s' -> avoids_config fp = true -> bool_decide (L_image ∈ fp) = false ->
  dma_outside s -> dma_outside s'.
Proof.
  intros Hag Ha Hp Hk i. pose proof (agree_at _ L_image _ _ Hag Hp) as Hn. rewrite (agree_node_count fp s s') by done.
  intros Hi. destruct (same_packet_fields _ _ (Hn i)) as (Ho & _ & Hpl & _).
  specialize (Hk i Hi). unfold dma_clear in *. by rewrite Ho, Hpl.
Qed.

Lemma scan_graph_safe fuel pf qf a s base prog :
  config_words (ctrl s) -> Inv (ctrl s node_count) base prog s ->
  (forall i, 0 <= i < ctrl s node_count -> bytes_ok (prog i) /\ dma_clear (prog i)) ->
  safe (scan_graph fuel pf qf a) s (fun _ s' => Inv (ctrl s node_count) base prog s').
Proof.
  intros Hc HI Hp. unfold scan_graph. do 7 safe_step. eapply post_mono.
  { eapply post_keeps; [eauto with fp|]. apply trace_safe. eauto with rp1safe. }
  intros [] s1 [HI1 Ha]. safe_step. eapply post_mono.
  { apply (rp1_loop_inv (ctrl s node_count) base prog Hp); [exact HI1|].
    by apply (agree_node_count fp_trace _ s1) in Ha. }
  cbn beta. intros. safe_go.
Qed.

Lemma execute_graph_safe fuel pf qf a s :
  staged_ok s -> dma_outside s -> safe (execute_graph fuel pf qf a) s (fun _ _ => True).
Proof.
  intros Hs Hd. unfold execute_graph. apply post_bind.
  eapply post_mono; [apply (post_keeps _ _ _ (fun _ _ => True) fp_begin_graph); done|].
  intros [] s1 [_ Hag1]. pose proof (dma_frame _ _ _ Hag1 eq_refl eq_refl Hd) as Hd1.
  destruct (staged_frame _ _ _ Hag1 eq_refl eq_refl Hs) as [Hc1 Hp1]. apply post_bind.
  eapply post_mono; [eapply post_keeps; [apply fp_rp1_store_init|by apply rp1_store_init_inv]|].
  intros [[d x]|] s2 [Hinit Hag2].
  - apply post_bind. eapply post_mono; [eapply (post_keeps _ _ _ (fun _ _ => True)); [apply fp_latch_error|]|].
    { unfold rp1_latch_error, get_ctrl. do 2 post_step. by destruct (negb _). }
    intros [] s3 _. do 2 safe_step. unfold put_glob. do 2 post_step. by post_step.
  - destruct Hinit as (Hv & HI & _). pose proof (agree_node_count fp_store_init _ _ eq_refl Hag2) as Hn.
    assert (Hc2 : config_words (ctrl s2)) by (by eapply (agree_config_words fp_store_init)).
    rewrite <-Hn in HI. eapply post_mono; [eapply scan_graph_safe; [done|exact HI|]|done].
    rewrite Hn. intros i Hi. split; [by apply Hp1|by apply Hd1].
Qed.

Lemma outer_pass_safe fuel pf qf s :
  staged_ok s -> dma_outside s -> safe (outer_pass fuel pf qf) s (fun _ _ => True).
Proof.
  intros Hs Hd.
  assert (Hhb : safe (bump_heartbeat;; mret (@None Z)) s (fun _ _ => True)).
  { unfold bump_heartbeat, get_ctrl, put_ctrl. apply post_bind. by do 4 post_step. }
  unfold outer_pass, get_ctrl. do 2 post_step. post_step; [done|].
  do 4 post_step. post_step; [done|]. do 2 post_step. post_step.
  eapply post_mono; [by apply execute_graph_safe|]. intros r s1 _. apply post_bind.
  eapply post_mono; [apply (post_keeps _ _ _ (fun _ _ => True) (fp_publish_result _ _)); done|].
  intros [] s2 _. by apply post_ret.
Qed.

Lemma startup_staged s s' : rp1_startup s = Ret tt s' -> staged_ok s -> staged_ok s'.
Proof.
  intros E. assert (Hfp : writes (fp_hw ++ fp_latch ++ map L_ctrl [magic; rp1_state; version;
    capabilities; pdi_ipi_platform_id; graph_done_seq; cq_write_idx; heartbeat])
    (rp1_startup (HW := HW))) by (unfold rp1_startup; fp_go).
  specialize (Hfp s). rewrite E in Hfp. by eapply staged_frame.
Qed.

Lemma running_staged s : running s -> staged_ok s.
Proof.
  induction 1 as [s0 s Hc Hp E|s s' _ IH (_ & Hc & Hp)|s s' fuel pf qf r _ IH E].
  - by eapply startup_staged.
  - done.
  - eapply staged_frame; [exact (keeps_run _ _ _ _ _ (fp_outer_pass fuel pf qf) E)|done..].
Qed.

End safety.

(** ** Terminal states, acceptance and publication *)

Definition terminal {HW} (s : st HW) : Prop :=
  ctrl s rp1_state = RP1_STATE_ERROR \/ ctrl s rp1_state = RP1_STATE_HALTED.

(** What happens after [s]: passes and host moves. *)
Inductive later {HW} `{!Hal HW} `{!Platform} (s : st HW) : st HW -> Prop :=
  | later_now : later s s
  | later_host s1 s2 : later s s1 -> host_move s1 s2 -> later s s2
  | later_pass s1 s2 fuel pf qf r :
      later s s1 -> outer_pass fuel pf qf s1 = Ret r s2 -> later s s2.

(** The firmware's record of its last graph. *)
Definition fp_record : list loc :=
  map L_ctrl [rp1_state; graph_done_seq; rp1_error_code; terminal_error_node;
    terminal_error_detail; terminal_error_aux; cq_write_idx; rp1_current_node] ++
  [L_cq; L_trace; L_barriers; L_status; L_inflight].

(** Evolution of the hardware and the signals without register access:
    barriers, clock reads and the host's own moves, which alone change the
    signals. *)
Inductive no_mmio {HW} `{!Hal HW} (h : HW) (sigs : Z -> rp1_signal_slot_t) : HW -> (Z -> rp1_signal_slot_t) -> Prop :=
  | no_mmio_refl : no_mmio h sigs h sigs
  | no_mmio_barrier h1 sigs1 : no_mmio h sigs h1 sigs1 -> no_mmio h sigs (hal_barrier h1) sigs1
  | no_mmio_cycles h1 sigs1 : no_mmio h sigs h1 sigs1 -> no_mmio h sigs (snd (hal_cycles h1)) sigs1
  | no_mmio_host h1 sigs1 c : no_mmio h sigs h1 sigs1 ->
      no_mmio h sigs (fst (fst (hal_host h1 c sigs1))) (snd (hal_host h1 c sigs1)).

Section outcome.
Context {HW : Type} `{!Hal HW} `{!Platform}.
Implicit Types s : st HW.

Lemma terminal_pass fuel pf qf s :
  terminal s ->
  outer_pass fuel pf qf s = Ret None (set_ctrl heartbeat (add32 (ctrl s heartbeat) 1) s).
Proof.
  intros Ht. unfold outer_pass, get_ctrl, gets, mbind, SM_bind.
  by destruct Ht as [-> | ->].
Qed.

(** Terminal states are reset-only.  After ERROR or HALTED, whatever
    graph_seq and configuration the host writes and however many passes
    follow, the firmware runs no graph: the state, the completed sequence, the
    error latch, the completion queue, the statuses and barriers stay, and
    every pass does nothing but count the heartbeat. *)
Theorem terminal_is_final s s' :
  terminal s -> later s s' ->
  (forall l, l ∈ fp_record -> same_at l s s') /\
  forall fuel pf qf, outer_pass fuel pf qf s' =
    Ret None (set_ctrl heartbeat (add32 (ctrl s' heartbeat) 1) s').
Proof.
  intros Ht Hl. cut (forall l, l ∈ fp_record -> same_at l s s').
  { intros Hrec. split; [done|]. intros. apply terminal_pass. unfold terminal in *.
    assert (Hst : ctrl s' rp1_state = ctrl s rp1_state) by (apply (Hrec (L_ctrl rp1_state)); by left).
    by rewrite Hst. }
  induction Hl as [|s1 s2 _ IH (Hag & _)|s1 s2 fuel pf qf r _ IH E].
  - by intros l _.
  - intros l Hl. etrans; [by apply IH|]. by eapply agree_disjoint.
  - assert (Hst : ctrl s1 rp1_state = ctrl s rp1_state) by (apply (IH (L_ctrl rp1_state)); by left).
    rewrite terminal_pass in E by (unfold terminal in *; by rewrite Hst). injection E as <- <-.
    intros l Hl. etrans; [by apply IH|].
    eapply agree_disjoint; [apply agree_set_ctrl|exact Hl|reflexivity].
Qed.

(** ** Publication *)

Lemma publish_result_run a r s s' u :
  publish_result a r s = Ret u s' ->
  ctrl s' rp1_state = terminal_state r /\ ctrl s' graph_done_seq = a /\
  agree (L_ctrl rp1_state :: L_ctrl graph_done_seq :: fp_hw) s s'.
Proof.
  intros E. pose proof (fp_publish_result a r s) as Hag. rewrite E in Hag.
  unfold publish_result, put_ctrl, rp1_barrier, modify, mbind, SM_bind in E.
  injection E as <- <-. split; [|split; [|done]];
    unfold set_hw, set_ctrl; cbn [ctrl];
    repeat (rewrite fn_lookup_insert || rewrite fn_lookup_insert_ne by done); done.
Qed.

Lemma execute_graph_cause fuel pf qf a s :
  wlp (execute_graph fuel pf qf a) s (fun r s' => r = -1 -> latched s').
Proof.
  unfold execute_graph. apply post_bind. eapply post_mono; [apply (wlp_keeps _ _ _ fp_begin_graph)|].
  intros [] s1 _. apply post_bind.
  eapply post_mono; [apply (wlp_keeps _ _ _ fp_rp1_store_init)|]. intros [[d x]|] s2 _.
  - apply post_bind. eapply post_mono; [by apply wlp_latch_error; vm_compute|].
    intros [] s3 Hl. apply post_bind, post_cycles. intros v h. unfold put_glob. do 2 post_step.
    by apply post_ret.
  - unfold scan_graph, put_glob, get_ctrl. apply post_bind, post_cycles. intros v h. do 4 post_step.
    apply post_bind. eapply post_mono; [apply (wlp_keeps _ _ _ (fp_trace_op _ _ _ _))|].
    intros [] s4 _. apply post_bind. eapply post_mono; [apply cause_rp1_loop|].
    intros r s5 Hr. apply post_bind.
    eapply post_mono; [apply (wlp_keeps latch_le); eapply rel_fp; [apply _|apply fp_trace_op|done]|].
    intros [] s6 Hle. apply post_ret. intros ->. by eapply latch_le_latched; [|apply Hr].
Qed.

Lemma outer_pass_idle fuel pf qf s :
  ctrl s graph_seq = ctrl s graph_done_seq ->
  outer_pass fuel pf qf s = Ret None (set_ctrl heartbeat (add32 (ctrl s heartbeat) 1) s).
Proof.
  intros Hseq. unfold outer_pass, get_ctrl, gets, mbind, SM_bind.
  destruct (_ || _); [reflexivity|]. rewrite Hseq, Z.eqb_refl. reflexivity.
Qed.

(** A pass that ran a graph: the accepted graph was executed, then published. *)
Lemma outer_pass_some fuel pf qf s r s' :
  outer_pass fuel pf qf s = Ret (Some r) s' ->
  ~ terminal s /\ ctrl s graph_seq <> ctrl s graph_done_seq /\
  exists s1, execute_graph fuel pf qf (ctrl s graph_seq) s = Ret r s1 /\
    publish_result (ctrl s graph_seq) r s1 = Ret tt s'.
Proof.
  unfold outer_pass, get_ctrl, gets, mbind, SM_bind. intros E.
  destruct (_ || _) eqn:Et; [done|].
  destruct (ctrl s graph_seq =? ctrl s graph_done_seq) eqn:Es; [done|]. bools.
  destruct (execute_graph _ _ _ _ s) as [r1 s1| |]; [|done|done].
  destruct (publish_result _ r1 s1) as [[] s2| |] eqn:Ep; [|done|done]. injection E as <- <-.
  split; [intros [?|?]; congruence|]. eauto.
Qed.

Lemma outer_pass_accept fuel pf qf s r s1 s' :
  ~ terminal s -> ctrl s graph_seq <> ctrl s graph_done_seq ->
  execute_graph fuel pf qf (ctrl s graph_seq) s = Ret r s1 ->
  publish_result (ctrl s graph_seq) r s1 = Ret tt s' ->
  outer_pass fuel pf qf s = Ret (Some r) s'.
Proof.
  intros Ht Hne Eg Ep. unfold outer_pass, get_ctrl, gets, mbind, SM_bind.
  destruct (_ || _) eqn:Et; [bools; unfold terminal in Ht; destruct_or?; bools; tauto|].
  apply Z.eqb_neq in Hne. rewrite Hne, Eg, Ep. reflexivity.
Qed.

(** Publication.  A pass that runs a graph completes exactly the sequence
    number it accepted, publishes the state that classifies the result, and a
    failed graph always has an error in the latch; the next pass is idle or
    terminal until the host submits again. *)
Theorem graph_published fuel pf qf s s' r :
  outer_pass fuel pf qf s = Ret (Some r) s' ->
  ~ terminal s /\ ctrl s graph_seq <> ctrl s graph_done_seq /\
  ctrl s' graph_done_seq = ctrl s graph_seq /\ ctrl s' graph_seq = ctrl s graph_seq /\
  ctrl s' rp1_state = terminal_state r /\ (r = -1 -> latched s') /\
  forall fuel' pf' qf', outer_pass fuel' pf' qf' s' =
    Ret None (set_ctrl heartbeat (add32 (ctrl s' heartbeat) 1) s').
Proof.
  intros E. pose proof (keeps_run _ _ _ _ _ (fp_outer_pass fuel pf qf) E) as Hfp.
  assert (Hseq : ctrl s' graph_seq = ctrl s graph_seq).
  { apply (agree_at _ (L_ctrl graph_seq) _ _ Hfp). by vm_compute. }
  destruct (outer_pass_some _ _ _ _ _ _ E) as (Ht & Hne & s1 & Eg & Ep).
  pose proof (post_run _ _ _ _ _ (execute_graph_cause _ _ _ _ _) Eg) as Hc.
  apply publish_result_run in Ep as (Hst & Hdone & Hag).
  do 5 (split; [done|]). split.
  { intros ->. eapply latch_le_latched; [|by apply Hc]. eapply agree_latch; [|exact Hag]. done. }
  intros. apply outer_pass_idle. by rewrite Hdone, Hseq.
Qed.

(** ** Rejection without side effects *)

Definition hw_quiet s s' : Prop := no_mmio (hw s) (signals s) (hw s') (signals s').

Lemma no_mmio_trans (h1 h2 h3 : HW) g1 g2 g3 : no_mmio h1 g1 h2 g2 -> no_mmio h2 g2 h3 g3 -> no_mmio h1 g1 h3 g3.
Proof. intros H12 H23. induction H23; [done|by constructor..]. Qed.

#[export] Instance hw_quiet_preorder : PreOrder hw_quiet.
Proof. split; [intros s; constructor|]. intros s1 s2 s3. apply no_mmio_trans. Qed.

Lemma quiet_agree fp s s' :
  bool_decide (L_hw ∈ fp) = false -> bool_decide (L_signals ∈ fp) = false -> agree fp s s' -> hw_quiet s s'.
Proof.
  intros Hfp Hfs Ha. unfold hw_quiet.
  rewrite (agree_at _ L_hw _ _ Ha Hfp : hw s' = hw s), (agree_at _ L_signals _ _ Ha Hfs : signals s' = signals s). constructor.
Qed.

Lemma quiet_fp {A} fp (m : SM (st HW) A) :
  writes fp m -> bool_decide (L_hw ∈ fp) = false -> bool_decide (L_signals ∈ fp) = false -> keeps hw_quiet m.
Proof.
  intros Hm Hfp Hfs. eapply keeps_mono; [done|]. intros s s'. by apply quiet_agree.
Qed.

Lemma quiet_barrier : keeps hw_quiet rp1_barrier.
Proof. intros s. unfold hw_quiet. cbn. apply no_mmio_barrier. constructor. Qed.
Lemma quiet_cycles : keeps hw_quiet rp1_cycles.
Proof.
  intros s. unfold rp1_cycles. destruct (hal_cycles (hw s)) as [v h] eqn:E. unfold hw_quiet. cbn.
  replace h with (snd (hal_cycles (hw s))) by (by rewrite E). apply no_mmio_cycles. constructor.
Qed.
Lemma quiet_host_writes : keeps hw_quiet host_writes.
Proof.
  intros s. unfold host_writes. destruct (hal_host _ _ _) as [[h rd] sigs] eqn:E.
  unfold hw_quiet. cbn. replace h with (fst (fst (hal_host (hw s) (ctrl s) (signals s)))) by (by rewrite E).
  replace sigs with (snd (hal_host (hw s) (ctrl s) (signals s))) by (by rewrite E). apply no_mmio_host. constructor.
Qed.

Ltac quiet_step :=
  first
    [ keeps_step | apply quiet_barrier | apply quiet_cycles | apply quiet_host_writes
    | eapply quiet_fp; [solve [eauto with fp nocore]|reflexivity|reflexivity] ].

Lemma quiet_write_cq_entry f i c d : keeps hw_quiet (write_cq_entry f i c d).
Proof. unfold write_cq_entry, cq_can_write. repeat quiet_step. Qed.

Lemma quiet_trace e i a b : keeps hw_quiet (trace e i a b).
Proof. unfold trace. repeat quiet_step. Qed.

(** The first packet [validate_nodes] refuses, and why. *)
Definition first_invalid (n base : Z) s (bad detail aux : Z) : Prop :=
  0 <= bad < n /\
  validate_node n (sub32 window_end base) (nodes s bad) = Some (detail, aux) /\
  forall j, 0 <= j < bad -> validate_node n (sub32 window_end base) (nodes s j) = None.

Lemma validate_from_first n base prog s bad d a k : forall i,
  Inv n base prog s -> first_invalid n base s bad d a ->
  0 <= i <= bad -> bad < i + Z.of_nat k ->
  validate_from k i n (sub32 window_end base) s = Ret (Some (bad, d, a)) s.
Proof.
  intros i HI (Hbad & Hv & Hbefore). revert i. induction k as [|k IH]; intros i Hi Hk; [lia|].
  cbn [validate_from]. unfold mbind, SM_bind. rewrite (get_node_run n base prog) by (done || lia).
  destruct (decide (i = bad)) as [->|Hne]; [by rewrite Hv|].
  rewrite Hbefore by lia. apply IH; lia.
Qed.

Lemma set_status_total nf n base prog s i v :
  Inv n base prog s -> 0 <= i < n -> (u8 v =? RP1_NODE_WAITING) = false ->
  post False nf (set_node_status i v) s (fun _ s' =>
    (Inv n base prog s' /\ agree fp_status s s') /\ node_status s' i = u8 v).
Proof.
  intros HI Hi Hv. apply post_wlp.
  - apply post_keeps; [apply fp_set_node_status|by apply mark_status_safe].
  - unfold set_node_status, put_packet_status, get_glob.
    apply post_bind, wlp_checked. intros _. do 4 post_step. apply post_bind, wlp_checked.
    intros _. post_step. cbn [node_status set_nodes set_status_array]. by rewrite fn_lookup_insert.
Qed.

(** ** Rejected configurations *)

Definition diagnosis s (code node detail aux : Z) : Prop :=
  Z.land (ctrl s rp1_error_code) RP1_ERR_CODE_MASK = code /\
  ctrl s terminal_error_node = node /\ ctrl s terminal_error_detail = detail /\
  ctrl s terminal_error_aux = aux.

Lemma latch_error_diagnosis s code node detail aux :
  ~ latched s -> Z.land code RP1_ERR_CODE_MASK = code -> code <> 0 ->
  exists s', rp1_latch_error code node detail aux s = Ret tt s' /\
    diagnosis s' code node detail aux /\ latched s' /\ agree fp_latch s s'.
Proof.
  intros Hnl Hcode Hnz. pose proof (fp_latch_error code node detail aux s) as Hf.
  destruct (rp1_latch_error code node detail aux s) as [[] s'| |] eqn:E.
  - exists s'. split; [done|]. apply latch_error_run in E as [[? _]|(_ & Ec & En & Ed & Ea)]; [done|].
    assert (Hm : Z.land (ctrl s' rp1_error_code) RP1_ERR_CODE_MASK = code).
    { rewrite Ec, Z.land_lor_distr_l, <-Z.land_assoc, Hcode.
      change (Z.land RP1_ERR_RECOVERY_REQUIRED RP1_ERR_CODE_MASK) with 0. by rewrite Z.land_0_r. }
    split; [done|]. split; [|done]. unfold latched. by rewrite Hm.
  - unfold rp1_latch_error, mbind, SM_bind in E. cbn in E. by destruct (negb _).
  - unfold rp1_latch_error, mbind, SM_bind in E. cbn in E. by destruct (negb _).
Qed.

Lemma diagnosis_kept s s' code node detail aux :
  latch_le s s' -> latched s -> diagnosis s code node detail aux ->
  diagnosis s' code node detail aux.
Proof.
  intros [Hle _] Hl (Hc & Hn & Hd & Ha). destruct (Hle Hl) as (E1 & E2 & E3 & E4).
  unfold diagnosis. by rewrite E1, E2, E3, E4.
Qed.


Lemma check_config_ext (c c' : rp1_ctrl_t) :
  (forall f, f ∈ cq_write_idx :: cq_read_idx :: config_fields -> c' f = c f) ->
  check_config c' = check_config c.
Proof.
  intros Heq. assert (Hf : Forall (fun f => c' f = c f) (cq_write_idx :: cq_read_idx :: config_fields)).
  { apply Forall_forall. intros f Hin. by apply Heq, list_elem_of_In. }
  repeat (apply Forall_cons_1 in Hf as [? Hf]). unfold check_config.
  repeat match goal with E : c' _ = _ |- _ => rewrite !E; clear E end. reflexivity.
Qed.

Lemma begin_graph_run s :
  exists s', begin_graph s = Ret tt s' /\ ctrl s' rp1_error_code = 0 /\ hw_quiet s s' /\
    agree (L_ctrl rp1_current_node :: L_ctrl rp1_state :: fp_hw ++ fp_latch) s s'.
Proof.
  assert (Hq : keeps hw_quiet begin_graph) by (unfold begin_graph; repeat quiet_step).
  assert (E : begin_graph s = Ret tt (final begin_graph s)) by reflexivity.
  exists (final begin_graph s). split; [exact E|]. split; [reflexivity|].
  split; [exact (keeps_run _ _ _ _ _ Hq E)|exact (keeps_run _ _ _ _ _ fp_begin_graph E)].
Qed.

Lemma execute_invalid_config fuel pf qf seq s d a :
  check_config (ctrl s) = Some (d, a) ->
  exists s', execute_graph fuel pf qf seq s = Ret (-1) s' /\ latched s' /\
    diagnosis s' RP1_ERR_INVALID_CONFIG RP1_TERMINAL_ERROR_NODE_NONE d a /\ hw_quiet s s' /\
    agree (L_ctrl rp1_current_node :: L_ctrl rp1_state :: L_glob g_graph_start_cycles ::
      fp_hw ++ fp_latch) s s'.
Proof.
  intros Hcfg. destruct (begin_graph_run s) as (s1 & E1 & Hc1 & Hq1 & Ha1).
  assert (Hcfg1 : check_config (ctrl s1) = Some (d, a)).
  { rewrite <-Hcfg. apply check_config_ext. intros f Hf.
    apply (agree_disjoint (map L_ctrl (cq_write_idx :: cq_read_idx :: config_fields)) _
      (L_ctrl f) _ _ Ha1); [|done]. by apply list_elem_of_fmap_2. }
  destruct (latch_error_diagnosis s1 RP1_ERR_INVALID_CONFIG RP1_TERMINAL_ERROR_NODE_NONE d a)
    as (s2 & E2 & Hd2 & Hl2 & Ha2); [by intros Hl; apply Hl; rewrite Hc1|done|done|].
  destruct (hal_cycles (hw s2)) as [v h] eqn:Eh.
  exists (set_glob g_graph_start_cycles (u32 v) (set_hw h s2)).
  split; [|split; [done|split; [done|split]]].
  - unfold execute_graph, mbind, SM_bind. rewrite E1. unfold rp1_store_init, mbind, SM_bind, gets.
    rewrite Hcfg1. cbn [mret SM_ret]. rewrite E2. unfold rp1_cycles. by rewrite Eh.
  - etrans; [exact Hq1|]. etrans; [eapply quiet_agree, Ha2; reflexivity|]. unfold hw_quiet. cbn.
    replace h with (snd (hal_cycles (hw s2))) by (by rewrite Eh). apply no_mmio_cycles. constructor.
  - etrans; [eapply agree_mono, Ha1; reflexivity|].
    etrans; [eapply agree_mono, Ha2; reflexivity|].
    etrans; [eapply agree_mono, agree_set_hw; reflexivity|].
    eapply agree_mono, agree_set_glob; reflexivity.
Qed.

(** A configuration that fails a check of [rp1_store_init] ends the graph
    before anything of it is used: the pass returns -1, publishes ERROR and
    the accepted sequence, names the failed check in the latch, and touches
    neither registers nor packets, signals, completion queue or BTCM state. *)
Theorem invalid_config_rejected fuel pf qf s d a :
  ~ terminal s -> ctrl s graph_seq <> ctrl s graph_done_seq ->
  check_config (ctrl s) = Some (d, a) ->
  exists s', outer_pass fuel pf qf s = Ret (Some (-1)) s' /\
    ctrl s' rp1_state = RP1_STATE_ERROR /\ ctrl s' graph_done_seq = ctrl s graph_seq /\
    diagnosis s' RP1_ERR_INVALID_CONFIG RP1_TERMINAL_ERROR_NODE_NONE d a /\
    hw_quiet s s' /\
    forall l, l ∈ [L_barriers; L_status; L_loops; L_inflight; L_packets; L_cq; L_signals; L_args;
                   L_trace; L_ddr; L_ctrl cq_write_idx; L_glob g_nodes; L_glob g_cq;
                   L_glob g_signals; L_glob g_arg_buf; L_glob g_trace] -> same_at l s s'.
Proof.
  intros Ht Hseq Hcfg.
  destruct (execute_invalid_config fuel pf qf (ctrl s graph_seq) s d a Hcfg)
    as (s3 & E3 & Hl3 & Hd3 & Hq3 & Ha3).
  assert (E4 : publish_result (ctrl s graph_seq) (-1) s3 =
    Ret tt (final (publish_result (ctrl s graph_seq) (-1)) s3)) by reflexivity.
  set (s4 := final _ s3) in E4. clearbody s4.
  destruct (publish_result_run _ _ _ _ _ E4) as (Hst & Hdone & Ha4).
  assert (Hq4 : keeps hw_quiet (publish_result (ctrl s graph_seq) (-1)))
    by (unfold publish_result; repeat quiet_step).
  apply (keeps_run _ _ _ _ _ Hq4) in E4 as Hq. exists s4.
  split; [by eapply outer_pass_accept|]. split; [done|]. split; [done|].
  split; [|split].
  - eapply diagnosis_kept; [|exact Hl3|exact Hd3]. eapply agree_latch, Ha4. reflexivity.
  - by etrans.
  - intros l Hl. etrans; (eapply agree_disjoint; [|exact Hl|]); [exact Ha3|done|exact Ha4|done].
Qed.

Context `{!CqHost HW}.

(** Publishing the forced CQ error of a rejected graph, with ring space. *)
Lemma publish_rejection_total fuel n base prog s bad d :
  Inv n base prog s -> cq_ok s -> cq_used s < ctrl s cq_size ->
  total (publish_rejection (S fuel) bad d) s (fun _ s' =>
    Inv n base prog s' /\ hw_quiet s s' /\ agree fp_cq s s' /\ latch_le s s' /\
    exists e k, evidence bad RP1_CQ_ERROR d e /\
      cq_contents s' = drop k (cq_contents s) ++ [e]).
Proof using CqHost0.
  intros HI Hok Hlt. cbn [publish_rejection]. apply post_bind.
  pose proof (write_cq_entry_safe n base prog False s 0 bad RP1_CQ_ERROR d HI) as Hs.
  pose proof (write_cq_entry_spec 0 bad RP1_CQ_ERROR d s Hok) as Hc.
  pose proof (quiet_write_cq_entry 0 bad RP1_CQ_ERROR d s) as Hq.
  pose proof (fp_write_cq_entry 0 bad RP1_CQ_ERROR d s) as Hf.
  pose proof (sr_write_cq_entry (R := latch_le) 0 bad RP1_CQ_ERROR d s) as Hl.
  unfold post at 1. unfold post in Hs, Hc. destruct (write_cq_entry _ _ _ _ s); [|done|done].
  destruct Hc as (_ & [[_ Hfull]|[-> He]]); [lia|]. by apply post_ret.
Qed.

(** The statuses after one was set. *)
Lemma set_status_others i v s s' u : set_node_status i v s = Ret u s' -> node_status s' = <[i := u8 v]> (node_status s).
Proof.
  intros E. assert (Hw : wlp (set_node_status i v) s (fun _ s' => node_status s' = <[i := u8 v]> (node_status s))).
  { unfold set_node_status, put_packet_status, get_glob. apply post_bind, wlp_checked. intros _. do 4 post_step.
    apply post_bind, wlp_checked. intros _. by post_step. }
  exact (post_run _ _ _ _ _ Hw E).
Qed.

(** What the scanner does with a graph that has an unacceptable packet. *)
Record rejected (bad d a : Z) s s' : Prop := {
  rj_quiet : hw_quiet s s';
  rj_diagnosis : diagnosis s' RP1_ERR_INVALID_NODE bad d a;
  rj_latched : latched s';
  rj_status : node_status s' = <[bad := RP1_NODE_ERROR]> (node_status s);
  rj_entry : exists e k, evidence bad RP1_CQ_ERROR d e /\ cq_contents s' = drop k (cq_contents s) ++ [e];
  rj_frame : agree (fp_latch ++ fp_status ++ fp_cq) s s'
}.

Lemma rp1_loop_rejects fuel pf qf n base prog s bad d a :
  Inv n base prog s -> ctrl s node_count = n -> first_invalid n base s bad d a ->
  ~ latched s -> cq_ok s -> cq_used s < ctrl s cq_size ->
  total (rp1_loop (S fuel) pf qf) s (fun r s' => r = -1 /\ Inv n base prog s' /\ rejected bad d a s s').
Proof using CqHost0.
  intros HI Hn Hfirst Hnl Hok Hlt. unfold rp1_loop, validate_nodes, get_ctrl.
  do 2 post_step. rewrite Hn. apply post_bind. do 2 post_step.
  destruct (inv_cfg _ _ _ _ HI) as (Hn2 & _ & _ & _ & _ & Hbase & _). rewrite Hbase.
  unfold post at 1. fold window_end. destruct Hfirst as (Hbad & Hrest).
  rewrite (validate_from_first n base prog s bad d a) by (done || lia).
  destruct (latch_error_diagnosis s RP1_ERR_INVALID_NODE bad d a) as (s1 & E1 & Hd1 & Hl1 & Ha1);
    [done|done|done|]. apply post_bind. unfold post at 1. rewrite E1.
  assert (HI1 : Inv n base prog s1).
  { pose proof (rp1_latch_error_safe n base prog True s RP1_ERR_INVALID_NODE bad d a HI) as H1.
    unfold post in H1. by rewrite E1 in H1. }
  apply post_bind. pose proof (set_status_total False n base prog s1 bad RP1_NODE_ERROR HI1 Hbad eq_refl) as Hset.
  unfold post in Hset |- * at 1. destruct (set_node_status bad RP1_NODE_ERROR s1) as [[] s2| |] eqn:E2; [|done|done].
  destruct Hset as ((HI2 & Ha2) & _). apply set_status_others in E2 as Hst.
  rewrite (agree_at _ L_status _ _ Ha1 eq_refl : node_status s1 = node_status s) in Hst.
  assert (Ha12 : agree (fp_latch ++ fp_status) s s2).
  { etrans; eapply agree_mono; [|exact Ha1| |exact Ha2]; reflexivity. }
  assert (Hr2 := agree_ring (fp_latch ++ fp_status) _ _ eq_refl Ha12). destruct (ring_eq _ _ Hr2) as (Hu2 & Hc2 & Hok2).
  apply post_bind. eapply post_mono.
  { apply (publish_rejection_total fuel n base prog s2); [done|auto|].
    destruct Hr2 as (_ & _ & _ & ->). by rewrite Hu2. }
  intros [] s3 (HI3 & Hq3 & Ha3 & Hl3 & He). apply post_ret. split; [done|]. split; [done|].
  assert (Hl13 : latch_le s1 s3) by (etrans; [|exact Hl3]; eapply agree_latch; [|exact Ha2]; done).
  split.
  - etrans; [|exact Hq3]. by eapply quiet_agree, Ha12.
  - by eapply diagnosis_kept; [exact Hl13|exact Hl1|exact Hd1].
  - by eapply latch_le_latched.
  - by rewrite (agree_at _ L_status _ _ Ha3 eq_refl : node_status s3 = node_status s2).
  - by rewrite Hc2 in He.
  - etrans; eapply agree_mono; [|exact Ha12| |exact Ha3]; reflexivity.
Qed.

Lemma first_invalid_ext n base s s' bad d a :
  (forall i, 0 <= i < n -> same_packet (nodes s' i) (nodes s i)) ->
  first_invalid n base s bad d a -> first_invalid n base s' bad d a.
Proof.
  intros Hsame (Hbad & Hv & Hbefore).
  assert (Heq : forall i, 0 <= i < n -> validate_node n (sub32 window_end base) (nodes s' i) =
    validate_node n (sub32 window_end base) (nodes s i)).
  { intros i Hi. destruct (same_packet_fields _ _ (Hsame i Hi)) as (Ho & Hf & Hp & _ & _ & Hab & Hsb).
    unfold validate_node. by rewrite Ho, Hf, Hp, Hab, Hsb. }
  split; [done|]. split; [by rewrite Heq|]. intros j Hj. rewrite Heq by lia. by apply Hbefore.
Qed.

Lemma trace_total n base prog ev i x y s :
  Inv n base prog s -> total (trace ev i x y) s (fun _ s' => Inv n base prog s' /\ agree fp_trace s s' /\ hw_quiet s s').
Proof.
  intros HI. pose proof (trace_safe n base prog False s ev i x y HI) as Hs.
  pose proof (fp_trace_op ev i x y s) as Hf. pose proof (quiet_trace ev i x y s) as Hq.
  unfold post in *. by destruct (trace ev i x y s).
Qed.

Lemma cycles_total n base prog s : Inv n base prog s ->
  total rp1_cycles s (fun _ s' => Inv n base prog s' /\ agree fp_hw s s' /\ hw_quiet s s').
Proof.
  intros HI. pose proof (fp_cycles s) as Hf. pose proof (quiet_cycles s) as Hq.
  assert (Hs : total rp1_cycles s (fun _ s' => Inv n base prog s')) by (apply post_cycles; intros; eauto with rp1safe).
  unfold post in *. by destruct (rp1_cycles s).
Qed.

(** The scan of a rejected graph between its trace events. *)
Lemma scan_graph_rejects fuel pf qf seq n base prog s bad d a :
  Inv n base prog s -> ctrl s node_count = n -> first_invalid n base s bad d a ->
  ~ latched s -> cq_ok s -> cq_used s < ctrl s cq_size ->
  total (scan_graph (S fuel) pf qf seq) s (fun r s' => r = -1 /\ exists s1 s2,
    agree (L_glob g_graph_start_cycles :: fp_trace) s s1 /\ hw_quiet s s1 /\ rejected bad d a s1 s2 /\
    agree fp_trace s2 s' /\ hw_quiet s2 s').
Proof using CqHost0.
  intros HI Hn Hfirst Hnl Hok Hlt. unfold scan_graph, put_glob, get_ctrl. apply post_bind.
  eapply post_mono; [by eapply cycles_total|]. intros v s1 (HI1 & Ha1 & Hq1). do 4 post_step. apply post_bind.
  set (s2 := set_glob g_graph_start_cycles v s1).
  assert (HI2 : Inv n base prog s2) by (unfold s2; eauto with rp1safe).
  eapply post_mono; [by eapply trace_total|]. intros [] s3 (HI3 & Ha3 & Hq3).
  assert (Ha13 : agree (L_glob g_graph_start_cycles :: fp_trace) s s3).
  { etrans; [eapply agree_mono, Ha1; reflexivity|]. etrans; [apply (agree_mono [L_glob g_graph_start_cycles]), agree_set_glob; reflexivity|].
    eapply agree_mono, Ha3. reflexivity. }
  assert (Hq13 : hw_quiet s s3) by (etrans; [exact Hq1|exact Hq3]).
  assert (Hr := agree_ring (L_glob g_graph_start_cycles :: fp_trace) _ _ eq_refl Ha13). destruct (ring_eq _ _ Hr) as (Hu & Hc & Hk).
  apply post_bind. eapply post_mono; [apply (rp1_loop_rejects fuel pf qf n base prog s3 bad d a); try done|].
  - rewrite <-Hn. exact (agree_node_count (L_glob g_graph_start_cycles :: fp_trace) _ _ eq_refl Ha13).
  - eapply first_invalid_ext; [|exact Hfirst]. intros i Hi. exact (agree_at _ L_image _ _ Ha13 eq_refl i).
  - intros Hl. apply Hnl. unfold latched in *. by rewrite <-(agree_at _ (L_ctrl rp1_error_code) _ _ Ha13 eq_refl : ctrl s3 rp1_error_code = ctrl s rp1_error_code).
  - by apply Hk.
  - destruct Hr as (_ & _ & _ & ->). by rewrite Hu.
  - intros r s4 (-> & HI4 & Hrej). apply post_bind. eapply post_mono; [by eapply trace_total|].
    intros [] s5 (_ & Ha5 & Hq5). apply post_ret. split; [done|]. by exists s3, s4.
Qed.

Lemma store_init_accepts s r s' : check_config (ctrl s) = None -> rp1_store_init s = Ret r s' -> r = None.
Proof.
  intros Hcfg E. assert (Hany : forall A (m : SM (st HW) A) s0, wlp m s0 (fun _ _ => True)) by (intros; unfold post; by destruct (m _)).
  assert (Hw : wlp rp1_store_init s (fun r _ => r = None)).
  { unfold rp1_store_init. do 2 post_step. rewrite Hcfg.
    repeat (apply post_bind; eapply post_mono; [apply Hany|intros ? ? _]). by apply post_ret. }
  exact (post_run _ _ _ _ _ Hw E).
Qed.

(** Accepting the configuration: a reset store. *)
Lemma store_init_total s :
  config_words (ctrl s) -> check_config (ctrl s) = None ->
  exists s', rp1_store_init s = Ret None s' /\ Inv (ctrl s node_count) (ctrl s arg_buf_base_lo) (nodes s) s' /\
    agree fp_store_init s s' /\ node_status s' = (fun _ => 0) /\ barriers s' = (fun _ => 0) /\
    loop_iters s' = (fun _ => 0) /\ inflight s' = [].
Proof.
  intros Hc Hcfg. pose proof (rp1_store_init_inv (nf := False) s Hc) as Hi. pose proof (fp_rp1_store_init s) as Hf.
  unfold post in Hi. destruct (rp1_store_init s) as [r s'| |] eqn:E; [|done|done].
  rewrite (store_init_accepts _ _ _ Hcfg E) in *. destruct Hi as (_ & HI & Ha). exists s'. split_and!; try done.
  - exact (agree_at _ L_status _ _ Ha eq_refl).
  - exact (agree_at _ L_barriers _ _ Ha eq_refl).
  - exact (agree_at _ L_loops _ _ Ha eq_refl).
  - exact (agree_at _ L_inflight _ _ Ha eq_refl).
Qed.

(** A pass that rejects a graph before it is published. *)
Lemma execute_graph_rejects fuel pf qf seq s bad d a :
  config_words (ctrl s) -> check_config (ctrl s) = None ->
  first_invalid (ctrl s node_count) (ctrl s arg_buf_base_lo) s bad d a ->
  cq_ok s -> cq_used s < ctrl s cq_size ->
  total (execute_graph (S fuel) pf qf seq) s (fun r s' => r = -1 /\ hw_quiet s s' /\
    diagnosis s' RP1_ERR_INVALID_NODE bad d a /\ latched s' /\
    node_status s' = <[bad := RP1_NODE_ERROR]> (fun _ => RP1_NODE_PENDING) /\
    (exists e k, evidence bad RP1_CQ_ERROR d e /\ cq_contents s' = drop k (cq_contents s) ++ [e]) /\
    barriers s' = (fun _ => 0) /\ loop_iters s' = (fun _ => 0) /\ inflight s' = [] /\
    forall l, l ∈ [L_image; L_args; L_ddr; L_ctrl graph_seq] ++ map L_ctrl config_fields -> same_at l s s').
Proof using CqHost0.
  intros Hc Hcfg Hfirst Hok Hlt. destruct (begin_graph_run s) as (s1 & E1 & Hc1 & Hq1 & Ha1).
  set (fp1 := L_ctrl rp1_current_node :: L_ctrl rp1_state :: fp_hw ++ fp_latch) in *.
  assert (Hf1 : forall f, f ∈ cq_write_idx :: cq_read_idx :: config_fields -> ctrl s1 f = ctrl s f).
  { intros f Hf. apply (agree_disjoint (map L_ctrl (cq_write_idx :: cq_read_idx :: config_fields)) _
      (L_ctrl f) _ _ Ha1); [by apply list_elem_of_fmap_2|done]. }
  destruct (store_init_total s1) as (s2 & E2 & HI2 & Ha2 & Hst2 & Hb2 & Hlo2 & Hin2);
    [by eapply (agree_config_words fp1)|by rewrite (check_config_ext (ctrl s))|].
  rewrite !Hf1 in HI2 by (apply (bool_decide_unpack _); by vm_compute). unfold execute_graph. apply post_bind. unfold post at 1. rewrite E1.
  apply post_bind. unfold post at 1. rewrite E2.
  assert (Ha12 : agree (fp1 ++ fp_store_init) s s2) by (etrans; eapply agree_mono; [|exact Ha1| |exact Ha2]; reflexivity).
  assert (Hr := agree_ring (fp1 ++ fp_store_init) _ _ eq_refl Ha12). destruct (ring_eq _ _ Hr) as (Hu & Hcc & Hk).
  eapply post_mono; [apply (scan_graph_rejects fuel pf qf seq _ _ _ s2 bad d a HI2)|].
  - exact (agree_node_count (fp1 ++ fp_store_init) _ _ eq_refl Ha12).
  - eapply first_invalid_ext; [|exact Hfirst]. intros i Hi. exact (agree_at _ L_image _ _ Ha12 eq_refl i).
  - intros Hl. apply Hl. by rewrite (agree_at _ (L_ctrl rp1_error_code) _ _ Ha2 eq_refl : ctrl s2 rp1_error_code = ctrl s1 rp1_error_code), Hc1.
  - by apply Hk.
  - destruct Hr as (_ & _ & _ & ->). by rewrite Hu.
  - intros r s5 (-> & s3 & s4 & Ha3 & Hq3 & [Hq4 Hd4 Hl4 Hs4 He4 Ha4] & Ha5 & Hq5). split; [done|].
    assert (Hr3 := agree_ring (L_glob g_graph_start_cycles :: fp_trace) _ _ eq_refl Ha3). destruct (ring_eq _ _ Hr3) as (_ & Hc3 & _).
    assert (Hr5 := agree_ring fp_trace _ _ eq_refl Ha5). destruct (ring_eq _ _ Hr5) as (_ & Hc5 & _).
    assert (Hag : agree ((L_glob g_graph_start_cycles :: fp_trace) ++ fp_latch ++ fp_status ++ fp_cq) s2 s5).
    { etrans; [eapply agree_mono, Ha3; reflexivity|]. etrans; [eapply agree_mono, Ha4; reflexivity|]. eapply agree_mono, Ha5. reflexivity. }
    assert (Hle : latch_le s4 s5) by (eapply agree_latch, Ha5; reflexivity). split_and!.
    + etrans; [exact Hq1|]. etrans; [eapply quiet_agree, Ha2; reflexivity|]. etrans; [exact Hq3|]. by etrans.
    + by eapply diagnosis_kept.
    + by eapply latch_le_latched.
    + rewrite (agree_at _ L_status _ _ Ha5 eq_refl : node_status s5 = node_status s4), Hs4.
      by rewrite (agree_at _ L_status _ _ Ha3 eq_refl : node_status s3 = node_status s2), Hst2.
    + destruct He4 as (e & k & He & Hcont). exists e, k. by rewrite Hc5, Hcont, Hc3, Hcc.
    + by rewrite (agree_at _ L_barriers _ _ Hag eq_refl : barriers s5 = barriers s2).
    + by rewrite (agree_at _ L_loops _ _ Hag eq_refl : loop_iters s5 = loop_iters s2).
    + by rewrite (agree_at _ L_inflight _ _ Hag eq_refl : inflight s5 = inflight s2).
    + intros l Hl. etrans; (eapply agree_disjoint; [|exact Hl|]); [exact Ha12|done|exact Hag|done].
Qed.


End outcome.

(** ** Concrete runs *)

Lemma chain_packets_ok : packets_ok (submitted chain).
Proof.
  intros i Hi. change (0 <= i < 3) in Hi. assert (i = 0 \/ i = 1 \/ i = 2) as [->|[->| ->]] by lia;
    (split; [done|split; [done|]]); vm_compute; repeat constructor; discriminate.
Qed.


(** After a malformed graph the host rings the doorbell again: the firmware
    only counts its heartbeat. *)
Lemma terminal_is_final_witness :
  exists s s', terminal (HW := fabric) s /\ later s s' /\ ctrl s' graph_seq = 2 /\
    ctrl s' rp1_state = RP1_STATE_ERROR /\
    outer_pass 9 9 9 s' = Ret None (set_ctrl heartbeat (add32 (ctrl s' heartbeat) 1) s').
Proof.
  set (s := final (outer_pass 3 3 3) (final rp1_startup (submitted malformed))).
  assert (terminal s) as T by (left; vm_compute; reflexivity).
  assert (later s (set_ctrl graph_seq 2 s)) as L.
  { eapply later_host; [apply later_now|]. split; [|split].
    - eapply agree_mono; [|apply agree_set_ctrl]. reflexivity.
    - repeat constructor; vm_compute; discriminate || reflexivity.
    - intros i Hi. change (0 <= i < 2) in Hi. assert (i = 0 \/ i = 1) as [->| ->] by lia;
        vm_compute; repeat constructor; discriminate. }
  exists s, (set_ctrl graph_seq 2 s). split; [exact T|]. split; [exact L|].
  split; [reflexivity|]. destruct (terminal_is_final _ _ T L) as [_ F]. split; [|apply F].
  vm_compute. reflexivity.
Defined.

(** The chain runs to completion and is published. *)
Lemma graph_published_witness :
  exists s s', outer_pass (HW := fabric) 20 5 5 s = Ret (Some 0) s' /\
    ctrl s' graph_done_seq = 1 /\ ctrl s' rp1_state = RP1_STATE_READY /\
    outer_pass 1 1 1 s' = Ret None (set_ctrl heartbeat (add32 (ctrl s' heartbeat) 1) s').
Proof.
  set (s := final rp1_startup (submitted chain)).
  assert (outer_pass 20 5 5 s = Ret (Some 0) (final (outer_pass 20 5 5) s)) as E.
  { destruct (returns_final (outer_pass 20 5 5) s) as [r E]; [by vm_compute|].
    rewrite E. f_equal. apply (f_equal (fun x => match x with Ret a _ => a | _ => None end)) in E.
    rewrite <- E. vm_compute. reflexivity. }
  exists s, (final (outer_pass 20 5 5) s). split; [exact E|].
  destruct (graph_published _ _ _ _ _ _ E) as (_ & _ & Hd & _ & Hs & _ & Hi).
  split; [rewrite Hd; vm_compute; reflexivity|]. split; [exact Hs|apply Hi].
Defined.

(** An empty graph. *)
Lemma invalid_config_rejected_witness :
  exists s', outer_pass 1 1 1 (submitted []) = Ret (Some (-1)) s' /\
    ctrl s' rp1_state = RP1_STATE_ERROR /\ ctrl s' graph_done_seq = 1 /\
    diagnosis s' RP1_ERR_INVALID_CONFIG RP1_TERMINAL_ERROR_NODE_NONE RP1_CONFIG_NODE_COUNT 0.
Proof.
  destruct (invalid_config_rejected 1 1 1 (submitted []) RP1_CONFIG_NODE_COUNT 0)
    as (s' & E & Hs & Hd & Hg & _).
  - intros [T|T]; vm_compute in T; discriminate.
  - vm_compute. discriminate.
  - reflexivity.
  - exists s'. split; [exact E|]. split; [exact Hs|]. split; [|exact Hg]. rewrite Hd. reflexivity.
Defined.

