(* ===== verification/Rp1Progress.v ===== *)
(** * Termination of the scan

    The dispatch loop of rp1_loop.c has no bound of its own: it runs until no
    node can make progress.  This file proves that it ends.  What it needs
    from the outside is stated as [Responsive]: a kernel is found busy and
    within its deadline only a bounded number of times (it finishes, or the
    clock reaches its timeout), and the host leaves room in the completion
    queue.  Then a graph of kernels and immediate packets ends within an
    explicit number of passes, whatever its dependencies: every pass starts or
    finishes a node, or brings every kernel in flight closer to its end.  Hence
    every submission is answered. *)

From S2P Require Import Prelude Rp1Protocol Rp1Store Rp1Loop Rp1Frame Rp1Fixture Rp1Safety.
From S2P Require Import Rp1Order Rp1Run.

(** ** The environment *)

Class Responsive (HW : Type) `{!Hal HW} (rank : HW -> rp1_inflight_t -> nat) (B : nat) : Prop := {
  rank_bound h k : (rank h k <= B)%nat;
  rank_read a h k : (rank (hal_read32 a h).2 k <= rank h k)%nat;
  rank_write a v h k : (rank (hal_write32 a v h) k <= rank h k)%nat;
  rank_barrier h k : (rank (hal_barrier h) k <= rank h k)%nat;
  rank_cycles h k : (rank (hal_cycles h).2 k <= rank h k)%nat;
  rank_host h c sigs k : (rank (hal_host h c sigs).1.1 k <= rank h k)%nat;
  (* a poll that finds the kernel neither done nor timed out brings it closer *)
  rank_poll h k :
    let '(v, h1) := hal_read32 (if_base_addr k) h in
    let '(now, h2) := hal_cycles h1 in
    has_flag (u32 v) 0x2 = false ->
    rp1_timeout_elapsed (if_timeout_start k) (if_timeout_cycles k) (u32 now) = false ->
    (rank h2 k < rank h k)%nat;
  (* the host keeps a slot of the completion queue free *)
  host_drains h c sigs :
    0 < c cq_size -> sub32 (c cq_write_idx) (u32 (hal_host h c sigs).1.2) < c cq_size
}.

Section mild.
Context {HW : Type} `{!Hal HW} `{!Platform} (rank : HW -> rp1_inflight_t -> nat) (B : nat).
Context `{!Responsive HW rank B}.
Implicit Types s : st HW.

Definition calm s s' : Prop := forall k, (rank (hw s') k <= rank (hw s) k)%nat.

#[export] Instance calm_preorder : PreOrder calm.
Proof. split; [by intros s k|]. intros s1 s2 s3 H1 H2 k. etrans; [apply H2|apply H1]. Qed.

Lemma calm_hw s s' : hw s' = hw s -> calm s s'.
Proof. intros E k. by rewrite E. Qed.

(** [m] returns or meets undefined behaviour, and raises no rank. *)
Definition mild {A} (m : SM (st HW) A) : Prop := forall s, post True False m s (fun _ s' => calm s s').

Lemma mild_ret {A} (a : A) : mild (mret a).
Proof. by intros s k. Qed.
Lemma mild_gets {A} (f : st HW -> A) : mild (gets f).
Proof. by intros s k. Qed.
Lemma mild_modify f : (forall s, hw (f s) = hw s) -> mild (modify f).
Proof. intros Hf s. by apply post_modify, calm_hw. Qed.
Lemma mild_checked b : mild (checked b).
Proof. intros s. by apply wlp_checked. Qed.
Lemma mild_bind {A C} (m : SM (st HW) A) (k : A -> SM (st HW) C) :
  mild m -> (forall a, mild (k a)) -> mild (m ≫= k).
Proof.
  intros Hm Hk s. apply post_bind. eapply post_mono; [apply Hm|]. intros a s1 H1.
  eapply post_mono; [apply Hk|]. intros c s2 H2. by transitivity s1.
Qed.
Lemma mild_if {A} (b : bool) (m1 m2 : SM (st HW) A) : mild m1 -> mild m2 -> mild (if b then m1 else m2).
Proof. by destruct b. Qed.
Lemma mild_when (b : bool) (m : SM (st HW) unit) : mild m -> mild (when b m).
Proof. intros Hm. destruct b; [done|by intros s k]. Qed.
Lemma mild_for_up n body : (forall i, mild (body i)) -> forall lo, mild (for_up n lo body).
Proof.
  intros Hb. induction n as [|n IH]; intros lo; cbn [for_up]; [apply mild_ret|].
  by apply mild_bind.
Qed.

Lemma mild_read a : mild (rp1_mmio_read32 a).
Proof using Responsive0.
  intros s. unfold rp1_mmio_read32, post. pose proof (rank_read a (hw s)) as Hr.
  by destruct (hal_read32 a (hw s)).
Qed.
Lemma mild_write a v : mild (rp1_mmio_write32 a v).
Proof using Responsive0. intros s k. apply rank_write. Qed.
Lemma mild_barrier : mild rp1_barrier.
Proof using Responsive0. intros s k. apply rank_barrier. Qed.
Lemma mild_cycles : mild rp1_cycles.
Proof using Responsive0.
  intros s. unfold rp1_cycles, post. pose proof (rank_cycles (hw s)) as Hr.
  by destruct (hal_cycles (hw s)).
Qed.
Lemma mild_host : mild host_writes.
Proof using Responsive0.
  intros s. unfold host_writes, post. pose proof (rank_host (hw s) (ctrl s) (signals s)) as Hr.
  by destruct (hal_host _ _ _) as [[??]?].
Qed.
End mild.

Create HintDb mild.
#[export] Hint Resolve mild_read mild_write mild_barrier mild_cycles mild_host : mild.

Ltac mild_step :=
  first
    [ solve [eauto with mild nocore]
    | lazymatch goal with
      | |- mild _ (mret _) => apply mild_ret
      | |- mild _ (gets _) => apply mild_gets
      | |- mild _ (checked _) => apply mild_checked
      | |- mild _ (modify _) => apply mild_modify; intros ?; reflexivity
      | |- mild _ (_ ≫= _) => apply mild_bind; [|intros ?]
      | |- mild _ (when _ _) => apply mild_when
      | |- mild _ (for_up _ _ _) => apply mild_for_up; intros ?
      | |- mild _ (if _ then _ else _) => apply mild_if
      | |- mild _ (match ?x with _ => _ end) => destruct x
      end ].
Ltac mild_go := repeat mild_step.

(** ** The state the argument is about *)

(** The locations that decide what is left to do. *)
Definition avoids_work (fp : list loc) : bool :=
  forallb (fun l => bool_decide (l ∉ fp))
    [L_status; L_packets; L_inflight; L_ctrl cq_size; L_glob g_cq_blocked].

(** Only kernels and packets that complete at once. *)
Definition plain (n : Z) (prog : Z -> rp1_node_t) : Prop :=
  forall i, 0 <= i < n ->
    match opcode_of (node_opcode (prog i)) with
    | Some (LOOP | COND | RERUN | WAIT | PDI_LOAD) => False
    | _ => True
    end.

Section work.
Context {HW : Type} `{!Hal HW} `{!Platform} (rank : HW -> rp1_inflight_t -> nat) (B : nat).
Context `{!Responsive HW rank B}.
Context (n : Z) (prog : Z -> rp1_node_t) (Hplain : plain n prog).
Implicit Types s : st HW.
Abbreviation mild := (mild rank).
Abbreviation calm := (calm rank).
Abbreviation ends m s Q := (post True False m s Q).

Lemma mild_cq_can_write f : mild (cq_can_write f).
Proof using Responsive0. unfold cq_can_write, rp1_latch_error, get_ctrl, put_ctrl. mild_go. Qed.
Hint Resolve mild_cq_can_write : mild.
Lemma mild_write_cq_entry f i c d : mild (write_cq_entry f i c d).
Proof using Responsive0. unfold write_cq_entry, put_cq, get_ctrl, get_glob, put_ctrl. mild_go. Qed.
Lemma mild_trace e i a b : mild (trace e i a b).
Proof using Responsive0. unfold trace, put_trace, get_ctrl, get_glob, put_ctrl. mild_go. Qed.
Lemma mild_latch_error c i d a : mild (rp1_latch_error c i d a).
Proof. unfold rp1_latch_error, get_ctrl, put_ctrl. mild_go. Qed.
Lemma mild_mark_recovery : mild rp1_mark_recovery_required.
Proof. unfold rp1_mark_recovery_required, get_ctrl, put_ctrl. mild_go. Qed.
Lemma mild_raise_barrier b m : mild (raise_barrier b m).
Proof. unfold raise_barrier. mild_go. Qed.
Lemma mild_launch_kernel node : mild (launch_kernel node).
Proof using Responsive0. unfold launch_kernel, get_arg_word, get_glob. mild_go. Qed.
Lemma mild_scalar_writes ws : mild (scalar_writes ws).
Proof using Responsive0. induction ws as [|w ws IH]; cbn [scalar_writes]; mild_go. Qed.
Hint Resolve mild_scalar_writes : mild.
Lemma mild_execute_immediate node i : mild (execute_immediate node i).
Proof using Responsive0.
  unfold execute_immediate, get_signal, put_signal, signal_ok, ddr_load, ddr_store, get_glob. mild_go.
Qed.
Lemma mild_bump_heartbeat : mild bump_heartbeat.
Proof. unfold bump_heartbeat, get_ctrl, put_ctrl. mild_go. Qed.
Lemma mild_put_ctrl f v : mild (put_ctrl f v).
Proof. unfold put_ctrl. mild_go. Qed.
Hint Resolve mild_write_cq_entry mild_trace mild_latch_error mild_mark_recovery mild_raise_barrier
  mild_launch_kernel mild_execute_immediate mild_bump_heartbeat mild_put_ctrl : mild.

(** Nothing that is left to do changed, and no kernel moved away from its end. *)
Record Quiet s s' : Prop := {
  q_calm : calm s s';
  q_status : node_status s' = node_status s;
  q_nodes : nodes s' = nodes s;
  q_inflight : inflight s' = inflight s;
  q_cq_size : ctrl s' cq_size = ctrl s cq_size;
  q_blocked : glob s' g_cq_blocked = glob s g_cq_blocked
}.

#[export] Instance Quiet_preorder : PreOrder Quiet.
Proof.
  split; [by intros s; split|]. intros s1 s2 s3 [] []. split; [by transitivity s2|congruence..].
Qed.

Lemma quiet_op {A} fp (m : SM (st HW) A) s :
  mild m -> writes fp m -> avoids_work fp = true -> ends m s (fun _ s' => Quiet s s').
Proof.
  intros Hm Hw Ha. eapply post_mono; [apply (post_keeps (agree fp)), Hm; exact Hw|].
  intros a s' [Hc Hag]. unfold avoids_work in Ha. cbn [forallb] in Ha. bools.
  repeat match goal with H : bool_decide _ = true |- _ => apply bool_decide_eq_true in H end.
  split; [done|by apply (Hag L_status)|by apply (Hag L_packets)|by apply (Hag L_inflight)|
          by apply (Hag (L_ctrl cq_size))|by apply (Hag (L_glob g_cq_blocked))].
Qed.

Lemma wlp_tail {A C} (m : SM (st HW) A) (k : A -> SM (st HW) C) s Q :
  (forall a s', wlp (k a) s' Q) -> wlp (m ≫= k) s Q.
Proof. intros Hk. apply post_bind. unfold post at 1. destruct (m s); [apply Hk|done|done]. Qed.

(** The host always leaves a slot. *)
Lemma cq_one f s :
  0 < ctrl s cq_size -> ends (cq_can_write f) s (fun v s' => v = 1 /\ Quiet s s').
Proof using Responsive0.
  intros Hs. pose proof (quiet_op _ _ s (mild_cq_can_write f) (fp_cq_can_write f) eq_refl) as Hq.
  eapply post_mono; [apply (post_wlp _ _ _ (fun v _ => v = 1) Hq)|by intros v s' []]. clear Hq.
  unfold cq_can_write. post_step; [by apply post_ret|]. unfold host_writes at 1.
  pose proof (host_drains (hw s) (ctrl s) (signals s) Hs) as Hd. unfold post, mbind, SM_bind.
  destruct (hal_host (hw s) (ctrl s) (signals s)) as [[h rd] sigs]. cbn [fst snd] in Hd. cbn.
  rewrite fn_lookup_insert, !fn_lookup_insert_ne by done.
  destruct (Z.ltb_spec (ctrl s cq_size) (sub32 (ctrl s cq_write_idx) (u32 rd))); [lia|].
  destruct (Z.eqb_spec (sub32 (ctrl s cq_write_idx) (u32 rd)) (ctrl s cq_size)); [lia|done].
Qed.

Lemma write_cq_one f i c d s :
  0 < ctrl s cq_size -> ends (write_cq_entry f i c d) s (fun v s' => v = 1 /\ Quiet s s').
Proof using Responsive0.
  intros Hs. pose proof (quiet_op _ _ s (mild_write_cq_entry f i c d) (fp_write_cq_entry f i c d) eq_refl) as Hq.
  eapply post_mono; [apply (post_wlp _ _ _ (fun v _ => v = 1) Hq)|by intros v s' []]. clear Hq.
  unfold write_cq_entry. apply post_bind. pose proof (cq_one f s Hs) as Hc.
  unfold post in Hc |- *. destruct (cq_can_write f s) as [v s1| |]; [|done|done].
  destruct Hc as [-> _]. cbn. destruct (has_flag f RP1_FLAG_SILENT); [done|].
  change (wlp (w ← get_ctrl cq_write_idx; size ← get_ctrl cq_size; now ← rp1_cycles;
    start ← get_glob g_graph_start_cycles;
    put_cq (Z.land w (sub32 size 1))
      {| cq_node_index := i; cq_status := c; cq_error_detail := d; cq_timestamp := sub32 now start |};;
    rp1_barrier;; put_ctrl cq_write_idx (add32 w 1);; rp1_barrier;; mret 1) s1 (fun v _ => v = 1)).
  repeat (apply wlp_tail; intros). by apply post_ret.
Qed.

(** ** The invariant and the measure *)

(** Every dispatched node but [e] has its kernel in flight. *)
Record Pg (e : Z) s : Prop := {
  pg_prog i : 0 <= i < n -> same_packet (nodes s i) (prog i);
  pg_cq_size : 0 < ctrl s cq_size;
  pg_tracked i : 0 <= i < n -> i <> e -> node_status s i = RP1_NODE_DISPATCHED ->
    exists k, k ∈ inflight s /\ if_node_index k = i /\ if_infinite k = 0;
  pg_no_wait i : 0 <= i < n -> node_status s i <> RP1_NODE_WAITING;
  pg_index : Forall (fun k => 0 <= if_node_index k < n) (inflight s);
  pg_cap : Z.of_nat (length (inflight s)) <= RP1_MAX_INFLIGHT
}.

Definition is_pending (status : Z) : nat := if decide (status = RP1_NODE_PENDING) then 1 else 0.
Definition pending s : nat := sum_list ((fun i => is_pending (node_status s i)) <$> seqZ 0 n).
Definition mu s : nat := (2 * pending s + length (inflight s))%nat.
Definition rk s : nat := sum_list (rank (hw s) <$> inflight s).

Lemma quiet_pg e s s' : Quiet s s' -> Pg e s -> Pg e s'.
Proof.
  intros [] []. split; rewrite ?q_status0, ?q_nodes0, ?q_inflight0, ?q_cq_size0; done.
Qed.

Lemma quiet_mu s s' : Quiet s s' -> mu s' = mu s.
Proof. intros []. unfold mu, pending. by rewrite q_status0, q_inflight0. Qed.

Lemma pending_insert (f : Z -> Z) i v l :
  NoDup l -> i ∈ l ->
  (sum_list ((fun j => is_pending (<[i := v]> f j)) <$> l) + is_pending (f i) =
   sum_list ((fun j => is_pending (f j)) <$> l) + is_pending v)%nat.
Proof.
  intros Hn Hi. induction Hn as [|x l Hx Hn IH]; [by apply not_elem_of_nil in Hi|].
  cbn [fmap list_fmap sum_list]. apply elem_of_cons in Hi as [->|Hi].
  - rewrite fn_lookup_insert. rewrite (list_fmap_ext _ (fun j => is_pending (f j))); [cbn; lia|].
    intros j y Hy. rewrite fn_lookup_insert_ne; [done|]. intros ->. by apply Hx, list_elem_of_lookup_2 with j.
  - assert (i <> x) by (intros ->; done). rewrite fn_lookup_insert_ne by done.
    specialize (IH Hi). cbn. lia.
Qed.

(** Setting the status of node [i]. *)
Lemma set_status_ends e i v s :
  Pg e s -> 0 <= i < n -> 0 <= v < 256 -> v <> RP1_NODE_WAITING ->
  (v = RP1_NODE_DISPATCHED -> i = e) ->
  ends (set_node_status i v) s (fun _ s' =>
    Pg e s' /\ node_status s' = <[i := v]> (node_status s) /\ inflight s' = inflight s /\
    hw s' = hw s /\ glob s' g_cq_blocked = glob s g_cq_blocked).
Proof.
  intros HP Hi Hv Hw Hd. unfold set_node_status, put_packet_status, get_glob.
  apply post_bind, wlp_checked. intros _. do 4 post_step. apply post_bind, wlp_checked. intros _.
  post_step. assert (Hu : u8 v = v) by (apply Z.mod_small; lia).
  split; [|split; [cbn; by rewrite Hu|done]]. destruct HP as [H1 H2 H3 H4 H5 H6]. split; cbn; try done.
  - intros j Hj. destruct (decide (i = j)) as [->|]; [|rewrite fn_lookup_insert_ne by done; auto].
    rewrite fn_lookup_insert. apply same_packet_status. auto.
  - intros j Hj Hje. destruct (decide (i = j)) as [->|].
    + rewrite fn_lookup_insert, Hu. intros ->. by destruct (Hje (Hd eq_refl)).
    + rewrite fn_lookup_insert_ne by done. auto.
  - intros j Hj. destruct (decide (i = j)) as [->|]; [by rewrite fn_lookup_insert, Hu|].
    rewrite fn_lookup_insert_ne by done. auto.
Qed.

Lemma mu_status s s' i v :
  0 <= i < n -> node_status s' = <[i := v]> (node_status s) -> inflight s' = inflight s ->
  v <> RP1_NODE_PENDING ->
  (mu s' + 2 * is_pending (node_status s i) = mu s)%nat.
Proof.
  intros Hi Hs Hf Hv. unfold mu, pending. rewrite Hs, Hf.
  pose proof (pending_insert (node_status s) i v (seqZ 0 n)) as Hp.
  specialize (Hp (NoDup_seqZ _ _)). rewrite elem_of_seqZ in Hp. specialize (Hp ltac:(lia)).
  replace (is_pending v) with 0%nat in Hp by (unfold is_pending; by rewrite decide_False). lia.
Qed.

Lemma quiet_size s s' : Quiet s s' -> 0 < ctrl s cq_size -> 0 < ctrl s' cq_size.
Proof. intros [] Hs. by rewrite q_cq_size0. Qed.

(** The state after [d] units of work. *)
Definition after (e : Z) s (d : nat) s' : Prop :=
  Pg e s' /\ calm s s' /\ glob s' g_cq_blocked = glob s g_cq_blocked /\ (mu s' + d = mu s)%nat.

Lemma after_quiet e s d s1 s2 : after e s d s1 -> Quiet s1 s2 -> after e s d s2.
Proof.
  intros (H1 & H2 & H3 & H4) HQ. split_and!.
  - by eapply quiet_pg.
  - etrans; [exact H2|apply HQ].
  - rewrite (q_blocked _ _ HQ). done.
  - by rewrite (quiet_mu _ _ HQ).
Qed.

Lemma quiet_after e s s' : Pg e s -> Quiet s s' -> after e s 0 s'.
Proof.
  intros HP HQ. split_and!; [by eapply quiet_pg|apply HQ|apply HQ|]. rewrite (quiet_mu _ _ HQ). lia.
Qed.

(** Finishing node [i], followed by bookkeeping. *)
Lemma finish_ends {A} e i v s (rest : SM (st HW) A) (P : A -> Prop) :
  Pg e s -> 0 <= i < n -> v = RP1_NODE_DONE \/ v = RP1_NODE_ERROR ->
  (forall s1, 0 < ctrl s1 cq_size -> ends rest s1 (fun a s2 => P a /\ Quiet s1 s2)) ->
  ends (set_node_status i v;; rest) s (fun a s' =>
    P a /\ after e s (2 * is_pending (node_status s i)) s' /\ inflight s' = inflight s /\
    node_status s' i = v).
Proof.
  intros HP Hi Hv Hrest. apply post_bind. eapply post_mono.
  { apply (set_status_ends e i v s HP Hi); destruct Hv as [-> | ->]; done. }
  intros [] s1 (HP1 & Hs & Hf & Hh & Hb). eapply post_mono; [apply Hrest, (pg_cq_size _ _ HP1)|].
  intros a s2 [Ha HQ]. split; [done|]. split_and!.
  - eapply after_quiet; [|exact HQ]. split_and!; [done|by apply calm_hw|done|].
    eapply mu_status; [done..|]. destruct Hv as [-> | ->]; done.
  - by rewrite (q_inflight _ _ HQ).
  - rewrite (q_status _ _ HQ), Hs. apply fn_lookup_insert.
Qed.
End work.

#[export] Hint Resolve mild_cq_can_write mild_write_cq_entry mild_trace mild_latch_error mild_mark_recovery
  mild_raise_barrier mild_launch_kernel mild_execute_immediate mild_bump_heartbeat mild_put_ctrl : mild.

(** Steps through bookkeeping, collecting [Quiet] facts. *)
Ltac quiet_step :=
  lazymatch goal with
  | |- post _ _ (mret _) _ _ => apply post_ret
  | |- post _ _ (_ ≫= _) _ _ => apply post_bind
  | |- post _ _ (gets _) _ _ => apply post_gets
  | |- post _ _ (get_glob _) _ _ => apply post_gets
  | |- post _ _ (match ?x with _ => _ end) _ _ => destruct x eqn:?
  | |- post _ _ (write_cq_entry _ _ _ _) _ _ =>
      eapply post_mono; [by eapply write_cq_one|]; cbn beta;
      let H := fresh "HQ" in intros ?? [-> H]; pose proof (quiet_size _ _ _ H ltac:(eassumption))
  | |- post _ _ (cq_can_write _) _ _ =>
      eapply post_mono; [by eapply cq_one|]; cbn beta;
      let H := fresh "HQ" in intros ?? [-> H]; pose proof (quiet_size _ _ _ H ltac:(eassumption))
  | |- post _ _ _ _ _ =>
      eapply post_mono; [eapply quiet_op; [solve [eauto with mild nocore]|solve [eauto with fp nocore]|reflexivity]|];
      cbn beta; let H := fresh "HQ" in intros ?? H; pose proof (quiet_size _ _ _ H ltac:(eassumption))
  end; cbn beta.

Ltac quiet_chain :=
  repeat first [eassumption | etransitivity; [eassumption|]]; try reflexivity.

Section activation.
Context {HW : Type} `{!Hal HW} `{!Platform} (rank : HW -> rp1_inflight_t -> nat) (B : nat).
Context `{!Responsive HW rank B}.
Context (n : Z) (prog : Z -> rp1_node_t) (Hplain : plain n prog).
Implicit Types s : st HW.
Abbreviation ends m s Q := (post True False m s Q).
Abbreviation Quiet := (Quiet rank).
Abbreviation Pg := (Pg n prog).
Abbreviation mu := (mu n).
Abbreviation after := (after rank n prog).
Abbreviation calm := (calm rank).

Lemma ends_get_node e s i :
  Pg e s -> 0 <= i < n -> ends (get_node i) s (fun node s' => s' = s /\ same_packet node (prog i)).
Proof.
  intros HP Hi. unfold get_node, get_glob. do 2 post_step. apply post_bind, wlp_checked.
  intros _. post_step. split; [done|]. by apply (pg_prog _ _ _ _ HP).
Qed.

(** What one step of the scan over the nodes does. *)
Definition stepped s (c : ctl) s' : Prop :=
  match c with
  | Skip => Quiet s s'
  | Progress => exists d, after (-1) s (S d) s'
  | Stop r => r < 0 /\ Pg (-1) s'
  end.

Lemma finished_step i v s (rest : SM (st HW) ctl) :
  Pg (-1) s -> 0 <= i < n -> node_status s i = RP1_NODE_PENDING ->
  v = RP1_NODE_DONE \/ v = RP1_NODE_ERROR ->
  (forall s1, 0 < ctrl s1 cq_size ->
     ends rest s1 (fun c s2 => (c = Progress \/ c = Stop (-1) \/ c = Stop (-2)) /\ Quiet s1 s2)) ->
  ends (set_node_status i v;; rest) s (stepped s).
Proof.
  intros HP Hi Hp Hv Hrest. eapply post_mono.
  { apply (finish_ends rank n prog (-1) i v s rest
      (fun c => c = Progress \/ c = Stop (-1) \/ c = Stop (-2)) HP Hi Hv Hrest). }
  intros c s' (Hc & Ha & _). rewrite Hp in Ha. destruct Hc as [-> |[-> | ->]]; cbn.
  - by exists 1%nat.
  - split; [lia|apply Ha].
  - split; [lia|apply Ha].
Qed.

Lemma complete_step i node s :
  Pg (-1) s -> 0 <= i < n -> node_status s i = RP1_NODE_PENDING ->
  ends (complete_node node i) s (stepped s).
Proof using Responsive0.
  intros HP Hi Hp. unfold complete_node. apply finished_step; [done|done|done|by left|].
  intros s1 Hs1. repeat quiet_step. split; [by left|]. quiet_chain.
Qed.

Lemma halt_step i node s :
  Pg (-1) s -> 0 <= i < n -> node_status s i = RP1_NODE_PENDING ->
  ends (activate_halt node i) s (stepped s).
Proof using Responsive0.
  intros HP Hi Hp. unfold activate_halt. apply finished_step; [done|done|done|by left|].
  intros s1 Hs1. repeat quiet_step. split; [by right; right|]. quiet_chain.
Qed.

Lemma add_inflight_ends e i node s :
  Pg e s -> 0 <= i < n ->
  (e = -1 \/ e = i /\ has_flag (node_flags node) RP1_FLAG_INFINITE = false) ->
  ends (add_inflight node i) s (fun _ s' =>
    Pg (-1) s' /\ calm s s' /\ glob s' g_cq_blocked = glob s g_cq_blocked /\
    (mu s' = mu s + 1)%nat).
Proof using Responsive0.
  intros HP Hi He. unfold add_inflight. do 2 post_step. apply post_bind, wlp_checked. intros Hn.
  apply post_bind. pose proof (mild_cycles rank B s) as Hc. unfold rp1_cycles, post in Hc |- *.
  destruct (hal_cycles (hw s)) as [now h]. cbn [modify]. destruct HP as [H1 H2 H3 H4 H5 H6].
  apply Z.ltb_lt in Hn. split_and!; [|done|done|].
  - split; cbn; try done.
    + intros j Hj _ Hd. destruct (decide (j = e)) as [->|Hne].
      * destruct He as [->|[-> Hinf]]; [lia|]. eexists. split; [apply elem_of_app; right; by left|].
        cbn. by rewrite Hinf.
      * destruct (H3 j Hj Hne Hd) as (k & Hk & Hrest). exists k. split; [|done].
        apply elem_of_app. by left.
    + apply Forall_app. split; [done|]. by apply Forall_singleton.
    + rewrite length_app. cbn. lia.
  - unfold Rp1Progress.mu, pending. cbn. rewrite length_app. cbn. lia.
Qed.

Lemma pg_weaken e s : Pg (-1) s -> Pg e s.
Proof. intros []. split; try done. intros i Hi _. apply pg_tracked0; [done|lia]. Qed.

Lemma launch_step i node s :
  Pg (-1) s -> 0 <= i < n -> node_status s i = RP1_NODE_PENDING ->
  ends (fatal ← launch_and_mark node i;
        if (fatal : bool) then mret (Stop (-1)) else add_inflight node i;; mret Progress) s (stepped s).
Proof using Responsive0.
  intros HP Hi Hp. unfold launch_and_mark. pose proof (pg_cq_size _ _ _ _ HP) as Hsz.
  apply post_bind. do 2 quiet_step. do 2 quiet_step. rename s' into s1, s'0 into s2.
  assert (HQs : Quiet s s2) by quiet_chain.
  pose proof (quiet_after rank n prog _ _ _ HP HQs) as (HP2 & Hc2 & Hb2 & Hmu2).
  assert (Hp2 : node_status s2 i = RP1_NODE_PENDING) by (by rewrite (q_status _ _ _ HQs)).
  destruct (has_flag (node_flags node) RP1_FLAG_INFINITE) eqn:Hinf.
  - eapply post_mono.
    { apply (finish_ends rank n prog (-1) i RP1_NODE_DONE s2 _ (fun b => b = false) HP2 Hi); [by left|].
      intros s3 Hs3. repeat quiet_step. split; [done|]. quiet_chain. }
    intros fatal s3 (-> & Ha & _). rewrite Hp2 in Ha. destruct Ha as (HP3 & Hc3 & Hb3 & Hmu3).
    apply post_bind. eapply post_mono; [apply (add_inflight_ends (-1)); [done|done|by left]|].
    intros [] s4 (HP4 & Hc4 & Hb4 & Hmu4). apply post_ret. exists 0%nat. split_and!.
    + done.
    + etrans; [exact Hc2|]. by etrans.
    + congruence.
    + change (2 * is_pending RP1_NODE_PENDING)%nat with 2%nat in Hmu3. lia.
  - apply post_bind. eapply post_mono.
    { apply (set_status_ends n prog i i RP1_NODE_DISPATCHED s2); [by apply pg_weaken|done|done|done|done]. }
    intros [] s3 (HP3 & Hs3 & Hf3 & Hh3 & Hb3). apply post_ret. apply post_bind.
    eapply post_mono; [apply (add_inflight_ends i); [done|done|by right]|].
    intros [] s4 (HP4 & Hc4 & Hb4 & Hmu4). apply post_ret. exists 0%nat.
    pose proof (mu_status n s2 s3 i RP1_NODE_DISPATCHED Hi Hs3 Hf3 ltac:(done)) as Hmu3.
    rewrite Hp2 in Hmu3. change (2 * is_pending RP1_NODE_PENDING)%nat with 2%nat in Hmu3. split_and!.
    + done.
    + etrans; [exact Hc2|]. etrans; [|exact Hc4]. by apply calm_hw.
    + congruence.
    + lia.
Qed.

Lemma dispatch_step i node s :
  Pg (-1) s -> 0 <= i < n -> node_status s i = RP1_NODE_PENDING ->
  ends (activate_kernel_dispatch node i) s (stepped s).
Proof using Responsive0.
  intros HP Hi Hp. unfold activate_kernel_dispatch. pose proof (pg_cq_size _ _ _ _ HP) as Hsz.
  do 2 quiet_step. destruct (_ && _).
  - apply finished_step; [done|done|done|by right|]. intros s1 Hs1.
    do 2 quiet_step. do 2 quiet_step. cbn. do 2 quiet_step. destruct (has_flag _ _).
    + apply post_ret. split; [by right; left|]. quiet_chain.
    + repeat quiet_step. split; [by left|]. quiet_chain.
  - do 2 quiet_step. destruct (RP1_MAX_INFLIGHT <=? _).
    + apply finished_step; [done|done|done|by right|]. intros s1 Hs1. repeat quiet_step.
      split; [by right; left|]. quiet_chain.
    + by apply launch_step.
Qed.

Lemma stepped_quiet s s1 c s' : Quiet s s1 -> stepped s1 c s' -> stepped s c s'.
Proof.
  intros HQ. destruct c; cbn.
  - intros H1. by transitivity s1.
  - intros (d & HP & Hc & Hb & Hm). exists d. split_and!; [done| | |].
    + etrans; [apply HQ|done].
    + rewrite Hb. apply HQ.
    + by rewrite Hm, (quiet_mu _ _ _ _ HQ).
  - done.
Qed.

Lemma op_step pf i node s :
  Pg (-1) s -> 0 <= i < n -> node_status s i = RP1_NODE_PENDING -> same_packet node (prog i) ->
  ends (activate_op pf node i) s (stepped s).
Proof using Responsive0 Hplain.
  intros HP Hi Hp Hsp. specialize (Hplain i Hi). destruct (same_packet_fields _ _ Hsp) as (Ho & _).
  rewrite <- Ho in Hplain. pose proof (pg_cq_size _ _ _ _ HP) as Hsz. unfold activate_op.
  assert (Himm : ends (execute_immediate node i;; complete_node node i) s (stepped s)).
  { quiet_step. quiet_step. eapply post_mono; [apply complete_step|].
    - by eapply quiet_pg.
    - done.
    - by rewrite (q_status _ _ _ HQ).
    - intros c s2. by apply stepped_quiet. }
  destruct (opcode_of _) as [[]|]; try done; [by apply dispatch_step|by apply halt_step].
Qed.

Lemma node_step pf i s :
  Pg (-1) s -> 0 <= i < n -> ends (activate_node pf i) s (stepped s).
Proof using Responsive0 Hplain.
  intros HP Hi. pose proof (pg_cq_size _ _ _ _ HP) as Hsz. unfold activate_node, get_status.
  apply post_bind, post_bind, wlp_checked. intros _. post_step.
  destruct (Z.eqb_spec (node_status s i) RP1_NODE_PENDING) as [Hp|Hp]; cbn [negb];
    [|by apply post_ret].
  apply post_bind. eapply post_mono; [by apply (ends_get_node (-1))|]. intros node s1 [-> Hsp].
  unfold get_barrier. apply post_bind, post_bind, wlp_checked. intros _. post_step.
  destruct (negb _); [by apply post_ret|].
  do 2 quiet_step. cbn. do 2 quiet_step. do 2 quiet_step.
  assert (HQs : Quiet s s'1) by quiet_chain. eapply post_mono; [apply op_step|].
  - by eapply quiet_pg.
  - done.
  - by rewrite (q_status _ _ _ HQs).
  - done.
  - intros c s2. by apply stepped_quiet.
Qed.

(** A whole scan over the nodes. *)
Definition scanned s (mp r : Z) s' : Prop :=
  (r < 0 /\ Pg (-1) s') \/ (r = mp /\ Quiet s s') \/ (r = 1 /\ exists d, after (-1) s (S d) s').

Lemma scanned_quiet s s1 mp r s' : Quiet s s1 -> scanned s1 mp r s' -> scanned s mp r s'.
Proof.
  intros HQ [H1|[[-> H1]|[-> H1]]]; [by left|right; left; split; [done|by transitivity s1]|].
  right. right. split; [done|]. by apply (stepped_quiet s s1 Progress).
Qed.

Lemma after_trans e s d1 s1 d2 s2 : after e s d1 s1 -> after e s1 d2 s2 -> after e s (d1 + d2) s2.
Proof.
  intros (_ & Hc1 & Hb1 & Hm1) (HP & Hc2 & Hb2 & Hm2). split_and!; [done|by etrans|congruence|lia].
Qed.

Lemma scanned_after s d s1 mp r s' : after (-1) s (S d) s1 -> scanned s1 1 r s' -> scanned s mp r s'.
Proof.
  intros Ha [H1|[[-> HQ]|[-> (d2 & Ha2)]]]; [by left| |].
  - right. right. split; [done|]. exists d. by eapply after_quiet.
  - right. right. split; [done|]. exists (d + S d2)%nat. by apply (after_trans _ _ (S d) s1 (S d2)).
Qed.

Lemma scan_from_step (body : Z -> SM (st HW) ctl) :
  (forall s i, Pg (-1) s -> 0 <= i < n -> ends (body i) s (stepped s)) ->
  forall k s i mp, Pg (-1) s -> 0 <= i -> i + Z.of_nat k <= n -> mp = 0 \/ mp = 1 ->
  ends (scan_from body k i mp) s (scanned s mp).
Proof.
  intros Hb k. induction k as [|k IH]; intros s i mp HP Hi Hk Hmp; cbn [scan_from].
  { apply post_ret. by right; left. }
  apply post_bind. eapply post_mono; [apply Hb; [done|lia]|]. intros c s1 Hs. destruct c; cbn in Hs.
  - eapply post_mono; [apply IH; [by eapply quiet_pg|lia|lia|done]|]. intros r s2. by apply scanned_quiet.
  - destruct Hs as (d & Ha). eapply post_mono; [apply IH; [apply Ha|lia|lia|by right]|].
    intros r s2. by apply (scanned_after s d).
  - apply post_ret. left. done.
Qed.

(** ** Kernels in flight *)

Lemma remove_at_elem j (l : list rp1_inflight_t) k k' :
  l !! j = Some k -> k' ∈ l -> k' <> k -> k' ∈ remove_at j l.
Proof.
  intros Hj Hk Hne. unfold remove_at. pose proof (lookup_lt_Some _ _ _ Hj) as Hlt.
  destruct (lookup_lt_is_Some_2 l (length l - 1) ltac:(lia)) as [last El]. rewrite El.
  assert (Hl : l = take (length l - 1) l ++ [last]).
  { rewrite <- (take_S_r _ _ _ El). symmetry. apply take_ge. lia. }
  rewrite Hl in Hk. apply elem_of_app in Hk as [Hk|Hk].
  - destruct (Nat.ltb_spec j (length l - 1)) as [Hj'|Hj']; [|done].
    apply list_elem_of_lookup in Hk as [p Hp]. apply list_elem_of_lookup_2 with p.
    rewrite list_lookup_insert_ne; [done|]. intros ->.
    rewrite lookup_take_lt in Hp by done. congruence.
  - apply list_elem_of_singleton in Hk as ->. destruct (Nat.ltb_spec j (length l - 1)) as [Hj'|Hj'].
    + apply list_elem_of_lookup_2 with j. apply list_lookup_insert_eq. rewrite length_take. lia.
    + replace j with (length l - 1)%nat in Hj by lia. congruence.
Qed.

(** What one poll of a kernel in flight does. *)
Definition polled (k : rp1_inflight_t) s (c : ctl) s' : Prop :=
  match c with
  | Skip => Quiet s s' /\ (rank (hw s') k < rank (hw s) k)%nat
  | Progress => (exists d, after (-1) s d s') /\ inflight s' = inflight s /\
      (if_infinite k = 0 -> node_status s' (if_node_index k) <> RP1_NODE_DISPATCHED)
  | Stop r => r < 0 /\ Pg (-1) s'
  end.

Lemma hw_quiet h s : calm s (set_hw h s) -> Quiet s (set_hw h s).
Proof. by split. Qed.

(** A kernel found neither done nor timed out has come closer to its end. *)
Lemma busy_ends {A} {nf : Prop} k s (done late : SM (st HW) A) (a : A) Q :
  (forall s1, Quiet s s1 -> post True nf done s1 Q) -> (forall s1, Quiet s s1 -> post True nf late s1 Q) ->
  (forall s1, Quiet s s1 -> (rank (hw s1) k < rank (hw s) k)%nat -> Q a s1) ->
  post True nf (ctrl ← rp1_mmio_read32 (if_base_addr k);
        if has_flag ctrl 0x2 then done
        else now ← rp1_cycles;
             if rp1_timeout_elapsed (if_timeout_start k) (if_timeout_cycles k) now then late else mret a)
    s Q.
Proof using Responsive0.
  intros Hd Hl Hs. apply post_bind. pose proof (mild_read rank B (if_base_addr k) s) as Hc1.
  pose proof (rank_poll (hw s) k) as Hp. unfold rp1_mmio_read32 in *. unfold post at 1 in Hc1.
  unfold post at 1. destruct (hal_read32 (if_base_addr k) (hw s)) as [v h1].
  destruct (has_flag (u32 v) 0x2); [by apply Hd, hw_quiet|].
  apply post_bind. pose proof (mild_cycles rank B (set_hw h1 s)) as Hc2. unfold rp1_cycles in *.
  unfold post at 1 in Hc2. unfold post at 1. cbn [hw set_hw] in *.
  destruct (hal_cycles h1) as [now h2].
  assert (HQ : Quiet s (set_hw h2 (set_hw h1 s))).
  { transitivity (set_hw h1 s); [by apply hw_quiet|by apply hw_quiet]. }
  destruct (rp1_timeout_elapsed _ _ _); [by apply Hl|]. apply post_ret. apply Hs; [done|]. by apply Hp.
Qed.

(** A poll that gives node [if_node_index k] its final status. *)
Lemma poll_finished k s s1 v (rest : SM (st HW) ctl) :
  Pg (-1) s -> 0 <= if_node_index k < n -> Quiet s s1 -> v = RP1_NODE_DONE \/ v = RP1_NODE_ERROR ->
  (forall s2, 0 < ctrl s2 cq_size ->
     ends rest s2 (fun c s3 => (c = Progress \/ c = Stop (-1)) /\ Quiet s2 s3)) ->
  ends (set_node_status (if_node_index k) v;; rest) s1 (polled k s).
Proof.
  intros HP Hi HQ1 Hv Hrest. eapply post_mono.
  { apply (finish_ends rank n prog (-1) (if_node_index k) v s1 rest
      (fun c => c = Progress \/ c = Stop (-1)) (quiet_pg _ _ _ _ _ _ HQ1 HP) Hi Hv Hrest). }
  intros c s2 (Hc & Ha & Hf & Hst). destruct Hc as [-> | ->]; cbn; [|split; [lia|apply Ha]].
  split_and!.
  - eexists. eapply (after_trans _ _ 0); [by apply quiet_after|exact Ha].
  - rewrite Hf. apply HQ1.
  - intros _ E. rewrite Hst in E. by destruct Hv as [-> | ->].
Qed.

Lemma poll_step k s :
  Pg (-1) s -> 0 <= if_node_index k < n -> ends (poll_kernel k) s (polled k s).
Proof using Responsive0.
  intros HP Hi. pose proof (pg_cq_size _ _ _ _ HP) as Hsz. unfold poll_kernel.
  apply post_bind. eapply post_mono; [by apply (ends_get_node (-1))|]. intros node s0 [-> Hsp].
  do 2 quiet_step. cbn [Z.ltb Z.compare]. rewrite andb_false_r.
  apply busy_ends.
  - intros s1 HQ1. assert (HQs : Quiet s s1) by (by transitivity s').
    pose proof (quiet_size _ _ _ HQs Hsz). pose proof (quiet_after rank n prog _ _ _ HP HQs) as Ha1.
    destruct (Z.eqb_spec (if_infinite k) 0) as [Hinf|Hinf]; apply post_bind.
    + eapply post_mono.
      { apply (finish_ends rank n prog (-1) (if_node_index k) RP1_NODE_DONE s1 _ (fun b => b = false));
          [apply Ha1|done|by left|]. intros s2 Hs2. repeat quiet_step. split; [done|]. quiet_chain. }
      intros fatal s2 (-> & Ha & Hf & Hst). pose proof (pg_cq_size _ _ _ _ (proj1 Ha)).
      do 2 quiet_step. apply post_ret. split_and!.
      * eexists. eapply after_quiet; [|exact HQ0]. eapply (after_trans _ _ 0); [exact Ha1|exact Ha].
      * rewrite (q_inflight _ _ _ HQ0), Hf. apply HQs.
      * intros _. by rewrite (q_status _ _ _ HQ0), Hst.
    + do 3 quiet_step. apply post_ret. assert (HQ2 : Quiet s s'0) by quiet_chain. split_and!.
      * exists 0%nat. by apply quiet_after.
      * apply HQ2.
      * done.
  - intros s1 HQ1. cbn. apply poll_finished; [done|done|by transitivity s'|by right|]. intros s2 Hs2.
    do 2 quiet_step. do 2 quiet_step. cbn. do 2 quiet_step. destruct (has_flag _ _).
    + apply post_ret. split; [by right|]. quiet_chain.
    + repeat quiet_step. split; [by left|]. quiet_chain.
  - intros s1 HQ1 Hr. split; [by transitivity s'|]. eapply Nat.lt_le_trans; [exact Hr|]. apply HQ.
Qed.

Lemma remove_step j k s s1 :
  polled k s Progress s1 -> inflight s !! j = Some k ->
  exists d, after (-1) s (S d) (set_inflight (remove_at j (inflight s1)) s1) /\
    length (inflight s) = S (length (remove_at j (inflight s1))).
Proof.
  intros ((d & HP & Hc & Hb & Hm) & Hf & Hst) Hj. rewrite <- Hf in Hj |- *.
  pose proof (lookup_lt_Some _ _ _ Hj) as Hlt.
  assert (Hlen : length (inflight s1) = S (length (remove_at j (inflight s1)))).
  { rewrite remove_at_length by done. lia. }
  exists d. split; [|done]. destruct HP as [H1 H2 H3 H4 H5 H6]. split_and!.
  - split; cbn; try done.
    + intros i Hi Hne Hd. destruct (H3 i Hi Hne Hd) as (k' & Hk' & Hidx & Hinf).
      exists k'. split; [|done]. eapply remove_at_elem; [exact Hj|done|]. intros ->.
      apply Hst; [done|]. by rewrite Hidx.
    + by apply remove_at_Forall.
    + lia.
  - done.
  - done.
  - unfold Rp1Progress.mu, pending in *. cbn. lia.
Qed.

(** A sweep over the kernels in flight from position [i]. *)
Definition swept s (i : nat) (mp r : Z) s' : Prop :=
  (r < 0 /\ Pg (-1) s') \/ (r = 1 /\ exists d, after (-1) s (S d) s') \/
  (r = mp /\ Quiet s s' /\ forall j k, (i <= j)%nat -> inflight s !! j = Some k ->
     (rank (hw s') k < rank (hw s) k)%nat).

Lemma swept_skip s i mp r s1 s' k :
  inflight s !! i = Some k -> Quiet s s1 -> (rank (hw s1) k < rank (hw s) k)%nat ->
  swept s1 (S i) mp r s' -> swept s i mp r s'.
Proof.
  intros Hi HQ Hr [H1|[[-> H1]|(-> & HQ2 & Hall)]]; [by left| |].
  - right. left. split; [done|]. by apply (stepped_quiet s s1 Progress).
  - right. right. split_and!; [done|by transitivity s1|]. intros j k' Hj Hk'.
    rewrite (q_inflight _ _ _ HQ) in Hall. destruct (decide (j = i)) as [->|Hne].
    + assert (k' = k) as -> by congruence. eapply Nat.le_lt_trans; [apply HQ2|done].
    + eapply Nat.lt_le_trans; [apply (Hall j); [lia|done]|apply HQ].
Qed.

Lemma swept_progress s d s1 i mp r s' : after (-1) s (S d) s1 -> swept s1 i 1 r s' -> swept s i mp r s'.
Proof.
  intros Ha [H1|[[-> (d2 & Ha2)]|(-> & HQ & _)]]; [by left| |]; right; left; (split; [done|]).
  - exists (d + S d2)%nat. by apply (after_trans _ _ (S d) s1 (S d2)).
  - exists d. by eapply after_quiet.
Qed.

Lemma check_inflight_step fuel : forall i mp s,
  Pg (-1) s -> (length (inflight s) <= fuel + i)%nat ->
  ends (check_inflight_from fuel i mp) s (swept s i mp).
Proof using Responsive0.
  assert (Hnone : forall i mp s, inflight s !! i = None -> swept s i mp mp s).
  { intros i mp s Hn. right. right. split_and!; [done|done|]. intros j k Hj Hk.
    apply lookup_ge_None in Hn. apply lookup_lt_Some in Hk. lia. }
  induction fuel as [|fuel IH]; intros i mp s HP Hl; cbn [check_inflight_from]; apply post_bind, post_gets;
    (destruct (inflight s !! i) as [k|] eqn:Hk; [|by apply post_ret, Hnone]).
  { apply lookup_lt_Some in Hk. lia. }
  assert (Hi : 0 <= if_node_index k < n) by (by eapply Forall_lookup_1 in Hk; [|apply HP]).
  apply post_bind. eapply post_mono; [by apply poll_step|]. intros [| |r] s1 Hp.
  - destruct Hp as [HQ Hr]. eapply post_mono; [apply IH|].
    + by eapply quiet_pg.
    + rewrite (q_inflight _ _ _ HQ). lia.
    + intros r s2. by eapply swept_skip.
  - destruct (remove_step i k s s1 Hp Hk) as (d & Ha & Hlen).
    apply post_bind. unfold remove_inflight. apply post_modify.
    eapply post_mono; [apply IH; [apply Ha|cbn; lia]|]. intros r s2. by apply (swept_progress s d).
  - apply post_ret. left. done.
Qed.

(** No node waits, so the poll of the waits does nothing. *)
Lemma check_waits_ends k : forall i mp s,
  Pg (-1) s -> 0 <= i -> i + Z.of_nat k <= n ->
  ends (scan_from poll_wait k i mp) s (fun r s' => r = mp /\ s' = s).
Proof.
  induction k as [|k IH]; intros i mp s HP Hi Hk; cbn [scan_from]; [by apply post_ret|].
  apply post_bind. unfold poll_wait, get_status. apply post_bind, post_bind, wlp_checked. intros _.
  post_step. destruct (Z.eqb_spec (node_status s i) RP1_NODE_WAITING) as [E|E].
  { by destruct (pg_no_wait _ _ _ _ HP i ltac:(lia)). }
  cbn [negb]. apply post_ret. apply IH; [done|lia|lia].
Qed.

Lemma any_status_ends v k : forall i s,
  ends (any_status k i v) s (fun b s' => s' = s /\
    (b = true -> exists j, i <= j < i + Z.of_nat k /\ node_status s j = v)).
Proof.
  induction k as [|k IH]; intros i s; cbn [any_status]; [by apply post_ret|].
  unfold get_status. apply post_bind, post_bind, wlp_checked. intros _. post_step.
  apply post_bind. eapply post_mono; [apply IH|]. intros b s1 [-> Hb]. apply post_ret.
  split; [done|]. intros [E|E]%orb_true_iff.
  - exists i. split; [lia|]. by apply Z.eqb_eq.
  - destruct (Hb E) as (j & Hj & Hv). exists j. split; [lia|done].
Qed.

(** ** Quiescence *)

(** Enough of [Quiet] for quiescence, which also changes node states. *)
Definition Slack s s' : Prop :=
  calm s s' /\ inflight s' = inflight s /\ ctrl s' cq_size = ctrl s cq_size.

Lemma slack_op {A} fp (m : SM (st HW) A) s :
  mild rank m -> writes fp m -> bool_decide (L_inflight ∈ fp) = false ->
  bool_decide (L_ctrl cq_size ∈ fp) = false -> ends m s (fun _ s' => Slack s s').
Proof.
  intros Hm Hw Ha Hb. eapply post_mono; [apply (post_keeps (agree fp)), Hm; exact Hw|].
  intros a s' [Hc Hag]. apply bool_decide_eq_false in Ha, Hb.
  split_and!; [done|by apply (Hag L_inflight)|by apply (Hag (L_ctrl cq_size))].
Qed.

Lemma mild_set_node_status i v : mild rank (set_node_status i v).
Proof. unfold set_node_status, put_packet_status, get_glob. mild_go. Qed.
Hint Resolve mild_set_node_status : mild.

Lemma mild_quiesce_kernel k : mild rank (quiesce_kernel k).
Proof using Responsive0. unfold quiesce_kernel, get_node, get_status, get_glob. mild_go. Qed.

Lemma quiesce_kernel_step k s :
  0 < ctrl s cq_size ->
  ends (quiesce_kernel k) s (fun removed s' => Slack s s' /\
    (removed = false -> (rank (hw s') k < rank (hw s) k)%nat)).
Proof using Responsive0.
  intros Hs. eapply post_wlp; [by apply (slack_op _ _ s (mild_quiesce_kernel k) (fp_quiesce_kernel k))|].
  unfold quiesce_kernel. unfold get_node, get_glob. apply post_bind, post_bind, post_gets.
  apply post_bind, wlp_checked. intros _. apply post_gets.
  destruct (negb _); [apply wlp_tail; intros; by apply post_ret|].
  apply post_bind. eapply (post_mono (nf := True)).
  { pose proof (cq_one rank B (node_flags (nodes s (if_node_index k))) s Hs) as Hc.
    unfold post in *. destruct (cq_can_write _ s); [exact Hc|done|done]. }
  intros v s1 [-> HQ]. cbn [Z.ltb Z.eqb Z.compare]. apply busy_ends.
  - intros s2 _. do 3 (apply wlp_tail; intros). by apply post_ret.
  - intros s2 _. do 3 (apply wlp_tail; intros). by apply post_ret.
  - intros s2 HQ2 Hr _. eapply Nat.lt_le_trans; [exact Hr|apply HQ].
Qed.

(** The ranks before position [i] are below [m], the others at most [m]. *)
Definition half_swept (m i : nat) s : Prop :=
  forall j k, inflight s !! j = Some k -> (rank (hw s) k <= m)%nat /\ ((j < i)%nat -> (rank (hw s) k < m)%nat).

Lemma remove_at_lookup i (l : list rp1_inflight_t) j k :
  (i < length l)%nat -> remove_at i l !! j = Some k ->
  exists p, l !! p = Some k /\ (p = j \/ j = i /\ (i <= p)%nat).
Proof.
  intros Hi. unfold remove_at. destruct (lookup_lt_is_Some_2 l (length l - 1) ltac:(lia)) as [x El].
  rewrite El. destruct (Nat.ltb_spec i (length l - 1)) as [Hlt|Hlt].
  - destruct (decide (i = j)) as [<-|Hne].
    + rewrite list_lookup_insert_eq by (rewrite length_take; lia). intros [= <-].
      exists (length l - 1)%nat. split; [done|]. right. split; [done|lia].
    + rewrite list_lookup_insert_ne by done. intros Hk. exists j. split; [|by left].
      by apply lookup_take_Some in Hk as [].
  - intros Hk. exists j. split; [|by left]. by apply lookup_take_Some in Hk as [].
Qed.

Lemma quiesce_pass_step m fuel : forall i s,
  0 < ctrl s cq_size -> (length (inflight s) <= fuel + i)%nat -> half_swept m i s ->
  ends (quiesce_pass fuel i) s (fun _ s' => 0 < ctrl s' cq_size /\
    forall j k, inflight s' !! j = Some k -> (rank (hw s') k < m)%nat).
Proof using Responsive0.
  assert (Hnone : forall i s, 0 < ctrl s cq_size -> half_swept m i s -> inflight s !! i = None ->
    0 < ctrl s cq_size /\ forall j k, inflight s !! j = Some k -> (rank (hw s) k < m)%nat).
  { intros i s Hs Hh Hn. split; [done|]. intros j k Hk. apply (Hh j k Hk).
    apply lookup_ge_None in Hn. apply lookup_lt_Some in Hk. lia. }
  induction fuel as [|fuel IH]; intros i s Hs Hl Hh; cbn [quiesce_pass]; apply post_bind, post_gets;
    (destruct (inflight s !! i) as [k|] eqn:Hk; [|by apply post_ret, (Hnone i)]);
    pose proof (lookup_lt_Some _ _ _ Hk) as Hlt; [lia|].
  apply post_bind. eapply post_mono; [by apply quiesce_kernel_step|].
  intros removed s1 [(Hc & Hf & Hz) Hr].
  assert (Hh1 : forall j k', inflight s !! j = Some k' ->
    (rank (hw s1) k' <= m)%nat /\ ((j < i)%nat -> (rank (hw s1) k' < m)%nat)).
  { intros j k' Hj. destruct (Hh j k' Hj) as [H1 H2]. pose proof (Hc k'). split; [lia|].
    intros Hji. specialize (H2 Hji). lia. }
  destruct removed.
  - unfold remove_inflight. apply post_bind, post_modify. apply IH; cbn.
    + by rewrite Hz.
    + rewrite remove_at_length by (by rewrite Hf). rewrite Hf. lia.
    + intros j k' Hj. cbn in Hj. apply remove_at_lookup in Hj as (p & Hp & Hpj); [|by rewrite Hf].
      rewrite Hf in Hp. destruct (Hh1 p k' Hp) as [H1 H2]. split; [done|]. intros Hji.
      destruct Hpj as [->|[-> _]]; [auto|lia].
  - apply IH; [by rewrite Hz|rewrite Hf; lia|]. intros j k' Hj. rewrite Hf in Hj.
    destruct (Hh1 j k' Hj) as [H1 H2]. split; [done|]. intros Hji.
    destruct (decide (j = i)) as [->|]; [|apply H2; lia].
    assert (k' = k) as -> by congruence. specialize (Hr eq_refl). destruct (Hh i k Hk). lia.
Qed.

Lemma quiesce_ends fuel : forall s,
  0 < ctrl s cq_size -> (forall j k, inflight s !! j = Some k -> (rank (hw s) k < fuel)%nat) ->
  ends (quiesce_inflight fuel) s (fun _ _ => True).
Proof using Responsive0.
  induction fuel as [|fuel IH]; intros s Hs Hr; cbn [quiesce_inflight]; apply post_bind, post_gets.
  - destruct (inflight s) as [|k l] eqn:E; [done|]. specialize (Hr 0%nat k eq_refl). lia.
  - destruct (length (inflight s)) as [|m] eqn:E; [done|]. apply post_bind. eapply post_mono.
    { apply (quiesce_pass_step fuel); [done|lia|]. intros j k Hk. specialize (Hr j k Hk). split; lia. }
    intros [] s1 [Hs1 Hr1]. apply post_bind.
    eapply post_mono; [apply (quiet_op rank _ _ s1 (mild_bump_heartbeat rank) fp_bump_heartbeat eq_refl)|].
    intros [] s2 HQ. apply IH; [by eapply quiet_size|].
    intros j k Hk. rewrite (q_inflight _ _ _ HQ) in Hk. pose proof (q_calm _ _ _ HQ k).
    specialize (Hr1 j k Hk). lia.
Qed.

(** ** The passes *)

Lemma sum_ranks_le h h' (l : list rp1_inflight_t) :
  (forall k, (rank h' k <= rank h k)%nat) -> (sum_list (rank h' <$> l) <= sum_list (rank h <$> l))%nat.
Proof. intros Hr. induction l as [|k l IH]; cbn; [lia|]. specialize (Hr k). lia. Qed.

Lemma sum_ranks_lt h h' (l : list rp1_inflight_t) k :
  (forall k, (rank h' k <= rank h k)%nat) -> k ∈ l -> (rank h' k < rank h k)%nat ->
  (sum_list (rank h' <$> l) < sum_list (rank h <$> l))%nat.
Proof.
  intros Hr Hk Hlt. induction l as [|x l IH]; [by apply not_elem_of_nil in Hk|]. cbn.
  pose proof (sum_ranks_le h h' l Hr). specialize (Hr x).
  apply elem_of_cons in Hk as [->|Hk]; [lia|]. specialize (IH Hk). lia.
Qed.

Lemma rk_bound s : Pg (-1) s -> (rk rank s <= 32 * B)%nat.
Proof using Responsive0.
  intros HP. pose proof (pg_cap _ _ _ _ HP) as Hc. change RP1_MAX_INFLIGHT with 32 in Hc.
  unfold rk. assert (Hs : forall l, (sum_list (rank (hw s) <$> l) <= length l * B)%nat).
  { induction l as [|k l IH]; cbn; [lia|]. pose proof (rank_bound (hw s) k). lia. }
  specialize (Hs (inflight s)). nia.
Qed.

(** What a pass that does not end the graph achieves. *)
Definition closer s s' : Prop :=
  Pg (-1) s' /\ ((mu s' < mu s)%nat \/ mu s' = mu s /\ (rk rank s' < rk rank s)%nat).

Lemma quiet_closer s s1 s' : Quiet s s1 -> closer s1 s' -> closer s s'.
Proof.
  intros HQ [HP Hm]. split; [done|]. rewrite (quiet_mu _ _ _ _ HQ) in Hm.
  destruct Hm as [Hm|[Hm Hr]]; [by left|right]. split; [done|].
  eapply Nat.lt_le_trans; [exact Hr|]. unfold rk. rewrite (q_inflight _ _ _ HQ). apply sum_ranks_le, HQ.
Qed.

Lemma closer_quiet s s1 s' : closer s s1 -> Quiet s1 s' -> closer s s'.
Proof.
  intros [HP Hm] HQ. split; [by eapply quiet_pg|]. rewrite (quiet_mu _ _ _ _ HQ).
  destruct Hm as [Hm|[Hm Hr]]; [by left|right]. split; [done|].
  eapply Nat.le_lt_trans; [|exact Hr]. unfold rk. rewrite (q_inflight _ _ _ HQ). apply sum_ranks_le, HQ.
Qed.

Lemma after_closer s d s' : after (-1) s (S d) s' -> closer s s'.
Proof. intros (HP & _ & _ & Hm). split; [done|]. left. lia. Qed.

(** A sweep without progress over a table with a dispatched kernel. *)
Lemma swept_closer s s' j :
  Pg (-1) s -> 0 <= j < n -> node_status s j = RP1_NODE_DISPATCHED -> swept s 0 0 0 s' -> closer s s'.
Proof.
  intros HP Hj Hd [[H1 _]|[[H1 _]|(_ & HQ & Hall)]]; [lia|lia|]. split; [by eapply quiet_pg|]. right.
  split; [by apply quiet_mu with (rank := rank)|]. unfold rk. rewrite (q_inflight _ _ _ HQ).
  destruct (pg_tracked _ _ _ _ HP j Hj ltac:(lia) Hd) as (k & Hk & _).
  apply (sum_ranks_lt _ _ _ k); [apply HQ|done|].
  apply list_elem_of_lookup in Hk as [p Hp]. apply (Hall p k); [lia|done].
Qed.

Lemma quiesced_ends {A} qf s (r : A) Q :
  Pg (-1) s -> (B < qf)%nat -> (forall s', Q r s') -> ends (quiesce_inflight qf;; mret r) s Q.
Proof using Responsive0.
  intros HP Hq HQ. apply post_bind. eapply post_mono.
  - apply quiesce_ends; [apply (pg_cq_size _ _ _ _ HP)|]. intros j k _.
    pose proof (rank_bound (hw s) k). lia.
  - intros [] s' _. by apply post_ret.
Qed.

Lemma unblock s :
  Pg (-1) s -> let s1 := set_glob g_cq_blocked 0 s in
  Pg (-1) s1 /\ (forall s', closer s1 s' -> closer s s') /\ glob s1 g_cq_blocked = 0.
Proof. intros HP s1. split_and!; [by destruct HP|done|apply fn_lookup_insert]. Qed.

(** The two sweeps of a pass: what they leave when neither fails. *)
Lemma sweeps_closer s act s1 infl s2 :
  Pg (-1) s -> scanned s 0 act s1 -> swept s1 0 0 infl s2 -> (act <? 0) = false -> (infl <? 0) = false ->
  Pg (-1) s2 /\ glob s2 g_cq_blocked = glob s g_cq_blocked /\
  (act <> 0 \/ infl <> 0 -> closer s s2) /\
  (act = 0 -> infl = 0 -> forall j, 0 <= j < n -> node_status s2 j = RP1_NODE_DISPATCHED -> closer s s2).
Proof.
  intros HP Hs Hw Ha%Z.ltb_ge Hi%Z.ltb_ge.
  destruct Hs as [[H1 _]|[[-> HQ1]|[-> (d & Ha1)]]]; [lia| |].
  - assert (HP1 : Pg (-1) s1) by (by eapply quiet_pg). pose proof Hw as Hsw.
    destruct Hw as [[H1 _]|[[-> (d & Ha2)]|(-> & HQ2 & Hall)]]; [lia| |].
    + split_and!; [apply Ha2| | |done].
      * destruct Ha2 as (_ & _ & -> & _). apply HQ1.
      * intros _. eapply quiet_closer; [exact HQ1|]. by eapply after_closer.
    + split_and!; [by eapply quiet_pg| | |].
      * rewrite (q_blocked _ _ _ HQ2). apply HQ1.
      * intros [H1|H1]; lia.
      * intros _ _ j Hj Hd. eapply quiet_closer; [exact HQ1|].
        apply (swept_closer s1 s2 j); [done|done| |done]. by rewrite <- (q_status _ _ _ HQ2).
  - destruct Hw as [[H1 _]|[[-> (d2 & Ha2)]|(-> & HQ2 & _)]]; [lia| |].
    + pose proof (after_trans _ _ _ _ _ _ Ha1 Ha2) as Ha3. split_and!; [apply Ha3|apply Ha3| |lia].
      intros _. eapply (after_closer s (d + S d2)). exact Ha3.
    + pose proof (after_quiet _ _ _ _ _ _ _ _ Ha1 HQ2) as Ha3. split_and!; [apply Ha3|apply Ha3| |lia].
      intros _. by eapply after_closer.
Qed.

(** What a pass promises the loop around it. *)
Abbreviation moved s := (fun (r : option Z) s' => match r with Some _ => True | None => closer s s' end).

Lemma next_pass s s1 : closer s s1 -> ends (bump_heartbeat;; mret None) s1 (moved s).
Proof.
  intros Hc. apply post_bind.
  eapply post_mono; [apply (quiet_op rank _ _ s1 (mild_bump_heartbeat rank) fp_bump_heartbeat eq_refl)|].
  intros [] s2 HQ. apply post_ret. by eapply closer_quiet.
Qed.

Lemma scan_pass_step pf qf s :
  0 <= n -> Pg (-1) s -> (B < qf)%nat ->
  ends (scan_pass pf qf n) s (moved s).
Proof using Responsive0 Hplain.
  intros Hn HP Hqf. unfold scan_pass. destruct (unblock s HP) as (HP0 & Hcl & Hb0).
  unfold put_glob at 1. apply post_bind, post_modify. set (s0 := set_glob g_cq_blocked 0 s) in *.
  apply post_bind. unfold activate_nodes. eapply post_mono.
  { apply (scan_from_step (activate_node pf)); [intros; by apply node_step|done|lia|lia|by left]. }
  intros act s1 Hs. destruct (act <? 0) eqn:Ea.
  { assert (HP1 : Pg (-1) s1).
    { apply Z.ltb_lt in Ea. destruct Hs as [[_ H1]|[[-> _]|[-> _]]]; [done|lia|lia]. }
    by apply quiesced_ends. }
  assert (HP1 : Pg (-1) s1).
  { destruct Hs as [[_ H1]|[[-> H1]|[-> (d & H1)]]]; [done|by eapply quiet_pg|apply H1]. }
  unfold check_inflight. apply post_bind, post_bind, post_gets.
  eapply post_mono; [apply (check_inflight_step _ 0 0 s1 HP1); lia|]. intros infl s2 Hw.
  destruct (infl <? 0) eqn:Ei.
  { assert (HP2 : Pg (-1) s2).
    { apply Z.ltb_lt in Ei. destruct Hw as [[_ H1]|[[-> _]|[-> _]]]; [done|lia|lia]. }
    by apply quiesced_ends. }
  destruct (sweeps_closer s0 act s1 infl s2 HP0 Hs Hw Ea Ei) as (HP2 & Hb2 & Hprog & Hstuck).
  apply post_bind. unfold check_waits. eapply post_mono; [apply check_waits_ends; [done|lia|lia]|].
  intros wt s3 [-> ->]. cbn [Z.ltb Z.compare].
  unfold get_glob. apply post_bind, post_gets. rewrite Hb2, Hb0. change (0 =? 0) with true.
  rewrite !andb_true_r. apply post_bind.
  pose proof (fun Hc => next_pass s s2 (Hcl s2 Hc)) as Hnext.
  destruct ((act =? 0) && (infl =? 0)) eqn:E; [|apply post_ret; apply Hnext, Hprog].
  2: { apply andb_false_iff in E as [E|E]; apply Z.eqb_neq in E; [by left|by right]. }
  apply andb_true_iff in E as [E1%Z.eqb_eq E2%Z.eqb_eq].
  apply post_bind. eapply post_mono; [apply any_status_ends|]. intros hd s3 [-> Hhd].
  apply post_bind. eapply post_mono; [apply any_status_ends|]. intros hw s3 [-> Hhw]. apply post_ret.
  destruct hw.
  { destruct (Hhw eq_refl) as (j & Hj & Hv). by destruct (pg_no_wait _ _ _ _ HP2 j ltac:(lia)). }
  destruct hd; [|by apply post_ret].
  destruct (Hhd eq_refl) as (j & Hj & Hv). apply Hnext. apply (Hstuck E1 E2 j); [lia|done].
Qed.

(** Enough passes for the measure. *)
Lemma scan_ends pf qf fuel : forall s,
  0 <= n -> Pg (-1) s -> (B < qf)%nat -> (mu s * (32 * B + 1) + rk rank s < fuel)%nat ->
  ends (scan fuel pf qf n) s (fun _ _ => True).
Proof using Responsive0 Hplain.
  induction fuel as [|fuel IH]; intros s Hn HP Hq Hf; cbn [scan]; [lia|].
  apply post_bind. eapply post_mono; [by apply scan_pass_step|]. intros [r|] s' Hc; [done|].
  destruct Hc as [HP' Hm]. apply IH; [done|done|done|]. pose proof (rk_bound s' HP').
  destruct Hm as [Hm|[Hm Hr]]; nia.
Qed.
End activation.

(** ** From the doorbell to the published result *)

Section answered.
Context {HW : Type} `{!Hal HW} `{!Platform} (rank : HW -> rp1_inflight_t -> nat) (B : nat).
Context `{!Responsive HW rank B}.
Implicit Types s : st HW.
Abbreviation ends m s Q := (post True False m s Q).

Lemma mild_validate_from k : forall i c a, mild rank (validate_from (HW := HW) k i c a).
Proof. induction k; intros; cbn [validate_from]; unfold get_node, get_glob; mild_go. Qed.

Lemma mild_begin_graph : mild rank begin_graph.
Proof using Responsive0.
  unfold begin_graph, rp1_clear_error_latch. mild_go.
Qed.

Lemma validate_quiet c s : ends (validate_nodes c) s (fun _ s' => Quiet rank s s').
Proof.
  apply (quiet_op rank []); [|apply fp_validate_nodes|done].
  unfold validate_nodes, get_ctrl. mild_go. apply mild_validate_from.
Qed.

(** A rejected graph finds its queue slot at the first try. *)
Lemma rejection_ends fuel b d s :
  0 < ctrl s cq_size -> (0 < fuel)%nat -> ends (publish_rejection fuel b d) s (fun _ _ => True).
Proof using Responsive0.
  intros Hs Hf. destruct fuel; [lia|]. cbn [publish_rejection]. apply post_bind.
  eapply post_mono; [by eapply write_cq_one|]. intros v s' [-> _]. by apply post_ret.
Qed.

(** The rejection of a malformed packet. *)
Lemma reject_ends fuel bad d a s :
  0 < ctrl s cq_size -> (0 < fuel)%nat ->
  ends (rp1_latch_error RP1_ERR_INVALID_NODE bad d a;; set_node_status bad RP1_NODE_ERROR;;
        publish_rejection fuel bad d;; mret (-1)) s (fun _ _ => True).
Proof using Responsive0.
  intros Hs Hf. apply post_bind. eapply post_mono.
  { apply (slack_op rank _ _ s (mild_latch_error rank _ _ _ _) (fp_latch_error _ _ _ _)); reflexivity. }
  intros [] s1 (_ & _ & Hs1). apply post_bind. eapply post_mono.
  { apply (slack_op rank _ _ s1 (mild_set_node_status rank _ _) (fp_set_node_status _ _)); reflexivity. }
  intros [] s2 (_ & _ & Hs2). apply post_bind.
  eapply post_mono; [apply rejection_ends; [lia|done]|]. intros. by apply post_ret.
Qed.

Lemma loop_ends n prog fuel pf qf s :
  plain n prog -> 0 < n -> ctrl s node_count = n -> Pg n prog (-1) s -> (B < qf)%nat ->
  inflight s = [] -> (mu n s * (32 * B + 1) < fuel)%nat ->
  ends (rp1_loop fuel pf qf) s (fun _ _ => True).
Proof using Responsive0.
  intros Hpl Hn Hc HP Hq Hi Hf. unfold rp1_loop, get_ctrl. apply post_bind, post_gets. rewrite Hc.
  apply post_bind. eapply post_mono; [apply validate_quiet|]. intros [[[bad d] a]|] s1 HQ.
  - apply reject_ends; [|lia]. by apply (quiet_size rank _ _ HQ), (pg_cq_size _ _ _ _ HP).
  - assert (HP1 : Pg n prog (-1) s1) by (by eapply quiet_pg).
    apply (scan_ends rank B n prog Hpl); [lia|done|done|].
    rewrite (quiet_mu rank n _ _ HQ).
    assert (rk rank s1 = 0%nat) as -> by (unfold rk; by rewrite (q_inflight _ _ _ HQ), Hi). lia.
Qed.

Lemma pending_le n s : (pending n s <= Z.to_nat n)%nat.
Proof.
  unfold pending. rewrite <- (length_seqZ 0 n). induction (seqZ 0 n) as [|i l IH]; [done|].
  cbn. unfold is_pending at 1. case_decide; cbn in IH |- *; lia.
Qed.

(** Where the scan starts: nothing in flight, every node pending. *)
Lemma accepted_pg s0 s :
  config_words (ctrl s0) -> rp1_store_init s0 = Ret None s ->
  0 < ctrl s0 node_count /\ Pg (ctrl s0 node_count) (nodes s0) (-1) s /\ inflight s = [] /\
  (mu (ctrl s0 node_count) s <= 2 * Z.to_nat (ctrl s0 node_count))%nat.
Proof.
  intros Hc E. pose proof (rp1_store_init_inv (nf := True) s0 Hc) as H0.
  unfold post in H0. rewrite E in H0. destruct H0 as ([Hn _] & HI & Ha).
  assert (Hs : node_status s = fun _ => 0) by exact (agree_at _ L_status _ _ Ha eq_refl).
  assert (Hi : inflight s = []) by exact (agree_at _ L_inflight _ _ Ha eq_refl).
  pose proof (inv_cfg _ _ _ _ HI) as Hcfg. split_and!; [lia| |done|].
  - split; rewrite ?Hs, ?Hi; try done; [apply (inv_prog _ _ _ _ HI)|].
    destruct Hcfg as (_ & _ & (k & Hk & ->) & _). by apply Z.pow_pos_nonneg.
  - unfold mu. rewrite Hi. pose proof (pending_le (ctrl s0 node_count) s). cbn [length]. lia.
Qed.
Lemma quiet_count {A} fp (m : SM (st HW) A) s :
  mild rank m -> keeps (agree fp) m -> avoids_work fp = true -> avoids_config fp = true ->
  ends m s (fun _ s' => Quiet rank s s' /\ ctrl s' node_count = ctrl s node_count).
Proof.
  intros Hm Hw Ha Hc. eapply post_mono; [eapply post_keeps; [exact Hw|by apply (quiet_op rank fp)]|].
  cbn beta. intros a s' [HQ Hg]. split; [done|]. by apply (agree_node_count fp).
Qed.

Lemma scan_graph_ends prog fuel pf qf a s n :
  plain n prog -> 0 < n -> ctrl s node_count = n -> Pg n prog (-1) s -> (B < qf)%nat ->
  inflight s = [] -> (mu n s * (32 * B + 1) < fuel)%nat ->
  ends (scan_graph fuel pf qf a) s (fun _ _ => True).
Proof using Responsive0.
  intros Hpl Hn Hc HP Hq Hi Hf. unfold scan_graph. apply post_bind.
  eapply post_mono; [by apply (quiet_count _ _ s (mild_cycles rank B) fp_cycles)|].
  intros now s1 [HQ1 Hg1]. unfold put_glob, get_ctrl. do 4 post_step.
  set (s2 := set_glob _ _ _). assert (HQ2 : Quiet rank s1 s2) by (split; try done; by apply calm_hw).
  apply post_bind.
  eapply post_mono; [by apply (quiet_count _ _ s2 (mild_trace rank B _ _ _ _) (fp_trace_op _ _ _ _))|].
  intros [] s3 [HQ3 Hg3]. assert (HQ : Quiet rank s s3) by (by etransitivity; [|etransitivity]).
  apply post_bind. eapply post_mono.
  { apply (loop_ends n prog); try done.
    - rewrite Hg3. cbn. by rewrite Hg1.
    - by eapply quiet_pg.
    - by rewrite (q_inflight _ _ _ HQ).
    - by rewrite (quiet_mu rank n _ _ HQ). }
  intros r s4 _. apply post_bind.
  eapply post_mono; [apply (mild_trace rank B)|]. intros. by apply post_ret.
Qed.

(** Passes enough for [n] nodes. *)
Definition enough (n : Z) : nat := 2 * Z.to_nat n * (32 * B + 1).

Lemma execute_graph_ends fuel pf qf a s :
  config_words (ctrl s) -> plain (ctrl s node_count) (nodes s) -> (B < qf)%nat ->
  (enough (ctrl s node_count) < fuel)%nat -> ends (execute_graph fuel pf qf a) s (fun _ _ => True).
Proof using Responsive0.
  intros Hc Hpl Hq Hf. unfold execute_graph. apply post_bind.
  eapply post_mono; [eapply post_keeps; [apply fp_begin_graph|apply mild_begin_graph]|].
  intros [] s1 [_ Hg1]. pose proof (fun H => agree_node_count _ _ _ H Hg1) as Hn1.
  specialize (Hn1 eq_refl).
  assert (Hc1 : config_words (ctrl s1)) by (by eapply agree_config_words; [|exact Hg1|]).
  assert (Hp1 : nodes s1 = nodes s) by (by apply (agree_at _ L_packets _ _ Hg1)).
  rewrite <-Hn1 in Hf, Hpl. rewrite <-Hp1 in Hpl. apply post_bind.
  pose proof (rp1_store_init_inv (nf := False) s1 Hc1) as Hi. unfold post in Hi |- * at 1.
  destruct (rp1_store_init s1) as [r s2| |] eqn:E; [|done|done].
  destruct r as [[d x]|].
  - apply post_bind. eapply post_mono; [apply (mild_latch_error rank)|]. intros [] s3 _.
    apply post_bind. eapply post_mono; [apply (mild_cycles rank B)|]. intros now s4 _.
    unfold put_glob. do 2 post_step. by apply post_ret.
  - destruct (accepted_pg s1 s2 Hc1 E) as (Hn & HP & Hfl & Hmu).
    apply (scan_graph_ends (nodes s1) _ _ _ _ _ (ctrl s1 node_count)); try done.
    + pose proof (keeps_run _ _ _ _ _ fp_rp1_store_init E) as Hg2.
      by apply (agree_node_count fp_store_init).
    + unfold enough in Hf. nia.
Qed.

Lemma ends_safe_returns {A} (m : SM (st HW) A) s Q Q' :
  ends m s Q -> post False True m s Q' -> exists r s', m s = Ret r s'.
Proof. unfold post. intros H1 H2. destruct (m s) as [r s'| |]; [by exists r, s'|done..]. Qed.

Lemma publish_result_returns a r s : exists s', publish_result a r s = Ret tt s'.
Proof. by eexists. Qed.

(** C3: every submission is answered.  When the host rings the doorbell of a
    running, non-terminal firmware with a graph of kernels and immediate
    packets, valid or not, whose software DMA stays clear of the shared window,
    and the kernels and the host are responsive, the pass returns within the
    stated number of scan passes: it publishes the submitted sequence number as
    done, with the state that classifies its result. *)
Theorem submission_answered fuel pf qf s :
  running s -> ~ terminal s -> ctrl s graph_seq <> ctrl s graph_done_seq ->
  plain (ctrl s node_count) (nodes s) -> dma_outside s -> (B < qf)%nat ->
  (enough (ctrl s node_count) < fuel)%nat ->
  exists r s', outer_pass fuel pf qf s = Ret (Some r) s' /\
    ctrl s' graph_done_seq = ctrl s graph_seq /\ ctrl s' rp1_state = terminal_state r.
Proof using Responsive0.
  intros Hr Ht Hne Hpl Hd Hq Hf. pose proof (running_staged s Hr) as Hs.
  pose proof (execute_graph_ends fuel pf qf (ctrl s graph_seq) s (proj1 Hs) Hpl Hq Hf) as He.
  destruct (ends_safe_returns _ _ _ _ He (execute_graph_safe fuel pf qf (ctrl s graph_seq) s Hs Hd)) as (r & s1 & Eg).
  destruct (publish_result_returns (ctrl s graph_seq) r s1) as [s' Ep].
  exists r, s'. split; [by eapply outer_pass_accept|].
  by destruct (publish_result_run _ _ _ _ _ Ep) as (? & ? & _).
Qed.
End answered.

(** ** A responsive fabric *)

(** Kernels that are found busy [busy_polls] more times, at most three, and
    then done, and a host that drains the queue. *)
Record slow_fabric := { busy_polls : nat }.

Definition slow_left (h : slow_fabric) : nat := Nat.min 3 (busy_polls h).

#[export] Instance slow_hal : Hal slow_fabric := {
  hal_read32 a h := ((if decide (slow_left h = 0%nat) then 2 else 0), {| busy_polls := pred (slow_left h) |});
  hal_write32 a v h := h;
  hal_barrier h := h;
  hal_pmu_init h := h;
  hal_cycles h := (0, h);
  hal_host h c sigs := (h, c cq_write_idx, sigs)
}.

#[export] Instance slow_responsive : Responsive slow_fabric (fun h _ => slow_left h) 3.
Proof.
  split; cbn -[decide slow_left]; try done; unfold slow_left; cbn -[Nat.min]; [lia|lia| |].
  - intros h k. case_decide; [done|]. lia.
  - intros h c sigs Hc. unfold sub32, u32. rewrite Zminus_mod_idemp_r, Z.sub_diag. done.
Qed.

(** The chain of two kernels and a NOP on this fabric. *)
Lemma submission_answered_witness :
  let s := final rp1_startup (set_ctrl graph_seq 1 (staged {| busy_polls := 3 |} chain [])) in
  exists r s', outer_pass 583 0 4 s = Ret (Some r) s' /\
    ctrl s' graph_done_seq = 1 /\ ctrl s' rp1_state = terminal_state r.
Proof.
  set (s0 := set_ctrl graph_seq 1 (staged {| busy_polls := 3 |} chain [])). intros s.
  apply (submission_answered (fun h _ => slow_left h) 3 583 0 4 s).
  - destruct (returns_final rp1_startup s0) as [[] E]; [by vm_compute|].
    apply (running_boot s0); [repeat constructor; done|exact chain_packets_ok|exact E].
  - intros [H|H]; vm_compute in H; discriminate.
  - vm_compute. discriminate.
  - change (plain 3 (nodes s)). intros i Hi.
    assert (i = 0 \/ i = 1 \/ i = 2) as [->|[->| ->]] by lia; exact I.
  - intros i Hi. change (0 <= i < 3) in Hi. assert (i = 0 \/ i = 1 \/ i = 2) as [->|[->| ->]] by lia; exact I.
  - lia.
  - apply Nat.ltb_lt. vm_compute. reflexivity.
Defined.
