(* ===== verification/Rp1Deadline.v ===== *)
(** * The deadline of a PDI load

    [rp1_pdi_load] of rp1_pdi.c polls the loader's observation register with
    no bound but its deadline, which it measures on a 32-bit counter that
    wraps.  On any counter that advances between two samples, by less than
    what is left of 32 bits, the poll ends, and it never gives up early. *)

From S2P Require Import Prelude Rp1Protocol Rp1Store Rp1Loop Rp1Fixture.

(** ** The clock *)

(** A free-running counter behind the clock register: [tick] never goes back,
    and grows by at least one and at most [step] from one sample of a polling
    loop to the next. *)
Class Ticking (HW : Type) `{!Hal HW} (tick : HW -> Z) (step : Z) : Prop := {
  tick_sample h : (hal_cycles h).1 = tick (hal_cycles h).2;
  tick_gap a h : let h1 := (hal_read32 a h).2 in
    tick h < tick (hal_cycles h1).2 <= tick h + step;
  tick_write a v h : tick h <= tick (hal_write32 a v h);
  tick_barrier h : tick h <= tick (hal_barrier h);
  tick_cycles h : tick h <= tick (hal_cycles h).2
}.

Section pdi.
Context {HW : Type} `{!Hal HW} `{!Platform} (tick : HW -> Z) (step : Z).
Context `{!Ticking HW tick step}.
Implicit Types s : st HW.

Definition pdi_timeout (timeout_cycles : Z) : Z :=
  if timeout_cycles =? 0 then RP1_DEFAULT_PDI_TIMEOUT_TICKS else timeout_cycles.

(** The polling loop, [e] ticks after the clock was sampled at [t0]. *)
Lemma pdi_wait_ends timeout t0 fuel : forall s,
  timeout + step <= 2 ^ 32 -> 0 <= tick (hw s) - t0 < timeout ->
  timeout - (tick (hw s) - t0) <= Z.of_nat fuel ->
  total (pdi_wait fuel (u32 t0) timeout) s
    (fun ack s' => ack = false -> timeout <= tick (hw s') - t0).
Proof using Ticking0.
  induction fuel as [|fuel IH]; intros s Hw Ht Hf; cbn [pdi_wait]; [lia|].
  pose proof (tick_gap RP1_PDI_IPI_OBSERVATION_REG (hw s)) as Hg.
  unfold rp1_mmio_read32. apply post_bind. unfold post at 1.
  destruct (hal_read32 _ (hw s)) as [v h1]. cbn [snd] in Hg. cbn beta iota.
  post_step; [by apply post_ret|]. pose proof (tick_sample h1) as Hs.
  unfold rp1_cycles. apply post_bind. unfold post at 1. cbn [hw set_hw].
  destruct (hal_cycles h1) as [now h2]. cbn [fst snd] in Hg, Hs. subst now. cbn beta iota.
  assert (Hd : sub32 (u32 (tick h2)) (u32 t0) = tick h2 - t0).
  { unfold sub32, u32. rewrite <-Zminus_mod. apply Z.mod_small. lia. }
  unfold rp1_timeout_elapsed. rewrite Hd. destruct (Z.leb_spec timeout (tick h2 - t0)).
  - by apply post_ret.
  - apply IH; cbn [hw set_hw]; lia.
Qed.

(** A PDI load always returns, and honours its deadline across the wrap of
    the counter.  On a clock that advances, with a timeout that leaves room for
    one sampling gap below 2^32 ticks, [rp1_pdi_load] returns after at most as
    many polls as the timeout has ticks, and reports a timeout only when at
    least that many ticks went by since it was called. *)
Theorem pdi_load_deadline fuel addr_lo addr_hi timeout_cycles s :
  0 < pdi_timeout timeout_cycles -> pdi_timeout timeout_cycles + step <= 2 ^ 32 ->
  pdi_timeout timeout_cycles <= Z.of_nat fuel ->
  total (rp1_pdi_load fuel addr_lo addr_hi timeout_cycles) s (fun r s' =>
    pdi_outcome r = RP1_PDI_RESULT_TIMEOUT ->
    pdi_timeout timeout_cycles <= tick (hw s') - tick (hw s)).
Proof using Ticking0.
  intros H0 Hw Hf. unfold rp1_pdi_load, rp1_mmio_write32, rp1_barrier.
  repeat (apply post_bind, post_modify); cbn [hw set_hw].
  change (if timeout_cycles =? 0 then _ else _) with (pdi_timeout timeout_cycles). cbv zeta.
  match goal with |- context [set_hw ?h _] =>
    assert (Hle : tick (hw s) <= tick h) by
      (repeat (etrans; [|first [apply tick_write|apply tick_barrier]]); reflexivity);
    revert Hle; generalize h
  end. intros h Hle.
  pose proof (tick_sample h) as Hs. pose proof (tick_cycles h) as Hc.
  apply post_bind. unfold rp1_cycles, post at 1. cbn [hw set_hw].
  destruct (hal_cycles h) as [now h1]. cbn [fst snd] in Hs, Hc. subst now. cbn beta iota.
  apply post_bind. eapply post_mono.
  { apply (pdi_wait_ends _ (tick h1)); [done|cbn [hw set_hw]; lia|cbn [hw set_hw]; lia]. }
  intros [] s2 Hack.
  - apply post_bind, post_modify. do 2 (apply post_bind, post_mmio_read32; intros). apply post_ret.
    cbn. by destruct (_ =? 0).
  - apply post_ret. specialize (Hack eq_refl). lia.
Qed.
End pdi.

(** ** A loader that never answers *)

Record dead_loader := { dl_clock : Z }.

#[export] Instance dead_hal : Hal dead_loader := {
  hal_read32 a h := (2, h);
  hal_write32 a v h := h;
  hal_barrier h := h;
  hal_pmu_init h := {| dl_clock := 0 |};
  hal_cycles h := (dl_clock h + 1, {| dl_clock := dl_clock h + 1 |});
  hal_host h c sigs := (h, c cq_read_idx, sigs)
}.

#[export] Instance dead_ticking : Ticking dead_loader dl_clock 1.
Proof. split; cbn; lia. Qed.

(** Called two ticks before the counter wraps, with a timeout of five. *)
Lemma pdi_load_deadline_witness :
  let s := staged {| dl_clock := 2 ^ 32 - 2 |} [] [] in
  (match rp1_pdi_load 5 0 0 5 s with Ret r _ => Some (pdi_outcome r) | _ => None end) =
    Some RP1_PDI_RESULT_TIMEOUT /\
  total (rp1_pdi_load 5 0 0 5) s (fun r s' =>
    pdi_outcome r = RP1_PDI_RESULT_TIMEOUT -> 5 <= dl_clock (hw s') - dl_clock (hw s)).
Proof.
  split; [vm_compute; reflexivity|].
  apply (pdi_load_deadline dl_clock 1 5 0 0 5); vm_compute; congruence.
Defined.
