(* ===== verification/MemoryMap.v ===== *)
(** * The device memory map of the daemon (vrtd/src/allocator.c)

    DDR and HBM are 64 regions of 512 MB each, every region eight subregions
    of 64 MB; a subregion records the connection id of its owner, 0 when it
    is free.  Allocation is first fit within a region; freeing checks the
    owner of every subregion before it clears any.

    The theorems: an allocation takes exactly a run of free subregions inside
    one region and nothing else; it fails only when no such run exists; the
    run is the first one; freeing it restores the map; a client can neither
    take nor free what another owns; the live allocations of any history are
    disjoint and account for every owned subregion. *)

From S2P Require Import Prelude.

Definition HBM_REGIONS : nat := 64.
Definition DDR_REGIONS : nat := 64.
Definition HBM_START_ADDRESS : Z := 0x4000000000.
Definition DDR_START_ADDRESS : Z := 0x60000000000.
Definition REGION_SIZE : Z := 512 * 1024 * 1024.
Definition SUBREGION_SIZE : Z := 64 * 1024 * 1024.
Definition SUBREGIONS_PER_REGION : Z := REGION_SIZE / SUBREGION_SIZE.

(** [client_id[SUBREGIONS_PER_REGION]], and the arrays of regions. *)
Abbreviation region_data := (list Z).

Record device_memory_map := {
  ddr_regions : list region_data;
  hbm_regions : list region_data
}.

Inductive allocation_type := ALLOCATION_TYPE_DDR | ALLOCATION_TYPE_HBM | ALLOCATION_TYPE_HBM_VNOC.

#[export] Instance allocation_type_eq_dec : EqDecision allocation_type.
Proof. solve_decision. Defined.

(** The result code with the output parameters of a success. *)
Inductive alloc_outcome :=
  | Allocated (addr size : Z)
  | NoMemory
  | BadArgument.

Inductive free_outcome := Freed | FreeBadArgument.

Definition free_region : region_data := replicate (Z.to_nat SUBREGIONS_PER_REGION) 0.

Definition device_memory_map_create : device_memory_map :=
  {| ddr_regions := replicate DDR_REGIONS free_region;
     hbm_regions := replicate HBM_REGIONS free_region |}.

(** ** Scanning and stamping one region *)

(** The subregion loop: [contiguous_free] counts the run that ends at [idx]. *)
Fixpoint scan_run (num idx contiguous_free : nat) (l : region_data) : option nat :=
  match l with
  | [] => None
  | c :: l' =>
      if c =? 0 then
        if (S contiguous_free =? num)%nat then Some (idx + 1 - num)%nat
        else scan_run num (S idx) (S contiguous_free) l'
      else scan_run num (S idx) 0 l'
  end.

(** [for (i = 0; i < num; i++) client_id[start + i] = v] *)
Fixpoint stamp (num start : nat) (v : Z) (l : region_data) : region_data :=
  match num with
  | O => l
  | S num' => stamp num' (S start) v (<[start := v]> l)
  end.

(** [for (i = 0; i < num; i++) if (client_id[start + i] != v) return BAD] *)
Fixpoint all_owned (num start : nat) (v : Z) (l : region_data) : bool :=
  match num with
  | O => true
  | S num' => bool_decide (l !! start = Some v) && all_owned num' (S start) v l
  end.

(** The region loop: first fit across regions. *)
Fixpoint scan_regions (num region_idx : nat) (regions : list region_data) : option (nat * nat) :=
  match regions with
  | [] => None
  | l :: regions' =>
      match scan_run num 0 0 l with
      | Some start => Some (region_idx, start)
      | None => scan_regions num (S region_idx) regions'
      end
  end.

(** Round up to whole subregions, with the 64-bit wrap of the sum. *)
Definition num_subregions (size : Z) : Z := u64 (size + SUBREGION_SIZE - 1) / SUBREGION_SIZE.

Definition block_address (base : Z) (region_idx start : nat) : Z :=
  base + Z.of_nat region_idx * REGION_SIZE + Z.of_nat start * SUBREGION_SIZE.

(** Stamp the block and report it. *)
Definition take_block (base : Z) (num : nat) (client_id : Z) (regions : list region_data)
    (block : option (nat * nat)) : list region_data * alloc_outcome :=
  match block with
  | Some (region_idx, start) =>
      (alter (stamp num start client_id) region_idx regions,
       Allocated (block_address base region_idx start) (Z.of_nat num * SUBREGION_SIZE))
  | None => (regions, NoMemory)
  end.

Definition device_memory_map_allocate (map : device_memory_map) (type : allocation_type)
    (size arg client_id : Z) : device_memory_map * alloc_outcome :=
  if size =? 0 then (map, BadArgument)
  else
    let num := num_subregions size in
    if client_id =? 0 then (map, BadArgument)
    else match type with
    | ALLOCATION_TYPE_DDR =>
        if SUBREGIONS_PER_REGION <? num then (map, BadArgument)
        else
          let num := Z.to_nat num in
          let '(ddr, r) := take_block DDR_START_ADDRESS num client_id (ddr_regions map)
                             (scan_regions num 0 (ddr_regions map)) in
          ({| ddr_regions := ddr; hbm_regions := hbm_regions map |}, r)
    | ALLOCATION_TYPE_HBM =>
        if (Z.of_nat HBM_REGIONS <=? arg) || (SUBREGIONS_PER_REGION <? num) then (map, BadArgument)
        else
          let num := Z.to_nat num in
          let region_idx := Z.to_nat arg in
          let block :=
            l ← hbm_regions map !! region_idx;
            start ← scan_run num 0 0 l;
            Some (region_idx, start) in
          let '(hbm, r) := take_block HBM_START_ADDRESS num client_id (hbm_regions map) block in
          ({| ddr_regions := ddr_regions map; hbm_regions := hbm |}, r)
    | ALLOCATION_TYPE_HBM_VNOC =>
        if SUBREGIONS_PER_REGION <? num then (map, BadArgument)
        else
          let num := Z.to_nat num in
          let '(hbm, r) := take_block HBM_START_ADDRESS num client_id (hbm_regions map)
                             (scan_regions num 0 (hbm_regions map)) in
          ({| ddr_regions := ddr_regions map; hbm_regions := hbm |}, r)
    end.

(** ** Freeing *)

Definition class_base (type : allocation_type) : Z :=
  match type with
  | ALLOCATION_TYPE_DDR => DDR_START_ADDRESS
  | ALLOCATION_TYPE_HBM | ALLOCATION_TYPE_HBM_VNOC => HBM_START_ADDRESS
  end.

Definition class_max_size (type : allocation_type) : Z :=
  match type with
  | ALLOCATION_TYPE_DDR => Z.of_nat DDR_REGIONS * REGION_SIZE
  | ALLOCATION_TYPE_HBM | ALLOCATION_TYPE_HBM_VNOC => Z.of_nat HBM_REGIONS * REGION_SIZE
  end.

Definition class_regions (type : allocation_type) (map : device_memory_map) : list region_data :=
  match type with
  | ALLOCATION_TYPE_DDR => ddr_regions map
  | ALLOCATION_TYPE_HBM | ALLOCATION_TYPE_HBM_VNOC => hbm_regions map
  end.

Definition with_regions (type : allocation_type) (rs : list region_data) (map : device_memory_map)
    : device_memory_map :=
  match type with
  | ALLOCATION_TYPE_DDR => {| ddr_regions := rs; hbm_regions := hbm_regions map |}
  | ALLOCATION_TYPE_HBM | ALLOCATION_TYPE_HBM_VNOC =>
      {| ddr_regions := ddr_regions map; hbm_regions := rs |}
  end.

Definition device_memory_map_free (map : device_memory_map) (type : allocation_type)
    (addr size client_id : Z) : device_memory_map * free_outcome :=
  if (size =? 0) || (client_id =? 0) then (map, FreeBadArgument)
  else
    let base := class_base type in
    if (addr <? base) || (base + class_max_size type <=? addr) then (map, FreeBadArgument)
    else
      let offset := addr - base in
      if negb (offset mod SUBREGION_SIZE =? 0) then (map, FreeBadArgument)
      else
        let num := num_subregions size in
        let region_idx := Z.to_nat (offset / REGION_SIZE) in
        let start := offset mod REGION_SIZE / SUBREGION_SIZE in
        if (SUBREGIONS_PER_REGION <? num) || (SUBREGIONS_PER_REGION <? start + num)
        then (map, FreeBadArgument)
        else
          let num := Z.to_nat num in
          let start := Z.to_nat start in
          let regions := class_regions type map in
          match regions !! region_idx with
          | Some l =>
              if all_owned num start client_id l then
                (with_regions type (alter (stamp num start 0) region_idx regions) map, Freed)
              else (map, FreeBadArgument)
          | None => (map, FreeBadArgument)
          end.

(** ** Runs of subregions *)

(** [num] subregions from [start] exist and are all free. *)
Definition run_free (num start : nat) (l : region_data) : Prop :=
  (start + num <= length l)%nat /\
  forall i, (start <= i < start + num)%nat -> l !! i = Some 0.

Lemma scan_run_spec num l0 : (0 < num)%nat -> forall l idx free,
  l = drop idx l0 -> (free < num)%nat -> (free <= idx)%nat ->
  (forall i, (idx - free <= i < idx)%nat -> l0 !! i = Some 0) ->
  ((idx - free)%nat = 0%nat \/ l0 !! (idx - free - 1)%nat <> Some 0) ->
  (forall st, (st + num <= idx)%nat -> ~ run_free num st l0) ->
  match scan_run num idx free l with
  | Some st => run_free num st l0 /\ forall st', (st' < st)%nat -> ~ run_free num st' l0
  | None => forall st, ~ run_free num st l0
  end.
Proof.
  intros Hnum l. induction l as [|c l IH]; intros idx free Hl Hf Hfi Hz Hmax Hno; cbn [scan_run].
  { intros st [Hlen Hrun]. apply (Hno st); [|done].
    assert (Hd : length (drop idx l0) = 0%nat) by (by rewrite <-Hl).
    rewrite length_drop in Hd. lia. }
  assert (Hc : l0 !! idx = Some c).
  { rewrite <-(Nat.add_0_r idx), <-lookup_drop, <-Hl. done. }
  assert (Hl' : l = drop (S idx) l0).
  { by rewrite <-Nat.add_1_r, <-drop_drop, <-Hl. }
  apply lookup_lt_Some in Hc as Hlt.
  destruct (c =? 0) eqn:E0; bools.
  - subst c. destruct (S free =? num)%nat eqn:En; [apply Nat.eqb_eq in En|apply Nat.eqb_neq in En].
    + split.
      * split; [lia|]. intros i Hi. destruct (decide (i = idx)) as [->|]; [done|]. apply Hz. lia.
      * intros st' Hst'. apply Hno. lia.
    + apply IH; try done; try lia.
      * intros i Hi. destruct (decide (i = idx)) as [->|]; [done|]. apply Hz. lia.
      * intros st Hst [Hlen Hrun]. destruct (decide (st + num = S idx)%nat) as [Heq|];
          [|apply (Hno st); [lia|done]].
        destruct Hmax as [?|Hmax]; [lia|]. apply Hmax, Hrun. lia.
  - apply IH; try done; try lia.
    + replace (S idx - 0 - 1)%nat with idx by lia. right. rewrite Hc. congruence.
    + intros st Hst [Hlen Hrun]. destruct (decide (st + num = S idx)%nat) as [Heq|];
        [|apply (Hno st); [lia|done]].
      assert (l0 !! idx = Some 0) by (apply Hrun; lia). congruence.
Qed.

(** The subregion loop finds the first free run, if there is one. *)
Lemma scan_run_first num l :
  (0 < num)%nat ->
  match scan_run num 0 0 l with
  | Some st => run_free num st l /\ forall st', (st' < st)%nat -> ~ run_free num st' l
  | None => forall st, ~ run_free num st l
  end.
Proof.
  intros Hnum. apply scan_run_spec; try done; try (intros; lia).
Qed.

(** With nothing to allocate the counter never matches. *)
Lemma scan_run_zero l : forall idx free, scan_run 0 idx free l = None.
Proof. induction l as [|c l IH]; intros; cbn [scan_run]; [done|]. destruct (c =? 0); apply IH. Qed.

Lemma scan_regions_zero rs : forall base, scan_regions 0 base rs = None.
Proof.
  induction rs as [|l rs IH]; intros; cbn [scan_regions]; [done|]. by rewrite scan_run_zero.
Qed.

Lemma scan_regions_spec num rs : (0 < num)%nat -> forall base,
  match scan_regions num base rs with
  | Some (r, st) => exists l, (base <= r)%nat /\ rs !! (r - base)%nat = Some l /\ run_free num st l /\
      (forall st', (st' < st)%nat -> ~ run_free num st' l) /\
      (forall r' l', (r' < r - base)%nat -> rs !! r' = Some l' -> forall st', ~ run_free num st' l')
  | None => forall r l, rs !! r = Some l -> forall st, ~ run_free num st l
  end.
Proof.
  intros Hnum. induction rs as [|l rs IH]; intros base; cbn [scan_regions]; [done|].
  pose proof (scan_run_first num l Hnum) as Hl. destruct (scan_run num 0 0 l) as [st|].
  - exists l. rewrite Nat.sub_diag. destruct Hl.
    split; [lia|]. do 3 (split; [done|]). intros; lia.
  - specialize (IH (S base)). destruct (scan_regions num (S base) rs) as [[r st]|].
    + destruct IH as (l' & Hb & Hr & Hrun & Hfirst & Hbefore). exists l'.
      split; [lia|]. replace (r - base)%nat with (S (r - S base)) by lia.
      split; [done|]. split; [done|]. split; [done|].
      intros [|r'] l'' Hr' Hlk; [injection Hlk as <-; exact Hl|]. apply (Hbefore r' l''); [lia|done].
    + intros [|r] l' Hlk; [injection Hlk as <-; exact Hl|]. by apply (IH r).
Qed.

(** ** Stamping *)

Lemma stamp_length num : forall start v l, length (stamp num start v l) = length l.
Proof. induction num; intros; cbn [stamp]; [done|]. by rewrite IHnum, length_insert. Qed.

Lemma stamp_lookup num : forall start v l i,
  (start + num <= length l)%nat ->
  stamp num start v l !! i = if decide (start <= i < start + num)%nat then Some v else l !! i.
Proof.
  induction num as [|num IH]; intros start v l i Hlen; cbn [stamp].
  { case_decide; [lia|done]. }
  rewrite IH by (rewrite length_insert; lia).
  destruct (decide (i = start)) as [->|].
  - rewrite decide_False by lia. rewrite decide_True by lia. apply list_lookup_insert_eq. lia.
  - rewrite list_lookup_insert_ne by done. do 2 case_decide; (done || lia).
Qed.

Lemma all_owned_spec num : forall start v l,
  all_owned num start v l = true <->
  forall i, (start <= i < start + num)%nat -> l !! i = Some v.
Proof.
  induction num as [|num IH]; intros start v l; cbn [all_owned].
  { split; [|done]. intros _ i; lia. }
  rewrite andb_true_iff, bool_decide_eq_true, IH. split.
  - intros [H0 H] i Hi. destruct (decide (i = start)) as [->|]; [done|]. apply H. lia.
  - intros H. split; [apply H; lia|]. intros i Hi. apply H. lia.
Qed.

(** Clearing a stamp over a free run gives back the region. *)
Lemma stamp_undo num start v l :
  run_free num start l -> stamp num start 0 (stamp num start v l) = l.
Proof.
  intros [Hlen Hrun]. apply list_eq. intros i.
  rewrite stamp_lookup by (by rewrite stamp_length). case_decide.
  - symmetry. by apply Hrun.
  - rewrite stamp_lookup by done. by rewrite decide_False.
Qed.

(** ** Well-formed maps and requests *)

Definition map_wf (m : device_memory_map) : Prop :=
  length (ddr_regions m) = DDR_REGIONS /\ length (hbm_regions m) = HBM_REGIONS /\
  Forall (fun l => length l = Z.to_nat SUBREGIONS_PER_REGION) (ddr_regions m) /\
  Forall (fun l => length l = Z.to_nat SUBREGIONS_PER_REGION) (hbm_regions m).

(** The owner of a subregion. *)
Definition owner (m : device_memory_map) (type : allocation_type) (r sub : nat) : option Z :=
  l ← class_regions type m !! r; l !! sub.

(** DDR and HBM are the two memories; HBM_VNOC names the HBM. *)
Definition same_memory (t1 t2 : allocation_type) : bool :=
  match t1, t2 with
  | ALLOCATION_TYPE_DDR, ALLOCATION_TYPE_DDR => true
  | ALLOCATION_TYPE_DDR, _ | _, ALLOCATION_TYPE_DDR => false
  | _, _ => true
  end.

(** The block of [num] subregions from [start] of region [r]. *)
Definition in_block (r start num r' sub : nat) : bool :=
  (r' =? r)%nat && (start <=? sub)%nat && (sub <? start + num)%nat.

(** Rounding a size that does not wrap. *)
Lemma num_subregions_spec size :
  0 < size -> size <= 2 ^ 64 - SUBREGION_SIZE ->
  (num_subregions size - 1) * SUBREGION_SIZE < size <= num_subregions size * SUBREGION_SIZE.
Proof.
  intros. unfold num_subregions, u64, SUBREGION_SIZE in *.
  rewrite Z.mod_small by lia. Z.div_mod_to_equations. lia.
Qed.

(** Rounding wraps to nothing in the last 64 MB below 2^64. *)
Lemma num_subregions_wrap size :
  2 ^ 64 - SUBREGION_SIZE < size < 2 ^ 64 -> num_subregions size = 0.
Proof.
  intros. unfold num_subregions, u64, SUBREGION_SIZE in *.
  rewrite <-(Z_mod_plus_full _ (-1)), Z.mod_small by lia. apply Z.div_small. lia.
Qed.

(** ** Allocation *)

(** Where the code looks: the region named by [arg], or all of them. *)
Definition eligible (type : allocation_type) (arg : Z) (r : nat) : Prop :=
  match type with
  | ALLOCATION_TYPE_HBM => Z.of_nat r = arg
  | _ => True
  end.

Definition find_block (map : device_memory_map) (type : allocation_type) (arg : Z) (num : nat)
    : option (nat * nat) :=
  match type with
  | ALLOCATION_TYPE_HBM =>
      l ← hbm_regions map !! Z.to_nat arg;
      start ← scan_run num 0 0 l;
      Some (Z.to_nat arg, start)
  | _ => scan_regions num 0 (class_regions type map)
  end.

(** The arguments the code refuses. *)
Definition bad_request (type : allocation_type) (size arg client_id : Z) : bool :=
  (size =? 0) || (client_id =? 0) || (SUBREGIONS_PER_REGION <? num_subregions size) ||
  match type with ALLOCATION_TYPE_HBM => Z.of_nat HBM_REGIONS <=? arg | _ => false end.

(** The three cases of the switch in one. *)
Lemma allocate_cases map type size arg client :
  device_memory_map_allocate map type size arg client =
  if bad_request type size arg client then (map, BadArgument)
  else
    let num := Z.to_nat (num_subregions size) in
    match find_block map type arg num with
    | Some (r, start) =>
        (with_regions type (alter (stamp num start client) r (class_regions type map)) map,
         Allocated (block_address (class_base type) r start) (Z.of_nat num * SUBREGION_SIZE))
    | None => (map, NoMemory)
    end.
Proof.
  unfold device_memory_map_allocate, bad_request, find_block. cbv zeta.
  destruct (size =? 0); [done|]. destruct (client =? 0); [done|]. cbn [orb].
  destruct map as [ddr hbm], type; cbn [class_regions class_base with_regions ddr_regions hbm_regions].
  - rewrite orb_false_r. destruct (_ <? _); [done|].
    by destruct (scan_regions _ _ _) as [[r st]|].
  - rewrite orb_comm. destruct (_ || _); [done|].
    destruct (hbm !! _) as [l|]; cbn; [|done]. by destruct (scan_run _ _ _ l).
  - rewrite orb_false_r. destruct (_ <? _); [done|].
    by destruct (scan_regions _ _ _) as [[r st]|].
Qed.

Lemma find_block_spec map type arg num :
  (0 < num)%nat -> 0 <= arg ->
  match find_block map type arg num with
  | Some (r, st) => exists l, class_regions type map !! r = Some l /\ run_free num st l /\
      eligible type arg r /\
      forall r' st' l', eligible type arg r' -> class_regions type map !! r' = Some l' ->
        (r' < r)%nat \/ (r' = r /\ (st' < st)%nat) -> ~ run_free num st' l'
  | None => forall r l, eligible type arg r -> class_regions type map !! r = Some l ->
      forall st, ~ run_free num st l
  end.
Proof.
  intros Hnum Harg. pose proof (fun rs => scan_regions_spec num rs Hnum 0) as Hrs.
  assert (Hall : forall rs,
    match scan_regions num 0 rs with
    | Some (r, st) => exists l, rs !! r = Some l /\ run_free num st l /\ True /\
        forall r' st' l', True -> rs !! r' = Some l' ->
          (r' < r)%nat \/ (r' = r /\ (st' < st)%nat) -> ~ run_free num st' l'
    | None => forall r l, True -> rs !! r = Some l -> forall st, ~ run_free num st l
    end).
  { intros rs. specialize (Hrs rs). destruct (scan_regions num 0 rs) as [[r st]|]; [|eauto].
    destruct Hrs as (l & _ & Hl & Hrun & Hfirst & Hbefore). rewrite Nat.sub_0_r in *.
    exists l. do 3 (split; [done|]). intros r' st' l' _ Hl' [?|[-> ?]]; [by eapply Hbefore|].
    assert (l' = l) as -> by congruence. by apply Hfirst. }
  destruct type; cbn [find_block eligible class_regions]; [apply Hall| |apply Hall].
  destruct (hbm_regions map !! Z.to_nat arg) as [l|] eqn:El; cbn.
  - pose proof (scan_run_first num l Hnum) as Hl. destruct (scan_run num 0 0 l) as [st|]; cbn.
    + destruct Hl as [Hrun Hfirst]. exists l. split; [done|]. split; [done|]. split; [lia|].
      intros r' st' l' Hr' Hl' [?|[-> ?]]; [lia|]. assert (l' = l) as -> by congruence.
      by apply Hfirst.
    + intros r l' Hr Hl'. assert (r = Z.to_nat arg) as -> by lia.
      assert (l' = l) as -> by congruence. done.
  - intros r l Hr Hl. assert (r = Z.to_nat arg) as -> by lia. congruence.
Qed.

(** ** Effects on ownership *)

Lemma class_with_regions type t rs map :
  class_regions t (with_regions type rs map) =
  if same_memory type t then rs else class_regions t map.
Proof. by destruct type, t. Qed.

(** Stamping a block of one region changes the owner of its subregions only. *)
Lemma owner_stamped type t map r start num v r' sub l :
  class_regions type map !! r = Some l -> (start + num <= length l)%nat ->
  owner (with_regions type (alter (stamp num start v) r (class_regions type map)) map) t r' sub =
  if same_memory type t && in_block r start num r' sub then Some v else owner map t r' sub.
Proof.
  intros Hl Hlen. unfold owner, in_block. rewrite class_with_regions.
  destruct (same_memory type t) eqn:Et; cbn [andb]; [|done].
  assert (class_regions t map = class_regions type map) as -> by (by destruct type, t).
  destruct (r' =? r)%nat eqn:Er; cbn [andb].
  - apply Nat.eqb_eq in Er as ->. rewrite list_lookup_alter_eq, Hl.
    cbn [fmap option_fmap option_map mbind option_bind]. rewrite stamp_lookup by done.
    destruct (Nat.leb_spec start sub), (Nat.ltb_spec sub (start + num)); cbn [andb];
      case_decide; (done || lia).
  - apply Nat.eqb_neq in Er. by rewrite list_lookup_alter_ne by done.
Qed.

Lemma class_region_length type map r l :
  map_wf map -> class_regions type map !! r = Some l ->
  (r < 64)%nat /\ length l = Z.to_nat SUBREGIONS_PER_REGION.
Proof.
  intros (Hd & Hh & Fd & Fh) Hl. apply lookup_lt_Some in Hl as Hlt.
  destruct type; cbn [class_regions] in *; (split; [unfold DDR_REGIONS, HBM_REGIONS in *; lia|]);
    first [by eapply (Forall_lookup_1 _ _ _ _ Fd)|by eapply (Forall_lookup_1 _ _ _ _ Fh)].
Qed.

(** A block number that was computed without wrap is positive. *)
Lemma num_positive size : 0 < size <= 2 ^ 64 - SUBREGION_SIZE -> 0 < num_subregions size.
Proof. intros. pose proof (num_subregions_spec size). unfold SUBREGION_SIZE in *. nia. Qed.

Lemma allocated_no_wrap map type size arg client map' addr size' :
  is_u64 size ->
  device_memory_map_allocate map type size arg client = (map', Allocated addr size') ->
  0 < size <= 2 ^ 64 - SUBREGION_SIZE.
Proof.
  intros Hs. rewrite allocate_cases. unfold bad_request. unfold is_u64 in Hs.
  destruct (size =? 0) eqn:E0; [done|]. bools. cbn [orb].
  destruct (_ || _); [done|]. cbv zeta.
  destruct (decide (size <= 2 ^ 64 - SUBREGION_SIZE)) as [|Hbig]; [lia|].
  rewrite num_subregions_wrap by lia.
  unfold find_block. destruct type; cbn [Z.to_nat]; try by rewrite scan_regions_zero.
  destruct (_ !! _) as [l|]; cbn; [|done]. by rewrite scan_run_zero.
Qed.

(** What a successful allocation did. *)
Record allocation (map map' : device_memory_map) (type : allocation_type) (size arg client : Z)
    (addr size' : Z) (r start num : nat) : Prop := {
  al_addr : addr = block_address (class_base type) r start;
  al_size : size' = Z.of_nat num * SUBREGION_SIZE /\ size <= size' < size + SUBREGION_SIZE;
  al_bounds : (0 < num)%nat /\ (r < 64)%nat /\ (start + num <= 8)%nat;
  al_eligible : eligible type arg r;
  al_was_free : forall sub, (start <= sub < start + num)%nat -> owner map type r sub = Some 0;
  al_effect : forall t r' sub, owner map' t r' sub =
    if same_memory type t && in_block r start num r' sub then Some client
    else owner map t r' sub;
  al_first : forall r' st' l', eligible type arg r' -> class_regions type map !! r' = Some l' ->
    (r' < r)%nat \/ (r' = r /\ (st' < start)%nat) -> ~ run_free num st' l'
}.

Lemma allocate_success map type size arg client map' addr size' :
  map_wf map -> is_u64 size -> is_u64 arg ->
  device_memory_map_allocate map type size arg client = (map', Allocated addr size') ->
  exists r start num, allocation map map' type size arg client addr size' r start num /\
    map' = with_regions type (alter (stamp num start client) r (class_regions type map)) map /\
    client <> 0 /\ num = Z.to_nat (num_subregions size).
Proof.
  intros Hwf Hs Ha E. pose proof (allocated_no_wrap _ _ _ _ _ _ _ _ Hs E) as Hsz.
  pose proof (num_subregions_spec size ltac:(lia) ltac:(lia)) as Hnum.
  pose proof (num_positive size Hsz) as Hpos.
  rewrite allocate_cases in E. unfold bad_request in E.
  destruct (_ || _) eqn:Ebad; [done|]. cbv zeta in E. bools.
  set (num := Z.to_nat (num_subregions size)) in *.
  pose proof (find_block_spec map type arg num ltac:(lia) ltac:(unfold is_u64 in Ha; lia)) as Hf.
  destruct (find_block map type arg num) as [[r st]|]; [|done]. injection E as <- <- <-.
  destruct Hf as (l & Hl & [Hlen Hrun] & Hel & Hfirst).
  destruct (class_region_length _ _ _ _ Hwf Hl) as [Hr Hll].
  change (Z.to_nat SUBREGIONS_PER_REGION) with 8%nat in Hll.
  exists r, st, num. split; [|done]. split; try done.
  - split; [done|]. unfold SUBREGION_SIZE in *. lia.
  - lia.
  - intros sub Hsub. unfold owner. rewrite Hl. cbn. by apply Hrun.
  - intros. by eapply owner_stamped.
Qed.

Lemma with_regions_wf type num start v r map l :
  map_wf map -> class_regions type map !! r = Some l ->
  map_wf (with_regions type (alter (stamp num start v) r (class_regions type map)) map).
Proof.
  intros (Hd & Hh & Fd & Fh) Hl.
  assert (Hf : forall rs, Forall (fun l => length l = Z.to_nat SUBREGIONS_PER_REGION) rs ->
    Forall (fun l => length l = Z.to_nat SUBREGIONS_PER_REGION) (alter (stamp num start v) r rs)).
  { intros rs Hrs. apply Forall_lookup. intros i l' Hl'.
    destruct (decide (i = r)) as [->|].
    - rewrite list_lookup_alter_eq in Hl'. destruct (rs !! r) as [l0|] eqn:E; [|done].
      injection Hl' as <-. rewrite stamp_length. by eapply (Forall_lookup_1 _ _ _ _ Hrs).
    - rewrite list_lookup_alter_ne in Hl' by done. by eapply (Forall_lookup_1 _ _ _ _ Hrs). }
  unfold map_wf. destruct type; cbn [with_regions ddr_regions hbm_regions class_regions];
    rewrite ?length_alter; auto.
Qed.

Lemma create_wf : map_wf device_memory_map_create.
Proof. unfold map_wf. repeat split; by apply (Forall_replicate). Qed.

(** ** Freeing *)

(** A block address decodes to its region and subregion. *)
Lemma block_address_decode r start :
  (start < 8)%nat ->
  (Z.of_nat r * REGION_SIZE + Z.of_nat start * SUBREGION_SIZE) mod SUBREGION_SIZE = 0 /\
  (Z.of_nat r * REGION_SIZE + Z.of_nat start * SUBREGION_SIZE) / REGION_SIZE = Z.of_nat r /\
  (Z.of_nat r * REGION_SIZE + Z.of_nat start * SUBREGION_SIZE) mod REGION_SIZE / SUBREGION_SIZE =
    Z.of_nat start.
Proof. intros. unfold REGION_SIZE, SUBREGION_SIZE. Z.div_mod_to_equations. lia. Qed.

Lemma num_subregions_exact num :
  (0 < num <= 8)%nat -> num_subregions (Z.of_nat num * SUBREGION_SIZE) = Z.of_nat num.
Proof.
  intros. unfold num_subregions, u64, SUBREGION_SIZE. rewrite Z.mod_small by lia.
  Z.div_mod_to_equations. lia.
Qed.

(** Freeing at a block address: succeeds exactly when the client owns the
    subregions the size rounds to. *)
Lemma free_block map type r start num size client l :
  size <> 0 -> num_subregions size = Z.of_nat num ->
  (start < 8)%nat -> (start + num <= 8)%nat -> (r < 64)%nat -> client <> 0 ->
  class_regions type map !! r = Some l ->
  device_memory_map_free map type (block_address (class_base type) r start) size client =
  if all_owned num start client l then
    (with_regions type (alter (stamp num start 0) r (class_regions type map)) map, Freed)
  else (map, FreeBadArgument).
Proof.
  intros Hsz Hnum Hst0 Hst Hr Hc Hl. unfold device_memory_map_free.
  destruct (block_address_decode r start Hst0) as (Hm & Hq & Hs).
  rewrite (proj2 (Z.eqb_neq _ _) Hsz).
  rewrite (proj2 (Z.eqb_neq _ _) Hc). cbn [orb].
  assert (Hlo : (block_address (class_base type) r start <? class_base type) = false).
  { apply Z.ltb_ge. unfold block_address, REGION_SIZE, SUBREGION_SIZE. lia. }
  assert (Hhi : (class_base type + class_max_size type <=?
    block_address (class_base type) r start) = false).
  { apply Z.leb_gt. unfold block_address, class_max_size, REGION_SIZE, SUBREGION_SIZE, DDR_REGIONS,
      HBM_REGIONS. destruct type; lia. }
  rewrite Hlo, Hhi. cbn [orb]. cbv zeta. unfold block_address.
  replace (class_base type + Z.of_nat r * REGION_SIZE + Z.of_nat start * SUBREGION_SIZE -
    class_base type) with (Z.of_nat r * REGION_SIZE + Z.of_nat start * SUBREGION_SIZE) by lia.
  rewrite Hm, Hq, Hs, Hnum. cbn [Z.eqb negb].
  change SUBREGIONS_PER_REGION with 8.
  rewrite (proj2 (Z.ltb_ge _ _)), (proj2 (Z.ltb_ge _ _)) by lia. cbn [orb].
  rewrite !Nat2Z.id, Hl. by destruct (all_owned _ _ _ _).
Qed.

(** What freeing an arbitrary range did, whatever the arguments. *)
Lemma free_success map type addr size client map' :
  map_wf map -> is_u64 size ->
  device_memory_map_free map type addr size client = (map', Freed) ->
  exists r start num l, class_regions type map !! r = Some l /\ (start + num <= 8)%nat /\
    addr = block_address (class_base type) r start /\ Z.of_nat num = num_subregions size /\ client <> 0 /\
    (forall sub, (start <= sub < start + num)%nat -> owner map type r sub = Some client) /\
    map' = with_regions type (alter (stamp num start 0) r (class_regions type map)) map.
Proof.
  intros Hwf Hs. unfold device_memory_map_free. cbv zeta. destruct ((size =? 0) || _) eqn:E0; [done|].
  destruct ((addr <? _) || _) eqn:E1; [done|]. destruct (negb _) eqn:E2; [done|].
  destruct ((SUBREGIONS_PER_REGION <? _) || _) eqn:E3; [done|]. bools. set (offset := addr - class_base type) in *.
  destruct (class_regions type map !! Z.to_nat (offset / REGION_SIZE)) as [l|] eqn:El;
    [|by intros [=]].
  destruct (all_owned _ _ _ _) eqn:Eo; [|by intros [=]]. intros [= <-].
  rewrite all_owned_spec in Eo.
  assert (0 <= num_subregions size).
  { unfold num_subregions. apply Z.div_pos; [apply Z.mod_pos_bound; lia|done]. }
  assert (0 <= offset mod REGION_SIZE / SUBREGION_SIZE).
  { apply Z.div_pos; [apply Z.mod_pos_bound; unfold REGION_SIZE; lia|done]. }
  change SUBREGIONS_PER_REGION with 8 in *.
  exists (Z.to_nat (offset / REGION_SIZE)), (Z.to_nat (offset mod REGION_SIZE / SUBREGION_SIZE)),
    (Z.to_nat (num_subregions size)), l.
  split; [done|]. split; [lia|]. split.
  { unfold block_address. assert (0 <= offset) by (subst offset; lia). subst offset.
    unfold SUBREGION_SIZE, REGION_SIZE in *. Z.div_mod_to_equations. lia. }
  split; [lia|]. split; [done|]. split; [|done].
  intros sub Hsub. unfold owner. rewrite El. cbn. apply Eo. lia.
Qed.

(** A refused free changes nothing. *)
Lemma refused_unchanged m type addr size client m' :
  device_memory_map_free m type addr size client = (m', FreeBadArgument) -> m' = m.
Proof. unfold device_memory_map_free. intros. repeat (case_match; simplify_eq; try done). Qed.

(** ** Theorems about single calls *)

(** A successful allocation takes a run of free subregions inside one
    region of the requested memory (the region the caller named, for HBM),
    large enough for the request and less than one subregion larger; exactly
    these change owner, to the client; and it is the first such run. *)
Lemma allocate_takes_free_run map type size arg client map' addr size' :
  map_wf map -> is_u64 size -> is_u64 arg ->
  device_memory_map_allocate map type size arg client = (map', Allocated addr size') ->
  map_wf map' /\
  exists r start num, allocation map map' type size arg client addr size' r start num.
Proof.
  intros Hwf Hs Ha E.
  destruct (allocate_success _ _ _ _ _ _ _ _ Hwf Hs Ha E) as (r & st & num & Hal & -> & _).
  split; [|eauto]. destruct Hal as [_ _ [Hnum [Hr Hst]] _ Hfree _ _].
  specialize (Hfree st ltac:(lia)). unfold owner in Hfree.
  destruct (class_regions type map !! r) as [l|] eqn:El; [|done]. by eapply with_regions_wf.
Qed.

(** NO_MEMORY is the truth: no region the request may use has enough
    contiguous free subregions. *)
Lemma no_memory_sound map type size arg client map' :
  is_u64 arg -> 0 < size <= 2 ^ 64 - SUBREGION_SIZE ->
  device_memory_map_allocate map type size arg client = (map', NoMemory) ->
  map' = map /\ forall r l st, eligible type arg r -> class_regions type map !! r = Some l ->
    ~ run_free (Z.to_nat (num_subregions size)) st l.
Proof.
  intros Ha Hs. rewrite allocate_cases. destruct (bad_request _ _ _ _); [done|]. cbv zeta.
  pose proof (num_positive size Hs) as Hpos.
  pose proof (find_block_spec map type arg (Z.to_nat (num_subregions size)) ltac:(lia)
    ltac:(unfold is_u64 in Ha; lia)) as Hf.
  destruct (find_block _ _ _ _) as [[r st]|]; [done|]. intros [= <-]. split; [done|]. eauto.
Qed.

(** C30: an allocation decides its request exactly.  Success takes the first
    run of free subregions inside one region of the requested memory (the one
    the caller named, for HBM) that is large enough, less than one subregion
    larger than the request, and stamps exactly this run; NO_MEMORY means that
    no such region has a long enough free run; a refusal changes nothing. *)
Theorem allocate_exact map type size arg client map' res :
  map_wf map -> 0 < size <= 2 ^ 64 - SUBREGION_SIZE -> is_u64 arg ->
  device_memory_map_allocate map type size arg client = (map', res) ->
  match res with
  | Allocated addr size' =>
      map_wf map' /\ exists r start num, allocation map map' type size arg client addr size' r start num
  | NoMemory =>
      map' = map /\ forall r l st, eligible type arg r -> class_regions type map !! r = Some l ->
        ~ run_free (Z.to_nat (num_subregions size)) st l
  | BadArgument => map' = map
  end.
Proof.
  intros Hwf Hs Ha E. destruct res as [addr size'| |].
  - eapply allocate_takes_free_run; [done| |done|done]. unfold is_u64, SUBREGION_SIZE in *. lia.
  - by eapply no_memory_sound.
  - revert E. rewrite allocate_cases. cbv zeta. repeat case_match; by intros [= <-].
Qed.

(** C35: allocate and free are inverse: on a well-formed map, which every map
    the calls reach is, freeing an allocation with the address and size it
    reported succeeds and gives back the map as it was. *)
Theorem free_undoes_allocate map type size arg client map' addr size' :
  map_wf map -> is_u64 size -> is_u64 arg ->
  device_memory_map_allocate map type size arg client = (map', Allocated addr size') ->
  device_memory_map_free map' type addr size' client = (map, Freed).
Proof.
  intros Hwf Hs Ha E.
  destruct (allocate_success _ _ _ _ _ _ _ _ Hwf Hs Ha E) as (r & st & num & Hal & Hm & Hc & _).
  destruct Hal as [-> [-> _] (Hnum & Hr & Hst) _ Hfree Heff _].
  assert (exists l, class_regions type map !! r = Some l) as [l Hl].
  { specialize (Hfree st ltac:(lia)). unfold owner in Hfree.
    destruct (class_regions type map !! r); [eauto|done]. }
  destruct (class_region_length _ _ _ _ Hwf Hl) as [_ Hlen].
  change (Z.to_nat SUBREGIONS_PER_REGION) with 8%nat in Hlen.
  assert (Hrun : run_free num st l).
  { split; [lia|]. intros i Hi. specialize (Hfree i Hi). unfold owner in Hfree.
    by rewrite Hl in Hfree. }
  assert (Hcr : class_regions type map' = alter (stamp num st client) r (class_regions type map)).
  { rewrite Hm, class_with_regions. by destruct type. }
  rewrite (free_block map' type r st num _ client (stamp num st client l));
    [|unfold SUBREGION_SIZE; lia|apply num_subregions_exact; lia|lia|done|done|done|].
  2: { by rewrite Hcr, list_lookup_alter_eq, Hl. }
  rewrite (proj2 (all_owned_spec _ _ _ _)).
  2: { intros i Hi. rewrite stamp_lookup by lia. by rewrite decide_True. }
  f_equal. rewrite Hcr. assert (Hback : alter (stamp num st 0) r
      (alter (stamp num st client) r (class_regions type map)) = class_regions type map).
  { apply list_eq. intros i. destruct (decide (i = r)) as [->|].
    - rewrite !list_lookup_alter_eq, Hl. cbn. by rewrite stamp_undo.
    - by rewrite !list_lookup_alter_ne by done. }
  rewrite Hback, Hm. by destruct map, type.
Qed.

(** A client can free only what it owns.  A successful free clears a range
    whose subregions all belonged to the client and changes no other; a refused
    free changes nothing. *)
Theorem free_only_own map type addr size client map' res :
  map_wf map -> is_u64 size ->
  device_memory_map_free map type addr size client = (map', res) ->
  match res with
  | FreeBadArgument => map' = map
  | Freed => map_wf map' /\ exists r start num, Z.of_nat num = num_subregions size /\
      (forall sub, (start <= sub < start + num)%nat -> owner map type r sub = Some client) /\
      forall t r' sub, owner map' t r' sub =
        if same_memory type t && in_block r start num r' sub then Some 0 else owner map t r' sub
  end.
Proof.
  intros Hwf Hs E. destruct res.
  - destruct (free_success _ _ _ _ _ _ Hwf Hs E) as (r & st & num & l & Hl & Hst & _ & Hn & _ & Ho & ->).
    destruct (class_region_length _ _ _ _ Hwf Hl) as [_ Hlen].
    change (Z.to_nat SUBREGIONS_PER_REGION) with 8%nat in Hlen.
    split; [by eapply with_regions_wf|]. exists r, st, num. split; [done|]. split; [done|].
    intros. eapply owner_stamped; [done|lia].
  - by eapply refused_unchanged.
Qed.

(** The 64-bit rounding wraps.  A free whose size is within 64 MB of
    2^64 rounds to zero subregions: it reports success for any client and any
    subregion-aligned address, without checking an owner, and frees nothing. *)
Theorem free_huge_size_unchecked map type r start size client l :
  (r < 64)%nat -> (start < 8)%nat -> client <> 0 -> class_regions type map !! r = Some l ->
  2 ^ 64 - SUBREGION_SIZE < size < 2 ^ 64 ->
  device_memory_map_free map type (block_address (class_base type) r start) size client =
    (map, Freed).
Proof.
  intros Hr Hst Hc Hl Hs.
  rewrite (free_block map type r start 0 size client l); try done; try lia.
  - cbn [all_owned stamp]. f_equal. rewrite list_alter_id by done. by destruct map, type.
  - unfold SUBREGION_SIZE in Hs. lia.
  - by rewrite num_subregions_wrap.
Qed.

(** ** Histories

    What the calls reported, latest first: the range of device memory and the
    client it was granted to or released by. *)

Inductive event :=
  | Granted (addr size client : Z)
  | Released (addr size client : Z).

Definition in_span (addr size x : Z) : bool := (addr <=? x) && (x <? addr + size).

(** The client that holds the byte [x], 0 for nobody: the last report about
    the byte decides. *)
Fixpoint held_by (log : list event) (x : Z) : Z :=
  match log with
  | [] => 0
  | Granted addr size client :: log => if in_span addr size x then client else held_by log x
  | Released addr size _ :: log => if in_span addr size x then 0 else held_by log x
  end.

(** Every range that was granted was held by nobody, and every range that was
    released was held by the client that released it, whole. *)
Fixpoint exclusive (log : list event) : Prop :=
  match log with
  | [] => True
  | Granted addr size client :: log =>
      client <> 0 /\ (forall x, in_span addr size x = true -> held_by log x = 0) /\ exclusive log
  | Released addr size client :: log =>
      client <> 0 /\ (forall x, in_span addr size x = true -> held_by log x = client) /\ exclusive log
  end.

(** The map after any calls of any clients with any arguments, served or
    refused. *)
Inductive calls : device_memory_map -> list event -> Prop :=
  | calls_create : calls device_memory_map_create []
  | calls_allocate m log type size arg client m' res :
      calls m log -> is_u64 size -> is_u64 arg ->
      device_memory_map_allocate m type size arg client = (m', res) ->
      calls m' (match res with Allocated addr size' => [Granted addr size' client] | _ => [] end ++ log)
  | calls_free m log type addr size client m' res :
      calls m log -> is_u64 size ->
      device_memory_map_free m type addr size client = (m', res) ->
      calls m' (match res with
                | Freed => [Released addr (num_subregions size * SUBREGION_SIZE) client]
                | FreeBadArgument => []
                end ++ log).

(** The byte [x] is in subregion [sub] of region [r]. *)
Definition in_subregion (t : allocation_type) (r sub : nat) (x : Z) : Prop :=
  block_address (class_base t) r sub <= x < block_address (class_base t) r sub + SUBREGION_SIZE.

(** What holds between the map and the reports. *)
Record recorded (m : device_memory_map) (log : list event) : Prop := {
  rc_wf : map_wf m;
  rc_exclusive : exclusive log;
  rc_owner t r sub x : (r < 64)%nat -> (sub < 8)%nat -> in_subregion t r sub x ->
    owner m t r sub = Some (held_by log x)
}.

Lemma in_span_spec addr size x : in_span addr size x = true <-> addr <= x < addr + size.
Proof. unfold in_span. rewrite andb_true_iff, Z.leb_le, Z.ltb_lt. done. Qed.

(** The bytes of a block are those of its subregions. *)
Lemma block_bytes type r start num t r' sub x :
  (r < 64)%nat -> (start + num <= 8)%nat -> (r' < 64)%nat -> (sub < 8)%nat -> in_subregion t r' sub x ->
  in_span (block_address (class_base type) r start) (Z.of_nat num * SUBREGION_SIZE) x =
  same_memory type t && in_block r start num r' sub.
Proof.
  intros Hr Hst Hr' Hsub Hx. apply eq_true_iff_eq. rewrite in_span_spec. unfold in_block, in_subregion in *.
  rewrite !andb_true_iff, Nat.eqb_eq, Nat.leb_le, Nat.ltb_lt.
  unfold block_address, class_base, REGION_SIZE, SUBREGION_SIZE, DDR_START_ADDRESS, HBM_START_ADDRESS in *.
  destruct type, t; cbn [same_memory]; lia.
Qed.

Lemma block_byte type r start num x :
  in_span (block_address (class_base type) r start) (Z.of_nat num * SUBREGION_SIZE) x = true ->
  exists sub, (start <= sub < start + num)%nat /\ in_subregion type r sub x.
Proof.
  rewrite in_span_spec. unfold in_subregion, block_address, REGION_SIZE, SUBREGION_SIZE. intros Hx.
  exists (Z.to_nat ((x - class_base type - Z.of_nat r * (512 * 1024 * 1024)) / (64 * 1024 * 1024))).
  Z.div_mod_to_equations. lia.
Qed.

(** A block that all belongs to [v] is held by [v], byte for byte. *)
Lemma block_held m log type r start num v :
  recorded m log -> (r < 64)%nat -> (start + num <= 8)%nat ->
  (forall sub, (start <= sub < start + num)%nat -> owner m type r sub = Some v) ->
  forall x, in_span (block_address (class_base type) r start) (Z.of_nat num * SUBREGION_SIZE) x = true ->
  held_by log x = v.
Proof.
  intros HR Hr Hst Ho x (sub & Hsub & Hx)%block_byte. specialize (Ho sub Hsub).
  rewrite (rc_owner _ _ HR type r sub x) in Ho by (done || lia). congruence.
Qed.

(** Stamping a block and reporting it. *)
Lemma stamp_recorded m log type r start num v l e :
  recorded m log -> class_regions type m !! r = Some l -> (start + num <= 8)%nat -> exclusive (e :: log) ->
  (forall x, held_by (e :: log) x =
    if in_span (block_address (class_base type) r start) (Z.of_nat num * SUBREGION_SIZE) x then v else held_by log x) ->
  recorded (with_regions type (alter (stamp num start v) r (class_regions type m)) m) (e :: log).
Proof.
  intros HR Hl Hst He Hh. destruct (class_region_length _ _ _ _ (rc_wf _ _ HR) Hl) as [Hr Hlen].
  change (Z.to_nat SUBREGIONS_PER_REGION) with 8%nat in Hlen.
  split; [by eapply with_regions_wf; [apply HR|]|done|]. intros t r' sub x Hr' Hsub Hx.
  rewrite (owner_stamped type t m r start num v r' sub l) by (done || lia).
  rewrite Hh, (block_bytes type r start num t r' sub x) by done.
  destruct (_ && _); [done|]. by apply HR.
Qed.

Lemma create_recorded : recorded device_memory_map_create [].
Proof.
  split; [apply create_wf|done|]. intros t r sub x Hr Hsub _. unfold owner, device_memory_map_create.
  destruct t; cbn [class_regions ddr_regions hbm_regions];
    rewrite lookup_replicate_2 by (unfold DDR_REGIONS, HBM_REGIONS; lia); by apply lookup_replicate_2.
Qed.

Lemma allocate_recorded m log type size arg client m' addr size' :
  recorded m log -> is_u64 size -> is_u64 arg ->
  device_memory_map_allocate m type size arg client = (m', Allocated addr size') ->
  recorded m' (Granted addr size' client :: log).
Proof.
  intros HR Hs Ha E.
  destruct (allocate_success _ _ _ _ _ _ _ _ (rc_wf _ _ HR) Hs Ha E) as (r & st & num & Hal & -> & Hc & _).
  destruct Hal as [-> [-> _] (Hnum & Hr & Hst) _ Hfree _ _].
  assert (exists l, class_regions type m !! r = Some l) as [l Hl].
  { specialize (Hfree st ltac:(lia)). unfold owner in Hfree.
    destruct (class_regions type m !! r); [eauto|done]. }
  eapply stamp_recorded; [done..| |done]. split; [done|]. split; [|apply HR]. by eapply block_held.
Qed.

Lemma free_recorded m log type addr size client m' :
  recorded m log -> is_u64 size -> device_memory_map_free m type addr size client = (m', Freed) ->
  recorded m' (Released addr (num_subregions size * SUBREGION_SIZE) client :: log).
Proof.
  intros HR Hs E.
  destruct (free_success _ _ _ _ _ _ (rc_wf _ _ HR) Hs E) as (r & st & num & l & Hl & Hst & -> & <- & Hc & Ho & ->).
  destruct (class_region_length _ _ _ _ (rc_wf _ _ HR) Hl) as [Hr _].
  eapply stamp_recorded; [done..| |done]. split; [done|]. split; [|apply HR]. by eapply block_held.
Qed.

Lemma allocate_refused m type size arg client m' res :
  device_memory_map_allocate m type size arg client = (m', res) ->
  res = NoMemory \/ res = BadArgument -> m' = m.
Proof.
  rewrite allocate_cases. destruct (bad_request _ _ _ _); [by intros [= <- <-]|]. cbv zeta.
  destruct (find_block _ _ _ _) as [[r st]|]; [|by intros [= <- <-]].
  intros [= <- <-] [?|?]; done.
Qed.

Lemma calls_recorded m log : calls m log -> recorded m log.
Proof.
  induction 1 as [|m log type size arg client m' res _ IH Hs Ha E|m log type addr size client m' res _ IH Hs E].
  - apply create_recorded.
  - destruct res as [addr size'| |]; cbn [app]; [exact (allocate_recorded _ _ _ _ _ _ _ _ _ IH Hs Ha E)|..];
      (rewrite (allocate_refused _ _ _ _ _ _ _ E); auto).
  - destruct res; cbn [app]; [exact (free_recorded _ _ _ _ _ _ _ IH Hs E)|]. by rewrite (refused_unchanged _ _ _ _ _ _ E).
Qed.

(** C29: after any calls of any clients with any arguments, served or
    refused, frees of a part of an allocation included: whatever was granted
    was free, byte for byte, whatever was released belonged to the client that
    released it, the owner the map records for a subregion is the client that
    holds each of its bytes, and a free of subregions of one region succeeds
    exactly when the client holds all of their bytes. *)
Theorem calls_exclusive m log :
  calls m log ->
  exclusive log /\
  (forall t r sub x, (r < 64)%nat -> (sub < 8)%nat -> in_subregion t r sub x ->
     owner m t r sub = Some (held_by log x)) /\
  (forall type r start num size client, (r < 64)%nat -> (0 < num)%nat -> (start + num <= 8)%nat -> size <> 0 ->
     num_subregions size = Z.of_nat num -> client <> 0 ->
     let addr := block_address (class_base type) r start in
     (device_memory_map_free m type addr size client).2 = Freed <->
     forall x, in_span addr (Z.of_nat num * SUBREGION_SIZE) x = true -> held_by log x = client).
Proof.
  intros HR%calls_recorded. split; [apply HR|]. split; [apply HR|].
  intros type r start num size client Hr Hn Hst Hsz Hnum Hc addr.
  assert (Hl : exists l, class_regions type m !! r = Some l).
  { pose proof (rc_owner _ _ HR type r 0%nat (block_address (class_base type) r 0) Hr ltac:(lia)) as Ho.
    unfold owner in Ho. destruct (class_regions type m !! r); [eauto|].
    discriminate Ho. unfold in_subregion, SUBREGION_SIZE. lia. }
  destruct Hl as [l Hl]. subst addr. rewrite (free_block m type r start num size client l) by (done || lia).
  destruct (all_owned num start client l) eqn:Eo; cbn [snd].
  - rewrite all_owned_spec in Eo. split; [intros _|done]. eapply block_held; [done..|].
    intros sub Hsub. unfold owner. rewrite Hl. by apply Eo.
  - split; [done|]. intros Hall. exfalso. apply not_true_iff_false in Eo. apply Eo, all_owned_spec.
    intros sub Hsub. set (x := block_address (class_base type) r sub).
    assert (Hx : in_subregion type r sub x) by (unfold in_subregion, SUBREGION_SIZE; lia).
    pose proof (rc_owner _ _ HR type r sub x Hr ltac:(lia) Hx) as Ho. unfold owner in Ho. rewrite Hl in Ho.
    change (l !! sub = Some (held_by log x)) in Ho. rewrite Ho, Hall; [done|].
    rewrite (block_bytes type r start num type r sub x) by (done || lia).
    unfold in_block. rewrite Nat.eqb_refl, (proj2 (Nat.leb_le _ _)), (proj2 (Nat.ltb_lt _ _)) by lia. by destruct type.
Qed.

(** ** Instances

    Client 7 asks for 100 MB of DDR and gets two subregions; client 9 takes
    the next one. *)

Definition MB : Z := 1024 * 1024.

Definition map1 : device_memory_map :=
  fst (device_memory_map_allocate device_memory_map_create ALLOCATION_TYPE_DDR (100 * MB) 0 7).
Definition map2 : device_memory_map :=
  fst (device_memory_map_allocate map1 ALLOCATION_TYPE_DDR MB 0 9).
Definition full_bank : device_memory_map :=
  fst (device_memory_map_allocate device_memory_map_create ALLOCATION_TYPE_HBM (512 * MB) 3 7).

(** The first request is served, and a bank that is taken refuses another. *)
Lemma allocate_exact_witness :
  (exists r start num, allocation device_memory_map_create map1 ALLOCATION_TYPE_DDR (100 * MB) 0 7
    DDR_START_ADDRESS (128 * MB) r start num) /\
  forall l, hbm_regions full_bank !! 3%nat = Some l -> ~ run_free 1 0 l.
Proof.
  split.
  - apply (allocate_exact device_memory_map_create ALLOCATION_TYPE_DDR (100 * MB) 0 7 map1
      (Allocated DDR_START_ADDRESS (128 * MB))); [exact create_wf|split; by vm_compute|split; by vm_compute|].
    by vm_compute.
  - intros l Hl.
    apply (allocate_exact full_bank ALLOCATION_TYPE_HBM MB 3 9 full_bank NoMemory) with (r := 3%nat);
      [|split; by vm_compute|split; by vm_compute|by vm_compute|done|done].
    unfold map_wf. vm_compute. repeat split; repeat constructor.
Defined.

Lemma free_undoes_allocate_witness :
  device_memory_map_free map2 ALLOCATION_TYPE_DDR (DDR_START_ADDRESS + 128 * MB) (64 * MB) 9 =
  (map1, Freed).
Proof.
  apply (free_undoes_allocate map1 ALLOCATION_TYPE_DDR MB 0 9 map2);
    [|split; by vm_compute|split; by vm_compute|by vm_compute].
  unfold map_wf. vm_compute. repeat split; repeat constructor.
Defined.

Lemma free_only_own_witness :
  exists r start num, Z.of_nat num = 1 /\
    forall sub, (start <= sub < start + num)%nat -> owner map2 ALLOCATION_TYPE_DDR r sub = Some 9.
Proof.
  destruct (free_only_own map2 ALLOCATION_TYPE_DDR (DDR_START_ADDRESS + 128 * MB) MB 9 map1 Freed)
    as (_ & r & start & num & Hn & Ho & _).
  - unfold map_wf. vm_compute. repeat split; repeat constructor.
  - split; by vm_compute.
  - by vm_compute.
  - exists r, start, num. split; [exact Hn|exact Ho].
Defined.

(** Client 9 "frees" the block of client 7. *)
Lemma free_huge_size_unchecked_witness :
  device_memory_map_free map2 ALLOCATION_TYPE_DDR DDR_START_ADDRESS (2 ^ 64 - 1) 9 = (map2, Freed).
Proof.
  apply (free_huge_size_unchecked map2 ALLOCATION_TYPE_DDR 0 0 (2 ^ 64 - 1) 9 [7; 7; 9; 0; 0; 0; 0; 0]);
    [lia|lia|lia|by vm_compute|split; by vm_compute].
Defined.

(** Client 7 gives back the second of its two subregions, and is refused the
    third, which belongs to client 9. *)
Definition map3 : device_memory_map :=
  fst (device_memory_map_free map2 ALLOCATION_TYPE_DDR (DDR_START_ADDRESS + 64 * MB) MB 7).

Definition reports : list event := [
  Released (DDR_START_ADDRESS + 64 * MB) (64 * MB) 7;
  Granted (DDR_START_ADDRESS + 128 * MB) (64 * MB) 9;
  Granted DDR_START_ADDRESS (128 * MB) 7].

Lemma calls_three : calls map3 reports.
Proof.
  apply (calls_free map3 reports ALLOCATION_TYPE_DDR (DDR_START_ADDRESS + 128 * MB) MB 7 map3 FreeBadArgument);
    [|split; by vm_compute|by vm_compute].
  apply (calls_free map2 (tail reports) ALLOCATION_TYPE_DDR (DDR_START_ADDRESS + 64 * MB) MB 7 map3 Freed);
    [|split; by vm_compute|by vm_compute].
  apply (calls_allocate map1 (tail (tail reports)) ALLOCATION_TYPE_DDR MB 0 9 map2
    (Allocated (DDR_START_ADDRESS + 128 * MB) (64 * MB)));
    [|split; by vm_compute|split; by vm_compute|by vm_compute].
  apply (calls_allocate device_memory_map_create [] ALLOCATION_TYPE_DDR (100 * MB) 0 7 map1
    (Allocated DDR_START_ADDRESS (128 * MB)));
    [constructor|split; by vm_compute|split; by vm_compute|by vm_compute].
Qed.

Lemma calls_exclusive_witness :
  exclusive reports /\ owner map3 ALLOCATION_TYPE_DDR 0 0 = Some 7 /\ owner map3 ALLOCATION_TYPE_DDR 0 1 = Some 0 /\
  (device_memory_map_free map3 ALLOCATION_TYPE_DDR (block_address DDR_START_ADDRESS 0 0) (64 * MB) 7).2 = Freed.
Proof.
  destruct (calls_exclusive map3 reports calls_three) as (He & Ho & Hf). split; [exact He|]. split_and!.
  - apply (Ho ALLOCATION_TYPE_DDR 0%nat 0%nat DDR_START_ADDRESS); [lia|lia|]. split; by vm_compute.
  - apply (Ho ALLOCATION_TYPE_DDR 0%nat 1%nat (DDR_START_ADDRESS + 64 * MB)); [lia|lia|]. split; by vm_compute.
  - apply (Hf ALLOCATION_TYPE_DDR 0%nat 0%nat 1%nat (64 * MB) 7); [lia|lia|lia|done|by vm_compute|done|].
    intros x [Hlo Hhi]%in_span_spec.
    assert (Hx : in_span DDR_START_ADDRESS (128 * MB) x = true /\ in_span (DDR_START_ADDRESS + 64 * MB) (64 * MB) x = false /\
      in_span (DDR_START_ADDRESS + 128 * MB) (64 * MB) x = false).
    { rewrite <-!not_true_iff_false, !in_span_spec. unfold MB, block_address, class_base, DDR_START_ADDRESS, REGION_SIZE, SUBREGION_SIZE in *. lia. }
    destruct Hx as (H1 & H2 & H3). unfold reports. cbn [held_by]. by rewrite H2, H3, H1.
Defined.
