(* ===== verification/Except.v ===== *)
(** * Computations that can throw

    The C++ components throw.  [EM E S A] is a state computation (see
    [Prelude]) whose normal result is a value or an exception of type [E];
    the state changes made before a throw stay.  [ewp] is its
    postcondition, with one assertion for the return and one for the throw. *)

From S2P Require Import Prelude.

Inductive except (E A : Type) : Type :=
  | Val (a : A)
  | Exn (e : E).
Arguments Val {E A} a.
Arguments Exn {E A} e.

Definition EM (E S A : Type) : Type := SM S (except E A).

#[export] Instance EM_ret {E S} : MRet (EM E S) := fun A a s => Ret (Val a) s.
#[export] Instance EM_bind {E S} : MBind (EM E S) := fun A B k m s =>
  match m s with
  | Ret (Val a) s' => k a s'
  | Ret (Exn e) s' => Ret (Exn e) s'
  | Ub => Ub
  | NoFuel => NoFuel
  end.

Definition throw {E S A} (e : E) : EM E S A := fun s => Ret (Exn e) s.
Definition asks {E S A} (f : S -> A) : EM E S A := fun s => Ret (Val (f s)) s.
Definition updates {E S} (f : S -> S) : EM E S unit := fun s => Ret (Val tt) (f s).
Definition out_of_fuel {E S A} : EM E S A := fun _ => NoFuel.
Definition undefined {E S A} : EM E S A := fun _ => Ub.

(** A value that has no defined result when it is absent: an element beyond the
    end of its array, a division by 0. *)
Definition defined {E S A} (o : option A) : EM E S A := match o with Some a => mret a | None => undefined end.

(** [if (b) throw e;] *)
Definition throw_if {E S} (b : bool) (e : E) : EM E S unit := if b then throw e else mret tt.

(** [if (b) m] *)
Definition ewhen {E S} (b : bool) (m : EM E S unit) : EM E S unit := if b then m else mret tt.

(** The destructor of a guard object: [f] runs on every exit. *)
Definition finally {E S A} (m : EM E S A) (f : S -> S) : EM E S A := fun s =>
  match m s with
  | Ret r s' => Ret r (f s')
  | Ub => Ub
  | NoFuel => NoFuel
  end.

(** [try m catch (e) { f; throw; }] for the exceptions [p] selects. *)
Definition on_exn {E S A} (p : E -> bool) (m : EM E S A) (f : S -> S) : EM E S A := fun s =>
  match m s with
  | Ret (Exn e) s' => Ret (Exn e) (if p e then f s' else s')
  | r => r
  end.

(** [for (x : l) body(x)] *)
Fixpoint each {E S A} (l : list A) (body : A -> EM E S unit) : EM E S unit :=
  match l with
  | [] => mret tt
  | x :: l' => body x;; each l' body
  end.

(** A loop that updates a local variable. *)
Fixpoint loop {E S A B} (body : B -> A -> EM E S B) (b : B) (l : list A) : EM E S B :=
  match l with
  | [] => mret b
  | x :: l' => b' ← body b x; loop body b' l'
  end.

(** A computation on a component of the state. *)
Definition zoom {E S T A} (get : S -> T) (put : T -> S -> S) (m : EM E T A) : EM E S A := fun s =>
  match m (get s) with
  | Ret r t => Ret r (put t s)
  | Ub => Ub
  | NoFuel => NoFuel
  end.

Definition ewp {E S A} (ub nf : Prop) (m : EM E S A) (s : S) (Q : A -> S -> Prop)
    (X : E -> S -> Prop) : Prop :=
  post ub nf m s (fun r s' => match r with Val a => Q a s' | Exn e => X e s' end).

Section ewp.
Context {E S : Type} {ub nf : Prop}.
Implicit Types (s : S) (X : E -> S -> Prop).

Lemma ewp_ret {A} (a : A) s (Q : A -> S -> Prop) X : Q a s -> ewp ub nf (mret a) s Q X.
Proof. done. Qed.

Lemma ewp_throw {A} e s (Q : A -> S -> Prop) X : X e s -> ewp ub nf (throw e) s Q X.
Proof. done. Qed.

Lemma ewp_asks {A} (f : S -> A) s (Q : A -> S -> Prop) X : Q (f s) s -> ewp ub nf (asks f) s Q X.
Proof. done. Qed.

Lemma ewp_updates (f : S -> S) s (Q : unit -> S -> Prop) X :
  Q tt (f s) -> ewp ub nf (updates f) s Q X.
Proof. done. Qed.

Lemma ewp_bind {A B} (m : EM E S A) (k : A -> EM E S B) s Q X :
  ewp ub nf m s (fun a s' => ewp ub nf (k a) s' Q X) X -> ewp ub nf (m ≫= k) s Q X.
Proof. unfold ewp, post, mbind, EM_bind. by destruct (m s) as [[]| |]. Qed.

Lemma ewp_mono {A} (m : EM E S A) s (P Q : A -> S -> Prop) (X Y : E -> S -> Prop) :
  ewp ub nf m s P X -> (forall a s', P a s' -> Q a s') -> (forall e s', X e s' -> Y e s') ->
  ewp ub nf m s Q Y.
Proof. unfold ewp, post. destruct (m s) as [[]| |]; auto. Qed.

Lemma ewp_throw_if b (e : E) s (Q : unit -> S -> Prop) X :
  (b = true -> X e s) -> (b = false -> Q tt s) -> ewp ub nf (throw_if b e) s Q X.
Proof. destruct b; cbn; auto. Qed.

Lemma ewp_defined {A} (o : option A) a s (Q : A -> S -> Prop) X : o = Some a -> Q a s -> ewp ub nf (defined o) s Q X.
Proof. intros -> HQ. by apply ewp_ret. Qed.

Lemma ewp_if {A} (b : bool) (m1 m2 : EM E S A) s Q X :
  (b = true -> ewp ub nf m1 s Q X) -> (b = false -> ewp ub nf m2 s Q X) ->
  ewp ub nf (if b then m1 else m2) s Q X.
Proof. destruct b; auto. Qed.

Lemma ewp_ewhen (b : bool) (m : EM E S unit) s Q X :
  (b = true -> ewp ub nf m s Q X) -> (b = false -> Q tt s) -> ewp ub nf (ewhen b m) s Q X.
Proof. destruct b; cbn; auto. Qed.

Lemma ewp_finally {A} (m : EM E S A) (f : S -> S) s (Q : A -> S -> Prop) X :
  ewp ub nf m s (fun a s' => Q a (f s')) (fun e s' => X e (f s')) ->
  ewp ub nf (finally m f) s Q X.
Proof. unfold ewp, post, finally. by destruct (m s) as [[]| |]. Qed.

Lemma ewp_on_exn {A} (p : E -> bool) (m : EM E S A) (f : S -> S) s (Q : A -> S -> Prop) X :
  ewp ub nf m s Q (fun e s' => X e (if p e then f s' else s')) ->
  ewp ub nf (on_exn p m f) s Q X.
Proof. unfold ewp, post, on_exn. by destruct (m s) as [[]| |]. Qed.

Lemma ewp_zoom {T A} (get : S -> T) (put : T -> S -> S) (m : EM E T A) s (Q : A -> S -> Prop) X :
  ewp ub nf m (get s) (fun a t => Q a (put t s)) (fun e t => X e (put t s)) ->
  ewp ub nf (zoom get put m) s Q X.
Proof. unfold ewp, post, zoom. by destruct (m (get s)) as [[]| |]. Qed.

(** A loop over a list, with an invariant on what is left. *)
Lemma ewp_each {A} (body : A -> EM E S unit) (I : list A -> S -> Prop) X : forall l s,
  I l s ->
  (forall x l' s', x :: l' `suffix_of` l -> I (x :: l') s' ->
     ewp ub nf (body x) s' (fun _ => I l') X) ->
  ewp ub nf (each l body) s (fun _ => I []) X.
Proof.
  induction l as [|x l IH]; intros s HI Hb; cbn [each]; [done|].
  apply ewp_bind. eapply ewp_mono; [apply Hb; [done|done]| |done].
  intros [] s' HI'. apply IH; [done|]. intros y l' s2 Hs. apply Hb. by apply suffix_cons_r.
Qed.

(** A loop with an accumulator, with an invariant on what was processed. *)
Lemma ewp_loop {A B} (I : list A -> B -> S -> Prop) X (body : B -> A -> EM E S B) (l : list A) b s :
  I [] b s ->
  (forall old x new b' s', l = old ++ x :: new -> I old b' s' ->
     ewp ub nf (body b' x) s' (fun b2 => I (old ++ [x]) b2) X) ->
  ewp ub nf (loop body b l) s (I l) X.
Proof.
  intros H0 Hstep. enough (Hgen : forall new old b' s', l = old ++ new -> I old b' s' ->
    ewp ub nf (loop body b' new) s' (I l) X) by (by apply (Hgen l [])).
  induction new as [|x new IH]; intros old b' s' El HI; cbn [loop].
  - rewrite app_nil_r in El. subst old. by apply ewp_ret.
  - apply ewp_bind. eapply ewp_mono; [by eapply Hstep| |done]. intros b2 s2 HI2.
    apply (IH (old ++ [x])); [|done]. by rewrite <-(assoc_L app).
Qed.
End ewp.

Lemma ewp_exact {E S A} {ub nf : Prop} (m : EM E S A) s a s' (Q : A -> S -> Prop) X :
  m s = Ret (Val a) s' -> Q a s' -> ewp ub nf m s Q X.
Proof. unfold ewp, post. by intros ->. Qed.

Lemma bind_exact {E S A B} (m : EM E S A) (k : A -> EM E S B) s a s' :
  m s = Ret (Val a) s' -> (m ≫= k) s = k a s'.
Proof. unfold mbind, EM_bind. by intros ->. Qed.

(** The result of a run from its postcondition. *)
Lemma ewp_run {E S A} {ub nf : Prop} (m : EM E S A) s r s' (Q : A -> S -> Prop) X :
  ewp ub nf m s Q X -> m s = Ret r s' ->
  match r with Val a => Q a s' | Exn e => X e s' end.
Proof. apply post_run. Qed.

Ltac ewp_step :=
  lazymatch goal with
  | |- ewp _ _ (_ ≫= _) _ _ _ => apply ewp_bind
  | |- ewp _ _ (mret _) _ _ _ => apply ewp_ret
  | |- ewp _ _ (throw _) _ _ _ => apply ewp_throw
  | |- ewp _ _ (asks _) _ _ _ => apply ewp_asks
  | |- ewp _ _ (updates _) _ _ _ => apply ewp_updates
  | |- ewp _ _ (throw_if _ _) _ _ _ => apply ewp_throw_if; intros ?
  | |- ewp _ _ (ewhen _ _) _ _ _ => apply ewp_ewhen; intros ?
  | |- ewp _ _ (if _ then _ else _) _ _ _ => apply ewp_if; intros ?
  | |- ewp _ _ (zoom _ _ _) _ _ _ => apply ewp_zoom
  | |- ewp _ _ (finally _ _) _ _ _ => apply ewp_finally
  | |- ewp _ _ (on_exn _ _ _) _ _ _ => apply ewp_on_exn
  end; cbn beta.

(** ** Kept relations *)

Section ekeeps.
Context {E S : Type} (R : S -> S -> Prop) `{!PreOrder R}.

Lemma ekeeps_ret {A} (a : A) : keeps R (mret a : EM E S A).
Proof using Type*. intros s. cbn. reflexivity. Qed.

Lemma ekeeps_throw {A} (e : E) : keeps R (throw e : EM E S A).
Proof using Type*. intros s. cbn. reflexivity. Qed.

Lemma ekeeps_asks {A} (f : S -> A) : keeps R (asks f : EM E S A).
Proof using Type*. intros s. cbn. reflexivity. Qed.

Lemma ekeeps_bind {A B} (m : EM E S A) (k : A -> EM E S B) :
  keeps R m -> (forall a, keeps R (k a)) -> keeps R (m ≫= k : EM E S B).
Proof using Type*.
  intros Hm Hk s. unfold mbind, EM_bind. specialize (Hm s).
  destruct (m s) as [[a|e] s'| |]; auto.
  specialize (Hk a s'). destruct (k a s'); auto. by etrans.
Qed.

Lemma ekeeps_throw_if b (e : E) : keeps R (throw_if b e : EM E S unit).
Proof using Type*. destruct b; [apply ekeeps_throw|apply ekeeps_ret]. Qed.

Lemma ekeeps_ewhen b (m : EM E S unit) : keeps R m -> keeps R (ewhen b m).
Proof using Type*. destruct b; [done|]. intros _. apply ekeeps_ret. Qed.

Lemma ekeeps_each {A} (body : A -> EM E S unit) :
  (forall x, keeps R (body x)) -> forall l, keeps R (each l body).
Proof using Type*.
  intros Hb l. induction l as [|x l IH]; cbn [each]; [apply ekeeps_ret|]. by apply ekeeps_bind.
Qed.

Lemma ekeeps_finally {A} (m : EM E S A) (f : S -> S) :
  keeps R m -> (forall s, R s (f s)) -> keeps R (finally m f).
Proof using Type*.
  intros Hm Hf s. unfold finally. specialize (Hm s). destruct (m s); auto. by etrans.
Qed.

Lemma ekeeps_on_exn {A} (p : E -> bool) (m : EM E S A) (f : S -> S) :
  keeps R m -> (forall s, R s (f s)) -> keeps R (on_exn p m f).
Proof using Type*.
  intros Hm Hf s. unfold on_exn. specialize (Hm s). destruct (m s) as [[a|e] s'| |]; auto.
  destruct (p e); [by etrans|done].
Qed.
End ekeeps.

Lemma ekeeps_updates {E S} (R : S -> S -> Prop) (f : S -> S) :
  (forall s, R s (f s)) -> keeps R (updates f : EM E S unit).
Proof. intros H s. apply H. Qed.

Lemma ekeeps_zoom {E S T A} (R : S -> S -> Prop) (RT : T -> T -> Prop) get put (m : EM E T A) :
  keeps RT m -> (forall s t, RT (get s) t -> R s (put t s)) -> keeps R (zoom get put m).
Proof. intros Hm HR s. unfold zoom. specialize (Hm (get s)). destruct (m (get s)); auto. Qed.

Ltac ekeeps_step :=
  lazymatch goal with
  | |- keeps _ (_ ≫= _) => apply ekeeps_bind; [apply _| |intros ?]
  | |- keeps _ (mret _) => apply ekeeps_ret; apply _
  | |- keeps _ (throw _) => apply ekeeps_throw; apply _
  | |- keeps _ (asks _) => apply ekeeps_asks; apply _
  | |- keeps _ (throw_if _ _) => apply ekeeps_throw_if; apply _
  | |- keeps _ (ewhen _ _) => apply ekeeps_ewhen; [apply _|]
  | |- keeps _ (each _ _) => apply ekeeps_each; [apply _|intros ?]
  | |- keeps _ out_of_fuel => done
  | |- keeps _ undefined => done
  | |- keeps _ (match ?x with _ => _ end) => destruct x
  | |- keeps _ (let _ := _ in _) => cbv zeta
  | |- keeps _ _ => match goal with IH : context [keeps _ _] |- _ => apply IH end
  end; cbv beta.
