(* ===== verification/Rp1Window.v ===== *)
(** * The host's window on the RP1 control region

    Models vrt/src/graph/device/fpga/rp1_bar_window.cpp and its header: the
    bounds-checked accessors over the BAR mapping through which the host
    reads and writes the memory it shares with the firmware.

    The mapping is a byte memory shared with a running device: before every
    access the device may have changed it ([dev_move]).  Every store of the
    host is also recorded in [ws_log], newest first, so that theorems can
    speak of what the host wrote, and in which order, whatever the device
    does.  Bulk copies are one access each.

    The theorems: no accessor leaves a mapping of at most 4 GB, whatever the
    arguments; a chunked write is one contiguous write; what is written is
    read back; an access that does not fit is refused. *)

From S2P Require Import Prelude Except Rp1Protocol.

(** What the host side throws: [std::out_of_range], [std::invalid_argument],
    [std::logic_error], [std::runtime_error] and [Rp1TimeoutError], with the
    numbers their messages carry. *)
Inductive host_exn :=
  | OutOfRange
  | BadAddress
  | InvalidArgument
  | EmptyGraph
  | TooManyNodes (n : Z)
  | BadNode (index : nat)
  | BadSignalSlot (slot : Z)
  | VersionMismatch (firmware : Z)
  | MissingCapabilities (missing : Z)
  | UnknownPlatform
  | Poisoned
  | SubmissionActive
  | NotReady (state : Z)
  | CorruptCursors (delta : Z)
  | NodeFailed (entry : rp1_cq_entry_t)
  | TerminalError (state seq code node detail aux : Z)
  | Rp1TimeoutError.

(** The other side of the shared memory, and the steady clock, in ticks. *)
Class Device (D : Type) := {
  dev_move : D -> (Z -> Z) -> D * (Z -> Z);
  dev_now : D -> Z * D
}.

Inductive backend := BarFileBackend | RawBufferBackend.

(** An open mapping: [windowOffset] is the BAR offset of the control block. *)
Class Mapping := {
  backend_kind : backend;
  mappedLength : Z;
  windowOffset : Z
}.

Definition kDefaultWindowOffset : Z := Z.shiftl 64 20.
Definition kWindowSize : Z := Z.shiftl 64 20.

(** The two constructors: which mappings they accept. *)
Definition bar_file_constructor (length window_offset : Z) : except host_exn Mapping :=
  if length <? add64 window_offset kWindowSize then Exn InvalidArgument
  else Val {| backend_kind := BarFileBackend; mappedLength := length;
              windowOffset := window_offset |}.

Definition raw_buffer_constructor (base_is_null : bool) (length window_offset : Z)
    : except host_exn Mapping :=
  if base_is_null then Exn InvalidArgument
  else if length <? window_offset then Exn InvalidArgument
  else Val {| backend_kind := RawBufferBackend; mappedLength := length;
              windowOffset := window_offset |}.

(** ** Byte memory *)

Definition store (abs : Z) (bs : list Z) (m : Z -> Z) : Z -> Z := fun a =>
  if (abs <=? a) && (a <? abs + Z.of_nat (length bs)) then nth (Z.to_nat (a - abs)) bs 0 else m a.

Definition fetch (abs : Z) (n : nat) (m : Z -> Z) : list Z :=
  map (fun i => m (abs + Z.of_nat i)) (seq 0 n).

(** The window as the program sees it: memory, device, stores so far. *)
Record ws (D : Type) := mkws {
  ws_mem : Z -> Z;
  ws_dev : D;
  ws_log : list (Z * list Z)
}.
Arguments mkws {D}.
Arguments ws_mem {D}.
Arguments ws_dev {D}.
Arguments ws_log {D}.

Section window.
Context {D : Type} `{!Device D} `{!Mapping}.

Abbreviation WM := (EM host_exn (ws D)).

Definition moved (w : ws D) : ws D :=
  let '(d, m) := dev_move (ws_dev w) (ws_mem w) in mkws m d (ws_log w).

Definition stored (abs : Z) (bs : list Z) (w : ws D) : ws D :=
  mkws (store abs bs (ws_mem w)) (ws_dev w) ((abs, bs) :: ws_log w).

(** *** Backends *)

(** The raw buffer checks the range; a BAR file checks the first byte only
    and the copy beyond the mapping is undefined. *)
Definition access (abs n : Z) : WM unit :=
  match backend_kind with
  | RawBufferBackend => throw_if (mappedLength <? add64 abs n) OutOfRange
  | BarFileBackend =>
      throw_if (mappedLength <=? abs) BadAddress;;
      (if mappedLength <? abs + n then undefined else mret tt)
  end.

Definition readBytes (abs : Z) (n : nat) : WM (list Z) :=
  match n with
  | O => mret []
  | _ =>
      access abs (Z.of_nat n);;
      updates moved;;
      asks (fun w => fetch abs n (ws_mem w))
  end.

Definition writeBytes (abs : Z) (bs : list Z) : WM unit :=
  match bs with
  | [] => mret tt
  | _ =>
      access abs (Z.of_nat (length bs));;
      updates moved;;
      updates (stored abs bs)
  end.

(** *** The window *)

Definition absoluteOffset (window_off n : Z) : WM Z :=
  let abs := add64 windowOffset window_off in
  let end_ := add64 abs n in
  if (mappedLength <? end_) || (end_ <? abs) then throw OutOfRange else mret (u32 abs).

Definition readAt (offset : Z) (n : nat) : WM (list Z) :=
  match n with
  | O => mret []
  | _ => abs ← absoluteOffset offset (Z.of_nat n); readBytes abs n
  end.

Definition kWriteChunk : Z := Z.shiftl 1 20.

Fixpoint write_chunks (fuel : nat) (offset : Z) (bytes : list Z) : WM unit :=
  match fuel with
  | O => out_of_fuel
  | S fuel' =>
      match bytes with
      | [] => mret tt
      | _ =>
          let n := Z.of_nat (length bytes) in
          let step := if n <? kWriteChunk then n else kWriteChunk in
          abs ← absoluteOffset offset step;
          writeBytes abs (take (Z.to_nat step) bytes);;
          write_chunks fuel' (add32 offset step) (drop (Z.to_nat step) bytes)
      end
  end.

Definition writeAt (offset : Z) (bytes : list Z) : WM unit :=
  write_chunks (S (length bytes)) offset bytes.

Definition kZeroChunk : Z := 256.

Fixpoint zero_chunks (fuel : nat) (offset n : Z) : WM unit :=
  match fuel with
  | O => out_of_fuel
  | S fuel' =>
      if n <=? 0 then mret tt
      else
        let step := if n <? kZeroChunk then n else kZeroChunk in
        writeAt offset (replicate (Z.to_nat step) 0);;
        zero_chunks fuel' (add32 offset step) (n - step)
  end.

Definition zeroAt (offset n : Z) : WM unit := zero_chunks (S (Z.to_nat n)) offset n.

Definition readU32 (offset : Z) : WM Z :=
  abs ← absoluteOffset offset 4;
  bs ← readBytes abs 4;
  mret (le_val bs).

Definition writeU32 (offset value : Z) : WM unit :=
  abs ← absoluteOffset offset 4;
  writeBytes abs (le_bytes 4 value).

(** *** Typed accessors

    An element offset is computed in [size_t] and narrowed to 32 bits by the
    parameter of [readAt] and [writeAt]. *)

Definition element (base index size : Z) : Z := u32 (base + index * size).

Definition read_field (f : ctrl_field) : WM Z := readU32 (ctrl_offset f).
Definition write_field (f : ctrl_field) (v : Z) : WM unit := writeU32 (ctrl_offset f) v.

Definition clearSignal (slot : Z) : WM unit :=
  writeAt (element RP1_DEFAULT_SIG_ARRAY_OFFSET slot sizeof_signal_slot) (replicate 16 0).

Definition decode_signal (bs : list Z) : rp1_signal_slot_t :=
  {| slot_value := ld 4 0 bs; slot_reserved := ld 4 4 bs; last_writer_node := ld 4 8 bs;
     slot_flags := ld 4 12 bs |}.

Definition decode_cq (bs : list Z) : rp1_cq_entry_t :=
  {| cq_node_index := ld 4 0 bs; cq_status := ld 4 4 bs; cq_error_detail := ld 4 8 bs;
     cq_timestamp := ld 4 12 bs |}.

Definition decode_trace (bs : list Z) : rp1_trace_entry_t :=
  {| te_timestamp := ld 4 0 bs; te_event := ld 2 4 bs; te_node_index := ld 2 6 bs;
     te_aux0 := ld 4 8 bs; te_aux1 := ld 4 12 bs |}.

Definition readSignal (slot : Z) : WM rp1_signal_slot_t :=
  bs ← readAt (element RP1_DEFAULT_SIG_ARRAY_OFFSET slot sizeof_signal_slot) 16;
  mret (decode_signal bs).

Definition readCq (idx : Z) : WM rp1_cq_entry_t :=
  bs ← readAt (element RP1_DEFAULT_CQ_OFFSET idx sizeof_cq_entry) 16;
  mret (decode_cq bs).

Definition readTrace (idx : Z) : WM rp1_trace_entry_t :=
  bs ← readAt (element RP1_DEFAULT_TRACE_OFFSET idx sizeof_trace_entry) 16;
  mret (decode_trace bs).

Definition writeNodes (src : list rp1_node_t) : WM unit :=
  writeAt RP1_DEFAULT_NODE_ARRAY_OFFSET (concat (map encode_node src)).

Definition writeArgs (src : list Z) : WM unit :=
  writeAt RP1_DEFAULT_ARG_BUF_OFFSET (concat (map (le_bytes 4) src)).

Definition readCtrl : WM (list Z) := readAt 0 (Z.to_nat sizeof_ctrl).
Definition writeCtrl (bs : list Z) : WM unit := writeAt 0 bs.

Definition writeTraceBase (lo hi : Z) : WM unit :=
  write_field trace_base_lo lo;; write_field trace_base_hi hi.

End window.

(** ** Byte memory lemmas *)

Lemma store_in abs bs m a :
  abs <= a < abs + Z.of_nat (length bs) -> store abs bs m a = nth (Z.to_nat (a - abs)) bs 0.
Proof.
  intros. unfold store. by rewrite (proj2 (Z.leb_le _ _)), (proj2 (Z.ltb_lt _ _)) by lia.
Qed.

Lemma store_out abs bs m a :
  ~ (abs <= a < abs + Z.of_nat (length bs)) -> store abs bs m a = m a.
Proof. intros. unfold store. destruct (_ && _) eqn:E; [|done]. bools. lia. Qed.

(** Two adjacent stores are one. *)
Lemma store_app abs bs1 bs2 m a :
  store (abs + Z.of_nat (length bs1)) bs2 (store abs bs1 m) a = store abs (bs1 ++ bs2) m a.
Proof.
  pose proof (length_app bs1 bs2) as Hlen.
  destruct (decide (abs <= a < abs + Z.of_nat (length (bs1 ++ bs2)))) as [Hin|Hout].
  - rewrite (store_in _ (bs1 ++ bs2)) by done.
    destruct (decide (a < abs + Z.of_nat (length bs1))).
    + rewrite store_out, store_in, app_nth1 by lia. done.
    + rewrite store_in, app_nth2 by lia. f_equal. lia.
  - rewrite !store_out by lia. done.
Qed.

Lemma store_nil abs m a : store abs [] m a = m a.
Proof. apply store_out. cbn. lia. Qed.

Lemma length_fetch abs n m : length (fetch abs n m) = n.
Proof. unfold fetch. by rewrite length_map, length_seq. Qed.

Lemma fetch_lookup abs n m i : (i < n)%nat -> fetch abs n m !! i = Some (m (abs + Z.of_nat i)).
Proof.
  intros. unfold fetch. rewrite list_lookup_fmap, lookup_seq_lt by done. done.
Qed.

Lemma fetch_ext abs n m m' :
  (forall a, abs <= a < abs + Z.of_nat n -> m a = m' a) -> fetch abs n m = fetch abs n m'.
Proof. intros Hm. apply map_ext_in. intros i Hi%in_seq. apply Hm. lia. Qed.

Lemma fetch_store abs bs m : fetch abs (length bs) (store abs bs m) = bs.
Proof.
  apply list_eq. intros i. destruct (decide (i < length bs)%nat) as [Hi|Hi].
  - rewrite fetch_lookup by done. rewrite store_in by lia.
    replace (Z.to_nat _) with i by lia.
    destruct (nth_lookup_or_length bs i 0) as [->|]; [done|lia].
  - rewrite !lookup_ge_None_2; [done|lia|rewrite length_fetch; lia].
Qed.

(** ** Bounds *)

(** A [size_t] that is the length of something. *)
Abbreviation fits_size bs := (Z.of_nat (length bs) < 2 ^ 64).

Section bounds.
Context {D : Type} `{!Device D} `{!Mapping}.
Hypothesis Hmap : mappedLength <= 2 ^ 32.
Implicit Types w : ws D.

(** [n] bytes from [off] lie in the mapping. *)
Definition fits (off n : Z) : bool :=
  (add64 windowOffset off + n <=? mappedLength).

Lemma absoluteOffset_spec off n w :
  0 < n < 2 ^ 64 ->
  absoluteOffset off n w =
  if fits off n then Ret (Val (add64 windowOffset off)) w else Ret (Exn OutOfRange) w.
Proof using Hmap.
  intros Hn. unfold absoluteOffset, fits. set (abs := add64 windowOffset off).
  assert (Habs : is_u64 abs) by (unfold abs, add64, u64, is_u64; apply Z.mod_pos_bound; lia).
  unfold is_u64 in Habs. cbv zeta.
  destruct (Z.leb_spec (abs + n) mappedLength) as [Hle|Hgt].
  - assert (add64 abs n = abs + n) as -> by (unfold add64, u64; apply Z.mod_small; lia).
    rewrite (proj2 (Z.ltb_ge _ _)), (proj2 (Z.ltb_ge _ _)) by lia. cbn [orb].
    unfold u32. rewrite Z.mod_small by lia. done.
  - destruct (decide (abs + n < 2 ^ 64)).
    + assert (add64 abs n = abs + n) as -> by (unfold add64, u64; apply Z.mod_small; lia).
      by rewrite (proj2 (Z.ltb_lt _ _)) by lia.
    + assert (add64 abs n = abs + n - 2 ^ 64) as ->.
      { unfold add64, u64. rewrite <-(Z_mod_plus_full _ (-1)), Z.mod_small by lia. lia. }
      rewrite orb_comm. by rewrite (proj2 (Z.ltb_lt _ _)) by lia.
Qed.

Lemma fits_range off n : fits off n = true -> 0 <= add64 windowOffset off /\
  add64 windowOffset off + n <= mappedLength.
Proof.
  unfold fits. intros ?%Z.leb_le. split; [|done].
  unfold add64, u64. apply Z.mod_pos_bound. lia.
Qed.

(** An access that fits never throws. *)
Lemma access_ok abs n w :
  0 <= abs -> 0 < n -> abs + n <= mappedLength -> access abs n w = Ret (Val tt) w.
Proof using Hmap.
  intros. unfold access. destruct backend_kind.
  - unfold mbind, EM_bind, throw_if.
    rewrite (proj2 (Z.leb_gt _ _)), (proj2 (Z.ltb_ge _ _)) by lia. done.
  - unfold throw_if, add64, u64. rewrite Z.mod_small by lia.
    by rewrite (proj2 (Z.ltb_ge _ _)) by lia.
Qed.

Lemma writeBytes_ok abs bs w :
  bs <> [] -> 0 <= abs -> abs + Z.of_nat (length bs) <= mappedLength ->
  writeBytes abs bs w = Ret (Val tt) (stored abs bs (moved w)).
Proof using Hmap.
  intros Hbs Ha Hlen. unfold writeBytes. destruct bs as [|b bs]; [done|].
  unfold mbind, EM_bind. by rewrite access_ok by (cbn [length] in *; lia).
Qed.

(** The accessors, on every branch. *)
Lemma readAt_spec off n w :
  (0 < n)%nat -> Z.of_nat n < 2 ^ 64 ->
  readAt off n w =
  if fits off (Z.of_nat n)
  then Ret (Val (fetch (add64 windowOffset off) n (ws_mem (moved w)))) (moved w)
  else Ret (Exn OutOfRange) w.
Proof using Hmap.
  intros Hn Hsz. unfold readAt, readBytes. destruct n as [|n]; [lia|].
  unfold mbind, EM_bind. rewrite absoluteOffset_spec by lia.
  destruct (fits _ _) eqn:Ef; [|done]. apply fits_range in Ef. by rewrite access_ok by lia.
Qed.

Lemma readU32_spec off w :
  readU32 off w =
  if fits off 4
  then Ret (Val (le_val (fetch (add64 windowOffset off) 4 (ws_mem (moved w))))) (moved w)
  else Ret (Exn OutOfRange) w.
Proof using Hmap.
  unfold readU32, readBytes, mbind, EM_bind. rewrite absoluteOffset_spec by lia.
  destruct (fits _ _) eqn:Ef; [|done]. apply fits_range in Ef. by rewrite access_ok by lia.
Qed.

Lemma writeU32_spec off v w :
  writeU32 off v w =
  if fits off 4
  then Ret (Val tt) (stored (add64 windowOffset off) (le_bytes 4 v) (moved w))
  else Ret (Exn OutOfRange) w.
Proof using Hmap.
  unfold writeU32, mbind, EM_bind. rewrite absoluteOffset_spec by lia.
  destruct (fits _ _) eqn:Ef; [|done]. apply fits_range in Ef.
  apply writeBytes_ok; [done|lia|rewrite length_le_bytes; lia].
Qed.

(** *** Chunked writes *)

(** How [writeAt] cuts its bytes. *)
Fixpoint chunks (fuel : nat) (abs : Z) (bytes : list Z) : list (Z * list Z) :=
  match fuel with
  | O => []
  | S fuel' =>
      match bytes with
      | [] => []
      | _ =>
          let step := Z.min (Z.of_nat (length bytes)) kWriteChunk in
          (abs, take (Z.to_nat step) bytes) ::
          chunks fuel' (abs + step) (drop (Z.to_nat step) bytes)
      end
  end.

Definition do_stores (cs : list (Z * list Z)) (w : ws D) : ws D :=
  fold_left (fun w' '(a, b) => stored a b (moved w')) cs w.

(** A range that fits without wrapping the window offset. *)
Definition in_window (off n : Z) : Prop :=
  0 <= windowOffset /\ 0 <= off /\ 0 <= n /\ windowOffset + off + n <= mappedLength.

Lemma in_window_fits off n : in_window off n ->
  add64 windowOffset off = windowOffset + off /\ fits off n = true.
Proof using Hmap.
  intros (Hw & Ho & Hn & Hl).
  assert (E : add64 windowOffset off = windowOffset + off)
    by (unfold add64, u64; apply Z.mod_small; lia).
  split; [done|]. unfold fits. rewrite E. by apply Z.leb_le.
Qed.

Lemma step_min n : (if n <? kWriteChunk then n else kWriteChunk) = Z.min n kWriteChunk.
Proof. destruct (Z.ltb_spec n kWriteChunk); lia. Qed.

Lemma write_chunks_ok fuel : forall off bytes w,
  (length bytes < fuel)%nat -> in_window off (Z.of_nat (length bytes)) ->
  write_chunks fuel off bytes w =
  Ret (Val tt) (do_stores (chunks fuel (windowOffset + off) bytes) w).
Proof using Hmap.
  induction fuel as [|fuel IH]; intros off bytes w Hf Hin; [lia|].
  destruct bytes as [|b bytes]; [done|]. set (bs := b :: bytes) in *.
  cbn [write_chunks chunks]. unfold bs at 1. cbv iota zeta. fold bs. rewrite step_min.
  unfold bs at 4. cbv iota. fold bs. set (step := Z.min (Z.of_nat (length bs)) kWriteChunk).
  assert (Hstep : 0 < step <= Z.of_nat (length bs)).
  { unfold step, kWriteChunk, bs. cbn [length]. rewrite Z.shiftl_mul_pow2 by lia. lia. }
  destruct Hin as (Hw & Ho & _ & Hl).
  destruct (in_window_fits off step) as [Ea Ef]; [unfold in_window; lia|].
  assert (Htake : length (take (Z.to_nat step) bs) = Z.to_nat step)
    by (rewrite length_take; lia).
  unfold mbind at 1, EM_bind at 1. rewrite absoluteOffset_spec, Ef, Ea by lia.
  unfold mbind, EM_bind. rewrite writeBytes_ok; [|by intros Hnil; rewrite Hnil in Htake;
    cbn in Htake; lia|lia|lia].
  cbn [do_stores fold_left]. rewrite <-Z.add_assoc.
  destruct (decide (drop (Z.to_nat step) bs = [])) as [Hd|Hd].
  - rewrite Hd. destruct fuel; [cbn in Hf; lia|done].
  - assert (Hdl : length (drop (Z.to_nat step) bs) = (length bs - Z.to_nat step)%nat)
      by apply length_drop.
    assert (length (drop (Z.to_nat step) bs) <> 0%nat)
      by (intros ?%nil_length_inv; done).
    assert (add32 off step = off + step) as -> by (unfold add32, u32; apply Z.mod_small; lia).
    apply IH; [lia|]. unfold in_window. lia.
Qed.

Lemma writeAt_ok off bytes w :
  in_window off (Z.of_nat (length bytes)) ->
  writeAt off bytes w =
  Ret (Val tt) (do_stores (chunks (S (length bytes)) (windowOffset + off) bytes) w).
Proof using Hmap. intros. apply write_chunks_ok; [lia|done]. Qed.

(** The chunks are the bytes, in order, without gaps. *)
Inductive contiguous : Z -> list (Z * list Z) -> list Z -> Prop :=
  | contiguous_nil abs : contiguous abs [] []
  | contiguous_cons abs b cs rest :
      b <> [] -> Z.of_nat (length b) <= kWriteChunk ->
      contiguous (abs + Z.of_nat (length b)) cs rest ->
      contiguous abs ((abs, b) :: cs) (b ++ rest).

Lemma chunks_contiguous fuel : forall abs bytes,
  (length bytes < fuel)%nat -> contiguous abs (chunks fuel abs bytes) bytes.
Proof.
  induction fuel as [|fuel IH]; intros abs bytes Hf; [lia|].
  destruct bytes as [|b bytes]; [constructor|]. set (bs := b :: bytes) in *.
  cbn [chunks]. unfold bs at 1. cbv iota zeta. fold bs.
  set (step := Z.min (Z.of_nat (length bs)) kWriteChunk).
  assert (Hstep : 0 < step <= Z.of_nat (length bs)).
  { unfold step, kWriteChunk, bs. cbn [length]. rewrite Z.shiftl_mul_pow2 by lia. lia. }
  assert (Htake : length (take (Z.to_nat step) bs) = Z.to_nat step)
    by (rewrite length_take; lia).
  rewrite <-(take_drop (Z.to_nat step) bs) at 3.
  assert (Hs : step = Z.of_nat (length (take (Z.to_nat step) bs))) by lia.
  rewrite Hs at 2. constructor.
  - intros Hnil. rewrite Hnil in Htake. cbn in Htake. lia.
  - lia.
  - apply IH. rewrite length_drop. lia.
Qed.

Lemma do_stores_log cs : forall w, ws_log (do_stores cs w) = rev cs ++ ws_log w.
Proof.
  induction cs as [|[a b] cs IH]; intros w; cbn [do_stores fold_left]; [done|].
  fold (do_stores cs (stored a b (moved w))). rewrite IH. cbn [rev ws_log stored].
  rewrite <-app_assoc. cbn [app]. unfold moved. by destruct (dev_move _ _).
Qed.

End bounds.

(** ** What the device leaves alone

    While the memory satisfies [J] the device does not change the bytes in
    [P], and [J] only looks at these. *)

Class Quiet {D} `{!Device D} (J : (Z -> Z) -> Prop) (P : Z -> Prop) := {
  quiet_ext : forall m m', (forall a, P a -> m a = m' a) -> J m -> J m';
  quiet_dev : forall d m a, J m -> P a -> snd (dev_move d m) a = m a
}.

Definition eq_on (P : Z -> Prop) (m m' : Z -> Z) : Prop := forall a, P a -> m a = m' a.

#[export] Instance eq_on_equivalence P : Equivalence (eq_on P).
Proof.
  split; [done|..].
  - intros m m' Hm a Ha. symmetry. by apply Hm.
  - intros m1 m2 m3 H12 H23 a Ha. etrans; [by apply H12|by apply H23].
Qed.

#[export] Instance store_proper P abs bs : Proper (eq_on P ==> eq_on P) (store abs bs).
Proof. intros m m' Hm a Ha. unfold store. destruct (_ && _); [done|by apply Hm]. Qed.

Section quiet.
Context {D : Type} `{!Device D} `{!Mapping} (J : (Z -> Z) -> Prop) (P : Z -> Prop)
  `{!Quiet J P}.
Implicit Types w : ws D.

Lemma moved_quiet w : J (ws_mem w) -> eq_on P (ws_mem (moved w)) (ws_mem w) /\ J (ws_mem (moved w)).
Proof using Type*.
  intros HJ. assert (Heq : eq_on P (ws_mem (moved w)) (ws_mem w)).
  { intros a Ha. pose proof (quiet_dev (ws_dev w) (ws_mem w) a HJ Ha) as E. unfold moved.
    destruct (dev_move (ws_dev w) (ws_mem w)). exact E. }
  split; [done|]. eapply quiet_ext; [|exact HJ]. intros a Ha. symmetry. by apply Heq.
Qed.

(** [J] survives stores into a range. *)
Definition stable (abs n : Z) : Prop :=
  forall m a bs, abs <= a -> a + Z.of_nat (length bs) <= abs + n -> J m -> J (store a bs m).

Lemma stable_sub abs n abs' n' :
  stable abs n -> abs <= abs' -> abs' + n' <= abs + n -> stable abs' n'.
Proof. intros Hs Hle Hend m a bs Ha Hb. apply Hs; lia. Qed.

Lemma do_stores_quiet cs : forall abs bs w,
  contiguous abs cs bs -> stable abs (Z.of_nat (length bs)) -> J (ws_mem w) ->
  eq_on P (ws_mem (do_stores cs w)) (store abs bs (ws_mem w)) /\ J (ws_mem (do_stores cs w)).
Proof using Type*.
  induction cs as [|[a b] cs IH]; intros abs bs w Hc Hs HJ; inversion Hc; subst.
  - split; [|done]. intros a _. by rewrite store_nil.
  - rewrite length_app in Hs. cbn [do_stores fold_left].
    fold (do_stores cs (stored a b (moved w))).
    destruct (moved_quiet w HJ) as [Heq HJ'].
    destruct (IH (a + Z.of_nat (length b)) rest (stored a b (moved w))) as [Heq' HJ2];
      [done|eapply stable_sub; [exact Hs|lia|lia]|apply Hs; [lia|lia|done]|].
    split; [|done]. etrans; [exact Heq'|]. cbn [ws_mem stored].
    etrans; [by do 2 apply store_proper|]. intros a' _. apply store_app.
Qed.
End quiet.

(** ** Every accessor stays in the mapping *)

Definition in_mapping `{!Mapping} (e : Z * list Z) : Prop :=
  0 <= fst e /\ fst e + Z.of_nat (length (snd e)) <= mappedLength.

(** From [w] to [w'] the host made only stores that satisfy [ok]. *)
Definition logged {D} (ok : Z * list Z -> Prop) (w w' : ws D) : Prop :=
  exists new, ws_log w' = new ++ ws_log w /\ Forall ok new.

#[export] Instance logged_preorder {D} ok : PreOrder (@logged D ok).
Proof.
  split; [by exists []|].
  intros w1 w2 w3 (n1 & E1 & F1) (n2 & E2 & F2). exists (n2 ++ n1).
  rewrite E2, E1, app_assoc. split; [done|]. by apply Forall_app.
Qed.

Abbreviation stores_inside := (logged in_mapping).

(** The public operations, at arguments of their C types. *)
Inductive accessor {D} `{!Device D} `{!Mapping} : forall A, EM host_exn (ws D) A -> Prop :=
  | acc_readAt off n : Z.of_nat n < 2 ^ 64 -> accessor _ (readAt off n)
  | acc_writeAt off bs : fits_size bs -> accessor _ (writeAt off bs)
  | acc_zeroAt off n : 0 <= n < 2 ^ 64 -> accessor _ (zeroAt off n)
  | acc_readU32 off : accessor _ (readU32 off)
  | acc_writeU32 off v : accessor _ (writeU32 off v)
  | acc_clearSignal slot : accessor _ (clearSignal slot)
  | acc_readSignal slot : accessor _ (readSignal slot)
  | acc_readCq idx : accessor _ (readCq idx)
  | acc_readTrace idx : accessor _ (readTrace idx)
  | acc_writeNodes src : fits_size (concat (map encode_node src)) -> accessor _ (writeNodes src)
  | acc_writeArgs src : fits_size (concat (map (le_bytes 4) src)) -> accessor _ (writeArgs src)
  | acc_readCtrl : accessor _ readCtrl
  | acc_writeCtrl bs : fits_size bs -> accessor _ (writeCtrl bs).

Section safety.
Context {D : Type} `{!Device D} `{!Mapping}.
Hypothesis Hmap : mappedLength <= 2 ^ 32.
Implicit Types w : ws D.

(** Returns or throws [std::out_of_range], storing inside the mapping only. *)
Abbreviation inside m w :=
  (ewp False False m w (fun _ w' => stores_inside w w')
     (fun e w' => e = OutOfRange /\ stores_inside w w')).

Lemma moved_inside w : stores_inside w (moved w).
Proof. exists []. split; [|done]. unfold moved. by destruct (dev_move _ _). Qed.

Lemma stored_inside w abs bs :
  0 <= abs -> abs + Z.of_nat (length bs) <= mappedLength ->
  stores_inside w (stored abs bs (moved w)).
Proof.
  intros. exists [(abs, bs)]. split; [|by constructor].
  unfold stored, moved. by destruct (dev_move _ _).
Qed.

Lemma inside_after {A} (m : EM host_exn (ws D) A) w w1 :
  stores_inside w w1 -> inside m w1 ->
  ewp False False m w1 (fun _ w' => stores_inside w w')
    (fun e w' => e = OutOfRange /\ stores_inside w w').
Proof.
  intros H1 Hm. eapply ewp_mono; [exact Hm|..].
  - intros a w' Hw'. by etrans.
  - intros e w' [He Hw']. split; [done|]. by etrans.
Qed.

Lemma readAt_inside off n w : Z.of_nat n < 2 ^ 64 -> inside (readAt off n) w.
Proof using Hmap.
  intros Hn. destruct n as [|n]; [by apply ewp_ret|].
  unfold ewp, post. rewrite readAt_spec by lia.
  destruct (fits _ _); [apply moved_inside|done].
Qed.

Lemma readU32_inside off w : inside (readU32 off) w.
Proof using Hmap.
  unfold ewp, post. rewrite readU32_spec by done. destruct (fits _ _); [apply moved_inside|done].
Qed.

Lemma writeU32_inside off v w : inside (writeU32 off v) w.
Proof using Hmap.
  unfold ewp, post. rewrite writeU32_spec by done. destruct (fits _ _) eqn:Ef; [|done].
  apply fits_range in Ef. apply stored_inside; [lia|rewrite length_le_bytes; lia].
Qed.

Lemma write_chunks_inside fuel : forall off bytes w,
  fits_size bytes -> (length bytes < fuel)%nat -> inside (write_chunks fuel off bytes) w.
Proof using Hmap.
  induction fuel as [|fuel IH]; intros off bytes w Hsz Hf; [lia|].
  destruct bytes as [|b bytes]; [by apply ewp_ret|]. set (bs := b :: bytes) in *.
  cbn [write_chunks]. unfold bs at 1. cbv iota zeta. fold bs. rewrite step_min.
  set (step := Z.min (Z.of_nat (length bs)) kWriteChunk).
  assert (Hstep : 0 < step <= Z.of_nat (length bs)).
  { unfold step, kWriteChunk, bs. cbn [length]. rewrite Z.shiftl_mul_pow2 by lia. lia. }
  assert (Htake : length (take (Z.to_nat step) bs) = Z.to_nat step) by (rewrite length_take; lia).
  apply ewp_bind. unfold ewp at 1, post. rewrite absoluteOffset_spec by (done || lia).
  destruct (fits _ _) eqn:Ef; [|done]. apply fits_range in Ef.
  apply ewp_bind. unfold ewp at 1, post. rewrite writeBytes_ok; [|done| |lia|lia].
  2: { intros Hnil. rewrite Hnil in Htake. cbn in Htake. lia. }
  eapply inside_after; [apply (stored_inside w _ (take (Z.to_nat step) bs)); lia|].
  apply IH; rewrite length_drop; lia.
Qed.

Lemma writeAt_inside off bytes w : fits_size bytes -> inside (writeAt off bytes) w.
Proof using Hmap. intros. apply write_chunks_inside; [done|lia]. Qed.

Lemma zero_chunks_inside fuel : forall off n w,
  0 <= n < 2 ^ 64 -> (Z.to_nat n < fuel)%nat -> inside (zero_chunks fuel off n) w.
Proof using Hmap.
  induction fuel as [|fuel IH]; intros off n w Hn Hf; [lia|]. cbn [zero_chunks].
  apply ewp_if; intros Hz; bools; [by apply ewp_ret|].
  cbv zeta. set (step := if n <? kZeroChunk then n else kZeroChunk).
  assert (0 < step <= n) by (unfold step, kZeroChunk; destruct (Z.ltb_spec n 256); lia).
  apply ewp_bind. eapply ewp_mono; [apply writeAt_inside; rewrite length_replicate; lia| |done].
  intros a w' Hw'. eapply inside_after; [exact Hw'|]. apply IH; lia.
Qed.

(** A decoded read. *)
Lemma inside_decode {A} off n (f : list Z -> A) w :
  Z.of_nat n < 2 ^ 64 -> inside (bs ← readAt off n; mret (f bs)) w.
Proof using Hmap.
  intros. apply ewp_bind. eapply ewp_mono; [by apply readAt_inside| |done]. intros. by apply ewp_ret.
Qed.

(** Memory safety of the window.  For a mapping of at most 4 GB, every
    accessor at every argument either completes or throws [std::out_of_range];
    it never touches a byte outside the mapping and always terminates. *)
Theorem window_memory_safe A (m : EM host_exn (ws D) A) w :
  accessor A m ->
  ewp False False m w (fun _ w' => stores_inside w w')
    (fun e w' => e = OutOfRange /\ stores_inside w w').
Proof using Hmap.
  destruct 1; try by (apply inside_decode; lia).
  - by apply readAt_inside.
  - by apply writeAt_inside.
  - apply zero_chunks_inside; [done|lia].
  - apply readU32_inside.
  - apply writeU32_inside.
  - apply writeAt_inside. rewrite length_replicate. lia.
  - by apply writeAt_inside.
  - by apply writeAt_inside.
  - apply readAt_inside. unfold sizeof_ctrl. lia.
  - by apply writeAt_inside.
Qed.

(** Writing and reading back.  A write that fits the window succeeds as
    one contiguous run of stores of at most 1 MB each; where the device
    leaves the range alone, a following read of the range returns the bytes,
    and no other byte the device leaves alone has changed. *)
Theorem window_write_read J P `{!Quiet J P} off bs w :
  in_window off (Z.of_nat (length bs)) -> (0 < length bs)%nat -> J (ws_mem w) ->
  stable J (windowOffset + off) (Z.of_nat (length bs)) ->
  (forall a, windowOffset + off <= a < windowOffset + off + Z.of_nat (length bs) -> P a) ->
  exists w1 w2 cs,
    writeAt off bs w = Ret (Val tt) w1 /\
    contiguous (windowOffset + off) cs bs /\ ws_log w1 = rev cs ++ ws_log w /\
    eq_on P (ws_mem w1) (store (windowOffset + off) bs (ws_mem w)) /\
    readAt off (length bs) w1 = Ret (Val bs) w2.
Proof using Hmap.
  intros Hin Hlen HJ Hst HP. rewrite writeAt_ok by done.
  pose proof (chunks_contiguous (S (length bs)) (windowOffset + off) bs ltac:(lia)) as Hc.
  set (cs := chunks _ _ bs) in *.
  destruct (do_stores_quiet J P cs _ _ w Hc Hst HJ) as [Heq HJ1].
  set (w1 := do_stores cs w) in *.
  destruct (in_window_fits Hmap off _ Hin) as [Ea Ef].
  exists w1, (moved w1), cs. split; [done|]. split; [done|]. split; [apply do_stores_log|].
  split; [done|]. destruct Hin as (? & ? & ? & ?). rewrite readAt_spec, Ef, Ea by (done || lia).
  f_equal. f_equal. destruct (moved_quiet J P w1 HJ1) as [Hm _].
  etrans; [|apply (fetch_store (windowOffset + off) bs (ws_mem w))].
  apply fetch_ext. intros a Ha. specialize (HP a Ha). etrans; [by apply Hm|by apply Heq].
Qed.

End safety.

(** An origin beyond 4 GB is not rejected but truncated: in a mapping
    that is large enough for the check to pass, a word written at window
    offset [off] lands 4 GB below, outside the window. *)
Theorem window_origin_truncated {D} `{!Device D} `{!Mapping} off v (w : ws D) :
  2 ^ 32 <= windowOffset < 2 ^ 33 -> 0 <= off -> windowOffset + off + 4 <= mappedLength ->
  windowOffset + off + 4 <= 2 ^ 33 ->
  exists abs, writeU32 off v w = Ret (Val tt) (stored abs (le_bytes 4 v) (moved w)) /\
    abs = windowOffset + off - 2 ^ 32 /\ abs + 4 <= windowOffset + off.
Proof.
  intros Hw Ho Hl Hs. exists (windowOffset + off - 2 ^ 32). split; [|lia].
  assert (Ea : add64 windowOffset off = windowOffset + off)
    by (unfold add64, u64; apply Z.mod_small; lia).
  assert (Ee : add64 (windowOffset + off) 4 = windowOffset + off + 4)
    by (unfold add64, u64; apply Z.mod_small; lia).
  assert (Et : u32 (windowOffset + off) = windowOffset + off - 2 ^ 32)
    by (unfold u32; rewrite <-(Z_mod_plus_full _ (-1)), Z.mod_small by lia; lia).
  unfold writeU32, absoluteOffset, mbind, EM_bind. cbv zeta. rewrite Ea, Ee.
  rewrite (proj2 (Z.ltb_ge _ _)), (proj2 (Z.ltb_ge _ _)) by lia. cbn [orb].
  unfold mret, EM_ret. rewrite Et. unfold writeBytes.
  change (le_bytes 4 v) with (v mod 256 :: le_bytes 3 (v / 256)). cbv iota.
  unfold access, throw_if, mbind, EM_bind.
  assert (El : Z.of_nat (length (v mod 256 :: le_bytes 3 (v / 256))) = 4) by done. rewrite El.
  destruct backend_kind.
  - rewrite (proj2 (Z.leb_gt _ _)), (proj2 (Z.ltb_ge _ _)) by lia. done.
  - assert (add64 (windowOffset + off - 2 ^ 32) 4 = windowOffset + off - 2 ^ 32 + 4) as ->
      by (unfold add64, u64; apply Z.mod_small; lia).
    by rewrite (proj2 (Z.ltb_ge _ _)) by lia.
Qed.

(** ** A device that only ticks

    Its heartbeat word counts its moves; the clock counts milliseconds. *)

Record ticking := { tick_beats : Z; tick_clock : Z }.

Definition v80_mapping : Mapping :=
  {| backend_kind := BarFileBackend; mappedLength := 2 ^ 27; windowOffset := kDefaultWindowOffset |}.

#[export] Instance ticking_device : Device ticking := {
  dev_move d m :=
    ({| tick_beats := tick_beats d + 1; tick_clock := tick_clock d |},
     store (kDefaultWindowOffset + ctrl_offset heartbeat) (le_bytes 4 (tick_beats d)) m);
  dev_now d := (tick_clock d, {| tick_beats := tick_beats d; tick_clock := tick_clock d + 1 |})
}.

Definition ticking0 : ticking := {| tick_beats := 0; tick_clock := 0 |}.

(** Everything but the heartbeat stays. *)
Definition not_heartbeat (a : Z) : Prop :=
  ~ (kDefaultWindowOffset + ctrl_offset heartbeat <= a
     < kDefaultWindowOffset + ctrl_offset heartbeat + 4).

#[export] Instance ticking_quiet : Quiet (D := ticking) (fun _ => True) not_heartbeat.
Proof. split; [done|]. intros d m a _ Ha. cbn. by apply store_out. Qed.

Definition blank : ws ticking := mkws (fun _ => 0) ticking0 [].

Lemma window_memory_safe_witness :
  ewp False False (@writeAt _ _ v80_mapping 0x3FFFFFE [1; 2; 3]) blank
    (fun _ w' => logged (@in_mapping v80_mapping) blank w')
    (fun e w' => e = OutOfRange /\ logged (@in_mapping v80_mapping) blank w').
Proof.
  apply (@window_memory_safe ticking _ v80_mapping); [by vm_compute|].
  apply acc_writeAt. by vm_compute.
Defined.

Lemma window_write_read_witness : exists w1 w2 cs,
  @writeAt _ _ v80_mapping 0x1000 [7; 8; 9] blank = Ret (Val tt) w1 /\
  contiguous (kDefaultWindowOffset + 0x1000) cs [7; 8; 9] /\
  ws_log w1 = rev cs ++ [] /\
  eq_on not_heartbeat (ws_mem w1) (store (kDefaultWindowOffset + 0x1000) [7; 8; 9] (ws_mem blank)) /\
  @readAt _ _ v80_mapping 0x1000 3 w1 = Ret (Val [7; 8; 9]) w2.
Proof.
  apply (@window_write_read ticking _ v80_mapping ltac:(by vm_compute) (fun _ => True) not_heartbeat
    ticking_quiet 0x1000 [7; 8; 9] blank).
  - repeat split; by vm_compute.
  - cbn. lia.
  - done.
  - done.
  - intros a. change windowOffset with 0x4000000. unfold not_heartbeat.
    change kDefaultWindowOffset with 0x4000000. cbn. lia.
Defined.

Lemma window_origin_truncated_witness :
  exists abs, @writeU32 _ _ {| backend_kind := RawBufferBackend; mappedLength := 2 ^ 33;
                               windowOffset := 2 ^ 32 |} 0x20 1 blank =
    Ret (Val tt) (stored abs (le_bytes 4 1) (moved blank)) /\ abs = 0x20 /\ abs + 4 <= 2 ^ 32 + 0x20.
Proof.
  apply (@window_origin_truncated ticking _ {| backend_kind := RawBufferBackend;
    mappedLength := 2 ^ 33; windowOffset := 2 ^ 32 |} 0x20 1 blank); cbn; lia.
Defined.
