(* ===== verification/Rp1Submitter.v ===== *)
(** * Submitting graphs from the host

    Models vrt/src/graph/device/fpga/rp1_submitter.cpp and its header: the
    handshake with the firmware, validation and staging of a graph image,
    the doorbell, the wait that drains the completion queue, and the
    poisoning of a submission whose outcome is unknown.

    The device is arbitrary (see [Rp1Window]); laws about it are hypotheses
    of the theorems that need them.  [fuel] bounds the polling loops; it runs
    out only where the clock never reaches the deadline. *)

From S2P Require Import Prelude Except Rp1Protocol Rp1Window.

Record Rp1GraphImage := {
  img_nodes : list rp1_node_t;
  arg_buf : list Z;                (* 32-bit words *)
  clear_signal_slots : list Z;
  cq_size_override : Z;
  img_trace_enable : bool;
  trace_size_override : Z
}.

Definition kDefaultCqSize : Z := 64.
Definition kDefaultTraceSize : Z := 256.
Definition kDefaultReadyTimeout : Z := 1000.

Record Rp1TraceCapture := {
  tc_entries : list rp1_trace_entry_t;
  tc_written : Z;
  tc_overflow : bool
}.

Definition isPowerOfTwo (v : Z) : bool := negb (v =? 0) && (Z.land v (sub32 v 1) =? 0).
Definition isValidCqSize (size : Z) : bool := isPowerOfTwo size && (size <=? RP1_MAX_CQ_ENTRIES).
Definition isValidCondition (op : Z) : bool := op <=? RP1_COP_AND_Z.
Definition validSlot (slot : Z) : bool := slot <? RP1_MAX_SIGNALS.

(** The body of the loop of [validateImage]: whether packet [node] of an
    image of [count] nodes and [words] argument words is accepted. *)
Definition valid_packet (count words : Z) (node : rp1_node_t) : bool :=
  let p := node_payload node in
  if (RP1_MAX_BUCKETS <=? barrier_await_bucket node) ||
     (RP1_MAX_BUCKETS <=? barrier_set_bucket node) then false
  else match opcode_of (node_opcode node) with
  | Some (NOP | SCALAR_WRITE | DMA_COPY | DMA_FILL | HALT) => true
  | Some SIGNAL =>
      let q := view_signal p in
      validSlot (sig_target_slot q) && negb (RP1_SIGOP_AND <? sig_operation q)
  | Some WAIT =>
      let q := view_wait p in
      validSlot (wait_condition_signal q) && isValidCondition (wait_condition_op q)
  | Some SCALAR_READ => validSlot (sr_target_slot (view_scalar_read p))
  | Some SCALAR_COPY => validSlot (source_slot (view_scalar_copy p))
  | Some KERNEL_DISPATCH =>
      let kernel := view_kernel_dispatch p in
      let argEnd := add64 (arg_buffer_offset kernel) (u64 (arg_count kernel * sizeof_kernel_arg)) in
      negb ((kernel_base_addr kernel =? 0) ||
            negb (Z.land (arg_buffer_offset kernel) 7 =? 0) ||
            (words * 4 <? argEnd))
  | Some PDI_LOAD => negb (has_flag (node_flags node) RP1_FLAG_SILENT)
  | Some LOOP =>
      let loop := view_loop p in
      validSlot (loop_condition_signal loop) &&
      negb (negb (isValidCondition (loop_condition_op loop)) ||
            (RP1_MAX_LOOPS <=? loop_loop_id loop) ||
            (loop_body_end loop <? loop_body_start loop) ||
            (count <=? loop_body_end loop) ||
            (loop_bucket_clear_end loop <? loop_bucket_clear_start loop) ||
            (RP1_MAX_BUCKETS <=? loop_bucket_clear_end loop))
  | Some COND =>
      let cond := view_cond p in
      let emptyBody := cond_body_end cond <? cond_body_start cond in
      let emptyBuckets := cond_bucket_clear_end cond <? cond_bucket_clear_start cond in
      validSlot (cond_condition_signal cond) &&
      negb (negb (isValidCondition (cond_condition_op cond)) ||
            (RP1_MAX_BUCKETS <=? cond_done_bucket cond) ||
            (negb emptyBody && (count <=? cond_body_end cond)) ||
            (negb emptyBuckets && (RP1_MAX_BUCKETS <=? cond_bucket_clear_end cond)))
  | Some RERUN =>
      let rerun := view_rerun p in
      negb ((count <=? target_node rerun) ||
            (has_flag (rerun_flags rerun) RP1_RERUN_CLEAR_STATE &&
             (RP1_MAX_LOOPS <=? rerun_loop_id rerun)))
  | None => false
  end.

(** The loop: the first packet that is rejected. *)
Fixpoint first_bad (count words : Z) (i : nat) (nodes : list rp1_node_t) : option nat :=
  match nodes with
  | [] => None
  | node :: nodes' => if valid_packet count words node then first_bad count words (S i) nodes' else Some i
  end.

(** ** The submitter *)

Record sub (D : Type) := mksub {
  window : ws D;
  cq_size_ : Z;
  ready_ : bool;
  last_graph_seq_ : Z;
  last_cq_start_ : Z;
  last_trace_size_ : Z;
  submission_serial_ : Z;
  cq_cursor_ : Z;
  pending_cq_ : list rp1_cq_entry_t;
  poisoned_ : bool;
  submission_active_ : bool
}.
Arguments mksub {D}.
Arguments window {D}.
Arguments cq_size_ {D}.
Arguments ready_ {D}.
Arguments last_graph_seq_ {D}.
Arguments last_cq_start_ {D}.
Arguments last_trace_size_ {D}.
Arguments submission_serial_ {D}.
Arguments cq_cursor_ {D}.
Arguments pending_cq_ {D}.
Arguments poisoned_ {D}.
Arguments submission_active_ {D}.

Section setters.
Context {D : Type}.
Implicit Types s : sub D.

Definition set_window (v : ws D) s := mksub v (cq_size_ s) (ready_ s) (last_graph_seq_ s) (last_cq_start_ s)
  (last_trace_size_ s) (submission_serial_ s) (cq_cursor_ s) (pending_cq_ s) (poisoned_ s)
  (submission_active_ s).
Definition set_cq_size v s := mksub (window s) v (ready_ s) (last_graph_seq_ s) (last_cq_start_ s)
  (last_trace_size_ s) (submission_serial_ s) (cq_cursor_ s) (pending_cq_ s) (poisoned_ s)
  (submission_active_ s).
Definition set_ready v s := mksub (window s) (cq_size_ s) v (last_graph_seq_ s) (last_cq_start_ s)
  (last_trace_size_ s) (submission_serial_ s) (cq_cursor_ s) (pending_cq_ s) (poisoned_ s)
  (submission_active_ s).
Definition set_last_graph_seq v s := mksub (window s) (cq_size_ s) (ready_ s) v (last_cq_start_ s)
  (last_trace_size_ s) (submission_serial_ s) (cq_cursor_ s) (pending_cq_ s) (poisoned_ s)
  (submission_active_ s).
Definition set_last_cq_start v s := mksub (window s) (cq_size_ s) (ready_ s) (last_graph_seq_ s) v
  (last_trace_size_ s) (submission_serial_ s) (cq_cursor_ s) (pending_cq_ s) (poisoned_ s)
  (submission_active_ s).
Definition set_last_trace_size v s := mksub (window s) (cq_size_ s) (ready_ s) (last_graph_seq_ s)
  (last_cq_start_ s) v (submission_serial_ s) (cq_cursor_ s) (pending_cq_ s) (poisoned_ s)
  (submission_active_ s).
Definition set_submission_serial v s := mksub (window s) (cq_size_ s) (ready_ s) (last_graph_seq_ s)
  (last_cq_start_ s) (last_trace_size_ s) v (cq_cursor_ s) (pending_cq_ s) (poisoned_ s)
  (submission_active_ s).
Definition set_cq_cursor v s := mksub (window s) (cq_size_ s) (ready_ s) (last_graph_seq_ s)
  (last_cq_start_ s) (last_trace_size_ s) (submission_serial_ s) v (pending_cq_ s) (poisoned_ s)
  (submission_active_ s).
Definition set_pending_cq v s := mksub (window s) (cq_size_ s) (ready_ s) (last_graph_seq_ s)
  (last_cq_start_ s) (last_trace_size_ s) (submission_serial_ s) (cq_cursor_ s) v (poisoned_ s)
  (submission_active_ s).
Definition set_poisoned v s := mksub (window s) (cq_size_ s) (ready_ s) (last_graph_seq_ s)
  (last_cq_start_ s) (last_trace_size_ s) (submission_serial_ s) (cq_cursor_ s) (pending_cq_ s) v
  (submission_active_ s).
Definition set_submission_active v s := mksub (window s) (cq_size_ s) (ready_ s) (last_graph_seq_ s)
  (last_cq_start_ s) (last_trace_size_ s) (submission_serial_ s) (cq_cursor_ s) (pending_cq_ s)
  (poisoned_ s) v.
End setters.

(** The constructor. *)
Definition Rp1Submitter_new {D} (w : ws D) (cq_size : Z) : except host_exn (sub D) :=
  if negb (isValidCqSize cq_size) then Exn InvalidArgument
  else Val (mksub w cq_size false 0 0 kDefaultTraceSize 0 0 [] false false).

Section submitter.
Context {D : Type} `{!Device D} `{!Mapping}.

Abbreviation HM := (EM host_exn (sub D)).

(** An operation of the window. *)
Definition win {A} (m : EM host_exn (ws D) A) : HM A := zoom window set_window m.

(** A member of the object. *)
Definition get {A} (f : sub D -> A) : HM A := asks f.

Definition rd (f : ctrl_field) : HM Z := win (read_field f).
Definition wr (f : ctrl_field) (v : Z) : HM unit := win (write_field f v).

(** [std::chrono::steady_clock::now()] and [sleep_for]. *)
Definition now : HM Z := win (fun w =>
  let '(t, d) := dev_now (ws_dev w) in Ret (Val t) (mkws (ws_mem w) d (ws_log w))).
Definition sleep : HM unit := win (updates moved).

Definition validateImage (image : Rp1GraphImage) : HM unit :=
  match first_bad (Z.of_nat (length (img_nodes image))) (Z.of_nat (length (arg_buf image))) 0
          (img_nodes image) with
  | Some i => throw (BadNode i)
  | None => mret tt
  end.

Definition requireFirmwareContract : HM unit :=
  ver ← rd version;
  throw_if (negb (ver =? RP1_PROTOCOL_VERSION)) (VersionMismatch ver);;
  caps ← rd capabilities;
  let missing := Z.ldiff RP1_REQUIRED_CAPABILITIES caps in
  throw_if (negb (missing =? 0)) (MissingCapabilities missing);;
  platform ← rd pdi_ipi_platform_id;
  throw_if (platform =? RP1_PDI_IPI_PLATFORM_UNKNOWN) UnknownPlatform.

Definition requireUsable : HM unit :=
  p ← get poisoned_;
  throw_if p Poisoned.

Definition throwTerminalError {A} (state graph_seq : Z) : HM A :=
  code ← rd rp1_error_code;
  node ← rd terminal_error_node;
  detail ← rd terminal_error_detail;
  aux ← rd terminal_error_aux;
  throw (TerminalError state graph_seq code node detail aux).

Definition is_terminal (state : Z) : bool :=
  (state =? RP1_STATE_ERROR) || (state =? RP1_STATE_HALTED).

Fixpoint waitForMagic_loop (fuel : nat) (deadline : Z) : HM unit :=
  match fuel with
  | O => out_of_fuel
  | S fuel' =>
      m ← rd magic;
      if m =? RP1_CTRL_MAGIC then mret tt
      else
        t ← now;
        throw_if (deadline <? t) Rp1TimeoutError;;
        sleep;;
        waitForMagic_loop fuel' deadline
  end.

Definition waitForMagic (fuel : nat) (timeout : Z) : HM unit :=
  t ← now;
  waitForMagic_loop fuel (t + timeout).

Fixpoint waitForState_loop (fuel : nat) (target deadline : Z) : HM unit :=
  match fuel with
  | O => out_of_fuel
  | S fuel' =>
      state ← rd rp1_state;
      if state =? target then mret tt
      else
        ewhen (is_terminal state) (seq ← rd graph_seq; throwTerminalError state seq);;
        t ← now;
        throw_if (deadline <? t) Rp1TimeoutError;;
        sleep;;
        waitForState_loop fuel' target deadline
  end.

Definition waitForState (fuel : nat) (target timeout : Z) : HM unit :=
  t ← now;
  waitForState_loop fuel target (t + timeout).

(** [for (i = 0; i < delta; ++i)] of [drainAvailableCq]. *)
Fixpoint drain_entries (k : nat) (i : Z) : HM unit :=
  match k with
  | O => mret tt
  | S k' =>
      s ← get id;
      let idx := Z.land (add32 (cq_cursor_ s) i) (sub32 (cq_size_ s) 1) in
      entry ← win (readCq idx);
      updates (fun s => set_pending_cq (pending_cq_ s ++ [entry]) s);;
      drain_entries k' (i + 1)
  end.

Definition drainAvailableCq : HM unit :=
  end_ ← rd cq_write_idx;
  cursor ← get cq_cursor_;
  size ← get cq_size_;
  let delta := sub32 end_ cursor in
  throw_if (size <? delta) (CorruptCursors delta);;
  drain_entries (Z.to_nat delta) 0;;
  wr cq_read_idx end_;;
  updates (set_cq_cursor end_).

Fixpoint waitForGraphDone_loop (fuel : nat) (want_seq deadline : Z) : HM unit :=
  match fuel with
  | O => out_of_fuel
  | S fuel' =>
      drainAvailableCq;;
      state ← rd rp1_state;
      ewhen (is_terminal state) (throwTerminalError state want_seq);;
      done ← rd graph_done_seq;
      if done =? want_seq then
        drainAvailableCq;;
        state' ← rd rp1_state;
        ewhen (is_terminal state') (throwTerminalError state' want_seq)
      else
        t ← now;
        ewhen (deadline <? t)
          (rd rp1_current_node;; rd rp1_error_code;; rd cq_write_idx;; throw Rp1TimeoutError);;
        sleep;;
        waitForGraphDone_loop fuel' want_seq deadline
  end.

Definition waitForGraphDone (fuel : nat) (want_seq timeout : Z) : HM unit :=
  t ← now;
  waitForGraphDone_loop fuel want_seq (t + timeout).

(** The host-owned words [ensureReady] programs. *)
Definition program_bases : HM unit :=
  size ← get cq_size_;
  wr cq_size size;;
  wr node_base_lo (u32 (RP1_CTRL_PHYS_ADDR + RP1_DEFAULT_NODE_ARRAY_OFFSET));;
  wr node_base_hi 0;;
  wr cq_base_lo (u32 (RP1_CTRL_PHYS_ADDR + RP1_DEFAULT_CQ_OFFSET));;
  wr cq_base_hi 0;;
  wr arg_buf_base_lo (u32 (RP1_CTRL_PHYS_ADDR + RP1_DEFAULT_ARG_BUF_OFFSET));;
  wr arg_buf_base_hi 0;;
  wr sig_array_base_lo (u32 (RP1_CTRL_PHYS_ADDR + RP1_DEFAULT_SIG_ARRAY_OFFSET));;
  wr sig_array_base_hi 0;;
  win (writeTraceBase (u32 (RP1_CTRL_PHYS_ADDR + RP1_DEFAULT_TRACE_OFFSET)) 0);;
  wr trace_size kDefaultTraceSize;;
  wr trace_enable 0;;
  updates (set_last_trace_size kDefaultTraceSize).

Definition handshake (fuel : nat) (timeout : Z) : HM unit :=
  waitForMagic fuel timeout;;
  waitForState fuel RP1_STATE_READY timeout;;
  requireFirmwareContract;;
  program_bases;;
  widx ← rd cq_write_idx;
  updates (set_cq_cursor widx);;
  wr cq_read_idx widx;;
  updates (set_pending_cq []);;
  updates (set_last_cq_start widx);;
  seq ← rd graph_seq;
  updates (set_last_graph_seq seq);;
  updates (set_ready true).

Definition ensureReady (fuel : nat) (timeout : Z) : HM unit :=
  requireUsable;;
  r ← get ready_;
  if (r : bool) then
    m ← rd magic;
    state ← rd rp1_state;
    if (m =? RP1_CTRL_MAGIC) && (state =? RP1_STATE_READY) then requireFirmwareContract
    else
      updates (set_ready false);;
      handshake fuel timeout
  else handshake fuel timeout.

(** *** Submission *)

(** Phase 1: what is checked before anything is touched. *)
Definition check_image (image : Rp1GraphImage) : HM unit :=
  let count := Z.of_nat (length (img_nodes image)) in
  throw_if (count =? 0) EmptyGraph;;
  throw_if (RP1_MAX_NODES <? count) (TooManyNodes count);;
  validateImage image;;
  each (clear_signal_slots image) (fun slot =>
    throw_if (RP1_MAX_SIGNALS <=? slot) (BadSignalSlot slot)).

(** Phase 2. *)
Definition preflight (fuel : nat) : HM unit :=
  r ← get ready_;
  ewhen (negb r) (ensureReady fuel kDefaultReadyTimeout);;
  state ← rd rp1_state;
  ewhen (negb (state =? RP1_STATE_READY))
    (ewhen (is_terminal state) (seq ← rd graph_seq; throwTerminalError state seq);;
     throw (NotReady state)).

Definition mark_cq_start : HM unit :=
  cursor ← get cq_cursor_;
  updates (set_last_cq_start cursor).

(** The ring and trace configuration of one submission. *)
Definition configure (image : Rp1GraphImage) : HM unit :=
  ewhen (negb (cq_size_override image =? 0))
    (throw_if (negb (isValidCqSize (cq_size_override image))) InvalidArgument;;
     updates (set_cq_size (cq_size_override image));;
     wr cq_size (cq_size_override image));;
  let size := if trace_size_override image =? 0 then kDefaultTraceSize
              else trace_size_override image in
  throw_if (negb (isPowerOfTwo size) || (RP1_MAX_TRACE_ENTRIES <? size)) InvalidArgument;;
  win (writeTraceBase (u32 (RP1_CTRL_PHYS_ADDR + RP1_DEFAULT_TRACE_OFFSET)) 0);;
  wr trace_size size;;
  wr trace_enable (if img_trace_enable image then 1 else 0);;
  updates (set_last_trace_size size).

(** Phase 3: returns the sequence number to publish. *)
Definition stage (image : Rp1GraphImage) : HM Z :=
  drainAvailableCq;;
  updates (set_pending_cq []);;
  mark_cq_start;;
  ewhen (match arg_buf image with [] => false | _ => true end) (win (writeArgs (arg_buf image)));;
  each (clear_signal_slots image) (fun slot => win (clearSignal slot));;
  win (writeNodes (img_nodes image));;
  mark_cq_start;;
  prev_seq ← rd graph_seq;
  wr node_count (u32 (Z.of_nat (length (img_nodes image))));;
  configure image;;
  mret (add32 prev_seq 1).

(** Phase 4. *)
Definition ring_doorbell (want_seq : Z) : HM unit :=
  wr graph_seq want_seq;;
  updates (set_last_graph_seq want_seq);;
  updates (fun s => set_submission_serial (add64 (submission_serial_ s) 1) s).

Definition is_timeout (e : host_exn) : bool :=
  match e with Rp1TimeoutError => true | _ => false end.

(** Phase 5. *)
Definition await (fuel : nat) (want_seq timeout : Z) : HM unit :=
  on_exn is_timeout (waitForGraphDone fuel want_seq timeout) (set_poisoned true);;
  state ← rd rp1_state;
  ewhen (is_terminal state) (throwTerminalError state want_seq).

Definition submitAndWait (fuel : nat) (image : Rp1GraphImage) (timeout : Z) : HM unit :=
  requireUsable;;
  active ← get submission_active_;
  throw_if active SubmissionActive;;
  updates (set_submission_active true);;
  finally
    (check_image image;;
     preflight fuel;;
     want_seq ← stage image;
     ring_doorbell want_seq;;
     await fuel want_seq timeout)
    (set_submission_active false).

(** *** Queries *)

Definition clearSignalSlots (fuel : nat) (slots : list Z) : HM unit :=
  requireUsable;;
  r ← get ready_;
  ewhen (negb r) (ensureReady fuel kDefaultReadyTimeout);;
  each slots (fun slot =>
    throw_if (RP1_MAX_SIGNALS <=? slot) (BadSignalSlot slot);;
    win (clearSignal slot)).

Definition readSignalValue (slot : Z) : HM Z :=
  throw_if (RP1_MAX_SIGNALS <=? slot) (BadSignalSlot slot);;
  value ← win (readSignal slot);
  mret (slot_value value).

Definition drainCqRaw : HM (list rp1_cq_entry_t) :=
  drainAvailableCq;;
  out ← get pending_cq_;
  updates (set_pending_cq []);;
  mark_cq_start;;
  mret out.

Definition validateCq (entries : list rp1_cq_entry_t) : HM unit :=
  each entries (fun entry => throw_if (negb (cq_status entry =? RP1_CQ_OK)) (NodeFailed entry)).

Definition drainCq : HM (list rp1_cq_entry_t) :=
  out ← drainCqRaw;
  validateCq out;;
  mret out.

(** [for (i = 0; i < count; ++i)] of [drainTrace]. *)
Fixpoint trace_entries (k : nat) (start i size : Z) : HM (list rp1_trace_entry_t) :=
  match k with
  | O => mret []
  | S k' =>
      entry ← win (readTrace (add32 start i mod size));
      rest ← trace_entries k' start (i + 1) size;
      mret (entry :: rest)
  end.

(** A zero ring size would divide by zero. *)
Definition drainTrace : HM Rp1TraceCapture :=
  written ← rd trace_write_idx;
  size ← get last_trace_size_;
  let overflow := size <? written in
  let count := if overflow then size else written in
  (if overflow && (size =? 0) then undefined else mret tt);;
  let start := if overflow then written mod size else 0 in
  entries ← trace_entries (Z.to_nat count) start 0 size;
  mret {| tc_entries := entries; tc_written := written; tc_overflow := overflow |}.

End submitter.
