(* ===== verification/SubmitterLog.v ===== *)
(** * What the submitter writes, and when

    Theorems about the stores of [Rp1Submitter] that hold for every device,
    every memory content and every outcome of a call: an image that fails
    validation is never staged, the doorbell is the last store before the
    wait and nothing but the queue cursor is written after it, the host
    writes only the words and areas it owns, and an unresolved submission
    poisons the submitter. *)

From S2P Require Import Prelude Except Rp1Protocol Rp1Window Rp1Submitter.

Lemma kWindowSize_val : kWindowSize = 0x4000000.
Proof. done. Qed.

(** A mapping that covers the whole window, as the production constructor
    requires of one of at most 4 GB. *)
Class WindowOk `{!Mapping} : Prop := {
  wo_small : mappedLength <= 2 ^ 32;
  wo_origin : 0 <= windowOffset;
  wo_size : windowOffset + kWindowSize <= mappedLength
}.

Lemma bar_file_constructor_ok length window_offset m :
  length <= 2 ^ 32 -> 0 <= window_offset -> window_offset + kWindowSize < 2 ^ 64 ->
  bar_file_constructor length window_offset = Val m -> @WindowOk m.
Proof.
  intros Hl Ho Hw. unfold bar_file_constructor, add64, u64. rewrite kWindowSize_val in Hw |- *.
  rewrite Z.mod_small by lia.
  destruct (_ <? _) eqn:E; [done|]. intros [= <-]. bools. split; cbn; rewrite ?kWindowSize_val; lia.
Qed.

Definition word_addr `{!Mapping} (f : ctrl_field) : Z := windowOffset + ctrl_offset f.

(** The word of field [f] in memory [m]. *)
Definition word `{!Mapping} (f : ctrl_field) (m : Z -> Z) : Z := le_val (fetch (word_addr f) 4 m).

Lemma ctrl_offset_range f : 0 <= ctrl_offset f <= 0x74.
Proof. destruct f; cbn; lia. Qed.

Lemma ctrl_offset_apart f g : f <> g -> ctrl_offset f + 4 <= ctrl_offset g \/ ctrl_offset g + 4 <= ctrl_offset f.
Proof. destruct f, g; cbn; (done || lia). Qed.

(** ** The accesses of the submitter *)

Section access.
Context {D : Type} `{!Device D} `{!Mapping} `{!WindowOk}.
Implicit Types (w : ws D) (s : sub D).

Lemma window_range off n : 0 <= off -> 0 <= n -> off + n <= kWindowSize -> in_window off n.
Proof using Type*. pose proof wo_origin. pose proof wo_size. unfold in_window. lia. Qed.

Lemma field_fits f : add64 windowOffset (ctrl_offset f) = word_addr f /\ fits (ctrl_offset f) 4 = true.
Proof using Type*.
  pose proof (ctrl_offset_range f). apply (in_window_fits (wo_small)), window_range;
    rewrite ?kWindowSize_val; lia.
Qed.

Lemma read_field_ok f w : read_field f w = Ret (Val (word f (ws_mem (moved w)))) (moved w).
Proof using Type*.
  destruct (field_fits f) as [Ea Ef]. unfold read_field.
  by rewrite readU32_spec, Ef, Ea by apply wo_small.
Qed.

Lemma write_field_ok f v w :
  write_field f v w = Ret (Val tt) (stored (word_addr f) (le_bytes 4 v) (moved w)).
Proof using Type*.
  destruct (field_fits f) as [Ea Ef]. unfold write_field.
  by rewrite writeU32_spec, Ef, Ea by apply wo_small.
Qed.

(** ** Stores as a kept relation *)

(** Every store into [n] bytes at window offset [off] satisfies [ok]. *)
Definition range_ok (ok : Z * list Z -> Prop) (off n : Z) : Prop :=
  forall a b, windowOffset + off <= a -> a + Z.of_nat (length b) <= windowOffset + off + n -> ok (a, b).

Lemma logged_moved ok w : logged ok w (moved w).
Proof. exists []. split; [|done]. unfold moved. by destruct (dev_move _ _). Qed.

Lemma logged_stored ok abs bs w : ok (abs, bs) -> logged ok w (stored abs bs (moved w)).
Proof.
  intros Hok. exists [(abs, bs)]. split; [|by constructor].
  unfold stored, moved. by destruct (dev_move _ _).
Qed.

Lemma logged_readAt ok off n : keeps (logged ok) (readAt off n : EM host_exn (ws D) _).
Proof.
  unfold readAt, readBytes, absoluteOffset, access.
  repeat first [ekeeps_step | apply ekeeps_updates; intros; apply logged_moved].
Qed.

Lemma logged_read_field ok f : keeps (logged ok) (read_field f : EM host_exn (ws D) _).
Proof using Type*. intros w. rewrite read_field_ok. apply logged_moved. Qed.

Lemma logged_write_field ok f v :
  range_ok ok (ctrl_offset f) 4 -> keeps (logged ok) (write_field f v : EM host_exn (ws D) _).
Proof using Type*.
  intros Hok w. rewrite write_field_ok. apply logged_stored, Hok; rewrite ?length_le_bytes;
    unfold word_addr; lia.
Qed.

Lemma contiguous_inside abs cs bs : contiguous abs cs bs ->
  Forall (fun '(a, b) => abs <= a /\ a + Z.of_nat (length b) <= abs + Z.of_nat (length bs)) cs.
Proof.
  induction 1 as [|abs b cs rest Hb Hk Hc IH]; [done|]. rewrite length_app. constructor; [lia|].
  eapply Forall_impl; [|exact IH]. intros [a c] [? ?]. lia.
Qed.

Lemma logged_writeAt ok off bs :
  in_window off (Z.of_nat (length bs)) -> range_ok ok off (Z.of_nat (length bs)) ->
  keeps (logged ok) (writeAt off bs : EM host_exn (ws D) _).
Proof using Type*.
  intros Hin Hok w. rewrite writeAt_ok by (apply wo_small || done). eexists.
  split; [apply do_stores_log|]. apply Forall_rev.
  eapply Forall_impl; [|apply (contiguous_inside (windowOffset + off) _ bs),
    chunks_contiguous; lia]. intros [a b] [? ?]. by apply Hok.
Qed.

(** A call that makes only stores of [ok], and neither rings nor poisons nor
    touches the submission guard. *)
Definition behaves (ok : Z * list Z -> Prop) (s s' : sub D) : Prop :=
  logged ok (window s) (window s') /\ submission_serial_ s' = submission_serial_ s /\
  poisoned_ s' = poisoned_ s /\ submission_active_ s' = submission_active_ s.

#[export] Instance behaves_preorder ok : PreOrder (behaves ok).
Proof.
  split; [done|]. intros s1 s2 s3 (L1 & A1 & B1 & C1) (L2 & A2 & B2 & C2).
  split; [by etrans|]. split_and!; congruence.
Qed.

Lemma behaves_mono (ok ok' : Z * list Z -> Prop) s s' :
  (forall e, ok e -> ok' e) -> behaves ok s s' -> behaves ok' s s'.
Proof.
  intros Hok [(new & E & F) Hr]. split; [|done]. exists new. split; [done|].
  eapply Forall_impl; [exact Hok|exact F].
Qed.

Lemma b_win ok {A} (m : EM host_exn (ws D) A) : keeps (logged ok) m -> keeps (behaves ok) (win m).
Proof. intros Hm. eapply ekeeps_zoom; [exact Hm|]. intros s t Ht. by split. Qed.

Lemma b_rd ok f : keeps (behaves ok) (rd f).
Proof using Type*. apply b_win, logged_read_field. Qed.

Lemma b_wr ok f v : range_ok ok (ctrl_offset f) 4 -> keeps (behaves ok) (wr f v).
Proof using Type*. intros. by apply b_win, logged_write_field. Qed.

Lemma b_get ok {A} (f : sub D -> A) : keeps (behaves ok) (get f).
Proof. unfold get. ekeeps_step. Qed.

Lemma b_now ok : keeps (behaves ok) now.
Proof.
  apply b_win. intros w. destruct (dev_now (ws_dev w)). by exists [].
Qed.

Lemma b_sleep ok : keeps (behaves ok) sleep.
Proof. apply b_win, ekeeps_updates. apply logged_moved. Qed.

Lemma b_readCq ok idx : keeps (behaves ok) (win (readCq idx)).
Proof. apply b_win. unfold readCq. repeat first [ekeeps_step | apply logged_readAt]. Qed.
End access.

Create HintDb host.
#[export] Hint Resolve b_rd b_wr b_get b_now b_sleep b_readCq : host.

(** Steps through a member function. *)
Ltac host_go :=
  repeat first
    [ solve [eauto with host]
    | apply ekeeps_updates; intros ?; by repeat split
    | ekeeps_step ].

(** The words [ensureReady] and [configure] write. *)
Definition host_words : list ctrl_field :=
  [cq_size; node_base_lo; node_base_hi; cq_base_lo; cq_base_hi; arg_buf_base_lo; arg_buf_base_hi;
   sig_array_base_lo; sig_array_base_hi; trace_base_lo; trace_base_hi; trace_size; trace_enable;
   cq_read_idx].

(** Bytes of an image. *)
Definition node_bytes (image : Rp1GraphImage) : list Z := concat (map encode_node (img_nodes image)).
Definition arg_bytes (image : Rp1GraphImage) : list Z := concat (map (le_bytes 4) (arg_buf image)).

Section calls.
Context {D : Type} `{!Device D} `{!Mapping} `{!WindowOk}.
Context (ok : Z * list Z -> Prop).
Implicit Types s : sub D.

Lemma b_throwTerminalError {A} state seq :
  keeps (behaves ok) (throwTerminalError state seq : EM host_exn (sub D) A).
Proof using Type*. unfold throwTerminalError. host_go. Qed.
#[local] Hint Resolve b_throwTerminalError : host.

Lemma b_requireUsable : keeps (behaves ok) (requireUsable : EM host_exn (sub D) _).
Proof using Type*. unfold requireUsable. host_go. Qed.

Lemma b_requireFirmwareContract :
  keeps (behaves ok) (requireFirmwareContract : EM host_exn (sub D) _).
Proof using Type*. unfold requireFirmwareContract. host_go. Qed.

Lemma b_validateImage image : keeps (behaves ok) (validateImage image : EM host_exn (sub D) _).
Proof. unfold validateImage. host_go. Qed.

Lemma b_waitForMagic fuel timeout :
  keeps (behaves ok) (waitForMagic fuel timeout : EM host_exn (sub D) _).
Proof using Type*.
  unfold waitForMagic. ekeeps_step; [host_go|].
  generalize (a + timeout). induction fuel as [|fuel IH]; intros deadline; cbn [waitForMagic_loop];
    host_go.
Qed.

Lemma b_waitForState fuel target timeout :
  keeps (behaves ok) (waitForState fuel target timeout : EM host_exn (sub D) _).
Proof using Type*.
  unfold waitForState. ekeeps_step; [host_go|].
  generalize (a + timeout). induction fuel as [|fuel IH]; intros deadline; cbn [waitForState_loop];
    host_go.
Qed.

Lemma b_drain_entries k : forall i, keeps (behaves ok) (drain_entries k i : EM host_exn (sub D) _).
Proof using Type*. induction k as [|k IH]; intros i; cbn [drain_entries]; host_go. Qed.
#[local] Hint Resolve b_requireUsable b_requireFirmwareContract b_validateImage b_waitForMagic
  b_waitForState b_drain_entries : host.

Lemma b_drainAvailableCq :
  range_ok ok (ctrl_offset cq_read_idx) 4 ->
  keeps (behaves ok) (drainAvailableCq : EM host_exn (sub D) _).
Proof using Type*. intros. unfold drainAvailableCq. host_go. Qed.
#[local] Hint Resolve b_drainAvailableCq : host.

Lemma b_waitForGraphDone fuel want timeout :
  range_ok ok (ctrl_offset cq_read_idx) 4 ->
  keeps (behaves ok) (waitForGraphDone fuel want timeout : EM host_exn (sub D) _).
Proof using Type*.
  intros Hc. unfold waitForGraphDone. ekeeps_step; [host_go|].
  generalize (a + timeout). induction fuel as [|fuel IH]; intros deadline;
    cbn [waitForGraphDone_loop]; host_go.
Qed.

Lemma b_writeTraceBase lo hi :
  range_ok ok (ctrl_offset trace_base_lo) 4 -> range_ok ok (ctrl_offset trace_base_hi) 4 ->
  keeps (behaves ok) (win (writeTraceBase lo hi) : EM host_exn (sub D) _).
Proof using Type*.
  intros. apply b_win. unfold writeTraceBase. ekeeps_step; by apply logged_write_field.
Qed.
#[local] Hint Resolve b_writeTraceBase : host.

Hypothesis Hwords : forall f, f ∈ host_words -> range_ok ok (ctrl_offset f) 4.

Lemma host_word f : bool_decide (f ∈ host_words) = true -> range_ok ok (ctrl_offset f) 4.
Proof using Hwords. intros Hf%bool_decide_eq_true. by apply Hwords. Qed.
#[local] Hint Extern 2 (range_ok ok (ctrl_offset _) 4) => apply host_word; reflexivity : host.

Lemma b_handshake fuel timeout :
  keeps (behaves ok) (handshake fuel timeout : EM host_exn (sub D) _).
Proof using Type*. unfold handshake, program_bases. host_go. Qed.
#[local] Hint Resolve b_handshake : host.

Lemma b_ensureReady fuel timeout :
  keeps (behaves ok) (ensureReady fuel timeout : EM host_exn (sub D) _).
Proof using Type*. unfold ensureReady. host_go. Qed.
#[local] Hint Resolve b_ensureReady : host.

Lemma b_preflight fuel : keeps (behaves ok) (preflight fuel : EM host_exn (sub D) _).
Proof using Type*. unfold preflight. host_go. Qed.

Lemma b_configure image : keeps (behaves ok) (configure image : EM host_exn (sub D) _).
Proof using Type*. unfold configure. host_go. Qed.
#[local] Hint Resolve b_configure : host.

(** The areas a valid image is staged into. *)
Definition areas_ok (image : Rp1GraphImage) : Prop :=
  range_ok ok (ctrl_offset node_count) 4 /\
  in_window RP1_DEFAULT_ARG_BUF_OFFSET (Z.of_nat (length (arg_bytes image))) /\
  range_ok ok RP1_DEFAULT_ARG_BUF_OFFSET (Z.of_nat (length (arg_bytes image))) /\
  in_window RP1_DEFAULT_NODE_ARRAY_OFFSET (Z.of_nat (length (node_bytes image))) /\
  range_ok ok RP1_DEFAULT_NODE_ARRAY_OFFSET (Z.of_nat (length (node_bytes image))) /\
  range_ok ok RP1_DEFAULT_SIG_ARRAY_OFFSET (RP1_MAX_SIGNALS * sizeof_signal_slot) /\
  Forall (fun slot => 0 <= slot < RP1_MAX_SIGNALS) (clear_signal_slots image).

Lemma b_clearSignal slot :
  0 <= slot < RP1_MAX_SIGNALS ->
  range_ok ok RP1_DEFAULT_SIG_ARRAY_OFFSET (RP1_MAX_SIGNALS * sizeof_signal_slot) ->
  keeps (behaves ok) (win (clearSignal slot) : EM host_exn (sub D) _).
Proof using Type*.
  intros Hs Hok. apply b_win. unfold clearSignal, element, u32.
  unfold RP1_MAX_SIGNALS, sizeof_signal_slot, RP1_DEFAULT_SIG_ARRAY_OFFSET in *.
  rewrite Z.mod_small by lia. apply logged_writeAt.
  - apply window_range; rewrite ?kWindowSize_val, ?length_replicate; lia.
  - intros a b Ha Hb. rewrite length_replicate in Hb. apply Hok; lia.
Qed.

Lemma b_stage image : areas_ok image -> keeps (behaves ok) (stage image : EM host_exn (sub D) _).
Proof using Type*.
  intros (Hc & Hai & Ha & Hni & Hn & Hsig & Hslots). unfold stage, mark_cq_start.
  assert (Harg : keeps (behaves ok) (win (writeArgs (arg_buf image)) : EM host_exn (sub D) _))
    by (by apply b_win, logged_writeAt).
  assert (Hnode : keeps (behaves ok) (win (writeNodes (img_nodes image)) : EM host_exn (sub D) _))
    by (by apply b_win, logged_writeAt).
  assert (Hsigs : keeps (behaves ok) (each (clear_signal_slots image)
    (fun slot => win (clearSignal slot)) : EM host_exn (sub D) _)).
  { induction (clear_signal_slots image) as [|slot l IH]; cbn [each]; [host_go|].
    inversion Hslots; subst. ekeeps_step; [by apply b_clearSignal|by apply IH]. }
  host_go.
Qed.
End calls.

(** ** Validation *)

(** The exception phase 1 throws. *)
Definition image_error (image : Rp1GraphImage) : option host_exn :=
  let count := Z.of_nat (length (img_nodes image)) in
  if count =? 0 then Some EmptyGraph
  else if RP1_MAX_NODES <? count then Some (TooManyNodes count)
  else match first_bad count (Z.of_nat (length (arg_buf image))) 0 (img_nodes image) with
  | Some i => Some (BadNode i)
  | None =>
      match List.find (fun slot => RP1_MAX_SIGNALS <=? slot) (clear_signal_slots image) with
      | Some slot => Some (BadSignalSlot slot)
      | None => None
      end
  end.

Definition as_result (e : option host_exn) : except host_exn unit :=
  match e with Some e => Exn e | None => Val tt end.

Lemma check_image_spec {D} image (s : sub D) :
  check_image image s = Ret (as_result (image_error image)) s.
Proof.
  unfold check_image, image_error, validateImage, mbind, EM_bind, throw_if. cbv zeta.
  destruct (_ =? 0); [done|]. cbn [mret EM_ret]. destruct (RP1_MAX_NODES <? _); [done|].
  cbn [mret EM_ret]. destruct (first_bad _ _ _ _); [done|]. cbn [mret EM_ret].
  induction (clear_signal_slots image) as [|slot l IH]; cbn [each List.find]; [done|].
  unfold mbind, EM_bind. destruct (_ <=? slot); [done|]. exact IH.
Qed.

(** A well-formed image: fields in the range of their C types. *)
Record image_wf (image : Rp1GraphImage) : Prop := {
  iw_nodes : Forall node_wf (img_nodes image);
  iw_args : Forall is_u32 (arg_buf image);
  iw_slots : Forall is_u32 (clear_signal_slots image);
  iw_cq_size : is_u32 (cq_size_override image);
  iw_trace_size : is_u32 (trace_size_override image)
}.

Lemma length_concat_const {A B} (f : A -> list B) n l :
  Forall (fun x => length (f x) = n) l -> length (concat (map f l)) = (n * length l)%nat.
Proof.
  induction 1 as [|x l Hx _ IH]; cbn [map concat length]; [lia|]. rewrite length_app. lia.
Qed.

Lemma length_encode_node n : node_wf n -> length (encode_node n) = 64%nat.
Proof.
  intros (_ & _ & _ & _ & _ & _ & _ & Hp & _). unfold encode_node.
  rewrite !length_app, !length_le_bytes. lia.
Qed.

Lemma length_node_bytes image :
  image_wf image -> length (node_bytes image) = (64 * length (img_nodes image))%nat.
Proof.
  intros [Hn _ _ _ _]. apply length_concat_const. eapply Forall_impl; [|exact Hn].
  apply length_encode_node.
Qed.

Lemma length_arg_bytes image : length (arg_bytes image) = (4 * length (arg_buf image))%nat.
Proof. apply length_concat_const. apply Forall_forall. intros. apply length_le_bytes. Qed.

(** What the checks of phase 1 establish. *)
Lemma checked_image image :
  image_error image = None -> image_wf image ->
  0 < Z.of_nat (length (img_nodes image)) <= RP1_MAX_NODES /\
  Forall (fun slot => 0 <= slot < RP1_MAX_SIGNALS) (clear_signal_slots image).
Proof.
  unfold image_error. cbv zeta. intros E [_ _ Hs _ _].
  destruct (_ =? 0) eqn:E0; [done|]. destruct (RP1_MAX_NODES <? _) eqn:E1; [done|].
  destruct (first_bad _ _ _ _); [done|]. destruct (List.find _ _) as [slot|] eqn:Ef; [done|].
  bools. split; [lia|]. apply Forall_forall. intros slot Hin.
  pose proof (List.find_none _ _ Ef slot Hin) as Hlt. cbn beta in Hlt. bools.
  rewrite Forall_forall in Hs. specialize (Hs slot Hin). unfold is_u32 in Hs. lia.
Qed.

(** ** Order of the stores *)

Section order.
Context {D : Type} `{!Device D} `{!Mapping} `{!WindowOk}.
Implicit Types s : sub D.

(** A store that does not touch the doorbell word. *)
Definition calm (e : Z * list Z) : Prop :=
  fst e + Z.of_nat (length (snd e)) <= word_addr graph_seq \/ word_addr graph_seq + 4 <= fst e.

(** A store into the queue cursor. *)
Definition cursor_store (e : Z * list Z) : Prop :=
  word_addr cq_read_idx <= fst e /\
  fst e + Z.of_nat (length (snd e)) <= word_addr cq_read_idx + 4.

Lemma range_calm off n :
  off + n <= ctrl_offset graph_seq \/ ctrl_offset graph_seq + 4 <= off -> range_ok calm off n.
Proof. intros Ho a b Ha Hb. unfold calm, word_addr. cbn [fst snd]. lia. Qed.

Lemma words_calm f : f ∈ host_words -> range_ok calm (ctrl_offset f) 4.
Proof.
  intros Hf. apply range_calm. destruct (ctrl_offset_apart f graph_seq); [|lia|lia].
  intros ->. apply (bool_decide_eq_true_2 _) in Hf. by vm_compute in Hf.
Qed.

Lemma areas_calm image :
  image_error image = None -> image_wf image ->
  in_window RP1_DEFAULT_ARG_BUF_OFFSET (Z.of_nat (length (arg_bytes image))) ->
  areas_ok calm image.
Proof using Type*.
  intros He Hwf Ha. destruct (checked_image image He Hwf) as [Hn Hs].
  pose proof (length_node_bytes image Hwf) as Hl.
  unfold areas_ok, RP1_MAX_NODES in *.
  split_and!; try done; try (apply range_calm; first [by left|by right]).
  apply window_range; rewrite ?kWindowSize_val; unfold RP1_DEFAULT_NODE_ARRAY_OFFSET; lia.
Qed.

Lemma ewp_keeps {A} (R : sub D -> sub D -> Prop) (m : EM host_exn (sub D) A) s :
  keeps R m -> ewp True True m s (fun _ s' => R s s') (fun _ s' => R s s').
Proof. intros Hm. specialize (Hm s). unfold ewp, post. by destruct (m s) as [[]| |]. Qed.

Definition seen (s : sub D) : sub D := set_window (moved (window s)) s.

Lemma rd_ok f s : rd f s = Ret (Val (word f (ws_mem (window (seen s))))) (seen s).
Proof using Type*. unfold rd, win, zoom. by rewrite read_field_ok. Qed.

Lemma wr_ok f v s :
  wr f v s = Ret (Val tt)
    (set_window (stored (word_addr f) (le_bytes 4 v) (moved (window s))) s).
Proof using Type*. unfold wr, win, zoom. by rewrite write_field_ok. Qed.

(** Reads neither throw nor store. *)
Lemma ewp_rd ub nf f s (Q : Z -> sub D -> Prop) X :
  Q (word f (ws_mem (window (seen s)))) (seen s) -> ewp ub nf (rd f) s Q X.
Proof using Type*. unfold ewp, post. by rewrite rd_ok. Qed.

Lemma seen_behaves ok s : behaves ok s (seen s).
Proof. split; [apply logged_moved|done]. Qed.

Lemma ewp_terminal {A} ub nf state seq s (Q : A -> sub D -> Prop) (X : host_exn -> sub D -> Prop) :
  (forall code node detail aux s', (forall ok, behaves ok s s') ->
     X (TerminalError state seq code node detail aux) s') ->
  ewp ub nf (throwTerminalError state seq) s Q X.
Proof using Type*.
  intros HX. unfold throwTerminalError. do 4 (ewp_step; apply ewp_rd). ewp_step. apply HX.
  intros ok. do 3 (etrans; [apply seen_behaves|]). apply seen_behaves.
Qed.
Lemma await_spec fuel want timeout s :
  ewp True True (await fuel want timeout) s (fun _ s' => behaves cursor_store s s')
    (fun e s' => exists s1, behaves cursor_store s s1 /\
       s' = if is_timeout e then set_poisoned true s1 else s1).
Proof using Type*.
  unfold await. ewp_step. ewp_step. eapply ewp_mono.
  - apply ewp_keeps, (b_waitForGraphDone cursor_store). intros a b Ha Hb. exact (conj Ha Hb).
  - intros _a s1 H1. cbv beta. ewp_step. apply ewp_rd. ewp_step.
    + apply ewp_terminal. intros code node detail aux s' Hb. exists s'. split; [|done].
      etrans; [exact H1|]. etrans; [apply seen_behaves|]. apply Hb.
    + etrans; [exact H1|]. apply seen_behaves.
  - intros e s1 H1. exists s1. split; [exact H1|]. done.
Qed.

(** The state right after the doorbell. *)
Definition rung (want : Z) (s : sub D) : sub D :=
  set_submission_serial (add64 (submission_serial_ s) 1)
    (set_last_graph_seq want
      (set_window (stored (word_addr graph_seq) (le_bytes 4 want) (moved (window s))) s)).

Lemma ring_doorbell_ok want s : ring_doorbell want s = Ret (Val tt) (rung want s).
Proof using Type*. unfold ring_doorbell, mbind, EM_bind. by rewrite wr_ok. Qed.

(** The two ways a submission ends. *)
Definition refused (s s' : sub D) : Prop := behaves calm s s'.
Definition resolved (r : except host_exn unit) (s s' : sub D) : Prop :=
  exists s1 want s2, behaves calm s s1 /\ behaves cursor_store (rung want s1) s2 /\
    s' = match r with Exn Rp1TimeoutError => set_poisoned true s2 | _ => s2 end.

Lemma submission_body fuel image timeout s :
  image_wf image ->
  in_window RP1_DEFAULT_ARG_BUF_OFFSET (Z.of_nat (length (arg_bytes image))) ->
  ewp True True
    (check_image image;; preflight fuel;; want ← stage image; ring_doorbell want;;
     await fuel want timeout) s
    (fun _ s' => resolved (Val tt) s s')
    (fun e s' => refused s s' \/ resolved (Exn e) s s').
Proof using Type*.
  intros Hwf Ha. ewp_step. unfold ewp at 1, post. rewrite check_image_spec.
  destruct (image_error image) eqn:He; cbn [as_result]; [by left|].
  ewp_step. eapply ewp_mono; [apply ewp_keeps, b_preflight, words_calm| |by left].
  intros _a s1 H1. cbv beta. ewp_step.
  eapply ewp_mono; [apply ewp_keeps, b_stage; [apply words_calm|by apply areas_calm]| |].
  2: { intros e s2 H2. left. unfold refused. etrans; [exact H1|exact H2]. }
  intros want s2 H2. cbv beta. ewp_step. unfold ewp at 1, post. rewrite ring_doorbell_ok.
  eapply ewp_mono; [apply await_spec| |].
  - intros _b s3 H3. exists s2, want, s3. split; [etrans; [exact H1|exact H2]|]. by split.
  - intros e s3 (s4 & H4 & ->). right. exists s2, want, s4.
    split; [etrans; [exact H1|exact H2]|]. split; [exact H4|]. by destruct e.
Qed.

Lemma resolved_facts r s s' :
  poisoned_ s = false -> resolved r s s' ->
  exists after want before,
    ws_log (window s') =
      after ++ (word_addr graph_seq, le_bytes 4 want) :: before ++ ws_log (window s) /\
    Forall calm before /\ Forall cursor_store after /\
    submission_serial_ s' = add64 (submission_serial_ s) 1 /\
    (poisoned_ s' = true <-> r = Exn Rp1TimeoutError).
Proof.
  intros Hp (s1 & want & s2 & [(before & E1 & F1) (Hs1 & Hp1 & _)] &
    [(after & E2 & F2) (Hs2 & Hp2 & _)] & ->).
  exists after, want, before.
  assert (Ew : ws_log (window s2) =
    after ++ (word_addr graph_seq, le_bytes 4 want) :: before ++ ws_log (window s)).
  { rewrite E2, <-E1. cbn. unfold moved. by destruct (dev_move _ _). }
  assert (Es : submission_serial_ s2 = add64 (submission_serial_ s) 1)
    by (rewrite Hs2; cbn; by rewrite Hs1).
  assert (Ep : poisoned_ s2 = false) by (rewrite Hp2; cbn; congruence).
  destruct r as [[]|[]]; cbn; split_and!; done || (split; congruence).
Qed.

(** The submission, with its guard. *)
Lemma submission_spec fuel image timeout s :
  image_wf image ->
  in_window RP1_DEFAULT_ARG_BUF_OFFSET (Z.of_nat (length (arg_bytes image))) ->
  poisoned_ s = false -> submission_active_ s = false ->
  ewp True True (submitAndWait fuel image timeout) s
    (fun _ s' => exists s0, resolved (Val tt) (set_submission_active true s) s0 /\
       s' = set_submission_active false s0)
    (fun e s' => exists s0, (refused (set_submission_active true s) s0 \/
       resolved (Exn e) (set_submission_active true s) s0) /\ s' = set_submission_active false s0).
Proof using Type*.
  intros Hwf Ha Hp Hact. unfold submitAndWait, requireUsable, get.
  do 3 ewp_step. ewp_step; [congruence|]. ewp_step. ewp_step. ewp_step. ewp_step; [congruence|].
  ewp_step. ewp_step. ewp_step.
  eapply ewp_mono; [by apply submission_body|..].
  - intros a s0 Hs0. exists s0. by split.
  - intros e s0 Hs0. exists s0. by split.
Qed.

(** C10: the doorbell discipline, for every device and every outcome.  A
    submission either fails without having touched [graph_seq]; or it stages
    the image without touching it, then writes it exactly once, and from then
    on writes nothing but its queue cursor.  The doorbell count advances
    exactly with the doorbell, a timeout after the doorbell poisons the
    submitter and nothing else does, and the submission guard is released on
    every exit. *)
Theorem doorbell_discipline fuel image timeout s r s' :
  image_wf image ->
  in_window RP1_DEFAULT_ARG_BUF_OFFSET (Z.of_nat (length (arg_bytes image))) ->
  poisoned_ s = false -> submission_active_ s = false ->
  submitAndWait fuel image timeout s = Ret r s' ->
  submission_active_ s' = false /\
  ((exists e before, r = Exn e /\ ws_log (window s') = before ++ ws_log (window s) /\
      Forall calm before /\ submission_serial_ s' = submission_serial_ s /\ poisoned_ s' = false)
   \/
   (exists after want before,
      ws_log (window s') =
        after ++ (word_addr graph_seq, le_bytes 4 want) :: before ++ ws_log (window s) /\
      Forall calm before /\ Forall cursor_store after /\
      submission_serial_ s' = add64 (submission_serial_ s) 1 /\
      (poisoned_ s' = true <-> r = Exn Rp1TimeoutError))).
Proof using Type*.
  intros Hwf Ha Hp Hact E.
  apply (ewp_run _ _ _ _ _ _ (submission_spec fuel image timeout s Hwf Ha Hp Hact)) in E.
  destruct r as [[]|e]; destruct E as (s0 & Hs0 & ->); (split; [done|]).
  - right. exact (resolved_facts _ (set_submission_active true s) s0 Hp Hs0).
  - destruct Hs0 as [[(before & El & F) (Hs & Hpo & _)]|Hs0].
    + left. exists e, before. cbn. split_and!; try done. rewrite Hpo. exact Hp.
    + right. exact (resolved_facts _ (set_submission_active true s) s0 Hp Hs0).
Qed.

End order.

(** ** Refused submissions *)

(** An image that fails validation (no nodes, too many, an unacceptable
    packet, a signal slot out of range) is rejected with the exception of its
    first violation before the shared memory is accessed at all: the call
    leaves the submitter, the memory and the device as they were. *)
Theorem invalid_image_untouched {D} `{!Device D} `{!Mapping} fuel image timeout (s : sub D) e :
  poisoned_ s = false -> submission_active_ s = false -> image_error image = Some e ->
  submitAndWait fuel image timeout s = Ret (Exn e) s.
Proof.
  intros Hp Ha He. unfold submitAndWait, requireUsable, get, throw_if, finally, mbind, EM_bind.
  cbn [asks]. rewrite Hp. cbn [mret EM_ret asks]. rewrite Ha. cbn [mret EM_ret updates].
  rewrite check_image_spec, He.
  cbn [as_result]. destruct s. cbn in *. by subst.
Qed.

(** A poisoned submitter stays shut: every operation that would write
    the shared memory throws without accessing it, whatever its arguments. *)
Theorem poisoned_shut {D} `{!Device D} `{!Mapping} fuel image timeout slots (s : sub D) :
  poisoned_ s = true ->
  submitAndWait fuel image timeout s = Ret (Exn Poisoned) s /\
  ensureReady fuel timeout s = Ret (Exn Poisoned) s /\
  clearSignalSlots fuel slots s = Ret (Exn Poisoned) s.
Proof.
  intros Hp. unfold submitAndWait, ensureReady, clearSignalSlots, requireUsable, get, throw_if,
    mbind, EM_bind. cbn [asks]. by rewrite Hp.
Qed.

(** ** Ownership *)

Section ownership.
Context {D : Type} `{!Device D} `{!Mapping} `{!WindowOk}.
Implicit Types s : sub D.

Definition within (off n : Z) (e : Z * list Z) : Prop :=
  windowOffset + off <= fst e /\ fst e + Z.of_nat (length (snd e)) <= windowOffset + off + n.

(** The words and areas the protocol gives to the host. *)
Definition host_owned (e : Z * list Z) : Prop :=
  (exists f, f ∈ node_count :: graph_seq :: host_words /\ within (ctrl_offset f) 4 e) \/
  within RP1_DEFAULT_NODE_ARRAY_OFFSET (RP1_MAX_NODES * sizeof_node) e \/
  within RP1_DEFAULT_ARG_BUF_OFFSET (RP1_DEFAULT_SIG_ARRAY_OFFSET - RP1_DEFAULT_ARG_BUF_OFFSET) e \/
  within RP1_DEFAULT_SIG_ARRAY_OFFSET (RP1_MAX_SIGNALS * sizeof_signal_slot) e.

(** The arguments fit the area between the argument buffer and the signals. *)
Definition args_fit (image : Rp1GraphImage) : Prop :=
  4 * Z.of_nat (length (arg_buf image)) <=
  RP1_DEFAULT_SIG_ARRAY_OFFSET - RP1_DEFAULT_ARG_BUF_OFFSET.

Lemma word_owned f : f ∈ node_count :: graph_seq :: host_words -> range_ok host_owned (ctrl_offset f) 4.
Proof. intros Hf a b Ha Hb. left. exists f. split; [done|]. by split. Qed.

Lemma words_owned f : f ∈ host_words -> range_ok host_owned (ctrl_offset f) 4.
Proof. intros Hf. apply word_owned. by do 2 right. Qed.

Lemma args_in_window image :
  args_fit image -> in_window RP1_DEFAULT_ARG_BUF_OFFSET (Z.of_nat (length (arg_bytes image))).
Proof using Type*.
  unfold args_fit. intros. rewrite length_arg_bytes.
  unfold RP1_DEFAULT_SIG_ARRAY_OFFSET, RP1_DEFAULT_ARG_BUF_OFFSET in *.
  apply window_range; rewrite ?kWindowSize_val; lia.
Qed.

Lemma areas_owned image :
  image_error image = None -> image_wf image -> args_fit image -> areas_ok host_owned image.
Proof using Type*.
  intros He Hwf Hfit. destruct (checked_image image He Hwf) as [Hn Hs].
  pose proof (length_node_bytes image Hwf) as Hl. pose proof (length_arg_bytes image) as Hal.
  pose proof (args_in_window image Hfit) as Hin.
  unfold areas_ok, args_fit, RP1_MAX_NODES in *. split_and!; try done.
  - apply word_owned. left.
  - intros a b Ha Hb. do 2 right. left. split; cbn [fst snd]; lia.
  - unfold RP1_DEFAULT_NODE_ARRAY_OFFSET in *. apply window_range; rewrite ?kWindowSize_val; lia.
  - intros a b Ha Hb. right. left. unfold within, RP1_MAX_NODES, sizeof_node. cbn [fst snd]. lia.
  - intros a b Ha Hb. do 3 right. by split.
Qed.

Definition owned (s s' : sub D) : Prop := logged host_owned (window s) (window s').

#[export] Instance owned_preorder : PreOrder owned.
Proof.
  split; [intros s; unfold owned; reflexivity|]. intros s1 s2 s3 H1 H2. unfold owned in *. by etrans.
Qed.

Lemma owned_of {A} (m : EM host_exn (sub D) A) : keeps (behaves host_owned) m -> keeps owned m.
Proof. intros Hm. eapply keeps_mono; [exact Hm|]. by intros s s' [Hl _]. Qed.

Lemma owned_updates f : (forall s, window (f s) = window s) -> keeps owned (updates f : EM host_exn (sub D) unit).
Proof. intros Hf. apply ekeeps_updates. intros s. unfold owned. rewrite Hf. reflexivity. Qed.

(** The image is checked before it is staged. *)
Lemma owned_checked image (m : EM host_exn (sub D) unit) :
  (image_error image = None -> keeps owned m) -> keeps owned (check_image image;; m).
Proof.
  intros Hm s. unfold mbind, EM_bind. rewrite check_image_spec.
  destruct (image_error image); cbn [as_result]; [unfold owned; reflexivity|]. by apply Hm.
Qed.

Lemma owned_submitAndWait fuel image timeout :
  image_wf image -> args_fit image -> keeps owned (submitAndWait fuel image timeout).
Proof using Type*.
  intros Hwf Hfit. unfold submitAndWait, requireUsable, get.
  repeat first [ekeeps_step | by apply owned_updates].
  apply ekeeps_finally; [apply _| |by intros; unfold owned].
  apply owned_checked. intros He.
  ekeeps_step; [apply owned_of, b_preflight, words_owned|].
  ekeeps_step; [apply owned_of, b_stage; [apply words_owned|by apply areas_owned]|].
  ekeeps_step; [unfold ring_doorbell|unfold await].
  - ekeeps_step; [apply owned_of, b_wr, word_owned; right; left|].
    repeat first [ekeeps_step | by apply owned_updates].
  - ekeeps_step.
    + apply ekeeps_on_exn; [apply _|apply owned_of, b_waitForGraphDone, words_owned|
        by intros; unfold owned].
      apply (bool_decide_eq_true_1 _). by vm_compute.
    + ekeeps_step; [apply owned_of, b_rd|]. ekeeps_step. apply owned_of, b_throwTerminalError.
Qed.

(** The member functions, at arguments of their types. *)
Inductive member : forall A, EM host_exn (sub D) A -> Prop :=
  | mem_submitAndWait fuel image timeout :
      image_wf image -> args_fit image -> member _ (submitAndWait fuel image timeout)
  | mem_ensureReady fuel timeout : member _ (ensureReady fuel timeout)
  | mem_clearSignalSlots fuel slots :
      Forall is_u32 slots -> member _ (clearSignalSlots fuel slots)
  | mem_readSignalValue slot : member _ (readSignalValue slot)
  | mem_drainCq : member _ drainCq
  | mem_drainCqRaw : member _ drainCqRaw
  | mem_drainTrace : member _ drainTrace.

Lemma cursor_owned : range_ok host_owned (ctrl_offset cq_read_idx) 4.
Proof. apply words_owned, (bool_decide_eq_true_1 _). by vm_compute. Qed.

Lemma owned_clearSignalSlots fuel slots :
  Forall is_u32 slots -> keeps owned (clearSignalSlots fuel slots : EM host_exn (sub D) unit).
Proof using Type*.
  intros Hs. unfold clearSignalSlots. ekeeps_step; [apply owned_of, b_requireUsable|].
  ekeeps_step; [apply owned_of, b_get|].
  ekeeps_step; [ekeeps_step; apply owned_of, b_ensureReady, words_owned|].
  induction Hs as [|slot slots Hslot _ IH]; cbn [each]; [ekeeps_step|].
  ekeeps_step; [|exact IH]. intros s. unfold throw_if, mbind at 1, EM_bind at 1.
  destruct (RP1_MAX_SIGNALS <=? slot) eqn:E; [cbn; reflexivity|]. bools.
  unfold is_u32 in Hslot. apply (owned_of (win (clearSignal slot))), b_clearSignal;
    [apply words_owned|lia|].
  intros x b Hx Hb. do 3 right. by split.
Qed.

Lemma owned_drainCqRaw : keeps owned (drainCqRaw : EM host_exn (sub D) _).
Proof using Type*.
  unfold drainCqRaw, mark_cq_start, get. ekeeps_step; [apply owned_of, b_drainAvailableCq, cursor_owned|].
  repeat first [ekeeps_step | by apply owned_updates].
Qed.

Lemma owned_trace_entries k : forall start i size,
  keeps owned (trace_entries k start i size : EM host_exn (sub D) _).
Proof using Type*.
  induction k as [|k IH]; intros start i size; cbn [trace_entries]; [ekeeps_step|].
  ekeeps_step; [|ekeeps_step; [apply IH|ekeeps_step]].
  apply owned_of, b_win. unfold readTrace. repeat first [ekeeps_step | apply logged_readAt].
Qed.

Lemma owned_drainTrace : keeps owned (drainTrace : EM host_exn (sub D) _).
Proof using Type*.
  unfold drainTrace, get. ekeeps_step; [apply owned_of, b_rd|]. ekeeps_step; [ekeeps_step|].
  cbv zeta. ekeeps_step; [destruct (_ && _); ekeeps_step|].
  ekeeps_step; [apply owned_trace_entries|ekeeps_step].
Qed.

(** Ownership.  Whatever the device does and however a member function
    ends, every byte the host stored lies in a control word or an area the
    protocol gives to the host; the words the firmware publishes (state,
    sequence, error record, queue producer index, heartbeat) are never
    written. *)
Theorem host_writes_owned A (m : EM host_exn (sub D) A) s r s' :
  member A m -> m s = Ret r s' -> owned s s'.
Proof using Type*.
  intros Hm. apply keeps_run. destruct Hm.
  - by apply owned_submitAndWait.
  - apply owned_of, b_ensureReady, words_owned.
  - by apply owned_clearSignalSlots.
  - unfold readSignalValue. ekeeps_step; [ekeeps_step|]. ekeeps_step; [|ekeeps_step].
    apply owned_of, b_win. unfold readSignal. repeat first [ekeeps_step | apply logged_readAt].
  - unfold drainCq, validateCq. ekeeps_step; [apply owned_drainCqRaw|].
    repeat ekeeps_step.
  - apply owned_drainCqRaw.
  - apply owned_drainTrace.
Qed.
End ownership.

(** ** Concrete calls on a V80 mapping *)

#[local] Existing Instance v80_mapping.

#[export] Instance v80_window_ok : @WindowOk v80_mapping.
Proof. split; by vm_compute. Qed.

(** Memory as firmware leaves it after boot. *)
Definition boot_mem : Z -> Z :=
  store (word_addr rp1_state) (le_bytes 4 RP1_STATE_READY)
    (store (word_addr magic) (le_bytes 4 RP1_CTRL_MAGIC)
      (store (word_addr version) (le_bytes 4 RP1_PROTOCOL_VERSION)
        (store (word_addr capabilities) (le_bytes 4 RP1_REQUIRED_CAPABILITIES)
          (store (word_addr pdi_ipi_platform_id) (le_bytes 4 1) (fun _ => 0))))).

Definition fresh_sub (m : Z -> Z) : sub ticking :=
  mksub (mkws m ticking0 []) kDefaultCqSize false 0 0 kDefaultTraceSize 0 0 [] false false.

(** One kernel with two register arguments and a NOP that waits for it. *)
Definition small_image : Rp1GraphImage := {|
  img_nodes := [
    {| node_opcode := RP1_OP_KERNEL_DISPATCH; node_flags := 0; barrier_await_mask := 0;
       barrier_set_mask := 1; barrier_await_bucket := 0; barrier_set_bucket := 0;
       node_status_field := 0;
       node_payload := enc_payload (P_kernel_dispatch {|
         kernel_base_addr := 0xA4000000; arg_buffer_offset := 0; arg_count := 2; ctrl_flags := 0;
         kd_timeout_cycles := 0; expected_image_id := 0 |}) |};
    {| node_opcode := RP1_OP_NOP; node_flags := 0; barrier_await_mask := 1;
       barrier_set_mask := 0; barrier_await_bucket := 0; barrier_set_bucket := 0;
       node_status_field := 0; node_payload := enc_payload P_none |}];
  arg_buf := [0x10; 7; 0x18; 9];
  clear_signal_slots := [0; 3];
  cq_size_override := 0; img_trace_enable := false; trace_size_override := 0
|}.

Lemma small_image_wf : image_wf small_image.
Proof. split; repeat constructor; vm_compute; discriminate || reflexivity. Qed.

(** Nobody answers: the submission times out, having rung the doorbell once. *)
Lemma doorbell_discipline_witness :
  exists s', submitAndWait 20 small_image 2 (fresh_sub boot_mem) = Ret (Exn Rp1TimeoutError) s' /\
    submission_active_ s' = false /\ poisoned_ s' = true /\ submission_serial_ s' = 1 /\
    exists after want before,
      ws_log (window s') = after ++ (word_addr graph_seq, le_bytes 4 want) :: before ++ [] /\
      Forall calm before /\ Forall cursor_store after.
Proof.
  destruct (returns_final (submitAndWait 20 small_image 2) (fresh_sub boot_mem)) as [r E];
    [by vm_compute|].
  assert (r = Exn Rp1TimeoutError) as ->.
  { apply (f_equal (fun x => match x with Ret a _ => a | _ => Val tt end)) in E.
    rewrite <- E. vm_compute. reflexivity. }
  eexists. split; [exact E|].
  assert (in_window RP1_DEFAULT_ARG_BUF_OFFSET (Z.of_nat (length (arg_bytes small_image)))) as W
    by (repeat split; vm_compute; discriminate || reflexivity).
  apply doorbell_discipline in E; [|exact small_image_wf|exact W|reflexivity|reflexivity].
  destruct E as [A [(e & before & _ & _ & _ & Hser & _)|(after & want & before & L & Fb & Fa & Hser & Hp)]].
  - exfalso. revert Hser. vm_compute. discriminate.
  - split; [exact A|]. split; [by apply Hp|]. split; [rewrite Hser; reflexivity|].
    exists after, want, before. split; [exact L|]. split; [exact Fb|exact Fa].
Defined.

(** A packet on bucket 40. *)
Lemma invalid_image_untouched_witness :
  let image := {| img_nodes := [{| node_opcode := RP1_OP_NOP; node_flags := 0;
      barrier_await_mask := 0; barrier_set_mask := 0; barrier_await_bucket := 40;
      barrier_set_bucket := 0; node_status_field := 0; node_payload := enc_payload P_none |}];
    arg_buf := []; clear_signal_slots := []; cq_size_override := 0; img_trace_enable := false;
    trace_size_override := 0 |} in
  exists e, image_error image = Some e /\
    submitAndWait 5 image 10 (fresh_sub boot_mem) = Ret (Exn e) (fresh_sub boot_mem).
Proof.
  eexists. split; [vm_compute; reflexivity|].
  apply invalid_image_untouched; reflexivity.
Defined.

Lemma poisoned_shut_witness :
  submitAndWait 5 small_image 10 (set_poisoned true (fresh_sub boot_mem)) =
    Ret (Exn Poisoned) (set_poisoned true (fresh_sub boot_mem)).
Proof.
  apply (poisoned_shut 5 small_image 10 [0] (set_poisoned true (fresh_sub boot_mem))). reflexivity.
Defined.

Lemma host_writes_owned_witness :
  exists r s', submitAndWait 20 small_image 2 (fresh_sub boot_mem) = Ret r s' /\
    owned (fresh_sub boot_mem) s'.
Proof.
  destruct (returns_final (submitAndWait 20 small_image 2) (fresh_sub boot_mem)) as [r E];
    [by vm_compute|].
  exists r, (final (submitAndWait 20 small_image 2) (fresh_sub boot_mem)). split; [exact E|].
  eapply host_writes_owned; [|exact E]. apply mem_submitAndWait; [apply small_image_wf|].
  vm_compute. discriminate.
Defined.
