(* ===== verification/SubmitterStage.v ===== *)
(** * What the firmware finds when the doorbell rings

    The host side and the firmware side meet here.  Against a firmware that
    is idle (READY, no graph pending), which by [Rp1Run.outer_pass_idle] only
    counts its heartbeat, staging an image leaves exactly that image in the
    shared memory, under a configuration the firmware's [check_config]
    accepts; and every packet the host's validation lets through passes the
    firmware's own validation. *)

From S2P Require Import Prelude Except Rp1Protocol Rp1Store.
From S2P Require Import Rp1Loop Rp1Safety Rp1Window Rp1Submitter SubmitterLog.

(** ** The two validations agree *)

Lemma valid_packet_accepted count words avail node :
  node_wf node -> 0 <= words -> words * 4 <= avail -> avail < 2 ^ 32 ->
  valid_packet count words node = true -> validate_node count avail node = None.
Proof.
  intros Hwf Hw Ha Ha32. unfold valid_packet, validate_node. cbv zeta.
  destruct (_ || _); [done|]. destruct (opcode_of _) as [[]|]; try done.
  all: change validSlot with valid_signal_slot; change isValidCondition with valid_condition.
  - intros Hv. bools. by rewrite H, H0.
  - intros Hv. bools. rewrite H. cbn [negb]. by rewrite (proj2 (Z.ltb_ge _ _)).
  - destruct Hwf as (_ & _ & _ & _ & _ & _ & _ & _ & Hp).
    pose proof (ld_range 4 4 _ Hp) as Ho. pose proof (ld_range 2 8 _ Hp) as Hc.
    change (256 ^ Z.of_nat 4) with (2 ^ 32) in Ho. change (256 ^ Z.of_nat 2) with (2 ^ 16) in Hc.
    unfold view_kernel_dispatch. cbn [kernel_base_addr arg_buffer_offset arg_count].
    set (off := ld 4 4 _) in *. set (cnt := ld 2 8 _) in *. unfold add64, u64, sizeof_kernel_arg.
    rewrite (Z.mod_small (cnt * 8)), Z.mod_small by lia. intros Hv. bools.
    rewrite (proj2 (Z.eqb_neq _ _)), (proj2 (Z.eqb_eq _ _)) by done. cbn [negb andb].
    unfold sub32. rewrite !u32_small by (unfold is_u32; lia).
    by rewrite !(proj2 (Z.leb_le _ _)) by lia.
  - by intros ->.
  - by intros ->.
  - by intros ->%negb_true_iff.
  - intros Hv. bools. rewrite H, H0, !(proj2 (Z.leb_le _ _)), !(proj2 (Z.ltb_lt _ _)) by lia. done.
  - rewrite !Z.leb_antisym. repeat destruct (_ <? _); destruct (valid_signal_slot _), (valid_condition _); done.
  - rewrite !Z.leb_antisym. repeat destruct (_ <? _); destruct (has_flag _ _); done.
Qed.

Lemma first_bad_none count words nodes : forall i,
  first_bad count words i nodes = None -> Forall (fun n => valid_packet count words n = true) nodes.
Proof.
  induction nodes as [|n nodes IH]; intros i; cbn [first_bad]; [done|].
  destruct (valid_packet count words n) eqn:E; [|done]. intros Hn. constructor; [done|]. by eapply IH.
Qed.

Lemma image_packets_accepted image avail node :
  image_wf image -> image_error image = None ->
  Z.of_nat (length (arg_buf image)) * 4 <= avail < 2 ^ 32 -> node ∈ img_nodes image ->
  validate_node (Z.of_nat (length (img_nodes image))) avail node = None.
Proof.
  intros Hwf He Ha Hin. unfold image_error in He. cbv zeta in He.
  destruct (_ =? 0); [done|]. destruct (RP1_MAX_NODES <? _); [done|].
  destruct (first_bad _ _ _ _) eqn:Eb; [done|]. apply first_bad_none in Eb.
  apply list_elem_of_In in Hin. destruct Hwf as [Hn _ _ _ _].
  rewrite Forall_forall in Eb, Hn.
  apply (valid_packet_accepted _ (Z.of_nat (length (arg_buf image)))); auto; lia.
Qed.

(** The host never submits a packet the firmware would reject.  Every
    packet of an image that passes the host's checks also passes
    [validate_node], for the node count of the image and any argument region
    that holds the image's arguments. *)
Theorem host_checks_imply_firmware_checks image avail node :
  image_wf image -> image_error image = None ->
  Z.of_nat (length (arg_buf image)) * 4 <= avail < 2 ^ 32 -> node ∈ img_nodes image ->
  validate_node (Z.of_nat (length (img_nodes image))) avail node = None.
Proof. apply image_packets_accepted. Qed.

(** ** An idle firmware *)

Section idle.
Context `{!Mapping}.

(** READY with every accepted sequence completed. *)
Definition idle (m : Z -> Z) : Prop :=
  word rp1_state m = RP1_STATE_READY /\ word graph_seq m = word graph_done_seq m.

(** The window without the heartbeat word. *)
Definition steady (a : Z) : Prop :=
  windowOffset <= a < windowOffset + kWindowSize /\
  ~ (word_addr heartbeat <= a < word_addr heartbeat + 4).

Lemma word_steady f a : f <> heartbeat -> word_addr f <= a < word_addr f + 4 -> steady a.
Proof.
  intros Hf Ha. unfold steady, word_addr in *. rewrite kWindowSize_val.
  pose proof (ctrl_offset_range f). destruct (ctrl_offset_apart f heartbeat Hf); lia.
Qed.

Lemma word_ext f m m' : f <> heartbeat -> eq_on steady m m' -> word f m = word f m'.
Proof. intros Hf Hm. unfold word. f_equal. apply fetch_ext. intros a Ha. by apply Hm, (word_steady f). Qed.

Lemma idle_ext m m' : eq_on steady m m' -> idle m -> idle m'.
Proof.
  intros Hm [Hs Hq]. unfold idle.
  by rewrite <-!(word_ext _ m m') by done.
Qed.

(** The device side of the contract: while idle, nothing but the heartbeat
    changes. *)
Class IdleDevice (D : Type) `{!Device D} : Prop :=
  idle_dev : forall (d : D) m a, idle m -> steady a -> snd (dev_move d m) a = m a.

#[export] Instance idle_quiet {D} `{!Device D} `{!IdleDevice D} : Quiet (D := D) idle steady.
Proof. split; [intros m m' Hm; by apply idle_ext|]. apply idle_dev. Qed.

(** *** Words in memory *)

Lemma word_store_out f abs bs m :
  abs + Z.of_nat (length bs) <= word_addr f \/ word_addr f + 4 <= abs ->
  word f (store abs bs m) = word f m.
Proof. intros Hd. unfold word. f_equal. apply fetch_ext. intros a Ha. apply store_out. lia. Qed.

Definition put_word (f : ctrl_field) (v : Z) (m : Z -> Z) : Z -> Z :=
  store (word_addr f) (le_bytes 4 v) m.

Lemma word_put f v m : word f (put_word f v m) = u32 v.
Proof.
  unfold word, put_word. change 4%nat with (length (le_bytes 4 v)) at 1.
  by rewrite fetch_store, le_val_bytes.
Qed.

Lemma word_put_ne f g v m : f <> g -> word f (put_word g v m) = word f m.
Proof.
  intros Hne. apply word_store_out. rewrite length_le_bytes. unfold word_addr.
  destruct (ctrl_offset_apart f g Hne); lia.
Qed.

(** A write that keeps the device idle. *)
Definition keeps_idle (off n : Z) : Prop :=
  forall f, f = rp1_state \/ f = graph_seq \/ f = graph_done_seq ->
    off + n <= ctrl_offset f \/ ctrl_offset f + 4 <= off.

Lemma stable_idle off n : keeps_idle off n -> stable idle (windowOffset + off) n.
Proof.
  intros Hk m a bs Ha Hb [Hs Hq]. unfold idle.
  pose proof (Hk rp1_state ltac:(auto)). pose proof (Hk graph_seq ltac:(auto)).
  pose proof (Hk graph_done_seq ltac:(auto)).
  rewrite !word_store_out by (unfold word_addr; lia). done.
Qed.

Lemma idle_store off n bs m :
  keeps_idle off n -> Z.of_nat (length bs) = n -> idle m -> idle (store (windowOffset + off) bs m).
Proof. intros Hk Hn. apply (stable_idle off n Hk); lia. Qed.

Lemma field_keeps_idle f :
  f <> rp1_state -> f <> graph_seq -> f <> graph_done_seq -> keeps_idle (ctrl_offset f) 4.
Proof.
  intros H1 H2 H3 g Hg. assert (f <> g) by (destruct Hg as [->|[->| ->]]; done).
  by apply ctrl_offset_apart.
Qed.

Lemma above_keeps_idle off n : 0x1000 <= off -> keeps_idle off n.
Proof. intros Ho f _. pose proof (ctrl_offset_range f). lia. Qed.
End idle.

(** ** Staging against an idle firmware *)

Section stage_access.
Context {D : Type} `{!Device D} `{!Mapping} `{!WindowOk} `{!IdleDevice D}.
Implicit Types s : sub D.

(** The memory is [m], up to the heartbeat, and idle. *)
Definition at_mem (s : sub D) (m : Z -> Z) : Prop :=
  eq_on steady (ws_mem (window s)) m /\ idle m.

Lemma at_mem_idle s m : at_mem s m -> idle (ws_mem (window s)).
Proof. intros [He Hi]. eapply idle_ext; [|exact Hi]. by symmetry. Qed.

Lemma at_mem_moved s m : at_mem s m -> eq_on steady (ws_mem (moved (window s))) m.
Proof using Type*.
  intros Ha. destruct (moved_quiet idle steady (window s) (at_mem_idle s m Ha)) as [Hm _].
  etrans; [exact Hm|]. apply Ha.
Qed.

Lemma ewp_rd_at ub nf f s m (Q : Z -> sub D -> Prop) X :
  f <> heartbeat -> at_mem s m ->
  (forall w, at_mem (set_window w s) m -> Q (word f m) (set_window w s)) ->
  ewp ub nf (rd f) s Q X.
Proof using Type*.
  intros Hf Ha HQ. apply ewp_rd. change (window (seen s)) with (moved (window s)).
  pose proof (at_mem_moved s m Ha) as Hm.
  rewrite (word_ext f _ m Hf Hm). apply HQ. split; [exact Hm|apply Ha].
Qed.

Lemma ewp_wr_at ub nf f v s m (Q : unit -> sub D -> Prop) X :
  f <> rp1_state -> f <> graph_seq -> f <> graph_done_seq -> at_mem s m ->
  (forall w, at_mem (set_window w s) (put_word f v m) -> Q tt (set_window w s)) ->
  ewp ub nf (wr f v) s Q X.
Proof using Type*.
  intros H1 H2 H3 Ha HQ. unfold ewp, post. rewrite wr_ok. apply HQ. split.
  - cbn [window set_window stored ws_mem]. apply store_proper. by apply at_mem_moved.
  - eapply idle_store; [by apply field_keeps_idle|done|apply Ha].
Qed.

Lemma ewp_writeAt_at ub nf off bs s m (Q : unit -> sub D -> Prop) X :
  in_window off (Z.of_nat (length bs)) -> 0x1000 <= off -> at_mem s m ->
  (forall w, at_mem (set_window w s) (store (windowOffset + off) bs m) -> Q tt (set_window w s)) ->
  ewp ub nf (win (writeAt off bs)) s Q X.
Proof using Type*.
  intros Hin Ho Ha HQ. apply ewp_zoom. unfold ewp, post. rewrite writeAt_ok by (done || apply wo_small).
  pose proof (above_keeps_idle off (Z.of_nat (length bs)) Ho) as Hk.
  destruct (do_stores_quiet idle steady (chunks (S (length bs)) (windowOffset + off) bs)
    (windowOffset + off) bs (window s)) as [He Hi].
  - apply chunks_contiguous. lia.
  - by apply stable_idle.
  - by eapply at_mem_idle.
  - apply HQ. split.
    + cbn [window set_window]. etrans; [exact He|]. apply store_proper, Ha.
    + eapply idle_store; [exact Hk|done|apply Ha].
Qed.

End stage_access.

(** A run of word writes. *)
Ltac wr_at := ewp_step; eapply ewp_wr_at; [done|done|done|eassumption|]; intros ? ?.

Section stage.
Context {D : Type} `{!Device D} `{!Mapping} `{!WindowOk} `{!IdleDevice D}.
Implicit Types s : sub D.

(** Reads of the ring leave memory and members alone. *)
Lemma ewp_readCq_at nf idx s m (Q : rp1_cq_entry_t -> sub D -> Prop) (X : host_exn -> sub D -> Prop) :
  at_mem s m ->
  (forall entry w, at_mem (set_window w s) m -> Q entry (set_window w s)) ->
  (forall e s', X e s') ->
  ewp False nf (win (readCq idx)) s Q X.
Proof using Type*.
  intros Ha HQ HX. apply ewp_zoom. unfold readCq. apply ewp_bind. unfold ewp at 1, post.
  rewrite readAt_spec by (apply wo_small || lia).
  destruct (fits _ _); [|apply HX]. apply HQ. split; [by apply at_mem_moved|apply Ha].
Qed.

Lemma drain_entries_at nf k : forall i s m (Q : unit -> sub D -> Prop) (X : host_exn -> sub D -> Prop),
  at_mem s m ->
  (forall w p, at_mem (set_window w s) m -> Q tt (set_pending_cq p (set_window w s))) ->
  (k <> 0%nat -> forall e s', X e s') ->
  ewp False nf (drain_entries k i) s Q X.
Proof using Type*.
  induction k as [|k IH]; intros i s m Q X Ha HQ HX; cbn [drain_entries].
  { apply ewp_ret. specialize (HQ (window s) (pending_cq_ s)). destruct s. by apply HQ. }
  specialize (HX ltac:(done)).
  unfold get. ewp_step. ewp_step. cbv zeta. ewp_step. eapply ewp_readCq_at; [exact Ha| |exact HX].
  intros entry w Hw. ewp_step. ewp_step. eapply IH; [exact Hw| |intros _; exact HX].
  intros w' p Hw'. exact (HQ w' p Hw').
Qed.

(** Nothing is waiting in the queue (of a non-negative size). *)
Definition queue_empty (s : sub D) (m : Z -> Z) : bool :=
  (sub32 (word cq_write_idx m) (cq_cursor_ s) =? 0) && (0 <=? cq_size_ s).

(** Draining consumes everything published. *)
Lemma drain_at nf s m (Q : unit -> sub D -> Prop) (X : host_exn -> sub D -> Prop) :
  at_mem s m ->
  (forall w p, at_mem (set_window w s) (put_word cq_read_idx (word cq_write_idx m) m) ->
     Q tt (set_cq_cursor (word cq_write_idx m) (set_pending_cq p (set_window w s)))) ->
  (queue_empty s m = false -> forall e s', X e s') ->
  ewp False nf drainAvailableCq s Q X.
Proof using Type*.
  intros Ha HQ HX. unfold drainAvailableCq, get. ewp_step. eapply ewp_rd_at; [done|exact Ha|].
  intros w1 Hw1. do 4 ewp_step. cbv zeta.
  change (cq_cursor_ (set_window w1 s)) with (cq_cursor_ s) in *.
  change (cq_size_ (set_window w1 s)) with (cq_size_ s) in *.
  unfold queue_empty in HX.
  pose proof (sub32_range (word cq_write_idx m) (cq_cursor_ s)) as Hd. unfold is_u32 in Hd.
  ewp_step. ewp_step; [apply HX; bools; lia|]. ewp_step.
  eapply drain_entries_at; [exact Hw1| |intros Hk; apply HX; lia]. intros w2 p Hw2.
  ewp_step. eapply ewp_wr_at; [done|done|done|exact Hw2|]. intros w3 Hw3. ewp_step.
  exact (HQ w3 p Hw3).
Qed.

(** *** The memory after staging *)

Definition clear_slots (slots : list Z) (m : Z -> Z) : Z -> Z :=
  fold_left (fun m slot => store (windowOffset + (RP1_DEFAULT_SIG_ARRAY_OFFSET + slot * 16))
    (replicate 16 0) m) slots m.

Definition trace_size_of (image : Rp1GraphImage) : Z :=
  if trace_size_override image =? 0 then kDefaultTraceSize else trace_size_override image.

Definition configured_mem (image : Rp1GraphImage) (m : Z -> Z) : Z -> Z :=
  let m := if cq_size_override image =? 0 then m else put_word cq_size (cq_size_override image) m in
  let m := put_word trace_base_lo (RP1_CTRL_PHYS_ADDR + RP1_DEFAULT_TRACE_OFFSET) m in
  let m := put_word trace_base_hi 0 m in
  let m := put_word trace_size (trace_size_of image) m in
  put_word trace_enable (if img_trace_enable image then 1 else 0) m.

Definition staged_mem (image : Rp1GraphImage) (m : Z -> Z) : Z -> Z :=
  let m := put_word cq_read_idx (word cq_write_idx m) m in
  let m := store (windowOffset + RP1_DEFAULT_ARG_BUF_OFFSET) (arg_bytes image) m in
  let m := clear_slots (clear_signal_slots image) m in
  let m := store (windowOffset + RP1_DEFAULT_NODE_ARRAY_OFFSET) (node_bytes image) m in
  let m := put_word node_count (Z.of_nat (length (img_nodes image))) m in
  configured_mem image m.

Lemma clear_slots_cons slot slots m :
  clear_slots (slot :: slots) m =
  clear_slots slots (store (windowOffset + (RP1_DEFAULT_SIG_ARRAY_OFFSET + slot * 16))
    (replicate 16 0) m).
Proof. done. Qed.

Lemma clear_slots_at nf slots : forall s m (Q : unit -> sub D -> Prop) X,
  Forall (fun slot => 0 <= slot < RP1_MAX_SIGNALS) slots -> at_mem s m ->
  (forall w, at_mem (set_window w s) (clear_slots slots m) -> Q tt (set_window w s)) ->
  ewp False nf (each slots (fun slot => win (clearSignal slot))) s Q X.
Proof using Type*.
  induction slots as [|slot slots IH]; intros s m Q X Hs Ha HQ; cbn [each].
  { apply ewp_ret. specialize (HQ (window s)). destruct s. by apply HQ. }
  inversion Hs; subst. ewp_step. unfold clearSignal, element, u32.
  unfold RP1_MAX_SIGNALS, sizeof_signal_slot, RP1_DEFAULT_SIG_ARRAY_OFFSET in *.
  rewrite Z.mod_small by lia.
  apply (ewp_writeAt_at _ _ _ _ s m);
    [apply window_range; rewrite ?kWindowSize_val, ?length_replicate; lia|lia|exact Ha|].
  intros w Hw. eapply IH; [done|exact Hw|]. intros w' Hw'. exact (HQ w' Hw').
Qed.

Lemma ewp_win_bind {A B} ub nf (m : EM host_exn (ws D) A) (k : A -> EM host_exn (ws D) B) s
    (Q : B -> sub D -> Prop) X :
  ewp ub nf (win m) s (fun a s' => ewp ub nf (win (k a)) s' Q X) X ->
  ewp ub nf (win (m ≫= k)) s Q X.
Proof.
  unfold ewp, post, win, zoom, mbind, EM_bind.
  by destruct (m (window s)) as [[a|e] w| |].
Qed.

(** The overrides [submitAndWait] accepts. *)
Definition configurable (image : Rp1GraphImage) : bool :=
  ((cq_size_override image =? 0) || isValidCqSize (cq_size_override image)) &&
  (isPowerOfTwo (trace_size_of image) && (trace_size_of image <=? RP1_MAX_TRACE_ENTRIES)).

Lemma configure_at nf image s m (Q : unit -> sub D -> Prop) (X : host_exn -> sub D -> Prop) :
  at_mem s m ->
  ((cq_size_override image = 0 \/ isValidCqSize (cq_size_override image) = true) ->
   isPowerOfTwo (trace_size_of image) = true -> trace_size_of image <= RP1_MAX_TRACE_ENTRIES ->
   forall s', at_mem s' (configured_mem image m) -> Q tt s') ->
  (configurable image = false -> forall e s', X e s') ->
  ewp False nf (configure image) s Q X.
Proof using Type*.
  intros Ha HQ HX. unfold configure. fold (trace_size_of image). ewp_step.
  enough (Hrest : forall s1, (cq_size_override image = 0 \/
      isValidCqSize (cq_size_override image) = true) ->
    at_mem s1 (if cq_size_override image =? 0 then m else put_word cq_size (cq_size_override image) m) ->
    ewp False nf (throw_if (negb (isPowerOfTwo (trace_size_of image)) ||
        (RP1_MAX_TRACE_ENTRIES <? trace_size_of image)) InvalidArgument;;
      win (writeTraceBase (u32 (RP1_CTRL_PHYS_ADDR + RP1_DEFAULT_TRACE_OFFSET)) 0);;
      wr trace_size (trace_size_of image);; wr trace_enable (if img_trace_enable image then 1 else 0);;
      updates (set_last_trace_size (trace_size_of image))) s1 Q X).
  { destruct (cq_size_override image =? 0) eqn:E0; cbn [negb ewhen].
    - bools. apply ewp_ret. apply Hrest; [by left|done].
    - ewp_step. ewp_step; [apply HX; unfold configurable; rewrite E0; destruct (isValidCqSize _); done|]. ewp_step. ewp_step.
      eapply ewp_wr_at; [done|done|done|exact Ha|]. intros w Hw. apply Hrest; [right|exact Hw].
      by bools. }
  intros s1 Hc H1. ewp_step. ewp_step; [apply HX; unfold configurable;
    destruct (isPowerOfTwo _); [|by rewrite andb_false_r]; cbn in *; lia|].
  ewp_step. unfold writeTraceBase.
  apply ewp_win_bind. eapply ewp_wr_at; [done|done|done|exact H1|]. intros w1 Hw1.
  eapply ewp_wr_at; [done|done|done|exact Hw1|]. intros w2 Hw2. do 2 wr_at. ewp_step.
  bools. by apply HQ.
Qed.

(** Stores above the control block keep its words. *)
Lemma word_above f off bs m : 0x1000 <= off -> word f (store (windowOffset + off) bs m) = word f m.
Proof.
  intros Ho. apply word_store_out. pose proof (ctrl_offset_range f). unfold word_addr. lia.
Qed.

Lemma word_clear_slots f slots : forall m,
  Forall (fun slot => 0 <= slot < RP1_MAX_SIGNALS) slots ->
  word f (clear_slots slots m) = word f m.
Proof.
  induction slots as [|slot slots IH]; intros m Hs; [done|]. inversion Hs; subst.
  rewrite clear_slots_cons, IH by done.
  apply word_above. unfold RP1_DEFAULT_SIG_ARRAY_OFFSET. lia.
Qed.

Lemma stage_args_at nf image s m (Q : unit -> sub D -> Prop) X :
  in_window RP1_DEFAULT_ARG_BUF_OFFSET (Z.of_nat (length (arg_bytes image))) -> at_mem s m ->
  (forall w, at_mem (set_window w s)
     (store (windowOffset + RP1_DEFAULT_ARG_BUF_OFFSET) (arg_bytes image) m) -> Q tt (set_window w s)) ->
  ewp False nf (ewhen (match arg_buf image with [] => false | _ => true end)
    (win (writeArgs (arg_buf image)))) s Q X.
Proof using Type*.
  intros Hargs Ha HQ.
  destruct (arg_buf image) eqn:Eb; cbn [ewhen].
  - apply ewp_ret. specialize (HQ (window s)). destruct s. apply HQ.
    unfold arg_bytes. rewrite Eb. cbn [map concat]. destruct Ha as [He Hi]. split.
    + etrans; [exact He|]. intros a _. by rewrite store_nil.
    + eapply idle_ext; [|exact Hi]. intros a _. by rewrite store_nil.
  - rewrite <-Eb. unfold writeArgs. apply (ewp_writeAt_at _ _ _ _ s m); [exact Hargs|done|exact Ha|done].
Qed.

(** Staging, step by step. *)
Lemma stage_at image s m :
  image_error image = None -> image_wf image ->
  in_window RP1_DEFAULT_ARG_BUF_OFFSET (Z.of_nat (length (arg_bytes image))) -> at_mem s m ->
  ewp False False (stage image) s
    (fun want s' => want = add32 (word graph_seq m) 1 /\ at_mem s' (staged_mem image m) /\
       (cq_size_override image = 0 \/ isValidCqSize (cq_size_override image) = true) /\
       isPowerOfTwo (trace_size_of image) = true /\ trace_size_of image <= RP1_MAX_TRACE_ENTRIES)
    (fun _ _ => queue_empty s m = false \/ configurable image = false).
Proof using Type*.
  intros He Hwf Hfit Ha. destruct (checked_image image He Hwf) as [Hn Hs].
  assert (Hnodes : in_window RP1_DEFAULT_NODE_ARRAY_OFFSET (Z.of_nat (length (node_bytes image)))).
  { rewrite length_node_bytes by done. unfold RP1_MAX_NODES, RP1_DEFAULT_NODE_ARRAY_OFFSET in *.
    apply window_range; rewrite ?kWindowSize_val; lia. }
  unfold stage, mark_cq_start, get. ewp_step. eapply drain_at; [exact Ha| |auto].
  intros w1 p1 Hw1. do 6 ewp_step. ewp_step.
  eapply stage_args_at; [done|exact Hw1|]. intros w2 Hw2. ewp_step.
  eapply clear_slots_at; [done|exact Hw2|]. intros w3 Hw3. ewp_step. unfold writeNodes.
  eapply ewp_writeAt_at; [exact Hnodes|done|exact Hw3|]. intros w4 Hw4. do 4 ewp_step. ewp_step.
  eapply ewp_rd_at; [done|exact Hw4|]. intros w5 Hw5. wr_at. ewp_step.
  eapply configure_at; [eassumption| |auto]. intros Hc Ht Hts s' Hs'. ewp_step.
  split; [|split; [|done]].
  - rewrite word_above, word_clear_slots, word_above, word_put_ne by done. done.
  - rewrite u32_small in Hs' by (unfold is_u32, RP1_MAX_NODES in *; lia). exact Hs'.
Qed.
End stage.

(** ** Reading the image back *)

Lemma fetch_store_sub abs bs m k n :
  (k + n <= length bs)%nat ->
  fetch (abs + Z.of_nat k) n (store abs bs m) = take n (drop k bs).
Proof.
  intros Hk. apply list_eq. intros i. destruct (decide (i < n)%nat) as [Hi|Hi].
  - rewrite fetch_lookup by done. rewrite lookup_take_lt, lookup_drop by done.
    rewrite store_in by lia. replace (Z.to_nat _) with (k + i)%nat by lia.
    destruct (nth_lookup_or_length bs (k + i) 0) as [->|]; [done|lia].
  - rewrite !lookup_ge_None_2; [done| |rewrite length_fetch; lia].
    rewrite length_take. lia.
Qed.

Lemma concat_chunk {A B} (f : A -> list B) n l : forall i x,
  Forall (fun x => length (f x) = n) l -> l !! i = Some x ->
  take n (drop (n * i) (concat (map f l))) = f x.
Proof.
  induction l as [|y l IH]; intros i x Hl Hx; [done|].
  apply Forall_cons_1 in Hl as [Hy Hl]. cbn [map concat]. destruct i as [|i].
  - injection Hx as <-. rewrite Nat.mul_0_r, drop_0, <-Hy, take_app_length. done.
  - replace (n * S i)%nat with (length (f y) + n * i)%nat by lia.
    rewrite <-drop_drop, drop_app_length. by apply IH.
Qed.

Section readback.
Context `{!Mapping} `{!WindowOk}.
Implicit Types m : Z -> Z.

(** Equal outside the control block. *)
Lemma put_word_above f v m a : windowOffset + 0x1000 <= a -> put_word f v m a = m a.
Proof.
  intros Ha. apply store_out. pose proof (ctrl_offset_range f). rewrite length_le_bytes.
  unfold word_addr. lia.
Qed.

Lemma configured_above image m a :
  windowOffset + 0x1000 <= a -> configured_mem image m a = m a.
Proof.
  intros Ha. unfold configured_mem. cbv zeta. rewrite !put_word_above by done.
  destruct (_ =? 0); [done|]. by apply put_word_above.
Qed.

Lemma clear_slots_out slots : forall m a,
  Forall (fun slot => 0 <= slot < RP1_MAX_SIGNALS) slots ->
  a < windowOffset + RP1_DEFAULT_SIG_ARRAY_OFFSET -> clear_slots slots m a = m a.
Proof.
  induction slots as [|slot slots IH]; intros m a Hs Ha; [done|]. inversion Hs; subst.
  rewrite clear_slots_cons, IH by done.
  apply store_out. lia.
Qed.

Lemma nth_zeros k n : nth k (replicate n 0) 0 = 0.
Proof. revert k. induction n as [|n IH]; intros [|k]; cbn; auto. Qed.

Lemma clear_slots_in slots : forall m a slot,
  slot ∈ slots -> 
  windowOffset + RP1_DEFAULT_SIG_ARRAY_OFFSET + slot * 16 <= a
    < windowOffset + RP1_DEFAULT_SIG_ARRAY_OFFSET + slot * 16 + 16 ->
  clear_slots slots m a = 0.
Proof.
  intros m a slot Hin Ha. revert m.
  assert (Hkeep : forall slots m, m a = 0 -> clear_slots slots m a = 0).
  { clear Hin. intros l. induction l as [|x l IH]; intros m Hm; [done|].
    rewrite clear_slots_cons. apply IH.
    unfold store. destruct (_ && _); [|done]. apply nth_zeros. }
  induction slots as [|x slots IH]; intros m; [by apply not_elem_of_nil in Hin|].
  rewrite clear_slots_cons. apply elem_of_cons in Hin as [->|Hin]; [|by apply IH].
  apply Hkeep. rewrite store_in by (rewrite length_replicate; lia). apply nth_zeros.
Qed.
End readback.

(** The memory holds the image, where the firmware will look for it. *)
Record holds_image `{!Mapping} (image : Rp1GraphImage) (m : Z -> Z) : Prop := {
  hi_nodes : forall i node, img_nodes image !! i = Some node ->
    decode_node (fetch (windowOffset + RP1_DEFAULT_NODE_ARRAY_OFFSET + Z.of_nat (64 * i)) 64 m) = node;
  hi_args : forall i v, arg_buf image !! i = Some v ->
    le_val (fetch (windowOffset + RP1_DEFAULT_ARG_BUF_OFFSET + Z.of_nat (4 * i)) 4 m) = v;
  hi_slots : forall slot, slot ∈ clear_signal_slots image ->
    fetch (windowOffset + RP1_DEFAULT_SIG_ARRAY_OFFSET + slot * 16) 16 m = replicate 16 0;
  hi_count : word node_count m = Z.of_nat (length (img_nodes image));
  hi_trace : word trace_size m = trace_size_of image /\
    word trace_enable m = if img_trace_enable image then 1 else 0
}.

Section doorbell.
Context {D : Type} `{!Device D} `{!Mapping} `{!WindowOk} `{!IdleDevice D}.
Implicit Types (s : sub D) (m : Z -> Z).

Lemma above_steady a : windowOffset + 0x1000 <= a < windowOffset + 0x152000 -> steady a.
Proof. intros Ha. unfold steady, word_addr. rewrite kWindowSize_val. cbn. lia. Qed.

(** The memory the doorbell publishes. *)
Definition rung_mem (image : Rp1GraphImage) (want : Z) (m : Z -> Z) : Z -> Z :=
  put_word graph_seq want (staged_mem image m).

Lemma rung_at image want s m :
  at_mem s (staged_mem image m) ->
  eq_on steady (ws_mem (window (rung want s))) (rung_mem image want m).
Proof using Type*. intros Ha. apply store_proper. by apply at_mem_moved. Qed.

(** Above the control block only the nodes were written after the slots. *)
Lemma rung_above image want m a :
  windowOffset + 0x1000 <= a ->
  rung_mem image want m a =
  store (windowOffset + RP1_DEFAULT_NODE_ARRAY_OFFSET) (node_bytes image)
    (clear_slots (clear_signal_slots image)
      (store (windowOffset + RP1_DEFAULT_ARG_BUF_OFFSET) (arg_bytes image)
        (put_word cq_read_idx (word cq_write_idx m) m))) a.
Proof.
  intros Ha. unfold rung_mem, staged_mem. cbv zeta.
  by rewrite put_word_above, configured_above, put_word_above.
Qed.

Lemma rung_word_count image want m :
  Z.of_nat (length (img_nodes image)) <= RP1_MAX_NODES ->
  word node_count (rung_mem image want m) = Z.of_nat (length (img_nodes image)).
Proof.
  intros Hn. unfold rung_mem, staged_mem, configured_mem. cbv zeta.
  rewrite !word_put_ne by done. destruct (_ =? 0); rewrite ?word_put_ne by done;
    rewrite word_put; apply u32_small; unfold is_u32, RP1_MAX_NODES in *; lia.
Qed.

Lemma rung_node image want m i node :
  image_wf image -> img_nodes image !! i = Some node ->
  decode_node (fetch (windowOffset + RP1_DEFAULT_NODE_ARRAY_OFFSET + Z.of_nat (64 * i)) 64
    (rung_mem image want m)) = node.
Proof.
  intros Hwf Hi. pose proof (lookup_lt_Some _ _ _ Hi). pose proof (length_node_bytes image Hwf).
  destruct Hwf as [Hnw _ _ _ _].
  erewrite fetch_ext; [|intros a Ha; apply rung_above; unfold RP1_DEFAULT_NODE_ARRAY_OFFSET in Ha; lia].
  rewrite fetch_store_sub by lia. unfold node_bytes.
  rewrite (concat_chunk encode_node 64 _ i node); [|
    eapply Forall_impl; [apply length_encode_node|exact Hnw]|done].
  apply node_roundtrip. by apply (Forall_lookup_1 _ _ i _ Hnw).
Qed.

Lemma rung_arg image want m i v :
  image_error image = None -> image_wf image -> args_fit image -> arg_buf image !! i = Some v ->
  le_val (fetch (windowOffset + RP1_DEFAULT_ARG_BUF_OFFSET + Z.of_nat (4 * i)) 4
    (rung_mem image want m)) = v.
Proof.
  intros He Hwf Hfit Hi. pose proof (lookup_lt_Some _ _ _ Hi).
  destruct (checked_image image He Hwf) as [Hn Hs].
  pose proof (length_node_bytes image Hwf). pose proof (length_arg_bytes image).
  destruct Hwf as [_ Haw _ _ _]. unfold args_fit, RP1_MAX_NODES in *.
  erewrite fetch_ext; cycle 1.
  { intros a Ha. unfold RP1_DEFAULT_ARG_BUF_OFFSET, RP1_DEFAULT_SIG_ARRAY_OFFSET in *.
    rewrite rung_above by lia. unfold RP1_DEFAULT_NODE_ARRAY_OFFSET. rewrite store_out by lia.
    apply clear_slots_out; [done|]. unfold RP1_DEFAULT_SIG_ARRAY_OFFSET. lia. }
  unfold RP1_DEFAULT_ARG_BUF_OFFSET. rewrite fetch_store_sub by lia. unfold arg_bytes.
  rewrite (concat_chunk (le_bytes 4) 4 _ i v); [|by apply Forall_true; intros; apply length_le_bytes|done].
  rewrite le_val_bytes. apply Z.mod_small. by apply (Forall_lookup_1 _ _ i _ Haw).
Qed.

Lemma rung_slot image want m slot :
  image_error image = None -> image_wf image -> slot ∈ clear_signal_slots image ->
  fetch (windowOffset + RP1_DEFAULT_SIG_ARRAY_OFFSET + slot * 16) 16 (rung_mem image want m) =
  replicate 16 0.
Proof.
  intros He Hwf Hin. destruct (checked_image image He Hwf) as [Hn Hs].
  pose proof (length_node_bytes image Hwf). rewrite Forall_forall in Hs.
  pose proof (Hs slot (proj1 (list_elem_of_In _ _) Hin)) as Hr.
  apply list_eq. intros k. destruct (decide (k < 16)%nat).
  - rewrite fetch_lookup, lookup_replicate_2 by done. f_equal.
    unfold RP1_MAX_NODES, RP1_MAX_SIGNALS, RP1_DEFAULT_SIG_ARRAY_OFFSET in *.
    rewrite rung_above by lia. unfold RP1_DEFAULT_NODE_ARRAY_OFFSET. rewrite store_out by lia.
    apply (clear_slots_in _ _ _ slot); [done|]. unfold RP1_DEFAULT_SIG_ARRAY_OFFSET. lia.
  - rewrite !lookup_ge_None_2; [done|rewrite length_replicate; lia|rewrite length_fetch; lia].
Qed.

Lemma rung_holds image want s m :
  image_error image = None -> image_wf image -> args_fit image ->
  trace_size_of image <= RP1_MAX_TRACE_ENTRIES ->
  at_mem s (staged_mem image m) -> holds_image image (ws_mem (window (rung want s))).
Proof using Type*.
  intros He Hwf Hfit Ht Ha. destruct (checked_image image He Hwf) as [Hn Hs].
  pose proof (rung_at image want s m Ha) as Hm. set (mr := ws_mem (window (rung want s))) in *.
  assert (Hf : forall off n, 0x1000 <= off -> off + Z.of_nat n <= 0x152000 ->
    fetch (windowOffset + off) n mr = fetch (windowOffset + off) n (rung_mem image want m)).
  { intros off n Ho Hon. apply fetch_ext. intros a Hra. apply Hm, above_steady. lia. }
  split.
  - intros i node Hi. pose proof (lookup_lt_Some _ _ _ Hi).
    rewrite <-Z.add_assoc, Hf, Z.add_assoc by (unfold RP1_DEFAULT_NODE_ARRAY_OFFSET, RP1_MAX_NODES in *; lia).
    by apply rung_node.
  - intros i v Hi. pose proof (lookup_lt_Some _ _ _ Hi). unfold args_fit in Hfit.
    rewrite <-Z.add_assoc, Hf, Z.add_assoc by
      (unfold RP1_DEFAULT_ARG_BUF_OFFSET, RP1_DEFAULT_SIG_ARRAY_OFFSET in *; lia).
    by apply rung_arg.
  - intros slot Hin. rewrite Forall_forall in Hs.
    pose proof (Hs slot (proj1 (list_elem_of_In _ _) Hin)).
    rewrite <-Z.add_assoc, Hf, Z.add_assoc by
      (unfold RP1_DEFAULT_SIG_ARRAY_OFFSET, RP1_MAX_SIGNALS in *; lia).
    by apply rung_slot.
  - rewrite (word_ext node_count _ _ ltac:(done) Hm). apply rung_word_count, Hn.
  - rewrite (word_ext trace_size _ _ ltac:(done) Hm), (word_ext trace_enable _ _ ltac:(done) Hm).
    unfold rung_mem, staged_mem, configured_mem. cbv zeta.
    rewrite (word_put_ne trace_size graph_seq), (word_put_ne trace_size trace_enable),
      (word_put_ne trace_enable graph_seq) by done.
    rewrite !word_put. destruct Hwf as [_ _ _ _ Htw]. split; [|by destruct (img_trace_enable image)].
    apply u32_small. unfold trace_size_of, is_u32, kDefaultTraceSize in *. destruct (_ =? 0); [lia|done].
Qed.
End doorbell.

(** ** The handshake *)

(** The base words [ensureReady] programs. *)
Definition base_value (f : ctrl_field) : option Z :=
  match f with
  | node_base_lo => Some (RP1_CTRL_PHYS_ADDR + RP1_DEFAULT_NODE_ARRAY_OFFSET)
  | cq_base_lo => Some (RP1_CTRL_PHYS_ADDR + RP1_DEFAULT_CQ_OFFSET)
  | arg_buf_base_lo => Some (RP1_CTRL_PHYS_ADDR + RP1_DEFAULT_ARG_BUF_OFFSET)
  | sig_array_base_lo => Some (RP1_CTRL_PHYS_ADDR + RP1_DEFAULT_SIG_ARRAY_OFFSET)
  | node_base_hi | cq_base_hi | arg_buf_base_hi | sig_array_base_hi => Some 0
  | _ => None
  end.

Definition programmed `{!Mapping} (size : Z) (m : Z -> Z) : Prop :=
  word cq_size m = size /\ forall f v, base_value f = Some v -> word f m = v.

Section handshake.
Context {D : Type} `{!Device D} `{!Mapping} `{!WindowOk} `{!IdleDevice D}.
Implicit Types (s : sub D) (m : Z -> Z).

Lemma now_at ub nf s m (Q : Z -> sub D -> Prop) X :
  at_mem s m -> (forall t w, at_mem (set_window w s) m -> Q t (set_window w s)) ->
  ewp ub nf now s Q X.
Proof.
  intros Ha HQ. unfold now. apply ewp_zoom. unfold ewp, post.
  destruct (dev_now (ws_dev (window s))) as [t d]. by apply HQ.
Qed.

Lemma sleep_at ub nf s m (Q : unit -> sub D -> Prop) X :
  at_mem s m -> (forall w, at_mem (set_window w s) m -> Q tt (set_window w s)) ->
  ewp ub nf sleep s Q X.
Proof using Type*.
  intros Ha HQ. unfold sleep. apply ewp_zoom, ewp_updates, HQ.
  split; [by apply at_mem_moved|apply Ha].
Qed.

Lemma waitForMagic_at fuel timeout s m (Q : unit -> sub D -> Prop) (X : host_exn -> sub D -> Prop) :
  at_mem s m -> (forall w, at_mem (set_window w s) m -> Q tt (set_window w s)) ->
  (forall e s', X e s') -> ewp False True (waitForMagic fuel timeout) s Q X.
Proof using Type*.
  intros Ha HQ HX. unfold waitForMagic. ewp_step. eapply now_at; [exact Ha|]. intros t w1 Hw1.
  generalize (t + timeout). intros deadline. revert w1 Hw1.
  induction fuel as [|fuel IH]; intros w1 Hw1; cbn [waitForMagic_loop]; [done|].
  ewp_step. eapply ewp_rd_at; [done|exact Hw1|]. intros w2 Hw2. ewp_step; [exact (HQ w2 Hw2)|].
  ewp_step. eapply now_at; [exact Hw2|]. intros t2 w3 Hw3. ewp_step. ewp_step; [apply HX|].
  ewp_step. eapply sleep_at; [exact Hw3|]. intros w4 Hw4. exact (IH w4 Hw4).
Qed.

Lemma waitForState_at fuel timeout s m (Q : unit -> sub D -> Prop) (X : host_exn -> sub D -> Prop) :
  at_mem s m -> (forall w, at_mem (set_window w s) m -> Q tt (set_window w s)) ->
  ewp False True (waitForState (S fuel) RP1_STATE_READY timeout) s Q X.
Proof using Type*.
  intros Ha HQ. unfold waitForState. ewp_step. eapply now_at; [exact Ha|]. intros t w1 Hw1.
  cbn [waitForState_loop]. ewp_step. eapply ewp_rd_at; [done|exact Hw1|]. intros w2 Hw2.
  rewrite (proj1 (proj2 Hw2)), Z.eqb_refl. exact (HQ w2 Hw2).
Qed.

Lemma contract_at s m (Q : unit -> sub D -> Prop) (X : host_exn -> sub D -> Prop) :
  at_mem s m -> (forall w, at_mem (set_window w s) m -> Q tt (set_window w s)) ->
  (forall e s', X e s') -> ewp False True requireFirmwareContract s Q X.
Proof using Type*.
  intros Ha HQ HX. unfold requireFirmwareContract.
  ewp_step. eapply ewp_rd_at; [done|exact Ha|]. intros w1 Hw1. ewp_step. ewp_step; [apply HX|].
  ewp_step. eapply ewp_rd_at; [done|exact Hw1|]. intros w2 Hw2. cbv zeta. ewp_step. ewp_step; [apply HX|].
  ewp_step. eapply ewp_rd_at; [done|exact Hw2|]. intros w3 Hw3. ewp_step; [apply HX|]. exact (HQ w3 Hw3).
Qed.
Lemma programmed_put size g v m :
  base_value g = None -> g <> cq_size -> programmed size m -> programmed size (put_word g v m).
Proof.
  intros Hg Hc [Hs Hb]. split; [by rewrite word_put_ne|].
  intros f u Hf. rewrite word_put_ne; [by apply Hb|]. intros ->. congruence.
Qed.

Lemma program_bases_at s m (Q : unit -> sub D -> Prop) X :
  is_u32 (cq_size_ s) -> at_mem s m ->
  (forall w m', at_mem (set_window w s) m' -> programmed (cq_size_ s) m' ->
     word graph_seq m' = word graph_seq m -> word cq_write_idx m' = word cq_write_idx m ->
     Q tt (set_last_trace_size kDefaultTraceSize (set_window w s))) ->
  ewp False True program_bases s Q X.
Proof using Type*.
  intros Hsz Ha HQ. unfold program_bases, get. ewp_step. ewp_step.
  do 9 wr_at. ewp_step. unfold writeTraceBase.
  apply ewp_win_bind. eapply ewp_wr_at; [done|done|done|eassumption|]; intros ? ?.
  eapply ewp_wr_at; [done|done|done|eassumption|]; intros ? ?. do 2 wr_at. ewp_step.
  match goal with H : at_mem (set_window ?w _) _ |- context [set_window ?w _] =>
    apply (HQ w _ H) end.
  - do 4 (apply programmed_put; [done|done|]). split.
    + repeat (rewrite (word_put_ne cq_size) by done). rewrite word_put. by apply u32_small.
    + intros f v Hf. destruct f; try discriminate Hf; injection Hf as <-;
        repeat (rewrite word_put_ne by done); by rewrite word_put.
  - by repeat (rewrite word_put_ne by done).
  - by repeat (rewrite word_put_ne by done).
Qed.

Lemma handshake_at fuel timeout s m :
  is_u32 (cq_size_ s) -> at_mem s m ->
  ewp False True (handshake (S fuel) timeout) s
    (fun _ s' => exists m', at_mem s' m' /\ programmed (cq_size_ s) m' /\
       word graph_seq m' = word graph_seq m) (fun _ _ => True).
Proof using Type*.
  intros Hsz Ha. unfold handshake.
  ewp_step. eapply waitForMagic_at; [exact Ha| |done]. intros w1 Hw1.
  ewp_step. eapply waitForState_at; [exact Hw1|]. intros w2 Hw2.
  ewp_step. eapply contract_at; [exact Hw2| |done]. intros w3 Hw3.
  ewp_step. eapply program_bases_at; [exact Hsz|exact Hw3|]. intros w4 m' Hw4 Hp Hg Hc.
  ewp_step. eapply ewp_rd_at; [done|exact Hw4|]. intros w5 Hw5. do 2 ewp_step. wr_at.
  do 4 ewp_step. ewp_step. eapply ewp_rd_at; [done|eassumption|]. intros w6 Hw6. do 3 ewp_step.
  eexists. split; [exact Hw6|]. split; [by apply programmed_put|]. by rewrite word_put_ne.
Qed.
End handshake.

(** ** What the firmware accepts *)

Section accepted.
Context {D : Type} `{!Device D} `{!Mapping} `{!WindowOk} `{!IdleDevice D}.
Implicit Types (s : sub D) (m : Z -> Z).

Lemma rung_base image want size m f v :
  image_error image = None -> image_wf image -> programmed size m -> base_value f = Some v ->
  word f (rung_mem image want m) = v.
Proof.
  intros He Hwf [_ Hb] Hf. destruct (checked_image image He Hwf) as [_ Hs].
  assert (Hne : forall g u m', base_value g = None -> word f (put_word g u m') = word f m').
  { intros g u m' Hg. apply word_put_ne. intros ->. congruence. }
  unfold rung_mem, staged_mem, configured_mem. cbv zeta. rewrite !Hne by done.
  assert (Hcq : forall m', word f (if cq_size_override image =? 0 then m'
    else put_word cq_size (cq_size_override image) m') = word f m').
  { intros m'. destruct (_ =? 0); [done|]. by apply Hne. }
  rewrite Hcq, Hne, word_above, word_clear_slots, word_above, Hne by done. by apply Hb.
Qed.

Lemma rung_cq_size image want size m :
  image_error image = None -> image_wf image -> programmed size m ->
  word cq_size (rung_mem image want m) =
  if cq_size_override image =? 0 then size else cq_size_override image.
Proof.
  intros He Hwf [Hsz _]. destruct (checked_image image He Hwf) as [_ Hs].
  unfold rung_mem, staged_mem, configured_mem. cbv zeta.
  rewrite (word_put_ne cq_size graph_seq), (word_put_ne cq_size trace_enable),
    (word_put_ne cq_size trace_size), (word_put_ne cq_size trace_base_hi),
    (word_put_ne cq_size trace_base_lo) by done.
  destruct (_ =? 0).
  - rewrite word_put_ne, word_above, word_clear_slots, word_above, word_put_ne by done. done.
  - rewrite word_put. apply u32_small. by destruct Hwf.
Qed.

Lemma rung_cursors image want m :
  image_error image = None -> image_wf image ->
  sub32 (word cq_write_idx (rung_mem image want m)) (word cq_read_idx (rung_mem image want m)) = 0.
Proof.
  intros He Hwf. destruct (checked_image image He Hwf) as [_ Hs].
  assert (Hf : forall f, f = cq_write_idx \/ f = cq_read_idx ->
    word f (rung_mem image want m) = word f (put_word cq_read_idx (word cq_write_idx m) m)).
  { intros f Hf. unfold rung_mem, staged_mem, configured_mem. cbv zeta.
    destruct Hf as [-> | ->]; rewrite !word_put_ne by done; destruct (_ =? 0);
      rewrite ?word_put_ne by done; rewrite word_above, word_clear_slots, word_above by done;
      by rewrite ?word_put_ne by done. }
  rewrite !Hf by auto. rewrite word_put, word_put_ne by done. unfold sub32, u32.
  by rewrite Zminus_mod_idemp_r, Z.sub_diag.
Qed.

Lemma rung_trace image want m :
  image_wf image -> trace_size_of image <= RP1_MAX_TRACE_ENTRIES ->
  word trace_size (rung_mem image want m) = trace_size_of image /\
  word trace_base_lo (rung_mem image want m) = RP1_CTRL_PHYS_ADDR + RP1_DEFAULT_TRACE_OFFSET /\
  word trace_base_hi (rung_mem image want m) = 0.
Proof.
  intros [_ _ _ _ Ht] Hle. unfold rung_mem, staged_mem, configured_mem. cbv zeta.
  rewrite (word_put_ne trace_size graph_seq), (word_put_ne trace_size trace_enable), word_put by done.
  rewrite !(word_put_ne trace_base_lo graph_seq), !(word_put_ne trace_base_lo trace_enable),
    !(word_put_ne trace_base_lo trace_size), !(word_put_ne trace_base_lo trace_base_hi), word_put by done.
  rewrite !(word_put_ne trace_base_hi graph_seq), !(word_put_ne trace_base_hi trace_enable),
    !(word_put_ne trace_base_hi trace_size), word_put by done.
  split; [|done]. apply u32_small. unfold trace_size_of, is_u32, kDefaultTraceSize in *.
  destruct (_ =? 0); [lia|done].
Qed.

Lemma pow2_size v :
  is_u32 v -> isPowerOfTwo v = true -> v <= 4096 -> exists k, 0 <= k <= 12 /\ v = 2 ^ k.
Proof.
  intros Hv Hp Hle. apply ring_size_spec; [done|]. change is_power_of_two with isPowerOfTwo.
  rewrite Hp. by apply Z.ltb_ge.
Qed.

Lemma default_region off size a :
  0 < a -> 0 <= off /\ off + size <= 0x4000000 -> (RP1_CTRL_PHYS_ADDR + off) mod a = 0 ->
  region_ok (RP1_CTRL_PHYS_ADDR + off) 0 size a.
Proof.
  intros Ha Ho Hm. unfold region_ok, covers, window_end, RP1_CTRL_WINDOW_SIZE.
  split; [done|]. split; [lia|]. apply Z.mod_divide; [lia|done].
Qed.

(** The configuration at the doorbell is a valid one. *)
Lemma rung_config image want size m :
  image_error image = None -> image_wf image -> programmed size m -> is_u32 size ->
  isValidCqSize size = true ->
  (cq_size_override image = 0 \/ isValidCqSize (cq_size_override image) = true) ->
  isPowerOfTwo (trace_size_of image) = true -> trace_size_of image <= RP1_MAX_TRACE_ENTRIES ->
  config_valid (fun f => word f (rung_mem image want m)).
Proof.
  intros He Hwf Hp Hsu Hsz Hcq Htp Ht. destruct (checked_image image He Hwf) as [Hn _].
  pose proof (rung_base image want size m) as Hb.
  pose proof (rung_cq_size image want size m He Hwf Hp) as Hc.
  pose proof (rung_trace image want m Hwf Ht) as (Hts & Htl & Hth).
  unfold config_valid. rewrite rung_word_count by lia. rewrite rung_cursors by done.
  rewrite Hc, Hts, Htl, Hth.
  rewrite (Hb node_base_hi _ He Hwf Hp eq_refl), (Hb cq_base_hi _ He Hwf Hp eq_refl),
    (Hb arg_buf_base_hi _ He Hwf Hp eq_refl), (Hb sig_array_base_hi _ He Hwf Hp eq_refl).
  rewrite (Hb node_base_lo _ He Hwf Hp eq_refl), (Hb cq_base_lo _ He Hwf Hp eq_refl),
    (Hb arg_buf_base_lo _ He Hwf Hp eq_refl), (Hb sig_array_base_lo _ He Hwf Hp eq_refl).
  set (cqs := if cq_size_override image =? 0 then size else cq_size_override image) in *.
  assert (Hcqs : exists k, 0 <= k <= 12 /\ cqs = 2 ^ k).
  { subst cqs. unfold isValidCqSize, RP1_MAX_CQ_ENTRIES in *. destruct Hwf as [_ _ _ Hcw _].
    destruct (_ =? 0) eqn:E0; bools; [by apply pow2_size|]. destruct Hcq as [?|Hcq]; [done|].
    bools. by apply pow2_size. }
  assert (Hcb : 0 <= cqs <= 4096).
  { destruct Hcqs as (k & Hk & ->). split; [apply Z.pow_nonneg; lia|].
    change 4096 with (2 ^ 12). apply Z.pow_le_mono_r; lia. }
  assert (Htu : exists k, 0 <= k <= 12 /\ trace_size_of image = 2 ^ k).
  { apply pow2_size; [|done|done]. unfold is_u32, trace_size_of, kDefaultTraceSize.
    destruct Hwf as [_ _ _ _ Htw]. destruct (trace_size_override image =? 0); [lia|exact Htw]. }
  unfold RP1_MAX_NODES, RP1_MAX_TRACE_ENTRIES, sizeof_node, sizeof_cq_entry, sizeof_signal_slot,
    RP1_MAX_SIGNALS, sizeof_trace_entry in *.
  assert (Hd : forall off n a, 0 < a -> 0 <= off <= 0x152000 -> n <= 0x100000 ->
    (RP1_CTRL_PHYS_ADDR + off) mod a = 0 -> region_ok (RP1_CTRL_PHYS_ADDR + off) 0 n a)
    by (intros; apply default_region; (done || lia)).
  split_and!; try done; try lia; try (apply Hd; [done|split; by vm_compute|lia|by vm_compute]).
  intros _. split; [done|]. apply Hd; [done|split; by vm_compute|lia|by vm_compute].
Qed.

Lemma rung_config_words image want size m :
  image_error image = None -> image_wf image -> programmed size m -> is_u32 size ->
  trace_size_of image <= RP1_MAX_TRACE_ENTRIES ->
  config_words (fun f => word f (rung_mem image want m)).
Proof.
  intros He Hwf Hp Hsu Ht. destruct (checked_image image He Hwf) as [Hn _].
  pose proof (rung_base image want size m) as Hb.
  pose proof (rung_trace image want m Hwf Ht) as (Hts & Htl & Hth).
  assert (Hbase : forall f v, base_value f = Some v -> is_u32 v -> is_u32 (word f (rung_mem image want m))).
  { intros f v Hf Hv. by rewrite (Hb f v He Hwf Hp Hf). }
  assert (Hte : is_u32 (word trace_enable (rung_mem image want m))).
  { unfold rung_mem, staged_mem, configured_mem. cbv zeta.
    rewrite word_put_ne, word_put by done. apply u32_range. }
  unfold config_words, config_fields.
  repeat apply Forall_cons_2; try (eapply Hbase; [reflexivity|split; by vm_compute]); try done.
  - rewrite rung_word_count by lia. unfold is_u32, RP1_MAX_NODES in *. lia.
  - rewrite (rung_cq_size image want size m He Hwf Hp). destruct (_ =? 0); [done|by destruct Hwf].
  - rewrite Htl. split; by vm_compute.
  - by rewrite Hth.
  - rewrite Hts. destruct Hwf as [_ _ _ _ Htw]. unfold is_u32, trace_size_of, kDefaultTraceSize.
    destruct (_ =? 0); [lia|done].
Qed.

(** The firmware's view of the control block. *)
Definition ctrl_view (m : Z -> Z) : rp1_ctrl_t := fun f => word f m.

(** What the doorbell publishes.  Staging against an idle firmware leaves
    in the shared memory, at the moment the doorbell is written, exactly the
    image: every node packet, every argument word, cleared signal slots, the
    node count and the trace configuration; the sequence number published is
    the successor of the last one. *)
Theorem doorbell_publishes_image image s want s' :
  image_error image = None -> image_wf image -> args_fit image -> idle (ws_mem (window s)) ->
  stage image s = Ret (Val want) s' ->
  holds_image image (ws_mem (window (rung want s'))) /\
  want = add32 (word graph_seq (ws_mem (window s))) 1 /\
  word graph_seq (ws_mem (window (rung want s'))) = want.
Proof using Type*.
  intros He Hwf Hfit Hi E.
  assert (Ha : at_mem s (ws_mem (window s))) by (by split).
  destruct (ewp_run _ _ _ _ _ _ (stage_at image s _ He Hwf (args_in_window image Hfit) Ha) E) as (Hw & Ha' & _ & _ & Ht).
  split; [by apply (rung_holds _ _ _ (ws_mem (window s)))|]. split; [done|].
  rewrite (word_ext graph_seq _ _ ltac:(done) (rung_at image want s' _ Ha')).
  unfold rung_mem. rewrite word_put. apply u32_small. rewrite Hw. apply add32_range.
Qed.

(** C4: what the host submits, the firmware accepts.  After the handshake of
    a submitter with a valid queue size and the staging of an image that
    passes the host's checks, the control block the firmware snapshots passes
    every check of [rp1_store_init], and every packet in the node array passes
    [validate_nodes] with the bounds the firmware computes from it. *)
Theorem submission_accepted_by_firmware fuel timeout image s want s' :
  image_error image = None -> image_wf image -> args_fit image -> idle (ws_mem (window s)) ->
  isValidCqSize (cq_size_ s) = true -> is_u32 (cq_size_ s) ->
  (handshake (S fuel) timeout;; stage image) s = Ret (Val want) s' ->
  let m := ws_mem (window (rung want s')) in
  let c := ctrl_view m in
  check_config c = None /\
  forall i, 0 <= i < c node_count ->
    validate_node (c node_count)
      (sub32 (RP1_CTRL_PHYS_ADDR + RP1_CTRL_WINDOW_SIZE) (c arg_buf_base_lo))
      (decode_node (fetch (windowOffset + RP1_DEFAULT_NODE_ARRAY_OFFSET + 64 * i) 64 m)) = None.
Proof using Type*.
  intros He Hwf Hfit Hi Hsz Hsu E. cbv zeta.
  assert (Ha : at_mem s (ws_mem (window s))) by (by split).
  assert (Hrun : ewp False True (handshake (S fuel) timeout;; stage image) s
    (fun want s' => exists m, programmed (cq_size_ s) m /\ at_mem s' (staged_mem image m) /\
       (cq_size_override image = 0 \/ isValidCqSize (cq_size_override image) = true) /\
       isPowerOfTwo (trace_size_of image) = true /\ trace_size_of image <= RP1_MAX_TRACE_ENTRIES)
    (fun _ _ => True)).
  { ewp_step. eapply ewp_mono; [by apply handshake_at| |done]. intros _u s1 (m1 & Ha1 & Hp1 & _).
    pose proof (stage_at image s1 m1 He Hwf (args_in_window image Hfit) Ha1) as Hst.
    unfold ewp, post in *. destruct (stage image s1) as [[w|e] s2| |]; try done.
    destruct Hst as (_ & H2). exists m1. by split. }
  destruct (ewp_run _ _ _ _ _ _ Hrun E) as (m & Hp & Ha' & Hcq & Htp & Ht).
  pose proof (rung_config image want (cq_size_ s) m He Hwf Hp Hsu Hsz Hcq Htp Ht) as Hcfg.
  pose proof (rung_at image want s' m Ha') as Hm.
  pose proof (rung_holds image want s' m He Hwf Hfit Ht Ha') as Hold.
  set (mr := ws_mem (window (rung want s'))) in *.
  assert (Hw : forall f, f <> heartbeat -> ctrl_view mr f = word f (rung_mem image want m))
    by (intros f Hf; by apply word_ext).
  destruct (checked_image image He Hwf) as [Hn _].
  split.
  - apply check_config_valid.
    + pose proof (rung_config_words image want _ m He Hwf Hp Hsu Ht) as Hwords.
      unfold config_words in *. rewrite Forall_forall in Hwords |- *. intros f Hf.
      rewrite Hw; [by apply Hwords|]. intros ->. cbn in Hf. intuition discriminate.
    + unfold config_valid in *. rewrite !Hw by done. exact Hcfg.
  - intros i Hir. change (ctrl_view mr node_count) with (word node_count mr) in *.
    rewrite (hi_count _ _ Hold) in *. rewrite (Hw arg_buf_base_lo) by done.
    rewrite (rung_base image want (cq_size_ s) m arg_buf_base_lo _ He Hwf Hp eq_refl).
    destruct (lookup_lt_is_Some_2 (img_nodes image) (Z.to_nat i)) as [node Hnode]; [lia|].
    replace (64 * i) with (Z.of_nat (64 * Z.to_nat i)) by lia.
    rewrite (hi_nodes _ _ Hold _ _ Hnode).
    apply image_packets_accepted; [done|done| |by eapply list_elem_of_lookup_2].
    unfold args_fit in Hfit. change (sub32 _ _) with 0x3FAF000.
    unfold RP1_DEFAULT_SIG_ARRAY_OFFSET, RP1_DEFAULT_ARG_BUF_OFFSET in Hfit. lia.
Qed.

(** C40: nothing bounds the argument buffer by the area it is staged into.  An
    image whose arguments are 16 bytes longer than the 1 MB between the
    argument buffer and the signal array passes the host's checks, and staging
    it overwrites signal slot 0 with argument words. *)
Theorem args_overrun_signals image s :
  image_error image = None -> image_wf image ->
  in_window RP1_DEFAULT_ARG_BUF_OFFSET (Z.of_nat (length (arg_bytes image))) ->
  RP1_DEFAULT_ARG_BUF_OFFSET + 4 * Z.of_nat (length (arg_buf image)) =
    RP1_DEFAULT_SIG_ARRAY_OFFSET + sizeof_signal_slot ->
  clear_signal_slots image = [] -> idle (ws_mem (window s)) ->
  configurable image = true -> queue_empty s (ws_mem (window s)) = true ->
  exists want s' staged, stage image s = Ret (Val want) s' /\
    arg_bytes image = staged ++
      fetch (windowOffset + RP1_DEFAULT_SIG_ARRAY_OFFSET) 16 (ws_mem (window (rung want s'))).
Proof using Type*.
  intros He Hwf Hin Hlen Hcl Hi Hc Hq. assert (Ha : at_mem s (ws_mem (window s))) by (by split).
  pose proof (stage_at image s _ He Hwf Hin Ha) as Hst. unfold ewp, post in Hst.
  destruct (stage image s) as [[want|e] s'| |] eqn:E; [|destruct Hst; congruence|done|done].
  destruct Hst as (_ & Ha' & _). clear Hq Hc.
  pose proof (rung_at image want s' _ Ha') as Hm. destruct (checked_image image He Hwf) as [Hn _].
  pose proof (length_arg_bytes image) as Hal. pose proof (length_node_bytes image Hwf) as Hnl.
  unfold RP1_DEFAULT_ARG_BUF_OFFSET, RP1_DEFAULT_SIG_ARRAY_OFFSET, sizeof_signal_slot,
    RP1_MAX_NODES in *.
  set (k := (length (arg_bytes image) - 16)%nat). exists want, s', (take k (arg_bytes image)). split; [done|].
  assert (Ef : fetch (windowOffset + 0x151000) 16 (ws_mem (window (rung want s'))) =
    take 16 (drop k (arg_bytes image))); [|rewrite Ef].
  - rewrite <-(fetch_store_sub (windowOffset + 0x51000) _
      (put_word cq_read_idx (word cq_write_idx (ws_mem (window s))) (ws_mem (window s)))) by lia.
    replace (windowOffset + 0x51000 + Z.of_nat k) with (windowOffset + 0x151000) by lia.
    apply fetch_ext. intros a Hra. rewrite Hm by (apply above_steady; lia).
    rewrite rung_above by lia. unfold RP1_DEFAULT_NODE_ARRAY_OFFSET. rewrite store_out by lia.
    by rewrite Hcl.
  - rewrite (take_ge (drop k _)) by (rewrite length_drop; lia). by rewrite take_drop.
Qed.
End accepted.

(** ** Concrete submissions on a V80 mapping *)

#[local] Existing Instance v80_mapping.

#[export] Instance ticking_idle : IdleDevice ticking.
Proof. intros d m a _ [_ Ha]. apply store_out. unfold word_addr in Ha. cbn in *. lia. Qed.

Lemma boot_idle : idle boot_mem.
Proof. split; vm_compute; reflexivity. Qed.

Lemma small_args_fit : args_fit small_image.
Proof. vm_compute. discriminate. Qed.

Lemma host_checks_imply_firmware_checks_witness :
  Forall (fun node => validate_node 2 16 node = None) (img_nodes small_image).
Proof.
  assert (image_error small_image = None) as E by (vm_compute; reflexivity).
  apply List.Forall_forall. intros node Hin.
  apply (host_checks_imply_firmware_checks small_image 16);
    [apply small_image_wf|exact E|cbn; lia|by apply list_elem_of_In].
Defined.

Lemma doorbell_publishes_image_witness :
  exists s', stage small_image (fresh_sub boot_mem) = Ret (Val 1) s' /\
    holds_image small_image (ws_mem (window (rung 1 s'))).
Proof.
  destruct (returns_final (stage small_image) (fresh_sub boot_mem)) as [r E]; [by vm_compute|].
  assert (r = Val 1) as ->.
  { apply (f_equal (fun x => match x with Ret a _ => a | _ => Exn Poisoned end)) in E.
    rewrite <- E. vm_compute. reflexivity. }
  eexists. split; [exact E|].
  apply doorbell_publishes_image in E as [Hi _]; [exact Hi|vm_compute; reflexivity|
    apply small_image_wf|apply small_args_fit|apply boot_idle].
Defined.

(** The first submission: handshake, then staging. *)
Abbreviation first_submission :=
  (mbind (M := EM host_exn (sub ticking)) (fun _ => stage small_image) (handshake 3 10)).

Lemma submission_accepted_by_firmware_witness :
  exists want s', first_submission (fresh_sub boot_mem) = Ret (Val want) s' /\
    check_config (ctrl_view (ws_mem (window (rung want s')))) = None.
Proof.
  destruct (returns_final first_submission (fresh_sub boot_mem)) as [r E]; [by vm_compute|].
  assert (r = Val 1) as ->.
  { apply (f_equal (fun x => match x with Ret a _ => a | _ => Exn Poisoned end)) in E.
    rewrite <- E. vm_compute. reflexivity. }
  exists 1, (final first_submission (fresh_sub boot_mem)). split; [exact E|].
  assert (image_error small_image = None) as He by (vm_compute; reflexivity).
  assert (isValidCqSize kDefaultCqSize = true) as Hv by (vm_compute; reflexivity).
  assert (is_u32 kDefaultCqSize) as Hu by (by split; vm_compute).
  pose proof (submission_accepted_by_firmware 2 10 small_image (fresh_sub boot_mem) 1 _
    He small_image_wf small_args_fit boot_idle Hv Hu E) as H.
  cbv zeta in H. exact (proj1 H).
Defined.

(** A NOP with [n] argument words, all 5. *)
Definition args_image (n : Z) : Rp1GraphImage := {|
  img_nodes := [{| node_opcode := RP1_OP_NOP; node_flags := 0; barrier_await_mask := 0;
    barrier_set_mask := 0; barrier_await_bucket := 0; barrier_set_bucket := 0;
    node_status_field := 0; node_payload := enc_payload P_none |}];
  arg_buf := replicate (Z.to_nat n) 5; clear_signal_slots := []; cq_size_override := 0;
  img_trace_enable := false; trace_size_override := 0 |}.

Lemma args_image_wf n : image_wf (args_image n).
Proof.
  split; cbn [args_image img_nodes arg_buf clear_signal_slots cq_size_override trace_size_override].
  - repeat constructor; vm_compute; discriminate || reflexivity.
  - apply Forall_replicate. by split; vm_compute.
  - constructor.
  - by split; vm_compute.
  - by split; vm_compute.
Qed.

Lemma args_image_length n :
  0 <= n -> Z.of_nat (length (arg_buf (args_image n))) = n /\
  Z.of_nat (length (arg_bytes (args_image n))) = 4 * n.
Proof.
  intros Hn. pose proof (length_arg_bytes (args_image n)) as L.
  assert (length (arg_buf (args_image n)) = Z.to_nat n) as A by apply length_replicate.
  rewrite A in L. rewrite A. lia.
Qed.

Lemma args_overrun_signals_witness :
  exists want s' staged, stage (args_image 262148) (fresh_sub boot_mem) = Ret (Val want) s' /\
    arg_bytes (args_image 262148) = staged ++
      fetch (windowOffset + RP1_DEFAULT_SIG_ARRAY_OFFSET) 16 (ws_mem (window (rung want s'))).
Proof.
  destruct (args_image_length 262148 ltac:(done)) as [L B].
  apply args_overrun_signals.
  - reflexivity.
  - apply args_image_wf.
  - rewrite B. repeat split; vm_compute; discriminate || reflexivity.
  - rewrite L. reflexivity.
  - reflexivity.
  - apply boot_idle.
  - reflexivity.
  - vm_compute. reflexivity.
Defined.
