(* ===== verification/SubmitterDrain.v ===== *)
(** * The host end of the completion queue

    Against a device that only appends to the ring (the producer side proved
    of the firmware in [Rp1Queue]), the entries the host has retained plus
    the ones still in the ring are always the entries published so far, in
    order: draining moves entries from the ring to [pending_cq_] and never
    loses, repeats or reorders one, across the wrap of the cursors.  A wait
    ends before its deadline has passed for long, and one that returns has
    collected everything that was published. *)

From S2P Require Import Prelude Except Rp1Protocol Rp1Queue.
From S2P Require Import Rp1Window Rp1Submitter SubmitterLog SubmitterStage.

Section ring.
Context `{!Mapping} (size : Z).
Implicit Types m : Z -> Z.

(** The entry of cursor value [c]. *)
Definition ring_entry m (c : Z) : rp1_cq_entry_t :=
  decode_cq (fetch (windowOffset + (RP1_DEFAULT_CQ_OFFSET + Z.land c (sub32 size 1) * 16)) 16 m).

Definition ring_used m : Z := sub32 (word cq_write_idx m) (word cq_read_idx m).

(** The unread entries, oldest first. *)
Definition ring_contents m : list rp1_cq_entry_t :=
  map (fun j => ring_entry m (add32 (word cq_read_idx m) (Z.of_nat j)))
    (seq 0 (Z.to_nat (ring_used m))).

Definition ring_ok m : Prop := ring_used m <= size /\ is_u32 (word cq_write_idx m).

(** The device only appends, within the ring. *)
Class Appends (D : Type) `{!Device D} : Prop :=
  appends : forall (d : D) m, ring_ok m -> let m' := snd (dev_move d m) in
    ring_ok m' /\ word cq_read_idx m' = word cq_read_idx m /\
    ring_contents m `prefix_of` ring_contents m'.

(** A device that reports graph [want] as done has published all its entries:
    from then on it leaves the ring and the report as they are. *)
Class Finishes (want : Z) (D : Type) `{!Device D} : Prop :=
  finishes : forall (d : D) m, ring_ok m -> word graph_done_seq m = want -> let m' := snd (dev_move d m) in
    word graph_done_seq m' = want /\ ring_contents m' = ring_contents m.

Lemma length_ring_contents m : Z.of_nat (length (ring_contents m)) = ring_used m.
Proof.
  unfold ring_contents. rewrite length_map, length_seq.
  pose proof (sub32_range (word cq_write_idx m) (word cq_read_idx m)) as Hr.
  unfold is_u32 in Hr. unfold ring_used in *. lia.
Qed.

Lemma ring_contents_lookup m i :
  Z.of_nat i < ring_used m ->
  ring_contents m !! i = Some (ring_entry m (add32 (word cq_read_idx m) (Z.of_nat i))).
Proof.
  intros Hi. unfold ring_contents. change (@map nat) with (@fmap list _ nat).
  rewrite list_lookup_fmap, lookup_seq_lt by lia. done.
Qed.

(** Entries are above the control words. *)
Lemma ring_entry_put m f v c :
  0 < size <= 4096 -> ring_entry (put_word f v m) c = ring_entry m c.
Proof.
  intros Hs. unfold ring_entry. f_equal. apply fetch_ext. intros a Ha. apply put_word_above.
  assert (0 <= Z.land c (sub32 size 1)).
  { apply land_nonneg_r. unfold sub32, u32. rewrite Z.mod_small; lia. }
  unfold RP1_DEFAULT_CQ_OFFSET in Ha. lia.
Qed.

(** Cursor distances add up. *)
Lemma sub32_split w v r : sub32 v r <= sub32 w r -> sub32 w v = sub32 w r - sub32 v r.
Proof.
  intros Hle. assert (E : sub32 w v = u32 (sub32 w r - sub32 v r)).
  { unfold sub32, u32. rewrite <-Zminus_mod. f_equal. lia. }
  rewrite E. apply u32_small. pose proof (sub32_range w r). pose proof (sub32_range v r).
  unfold is_u32 in *. lia.
Qed.

(** Moving the read cursor forward drops a prefix. *)
Lemma ring_advance m v :
  0 < size <= 4096 -> is_u32 v ->
  sub32 (word cq_write_idx m) v <= ring_used m ->
  ring_contents (put_word cq_read_idx v m) =
    drop (Z.to_nat (ring_used m - sub32 (word cq_write_idx m) v)) (ring_contents m) /\
  ring_used (put_word cq_read_idx v m) = sub32 (word cq_write_idx m) v.
Proof.
  intros Hs Hv Hle.
  assert (Hu : ring_used (put_word cq_read_idx v m) = sub32 (word cq_write_idx m) v).
  { unfold ring_used. rewrite word_put, word_put_ne by done. by rewrite u32_small. }
  split; [|done]. pose proof (sub32_range (word cq_write_idx m) v) as Hr. unfold is_u32 in Hr.
  unfold ring_contents. rewrite Hu, word_put, u32_small by done.
  set (n := sub32 (word cq_write_idx m) v) in *. set (d := Z.to_nat (ring_used m - n)).
  replace (Z.to_nat (ring_used m)) with (d + Z.to_nat n)%nat by lia.
  rewrite drop_map_seq. apply map_ext. intros j. rewrite ring_entry_put by done. f_equal.
  rewrite (cursor_shift (word cq_write_idx m) (word cq_read_idx m) v). f_equal.
  unfold ring_used, n in *. lia.
Qed.
End ring.

(** The clock advances between two samples. *)
Class Advances (D : Type) `{!Device D} := {
  time : D -> Z;
  time_now d : time d <= fst (dev_now d) < time (snd (dev_now d));
  time_move d m : time d <= time (fst (dev_move d m))
}.

(** ** Draining *)

Definition pow2_ring (size : Z) : Prop := exists k, 0 <= k <= 12 /\ size = 2 ^ k.

Lemma size_bounds size : pow2_ring size -> 0 < size <= 4096.
Proof.
  intros (k & Hk & ->). split; [apply Z.pow_pos_nonneg; lia|].
  change 4096 with (2 ^ 12). apply Z.pow_le_mono_r; lia.
Qed.

Lemma slot_range size c : pow2_ring size -> 0 <= Z.land c (sub32 size 1) < 4096.
Proof.
  intros Hp. pose proof (size_bounds size Hp). unfold sub32.
  rewrite u32_small by (unfold is_u32; lia).
  destruct Hp as (k & Hk & Hs). rewrite Hs in *. rewrite land_pow2_pred by lia.
  pose proof (Z.mod_pos_bound c (2 ^ k) ltac:(lia)). lia.
Qed.

Section drain.
Context {D : Type} `{!Device D} `{!Mapping} `{!WindowOk} (size want : Z).
Context `{!Appends size D} `{!Finishes size want D} `{!Advances D} (Hsize : pow2_ring size).
Implicit Types s : sub D.

Abbreviation mem s := (ws_mem (window s)).

(** The host's cursor is the published one, and the ring is not overrun. *)
Record ring_inv (s : sub D) : Prop := {
  ri_size : cq_size_ s = size;
  ri_ok : ring_ok size (mem s);
  ri_cursor : cq_cursor_ s = word cq_read_idx (mem s)
}.

(** Everything published: what the host retained, then what is in the ring. *)
Definition published (s : sub D) : list rp1_cq_entry_t := pending_cq_ s ++ ring_contents size (mem s).

(** The cursor the host started from, when it retained nothing. *)
Definition origin (s : sub D) : Z := u32 (word cq_read_idx (mem s) - Z.of_nat (length (pending_cq_ s))).

Definition settled (s : sub D) : Prop := word graph_done_seq (mem s) = want.

Abbreviation clock s := (time (ws_dev (window s))).

(** From [s] to [s'] the published entries were extended at the end only, and
    the host retained as many as it moved its cursor by. *)
Definition stream (s s' : sub D) : Prop :=
  ring_inv s -> ring_inv s' /\ published s `prefix_of` published s' /\ origin s' = origin s /\ clock s <= clock s'.

#[export] Instance stream_preorder : PreOrder stream.
Proof.
  split; [by intros s Hs|]. intros s1 s2 s3 H12 H23 H1.
  destruct (H12 H1) as (H2 & P12 & O12 & C12). destruct (H23 H2) as (H3 & P23 & O23 & C23).
  split; [done|]. split; [by etrans|]. split; [congruence|lia].
Qed.

(** Once the graph is reported done the ring stays. *)
Definition quiet (s s' : sub D) : Prop :=
  ring_inv s -> settled s -> settled s' /\ ring_contents size (mem s') = ring_contents size (mem s).

Lemma moved_appends (w : ws D) :
  ring_ok size (ws_mem w) ->
  ring_ok size (ws_mem (moved w)) /\
  word cq_read_idx (ws_mem (moved w)) = word cq_read_idx (ws_mem w) /\
  ring_contents size (ws_mem w) `prefix_of` ring_contents size (ws_mem (moved w)) /\
  time (ws_dev w) <= time (ws_dev (moved w)).
Proof using Type*.
  intros Hok. pose proof (appends size (ws_dev w) (ws_mem w) Hok) as Ha.
  pose proof (time_move (ws_dev w) (ws_mem w)) as Ht. unfold moved.
  destruct (dev_move (ws_dev w) (ws_mem w)). cbn in *. naive_solver.
Qed.

Lemma moved_appending (w : ws D) :
  ring_ok size (ws_mem w) -> word graph_done_seq (ws_mem w) = want ->
  word graph_done_seq (ws_mem (moved w)) = want /\
  ring_contents size (ws_mem (moved w)) = ring_contents size (ws_mem w).
Proof using Type*.
  intros Hok Hd. pose proof (finishes size (ws_dev w) (ws_mem w) Hok Hd) as Hf. unfold moved.
  by destruct (dev_move (ws_dev w) (ws_mem w)).
Qed.

(** A device move extends the stream. *)
Lemma stream_seen s : stream s (seen s).
Proof using Type*.
  intros [Hs Hok Hc]. destruct (moved_appends (window s) Hok) as (Hok' & Hr & Hp & Ht). split_and!.
  - split; cbn [cq_size_ cq_cursor_ window set_window seen]; [done|done|congruence].
  - unfold published. cbn [pending_cq_ window set_window seen]. by apply prefix_app.
  - unfold origin. cbn [pending_cq_ window set_window seen]. by rewrite Hr.
  - exact Ht.
Qed.

Lemma quiet_seen s : quiet s (seen s).
Proof using Type*. intros [_ Hok _] Hd. by apply (moved_appending (window s)). Qed.

Lemma now_stream nf s0 s (Q : Z -> sub D -> Prop) X :
  ring_inv s0 -> stream s0 s -> (forall t s', stream s0 s' -> clock s <= t < clock s' -> Q t s') -> ewp False nf now s Q X.
Proof using Type*.
  intros Hi Hs HQ. unfold now, win. apply ewp_zoom. unfold ewp, post. pose proof (time_now (ws_dev (window s))) as Ht.
  destruct (dev_now (ws_dev (window s))) as [t d] eqn:Ed. cbn [fst snd] in Ht. apply HQ; [|exact Ht]. etrans; [exact Hs|].
  intros [Hsz Hok Hc]. split_and!; [by split|done|done|cbn; lia].
Qed.

Lemma readCq_ok idx (w : ws D) :
  0 <= idx < 4096 ->
  readCq idx w = Ret (Val (decode_cq (fetch (windowOffset + (RP1_DEFAULT_CQ_OFFSET + idx * 16)) 16
    (ws_mem (moved w))))) (moved w).
Proof using Type*.
  intros Hi. unfold readCq, element, u32, sizeof_cq_entry, RP1_DEFAULT_CQ_OFFSET.
  rewrite Z.mod_small by lia. unfold mbind, EM_bind.
  destruct (in_window_fits wo_small (0x41000 + idx * 16) 16) as [Ea Ef];
    [apply window_range; rewrite ?kWindowSize_val; lia|].
  rewrite readAt_spec by (apply wo_small || lia). change (Z.of_nat 16) with 16.
  by rewrite Ef, Ea.
Qed.

(** The loop copies the unread entries one by one. *)
Lemma drain_entries_stream k : forall i s L p0,
  ring_inv s -> L `prefix_of` ring_contents size (mem s) -> (i + k = length L)%nat ->
  pending_cq_ s = p0 ++ take i L ->
  ewp False False (drain_entries k (Z.of_nat i)) s
    (fun _ s' => (ring_inv s' /\ cq_cursor_ s' = cq_cursor_ s /\ pending_cq_ s' = p0 ++ L /\
       L `prefix_of` ring_contents size (mem s')) /\ clock s <= clock s' /\ quiet s s') (fun _ _ => False).
Proof using Type*.
  induction k as [|k IH]; intros i s L p0 [Hs Hok Hc] HL Hik Hp; cbn [drain_entries].
  { apply ewp_ret. rewrite Hp, take_ge by lia. by split. }
  unfold get. ewp_step. ewp_step. cbv zeta. change (id s) with s. rewrite Hs.
  ewp_step. apply ewp_zoom. unfold ewp at 1, post. rewrite readCq_ok by (by apply slot_range).
  destruct (moved_appends (window s) Hok) as (Hok' & Hr & Hpre & Ht).
  assert (HL' : L `prefix_of` ring_contents size (ws_mem (moved (window s)))) by (by etrans).
  destruct (lookup_lt_is_Some_2 L i) as [x Hx]; [lia|].
  pose proof (prefix_lookup_Some _ _ _ _ Hx HL') as Hlk.
  pose proof (lookup_lt_Some _ _ _ Hlk) as Hlt.
  rewrite ring_contents_lookup in Hlk by (rewrite <-(length_ring_contents size); lia).
  injection Hlk as Hlk. rewrite Hr, <-Hc in Hlk. unfold ring_entry in Hlk. rewrite Hlk.
  ewp_step. ewp_step. replace (Z.of_nat i + 1) with (Z.of_nat (S i)) by lia.
  eapply ewp_mono; [apply (IH (S i) _ L p0)| |done].
  - split; cbn [cq_size_ cq_cursor_ window set_window set_pending_cq]; [done|done|congruence].
  - done.
  - lia.
  - cbn [pending_cq_ set_pending_cq set_window]. rewrite Hp, <-app_assoc. f_equal.
    by rewrite (take_S_r _ _ x).
  - intros u s' (Hs' & Ht' & Hq). split; [exact Hs'|]. split; [cbn in Ht'; lia|]. intros Hi Hd.
    destruct (quiet_seen s Hi Hd) as [Hd1 E1]. destruct Hq as [Hd2 E2]; [|exact Hd1|].
    + split; cbn [cq_size_ cq_cursor_ window set_window set_pending_cq]; [done|done|congruence].
    + split; [exact Hd2|]. etrans; [exact E2|exact E1].
Qed.

(** Draining never fails, keeps the stream, and leaves nothing behind that
    was in the ring when it started. *)
Lemma drain_stream s :
  ring_inv s ->
  ewp False False drainAvailableCq s
    (fun _ s' => stream s s' /\ (settled s -> settled s' /\ ring_contents size (mem s') = [])) (fun _ _ => False).
Proof using Type*.
  intros Hinv. unfold drainAvailableCq, get. ewp_step. apply ewp_rd.
  destruct (stream_seen s Hinv) as ([Hs1 Hok1 Hc1] & Hp1 & Ho1 & Ht1). pose proof (quiet_seen s Hinv) as Hq1.
  set (s1 := seen s) in *. do 4 ewp_step. cbv zeta.
  ewp_step. ewp_step; bools.
  { rewrite Hc1, Hs1 in *. destruct Hok1 as [Hok1 _]. unfold ring_used in Hok1. lia. }
  ewp_step. rewrite Hc1. fold (ring_used (mem s1)).
  replace (Z.to_nat (ring_used (mem s1))) with (length (ring_contents size (mem s1)))
    by (pose proof (length_ring_contents size (mem s1)); lia).
  eapply ewp_mono; [apply (drain_entries_stream _ 0 s1 (ring_contents size (mem s1)) (pending_cq_ s1))|
    |done]; [by split|done|done|by rewrite take_0, app_nil_r|].
  intros u s2 (([Hs2 Hok2 Hc2] & Hcc & Hp2 & HL) & Ht2 & Hq2). ewp_step. unfold ewp at 1, post. rewrite wr_ok.
  ewp_step. set (m1 := mem s1) in *.
  destruct (moved_appends (window s2) Hok2) as (Hok3 & Hr3 & Hpre & Ht3). pose proof (moved_appending (window s2) Hok2) as Hq3.
  set (m3 := ws_mem (moved (window s2))) in *.
  assert (HL3 : ring_contents size m1 `prefix_of` ring_contents size m3) by (by etrans).
  destruct HL3 as [news Hnews]. pose proof (length_ring_contents size m1) as Hl1.
  pose proof (length_ring_contents size m3) as Hl3. rewrite Hnews, length_app in Hl3.
  assert (Hrd : word cq_read_idx m3 = word cq_read_idx m1) by congruence.
  assert (Hsub : sub32 (word cq_write_idx m3) (word cq_write_idx m1) = ring_used m3 - ring_used m1).
  { unfold ring_used in *. rewrite Hrd in *. apply sub32_split. lia. }
  destruct (ring_advance size m3 (word cq_write_idx m1)) as [Hcont Hused];
    [by apply size_bounds|apply Hok1|lia|].
  rewrite Hsub in Hcont, Hused. rewrite Hnews, drop_app_ge in Hcont by lia.
  replace (_ - _)%nat with 0%nat in Hcont by lia. rewrite drop_0 in Hcont.
  assert (Hpub : published s `prefix_of` pending_cq_ s2) by (rewrite Hp2; exact Hp1).
  split.
  - intros _. split_and!.
    + split; cbn [cq_size_ cq_cursor_ window set_window set_cq_cursor stored ws_mem];
        fold m3; change (store (word_addr cq_read_idx) (le_bytes 4 (word cq_write_idx m1)) m3)
          with (put_word cq_read_idx (word cq_write_idx m1) m3).
      * done.
      * split; [rewrite Hused; destruct Hok3; lia|]. rewrite word_put_ne by done. apply Hok3.
      * rewrite word_put. symmetry. apply u32_small, Hok1.
    + etrans; [exact Hpub|]. unfold published. cbn [pending_cq_ set_cq_cursor set_window].
      by apply prefix_app_r.
    + rewrite <-Ho1. unfold origin. cbn [pending_cq_ window set_cq_cursor set_window stored ws_mem]. fold m3 m1.
      change (store (word_addr cq_read_idx) (le_bytes 4 (word cq_write_idx m1)) m3) with (put_word cq_read_idx (word cq_write_idx m1) m3).
      rewrite word_put, Hp2, length_app, Nat2Z.inj_add, Hl1. unfold ring_used, sub32, u32.
      rewrite Zminus_mod_idemp_l, <-Zminus_mod_idemp_r, Zplus_mod_idemp_r, Zminus_mod_idemp_r. f_equal. lia.
    + cbn [window set_cq_cursor set_window stored ws_dev]. lia.
  - intros Hd. destruct (Hq1 Hd) as [Hd1 _]. destruct (Hq2 ltac:(by split) Hd1) as [Hd2 E2]. destruct (Hq3 Hd2) as [Hd3 E3].
    fold m3 in Hd3, E3. fold m1 in E2. unfold settled. cbn [window set_cq_cursor set_window stored ws_mem]. fold m3.
    change (store (word_addr cq_read_idx) (le_bytes 4 (word cq_write_idx m1)) m3) with (put_word cq_read_idx (word cq_write_idx m1) m3).
    split; [by rewrite word_put_ne|]. rewrite Hcont. apply (app_inv_head (ring_contents size m1)).
    rewrite <-Hnews, app_nil_r. congruence.
Qed.

(** How a wait can end. *)
Definition wait_result (r : except host_exn unit) (s' : sub D) : Prop :=
  match r with
  | Val _ => settled s' /\ ring_contents size (mem s') = [] /\ is_terminal (word rp1_state (mem s')) = false
  | Exn Rp1TimeoutError => True
  | Exn (TerminalError state seq _ _ _ _) => is_terminal state = true /\ seq = want
  | Exn _ => False
  end.

Lemma terminal_stream {A} state s (Q : A -> sub D -> Prop) s0 :
  is_terminal state = true -> stream s0 s ->
  ewp False False (throwTerminalError state want) s Q
    (fun e s' => stream s0 s' /\ wait_result (Exn e) s').
Proof using Type*.
  intros Ht Hs. unfold throwTerminalError. do 4 (ewp_step; apply ewp_rd). ewp_step.
  split; [|done]. do 4 (etrans; [|apply stream_seen]). exact Hs.
Qed.

(** After completion was observed: the last drain and the state recheck. *)
Lemma completion_stream s0 sd :
  ring_inv s0 -> stream s0 sd -> settled sd ->
  ewp False False
    (drainAvailableCq;; state' ← rd rp1_state;
     ewhen (is_terminal state') (throwTerminalError state' want)) sd
    (fun _ s' => stream s0 s' /\ wait_result (Val tt) s')
    (fun e s' => stream s0 s' /\ wait_result (Exn e) s').
Proof using Type*.
  intros Hi0 Hsd Hd. destruct (Hsd Hi0) as [Hinv _]. ewp_step.
  eapply ewp_mono; [exact (drain_stream sd Hinv)| |done]. intros u s1 [Hs1 Hp].
  destruct (Hp Hd) as [Hd1 Hc1]. ewp_step. apply ewp_rd.
  assert (Hs2 : stream s0 (seen s1)) by (do 2 (etrans; [|try apply stream_seen]); [exact Hsd|exact Hs1]).
  ewp_step; [by apply terminal_stream|]. split; [exact Hs2|].
  destruct (quiet_seen s1 (proj1 (Hs1 Hinv)) Hd1) as [Hd2 Hc2]. split; [exact Hd2|]. split; [by rewrite Hc2|done].
Qed.

(** Every round takes time, so the deadline passes before the rounds are used
    up. *)
Lemma wait_loop_stream fuel : forall deadline s0 s,
  ring_inv s0 -> stream s0 s -> deadline < clock s + Z.of_nat fuel - 1 ->
  (0 < fuel)%nat ->
  ewp False False (waitForGraphDone_loop fuel want deadline) s
    (fun _ s' => stream s0 s' /\ wait_result (Val tt) s')
    (fun e s' => stream s0 s' /\ wait_result (Exn e) s').
Proof using Type*.
  induction fuel as [|fuel IH]; intros deadline s0 s Hi0 Hs Hdl Hfu; [lia|]. cbn [waitForGraphDone_loop].
  destruct (Hs Hi0) as [Hinv _]. ewp_step.
  eapply ewp_mono; [exact (drain_stream s Hinv)| |done]. intros u s1 [Hs1' _]. destruct (Hs1' Hinv) as (Hi1 & _ & _ & Ht1).
  assert (Hs1 : stream s0 s1) by (by etrans). destruct (stream_seen s1 Hi1) as (Hi2 & _ & _ & Ht2).
  destruct (stream_seen (seen s1) Hi2) as (Hi3 & _ & _ & Ht3).
  ewp_step. apply ewp_rd. assert (Hs2 : stream s0 (seen s1)) by (etrans; [exact Hs1|apply stream_seen]).
  ewp_step. ewp_step; [by apply terminal_stream|].
  ewp_step. apply ewp_rd. assert (Hs3 : stream s0 (seen (seen s1)))
    by (etrans; [exact Hs2|apply stream_seen]).
  ewp_step; bools; [by apply completion_stream|].
  ewp_step. eapply now_stream; [exact Hi0|exact Hs3|]. intros t s4 Hs4 Ht4. ewp_step. ewp_step.
  - do 3 (ewp_step; apply ewp_rd). ewp_step. split; [|done].
    do 3 (etrans; [|apply stream_seen]). exact Hs4.
  - bools. ewp_step. unfold sleep. apply ewp_zoom, ewp_updates. fold (seen s4).
    destruct (stream_seen s4 (proj1 (Hs4 Hi0))) as (_ & _ & _ & Ht5). apply IH; [done| |lia|lia].
    etrans; [exact Hs4|]. apply stream_seen.
Qed.

(** C11: a wait returns, and collects everything.  The device is a parameter:
    it only appends to the queue, it has published all entries of a graph when
    it reports the graph as done, and its clock advances between two samples.
    Then a wait ends within as many rounds as its timeout has ticks; it never
    finds its cursors corrupt; whatever way it ends, the entries published are
    extended at the end only, and the host has retained exactly as many as it
    moved its cursor by.  When it returns normally, the wanted graph is
    reported as done, nothing is left in the queue - every entry that was
    published is among those the host retained - and the state read last was
    not terminal.  Otherwise it ends by timeout or by a terminal state. *)
Theorem wait_collects_everything fuel timeout s :
  ring_inv s -> 0 <= timeout < Z.of_nat fuel ->
  exists r s', waitForGraphDone fuel want timeout s = Ret r s' /\ stream s s' /\ wait_result r s'.
Proof using Type*.
  intros Hinv Hfuel.
  assert (Hw : ewp False False (waitForGraphDone fuel want timeout) s
    (fun _ s' => stream s s' /\ wait_result (Val tt) s')
    (fun e s' => stream s s' /\ wait_result (Exn e) s')).
  { unfold waitForGraphDone. ewp_step. eapply now_stream; [exact Hinv|reflexivity|]. intros t s1 Hs1 Ht.
    apply wait_loop_stream; [done|done|lia|lia]. }
  apply total_ret in Hw as (r & s' & E & Hr). exists r, s'. split; [exact E|]. by destruct r as [[]|e].
Qed.
End drain.

(** ** The trace *)

Section trace.
Context {D : Type} `{!Device D} `{!Mapping} `{!WindowOk} `{!IdleDevice D}.
Implicit Types (s : sub D) (m : Z -> Z).

Definition trace_at m (idx : Z) : rp1_trace_entry_t :=
  decode_trace (fetch (windowOffset + (RP1_DEFAULT_TRACE_OFFSET + idx * 16)) 16 m).

(** The ring of [size] entries after [log] was written to it: the firmware
    puts entry [k] in slot [k mod size]. *)
Definition traced (size : Z) (log : list rp1_trace_entry_t) m : Prop :=
  word trace_write_idx m = Z.of_nat (length log) /\
  forall k e, log !! k = Some e -> Z.of_nat (length log) <= Z.of_nat k + size ->
    trace_at m (Z.of_nat k mod size) = e.

Lemma readTrace_at ub nf idx s m (Q : rp1_trace_entry_t -> sub D -> Prop) X :
  0 <= idx < 4096 -> at_mem s m ->
  (forall w, at_mem (set_window w s) m -> Q (trace_at m idx) (set_window w s)) ->
  ewp ub nf (win (readTrace idx)) s Q X.
Proof using Type*.
  intros Hi Ha HQ. apply ewp_zoom. unfold readTrace, element, u32, sizeof_trace_entry,
    RP1_DEFAULT_TRACE_OFFSET. rewrite Z.mod_small by lia. apply ewp_bind. unfold ewp at 1, post.
  destruct (in_window_fits wo_small (0x152000 + idx * 16) 16) as [Ea Ef];
    [apply window_range; rewrite ?kWindowSize_val; lia|].
  rewrite readAt_spec by (apply wo_small || lia). change (Z.of_nat 16) with 16. rewrite Ef, Ea.
  pose proof (at_mem_moved s m Ha) as Hm.
  assert (Hf : fetch (windowOffset + (0x152000 + idx * 16)) 16 (ws_mem (moved (window s))) =
    fetch (windowOffset + (0x152000 + idx * 16)) 16 m).
  { apply fetch_ext. intros a Hra. apply Hm. unfold steady, word_addr. rewrite kWindowSize_val.
    cbn [ctrl_offset]. lia. }
  rewrite Hf. apply ewp_ret. apply HQ. split; [exact Hm|apply Ha].
Qed.

Lemma trace_entries_at nf k : forall start i size s m,
  0 < size <= 4096 -> 0 <= start -> 0 <= i -> start + i + Z.of_nat k <= 2 ^ 32 -> at_mem s m ->
  ewp False nf (trace_entries k start i size) s
    (fun l s' => at_mem s' m /\
       l = map (fun j => trace_at m ((start + i + Z.of_nat j) mod size)) (seq 0 k)) (fun _ _ => False).
Proof using Type*.
  induction k as [|k IH]; intros start i size s m Hs Hst Hi Hb Ha; cbn [trace_entries]; [by split|].
  ewp_step. unfold add32. rewrite u32_small by (unfold is_u32; lia).
  eapply readTrace_at; [|exact Ha|].
  { pose proof (Z.mod_pos_bound (start + i) size). lia. }
  intros w Hw. ewp_step. eapply ewp_mono; [apply (IH start (i + 1) size _ m); (done || lia)| |done].
  intros l s' [Hs' ->]. ewp_step. split; [done|]. cbn [seq map]. f_equal; [do 2 f_equal; lia|].
  rewrite <-seq_shift, map_map. apply map_ext. intros j. do 2 f_equal. lia.
Qed.

(** The slots read, in terms of the log. *)
Lemma trace_ring_read size log m j :
  0 < size -> traced size log m -> let n := Z.of_nat (length log) in
  (fun j => trace_at m (((if size <? n then n mod size else 0) + 0 + Z.of_nat j) mod size)) <$>
    seq 0 (Z.to_nat (if size <? n then size else n)) !! j =
  log !! (length log - Z.to_nat size + j)%nat.
Proof.
  intros Hs [_ Ht] n. destruct (decide (j < Z.to_nat (if (size <? n)%Z then size else n))%nat) as [Hj|Hj].
  - rewrite lookup_seq_lt by done. cbn [fmap option_fmap option_map Nat.add].
    set (k := (length log - Z.to_nat size + j)%nat).
    assert (Hk : (k < length log)%nat) by (unfold k, n in *; destruct (Z.ltb_spec size (Z.of_nat (length log))); lia).
    destruct (lookup_lt_is_Some_2 log k Hk) as [e He]. rewrite He. f_equal.
    rewrite <-(Ht k e He) by (unfold k; lia). f_equal. unfold k, n in *.
    destruct (Z.ltb_spec size (Z.of_nat (length log))).
    + rewrite Z.add_0_r, Zplus_mod_idemp_l. rewrite <-(Z_mod_plus_full _ (-1)). f_equal. lia.
    + f_equal. lia.
  - rewrite lookup_seq_ge by lia. symmetry. apply lookup_ge_None_2. unfold n in *.
    destruct (Z.ltb_spec size (Z.of_nat (length log))); lia.
Qed.

(** Reading the trace.  When the ring holds the log of a graph, reading
    it returns the newest entries that fit, in the order they were written,
    and reports an overflow exactly when older ones were overwritten. *)
Theorem trace_chronological size log s :
  0 < size <= 4096 -> last_trace_size_ s = size -> Z.of_nat (length log) < 2 ^ 32 ->
  idle (ws_mem (window s)) -> traced size log (ws_mem (window s)) ->
  exists s', drainTrace s = Ret (Val {|
    tc_entries := drop (length log - Z.to_nat size) log;
    tc_written := Z.of_nat (length log);
    tc_overflow := size <? Z.of_nat (length log) |}) s'.
Proof using Type*.
  intros Hs Hl Hlog Hi [Hw Ht]. set (m := ws_mem (window s)) in *.
  assert (Ha : at_mem s m) by (by split). set (n := Z.of_nat (length log)) in *.
  assert (Hrun : ewp False False drainTrace s (fun cap _ => cap = {|
    tc_entries := drop (length log - Z.to_nat size) log; tc_written := n;
    tc_overflow := size <? n |}) (fun _ _ => False)).
  { unfold drainTrace, get. ewp_step. eapply ewp_rd_at; [done|exact Ha|]. intros w Hw1.
    rewrite Hw. do 2 ewp_step. cbn [last_trace_size_ set_window]. rewrite Hl. cbv zeta. ewp_step.
    rewrite (proj2 (Z.eqb_neq size 0)), andb_false_r by lia. ewp_step. ewp_step.
    eapply ewp_mono; [apply (trace_entries_at _ _ _ 0 size _ m Hs)| |done].
    - destruct (size <? n); [apply Z.mod_pos_bound|]; lia.
    - lia.
    - destruct (Z.ltb_spec size n); [|lia]. pose proof (Z.mod_pos_bound n size). lia.
    - exact Hw1.
    - intros l s' [_ ->]. ewp_step. f_equal. apply list_eq. intros j. rewrite lookup_drop.
      change (@map nat) with (@fmap list _ nat). rewrite list_lookup_fmap.
      apply trace_ring_read; [lia|by split]. }
  apply total_ret in Hrun as (r & s' & E & Hr). destruct r as [cap|e]; [|done]. subst cap. eauto.
Qed.
End trace.

(** ** Concrete waits on a V80 mapping *)

#[local] Existing Instance v80_mapping.

Lemma pow2_64 : pow2_ring 64.
Proof. exists 6. split; [lia|reflexivity]. Qed.

(** Ticking leaves the queue alone. *)
Lemma ticking_leaves (d : ticking) m : let m' := snd (dev_move d m) in
  (forall f, f <> heartbeat -> word f m' = word f m) /\ ring_contents 64 m' = ring_contents 64 m.
Proof.
  intros m'. assert (forall f, f <> heartbeat -> word f m' = word f m) as Hw.
  { intros f Hf. apply word_store_out. destruct (ctrl_offset_apart f heartbeat Hf); [right|left];
      unfold word_addr; cbn [windowOffset v80_mapping]; rewrite ?length_le_bytes; lia. }
  split; [exact Hw|]. unfold ring_contents, ring_used. rewrite !Hw by done. apply map_ext. intros j.
  unfold ring_entry. f_equal. apply fetch_ext. intros a Ha. apply store_out.
  change windowOffset with 0x4000000 in Ha. change kDefaultWindowOffset with 0x4000000.
  pose proof (slot_range 64 (add32 (word cq_read_idx m) (Z.of_nat j)) pow2_64) as Hl.
  rewrite length_le_bytes. unfold RP1_DEFAULT_CQ_OFFSET in Ha.
  change (ctrl_offset heartbeat) with 0x3C. lia.
Qed.

#[export] Instance ticking_appends : Appends 64 ticking.
Proof.
  intros d m Hr m'. destruct (ticking_leaves d m) as [Hw Hc]. fold m' in Hw, Hc.
  unfold ring_ok, ring_used. rewrite !Hw by done. split; [exact Hr|]. split; [done|]. by rewrite Hc.
Qed.

#[export] Instance ticking_finishes want : Finishes 64 want ticking.
Proof. intros d m _ Hd m'. destruct (ticking_leaves d m) as [Hw Hc]. fold m' in Hw, Hc. by rewrite Hw. Qed.

#[export] Program Instance ticking_advances : Advances ticking := {| time := tick_clock |}.
Next Obligation. intros d. cbn. lia. Qed.
Next Obligation. intros d m. cbn. lia. Qed.

(** Memory in which graph 1 has completed with two queue entries. *)
Definition done_mem : Z -> Z :=
  put_word graph_done_seq 1 (put_word cq_write_idx 2
    (store (windowOffset + RP1_DEFAULT_CQ_OFFSET)
      (concat (map (le_bytes 4) [0; 0; 0; 100; 1; 0; 0; 200])) boot_mem)).

Lemma wait_collects_everything_witness :
  exists s', waitForGraphDone 11 1 10 (fresh_sub done_mem) = Ret (Val tt) s' /\
    length (pending_cq_ s') = 2%nat /\ ring_contents 64 (ws_mem (window s')) = [].
Proof.
  assert (ring_inv 64 (fresh_sub done_mem)) as R.
  { split; [reflexivity| |by vm_compute]. split; [by vm_compute|]. by split; vm_compute. }
  destruct (wait_collects_everything 64 1 pow2_64 11 10 (fresh_sub done_mem) R ltac:(lia)) as (r & s' & E & _ & Hr).
  assert (Er : r = Val tt).
  { apply (f_equal (fun x => match x with Ret a _ => a | _ => Exn Poisoned end)) in E. rewrite <- E. by vm_compute. }
  subst r. exists s'. split; [exact E|]. split; [|apply Hr].
  apply (f_equal (fun x => match x with Ret _ s => length (pending_cq_ s) | _ => 0%nat end)) in E.
  rewrite <- E. by vm_compute.
Defined.

(** Three entries in a ring of two: the oldest is gone. *)
Definition traced_mem : Z -> Z :=
  put_word trace_write_idx 3 (store (windowOffset + RP1_DEFAULT_TRACE_OFFSET)
    (concat (map (le_bytes 4) [30; 3; 0; 0; 20; 2; 0; 0])) boot_mem).

Lemma trace_chronological_witness :
  let entry t e := {| te_timestamp := t; te_event := e; te_node_index := 0; te_aux0 := 0;
                      te_aux1 := 0 |} in
  exists s', drainTrace (set_last_trace_size 2 (fresh_sub traced_mem)) = Ret (Val {|
    tc_entries := [entry 20 2; entry 30 3]; tc_written := 3; tc_overflow := true |}) s'.
Proof.
  intros entry.
  apply (trace_chronological 2 [entry 10 1; entry 20 2; entry 30 3]).
  - lia.
  - reflexivity.
  - reflexivity.
  - split; vm_compute; reflexivity.
  - split; [vm_compute; reflexivity|]. intros [|[|[|k]]] e Hk Hf; [cbn in Hf; lia| | |done];
      injection Hk as <-; vm_compute; reflexivity.
Defined.
