(* ===== verification/ControlLowering.v ===== *)
(** * Conditions: the CPU evaluator and their lowering to RP1

    Graph conditions compare a named scalar with a constant or with another
    scalar.  The CPU device evaluates them itself; the FPGA device lowers the
    ones RP1 can evaluate to a [(op, value)] pair the firmware's [compare]
    applies to a signal slot.  This file models

    - [Condition] and [ConditionOperand] (vrt/include/vrt/graph/control/condition.hpp),
    - the CPU evaluator [evaluateCondition] (vrt/src/graph/device/cpu_device.cpp),
    - the lowering [isRp1EvaluableCondition], [mapRp1Condition], [invertRp1Op]
      and the signal-slot and loop-id allocators
      (vrt/src/graph/device/fpga/control_lowering.cpp and .hpp)

    and shows that a lowered condition means on RP1 what it means on the CPU,
    that inversion negates, and that the allocators never hand out a slot or
    an id that is in use.  Scalars travel as zero-extended bit patterns in a
    [uint64_t], as [valueToBits] makes them on a little-endian host. *)

From stdpp Require Import strings pretty gmap.
From Stdlib Require Import SpecFloat.
From S2P Require Import Prelude Except Rp1Protocol Rp1Loop.

(** ** Types and operands *)

Inductive ScalarType := U8 | U16 | U32 | U64 | I8 | I16 | I32 | I64 | F32 | F64.

#[export] Instance ScalarType_eq_dec : EqDecision ScalarType.
Proof. solve_decision. Defined.

Definition isIntegerScalarType (type : ScalarType) : bool :=
  match type with U8 | U16 | U32 | U64 | I8 | I16 | I32 | I64 => true | F32 | F64 => false end.

Definition isSignedIntegerScalarType (type : ScalarType) : bool :=
  match type with
  | I8 | I16 | I32 | I64 => true
  | U8 | U16 | U32 | U64 | F32 | F64 => false
  end.

Definition isFloatingScalarType (type : ScalarType) : bool :=
  match type with F32 | F64 => true | _ => false end.

Inductive CompareOp := AlwaysTrue | AlwaysFalse | LT | LE | EQ | GT | GE | NE | EQE | NEE.

(** A named scalar, or a constant given by its bits. *)
Inductive ConditionOperand :=
  | Scalar (type : ScalarType) (name : string) (scopeId graphId : Z)
  | Constant (type : ScalarType) (bits : Z).

Definition operand_type (o : ConditionOperand) : ScalarType :=
  match o with Scalar t _ _ _ => t | Constant t _ => t end.

Inductive cond_exn :=
  | InvalidArgument          (* std::invalid_argument *)
  | LogicError               (* std::logic_error *)
  | RuntimeError.            (* std::runtime_error *)

(** [ConditionOperand::scalar] rejects an empty name. *)
Definition operand_scalar (type : ScalarType) (name : string) (scopeId graphId : Z)
    : except cond_exn ConditionOperand :=
  if String.eqb name "" then Exn InvalidArgument else Val (Scalar type name scopeId graphId).

(** [conditionConstantLike] for an integer scalar and an integer literal: the
    literal's 64-bit two's complement, whatever the scalar's width. *)
Definition conditionConstantLike (type : ScalarType) (value : Z) : ConditionOperand :=
  Constant type (u64 value).

Record Condition := mkCondition {
  op : CompareOp;
  lhs : option ConditionOperand;
  rhs : option ConditionOperand;
  epsilon : option ConditionOperand
}.

Definition isAlways (c : Condition) : bool :=
  match op c with AlwaysTrue | AlwaysFalse => true | _ => false end.

Definition isEpsilonCompare (c : Condition) : bool :=
  match op c with EQE | NEE => true | _ => false end.

Definition is_none {A} (o : option A) : bool := match o with None => true | Some _ => false end.

Definition validate (c : Condition) : except cond_exn unit :=
  if isAlways c then
    if is_none (lhs c) && is_none (rhs c) && is_none (epsilon c) then Val tt
    else Exn InvalidArgument
  else match lhs c, rhs c with
  | Some l, Some r =>
      if negb (bool_decide (operand_type l = operand_type r)) then Exn InvalidArgument
      else if isEpsilonCompare c then
        if negb (isFloatingScalarType (operand_type l)) then Exn InvalidArgument
        else match epsilon c with
        | None => Exn InvalidArgument
        | Some e => if bool_decide (operand_type e = operand_type l) then Val tt
                    else Exn InvalidArgument
        end
      else if is_none (epsilon c) then Val tt else Exn InvalidArgument
  | _, _ => Exn InvalidArgument
  end.

Definition Condition_compare (o : CompareOp) (l r : ConditionOperand) : except cond_exn Condition :=
  let c := mkCondition o (Some l) (Some r) None in
  match validate c with Val _ => Val c | Exn e => Exn e end.

Definition compareWithEpsilon (o : CompareOp) (l r eps : ConditionOperand)
    : except cond_exn Condition :=
  let c := mkCondition o (Some l) (Some r) (Some eps) in
  match validate c with Val _ => Val c | Exn e => Exn e end.

(** ** The CPU evaluator *)

(** The low [w] bits of [bits], and their two's-complement reading:
    [bitsAs<uintW_t>] and [bitsAs<intW_t>]. *)
Definition low_bits (w bits : Z) : Z := bits mod 2 ^ w.
Definition signed_bits (w bits : Z) : Z :=
  if low_bits w bits <? 2 ^ (w - 1) then low_bits w bits else low_bits w bits - 2 ^ w.

Definition signedScalarValue (type : ScalarType) (bits : Z) : except cond_exn Z :=
  match type with
  | I8 => Val (signed_bits 8 bits)
  | I16 => Val (signed_bits 16 bits)
  | I32 => Val (signed_bits 32 bits)
  | I64 => Val (signed_bits 64 bits)
  | _ => Exn InvalidArgument
  end.

Definition unsignedScalarValue (type : ScalarType) (bits : Z) : except cond_exn Z :=
  match type with
  | U8 => Val (low_bits 8 bits)
  | U16 => Val (low_bits 16 bits)
  | U32 => Val (low_bits 32 bits)
  | U64 => Val (low_bits 64 bits)
  | _ => Exn InvalidArgument
  end.

(** The x86-64 [long double]: a 64-bit significand and 15 exponent bits. *)
Definition ld_prec : Z := 64.
Definition ld_emax : Z := 16384.

(** The value of an IEEE interchange bit pattern with [mw] significand bits
    and [ew] exponent bits, converted (exactly) to [long double]. *)
Definition ieee_bits (mw ew bits : Z) : spec_float :=
  let m := bits mod 2 ^ mw in
  let e := (bits / 2 ^ mw) mod 2 ^ ew in
  let s := Z.testbit bits (mw + ew) in
  let value m e := binary_normalize ld_prec ld_emax (if s then - m else m) e s in
  let bias := 2 ^ (ew - 1) - 1 in
  if e =? 2 ^ ew - 1 then if m =? 0 then S754_infinity s else S754_nan
  else if e =? 0 then value m (1 - bias - mw)
  else value (m + 2 ^ mw) (e - bias - mw).

Definition floatingScalarValue (type : ScalarType) (bits : Z) : except cond_exn spec_float :=
  match type with
  | F32 => Val (ieee_bits 23 8 (low_bits 32 bits))
  | F64 => Val (ieee_bits 52 11 (low_bits 64 bits))
  | _ => Exn InvalidArgument
  end.

(** The template's requirements on [T]: [<], [<=] and [==]. *)
Class Comparable (T : Type) := { clt : T -> T -> bool; cle : T -> T -> bool; ceq : T -> T -> bool }.
#[export] Instance Z_comparable : Comparable Z := {| clt := Z.ltb; cle := Z.leb; ceq := Z.eqb |}.
#[export] Instance float_comparable : Comparable spec_float :=
  {| clt := SFltb; cle := SFleb; ceq := SFeqb |}.

Definition compareValues {T} {cmp : Comparable T} (o : CompareOp) (l r : T) : except cond_exn bool :=
  match o with
  | LT => Val (clt l r)
  | LE => Val (cle l r)
  | EQ => Val (ceq l r)
  | GT => Val (clt r l)
  | GE => Val (cle r l)
  | NE => Val (negb (ceq l r))
  | _ => Exn RuntimeError
  end.

Definition scopedScalarKey (scopeId : Z) (name : string) : string :=
  ("scope:" +:+ pretty (Z.to_N scopeId) +:+ ":" +:+ name)%string.

(** The run-time scalar store, read under its mutex. *)
Definition scalarBits (vals : gmap string Z) (name : string) (scopeId : Z) : except cond_exn Z :=
  match vals !! scopedScalarKey scopeId name with
  | Some b => Val b
  | None => match (if scopeId =? 0 then vals !! name else None) with
            | Some b => Val b
            | None => Exn RuntimeError
            end
  end.

Definition operandBits (vals : gmap string Z) (o : ConditionOperand) : except cond_exn Z :=
  match o with
  | Constant _ bits => Val bits
  | Scalar _ name scopeId _ => scalarBits vals name scopeId
  end.

Definition ebind {E A B} (m : except E A) (k : A -> except E B) : except E B :=
  match m with Val a => k a | Exn e => Exn e end.

Definition evaluateCondition (vals : gmap string Z) (c : Condition) : except cond_exn bool :=
  match op c with
  | AlwaysTrue => Val true
  | AlwaysFalse => Val false
  | o =>
    match lhs c, rhs c with
    | Some l, Some r =>
        let type := operand_type l in
        ebind (operandBits vals l) (fun lb =>
        ebind (operandBits vals r) (fun rb =>
        if isEpsilonCompare c then
          match epsilon c with
          | None => Exn RuntimeError
          | Some e =>
              ebind (floatingScalarValue type lb) (fun x =>
              ebind (floatingScalarValue type rb) (fun y =>
              ebind (operandBits vals e) (fun eb =>
              ebind (floatingScalarValue type eb) (fun z =>
              let equal := SFleb (SFabs (SFsub ld_prec ld_emax x y)) z in
              Val (match o with EQE => equal | _ => negb equal end)))))
          end
        else if isFloatingScalarType type then
          ebind (floatingScalarValue type lb) (fun x =>
          ebind (floatingScalarValue type rb) (fun y => compareValues o x y))
        else if isSignedIntegerScalarType type then
          ebind (signedScalarValue type lb) (fun x =>
          ebind (signedScalarValue type rb) (fun y => compareValues o x y))
        else
          ebind (unsignedScalarValue type lb) (fun x =>
          ebind (unsignedScalarValue type rb) (fun y => compareValues o x y))))
    | _, _ => Exn RuntimeError
    end
  end.

(** ** The lowering *)

Definition scalarBitWidth (type : ScalarType) : Z :=
  match type with
  | U8 | I8 => 8
  | U16 | I16 => 16
  | U32 | I32 | F32 => 32
  | U64 | I64 | F64 => 64
  end.

Definition isOrderingCompare (o : CompareOp) : bool :=
  match o with LT | LE | GT | GE => true | _ => false end.

Definition flipOperands (o : CompareOp) : CompareOp :=
  match o with LT => GT | LE => GE | GT => LT | GE => LE | _ => o end.

(** What [splitScalarConstant] fills in: the scalar's type, name and scope,
    the constant's bits, and whether the scalar is the left operand. *)
Record split := {
  sp_type : ScalarType; sp_name : string; sp_scope : Z; sp_bits : Z; sp_isLhs : bool
}.

Definition splitScalarConstant (c : Condition) : option split :=
  match lhs c, rhs c with
  | Some (Scalar t n sc _), Some (Constant _ b) =>
      Some {| sp_type := t; sp_name := n; sp_scope := sc; sp_bits := b; sp_isLhs := true |}
  | Some (Constant _ b), Some (Scalar t n sc _) =>
      Some {| sp_type := t; sp_name := n; sp_scope := sc; sp_bits := b; sp_isLhs := false |}
  | _, _ => None
  end.

Definition UINT32_MAX : Z := 2 ^ 32 - 1.

(** The operator of [scalar OP constant]. *)
Definition normal_op (c : Condition) (s : split) : CompareOp :=
  if sp_isLhs s then op c else flipOperands (op c).

Definition isRp1EvaluableCondition (c : Condition) : bool :=
  if isAlways c || isEpsilonCompare c then false
  else match splitScalarConstant c with
  | None => false
  | Some s =>
      let type := sp_type s in
      if negb (isIntegerScalarType type) then false
      else if 32 <? scalarBitWidth type then false
      else
        let o := normal_op c s in
        if isOrderingCompare o && isSignedIntegerScalarType type then false
        else if UINT32_MAX <? sp_bits s then false
        else
          let value := u32 (sp_bits s) in
          match o with
          | LE | GT => negb (value =? UINT32_MAX)
          | _ => true
          end
  end.

Record Rp1Compare := {
  rc_op : Z; rc_value : Z; rc_scalarName : string; rc_scalarScopeId : Z; rc_scalarType : ScalarType
}.

Definition mapRp1Condition (c : Condition) : except cond_exn Rp1Compare :=
  if negb (isRp1EvaluableCondition c) then Exn LogicError
  else match splitScalarConstant c with
  | None => Exn LogicError
  | Some s =>
      let out o v := Val {| rc_op := o; rc_value := v; rc_scalarName := sp_name s;
                            rc_scalarScopeId := sp_scope s; rc_scalarType := sp_type s |} in
      let value := u32 (sp_bits s) in
      match normal_op c s with
      | EQ => out RP1_COP_EQ value
      | NE => out RP1_COP_NE value
      | LT => out RP1_COP_LT value
      | GE => out RP1_COP_GE value
      | LE => out RP1_COP_LT (add32 value 1)
      | GT => out RP1_COP_GE (add32 value 1)
      | _ => Exn LogicError
      end
  end.

Definition invertRp1Op (o : Z) : except cond_exn Z :=
  if o =? RP1_COP_EQ then Val RP1_COP_NE
  else if o =? RP1_COP_NE then Val RP1_COP_EQ
  else if o =? RP1_COP_LT then Val RP1_COP_GE
  else if o =? RP1_COP_GE then Val RP1_COP_LT
  else if o =? RP1_COP_AND_NZ then Val RP1_COP_AND_Z
  else if o =? RP1_COP_AND_Z then Val RP1_COP_AND_NZ
  else Exn LogicError.

Definition kNeverOp : Z := RP1_COP_AND_NZ.
Definition kNeverValue : Z := 0.

(** ** Slot and loop-id allocators *)

Abbreviation reservations := (list Z).

Definition SignalSlotAllocator_new : reservations := replicate (Z.to_nat RP1_MAX_SIGNALS) 0.

Definition in_slots (r : reservations) (slot : Z) : bool := slot <? Z.of_nat (length r).
Definition uses (r : reservations) (slot : Z) : Z := nth (Z.to_nat slot) r 0.

Definition reserve (slot : Z) (r : reservations) : reservations :=
  if in_slots r slot then <[Z.to_nat slot := add32 (uses r slot) 1]> r else r.

Definition release (slot : Z) (r : reservations) : reservations :=
  if in_slots r slot && (0 <? uses r slot)
  then <[Z.to_nat slot := sub32 (uses r slot) 1]> r else r.

Definition isReserved (r : reservations) (slot : Z) : bool :=
  negb (in_slots r slot) || negb (uses r slot =? 0).

(** The index of the first zero entry, counting from [s]. *)
Fixpoint first_free (s : Z) (r : reservations) : option Z :=
  match r with
  | [] => None
  | n :: r' => if n =? 0 then Some s else first_free (s + 1) r'
  end.

Definition slot_alloc (r : reservations) : except cond_exn (Z * reservations) :=
  match first_free 0 r with
  | Some s => Val (s, <[Z.to_nat s := 1]> r)
  | None => Exn RuntimeError
  end.

Definition loop_alloc (next : Z) : except cond_exn (Z * Z) :=
  if RP1_MAX_LOOPS <=? next then Exn RuntimeError else Val (u8 next, add32 next 1).

(** ** A lowered condition means the same on RP1 *)

(** The bits of the constant operand of a condition RP1 can evaluate. *)
Definition constant_of (c : Condition) : Z :=
  match splitScalarConstant c with Some s => sp_bits s | None => 0 end.

(** [compareValues] on integers, as a table. *)
Definition holds (o : CompareOp) (x y : Z) : bool :=
  match o with
  | LT => x <? y | LE => x <=? y | EQ => x =? y
  | GT => y <? x | GE => y <=? x | NE => negb (x =? y)
  | _ => false
  end.

Definition is_comparison (o : CompareOp) : bool :=
  match o with LT | LE | EQ | GT | GE | NE => true | _ => false end.

Lemma compareValues_holds (o : CompareOp) (x y : Z) :
  is_comparison o = true -> compareValues o x y = Val (holds o x y).
Proof. by destruct o. Qed.

Lemma holds_flip o x y : is_comparison o = true -> holds (flipOperands o) x y = holds o y x.
Proof. destruct o; intros C; try done; cbn; by rewrite Z.eqb_sym. Qed.

Lemma low_bits_small w b : 0 <= b < 2 ^ w -> low_bits w b = b.
Proof. apply Z.mod_small. Qed.

Lemma signed_bits_eqb w a b :
  0 < w -> (signed_bits w a =? signed_bits w b) = (low_bits w a =? low_bits w b).
Proof.
  intros W. unfold signed_bits, low_bits.
  pose proof (Z.mod_pos_bound a (2 ^ w) ltac:(apply Z.pow_pos_nonneg; lia)).
  pose proof (Z.mod_pos_bound b (2 ^ w) ltac:(apply Z.pow_pos_nonneg; lia)).
  destruct (Z.ltb_spec (a mod 2 ^ w) (2 ^ (w - 1))), (Z.ltb_spec (b mod 2 ^ w) (2 ^ (w - 1)));
    destruct (Z.eqb_spec (a mod 2 ^ w) (b mod 2 ^ w)); lia.
Qed.

(** The number an integer bit pattern of type [t] stands for. *)
Definition number (t : ScalarType) (bits : Z) : Z :=
  if isSignedIntegerScalarType t then signed_bits (scalarBitWidth t) bits
  else low_bits (scalarBitWidth t) bits.

Record evaluable (c : Condition) (s : split) : Prop := {
  ev_split : splitScalarConstant c = Some s;
  ev_op : is_comparison (op c) = true;
  ev_int : isIntegerScalarType (sp_type s) = true;
  ev_width : scalarBitWidth (sp_type s) <= 32;
  ev_unsigned : isOrderingCompare (normal_op c s) = true ->
    isSignedIntegerScalarType (sp_type s) = false;
  ev_bits : sp_bits s <= UINT32_MAX;
  ev_rewrite : normal_op c s = LE \/ normal_op c s = GT -> u32 (sp_bits s) <> UINT32_MAX
}.

Lemma evaluable_spec c :
  isRp1EvaluableCondition c = true <-> exists s, evaluable c s.
Proof.
  unfold isRp1EvaluableCondition. split.
  - destruct (isAlways c || isEpsilonCompare c) eqn:A; [done|].
    destruct (splitScalarConstant c) as [s|] eqn:S; [|done]. cbv zeta. intros E.
    destruct (isIntegerScalarType (sp_type s)) eqn:I; [|done].
    destruct (Z.ltb_spec 32 (scalarBitWidth (sp_type s))) as [|W]; [done|]. cbn in E.
    destruct (isOrderingCompare (normal_op c s) && isSignedIntegerScalarType (sp_type s)) eqn:O;
      [done|].
    destruct (Z.ltb_spec UINT32_MAX (sp_bits s)) as [|B]; [done|].
    exists s. split; try done.
    + unfold isAlways, isEpsilonCompare in A. by destruct (op c).
    + intros Oc. by rewrite Oc in O.
    + intros [R|R]; rewrite R in E; apply negb_true_iff, Z.eqb_neq in E; done.
  - intros [s [Sp Op In Wi Un Bi Re]]. rewrite Sp, In.
    replace (isAlways c || isEpsilonCompare c) with false
      by (unfold isAlways, isEpsilonCompare; by destruct (op c)).
    cbv zeta. rewrite (proj2 (Z.ltb_ge _ _) Wi), (proj2 (Z.ltb_ge _ _) Bi). cbn [negb].
    replace (isOrderingCompare (normal_op c s) && isSignedIntegerScalarType (sp_type s))
      with false by (destruct (isOrderingCompare _); [by rewrite Un|done]).
    destruct (normal_op c s); try done; apply negb_true_iff, Z.eqb_neq, Re; auto.
Qed.

Lemma unsigned_number t b :
  isIntegerScalarType t = true -> isSignedIntegerScalarType t = false ->
  unsignedScalarValue t b = Val (number t b).
Proof. by destruct t. Qed.

Lemma signed_number t b :
  isSignedIntegerScalarType t = true -> signedScalarValue t b = Val (number t b).
Proof. by destruct t. Qed.

Lemma evaluate_integers vals c l r lb rb :
  lhs c = Some l -> rhs c = Some r -> is_comparison (op c) = true ->
  isIntegerScalarType (operand_type l) = true ->
  operandBits vals l = Val lb -> operandBits vals r = Val rb ->
  evaluateCondition vals c =
    Val (holds (op c) (number (operand_type l) lb) (number (operand_type l) rb)).
Proof.
  intros L R C I Lb Rb. unfold evaluateCondition. rewrite L, R, Lb, Rb. cbn [ebind].
  replace (isEpsilonCompare c) with false by (unfold isEpsilonCompare; by destruct (op c)).
  replace (isFloatingScalarType (operand_type l)) with false by (by destruct (operand_type l)).
  destruct (isSignedIntegerScalarType (operand_type l)) eqn:S.
  - rewrite !signed_number by done. cbn [ebind]. by destruct (op c).
  - rewrite !unsigned_number by done. cbn [ebind]. by destruct (op c).
Qed.

Lemma evaluate_split vals c s b :
  validate c = Val tt -> evaluable c s ->
  scalarBits vals (sp_name s) (sp_scope s) = Val b ->
  evaluateCondition vals c =
    Val (holds (normal_op c s) (number (sp_type s) b) (number (sp_type s) (sp_bits s))).
Proof.
  intros V [Sp Op In _ _ _ _] B. unfold validate, isAlways, isEpsilonCompare in V.
  unfold splitScalarConstant in Sp. unfold normal_op.
  destruct (lhs c) as [[t n sc g|t bits]|] eqn:L; [| |by destruct (op c)];
    (destruct (rhs c) as [[t' n' sc' g'|t' bits']|] eqn:R; try done); injection Sp as <-;
    cbn [sp_type sp_name sp_scope sp_bits sp_isLhs] in *;
    (assert (t = t') as <- by
       (destruct (bool_decide (t = t')) eqn:D; [by apply bool_decide_eq_true in D|];
        cbn in V; rewrite D in V; by destruct (op c)));
    (erewrite evaluate_integers; [|done|done|done|done|done|done]); cbn [operand_type].
  - done.
  - by rewrite holds_flip.
Qed.

(** The firmware's comparison of the zero-extended scalar, for each
    normalised operator. *)
Lemma number_unsigned_small t b :
  isSignedIntegerScalarType t = false -> 0 <= b < 2 ^ scalarBitWidth t -> number t b = b.
Proof. intros S B. unfold number. rewrite S. by apply low_bits_small. Qed.

Lemma number_eqb t a b :
  (number t a =? number t b) = (low_bits (scalarBitWidth t) a =? low_bits (scalarBitWidth t) b).
Proof.
  unfold number. destruct (isSignedIntegerScalarType t); [|done].
  apply signed_bits_eqb. destruct t; cbn; lia.
Qed.

Lemma low_bits_range t b : 0 <= low_bits (scalarBitWidth t) b < 2 ^ scalarBitWidth t.
Proof. apply Z.mod_pos_bound. by destruct t. Qed.

Lemma number_low_bits t b :
  number t (low_bits (scalarBitWidth t) b) = number t b.
Proof.
  unfold number, signed_bits. by rewrite (low_bits_small _ (low_bits _ b)) by apply low_bits_range.
Qed.

Definition rp1_form (o : CompareOp) (v : Z) : Z * Z :=
  match o with
  | EQ => (RP1_COP_EQ, v)
  | NE => (RP1_COP_NE, v)
  | LT => (RP1_COP_LT, v)
  | GE => (RP1_COP_GE, v)
  | LE => (RP1_COP_LT, add32 v 1)
  | _ => (RP1_COP_GE, add32 v 1)
  end.

Lemma rp1_form_compare o t x v :
  is_comparison o = true ->
  (isOrderingCompare o = true -> isSignedIntegerScalarType t = false) ->
  0 <= x < 2 ^ scalarBitWidth t -> 0 <= v < 2 ^ scalarBitWidth t -> v <= UINT32_MAX ->
  (o = LE \/ o = GT -> v <> UINT32_MAX) ->
  compare x (rp1_form o v).1 (rp1_form o v).2 = holds o (number t x) (number t v).
Proof.
  intros C O X V M R. unfold UINT32_MAX in *.
  assert (isOrderingCompare o = true -> number t x = x /\ number t v = v) as N
    by (intros Oc; split; apply number_unsigned_small; auto).
  destruct o; try done; cbn [rp1_form fst snd holds].
  - destruct (N eq_refl) as [-> ->]. done.
  - destruct (N eq_refl) as [-> ->]. change (compare x RP1_COP_LT (add32 v 1)) with (x <? add32 v 1).
    specialize (R (or_introl eq_refl)).
    unfold add32. rewrite u32_small by (unfold is_u32; lia). lia.
  - rewrite number_eqb, !low_bits_small by done. done.
  - destruct (N eq_refl) as [-> ->]. change (compare x RP1_COP_GE (add32 v 1)) with (add32 v 1 <=? x).
    specialize (R (or_intror eq_refl)).
    unfold add32. rewrite u32_small by (unfold is_u32; lia). lia.
  - destruct (N eq_refl) as [-> ->]. done.
  - rewrite number_eqb, !low_bits_small by done. done.
Qed.

Lemma map_split c s :
  evaluable c s ->
  mapRp1Condition c = Val {| rc_op := (rp1_form (normal_op c s) (u32 (sp_bits s))).1;
    rc_value := (rp1_form (normal_op c s) (u32 (sp_bits s))).2;
    rc_scalarName := sp_name s; rc_scalarScopeId := sp_scope s; rc_scalarType := sp_type s |}.
Proof.
  intros E. unfold mapRp1Condition.
  rewrite (proj2 (evaluable_spec c)) by eauto. rewrite (ev_split _ _ E). cbn [negb].
  pose proof (ev_op _ _ E) as C. unfold normal_op.
  by destruct (sp_isLhs s), (op c).
Qed.

(** C33: a condition [isRp1EvaluableCondition] accepts is mapped without an
    exception to an operator and a 32-bit value that pass the firmware's
    validation, and for every run-time value of the scalar the firmware's
    [compare] on the scalar's zero-extended bits decides it exactly as the CPU
    device's [evaluateCondition], provided the constant fits the scalar's
    width (always so for 32-bit scalars). *)
Theorem lowered_condition_means_the_same c :
  validate c = Val tt -> isRp1EvaluableCondition c = true ->
  (forall s, splitScalarConstant c = Some s ->
    0 <= sp_bits s < 2 ^ scalarBitWidth (sp_type s)) ->
  exists r, mapRp1Condition c = Val r /\ valid_condition (rc_op r) = true /\ is_u32 (rc_value r) /\
    forall vals b, scalarBits vals (rc_scalarName r) (rc_scalarScopeId r) = Val b ->
      evaluateCondition vals c =
        Val (compare (low_bits (scalarBitWidth (rc_scalarType r)) b) (rc_op r) (rc_value r)).
Proof.
  intros V E F. apply evaluable_spec in E as [s E].
  specialize (F s (ev_split _ _ E)). pose proof (ev_bits _ _ E) as B.
  assert (is_u32 (sp_bits s)) as U by (unfold is_u32, UINT32_MAX in *; lia).
  assert (is_comparison (normal_op c s) = true) as C
    by (pose proof (ev_op _ _ E); unfold normal_op; by destruct (sp_isLhs s), (op c)).
  eexists. split; [by apply map_split|]. cbn [rc_op rc_value rc_scalarName rc_scalarScopeId rc_scalarType].
  split; [by destruct (normal_op c s)|].
  split; [destruct (normal_op c s); cbn [rp1_form snd]; auto with slash|].
  intros vals b S. rewrite (evaluate_split vals c s b V E S). f_equal.
  rewrite u32_small by done.
  rewrite (rp1_form_compare _ (sp_type s)); try done.
  - by rewrite number_low_bits.
  - apply (ev_unsigned _ _ E).
  - apply low_bits_range.
  - intros R. pose proof (ev_rewrite _ _ E R) as X. by rewrite u32_small in X.
Qed.

(** [x <= 41] on an unsigned 16-bit scalar. *)
Lemma lowered_condition_means_the_same_witness :
  exists r, mapRp1Condition (mkCondition LE (Some (Scalar U16 "x" 0 0))
      (Some (conditionConstantLike U16 41)) None) = Val r /\
    valid_condition (rc_op r) = true /\ is_u32 (rc_value r) /\
    forall vals b, scalarBits vals (rc_scalarName r) (rc_scalarScopeId r) = Val b ->
      evaluateCondition vals (mkCondition LE (Some (Scalar U16 "x" 0 0))
        (Some (conditionConstantLike U16 41)) None) =
        Val (compare (low_bits (scalarBitWidth (rc_scalarType r)) b) (rc_op r) (rc_value r)).
Proof.
  apply lowered_condition_means_the_same; [by vm_compute|by vm_compute|].
  intros s E. injection E as <-. vm_compute. split; discriminate || reflexivity.
Defined.

(** The mapping promised for every evaluable condition fails for a
    constant wider than its scalar: [x == 256] on an 8-bit scalar is accepted
    by [Condition::compare] and by [isRp1EvaluableCondition], the CPU device
    finds it true for [x = 0] (it truncates the constant), and RP1's compare
    is false for every 8-bit value of [x]. *)
Theorem wide_constant_diverges :
  exists c r, Condition_compare EQ (Scalar U8 "x" 0 0) (conditionConstantLike U8 256) = Val c /\
    mapRp1Condition c = Val r /\
    evaluateCondition {[ "scope:0:x" := 0 ]} c = Val true /\
    forall x, is_u8 x -> compare x (rc_op r) (rc_value r) = false.
Proof.
  eexists _, _. split; [reflexivity|]. split; [reflexivity|].
  split; [by vm_compute|]. intros x X. unfold is_u8 in X. apply Z.eqb_neq.
  change (x <> 256). lia.
Qed.

(** [invertRp1Op] is defined exactly on the firmware's six operators,
    stays within them, negates the firmware's [compare] for every signal and
    value, and undoes itself; the [kNever] condition of a counted loop is
    false for every signal. *)
Theorem invert_negates o :
  (valid_condition o = true /\ 0 <= o ->
    exists o', invertRp1Op o = Val o' /\ valid_condition o' = true /\ invertRp1Op o' = Val o /\
      forall s v, compare s o' v = negb (compare s o v)) /\
  (valid_condition o = false -> invertRp1Op o = Exn LogicError) /\
  (forall s, compare s kNeverOp kNeverValue = false).
Proof.
  unfold valid_condition. split; [|split].
  - intros [V P]. apply Z.leb_le in V. change RP1_COP_AND_Z with 5 in V.
    assert (o = 0 \/ o = 1 \/ o = 2 \/ o = 3 \/ o = 4 \/ o = 5) as D by lia.
    destruct D as [->|[->|[->|[->|[->| ->]]]]]; eexists;
      (split; [reflexivity|]; split; [reflexivity|]; split; [reflexivity|]); intros s v;
      unfold compare; cbn; rewrite ?negb_involutive; lia.
  - intros V. apply Z.leb_gt in V. change RP1_COP_AND_Z with 5 in V.
    unfold invertRp1Op, RP1_COP_EQ, RP1_COP_NE, RP1_COP_LT, RP1_COP_GE, RP1_COP_AND_NZ, RP1_COP_AND_Z.
    by rewrite !(proj2 (Z.eqb_neq _ _)) by lia.
  - intros s. change (negb (Z.land s 0 =? 0) = false). by rewrite Z.land_0_r.
Qed.

(** ** The allocators hand out free slots *)

(** How often [slot] is held. *)
Definition holders (slot : Z) (held : list Z) : Z := Z.of_nat (count_occ Z.eq_dec held slot).

(** The reservations and the slots clients hold after a sequence of calls,
    each held once per [alloc] or [reserve] not yet released. *)
Inductive slot_run : reservations -> list Z -> Prop :=
  | slots_new : slot_run SignalSlotAllocator_new []
  | slots_alloc r held s r' : slot_run r held -> slot_alloc r = Val (s, r') ->
      slot_run r' (s :: held)
  | slots_reserve r held slot : slot_run r held -> 0 <= slot ->
      holders slot held < UINT32_MAX ->
      slot_run (reserve slot r) (if slot <? RP1_MAX_SIGNALS then slot :: held else held)
  | slots_release r held held' slot : slot_run r held -> Permutation held (slot :: held') ->
      slot_run (release slot r) held'.

Record slots_ok (r : reservations) (held : list Z) : Prop := {
  so_length : Z.of_nat (length r) = RP1_MAX_SIGNALS;
  so_held : Forall (fun s => 0 <= s < RP1_MAX_SIGNALS) held;
  so_uses : forall s, 0 <= s < RP1_MAX_SIGNALS -> uses r s = holders s held;
  so_word : forall s, 0 <= s < RP1_MAX_SIGNALS -> holders s held <= UINT32_MAX
}.

Lemma uses_insert r s s' v :
  0 <= s < Z.of_nat (length r) -> 0 <= s' ->
  uses (<[Z.to_nat s := v]> r) s' = if s' =? s then v else uses r s'.
Proof.
  intros S S'. unfold uses. rewrite !nth_lookup.
  destruct (Z.eqb_spec s' s) as [->|N].
  - rewrite list_lookup_insert_eq by lia. done.
  - rewrite list_lookup_insert_ne by lia. done.
Qed.

Lemma holders_cons s s' held :
  holders s' (s :: held) = holders s' held + if s' =? s then 1 else 0.
Proof.
  unfold holders. cbn [count_occ]. destruct (Z.eq_dec s s') as [->|N].
  - rewrite Z.eqb_refl. lia.
  - rewrite (proj2 (Z.eqb_neq s' s)) by done. lia.
Qed.

Lemma holders_pos s held : 0 < holders s held <-> s ∈ held.
Proof.
  unfold holders. rewrite list_elem_of_In, (count_occ_In Z.eq_dec). lia.
Qed.

Lemma holders_nonneg s held : 0 <= holders s held.
Proof. unfold holders. lia. Qed.

Lemma first_free_spec r : forall k,
  match first_free k r with
  | Some s => k <= s < k + Z.of_nat (length r) /\ uses r (s - k) = 0 /\
      forall t, k <= t < s -> uses r (t - k) <> 0
  | None => forall t, k <= t < k + Z.of_nat (length r) -> uses r (t - k) <> 0
  end.
Proof.
  assert (forall n r' k t, k < t -> uses (n :: r') (t - k) = uses r' (t - (k + 1))) as Step.
  { intros n r' k t K. unfold uses. by replace (Z.to_nat (t - k)) with (S (Z.to_nat (t - (k + 1)))) by lia. }
  induction r as [|n r IH]; intros k; cbn [first_free length]; [lia|].
  destruct (Z.eqb_spec n 0) as [->|N].
  - split; [lia|]. split; [by rewrite Z.sub_diag|lia].
  - specialize (IH (k + 1)). assert (uses (n :: r) (k - k) <> 0) by (by rewrite Z.sub_diag).
    destruct (first_free (k + 1) r) as [s|].
    + destruct IH as (B & F & L). rewrite Step by lia. split; [lia|]. split; [done|].
      intros t T. destruct (Z.eq_dec t k) as [->|]; [done|]. rewrite Step by lia. apply L; lia.
    + intros t T. destruct (Z.eq_dec t k) as [->|]; [done|]. rewrite Step by lia. apply IH; lia.
Qed.

Lemma slot_alloc_spec r :
  match slot_alloc r with
  | Val (s, r') => 0 <= s < Z.of_nat (length r) /\ uses r s = 0 /\ r' = <[Z.to_nat s := 1]> r /\
      forall t, 0 <= t < s -> uses r t <> 0
  | Exn e => e = RuntimeError /\ forall t, 0 <= t < Z.of_nat (length r) -> uses r t <> 0
  end.
Proof.
  unfold slot_alloc. pose proof (first_free_spec r 0) as F.
  destruct (first_free 0 r) as [s|].
  - destruct F as (B & U & L). rewrite Z.sub_0_r in U. split_and!; [lia|lia|done|done|].
    intros t T. specialize (L t T). by rewrite Z.sub_0_r in L.
  - split; [done|]. intros t T. specialize (F t T). by rewrite Z.sub_0_r in F.
Qed.

Lemma slots_ok_new : slots_ok SignalSlotAllocator_new [].
Proof.
  split; [by vm_compute|done| |done]. intros s S. unfold uses, SignalSlotAllocator_new.
  rewrite nth_lookup, lookup_replicate_2 by (unfold RP1_MAX_SIGNALS in *; lia). done.
Qed.

Lemma slots_ok_set r held held' slot v :
  slots_ok r held -> 0 <= slot < RP1_MAX_SIGNALS -> v <= UINT32_MAX ->
  Forall (fun s => 0 <= s < RP1_MAX_SIGNALS) held' ->
  (forall s, 0 <= s < RP1_MAX_SIGNALS ->
    holders s held' = if s =? slot then v else holders s held) ->
  slots_ok (<[Z.to_nat slot := v]> r) held'.
Proof.
  intros [L F U W] S V F' Hh. split; [by rewrite length_insert|done| |].
  - intros s B. rewrite uses_insert, Hh by lia. by destruct (s =? slot); [|apply U].
  - intros s B. rewrite Hh by done. destruct (s =? slot); auto.
Qed.

Lemma slots_ok_alloc r held s r' :
  slots_ok r held -> slot_alloc r = Val (s, r') -> slots_ok r' (s :: held).
Proof.
  intros O E. pose proof (slot_alloc_spec r) as A. rewrite E in A.
  destruct A as (B & Z0 & -> & _). rewrite (so_length _ _ O) in B.
  rewrite (so_uses _ _ O) in Z0 by done.
  eapply slots_ok_set; [done|done|unfold UINT32_MAX; lia|by constructor; [|apply O]|].
  intros t T. rewrite holders_cons. destruct (Z.eqb_spec t s) as [->|]; lia.
Qed.

Lemma slots_ok_reserve r held slot :
  slots_ok r held -> 0 <= slot -> holders slot held < UINT32_MAX ->
  slots_ok (reserve slot r) (if slot <? RP1_MAX_SIGNALS then slot :: held else held).
Proof.
  intros O P B. unfold reserve, in_slots. rewrite (so_length _ _ O).
  destruct (Z.ltb_spec slot RP1_MAX_SIGNALS); [|done].
  rewrite (so_uses _ _ O) by lia. pose proof (holders_nonneg slot held).
  unfold add32. rewrite u32_small by (unfold is_u32, UINT32_MAX in *; lia).
  eapply slots_ok_set; [done|lia|lia|by constructor; [|apply O]|].
  intros t T. rewrite holders_cons. destruct (Z.eqb_spec t slot) as [->|]; lia.
Qed.

Lemma slots_ok_perm r held held' :
  Permutation held held' -> slots_ok r held -> slots_ok r held'.
Proof.
  intros P [L F U W].
  assert (forall s, holders s held' = holders s held) as E.
  { intros s. unfold holders. by rewrite (proj1 (Permutation_count_occ Z.eq_dec _ _) P). }
  split; [done|by rewrite <- P|intros s S; by rewrite U, E|intros s S; rewrite E; by apply W].
Qed.

Lemma slots_ok_release r held slot :
  slots_ok r (slot :: held) -> slots_ok (release slot r) held.
Proof.
  intros O. pose proof (so_held _ _ O) as F. inversion F as [|? ? S F']; subst; clear F; rename F' into F.
  pose proof (so_word _ _ O slot S) as B. rewrite holders_cons, Z.eqb_refl in B.
  unfold release, in_slots. rewrite (so_length _ _ O), (so_uses _ _ O), holders_cons by done.
  pose proof (holders_nonneg slot held).
  rewrite (proj2 (Z.ltb_lt slot _)), Z.eqb_refl, (proj2 (Z.ltb_lt 0 _)) by lia. cbn [andb].
  unfold sub32. rewrite u32_small by (unfold is_u32, UINT32_MAX in *; lia).
  eapply slots_ok_set; [done|done|lia|done|].
  intros t T. rewrite holders_cons. destruct (Z.eqb_spec t slot) as [->|]; lia.
Qed.

Lemma slot_run_ok r held : slot_run r held -> slots_ok r held.
Proof.
  induction 1 as [|r held s r' _ IH E|r held slot _ IH P B|r held held' slot _ IH P].
  - apply slots_ok_new.
  - by eapply slots_ok_alloc.
  - by apply slots_ok_reserve.
  - apply slots_ok_release. by eapply slots_ok_perm.
Qed.

(** After any sequence of [alloc], [reserve] and [release] calls in which
    clients release only what they hold, [isReserved] says exactly which
    slots are held (or out of range), [alloc] returns the lowest slot nobody
    holds, and it throws exactly when all 256 slots are held. *)
Theorem signal_slots_exclusive r held :
  slot_run r held ->
  (forall s, 0 <= s -> (isReserved r s = true <-> RP1_MAX_SIGNALS <= s \/ s ∈ held)) /\
  match slot_alloc r with
  | Val (s, _) => 0 <= s < RP1_MAX_SIGNALS /\ (s ∉ held) /\ forall t, 0 <= t < s -> t ∈ held
  | Exn e => e = RuntimeError /\ forall t, 0 <= t < RP1_MAX_SIGNALS -> t ∈ held
  end.
Proof.
  intros R. apply slot_run_ok in R as [L F U W].
  assert (forall s, 0 <= s < RP1_MAX_SIGNALS -> uses r s <> 0 <-> s ∈ held) as Held.
  { intros s S. rewrite U, <- holders_pos by done. pose proof (holders_nonneg s held). lia. }
  split.
  - intros s S. unfold isReserved, in_slots. rewrite L, orb_true_iff, !negb_true_iff,
      Z.ltb_ge, Z.eqb_neq.
    destruct (Z.le_gt_cases RP1_MAX_SIGNALS s); [tauto|]. by rewrite Held by lia.
  - pose proof (slot_alloc_spec r) as A. destruct (slot_alloc r) as [[s r']|e]; rewrite L in A.
    + destruct A as (B & Z0 & _ & Low). split; [done|]. split.
      * rewrite <- Held by done. lia.
      * intros t T. apply Held; [lia|]. by apply Low.
    + destruct A as [-> A]. split; [done|]. intros t T. apply Held; auto.
Qed.

(** Slot 0 reserved, two slots allocated, the first one released: the next
    [alloc] returns it again. *)
Lemma signal_slots_exclusive_witness :
  exists r r', slot_run r [2; 0] /\ slot_alloc r = Val (1, r') /\ 1 ∉ [2; 0].
Proof.
  assert (slot_run (release 1 (<[2%nat := 1]> (<[1%nat := 1]> (reserve 0 SignalSlotAllocator_new))))
    [2; 0]) as R.
  { eapply (slots_release _ [2; 1; 0]); [|by apply perm_swap].
    apply (slots_alloc (<[1%nat := 1]> (reserve 0 SignalSlotAllocator_new)) [1; 0]);
      [|by vm_compute].
    apply (slots_alloc (reserve 0 SignalSlotAllocator_new) [0]); [|by vm_compute].
    change [0] with (if 0 <? RP1_MAX_SIGNALS then [0] else []).
    by apply slots_reserve; [apply slots_new|..]. }
  eexists _, _. split; [exact R|]. split; [by vm_compute|].
  apply signal_slots_exclusive in R as [_ R]. vm_compute in R. exact (proj1 (proj2 R)).
Defined.

(** [n] consecutive [LoopIdAllocator::alloc] calls from counter [next]. *)
Fixpoint loop_allocs (n : nat) (next : Z) : except cond_exn (list Z * Z) :=
  match n with
  | O => Val ([], next)
  | S n' => ebind (loop_alloc next) (fun '(id, next') =>
            ebind (loop_allocs n' next') (fun '(ids, last) => Val (id :: ids, last)))
  end.

Lemma loop_allocs_from n : forall next,
  0 <= next <= RP1_MAX_LOOPS ->
  loop_allocs n next =
    if RP1_MAX_LOOPS <? next + Z.of_nat n then Exn RuntimeError
    else Val (seqZ next (Z.of_nat n), next + Z.of_nat n).
Proof.
  induction n as [|n IH]; intros next B; cbn [loop_allocs].
  - rewrite (proj2 (Z.ltb_ge _ _)) by lia. by rewrite Z.add_0_r.
  - unfold loop_alloc. destruct (Z.leb_spec RP1_MAX_LOOPS next).
    + by rewrite (proj2 (Z.ltb_lt _ _)) by lia.
    + change RP1_MAX_LOOPS with 64 in *.
      unfold add32. rewrite (u32_small (next + 1)) by (unfold is_u32; lia). cbn [ebind].
      rewrite IH by lia. replace (next + 1 + Z.of_nat n) with (next + Z.of_nat (S n)) by lia.
      case_match; [done|]. cbn [ebind]. unfold u8. rewrite Z.mod_small by lia.
      by rewrite (seqZ_cons next (Z.of_nat (S n))) by lia;
        replace (Z.pred (Z.of_nat (S n))) with (Z.of_nat n) by lia; rewrite Z.add_1_r.
Qed.

(** A fresh loop-id allocator hands out the ids 0, 1, 2, ... in order,
    each below the firmware's [RP1_MAX_LOOPS] (so no two loops share a
    counter and none is rejected), and throws exactly on the 65th request. *)
Theorem loop_ids_distinct n :
  (Z.of_nat n <= RP1_MAX_LOOPS ->
    exists ids, loop_allocs n 0 = Val (ids, Z.of_nat n) /\ length ids = n /\ NoDup ids /\
      Forall (fun id => 0 <= id < RP1_MAX_LOOPS) ids) /\
  (RP1_MAX_LOOPS < Z.of_nat n -> loop_allocs n 0 = Exn RuntimeError).
Proof.
  rewrite loop_allocs_from by (by vm_compute). rewrite Z.add_0_l. split; intros B.
  - rewrite (proj2 (Z.ltb_ge _ _)) by done. eexists. split; [done|].
    split; [rewrite length_seqZ; lia|]. split; [apply NoDup_seqZ|].
    apply List.Forall_forall. intros id I. apply list_elem_of_In, elem_of_seqZ in I. lia.
  - by rewrite (proj2 (Z.ltb_lt _ _)) by done.
Qed.
