(* ===== verification/Buddy.v ===== *)
(** * The buddy superblocks of the VRT buffer allocator

    Models vrt/include/vrt/allocator/allocator.hpp and
    vrt/src/allocator/allocator.cpp: [UntypedBuffer] (a slice of a device
    buffer), and [BuddySuperblockBase<MIN_K, MAX_K>] with [seed], [allocate],
    [deallocate] and [isFree].  The state of a superblock is its [freeList],
    one vector of slices per power-of-two size; vectors are lists whose last
    element is [back()].

    A history of [allocate] and [deallocate] calls keeps every byte of the
    superblock in exactly one free or live block and never leaves two free
    buddies unmerged; from that follow exclusive, aligned and big enough
    blocks, that [allocate] fails only when no aligned block is free, that
    [deallocate] undoes [allocate], and that [isFree] is right. *)

From S2P Require Import Prelude Except.

(** ** Slices *)

Definition UINT64_MAX : Z := 2 ^ 64 - 1.

(** What the allocator reads of the [vrtd::Buffer] behind a slice. *)
Record backing := {
  bk_physAddr : Z; bk_size : Z; bk_allocType : Z; bk_allocDir : Z; bk_allocArg : Z
}.

#[export] Instance backing_eq_dec : EqDecision backing.
Proof. solve_decision. Defined.

Record UntypedBuffer := { ub_backing : backing; ub_size : Z; ub_offset : Z }.

#[export] Instance UntypedBuffer_eq_dec : EqDecision UntypedBuffer.
Proof. solve_decision. Defined.

Inductive buddy_exn := BadAlloc | RuntimeError | OutOfRange.

(** The constructor from a device buffer. *)
Definition whole_buffer (bk : backing) (size offset : Z) : UntypedBuffer :=
  {| ub_backing := bk; ub_size := if size =? UINT64_MAX then bk_size bk else size;
     ub_offset := offset |}.

(** The constructor from a parent slice. *)
Definition slice (parent : UntypedBuffer) (size offset : Z) : UntypedBuffer :=
  {| ub_backing := ub_backing parent;
     ub_size := if size =? UINT64_MAX then ub_size parent else size;
     ub_offset := add64 (ub_offset parent) offset |}.

Definition getPhysAddr (b : UntypedBuffer) : Z := add64 (bk_physAddr (ub_backing b)) (ub_offset b).

(** The range of the device buffer [syncToDevice] and [syncToHost] forward. *)
Definition sync_range (b : UntypedBuffer) (offset size : Z) : except buddy_exn (Z * Z) :=
  let syncSize := if size =? UINT64_MAX then sub64 (ub_size b) offset else size in
  if ub_size b <? add64 offset syncSize then Exn OutOfRange
  else Val (add64 (ub_offset b) offset, syncSize).

(** ** The superblock *)

(** [bucket[j] = bucket.back(); bucket.pop_back()], the copy skipped when
    [j] is the last index. *)
Definition swap_pop {A} (j : nat) (bucket : list A) : list A :=
  removelast (if (j + 1 =? length bucket)%nat then bucket
              else match list.last bucket with Some b => <[j := b]> bucket | None => bucket end).

(** [freeList[i].push_back(b)]. *)
Definition push {A} (i : nat) (b : A) (fl : list (list A)) : list (list A) :=
  alter (fun bucket => bucket ++ [b]) i fl.

(** The scan for the first non-empty bucket among the [n] from [i]. *)
Fixpoint scan {A} (n i : nat) (fl : list (list A)) : option nat :=
  match n with
  | O => None
  | S n' => match fl !! i with
            | Some (_ :: _) => Some i
            | _ => scan n' (S i) fl
            end
  end.

Abbreviation freeList := (list (list UntypedBuffer)).

Section superblock.
Context (MIN_K MAX_K : nat).

Definition kNumBuckets : nat := MAX_K - MIN_K + 1.

(** The size of the blocks of bucket [i]. *)
Definition bsize (i : nat) : Z := 2 ^ Z.of_nat (MIN_K + i).

Definition sizeToIndex (size : Z) : nat :=
  if size <=? 2 ^ Z.of_nat MIN_K then 0%nat
  else (Z.to_nat (Z.log2 (size - 1)) + 1 - MIN_K)%nat.

Definition empty_lists : freeList := replicate kNumBuckets [].

Definition seed (whole : UntypedBuffer) : except buddy_exn freeList :=
  let index := sizeToIndex (ub_size whole) in
  if (kNumBuckets <=? index)%nat then Exn RuntimeError
  else Val (push index whole empty_lists).

(** The [d] splits of the inner loop, from bucket [i] down. *)
Fixpoint split_down (d i : nat) (b : UntypedBuffer) (fl : freeList) : UntypedBuffer * freeList :=
  match d with
  | O => (b, fl)
  | S d' =>
      let i' := (i - 1)%nat in
      let halfSize := bsize i' in
      split_down d' i' (slice b halfSize 0) (push i' (slice b halfSize halfSize) fl)
  end.

Definition allocate (size : Z) (fl : freeList) : except buddy_exn (UntypedBuffer * freeList) :=
  let index := sizeToIndex size in
  if (kNumBuckets <=? index)%nat then Exn BadAlloc
  else match scan (kNumBuckets - index) index fl with
  | None => Exn BadAlloc
  | Some i =>
      match list.last (fl !!! i) with
      | Some b => Val (split_down (i - index) i b (alter (fun bucket => removelast bucket) i fl))
      | None => Exn BadAlloc
      end
  end.

(** The coalescing loop, with [d] buckets above [i] left. *)
Fixpoint coalesce (d : nat) (base : Z) (i : nat) (offset size : Z) (fl : freeList)
    : nat * Z * Z * freeList :=
  match d with
  | O => (i, offset, size, fl)
  | S d' =>
      let buddyOffset := Z.lxor offset size in
      match list_find (fun b => sub64 (getPhysAddr b) base = buddyOffset) (fl !!! i) with
      | None => (i, offset, size, fl)
      | Some (j, _) =>
          coalesce d' base (S i) (Z.min offset buddyOffset) (u64 (Z.shiftl size 1))
            (alter (swap_pop j) i fl)
      end
  end.

Definition deallocate (whole buffer : UntypedBuffer) (fl : freeList) : except buddy_exn freeList :=
  let index := sizeToIndex (ub_size buffer) in
  if (kNumBuckets <=? index)%nat then Exn RuntimeError
  else
    let base := getPhysAddr whole in
    let size := ub_size buffer in
    let offset := sub64 (getPhysAddr buffer) base in
    if ub_size whole <? add64 offset size then Exn RuntimeError
    else
      let '(i, offset', size', fl') := coalesce (kNumBuckets - 1 - index) base index offset size fl in
      Val (push i (slice whole size' offset') fl').

Definition isFree (whole : UntypedBuffer) (fl : freeList) : bool :=
  (length (fl !!! sizeToIndex (ub_size whole)) =? 1)%nat.

End superblock.

(** ** Blocks as nodes of a binary tree

    Bucket [i] holds the blocks of [2^i] minimum-size cells; the [k]-th of
    them covers the cells [c] with [c / 2^i = k].  Its buddy is
    [Z.lxor k 1], its parent [k / 2]. *)

Abbreviation block := (nat * Z)%type.

Definition buddy (k : Z) : Z := Z.lxor k 1.

Definition holds (c : Z) (b : block) : Prop := c / 2 ^ Z.of_nat b.1 = b.2.

#[export] Instance holds_dec c b : Decision (holds c b).
Proof. unfold holds. apply _. Defined.

(** How many of the blocks hold the cell. *)
Definition cnt (c : Z) (bs : list block) : nat := length (filter (holds c) bs).

(** All blocks of the buckets, the first one numbered [n]. *)
Fixpoint flat (n : nat) (afl : list (list Z)) : list block :=
  match afl with
  | [] => []
  | ks :: afl' => (pair n <$> ks) ++ flat (S n) afl'
  end.

Definition valid (top : nat) (b : block) : Prop :=
  (b.1 <= top)%nat /\ 0 <= b.2 < 2 ^ Z.of_nat (top - b.1).

(** The blocks tile the superblock: every cell is in exactly one of them. *)
Definition tiles (top : nat) (bs : list block) : Prop :=
  Forall (valid top) bs /\ forall c, 0 <= c < 2 ^ Z.of_nat top -> cnt c bs = 1%nat.

Definition unmerged (top : nat) (afl : list (list Z)) : Prop :=
  forall i k, (i < top)%nat -> k ∈ afl !!! i -> buddy k ∉ afl !!! i.

Record buddy_inv (top : nat) (afl : list (list Z)) (live : list block) : Prop := {
  bi_length : length afl = S top;
  bi_tiles : tiles top (flat 0 afl ++ live);
  bi_unmerged : unmerged top afl
}.

Lemma buddy_cases k :
  exists m, k = 2 * m /\ buddy k = 2 * m + 1 \/ k = 2 * m + 1 /\ buddy k = 2 * m.
Proof.
  assert (He : forall m, Z.lxor (2 * m) 1 = 2 * m + 1).
  { intros m. symmetry. apply Z.add_nocarry_lxor. change 1 with (Z.ones 1).
    rewrite Z.land_ones by lia. change (2 ^ 1) with 2. rewrite Z.mul_comm. apply Z_mod_mult. }
  exists (k / 2). pose proof (Z.div_mod k 2 ltac:(lia)) as E.
  pose proof (Z.mod_pos_bound k 2 ltac:(lia)) as Hr. unfold buddy.
  destruct (decide (k mod 2 = 0)) as [Z0|Z0]; [left|right].
  - split; [lia|]. replace k with (2 * (k / 2)) at 1 by lia. apply He.
  - split; [lia|]. replace k with (2 * (k / 2) + 1) at 1 by lia.
    rewrite <- He, Z.lxor_assoc, Z.lxor_nilpotent. apply Z.lxor_0_r.
Qed.

Lemma buddy_ne k : buddy k <> k.
Proof. destruct (buddy_cases k) as [m [[-> ->]|[-> ->]]]; lia. Qed.

Lemma buddy_involutive k : buddy (buddy k) = k.
Proof. unfold buddy. rewrite Z.lxor_assoc, Z.lxor_nilpotent. apply Z.lxor_0_r. Qed.

(** *** Counting *)

#[export] Instance cnt_perm c : Proper ((≡ₚ) ==> (=)) (cnt c).
Proof. intros l l' E. unfold cnt. by rewrite E. Qed.

Lemma cnt_app c l l' : cnt c (l ++ l') = (cnt c l + cnt c l')%nat.
Proof. unfold cnt. by rewrite list.filter_app, length_app. Qed.

Lemma cnt_cons c b l : cnt c (b :: l) = ((if decide (holds c b) then 1 else 0) + cnt c l)%nat.
Proof. unfold cnt. rewrite filter_cons. by destruct (decide _). Qed.

Lemma cnt_pos c l b : b ∈ l -> holds c b -> (0 < cnt c l)%nat.
Proof.
  intros Hb Hc. unfold cnt. destruct (filter (holds c) l) eqn:E; [|cbn; lia].
  exfalso. apply (not_elem_of_nil b). rewrite <- E. by apply list_elem_of_filter.
Qed.

Lemma cnt_elem c l : (0 < cnt c l)%nat -> exists b, b ∈ l /\ holds c b.
Proof.
  unfold cnt. destruct (filter (holds c) l) as [|b r] eqn:E; cbn; [lia|]. intros _.
  exists b. assert (Hb : b ∈ filter (holds c) l) by (rewrite E; left).
  by apply list_elem_of_filter in Hb as [].
Qed.

Lemma div_pow_S c i : c / 2 ^ Z.of_nat (S i) = c / 2 ^ Z.of_nat i / 2.
Proof.
  rewrite Nat2Z.inj_succ, Z.pow_succ_r by lia. rewrite Z.mul_comm.
  symmetry. apply Z.div_div; [apply Z.pow_nonzero|]; lia.
Qed.

(** A block holds exactly what its two halves hold. *)
Lemma cnt_halves c i k l : cnt c ((S i, k) :: l) = cnt c ((i, 2 * k) :: (i, 2 * k + 1) :: l).
Proof.
  rewrite !cnt_cons. pose proof (div_pow_S c i) as Hd.
  repeat destruct (decide _); unfold holds in *; cbn [fst snd] in *;
    pose proof (Z.div_mod (c / 2 ^ Z.of_nat i) 2 ltac:(lia)) as E;
    pose proof (Z.mod_pos_bound (c / 2 ^ Z.of_nat i) 2 ltac:(lia)) as Hr; lia.
Qed.

Lemma valid_halves top i k :
  (i < top)%nat -> (valid top (S i, k) <-> valid top (i, 2 * k) /\ valid top (i, 2 * k + 1)).
Proof.
  intros Hi. unfold valid. cbn [fst snd].
  replace (top - i)%nat with (S (top - S i)) by lia.
  rewrite (Nat2Z.inj_succ (top - S i)), Z.pow_succ_r by lia. split; lia.
Qed.

Lemma tiles_perm top l l' : l ≡ₚ l' -> tiles top l -> tiles top l'.
Proof.
  intros E [Hv Hc]. split; [by rewrite <- E|]. intros c Hr. rewrite <- E. by apply Hc.
Qed.

Lemma tiles_split top i k l :
  (i < top)%nat -> (tiles top ((S i, k) :: l) <-> tiles top ((i, 2 * k) :: (i, 2 * k + 1) :: l)).
Proof.
  intros Hi. unfold tiles. rewrite !Forall_cons_iff, (valid_halves top i k Hi).
  setoid_rewrite cnt_halves. tauto.
Qed.

(** *** Buckets *)

Lemma flat_elem n afl i k : (i, k) ∈ flat n afl <-> (n <= i)%nat /\ k ∈ afl !!! (i - n)%nat.
Proof.
  revert n. induction afl as [|ks afl IH]; intros n; cbn [flat].
  - rewrite lookup_total_nil. split; [intros Hn; by apply not_elem_of_nil in Hn|].
    intros [_ Hn]. by apply not_elem_of_nil in Hn.
  - rewrite elem_of_app, IH, list_elem_of_fmap. split.
    + intros [(k' & [= -> ->] & Hk)|[Hle Hk]]; [by rewrite Nat.sub_diag|].
      replace (i - n)%nat with (S (i - S n)) by lia. split; [lia|done].
    + intros [Hle Hk]. destruct (decide (i = n)) as [->|Hne].
      * rewrite Nat.sub_diag in Hk. left. by exists k.
      * replace (i - n)%nat with (S (i - S n)) in Hk by lia. right. split; [lia|done].
Qed.

(** Changing one bucket by one block changes the blocks by it. *)
Lemma flat_more n afl i l f k :
  afl !! i = Some l -> f l ≡ₚ k :: l -> flat n (alter f i afl) ≡ₚ ((n + i)%nat, k) :: flat n afl.
Proof.
  revert n i. induction afl as [|ks afl IH]; intros n [|i]; try done.
  - cbn. intros [= ->] E. rewrite Nat.add_0_r. cbn [flat]. by rewrite E.
  - cbn [lookup list_lookup]. intros Hl E. cbn. rewrite (IH (S n) i Hl E).
    replace (S n + i)%nat with (n + S i)%nat by lia.
    symmetry. apply Permutation_middle.
Qed.

Lemma flat_less n afl i l f k :
  afl !! i = Some l -> l ≡ₚ k :: f l -> flat n afl ≡ₚ ((n + i)%nat, k) :: flat n (alter f i afl).
Proof.
  revert n i. induction afl as [|ks afl IH]; intros n [|i]; try done.
  - cbn. intros [= ->] E. rewrite Nat.add_0_r. rewrite E at 1. done.
  - cbn [lookup list_lookup]. intros Hl E. cbn. rewrite (IH (S n) i Hl E).
    replace (S n + i)%nat with (n + S i)%nat by lia.
    symmetry. apply Permutation_middle.
Qed.

Lemma pop_back_last {A} (l : list A) b : list.last l = Some b -> l = removelast l ++ [b].
Proof.
  intros E. apply last_Some in E as [l' ->]. by rewrite removelast_last.
Qed.

Lemma swap_pop_perm {A} (l : list A) j b : l !! j = Some b -> l ≡ₚ b :: swap_pop j l.
Proof.
  intros Hj. unfold swap_pop. pose proof (lookup_lt_Some _ _ _ Hj) as Hlt.
  destruct (list.last l) as [x|] eqn:El; [|by apply last_None in El as ->].
  apply last_Some in El as [l' ->]. rewrite length_app in *. cbn [length] in *.
  destruct (Nat.eqb_spec (j + 1) (length l' + 1)) as [E|E].
  - rewrite removelast_app by done. cbn. rewrite app_nil_r.
    rewrite lookup_app_r in Hj by lia. replace (j - length l')%nat with 0%nat in Hj by lia.
    injection Hj as ->. symmetry. apply Permutation_cons_append.
  - rewrite insert_app_l by lia. rewrite removelast_app by done. cbn. rewrite app_nil_r.
    rewrite lookup_app_l in Hj by lia. rewrite (Permutation_app_comm l' [x]). cbn.
    rewrite <- (take_drop_middle l' j b Hj) at 1.
    rewrite insert_take_drop by lia. rewrite <- !Permutation_middle. by rewrite perm_swap.
Qed.

Lemma push_lookup {A} i (k : A) afl j :
  (i < length afl)%nat ->
  push i k afl !!! j = if decide (i = j) then afl !!! i ++ [k] else afl !!! j.
Proof.
  intros Hi. unfold push. destruct (decide (i = j)) as [<-|Hne].
  - by rewrite list_lookup_total_alter_eq.
  - by apply list_lookup_total_alter_ne.
Qed.

Lemma length_push {A} i (k : A) afl : length (push i k afl) = length afl.
Proof. apply length_alter. Qed.

Lemma flat_push i k afl :
  (i < length afl)%nat -> flat 0 (push i k afl) ≡ₚ (i, k) :: flat 0 afl.
Proof.
  intros Hi. destruct (lookup_lt_is_Some_2 afl i Hi) as [l Hl].
  apply (flat_more 0 _ _ _ _ _ Hl). symmetry. apply Permutation_cons_append.
Qed.

Lemma unmerged_push top i k afl :
  (i < length afl)%nat -> (i < top -> buddy k ∉ afl !!! i)%nat ->
  unmerged top afl -> unmerged top (push i k afl).
Proof.
  intros Hi Hk Hu j m Hj. rewrite push_lookup by done.
  destruct (decide (i = j)) as [->|]; [|by apply Hu].
  rewrite !elem_of_app, !list_elem_of_singleton. specialize (Hk Hj).
  intros [Hm| ->] [Hb|Hb]; [by apply (Hu j m)|..|done|by apply (buddy_ne k)].
  subst k. by rewrite buddy_involutive in Hk.
Qed.

Lemma alter_fixed {A} (f : A -> A) (i : nat) (l : list A) :
  (forall x, l !! i = Some x -> f x = x) -> alter f i l = l.
Proof.
  revert i. induction l as [|x l IH]; intros [|i] Hf; cbn; try done.
  - by rewrite Hf.
  - f_equal. by apply IH.
Qed.

Lemma flat_empty n m : flat n (replicate m []) = [].
Proof. revert n. induction m as [|m IH]; intros n; [done|]. apply IH. Qed.

Lemma tiles_whole top : tiles top [(top, 0)].
Proof.
  split.
  - constructor; [|constructor]. split; [done|]. cbn. rewrite Nat.sub_diag. lia.
  - intros c Hc. rewrite cnt_cons, decide_True; [done|]. by apply Z.div_small.
Qed.

(** The seeded superblock: one free block, the whole. *)
Definition seeded (top : nat) : list (list Z) := push top 0 (replicate (S top) []).

Lemma seed_inv top : buddy_inv top (seeded top) [].
Proof.
  assert (Hl : (top < length (replicate (S top) ([] : list Z)))%nat) by (rewrite length_replicate; lia).
  split.
  - unfold seeded. by rewrite length_push, length_replicate.
  - unfold seeded. eapply tiles_perm; [|apply tiles_whole].
    rewrite flat_push by done. by rewrite flat_empty.
  - apply unmerged_push; [done|lia|]. intros i k Hi. rewrite lookup_total_replicate_2 by lia.
    intros Hn. by apply not_elem_of_nil in Hn.
Qed.

Lemma flat_nil n afl : flat n afl = [] -> afl = replicate (length afl) [].
Proof.
  revert n. induction afl as [|ks afl IH]; intros n; cbn [flat length replicate]; [done|].
  intros [Hk Hr]%app_eq_nil. apply fmap_nil_inv in Hk. subst ks. f_equal. by eapply IH.
Qed.

(** Every block of the tree has a cell. *)
Lemma valid_cell top b : valid top b -> exists c, 0 <= c < 2 ^ Z.of_nat top /\ holds c b.
Proof.
  destruct b as [i k]. intros [Hi Hk]. cbn [fst snd] in *. exists (k * 2 ^ Z.of_nat i).
  assert (Hp : 0 < 2 ^ Z.of_nat i) by (apply Z.pow_pos_nonneg; lia).
  replace (2 ^ Z.of_nat top) with (2 ^ Z.of_nat (top - i) * 2 ^ Z.of_nat i)
    by (rewrite <- Z.pow_add_r by lia; f_equal; lia).
  split; [nia|]. apply Z.div_mul. lia.
Qed.

(** *** Splitting and merging of tree nodes *)

Fixpoint asplit (d i : nat) (k : Z) (afl : list (list Z)) : Z * list (list Z) :=
  match d with
  | O => (k, afl)
  | S d' => asplit d' (i - 1) (2 * k) (push (i - 1) (2 * k + 1) afl)
  end.

Fixpoint acoalesce (d i : nat) (k : Z) (afl : list (list Z)) : nat * Z * list (list Z) :=
  match d with
  | O => (i, k, afl)
  | S d' => match list_find (fun m => m = buddy k) (afl !!! i) with
            | None => (i, k, afl)
            | Some (j, _) => acoalesce d' (S i) (k / 2) (alter (swap_pop j) i afl)
            end
  end.

Definition afree (top i : nat) (k : Z) (afl : list (list Z)) : list (list Z) :=
  let '(i', k', afl') := acoalesce (top - i) i k afl in push i' k' afl'.

Section tree.
Context (top : nat) (live : list block).

Lemma asplit_inv d : forall i k afl,
  (d <= i <= top)%nat -> length afl = S top -> unmerged top afl ->
  (forall j, (i - d <= j < i)%nat -> afl !!! j = []) ->
  tiles top ((i, k) :: flat 0 afl ++ live) ->
  let '(k', afl') := asplit d i k afl in
  k' = k * 2 ^ Z.of_nat d /\ buddy_inv top afl' (((i - d)%nat, k') :: live).
Proof.
  induction d as [|d IH]; intros i k afl Hi Hl Hu He Ht.
  - cbn. rewrite Nat.sub_0_r. split; [lia|]. split; [done| |done].
    eapply tiles_perm; [|exact Ht]. apply Permutation_middle.
  - cbn [asplit]. destruct i as [|i]; [lia|]. replace (S i - 1)%nat with i by lia.
    assert (Hlt : (i < length afl)%nat) by lia.
    specialize (IH i (2 * k) (push i (2 * k + 1) afl)).
    replace (S i - S d)%nat with (i - d)%nat in * by lia.
    destruct (asplit d i _ _) as [k' afl']. destruct IH as [-> Hinv].
    + lia.
    + by rewrite length_push.
    + apply unmerged_push; [done| |done]. rewrite He by lia. intros _. apply not_elem_of_nil.
    + intros j Hj. rewrite push_lookup by done. rewrite decide_False by lia. apply He. lia.
    + apply tiles_split in Ht; [|lia]. eapply tiles_perm; [|exact Ht].
      by rewrite flat_push.
    + split; [|done]. rewrite Nat2Z.inj_succ, Z.pow_succ_r by lia. lia.
Qed.

Lemma acoalesce_inv d : forall i k afl,
  (i + d)%nat = top -> length afl = S top -> unmerged top afl ->
  tiles top ((i, k) :: flat 0 afl ++ live) ->
  let '(i', k', afl') := acoalesce d i k afl in buddy_inv top (push i' k' afl') live.
Proof.
  assert (Hdone : forall i k afl, (i <= top)%nat -> length afl = S top -> unmerged top afl ->
    (i < top -> buddy k ∉ afl !!! i)%nat ->
    tiles top ((i, k) :: flat 0 afl ++ live) -> buddy_inv top (push i k afl) live).
  { intros i k afl Hi Hl Hu Hb Ht. split; [by rewrite length_push| |].
    - eapply tiles_perm; [|exact Ht]. rewrite flat_push by lia. done.
    - apply unmerged_push; [lia|done|done]. }
  induction d as [|d IH]; intros i k afl Hi Hl Hu Ht; cbn [acoalesce].
  - apply Hdone; try done; lia.
  - destruct (list_find _ _) as [[j m]|] eqn:Ef.
    + apply list_find_Some in Ef as (Hj & -> & _).
      assert (Hlt : (i < length afl)%nat) by lia.
      apply IH; [lia|by rewrite length_alter| |].
      * assert (Hs : swap_pop j (afl !!! i) ⊆ afl !!! i).
        { intros x Hx. rewrite (swap_pop_perm _ _ _ Hj). by right. }
        intros a b Ha. destruct (decide (i = a)) as [<-|Hne].
        -- rewrite list_lookup_total_alter_eq by done. intros Hk Hb. by apply (Hu i b); [done|apply Hs..].
        -- rewrite list_lookup_total_alter_ne by done. by apply Hu.
      * apply tiles_split; [lia|]. eapply tiles_perm; [|exact Ht].
        destruct (lookup_lt_is_Some_2 afl i Hlt) as [l El].
        rewrite (list_lookup_total_correct _ _ _ El) in Hj.
        rewrite (flat_less 0 afl i l (swap_pop j) (buddy k) El) by (by apply swap_pop_perm).
        destruct (buddy_cases k) as [q [[-> ->]|[-> ->]]].
        -- replace (2 * q / 2) with q by (rewrite Z.mul_comm, Z.div_mul; lia). done.
        -- replace ((2 * q + 1) / 2) with q by (apply Z.div_unique with 1; lia). apply perm_swap.
    + apply Hdone; try done; [lia|]. intros _ Hin. apply list_find_None in Ef.
      rewrite Forall_forall in Ef.
      by apply (Ef _ (proj1 (list_elem_of_In _ _) Hin)).
Qed.

(** Merging undoes splitting. *)
Lemma acoalesce_asplit d : forall x i k afl,
  (d <= i)%nat -> (i < length afl)%nat -> (forall j, (i - d <= j < i)%nat -> afl !!! j = []) ->
  let '(k', afl') := asplit d i k afl in
  acoalesce (d + x) (i - d) k' afl' = acoalesce x i k afl.
Proof.
  induction d as [|d IH]; intros x i k afl Hi Hl He.
  - cbn. by rewrite Nat.sub_0_r.
  - cbn [asplit]. destruct i as [|i]; [lia|]. replace (S i - 1)%nat with i by lia.
    specialize (IH (S x) i (2 * k) (push i (2 * k + 1) afl)).
    replace (S i - S d)%nat with (i - d)%nat in * by lia.
    destruct (asplit d i _ _) as [k' afl'].
    replace (S d + x)%nat with (d + S x)%nat by lia. rewrite IH; clear IH.
    + cbn [acoalesce]. rewrite push_lookup, decide_True, He by lia. cbn [app].
      assert (Hb : buddy (2 * k) = 2 * k + 1).
      { destruct (buddy_cases (2 * k)) as [m [[Hm ->]|[Hm _]]]; lia. }
      rewrite Hb. cbn. rewrite decide_True by done. cbn.
      replace (2 * k / 2) with k by (rewrite Z.mul_comm, Z.div_mul; lia).
      unfold push. rewrite list_alter_alter_eq. rewrite alter_fixed; [done|].
      intros l El. apply list_lookup_total_correct in El. rewrite He in El by lia. by subst l.
    + lia.
    + rewrite length_push. lia.
    + intros j Hj. rewrite push_lookup, decide_False by lia. apply He. lia.
Qed.

Context (afl : list (list Z)) (Hinv : buddy_inv top afl live).

(** A block none of whose cells is in a live block is inside a free one. *)
Lemma free_run i k :
  valid top (i, k) -> (forall c b, holds c (i, k) -> b ∈ live -> ~ holds c b) ->
  exists j, (i <= j <= top)%nat /\ k / 2 ^ Z.of_nat (j - i) ∈ afl !!! j.
Proof using Hinv.
  destruct Hinv as [Hl [Hv Hc] Hu]. revert k. induction i as [|i IH]; intros k Hk Hfree.
  - assert (H0 : holds k (0%nat, k)) by apply Z.div_1_r.
    destruct Hk as [Hi Hk]. cbn [fst snd] in *. rewrite Nat.sub_0_r in Hk.
    pose proof (Hc k Hk) as H1. destruct (cnt_elem k (flat 0 afl ++ live)) as ([j m] & Hb & Hh);
      [lia|]. apply elem_of_app in Hb as [Hb|Hb]; [|by destruct (Hfree _ _ H0 Hb)].
    assert (Hjm : valid top (j, m)).
    { rewrite Forall_forall in Hv. apply Hv, list_elem_of_In, elem_of_app. by left. }
    apply flat_elem in Hb as [_ Hb]. rewrite Nat.sub_0_r in Hb. exists j.
    rewrite Nat.sub_0_r. destruct Hjm as [Hj _]. cbn in *. split; [lia|]. by rewrite Hh.
  - assert (Hi : (i < top)%nat) by (destruct Hk; cbn in *; lia).
    apply valid_halves in Hk as [Hk0 Hk1]; [|done].
    assert (Hup : forall c m, (m = 2 * k \/ m = 2 * k + 1) -> holds c (i, m) -> holds c (S i, k)).
    { unfold holds. cbn [fst snd]. intros c m Hm <-. rewrite div_pow_S.
      symmetry. destruct Hm as [E|E]; rewrite E;
        [apply Z.div_unique with 0|apply Z.div_unique with 1]; lia. }
    assert (Hpar : forall m j, (m = 2 * k \/ m = 2 * k + 1) -> (S i <= j)%nat ->
      m / 2 ^ Z.of_nat (j - i) = k / 2 ^ Z.of_nat (j - S i)).
    { intros m j Hm Hj. replace (j - i)%nat with (S (j - S i)) by lia.
      rewrite Nat2Z.inj_succ, Z.pow_succ_r by lia.
      rewrite <- Z.div_div; [|lia|apply Z.pow_pos_nonneg; lia]. f_equal. symmetry.
      destruct Hm as [-> | ->];
        [apply Z.div_unique with 0|apply Z.div_unique with 1]; lia. }
    destruct (IH _ Hk0) as (j0 & Hj0 & He0); [by eauto|].
    destruct (IH _ Hk1) as (j1 & Hj1 & He1); [by eauto|].
    destruct (decide (j0 = i)) as [->|Hne0];
      [destruct (decide (j1 = i)) as [->|Hne1]|].
    + exfalso. rewrite Nat.sub_diag, Z.div_1_r in He0, He1.
      apply (Hu i (2 * k) Hi He0). destruct (buddy_cases (2 * k)) as [m [[Hm ->]|[Hm _]]]; [|lia].
      by replace m with k by lia.
    + exists j1. split; [lia|]. rewrite <- (Hpar (2 * k + 1)) by lia. done.
    + exists j0. split; [lia|]. rewrite <- (Hpar (2 * k)) by lia. done.
Qed.

(** Two blocks of the superblock share no cell. *)
Lemma tiles_apart c b b' rest :
  flat 0 afl ++ live ≡ₚ b :: rest -> b' ∈ rest -> 0 <= c < 2 ^ Z.of_nat top ->
  holds c b -> ~ holds c b'.
Proof using Hinv.
  intros E Hin Hr Hb Hk. pose proof (proj2 (bi_tiles _ _ _ Hinv) c Hr) as H1.
  rewrite E, cnt_cons, decide_True in H1 by done.
  pose proof (cnt_pos c rest _ Hin Hk). lia.
Qed.

(** With nothing live the blocks have merged into one. *)
Lemma all_merged : live = [] -> afl = seeded top.
Proof using Hinv.
  intros El. destruct (free_run top 0) as (j & Hj & Hin).
  { split; [done|]. cbn. rewrite Nat.sub_diag. lia. }
  { intros c b _ Hb. rewrite El in Hb. by apply not_elem_of_nil in Hb. }
  assert (j = top) as -> by lia. rewrite Nat.sub_diag, Z.div_1_r in Hin.
  pose proof (bi_length _ _ _ Hinv) as Hl.
  destruct (lookup_lt_is_Some_2 afl top ltac:(lia)) as [l Hli].
  rewrite (list_lookup_total_correct _ _ _ Hli) in Hin.
  apply elem_of_Permutation in Hin as [l' Hl'].
  pose proof (flat_less 0 afl top l (fun _ => l') 0 Hli Hl') as Hf. cbn [Nat.add] in Hf.
  assert (Hnil : flat 0 (alter (fun _ => l') top afl) = []).
  { apply elem_of_nil_inv. intros b Hb.
    assert (Hv : valid top b).
    { destruct (bi_tiles _ _ _ Hinv) as [Hv _]. rewrite Forall_forall in Hv.
      apply Hv, list_elem_of_In. rewrite Hf. apply elem_of_app. left. by right. }
    destruct (valid_cell top b Hv) as (c & Hc & Hh).
    apply (tiles_apart c (top, 0) b (flat 0 (alter (fun _ => l') top afl) ++ live));
      [by rewrite Hf|apply elem_of_app; by left|done|by apply Z.div_small|done]. }
  apply flat_nil in Hnil as Ha. rewrite length_alter, Hl in Ha.
  unfold seeded, push. rewrite <- Ha, list_alter_alter_eq. symmetry. apply alter_fixed.
  intros x Hx. rewrite Hli in Hx. injection Hx as <-. unfold compose.
  assert (alter (fun _ => l') top afl !! top = Some l') as H2 by (by rewrite list_lookup_alter, decide_True, Hli).
  rewrite Ha in H2. apply lookup_replicate in H2 as [-> _]. by apply Permutation_singleton_r in Hl'.
Qed.

(** A free block of the top bucket leaves room for no live one. *)
Lemma whole_free x : x ∈ afl !!! top -> live = [].
Proof using Hinv.
  intros Hx. destruct (bi_tiles _ _ _ Hinv) as [Hv _]. apply Forall_app in Hv as [Hf Hv].
  assert (Hin : (top, x) ∈ flat 0 afl) by (apply flat_elem; split; [lia|by rewrite Nat.sub_0_r]).
  assert (Hx0 : x = 0).
  { rewrite Forall_forall in Hf. apply list_elem_of_In, Hf in Hin as [_ Hr]. cbn in Hr.
    rewrite Nat.sub_diag in Hr. lia. }
  subst x. apply elem_of_nil_inv. intros b Hb.
  rewrite Forall_forall in Hv. apply list_elem_of_In in Hb as Hb'.
  destruct (valid_cell top b (Hv _ Hb')) as (c & Hc & Hh).
  apply elem_of_Permutation in Hin as [rest Hrest].
  apply (tiles_apart c (top, 0) b (rest ++ live));
    [by rewrite Hrest|apply elem_of_app; by right|done|by apply Z.div_small|done].
Qed.
End tree.

Lemma scan_spec {A} (fl : list (list A)) n i :
  match scan n i fl with
  | Some j => (i <= j < i + n)%nat /\ fl !!! j <> [] /\ forall m, (i <= m < j)%nat -> fl !!! m = []
  | None => forall m, (i <= m < i + n)%nat -> fl !!! m = []
  end.
Proof.
  revert i. induction n as [|n IH]; intros i; cbn [scan]; [intros m Hm; lia|].
  specialize (IH (S i)).
  assert (Hstep : fl !!! i = [] ->
    match scan n (S i) fl with
    | Some j => (i <= j < i + S n)%nat /\ fl !!! j <> [] /\ forall m, (i <= m < j)%nat -> fl !!! m = []
    | None => forall m, (i <= m < i + S n)%nat -> fl !!! m = []
    end).
  { intros He. destruct (scan n (S i) fl) as [j|].
    - destruct IH as (Hj & Hne & Hm). split; [lia|]. split; [done|]. intros m Hm'.
      destruct (decide (m = i)) as [->|]; [done|]. apply Hm. lia.
    - intros m Hm'. destruct (decide (m = i)) as [->|]; [done|]. apply IH. lia. }
  destruct (fl !! i) as [[|x l]|] eqn:E; [by apply Hstep, list_lookup_total_correct| |].
  - rewrite (list_lookup_total_correct _ _ _ E). split; [lia|]. split; [done|]. lia.
  - apply Hstep. by rewrite list_lookup_total_alt, E.
Qed.

Lemma imap_alter_comm {A B} (f : nat -> A -> B) g h i l :
  (forall x, l !! i = Some x -> f i (h x) = g (f i x)) ->
  imap f (alter h i l) = alter g i (imap f l).
Proof.
  revert f i. induction l as [|x l IH]; intros f [|i] Hf; cbn; try done.
  - f_equal. by apply Hf.
  - f_equal. by apply (IH (f ∘ S)).
Qed.

Lemma find_ext_in {A} (P Q : A -> Prop) `{!forall x, Decision (P x)} `{!forall x, Decision (Q x)} l :
  (forall x, x ∈ l -> (P x <-> Q x)) -> list_find P l = list_find Q l.
Proof.
  induction l as [|x l IH]; intros Hpq; [done|]. cbn.
  rewrite (decide_ext (P x) (Q x)) by (apply Hpq; left). rewrite IH; [done|].
  intros y Hy. apply Hpq. by right.
Qed.

(** ** The superblock as a tree *)

Section sizes.
Context (MIN_K : nat).

Abbreviation bsize := (bsize MIN_K).

Lemma bsize_pos i : 0 < bsize i.
Proof. apply Z.pow_pos_nonneg; lia. Qed.

Lemma bsize_S i : bsize (S i) = 2 * bsize i.
Proof. unfold bsize. rewrite Nat.add_succ_r, Nat2Z.inj_succ. apply Z.pow_succ_r. lia. Qed.

Lemma sizeToIndex_le size i : size <= bsize i <-> (sizeToIndex MIN_K size <= i)%nat.
Proof.
  unfold sizeToIndex, bsize. destruct (Z.leb_spec size (2 ^ Z.of_nat MIN_K)) as [Hs|Hs].
  - split; [lia|]. intros _. etrans; [exact Hs|]. apply Z.pow_le_mono_r; lia.
  - assert (0 < 2 ^ Z.of_nat MIN_K) by (apply Z.pow_pos_nonneg; lia).
    assert (Hlog : Z.of_nat MIN_K <= Z.log2 (size - 1)) by (apply Z.log2_le_pow2; lia).
    transitivity (Z.log2 (size - 1) < Z.of_nat (MIN_K + i)).
    + rewrite <- Z.log2_lt_pow2 by lia. lia.
    + lia.
Qed.

Lemma sizeToIndex_bsize i : sizeToIndex MIN_K (bsize i) = i.
Proof.
  apply Nat.le_antisymm; [by apply sizeToIndex_le|].
  destruct i as [|i]; [lia|]. apply Nat.nlt_ge. intros Hlt.
  pose proof (proj2 (sizeToIndex_le (bsize (S i)) i) ltac:(lia)) as Hle.
  rewrite bsize_S in Hle. pose proof (bsize_pos i). lia.
Qed.
End sizes.

(** The byte at [x] of the device buffer is in the slice. *)
Definition covers (x : Z) (b : UntypedBuffer) : Prop := ub_offset b <= x < ub_offset b + ub_size b.

#[export] Instance covers_dec x b : Decision (covers x b).
Proof. unfold covers. apply _. Defined.

(** Two slices share a byte. *)
Definition meets (b b' : UntypedBuffer) : Prop :=
  ub_offset b < ub_offset b' + ub_size b' /\ ub_offset b' < ub_offset b + ub_size b.

#[export] Instance meets_dec b b' : Decision (meets b b').
Proof. unfold meets. apply _. Defined.

(** The free lists and the outstanding blocks of a superblock after a
    sequence of calls. *)
Inductive history (MIN_K MAX_K : nat) (whole : UntypedBuffer) : freeList -> list UntypedBuffer -> Prop :=
| history_seed fl : seed MIN_K MAX_K whole = Val fl -> history MIN_K MAX_K whole fl []
| history_alloc fl live size b fl' :
    history MIN_K MAX_K whole fl live -> allocate MIN_K MAX_K size fl = Val (b, fl') ->
    history MIN_K MAX_K whole fl' (b :: live)
| history_free fl l1 b l2 fl' :
    history MIN_K MAX_K whole fl (l1 ++ b :: l2) -> deallocate MIN_K MAX_K whole b fl = Val fl' ->
    history MIN_K MAX_K whole fl' (l1 ++ l2).

(** The slices a superblock hands out: of the size of a bucket, aligned to
    it, inside the superblock. *)
Definition regular (MIN_K : nat) (whole b : UntypedBuffer) : Prop :=
  ub_backing b = ub_backing whole /\ exists i k, ub_size b = bsize MIN_K i /\ 0 <= k /\
    ub_offset b = ub_offset whole + k * bsize MIN_K i /\
    ub_offset b + ub_size b <= ub_offset whole + ub_size whole.

Section refine.
Context (MIN_K MAX_K : nat) (Hk : (MIN_K <= MAX_K <= 63)%nat) (whole : UntypedBuffer).

Abbreviation top := (MAX_K - MIN_K)%nat.
Abbreviation bsize := (bsize MIN_K).

(** A superblock spans exactly its largest block and does not reach past the
    address space of its device buffer. *)
Definition whole_ok : Prop :=
  ub_size whole = 2 ^ Z.of_nat MAX_K /\ 0 <= ub_offset whole /\
  ub_offset whole + 2 ^ Z.of_nat MAX_K <= 2 ^ 64.

Definition blk (i : nat) (k : Z) : UntypedBuffer :=
  {| ub_backing := ub_backing whole; ub_size := bsize i; ub_offset := ub_offset whole + k * bsize i |}.

Definition reps (afl : list (list Z)) : freeList := imap (fun i ks => blk i <$> ks) afl.

Lemma bsize_top i : (i <= top)%nat -> 2 ^ Z.of_nat MAX_K = 2 ^ Z.of_nat (top - i) * bsize i.
Proof using Hk. intros Hi. unfold bsize. rewrite <- Z.pow_add_r by lia. f_equal. lia. Qed.

Lemma bsize_small i : (i <= top)%nat -> bsize i < UINT64_MAX.
Proof using Hk.
  intros Hi. apply Z.le_lt_trans with (2 ^ 63); [|done]. apply Z.pow_le_mono_r; lia.
Qed.

Lemma valid_end i k : valid top (i, k) -> 0 <= k * bsize i /\ k * bsize i + bsize i <= 2 ^ Z.of_nat MAX_K.
Proof using Hk.
  intros [Hi Hv]. cbn [fst snd] in *. rewrite (bsize_top i Hi). pose proof (bsize_pos MIN_K i). nia.
Qed.

Section ok.
Context (Hw : whole_ok).

Lemma slice_blk i k : valid top (i, k) -> slice whole (bsize i) (k * bsize i) = blk i k.
Proof using Hw Hk.
  intros Hv. destruct Hw as (_ & H0 & H1). pose proof (valid_end i k Hv) as He.
  pose proof (bsize_pos MIN_K i). pose proof (bsize_small i (proj1 Hv)).
  unfold slice, blk. destruct (Z.eqb_spec (bsize i) UINT64_MAX); [lia|].
  unfold add64, u64. by rewrite Z.mod_small by lia.
Qed.

Lemma slice_halves i k :
  valid top (S i, k) ->
  slice (blk (S i) k) (bsize i) 0 = blk i (2 * k) /\
  slice (blk (S i) k) (bsize i) (bsize i) = blk i (2 * k + 1).
Proof using Hw Hk.
  intros Hv. destruct Hw as (_ & H0 & H1). pose proof (valid_end _ _ Hv) as He.
  pose proof (bsize_pos MIN_K i). pose proof (bsize_small i) as Hs. destruct Hv as [Hi _]. cbn in Hi.
  unfold slice, blk. destruct (Z.eqb_spec (bsize i) UINT64_MAX); [lia|]. cbn.
  rewrite (bsize_S MIN_K) in *. split; f_equal; unfold add64, u64; rewrite Z.mod_small; lia.
Qed.

(** The offset the superblock computes from physical addresses. *)
Lemma blk_offset i k : valid top (i, k) -> sub64 (getPhysAddr (blk i k)) (getPhysAddr whole) = k * bsize i.
Proof using Hw Hk.
  intros Hv. destruct Hw as (_ & H0 & H1). pose proof (valid_end _ _ Hv) as He.
  pose proof (bsize_pos MIN_K i). unfold getPhysAddr, blk, sub64, add64, u64. cbn.
  rewrite <- Zminus_mod. replace (_ - _) with (k * bsize i) by lia. apply Z.mod_small. lia.
Qed.

Lemma reps_lookup afl i : reps afl !!! i = blk i <$> (afl !!! i).
Proof.
  rewrite !list_lookup_total_alt. unfold reps. rewrite list_lookup_imap.
  by destruct (afl !! i).
Qed.

Lemma reps_push i k afl : push i (blk i k) (reps afl) = reps (push i k afl).
Proof.
  unfold push, reps. symmetry. apply imap_alter_comm. intros l _. by rewrite fmap_app.
Qed.

Lemma removelast_fmap {A B} (f : A -> B) l : f <$> removelast l = removelast (f <$> l).
Proof. induction l as [|x [|y l] IH]; [done..|]. cbn in *. by rewrite IH. Qed.

Lemma swap_pop_fmap {A B} (f : A -> B) j l : f <$> swap_pop j l = swap_pop j (f <$> l).
Proof.
  unfold swap_pop. rewrite removelast_fmap, length_fmap, fmap_last. f_equal.
  destruct (_ =? _)%nat; [done|]. destruct (list.last l); cbn; [|done].
  apply list_fmap_insert.
Qed.

Lemma scan_reps afl n i : scan n i (reps afl) = scan n i afl.
Proof.
  revert i. induction n as [|n IH]; intros i; cbn [scan]; [done|].
  unfold reps at 1. rewrite list_lookup_imap, IH. by destruct (afl !! i) as [[|]|].
Qed.

Lemma split_down_reps d i k afl :
  (d <= i)%nat -> valid top (i, k) ->
  split_down MIN_K d i (blk i k) (reps afl) =
  let '(k', afl') := asplit d i k afl in (blk (i - d) k', reps afl').
Proof using Hw Hk.
  revert i k afl. induction d as [|d IH]; intros i k afl Hd Hv; cbn [split_down asplit].
  - by rewrite Nat.sub_0_r.
  - destruct i as [|i]; [lia|]. replace (S i - 1)%nat with i by lia.
    destruct (slice_halves i k Hv) as [-> ->]. rewrite reps_push.
    replace (S i - S d)%nat with (i - d)%nat by lia. apply IH; [lia|].
    destruct (proj1 (valid_halves top i k ltac:(destruct Hv; cbn in *; lia)) Hv) as [Hv' _].
    exact Hv'.
Qed.

Lemma lxor_bsize i k : Z.lxor (k * bsize i) (bsize i) = buddy k * bsize i.
Proof using Hk.
  unfold bsize, buddy. rewrite <- !Z.shiftl_mul_pow2 by lia. rewrite Z.shiftl_lxor. f_equal.
  rewrite Z.shiftl_mul_pow2 by lia. lia.
Qed.

Lemma find_reps afl i k :
  Forall (valid top) (flat 0 afl) ->
  list_find (fun b => sub64 (getPhysAddr b) (getPhysAddr whole) = Z.lxor (k * bsize i) (bsize i))
    (reps afl !!! i) =
  prod_map id (blk i) <$> list_find (fun m => m = buddy k) (afl !!! i).
Proof using Hw Hk.
  intros Hv. rewrite reps_lookup, list_find_fmap. f_equal. apply find_ext_in.
  intros m Hm. unfold compose. rewrite lxor_bsize, blk_offset.
  - pose proof (bsize_pos MIN_K i). nia.
  - rewrite Forall_forall in Hv. apply Hv, list_elem_of_In, flat_elem. split; [lia|].
    by rewrite Nat.sub_0_r.
Qed.

Lemma merge_valid i k : (i < top)%nat -> valid top (i, k) -> valid top (S i, k / 2).
Proof using Hk.
  intros Hi [_ Hv]. cbn [fst snd] in Hv. split; cbn [fst snd]; [lia|].
  replace (top - i)%nat with (S (top - S i)) in Hv by lia.
  rewrite Nat2Z.inj_succ, Z.pow_succ_r in Hv by lia.
  pose proof (Z.div_mod k 2 ltac:(lia)). pose proof (Z.mod_pos_bound k 2 ltac:(lia)). lia.
Qed.

Lemma merge_offset i k :
  Z.min (k * bsize i) (buddy k * bsize i) = k / 2 * bsize (S i).
Proof using Hk.
  rewrite (bsize_S MIN_K). pose proof (bsize_pos MIN_K i).
  destruct (buddy_cases k) as [q [[-> ->]|[-> ->]]].
  - replace (2 * q / 2) with q by (rewrite Z.mul_comm, Z.div_mul; lia). nia.
  - replace ((2 * q + 1) / 2) with q by (apply Z.div_unique with 1; lia). nia.
Qed.

Lemma pop_valid afl i j m :
  (afl !!! i) !! j = Some m -> (i < length afl)%nat -> Forall (valid top) (flat 0 afl) ->
  Forall (valid top) (flat 0 (alter (swap_pop j) i afl)).
Proof.
  intros Hj Hi. destruct (lookup_lt_is_Some_2 afl i Hi) as [l El].
  rewrite (list_lookup_total_correct _ _ _ El) in Hj.
  rewrite (flat_less 0 afl i l (swap_pop j) m El) by (by apply swap_pop_perm).
  by intros [_ Hv]%Forall_cons_iff.
Qed.

Lemma coalesce_reps d i k afl :
  (i + d)%nat = top -> length afl = S top -> valid top (i, k) -> Forall (valid top) (flat 0 afl) ->
  let '(i', k', afl') := acoalesce d i k afl in
  coalesce d (getPhysAddr whole) i (k * bsize i) (bsize i) (reps afl) =
    (i', k' * bsize i', bsize i', reps afl') /\ valid top (i', k').
Proof using Hw Hk.
  revert i k afl. induction d as [|d IH]; intros i k afl Hd Hl Hv Ha; cbn [coalesce acoalesce]; [done|].
  rewrite find_reps by done.
  destruct (list_find _ (afl !!! i)) as [[j m]|] eqn:Ef; cbn [fmap option_fmap option_map prod_map]; [|done].
  apply list_find_Some in Ef as (Hj & -> & _). unfold id.
  specialize (IH (S i) (k / 2) (alter (swap_pop j) i afl)).
  destruct (acoalesce d _ _ _) as [[i' k'] afl'].
  rewrite lxor_bsize, merge_offset.
  replace (u64 (Z.shiftl (bsize i) 1)) with (bsize (S i)).
  - assert (Hr : alter (swap_pop j) i (reps afl) = reps (alter (swap_pop j) i afl)).
    { symmetry. apply imap_alter_comm. intros l _. apply swap_pop_fmap. }
    cbn [fst]. rewrite Hr. apply IH; [lia|by rewrite length_alter| |].
    + apply merge_valid; [lia|done].
    + eapply pop_valid; [done|lia|done].
  - rewrite Z.shiftl_mul_pow2 by lia. pose proof (bsize_small (S i) ltac:(lia)) as Hs.
    pose proof (bsize_pos MIN_K i). rewrite (bsize_S MIN_K) in *. unfold u64, UINT64_MAX in *.
    rewrite Z.mod_small; lia.
Qed.

Definition aalloc (idx : nat) (afl : list (list Z)) : option (Z * list (list Z)) :=
  match scan (kNumBuckets MIN_K MAX_K - idx) idx afl with
  | None => None
  | Some i => match list.last (afl !!! i) with
              | Some k => Some (asplit (i - idx) i k (alter (fun ks => removelast ks) i afl))
              | None => None
              end
  end.

Lemma allocate_reps size afl :
  length afl = S top -> Forall (valid top) (flat 0 afl) ->
  allocate MIN_K MAX_K size (reps afl) =
  if (top <? sizeToIndex MIN_K size)%nat then Exn BadAlloc
  else match aalloc (sizeToIndex MIN_K size) afl with
       | None => Exn BadAlloc
       | Some (k, afl') => Val (blk (sizeToIndex MIN_K size) k, reps afl')
       end.
Proof using Hw Hk.
  intros Hl Hv. unfold allocate, aalloc. set (idx := sizeToIndex MIN_K size).
  unfold kNumBuckets. replace (_ <=? idx)%nat with (top <? idx)%nat
    by (rewrite Nat.add_1_r; reflexivity).
  destruct (Nat.ltb_spec top idx) as [|Hi]; [done|]. rewrite scan_reps.
  pose proof (scan_spec afl (top + 1 - idx) idx) as Hs.
  destruct (scan _ _ afl) as [i|]; [|done]. destruct Hs as (Hj & Hne & _).
  rewrite reps_lookup, fmap_last.
  destruct (list.last (afl !!! i)) as [k|] eqn:El; [|done]. cbn [fmap option_fmap option_map].
  assert (Hr : alter (fun bucket => removelast bucket) i (reps afl) =
               reps (alter (fun ks => removelast ks) i afl)).
  { symmetry. apply imap_alter_comm. intros l _. apply removelast_fmap. }
  rewrite Hr, split_down_reps; [|lia|].
  - destruct (asplit _ _ _ _) as [k' afl']. by replace (i - (i - idx))%nat with idx by lia.
  - rewrite Forall_forall in Hv. apply Hv, list_elem_of_In, flat_elem.
    rewrite Nat.sub_0_r. split; [lia|]. apply last_Some in El as [l' ->].
    apply elem_of_app. right. by left.
Qed.

Lemma deallocate_reps i k afl :
  length afl = S top -> valid top (i, k) -> Forall (valid top) (flat 0 afl) ->
  deallocate MIN_K MAX_K whole (blk i k) (reps afl) = Val (reps (afree top i k afl)).
Proof using Hw Hk.
  intros Hl Hv Ha. pose proof (valid_end i k Hv) as He. pose proof (proj1 Hv) as Hi. cbn in Hi.
  unfold deallocate. change (ub_size (blk i k)) with (bsize i). rewrite sizeToIndex_bsize.
  unfold kNumBuckets. destruct (Nat.leb_spec (top + 1) i); [lia|]. rewrite blk_offset by done.
  assert (Hle : add64 (k * bsize i) (bsize i) <= ub_size whole).
  { destruct Hw as (-> & H0 & H1). pose proof (bsize_pos MIN_K i). unfold add64, u64.
    etrans; [apply Z.mod_le|]; lia. }
  destruct (Z.ltb_spec (ub_size whole) (add64 (k * bsize i) (bsize i))); [lia|].
  pose proof (coalesce_reps (top - i) i k afl) as Hc. unfold afree.
  replace (top + 1 - 1 - i)%nat with (top - i)%nat by lia.
  destruct (acoalesce _ _ _ _) as [[i' k'] afl'].
  destruct Hc as [-> Hv']; [lia|done..|]. by rewrite slice_blk, reps_push.
Qed.

(** *** The operations keep the invariant *)

Lemma inv_valid afl live : buddy_inv top afl live -> Forall (valid top) (flat 0 afl).
Proof. intros [_ [Hv _] _]. by apply Forall_app in Hv as []. Qed.

(** Taking the last block out of a bucket. *)
Definition pop_bucket (i : nat) (afl : list (list Z)) : list (list Z) :=
  alter (fun ks => removelast ks) i afl.

Lemma pop_bucket_inv i l k afl live :
  afl !! i = Some l -> list.last l = Some k -> buddy_inv top afl live ->
  tiles top ((i, k) :: flat 0 (pop_bucket i afl) ++ live) /\ unmerged top (pop_bucket i afl) /\
  push i k (pop_bucket i afl) = afl /\ (i < top -> buddy k ∉ pop_bucket i afl !!! i)%nat.
Proof.
  intros Hli El%pop_back_last [Hl Ht Hu]. pose proof (lookup_lt_Some _ _ _ Hli) as Hi.
  assert (Hp : l ≡ₚ k :: removelast l) by (rewrite El at 1; symmetry; apply Permutation_cons_append).
  assert (Hpush : push i k (pop_bucket i afl) = afl).
  { unfold push, pop_bucket. rewrite list_alter_alter_eq. apply alter_fixed. intros x Hx.
    rewrite Hli in Hx. injection Hx as <-. unfold compose. by symmetry. }
  split_and!.
  - eapply tiles_perm; [|exact Ht]. by rewrite (flat_less 0 afl i l _ k Hli Hp).
  - intros a b Ha. unfold pop_bucket. destruct (decide (i = a)) as [<-|Hne'].
    + rewrite list_lookup_total_alter_eq, (list_lookup_total_correct _ _ _ Hli) by done.
      intros H1 H2. apply (Hu i b Ha); rewrite (list_lookup_total_correct _ _ _ Hli), Hp; by right.
    + rewrite list_lookup_total_alter_ne by done. by apply Hu.
  - done.
  - intros Hlt Hb. rewrite <- Hpush in Hu. apply (Hu i k Hlt);
      (rewrite push_lookup, decide_True; [apply elem_of_app|done|by unfold pop_bucket; rewrite length_alter]);
      [right; by left|by left].
Qed.

Lemma aalloc_inv idx afl live :
  (idx <= top)%nat -> buddy_inv top afl live ->
  match aalloc idx afl with
  | Some (k, afl') => buddy_inv top afl' ((idx, k) :: live) /\ afree top idx k afl' = afl
  | None => forall j, (idx <= j <= top)%nat -> afl !!! j = []
  end.
Proof using Hk.
  intros Hi Hinv0. pose proof (bi_length _ _ _ Hinv0) as Hl. unfold aalloc, kNumBuckets.
  pose proof (scan_spec afl (top + 1 - idx) idx) as Hs.
  destruct (scan _ _ afl) as [i|]; [|intros j Hj; apply Hs; lia].
  destruct Hs as (Hj & Hne & He).
  destruct (list.last (afl !!! i)) as [k|] eqn:El; [|by apply last_None in El].
  destruct (lookup_lt_is_Some_2 afl i ltac:(lia)) as [l Hli].
  rewrite (list_lookup_total_correct _ _ _ Hli) in *. fold (pop_bucket i afl).
  destruct (pop_bucket_inv i l k afl live Hli El Hinv0) as (Ht & Hu & Hpush & Hbk).
  assert (Hlen : length (pop_bucket i afl) = length afl) by apply length_alter.
  assert (He' : forall j, (i - (i - idx) <= j < i)%nat -> pop_bucket i afl !!! j = []).
  { intros j Hj'. unfold pop_bucket. rewrite list_lookup_total_alter_ne by lia. apply He. lia. }
  pose proof (asplit_inv top live (i - idx) i k (pop_bucket i afl)) as Hinv.
  pose proof (acoalesce_asplit (i - idx) (top - i) i k (pop_bucket i afl)) as Hback.
  destruct (asplit _ _ _ _) as [k' afl']. replace (i - (i - idx))%nat with idx in * by lia.
  destruct Hinv as [_ Hinv]; [lia|lia|done..|].
  split; [done|]. unfold afree. replace (top - idx)%nat with (i - idx + (top - i))%nat by lia.
  rewrite Hback by (done || lia).
  destruct (top - i)%nat eqn:Ei; cbn [acoalesce]; [done|].
  destruct (list_find _ _) as [[j m]|] eqn:Ef; [|done].
  apply list_find_Some in Ef as (Hm & -> & _). destruct Hbk; [lia|].
  by eapply list_elem_of_lookup_2.
Qed.

Lemma afree_inv i k afl live live' :
  live ≡ₚ (i, k) :: live' -> buddy_inv top afl live -> buddy_inv top (afree top i k afl) live'.
Proof using Hk.
  intros E [Hl Ht Hu]. assert (Hv : valid top (i, k)).
  { destruct Ht as [Hv _]. rewrite E in Hv. apply Forall_app in Hv as [_ Hv].
    by apply Forall_cons_iff in Hv as []. }
  pose proof (acoalesce_inv top live' (top - i) i k afl) as Hc. unfold afree.
  destruct (acoalesce _ _ _ _) as [[i' k'] afl']. apply Hc; [|done..|].
  - destruct Hv as [Hv _]. cbn in Hv. lia.
  - eapply tiles_perm; [|exact Ht]. rewrite E. symmetry. apply Permutation_middle.
Qed.

(** *** Bytes and cells *)

Lemma covers_blk i k x :
  0 <= x < 2 ^ Z.of_nat MAX_K ->
  (covers (ub_offset whole + x) (blk i k) <-> holds (x / 2 ^ Z.of_nat MIN_K) (i, k)).
Proof using Hk.
  intros Hx. unfold covers, holds, blk. cbn. pose proof (bsize_pos MIN_K i) as Hp.
  rewrite Z.div_div by (try apply Z.pow_nonzero; try apply Z.pow_pos_nonneg; lia).
  rewrite <- Z.pow_add_r, <- Nat2Z.inj_add by lia. fold (bsize i). split.
  - intros Hc. symmetry. apply Z.div_unique with (x - k * bsize i); lia.
  - intros <-. pose proof (Z.div_mod x (bsize i) ltac:(lia)).
    pose proof (Z.mod_pos_bound x (bsize i) Hp). lia.
Qed.

Lemma cell_range x : 0 <= x < 2 ^ Z.of_nat MAX_K -> 0 <= x / 2 ^ Z.of_nat MIN_K < 2 ^ Z.of_nat top.
Proof using Hk.
  intros Hx. assert (0 < 2 ^ Z.of_nat MIN_K) by (apply Z.pow_pos_nonneg; lia).
  split; [apply Z.div_pos; lia|]. apply Z.div_lt_upper_bound; [lia|].
  rewrite <- Z.pow_add_r by lia. replace (_ + _) with (Z.of_nat MAX_K) by lia. lia.
Qed.

Abbreviation tree := (fun b : block => blk b.1 b.2).

Lemma concat_reps afl : concat (reps afl) = tree <$> flat 0 afl.
Proof using Hk.
  assert (Hn : forall n, concat (imap (fun i ks => blk (n + i) <$> ks) afl) = tree <$> flat n afl).
  { induction afl as [|ks afl IH]; intros n; [done|]. cbn [flat].
    rewrite imap_cons, concat_cons, fmap_app, Nat.add_0_r, <- (IH (S n)). f_equal.
    - by rewrite <- list_fmap_compose.
    - f_equal. apply imap_ext. intros i x _. cbn.
      by replace (n + S i)%nat with (S n + i)%nat by lia. }
  exact (Hn 0%nat).
Qed.

Lemma length_filter_covers x l :
  0 <= x < 2 ^ Z.of_nat MAX_K ->
  length (filter (covers (ub_offset whole + x)) (tree <$> l)) = cnt (x / 2 ^ Z.of_nat MIN_K) l.
Proof using Hk.
  intros Hx. unfold cnt. induction l as [|[i k] l IH]; [done|].
  cbn [fmap list_fmap]. rewrite !list.filter_cons. cbn [fst snd].
  destruct (decide (covers _ _)) as [H1|H1]; rewrite (covers_blk i k x Hx) in H1;
    destruct (decide (holds _ _)); cbn; by rewrite ?IH.
Qed.

(** *** Histories *)

Lemma index_whole : sizeToIndex MIN_K (ub_size whole) = top.
Proof using Hk Hw.
  rewrite (proj1 Hw), <- (sizeToIndex_bsize MIN_K top). f_equal. unfold bsize. f_equal. lia.
Qed.

Lemma seed_seeded : seed MIN_K MAX_K whole = Val (reps (seeded top)).
Proof using Hk Hw.
  unfold seed. rewrite index_whole. unfold kNumBuckets.
  destruct (Nat.leb_spec (top + 1) top); [lia|]. f_equal.
  unfold seeded. rewrite <- reps_push. f_equal.
  - destruct Hw as (Hs & _). unfold blk. destruct whole. cbn in *. f_equal; [|lia].
    rewrite Hs. unfold bsize. f_equal. lia.
  - unfold empty_lists, reps, kNumBuckets. rewrite Nat.add_1_r.
    apply list_eq. intros i. rewrite list_lookup_imap. destruct (decide (i < S top)%nat).
    + by rewrite !lookup_replicate_2 by done.
    + by rewrite !lookup_ge_None_2 by (rewrite length_replicate; lia).
Qed.

Lemma history_inv fl live :
  history MIN_K MAX_K whole fl live ->
  exists afl alive, fl = reps afl /\ live = tree <$> alive /\ buddy_inv top afl alive.
Proof using Hk Hw.
  induction 1 as [fl Hs|fl live size b fl' _ (afl & alive & -> & -> & Hinv) Ha|
                  fl l1 b l2 fl' _ (afl & alive & -> & Hl & Hinv) Hd].
  - rewrite seed_seeded in Hs. injection Hs as <-. exists (seeded top), [].
    split_and!; [done|done|apply seed_inv].
  - rewrite allocate_reps in Ha by (apply Hinv || by eapply inv_valid).
    destruct (Nat.ltb_spec top (sizeToIndex MIN_K size)) as [|Hi]; [done|].
    pose proof (aalloc_inv _ afl alive Hi Hinv) as Hal.
    destruct (aalloc _ _) as [[k afl']|]; [|done]. injection Ha as <- <-.
    destruct Hal as [Hal _]. by exists afl', ((sizeToIndex MIN_K size, k) :: alive).
  - symmetry in Hl. apply fmap_app_inv in Hl as (a1 & a2 & -> & Hl & ->).
    symmetry in Hl. apply fmap_cons_inv in Hl as ([i k] & a2' & -> & -> & ->).
    assert (Hv : valid top (i, k)).
    { destruct Hinv as [_ [Hv _] _]. rewrite !Forall_app, Forall_cons_iff in Hv. tauto. }
    cbn [fst snd] in Hd. rewrite deallocate_reps in Hd by (apply Hinv || done || by eapply inv_valid).
    injection Hd as <-. exists (afree top i k afl), (a1 ++ a2'). split; [done|].
    split; [by rewrite fmap_app|]. eapply afree_inv; [|exact Hinv]. symmetry. apply Permutation_middle.
Qed.

(** A block of the tree is a slice of the whole, of the size of its bucket
    and aligned to it. *)
Lemma tree_regular b : valid top b -> regular MIN_K whole (tree b).
Proof using Hk Hw.
  destruct b as [i k]. intros Hv. pose proof (valid_end i k Hv) as He. destruct Hv as [Hi Hv].
  cbn [fst snd] in *. split; [done|]. exists i, k. cbn. rewrite (proj1 Hw). repeat split; lia.
Qed.

Lemma regular_tree b :
  regular MIN_K whole b -> exists i k, valid top (i, k) /\ b = blk i k.
Proof using Hk Hw.
  intros (Hb & i & k & Hs & H0 & Ho & He). rewrite (proj1 Hw), Hs, Ho in He. exists i, k.
  pose proof (bsize_pos MIN_K i) as Hp. assert (Hi : (i <= top)%nat).
  { enough (Z.of_nat (MIN_K + i) <= Z.of_nat MAX_K) by lia.
    apply (Z.pow_le_mono_r_iff 2); [lia|lia|]. fold (bsize i). nia. }
  rewrite (bsize_top i Hi) in He. split.
  - split; [done|]. cbn. nia.
  - destruct b. unfold blk. cbn in *. by subst.
Qed.

Lemma tree_meets afl alive b b' :
  buddy_inv top afl (b :: alive) -> b' ∈ alive -> ~ meets (tree b) (tree b').
Proof using Hk Hw.
  intros Hinv Hin [H1 H2]. destruct b as [i k], b' as [j m]. cbn in H1, H2.
  destruct (bi_tiles _ _ _ Hinv) as [Hv _]. rewrite Forall_app, Forall_cons_iff in Hv.
  destruct Hv as (_ & Hb & Hv). rewrite Forall_forall in Hv.
  specialize (Hv _ (proj1 (list_elem_of_In _ _) Hin)).
  apply valid_end in Hb as He, Hv as He'.
  pose proof (bsize_pos MIN_K i). pose proof (bsize_pos MIN_K j).
  set (x := Z.max (k * bsize i) (m * bsize j)).
  assert (Hx : 0 <= x < 2 ^ Z.of_nat MAX_K) by lia.
  apply (tiles_apart top (((i, k)) :: alive) afl Hinv (x / 2 ^ Z.of_nat MIN_K) (i, k) (j, m)
           (flat 0 afl ++ alive)).
  - symmetry. apply Permutation_middle.
  - apply elem_of_app. by right.
  - by apply cell_range.
  - apply (covers_blk i k x Hx). unfold covers. cbn. lia.
  - apply (covers_blk j m x Hx). unfold covers. cbn. lia.
Qed.

(** A block of the right size that meets no live block is inside a free one. *)
Lemma unmet_free afl alive i k :
  buddy_inv top afl alive -> valid top (i, k) ->
  (forall b, b ∈ alive -> ~ meets (blk i k) (tree b)) ->
  exists j, (i <= j <= top)%nat /\ afl !!! j <> [].
Proof using Hk Hw.
  intros Hinv Hv Hm. destruct (free_run top alive afl Hinv i k Hv) as (j & Hj & Hin).
  - intros c [j m] Hc Hin Hc'. apply (Hm _ Hin). unfold meets. cbn.
    assert (Hp : 0 < 2 ^ Z.of_nat MIN_K) by (apply Z.pow_pos_nonneg; lia).
    pose proof (valid_end i k Hv) as He.
    assert (Hin_i : forall n q, holds c (n, q) -> q * bsize n <= c * 2 ^ Z.of_nat MIN_K < (q + 1) * bsize n).
    { intros n q <-. cbn. unfold bsize. rewrite Nat2Z.inj_add, Z.pow_add_r by lia.
      assert (Hn : 0 < 2 ^ Z.of_nat n) by (apply Z.pow_pos_nonneg; lia).
      pose proof (Z.div_mod c (2 ^ Z.of_nat n) ltac:(lia)).
      pose proof (Z.mod_pos_bound c (2 ^ Z.of_nat n) Hn). nia. }
    apply Hin_i in Hc, Hc'. lia.
  - exists j. split; [done|]. intros E. rewrite E in Hin. by apply not_elem_of_nil in Hin.
Qed.
End ok.
End refine.

(** ** What a superblock promises to its users

    [sb_reach whole fl live] says that the free lists [fl] are those of the
    superblock [whole] with the blocks [live] outstanding, in any order. *)

Class Superblock (MIN_K MAX_K : nat) := {
  sb_reach : UntypedBuffer -> freeList -> list UntypedBuffer -> Prop;
  sb_perm whole fl live live' : live ≡ₚ live' -> sb_reach whole fl live -> sb_reach whole fl live';
  sb_seed whole : whole_ok MAX_K whole -> exists fl, seed MIN_K MAX_K whole = Val fl /\ sb_reach whole fl [];
  sb_alloc whole fl live size b fl' :
    sb_reach whole fl live -> allocate MIN_K MAX_K size fl = Val (b, fl') ->
    sb_reach whole fl' (b :: live) /\ regular MIN_K whole b /\ size <= ub_size b /\
    (forall i, size <= bsize MIN_K i -> ub_size b <= bsize MIN_K i);
  sb_alloc_exn fl size e : allocate MIN_K MAX_K size fl = Exn e -> e = BadAlloc;
  sb_alloc_fresh whole fl size :
    sb_reach whole fl [] -> size <= 2 ^ Z.of_nat MAX_K ->
    exists b fl', allocate MIN_K MAX_K size fl = Val (b, fl');
  sb_free whole fl b live :
    sb_reach whole fl (b :: live) ->
    exists fl', deallocate MIN_K MAX_K whole b fl = Val fl' /\ sb_reach whole fl' live;
  sb_isFree whole fl live : sb_reach whole fl live -> (isFree MIN_K whole fl = true <-> live = []);
  sb_regular whole fl b live : sb_reach whole fl (b :: live) -> regular MIN_K whole b;
  sb_apart whole fl b b' live : sb_reach whole fl (b :: b' :: live) -> ~ meets b b'
}.

Section promise.
Context (MIN_K MAX_K : nat) (Hk : (MIN_K <= MAX_K <= 63)%nat).

Abbreviation top := (MAX_K - MIN_K)%nat.
Abbreviation tree whole := (fun b : block => blk MIN_K whole b.1 b.2).

Definition reach (whole : UntypedBuffer) (fl : freeList) (live : list UntypedBuffer) : Prop :=
  whole_ok MAX_K whole /\ exists afl alive, fl = reps MIN_K whole afl /\ live = tree whole <$> alive /\
    buddy_inv top afl alive.

Lemma inv_perm afl alive alive' : alive ≡ₚ alive' -> buddy_inv top afl alive -> buddy_inv top afl alive'.
Proof. intros E [Hl Ht Hu]. split; [done| |done]. eapply tiles_perm; [|exact Ht]. by rewrite E. Qed.

Lemma inv_live_valid afl b alive : buddy_inv top afl (b :: alive) -> valid top b.
Proof. intros [_ [Hv _] _]. rewrite Forall_app, Forall_cons_iff in Hv. apply Hv. Qed.

Lemma reach_perm whole fl live live' : live ≡ₚ live' -> reach whole fl live -> reach whole fl live'.
Proof.
  intros E (Hw & afl & alive & -> & -> & Hinv). split; [done|]. symmetry in E.
  apply Permutation_map_inv in E as (alive' & -> & E).
  exists afl, alive'. split_and!; [done..|]. by eapply inv_perm.
Qed.

Lemma reach_alloc whole fl live size :
  reach whole fl live ->
  match allocate MIN_K MAX_K size fl with
  | Val (b, fl') =>
      reach whole fl' (b :: live) /\ regular MIN_K whole b /\ size <= ub_size b /\
      (forall i, size <= bsize MIN_K i -> ub_size b <= bsize MIN_K i)
  | Exn _ => size <= 2 ^ Z.of_nat MAX_K -> live <> []
  end.
Proof using Hk.
  intros (Hw & afl & alive & -> & -> & Hinv).
  rewrite (allocate_reps MIN_K MAX_K Hk whole Hw) by (apply Hinv || by eapply inv_valid).
  destruct (Nat.ltb_spec top (sizeToIndex MIN_K size)) as [Hi|Hi].
  { intros Hs. exfalso. replace (2 ^ Z.of_nat MAX_K) with (bsize MIN_K top) in Hs
      by (unfold bsize; f_equal; lia). apply sizeToIndex_le in Hs. lia. }
  pose proof (aalloc_inv MIN_K MAX_K Hk _ afl alive Hi Hinv) as Ha.
  destruct (aalloc _ _ _ _) as [[k afl']|].
  - destruct Ha as [Ha _]. split_and!.
    + split; [done|]. by exists afl', ((sizeToIndex MIN_K size, k) :: alive).
    + apply (tree_regular MIN_K MAX_K Hk whole Hw (_, k)). by eapply inv_live_valid.
    + by apply sizeToIndex_le.
    + intros i Hs. apply sizeToIndex_le in Hs. apply Z.pow_le_mono_r; lia.
  - intros _ He. apply fmap_nil_inv in He. rewrite (all_merged top alive afl Hinv He) in Ha.
    specialize (Ha top ltac:(lia)). unfold seeded in Ha.
    rewrite push_lookup, decide_True in Ha by (rewrite ?length_replicate; done || lia).
    by destruct (replicate _ _ !!! _).
Qed.

Lemma reach_free whole fl b live :
  reach whole fl (b :: live) ->
  exists fl', deallocate MIN_K MAX_K whole b fl = Val fl' /\ reach whole fl' live.
Proof using Hk.
  intros (Hw & afl & alive & -> & Hl & Hinv). symmetry in Hl.
  apply fmap_cons_inv in Hl as ([i k] & alive' & -> & -> & ->).
  exists (reps MIN_K whole (afree top i k afl)). split.
  - apply (deallocate_reps MIN_K MAX_K Hk whole Hw); [apply Hinv| |by eapply inv_valid].
    by eapply inv_live_valid.
  - split; [done|]. exists (afree top i k afl), alive'. split_and!; [done..|].
    by apply (afree_inv MIN_K MAX_K Hk i k afl ((i, k) :: alive')).
Qed.

Lemma reach_isFree whole fl live :
  reach whole fl live -> (isFree MIN_K whole fl = true <-> live = []).
Proof using Hk.
  intros (Hw & afl & alive & -> & -> & Hinv). unfold isFree.
  rewrite (index_whole MIN_K MAX_K Hk whole Hw), reps_lookup, length_fmap, Nat.eqb_eq. split.
  - intros Hl. destruct (afl !!! top) as [|x [|]] eqn:E; try done.
    rewrite (whole_free _ _ _ Hinv x); [done|]. rewrite E. by left.
  - intros He. apply fmap_nil_inv in He. rewrite (all_merged top alive afl Hinv He).
    unfold seeded. rewrite push_lookup, decide_True by (rewrite ?length_replicate; done || lia).
    by rewrite lookup_total_replicate_2 by lia.
Qed.

Lemma allocate_exn fl size e : allocate MIN_K MAX_K size fl = Exn e -> e = BadAlloc.
Proof.
  unfold allocate. destruct (_ <=? _)%nat; [congruence|]. destruct (scan _ _ _); [|congruence].
  destruct (list.last _); congruence.
Qed.

(** The buddy superblock keeps the promises. *)
Definition buddy_superblock : Superblock MIN_K MAX_K.
Proof using Hk.
  refine {| sb_reach := reach; sb_perm := reach_perm; sb_free := reach_free;
            sb_isFree := reach_isFree; sb_alloc_exn := allocate_exn |}.
  - intros whole Hw. exists (reps MIN_K whole (seeded top)).
    split; [by apply seed_seeded|]. split; [done|]. exists (seeded top), [].
    split_and!; [done..|apply seed_inv].
  - intros whole fl live size b fl' Hr E. apply (reach_alloc _ _ _ size) in Hr. by rewrite E in Hr.
  - intros whole fl size Hr Hs. apply (reach_alloc _ _ _ size) in Hr.
    destruct (allocate _ _ _ _) as [[b fl']|]; [by eauto|]. by destruct (Hr Hs).
  - intros whole fl b live (Hw & afl & alive & -> & Hl & Hinv). symmetry in Hl.
    apply fmap_cons_inv in Hl as (b0 & alive' & -> & _ & ->).
    apply (tree_regular MIN_K MAX_K Hk whole Hw b0). by eapply inv_live_valid.
  - intros whole fl b b' live (Hw & afl & alive & -> & Hl & Hinv). symmetry in Hl.
    apply fmap_cons_inv in Hl as (b0 & l0 & -> & Hl & ->). symmetry in Hl.
    apply fmap_cons_inv in Hl as (b1 & l1 & -> & _ & ->).
    apply (tree_meets MIN_K MAX_K Hk whole Hw afl (b1 :: l1)); [done|by left].
Defined.
End promise.

(** ** Properties of the superblock *)

Section properties.
Context (MIN_K MAX_K : nat) (Hk : (MIN_K <= MAX_K <= 63)%nat).
Context (whole : UntypedBuffer) (Hw : whole_ok MAX_K whole).
Context (fl : freeList) (live : list UntypedBuffer) (Hh : history MIN_K MAX_K whole fl live).

(** C32: After any sequence of allocations and releases every byte of the
    superblock is in exactly one free or outstanding block, and every block
    is an aligned slice of the superblock with the size of its bucket. *)
Theorem buddy_partition :
  (forall x, covers x whole -> length (filter (covers x) (concat fl ++ live)) = 1%nat) /\
  Forall (regular MIN_K whole) (concat fl ++ live).
Proof using Hk Hw Hh.
  destruct (history_inv MIN_K MAX_K Hk whole Hw fl live Hh) as (afl & alive & -> & -> & Hinv).
  rewrite (concat_reps MIN_K MAX_K Hk), <- fmap_app. split.
  - intros x [Hx Hx']. rewrite (proj1 Hw) in Hx'.
    replace x with (ub_offset whole + (x - ub_offset whole)) by lia.
    rewrite (length_filter_covers MIN_K MAX_K Hk) by lia.
    apply (proj2 (bi_tiles _ _ _ Hinv)), (cell_range MIN_K MAX_K Hk). lia.
  - apply Forall_fmap. eapply Forall_impl; [|apply (bi_tiles _ _ _ Hinv)].
    intros b Hb. by apply (tree_regular MIN_K MAX_K Hk whole Hw).
Qed.

(** [allocate] hands out the smallest block size that fits the request,
    disjoint from every outstanding block, and releasing the block at once
    restores the superblock exactly; it fails only with [bad_alloc], and only
    when every aligned block of a sufficient size meets an outstanding one. *)
Theorem buddy_allocate_exact size :
  match allocate MIN_K MAX_K size fl with
  | Val (b, fl') =>
      size <= ub_size b /\ (forall i, size <= bsize MIN_K i -> ub_size b <= bsize MIN_K i) /\
      regular MIN_K whole b /\ (forall b', b' ∈ live -> ~ meets b b') /\
      deallocate MIN_K MAX_K whole b fl' = Val fl
  | Exn e =>
      e = BadAlloc /\ forall b, regular MIN_K whole b -> size <= ub_size b ->
        exists b', b' ∈ live /\ meets b b'
  end.
Proof using Hk Hw Hh.
  destruct (history_inv MIN_K MAX_K Hk whole Hw fl live Hh) as (afl & alive & -> & -> & Hinv).
  pose proof (inv_valid MIN_K MAX_K afl alive Hinv) as Hv.
  rewrite (allocate_reps MIN_K MAX_K Hk whole Hw) by (done || apply Hinv).
  set (idx := sizeToIndex MIN_K size). set (top := (MAX_K - MIN_K)%nat) in *.
  assert (Hidx : forall b, regular MIN_K whole b -> size <= ub_size b ->
    exists i k, valid top (i, k) /\ b = blk MIN_K whole i k /\ (idx <= i <= top)%nat).
  { intros b Hb Hs. destruct (regular_tree MIN_K MAX_K Hk whole Hw b Hb) as (i & k & Hik & ->).
    exists i, k. split_and!; [done|done|by apply sizeToIndex_le|apply Hik]. }
  pose proof (aalloc_inv MIN_K MAX_K Hk idx afl alive) as Ha.
  destruct (Nat.ltb_spec top idx) as [Hi|Hi]; [|specialize (Ha Hi Hinv);
    destruct (aalloc MIN_K MAX_K idx afl) as [[k afl']|]].
  - split; [done|]. intros b Hb Hs. destruct (Hidx b Hb Hs) as (i & k & _ & _ & Hik). lia.
  - destruct Ha as [Ha Hback].
    assert (Hik : valid top (idx, k)).
    { destruct (bi_tiles _ _ _ Ha) as [Hv' _]. rewrite Forall_app, Forall_cons_iff in Hv'. tauto. }
    split_and!.
    + by apply sizeToIndex_le.
    + intros i Hs. apply sizeToIndex_le in Hs. apply Z.pow_le_mono_r; lia.
    + by apply (tree_regular MIN_K MAX_K Hk whole Hw (idx, k)).
    + intros b' (b & -> & Hb)%list_elem_of_fmap.
      by apply (tree_meets MIN_K MAX_K Hk whole Hw afl' alive (idx, k) b).
    + rewrite (deallocate_reps MIN_K MAX_K Hk whole Hw), Hback; [done|apply Ha|done|].
      by eapply inv_valid.
  - split; [done|]. intros b Hb Hs. destruct (Hidx b Hb Hs) as (i & k & Hik & -> & Hi').
    destruct (decide (Exists (meets (blk MIN_K whole i k)) ((fun b => blk MIN_K whole b.1 b.2) <$> alive)))
      as [Hex|Hex]; [by apply list.Exists_exists in Hex|]. exfalso.
    destruct (unmet_free MIN_K MAX_K Hk whole Hw afl alive i k Hinv Hik) as (j & Hj & Hne).
    + intros b Hb' Hm. apply Hex, list.Exists_exists. eexists. split; [|exact Hm].
      apply list_elem_of_fmap. by exists b.
    + apply Hne, Ha. lia.
Qed.

(** An outstanding block can always be released; once all are released
    the superblock is exactly as it was seeded, its blocks merged again, and
    [isFree] says so, and only then. *)
Theorem buddy_release :
  (forall b, b ∈ live -> exists fl', deallocate MIN_K MAX_K whole b fl = Val fl') /\
  (live = [] -> seed MIN_K MAX_K whole = Val fl) /\
  (isFree MIN_K whole fl = true <-> live = []).
Proof using Hk Hw Hh.
  pose proof (history_inv MIN_K MAX_K Hk whole Hw fl live Hh) as Hinv.
  assert (Hr : reach MIN_K MAX_K whole fl live) by done. split_and!.
  - intros b [live' E]%elem_of_Permutation. apply (reach_perm _ _ _ _ _ _ E) in Hr.
    destruct (reach_free MIN_K MAX_K Hk _ _ _ _ Hr) as (fl' & Hd & _). by exists fl'.
  - destruct Hinv as (afl & alive & -> & -> & Hinv). intros He%fmap_nil_inv.
    rewrite (all_merged _ alive afl Hinv He). by apply seed_seeded.
  - by apply (reach_isFree MIN_K MAX_K Hk).
Qed.
End properties.

(** ** Examples *)

Definition bank : backing :=
  {| bk_physAddr := 2 ^ 42; bk_size := 2 ^ 26; bk_allocType := 0; bk_allocDir := 0; bk_allocArg := 0 |}.

(** The second 2 MB block of a 64 MB device buffer, as a superblock. *)
Definition second_2mb : UntypedBuffer :=
  {| ub_backing := bank; ub_size := 2 ^ 21; ub_offset := 2 ^ 21 |}.

Definition val_or {E A} (d : A) (x : except E A) : A := match x with Val a => a | Exn _ => d end.

Definition seeded_2mb : freeList := val_or [] (seed 12 21 second_2mb).
Definition split_2mb : UntypedBuffer * freeList := val_or (second_2mb, []) (allocate 12 21 5000 seeded_2mb).

Lemma history_2mb : history 12 21 second_2mb split_2mb.2 [split_2mb.1].
Proof.
  eapply (history_alloc _ _ _ seeded_2mb [] 5000); [by apply history_seed|]. by vm_compute.
Qed.

Lemma second_2mb_ok : whole_ok 21 second_2mb.
Proof. by split_and!. Qed.

(** The ownership test of [deallocate] is defeated by wrap-around: the
    4 KB block that ends where the superblock begins, which belongs to another
    one, is accepted, and the next request is served with it. *)
Theorem buddy_foreign_accepted :
  let neighbour := {| ub_backing := bank; ub_size := 4096; ub_offset := 2 ^ 21 - 4096 |} in
  ~ meets neighbour second_2mb /\
  exists fl fl', deallocate 12 21 second_2mb neighbour seeded_2mb = Val fl /\
    allocate 12 21 4096 fl = Val (neighbour, fl').
Proof.
  intros neighbour. split; [unfold meets; cbn; lia|].
  set (fl := val_or [] (deallocate 12 21 second_2mb neighbour seeded_2mb)).
  exists fl, (val_or (neighbour, []) (allocate 12 21 4096 fl)).2.
  split; vm_compute; reflexivity.
Qed.

Lemma buddy_partition_witness :
  length (filter (covers (2 ^ 21 + 8192)) (concat split_2mb.2 ++ [split_2mb.1])) = 1%nat.
Proof.
  apply (buddy_partition 12 21 ltac:(lia) second_2mb second_2mb_ok _ _ history_2mb).
  unfold covers. cbn. lia.
Defined.

Lemma buddy_allocate_exact_witness :
  exists b fl', allocate 12 21 5000 split_2mb.2 = Val (b, fl') /\ ub_offset b = 2 ^ 21 + 8192 /\
    deallocate 12 21 second_2mb b fl' = Val split_2mb.2.
Proof.
  pose proof (buddy_allocate_exact 12 21 ltac:(lia) second_2mb second_2mb_ok _ _ history_2mb 5000) as Ha.
  destruct (allocate 12 21 5000 split_2mb.2) as [[b fl']|e] eqn:E; [|by vm_compute in E].
  exists b, fl'. split; [done|]. split; [|apply Ha].
  change b with (val_or (second_2mb, []) (Val (b, fl') : except buddy_exn _)).1. rewrite <- E.
  by vm_compute.
Defined.

Lemma buddy_release_witness :
  (exists fl', deallocate 12 21 second_2mb split_2mb.1 split_2mb.2 = Val fl') /\
  isFree 12 second_2mb split_2mb.2 = false.
Proof.
  destruct (buddy_release 12 21 ltac:(lia) second_2mb second_2mb_ok _ _ history_2mb) as (Hd & _ & Hf).
  split; [apply Hd; by left|]. destruct (isFree _ _ _); [|done]. by specialize (proj1 Hf eq_refl).
Defined.
