(* ===== verification/BufferAllocator.v ===== *)
(** * The VRT buffer allocator

    Models the block classes and [Allocator] of
    vrt/src/allocator/allocator.cpp: requests above 64 MB get a device buffer
    of their own, requests above 2 MB a block of a 64 MB superblock, smaller
    ones a block of a 2 MB superblock that is itself a block of a 64 MB one.
    A pointer to a superblock is its identifier; following one that is not in
    the allocator is undefined behaviour, a throwing destructor terminates the
    program and a superblock destroyed with blocks outstanding aborts it.
    [vrtd::Device::openBuffer] is an argument of the calls.

    The theorems are proved against the promises of [Buddy.Superblock]:
    outstanding blocks never share device memory and serve their requests,
    nothing but a device error is ever thrown, no release aborts or follows a
    dangling pointer, and once all blocks are released no superblock is kept. *)

From S2P Require Import Prelude Except Buddy.

(** ** State *)

(** [LargeBlockSuperblock] ([sb_parent] is [None]) and
    [MediumBlockSuperblock] (its [backingBlockSuperblock]). *)
Record superblock := {
  sb_id : nat; sb_parent : option nat; sb_whole : UntypedBuffer; sb_freeList : freeList
}.

Definition set_free (fl : freeList) (sb : superblock) : superblock :=
  {| sb_id := sb_id sb; sb_parent := sb_parent sb; sb_whole := sb_whole sb; sb_freeList := fl |}.

Record allocator := {
  largeBlockSuperblocks : list superblock;
  mediumBlockSuperblocks : list superblock;
  next_id : nat
}.

Definition new_allocator : allocator :=
  {| largeBlockSuperblocks := []; mediumBlockSuperblocks := []; next_id := 0 |}.

Inductive Block :=
  | LargeBlock (untypedBuffer : UntypedBuffer)
  | MediumBlock (backing : nat) (untypedBuffer : UntypedBuffer)
  | SmallBlock (backing : nat) (untypedBuffer : UntypedBuffer).

Definition getUntypedBuffer (b : Block) : UntypedBuffer :=
  match b with LargeBlock u | MediumBlock _ u | SmallBlock _ u => u end.

Inductive alloc_exn :=
  | Thrown (e : buddy_exn)
  | DeviceError
  | Aborted
  | Terminated.

Abbreviation AM := (EM alloc_exn allocator).

(** ** Superblocks *)

Definition LARGE_MIN : nat := 21.
Definition LARGE_MAX : nat := 26.
Definition MEDIUM_MIN : nat := 12.
Definition MEDIUM_MAX : nat := 21.

Definition LARGE_MAX_SIZE : Z := 2 ^ Z.of_nat LARGE_MAX.
Definition MEDIUM_MAX_SIZE : Z := 2 ^ Z.of_nat MEDIUM_MAX.

Inductive level := Large | Medium.

Definition superblocks (lv : level) (st : allocator) : list superblock :=
  match lv with Large => largeBlockSuperblocks st | Medium => mediumBlockSuperblocks st end.

Definition set_superblocks (lv : level) (l : list superblock) (st : allocator) : allocator :=
  match lv with
  | Large => {| largeBlockSuperblocks := l; mediumBlockSuperblocks := mediumBlockSuperblocks st;
                next_id := next_id st |}
  | Medium => {| largeBlockSuperblocks := largeBlockSuperblocks st; mediumBlockSuperblocks := l;
                 next_id := next_id st |}
  end.

Definition min_k (lv : level) : nat := match lv with Large => LARGE_MIN | Medium => MEDIUM_MIN end.
Definition max_k (lv : level) : nat := match lv with Large => LARGE_MAX | Medium => MEDIUM_MAX end.

Definition lookup_sb (id : nat) (l : list superblock) : option superblock :=
  snd <$> list_find (fun sb => sb_id sb = id) l.

Definition update_sb (id : nat) (fl : freeList) (l : list superblock) : list superblock :=
  (fun sb => if decide (sb_id sb = id) then set_free fl sb else sb) <$> l.

(** Dereferencing a pointer to a superblock. *)
Definition deref (lv : level) (id : nat) : AM superblock :=
  l ← asks (superblocks lv);
  match lookup_sb id l with
  | Some sb => mret sb
  | None => undefined
  end.

(** [superblock->allocate(size)] *)
Definition superblock_allocate (lv : level) (id : nat) (size : Z) : AM UntypedBuffer :=
  sb ← deref lv id;
  match allocate (min_k lv) (max_k lv) size (sb_freeList sb) with
  | Exn e => throw (Thrown e)
  | Val (b, fl) => updates (fun st => set_superblocks lv (update_sb id fl (superblocks lv st)) st);; mret b
  end.

(** [superblock->deallocate(buffer)] *)
Definition superblock_deallocate (lv : level) (id : nat) (buffer : UntypedBuffer) : AM unit :=
  sb ← deref lv id;
  match deallocate (min_k lv) (max_k lv) (sb_whole sb) buffer (sb_freeList sb) with
  | Exn e => throw (Thrown e)
  | Val fl => updates (fun st => set_superblocks lv (update_sb id fl (superblocks lv st)) st)
  end.

(** [superblock->isFree()] *)
Definition superblock_isFree (lv : level) (sb : superblock) : bool :=
  isFree (min_k lv) (sb_whole sb) (sb_freeList sb).

Definition add_sb (lv : level) (id : nat) (parent : option nat) (whole : UntypedBuffer) (fl : freeList)
    (st : allocator) : allocator :=
  let sb := {| sb_id := id; sb_parent := parent; sb_whole := whole; sb_freeList := fl |} in
  let st' := set_superblocks lv (superblocks lv st ++ [sb]) st in
  {| largeBlockSuperblocks := largeBlockSuperblocks st';
     mediumBlockSuperblocks := mediumBlockSuperblocks st'; next_id := S id |}.

(** [make_unique] of a superblock over [whole] and [emplace_back] of it. *)
Definition emplace (lv : level) (parent : option nat) (whole : UntypedBuffer) : AM nat :=
  match seed (min_k lv) (max_k lv) whole with
  | Exn e => throw (Thrown e)
  | Val fl => id ← asks next_id; updates (add_sb lv id parent whole fl);; mret id
  end.

(** ** Requests *)

Definition Ddr : Z := 0.
Definition Hbm : Z := 1.
Definition HbmVnoc : Z := 2.
Definition NON_HBM : Z := UINT64_MAX.

Definition getHBMRegion (b : UntypedBuffer) : Z :=
  if negb (bk_allocType (ub_backing b) =? Hbm) then NON_HBM else bk_allocArg (ub_backing b).

Definition matchesAllocation (b : UntypedBuffer) (type dir region : Z) : bool :=
  if negb (bk_allocType (ub_backing b) =? type) || negb (bk_allocDir (ub_backing b) =? dir) then false
  else if type =? Hbm then getHBMRegion b =? region
  else true.

(** A C++ destructor is [noexcept]: an exception that leaves it terminates. *)
Definition destructor (m : AM unit) : AM unit := fun st =>
  match m st with
  | Ret (Exn _) st' => Ret (Exn Terminated) st'
  | r => r
  end.

(** [try m catch (const std::bad_alloc&) k] *)
Definition catch_bad_alloc {A} (m k : AM A) : AM A := fun st =>
  match m st with
  | Ret (Exn (Thrown BadAlloc)) st' => k st'
  | r => r
  end.

(** ** The allocator *)

(** [for (auto& superblock : superblocks) { if (!matches) continue;
    try { return body(superblock); } catch (bad_alloc) { continue; } } rest] *)
Fixpoint first_fit (lv : level) (type dir region : Z) (body : nat -> AM Block) (rest : AM Block)
    (ids : list nat) : AM Block :=
  match ids with
  | [] => rest
  | id :: ids' =>
      sb ← deref lv id;
      if negb (matchesAllocation (sb_whole sb) type dir region) then
        first_fit lv type dir region body rest ids'
      else catch_bad_alloc (body id) (first_fit lv type dir region body rest ids')
  end.

Section device.
(** [device.openBuffer(type, size, arg, dir)], [None] when it throws. *)
Context (openBuffer : Z -> Z -> Z -> Z -> option backing).

Definition open_device (type dir size region : Z) : AM backing :=
  match openBuffer type size region dir with
  | Some bk => mret bk
  | None => throw DeviceError
  end.

Definition new_large (type dir region : Z) : AM nat :=
  bk ← open_device type dir LARGE_MAX_SIZE region;
  emplace Large None (whole_buffer bk LARGE_MAX_SIZE 0).

(** A 2 MB block of the large superblock [id], made a superblock, and the
    small block carved from it. *)
Definition small_from (size : Z) (id : nat) : AM Block :=
  backing ← superblock_allocate Large id MEDIUM_MAX_SIZE;
  mid ← emplace Medium (Some id) backing;
  b ← superblock_allocate Medium mid size;
  mret (SmallBlock mid b).

Definition medium_from (size : Z) (id : nat) : AM Block :=
  b ← superblock_allocate Large id size;
  mret (MediumBlock id b).

Definition Allocator_allocate (type dir size region : Z) : AM Block :=
  if LARGE_MAX_SIZE <? size then
    bk ← open_device type dir size region;
    mret (LargeBlock (whole_buffer bk size 0))
  else if MEDIUM_MAX_SIZE <? size then
    ids ← asks (fun st => sb_id <$> largeBlockSuperblocks st);
    first_fit Large type dir region (medium_from size)
      (id ← new_large type dir region; medium_from size id) ids
  else
    mids ← asks (fun st => sb_id <$> mediumBlockSuperblocks st);
    first_fit Medium type dir region
      (fun id => b ← superblock_allocate Medium id size; mret (SmallBlock id b))
      (lids ← asks (fun st => sb_id <$> largeBlockSuperblocks st);
       first_fit Large type dir region (small_from size)
         (id ← new_large type dir region; small_from size id) lids) mids.
End device.

(** [block.reset()]: the destructors of the block classes. *)
Definition reset_block (b : Block) : AM unit :=
  match b with
  | LargeBlock _ => mret tt
  | MediumBlock id u => destructor (superblock_deallocate Large id u)
  | SmallBlock id u => destructor (superblock_deallocate Medium id u)
  end.

(** [~LargeBlockSuperblock] and [~MediumBlockSuperblock], the latter with the
    destructor of its base class [MediumBlock]. *)
Definition destroy (lv : level) (sb : superblock) : AM unit :=
  throw_if (negb (superblock_isFree lv sb)) Aborted;;
  match sb_parent sb with
  | None => mret tt
  | Some id => destructor (superblock_deallocate Large id (sb_whole sb))
  end.

(** [erase(remove_if(..., isFree))]: the free superblocks are destroyed in
    order, the others kept. *)
Fixpoint erase_free (lv : level) (sbs : list superblock) : AM (list superblock) :=
  match sbs with
  | [] => mret []
  | sb :: sbs' =>
      if superblock_isFree lv sb then destroy lv sb;; erase_free lv sbs'
      else kept ← erase_free lv sbs'; mret (sb :: kept)
  end.

Definition Allocator_deallocate (block : Block) : AM unit :=
  reset_block block;;
  ms ← asks mediumBlockSuperblocks;
  kept ← erase_free Medium ms;
  updates (set_superblocks Medium kept);;
  ls ← asks largeBlockSuperblocks;
  kept ← erase_free Large ls;
  updates (set_superblocks Large kept).

(** [~Allocator]: the members are destroyed in reverse order. *)
Definition Allocator_destroy : AM unit :=
  ms ← asks mediumBlockSuperblocks;
  each ms (destroy Medium);;
  ls ← asks largeBlockSuperblocks;
  each ls (destroy Large).

(** ** Invariant *)

(** The superblock a block returns to, [None] for a device buffer of its own. *)
Definition holder (b : Block) : option (level * nat) :=
  match b with
  | LargeBlock _ => None
  | MediumBlock id _ => Some (Large, id)
  | SmallBlock id _ => Some (Medium, id)
  end.

#[export] Instance level_eq_dec : EqDecision level.
Proof. solve_decision. Defined.

Definition sub_of (id : nat) (sb : superblock) : option UntypedBuffer :=
  if decide (sb_parent sb = Some id) then Some (sb_whole sb) else None.

Definition block_of (lv : level) (id : nat) (b : Block) : option UntypedBuffer :=
  if decide (holder b = Some (lv, id)) then Some (getUntypedBuffer b) else None.

(** What is outstanding from the superblock [id]: the smaller superblocks made
    of its blocks and the blocks handed out. *)
Definition children (lv : level) (id : nat) (st : allocator) (bs : list Block) : list UntypedBuffer :=
  match lv with Large => omap (sub_of id) (mediumBlockSuperblocks st) | Medium => [] end ++
  omap (block_of lv id) bs.

(** A buffer that starts with a device buffer of the address space and does
    not reach beyond its end. *)
Definition dev_ok (u : UntypedBuffer) : Prop :=
  ub_offset u = 0 /\ 0 < ub_size u <= bk_size (ub_backing u) /\ 0 <= bk_physAddr (ub_backing u) /\
  bk_physAddr (ub_backing u) + bk_size (ub_backing u) <= 2 ^ 64.

Definition own_buffer (b : Block) : option UntypedBuffer :=
  match b with LargeBlock u => Some u | _ => None end.

(** The device buffers the allocator and its blocks hold open. *)
Definition devs (st : allocator) (bs : list Block) : list UntypedBuffer :=
  (sb_whole <$> largeBlockSuperblocks st) ++ omap own_buffer bs.

(** No byte of device memory is in both. *)
Definition phys_apart (u v : UntypedBuffer) : Prop :=
  getPhysAddr u + ub_size u <= getPhysAddr v \/ getPhysAddr v + ub_size v <= getPhysAddr u.

#[export] Instance phys_apart_sym : Symmetric phys_apart.
Proof. intros u v [H|H]; [right|left]; done. Qed.

Definition placed (lv : level) (st : allocator) (sb : superblock) : Prop :=
  match lv with
  | Large => sb_parent sb = None /\ dev_ok (sb_whole sb)
  | Medium => exists p, sb_parent sb = Some p /\ p ∈ sb_id <$> largeBlockSuperblocks st
  end.

Lemma fop_perm {A} (R : A -> A -> Prop) `{!Symmetric R} l l' :
  l ≡ₚ l' -> ForallOrdPairs R l -> ForallOrdPairs R l'.
Proof.
  induction 1 as [|x l l' E IH|x y l|l1 l2 l3 _ IH1 _ IH2]; [done|..|by auto].
  - intros Hf. inversion Hf as [|? ? Hx Hl]; subst. constructor; [by rewrite <- E|by apply IH].
  - intros Hf. inversion Hf as [|? ? Hx Hl]; subst. inversion Hl as [|? ? Hy Hl']; subst.
    apply Forall_cons_iff in Hx as [Hxy Hx]. constructor; [|by constructor].
    constructor; [by symmetry|done].
Qed.

Lemma fop_app_r {A} (R : A -> A -> Prop) l l' : ForallOrdPairs R (l ++ l') -> ForallOrdPairs R l'.
Proof. induction l as [|x l IH]; [done|]. intros Hf. inversion Hf; subst. by apply IH. Qed.

Lemma omap_perm {A B} (f : A -> option B) l l' : l ≡ₚ l' -> omap f l ≡ₚ omap f l'.
Proof.
  induction 1 as [|x l l' E IH|x y l|l1 l2 l3 _ IH1 _ IH2]; cbn; [done|..|by etrans].
  - destruct (f x); by rewrite IH.
  - destruct (f x), (f y); try done. apply perm_swap.
Qed.

Lemma omap_fmap_same {A B} (f : A -> option B) (g : A -> A) (l : list A) :
  (forall x, f (g x) = f x) -> omap f (g <$> l) = omap f l.
Proof. intros Hg. induction l as [|x l IH]; cbn; [done|]. by rewrite Hg, IH. Qed.

Section core.
Context (SB : forall lv, Superblock (min_k lv) (max_k lv)).

Definition reached (lv : level) (sb : superblock) (live : list UntypedBuffer) : Prop :=
  @sb_reach _ _ (SB lv) (sb_whole sb) (sb_freeList sb) live.

Record Core (st : allocator) (bs : list Block) : Prop := {
  co_ids lv : NoDup (sb_id <$> superblocks lv st);
  co_next lv sb : sb ∈ superblocks lv st -> (sb_id sb < next_id st)%nat;
  co_size lv sb : sb ∈ superblocks lv st -> ub_size (sb_whole sb) = 2 ^ Z.of_nat (max_k lv);
  co_placed lv sb : sb ∈ superblocks lv st -> placed lv st sb;
  co_reach lv sb : sb ∈ superblocks lv st -> reached lv sb (children lv (sb_id sb) st bs);
  co_blocks b : b ∈ bs ->
    match holder b with
    | Some (lv, id) => id ∈ sb_id <$> superblocks lv st
    | None => dev_ok (getUntypedBuffer b)
    end;
  co_devs : ForallOrdPairs phys_apart (devs st bs)
}.

Lemma children_perm lv id st bs bs' : bs ≡ₚ bs' -> children lv id st bs ≡ₚ children lv id st bs'.
Proof. intros E. unfold children. by rewrite (omap_perm _ _ _ E). Qed.

Lemma core_perm st bs bs' : bs ≡ₚ bs' -> Core st bs -> Core st bs'.
Proof.
  intros E [Hi Hn Hs Hp Hr Hb Hd]. split; try done.
  - intros lv sb Hsb. eapply (@sb_perm _ _ (SB lv)); [|by apply Hr]. by apply children_perm.
  - intros b Hin. apply Hb. by rewrite E.
  - apply (fop_perm phys_apart (devs st bs)); [|done]. unfold devs. by rewrite (omap_perm _ _ _ E).
Qed.

Lemma lookup_sb_elem id l : id ∈ sb_id <$> l -> exists sb, lookup_sb id l = Some sb.
Proof.
  intros (sb & -> & Hin)%list_elem_of_fmap. unfold lookup_sb.
  destruct (list_find _ l) as [[j x]|] eqn:E; [by exists x|].
  apply list_find_None in E. rewrite Forall_forall in E.
  by destruct (E _ (proj1 (list_elem_of_In _ _) Hin)).
Qed.

Lemma lookup_sb_Some id l sb : lookup_sb id l = Some sb -> sb ∈ l /\ sb_id sb = id.
Proof.
  unfold lookup_sb. destruct (list_find _ l) as [[j x]|] eqn:E; [|done]. intros [= ->].
  apply list_find_Some in E as (Hj & Hid & _). split; [by eapply list_elem_of_lookup_2|done].
Qed.

Lemma id_unique l sb sb' :
  NoDup (sb_id <$> l) -> sb ∈ l -> sb' ∈ l -> sb_id sb = sb_id sb' -> sb = sb'.
Proof.
  intros Hn Hs Hs' E. apply list_elem_of_lookup in Hs as [i Hi], Hs' as [j Hj].
  assert (i = j) as ->; [|congruence]. eapply (NoDup_lookup _ _ _ (sb_id sb)); [exact Hn|..];
    rewrite list_lookup_fmap; [by rewrite Hi|by rewrite Hj; cbn; rewrite E].
Qed.

(** *** One superblock changes *)

Definition set_fl (lv : level) (id : nat) (fl : freeList) (st : allocator) : allocator :=
  set_superblocks lv (update_sb id fl (superblocks lv st)) st.

Lemma update_sb_elem id fl l sb :
  sb ∈ update_sb id fl l ->
  exists sb0, sb0 ∈ l /\ sb = if decide (sb_id sb0 = id) then set_free fl sb0 else sb0.
Proof. intros (sb0 & -> & Hin)%list_elem_of_fmap. by exists sb0. Qed.

Lemma update_sb_same {A} (f : superblock -> A) id fl l :
  (forall sb, f (set_free fl sb) = f sb) -> f <$> update_sb id fl l = f <$> l.
Proof.
  intros Hf. unfold update_sb. rewrite <- list_fmap_compose. apply list_fmap_ext.
  intros _ sb _. unfold compose. by destruct (decide _).
Qed.

Lemma set_fl_fmap {A} (f : superblock -> A) lv' lv id fl st :
  (forall sb, f (set_free fl sb) = f sb) ->
  f <$> superblocks lv' (set_fl lv id fl st) = f <$> superblocks lv' st.
Proof. intros Hf. destruct lv, lv'; cbn; (done || by apply update_sb_same). Qed.

Lemma set_fl_children lv' id' lv id fl st bs :
  children lv' id' (set_fl lv id fl st) bs = children lv' id' st bs.
Proof.
  destruct lv', lv; try done. unfold children. cbn. f_equal.
  apply omap_fmap_same. intros sb. by destruct (decide _).
Qed.

Lemma set_fl_devs lv id fl st bs : devs (set_fl lv id fl st) bs = devs st bs.
Proof. unfold devs. f_equal. by apply (set_fl_fmap sb_whole Large). Qed.

Lemma set_fl_placed lv' sb lv id fl st : placed lv' st sb -> placed lv' (set_fl lv id fl st) sb.
Proof.
  destruct lv'; [done|]. intros (p & Hp & Hin). exists p. split; [done|].
  by rewrite (set_fl_fmap sb_id Large).
Qed.

Lemma set_fl_elem lv' lv id fl st sb :
  sb ∈ superblocks lv' (set_fl lv id fl st) ->
  exists sb0, sb0 ∈ superblocks lv' st /\
    sb = if decide (lv' = lv /\ sb_id sb0 = id) then set_free fl sb0 else sb0.
Proof.
  destruct (decide (lv' = lv)) as [->|Hne].
  - intros Hin. assert (Hin' : sb ∈ update_sb id fl (superblocks lv st)) by (by destruct lv).
    apply update_sb_elem in Hin' as (sb0 & Hin0 & ->). exists sb0. split; [done|].
    repeat destruct (decide _); tauto || done.
  - intros Hin. exists sb. rewrite decide_False by tauto. split; [|done]. by destruct lv, lv'.
Qed.

Lemma core_step lv id sb fl st bs bs' :
  Core st bs -> sb ∈ superblocks lv st -> sb_id sb = id ->
  @sb_reach _ _ (SB lv) (sb_whole sb) fl (children lv id st bs') ->
  (forall lv' id', (lv', id') <> (lv, id) -> children lv' id' st bs' = children lv' id' st bs) ->
  (forall b, b ∈ bs' -> b ∈ bs \/ holder b = Some (lv, id)) ->
  devs st bs' = devs st bs ->
  Core (set_fl lv id fl st) bs'.
Proof.
  intros [Hi Hn Hs Hp Hr Hb Hd] Hsb Hid Hreach Hch Hbs Hdevs. subst id. split.
  - intros lv'. by rewrite set_fl_fmap.
  - intros lv' x (x0 & Hx & ->)%set_fl_elem. replace (next_id _) with (next_id st) by (by destruct lv).
    specialize (Hn lv' x0 Hx). by destruct (decide _).
  - intros lv' x (x0 & Hx & ->)%set_fl_elem. specialize (Hs lv' x0 Hx). by destruct (decide _).
  - intros lv' x (x0 & Hx & ->)%set_fl_elem. apply set_fl_placed. specialize (Hp lv' x0 Hx).
    by destruct (decide _), lv'.
  - intros lv' x (x0 & Hx & ->)%set_fl_elem. rewrite set_fl_children.
    destruct (decide (lv' = lv /\ sb_id x0 = sb_id sb)) as [[-> E]|Hne].
    + assert (x0 = sb) as -> by (by eapply id_unique). done.
    + rewrite Hch by (intros [= -> E]; tauto). by apply Hr.
  - intros b Hin. destruct (Hbs b Hin) as [Hin'|E].
    + specialize (Hb b Hin'). destruct (holder b) as [[lv' id']|]; [|done]. by rewrite set_fl_fmap.
    + rewrite E, set_fl_fmap by done. by apply list_elem_of_fmap_2.
  - rewrite set_fl_devs, Hdevs. done.
Qed.

(** A block for what a superblock of level [lv] hands out. *)
Definition mk_block (lv : level) (id : nat) (u : UntypedBuffer) : Block :=
  match lv with Large => MediumBlock id u | Medium => SmallBlock id u end.

Lemma children_mk lv id u lv' id' st bs :
  children lv' id' st (mk_block lv id u :: bs) ≡ₚ
  if decide ((lv', id') = (lv, id)) then u :: children lv' id' st bs else children lv' id' st bs.
Proof.
  unfold children. assert (E : omap (block_of lv' id') (mk_block lv id u :: bs) =
    if decide ((lv', id') = (lv, id)) then u :: omap (block_of lv' id') bs else omap (block_of lv' id') bs).
  { cbn. unfold block_of at 1. replace (holder (mk_block lv id u)) with (Some (lv, id)) by (by destruct lv).
    destruct (decide (_ = _)) as [[= -> ->]|Hne].
    - rewrite decide_True by done. by destruct lv'.
    - by rewrite decide_False by congruence. }
  rewrite E. destruct (decide _); [|done]. symmetry. apply Permutation_middle.
Qed.

Lemma children_mk_ne lv id u lv' id' st bs :
  (lv', id') <> (lv, id) -> children lv' id' st (mk_block lv id u :: bs) = children lv' id' st bs.
Proof.
  intros Hne. unfold children. f_equal. cbn. unfold block_of at 1.
  rewrite decide_False; [done|]. destruct lv; cbn; congruence.
Qed.

Lemma devs_mk lv id u st bs : devs st (mk_block lv id u :: bs) = devs st bs.
Proof. by destruct lv. Qed.

Lemma core_alloc lv id sb size u fl st bs :
  Core st bs -> sb ∈ superblocks lv st -> sb_id sb = id ->
  allocate (min_k lv) (max_k lv) size (sb_freeList sb) = Val (u, fl) ->
  Core (set_fl lv id fl st) (mk_block lv id u :: bs) /\ regular (min_k lv) (sb_whole sb) u /\
  size <= ub_size u /\ (forall i, size <= bsize (min_k lv) i -> ub_size u <= bsize (min_k lv) i).
Proof.
  intros HC Hsb Hid Ha. pose proof (co_reach _ _ HC lv sb Hsb) as Hr.
  destruct (@sb_alloc _ _ (SB lv) _ _ _ _ _ _ Hr Ha) as (Hr' & Hrest). split; [|done].
  eapply core_step; [done|done|done| |..].
  - eapply (@sb_perm _ _ (SB lv)); [|exact Hr']. rewrite children_mk, decide_True, Hid; done.
  - intros lv' id' Hne. by apply children_mk_ne.
  - intros b [->|Hb]%elem_of_cons; [right; by destruct lv|by left].
  - apply devs_mk.
Qed.

Lemma core_free lv id u st bs :
  Core st (mk_block lv id u :: bs) ->
  exists sb fl, lookup_sb id (superblocks lv st) = Some sb /\
    deallocate (min_k lv) (max_k lv) (sb_whole sb) u (sb_freeList sb) = Val fl /\
    Core (set_fl lv id fl st) bs.
Proof.
  intros HC. assert (Hid : id ∈ sb_id <$> superblocks lv st).
  { pose proof (co_blocks _ _ HC (mk_block lv id u) ltac:(by left)) as Hb. by destruct lv. }
  apply lookup_sb_elem in Hid as [sb Hl]. apply lookup_sb_Some in Hl as Hsb. destruct Hsb as [Hsb <-].
  assert (Hr : reached lv sb (u :: children lv (sb_id sb) st bs)).
  { eapply (@sb_perm _ _ (SB lv)); [|by apply (co_reach _ _ HC)].
    by rewrite children_mk, decide_True. }
  destruct (@sb_free _ _ (SB lv) _ _ _ _ Hr) as (fl & Hd & Hr'). exists sb, fl. split_and!; [done..|].
  eapply core_step; [done|done|done|done|..].
  - intros lv' id' Hne. symmetry. by apply children_mk_ne.
  - intros b Hb. left. by right.
  - symmetry. apply devs_mk.
Qed.

(** *** A superblock is added *)

Lemma add_sb_elem lv id parent whole fl st lv' sb :
  sb ∈ superblocks lv' (add_sb lv id parent whole fl st) <->
  sb ∈ superblocks lv' st \/
  lv' = lv /\ sb = {| sb_id := id; sb_parent := parent; sb_whole := whole; sb_freeList := fl |}.
Proof.
  destruct lv, lv'; cbn; rewrite ?elem_of_app, ?list_elem_of_singleton; intuition congruence.
Qed.

(** Identifiers in use are below the next one, so nothing refers to it. *)
Lemma next_unused lv st bs : Core st bs -> omap (block_of lv (next_id st)) bs = [].
Proof.
  intros HC. apply elem_of_nil_inv. intros u (b & Hb & Hu)%list_elem_of_omap.
  pose proof (co_blocks _ _ HC b Hb) as Hh. unfold block_of in Hu.
  destruct (decide _) as [E|]; [|done]. rewrite E in Hh.
  apply list_elem_of_fmap in Hh as (sb & Hid & Hsb). pose proof (co_next _ _ HC lv sb Hsb). lia.
Qed.

Lemma next_no_sub st bs : Core st bs -> omap (sub_of (next_id st)) (mediumBlockSuperblocks st) = [].
Proof.
  intros HC. apply elem_of_nil_inv. intros u (m & Hm & Hu)%list_elem_of_omap.
  unfold sub_of in Hu. destruct (decide _) as [E|]; [|done].
  destruct (co_placed _ _ HC Medium m Hm) as (p & Hp & (l & -> & Hl)%list_elem_of_fmap).
  pose proof (co_next _ _ HC Large l Hl). rewrite Hp in E. injection E as E. lia.
Qed.

Lemma core_add lv parent whole fl st bs bs' :
  let st' := add_sb lv (next_id st) parent whole fl st in
  let sb := {| sb_id := next_id st; sb_parent := parent; sb_whole := whole; sb_freeList := fl |} in
  Core st bs -> ub_size whole = 2 ^ Z.of_nat (max_k lv) -> placed lv st sb ->
  @sb_reach _ _ (SB lv) whole fl (children lv (next_id st) st' bs') ->
  (forall lv' id', (id' < next_id st)%nat -> children lv' id' st' bs' ≡ₚ children lv' id' st bs) ->
  (forall b, b ∈ bs' -> b ∈ bs) -> ForallOrdPairs phys_apart (devs st' bs') ->
  Core st' bs'.
Proof.
  intros st' sb HC Hsize Hpl Hreach Hch Hbs Hdevs.
  assert (Hids : forall lv', sb_id <$> superblocks lv' st' =
    (sb_id <$> superblocks lv' st) ++ if decide (lv' = lv) then [next_id st] else []).
  { intros lv'. destruct lv, lv'; cbn; by rewrite ?fmap_app, ?app_nil_r. }
  assert (Hmono : forall lv' x, placed lv' st x -> placed lv' st' x).
  { intros [] x; [done|]. intros (p & Hp & Hin). exists p. split; [done|].
    change (p ∈ sb_id <$> superblocks Large st'). rewrite Hids. apply elem_of_app. by left. }
  split.
  - intros lv'. rewrite Hids. apply list.NoDup_app. split_and!.
    + apply (co_ids _ _ HC).
    + intros i (x & -> & Hx)%list_elem_of_fmap Hi. pose proof (co_next _ _ HC _ _ Hx).
      destruct (decide _); [|by apply not_elem_of_nil in Hi].
      apply list_elem_of_singleton in Hi. lia.
    + destruct (decide _); [apply NoDup_singleton|constructor].
  - intros lv' x [Hx|[-> ->]]%add_sb_elem; [pose proof (co_next _ _ HC _ _ Hx)|]; cbn; lia.
  - intros lv' x [Hx|[-> ->]]%add_sb_elem; [by apply (co_size _ _ HC)|done].
  - intros lv' x [Hx|[-> ->]]%add_sb_elem; apply Hmono; [by apply (co_placed _ _ HC)|done].
  - intros lv' x [Hx|[-> ->]]%add_sb_elem; [|done].
    eapply (@sb_perm _ _ (SB lv')); [|by apply (co_reach _ _ HC)].
    symmetry. apply Hch. by apply (co_next _ _ HC lv').
  - intros b Hb. pose proof (co_blocks _ _ HC b (Hbs b Hb)) as Hh.
    destruct (holder b) as [[lv' id']|]; [|done]. rewrite Hids. apply elem_of_app. by left.
  - done.
Qed.

Lemma core_new_large whole fl st bs :
  Core st bs -> ub_size whole = LARGE_MAX_SIZE -> dev_ok whole ->
  Forall (phys_apart whole) (devs st bs) -> @sb_reach _ _ (SB Large) whole fl [] ->
  Core (add_sb Large (next_id st) None whole fl st) bs.
Proof.
  intros HC Hs Hd Hf Hr. eapply core_add; [exact HC|done|done| |done|done|].
  - unfold children. cbn. by rewrite (next_no_sub _ _ HC), (next_unused _ _ _ HC).
  - apply (fop_perm phys_apart (whole :: devs st bs)).
    + unfold devs. cbn. rewrite fmap_app, <- app_assoc. cbn. apply Permutation_middle.
    + constructor; [done|apply (co_devs _ _ HC)].
Qed.

(** A block of a large superblock becomes a superblock of its own. *)
Lemma core_new_medium id u fl st bs :
  Core st (MediumBlock id u :: bs) -> ub_size u = MEDIUM_MAX_SIZE ->
  @sb_reach _ _ (SB Medium) u fl [] ->
  Core (add_sb Medium (next_id st) (Some id) u fl st) bs.
Proof.
  intros HC Hs Hr. pose proof (co_blocks _ _ HC (MediumBlock id u) ltac:(by left)) as Hid.
  pose proof (next_unused Medium _ _ HC) as Hn. eapply core_add; [exact HC|done| | |..].
  - by exists id.
  - change (omap (block_of Medium (next_id st)) bs = []) in Hn. unfold children. cbn. by rewrite Hn.
  - intros [] id' Hlt; [|done]. unfold children. cbn. rewrite omap_app. cbn.
    unfold sub_of at 2. unfold block_of at 2. cbn.
    destruct (decide (id = id')) as [->|Hne].
    + rewrite !decide_True by done. rewrite <- app_assoc. apply Permutation_app_head. done.
    + rewrite !decide_False by congruence. by rewrite app_nil_r.
  - intros b Hb. by right.
  - apply (co_devs _ _ HC).
Qed.

(** *** A free superblock is removed *)

Lemma free_no_children lv sb st bs :
  Core st bs -> sb ∈ superblocks lv st -> superblock_isFree lv sb = true ->
  children lv (sb_id sb) st bs = [].
Proof.
  intros HC Hsb Hf. pose proof (co_reach _ _ HC lv sb Hsb) as Hr.
  by apply (@sb_isFree _ _ (SB lv) _ _ _ Hr).
Qed.

Lemma no_children_block lv id st bs b :
  children lv id st bs = [] -> b ∈ bs -> holder b <> Some (lv, id).
Proof.
  intros [_ E]%app_eq_nil Hb Hh. apply (not_elem_of_nil (getUntypedBuffer b)). rewrite <- E.
  apply list_elem_of_omap. exists b. split; [done|]. unfold block_of. by rewrite decide_True.
Qed.

Lemma elem_drop {A} (k : list A) x r y : y ∈ k ++ r -> y ∈ k ++ x :: r.
Proof. rewrite !elem_of_app, elem_of_cons. tauto. Qed.

Lemma elem_drop_ne {A} (k : list A) x r y : y ∈ k ++ x :: r -> y <> x -> y ∈ k ++ r.
Proof. rewrite !elem_of_app, elem_of_cons. tauto. Qed.

Lemma nodup_drop {A} (k : list A) x r : NoDup (k ++ x :: r) -> NoDup (k ++ r).
Proof. rewrite <- Permutation_middle. by intros [_ ?]%list.NoDup_cons. Qed.

Lemma core_drop_medium k m r st bs :
  let st' := set_superblocks Medium (k ++ r) st in
  Core st bs -> mediumBlockSuperblocks st = k ++ m :: r -> superblock_isFree Medium m = true ->
  exists p, sb_parent m = Some p /\ Core st' (MediumBlock p (sb_whole m) :: bs).
Proof.
  intros st' HC Hms Hf. assert (Hm : m ∈ superblocks Medium st).
  { cbn. rewrite Hms. apply elem_of_app. right. by left. }
  pose proof (free_no_children Medium m st bs HC Hm Hf) as Hnone.
  destruct (co_placed _ _ HC Medium m Hm) as (p & Hp & Hin). exists p. split; [done|].
  assert (Hsub : forall lv sb, sb ∈ superblocks lv st' -> sb ∈ superblocks lv st).
  { intros [] sb; [done|]. cbn. rewrite Hms. apply elem_drop. }
  split.
  - intros []; [apply (co_ids _ _ HC Large)|]. pose proof (co_ids _ _ HC Medium) as Hn. cbn in *.
    rewrite Hms, fmap_app in Hn. rewrite fmap_app. by eapply nodup_drop.
  - intros lv sb Hsb. apply (co_next _ _ HC lv). by apply Hsub.
  - intros lv sb Hsb. apply (co_size _ _ HC lv). by apply Hsub.
  - intros lv sb Hsb. pose proof (co_placed _ _ HC lv sb (Hsub _ _ Hsb)). by destruct lv.
  - intros lv sb Hsb. eapply (@sb_perm _ _ (SB lv)); [|apply (co_reach _ _ HC lv); by apply Hsub].
    destruct lv; [|done]. unfold children. cbn. rewrite Hms, !omap_app. cbn.
    unfold sub_of at 2, block_of at 2. cbn. rewrite Hp.
    destruct (decide (p = sb_id sb)) as [->|Hne].
    + rewrite !decide_True by done. rewrite <- !app_assoc. apply Permutation_app_head.
      apply Permutation_middle.
    + by rewrite !decide_False by congruence.
  - intros b [->|Hb]%elem_of_cons; [done|]. pose proof (co_blocks _ _ HC b Hb) as Hh.
    destruct (holder b) as [[[] id]|] eqn:E; [done| |done]. cbn in Hh |- *.
    rewrite Hms, fmap_app in Hh. rewrite fmap_app. eapply elem_drop_ne; [exact Hh|].
    intros ->. by apply (no_children_block _ _ _ _ _ Hnone Hb).
  - apply (co_devs _ _ HC).
Qed.

Lemma core_drop_large k l r st bs :
  let st' := set_superblocks Large (k ++ r) st in
  Core st bs -> largeBlockSuperblocks st = k ++ l :: r -> superblock_isFree Large l = true ->
  sb_parent l = None /\ Core st' bs.
Proof.
  intros st' HC Hls Hf. assert (Hl : l ∈ superblocks Large st).
  { cbn. rewrite Hls. apply elem_of_app. right. by left. }
  pose proof (free_no_children Large l st bs HC Hl Hf) as Hnone.
  split; [by apply (co_placed _ _ HC Large)|].
  assert (Hsub : forall lv sb, sb ∈ superblocks lv st' -> sb ∈ superblocks lv st).
  { intros [] sb; [|done]. cbn. rewrite Hls. apply elem_drop. }
  split.
  - intros []; [|apply (co_ids _ _ HC Medium)]. pose proof (co_ids _ _ HC Large) as Hn. cbn in *.
    rewrite Hls, fmap_app in Hn. rewrite fmap_app. by eapply nodup_drop.
  - intros lv sb Hsb. apply (co_next _ _ HC lv). by apply Hsub.
  - intros lv sb Hsb. apply (co_size _ _ HC lv). by apply Hsub.
  - intros lv sb Hsb. pose proof (co_placed _ _ HC lv sb (Hsub _ _ Hsb)) as Hp. destruct lv; [done|].
    destruct Hp as (p & Hp & Hin). exists p. split; [done|]. cbn in *.
    rewrite Hls, fmap_app in Hin. rewrite fmap_app. eapply elem_drop_ne; [exact Hin|]. intros ->.
    apply app_eq_nil in Hnone as [E _]. apply (not_elem_of_nil (sb_whole sb)). rewrite <- E.
    apply list_elem_of_omap. exists sb. split; [done|]. unfold sub_of. by rewrite decide_True.
  - intros lv sb Hsb. apply (co_reach _ _ HC lv). by apply Hsub.
  - intros b Hb. pose proof (co_blocks _ _ HC b Hb) as Hh.
    destruct (holder b) as [[[] id]|] eqn:E; [|done..]. cbn in Hh |- *.
    rewrite Hls, fmap_app in Hh. rewrite fmap_app. eapply elem_drop_ne; [exact Hh|].
    intros ->. by apply (no_children_block _ _ _ _ _ Hnone Hb).
  - pose proof (co_devs _ _ HC) as Hd. unfold devs in *. cbn. rewrite Hls in Hd.
    apply (fop_perm phys_apart _ (sb_whole l :: ((sb_whole <$> k ++ r) ++ omap own_buffer bs))) in Hd.
    + by inversion Hd.
    + rewrite !fmap_app. cbn. rewrite <- !app_assoc. symmetry. apply Permutation_middle.
Qed.

(** ** Allocation *)

Abbreviation aspec := (ewp (E := alloc_exn) (S := allocator) False False).

(** The block serves the request. *)
Definition serves (type dir size region : Z) (u : UntypedBuffer) : Prop :=
  size <= ub_size u /\ matchesAllocation u type dir region = true.

Lemma deref_ok lv sb st (Q : superblock -> allocator -> Prop) X :
  NoDup (sb_id <$> superblocks lv st) -> sb ∈ superblocks lv st -> Q sb st ->
  aspec (deref lv (sb_id sb)) st Q X.
Proof.
  intros Hn Hsb HQ. unfold deref. do 2 ewp_step.
  destruct (lookup_sb_elem (sb_id sb) (superblocks lv st)) as [sb' Hl].
  { by apply list_elem_of_fmap_2. }
  rewrite Hl. apply lookup_sb_Some in Hl as [Hsb' E].
  assert (sb' = sb) as -> by (by eapply id_unique). by ewp_step.
Qed.

Definition got (lv : level) (sb : superblock) (size : Z) (bs : list Block) (u : UntypedBuffer)
    (st' : allocator) : Prop :=
  Core st' (mk_block lv (sb_id sb) u :: bs) /\ regular (min_k lv) (sb_whole sb) u /\
  size <= ub_size u /\ (forall i, size <= bsize (min_k lv) i -> ub_size u <= bsize (min_k lv) i).

Lemma superblock_allocate_ok lv sb size st bs :
  Core st bs -> sb ∈ superblocks lv st ->
  aspec (superblock_allocate lv (sb_id sb) size) st (got lv sb size bs)
    (fun e st' => e = Thrown BadAlloc /\ st' = st /\
       (size <= 2 ^ Z.of_nat (max_k lv) -> children lv (sb_id sb) st bs <> [])).
Proof.
  intros HC Hsb. unfold superblock_allocate. ewp_step.
  apply deref_ok; [apply (co_ids _ _ HC)|done|].
  destruct (allocate _ _ size (sb_freeList sb)) as [[u fl]|e] eqn:E.
  - do 3 ewp_step. by apply (core_alloc lv _ sb size).
  - ewp_step. split; [by rewrite (@sb_alloc_exn _ _ (SB lv) _ _ _ E)|]. split; [done|].
    intros Hs Hc. pose proof (co_reach _ _ HC lv sb Hsb) as Hr. rewrite Hc in Hr.
    destruct (@sb_alloc_fresh _ _ (SB lv) _ _ size Hr Hs) as (b & fl' & E'). congruence.
Qed.

Lemma emplace_ok lv parent whole st (Q : nat -> allocator -> Prop) X :
  whole_ok (max_k lv) whole ->
  (forall fl, @sb_reach _ _ (SB lv) whole fl [] ->
     Q (next_id st) (add_sb lv (next_id st) parent whole fl st)) ->
  aspec (emplace lv parent whole) st Q X.
Proof.
  intros Hw HQ. unfold emplace. destruct (@sb_seed _ _ (SB lv) whole Hw) as (fl & -> & Hr).
  ewp_step. ewp_step. ewp_step. ewp_step. ewp_step. by apply HQ.
Qed.

Lemma ewp_catch {A} (m k : AM A) st (Q : A -> allocator -> Prop) X :
  aspec m st Q (fun e st' => e = Thrown BadAlloc /\ st' = st) -> aspec k st Q X ->
  aspec (catch_bad_alloc m k) st Q X.
Proof.
  unfold ewp, post, catch_bad_alloc. destruct (m st) as [[a|e] st'| |]; try done.
  intros [-> ->]. done.
Qed.

Lemma first_fit_ok lv type dir region body rest st bs (Q : Block -> allocator -> Prop) X ids :
  Core st bs -> (forall id, id ∈ ids -> id ∈ sb_id <$> superblocks lv st) ->
  (forall sb, sb ∈ superblocks lv st -> matchesAllocation (sb_whole sb) type dir region = true ->
     aspec (body (sb_id sb)) st Q (fun e st' => e = Thrown BadAlloc /\ st' = st)) ->
  aspec rest st Q X ->
  aspec (first_fit lv type dir region body rest ids) st Q X.
Proof.
  intros HC Hids Hbody Hrest. induction ids as [|id ids IH]; cbn [first_fit]; [done|].
  destruct (proj1 (list_elem_of_fmap _ _ _) (Hids id ltac:(by left))) as (sb & -> & Hsb).
  assert (Hnext : aspec (first_fit lv type dir region body rest ids) st Q X).
  { apply IH. intros id Hid. apply Hids. by right. }
  ewp_step. apply deref_ok; [apply (co_ids _ _ HC)|done|].
  ewp_step; [done|]. apply ewp_catch; [|done]. apply Hbody; [done|]. by apply negb_false_iff.
Qed.

(** A part of a slice of the right kind is of the right kind. *)
Lemma matches_part w u type dir region :
  ub_backing u = ub_backing w ->
  matchesAllocation u type dir region = matchesAllocation w type dir region.
Proof. intros E. unfold matchesAllocation, getHBMRegion. by rewrite E. Qed.

Lemma large_whole_ok sb st bs :
  Core st bs -> sb ∈ superblocks Large st -> whole_ok LARGE_MAX (sb_whole sb).
Proof.
  intros HC Hsb. pose proof (co_size _ _ HC _ _ Hsb) as Hs.
  destruct (co_placed _ _ HC _ _ Hsb) as (_ & Ho & _). unfold whole_ok. rewrite Hs, Ho.
  by split_and!.
Qed.

(** A 2 MB block of a large superblock can be a superblock. *)
Lemma medium_whole_ok w u :
  whole_ok LARGE_MAX w -> regular LARGE_MIN w u -> ub_size u = MEDIUM_MAX_SIZE ->
  whole_ok MEDIUM_MAX u.
Proof.
  intros (Hs & Ho & He) (_ & i & k & Hi & Hk & Hu & Hend) Hsize. unfold whole_ok.
  pose proof (bsize_pos LARGE_MIN i). split; [done|].
  change (2 ^ Z.of_nat MEDIUM_MAX) with MEDIUM_MAX_SIZE. rewrite Hs in Hend.
  split; [|lia]. rewrite Hu. nia.
Qed.

Lemma two_mb_exact u :
  MEDIUM_MAX_SIZE <= ub_size u ->
  (forall i, MEDIUM_MAX_SIZE <= bsize LARGE_MIN i -> ub_size u <= bsize LARGE_MIN i) ->
  ub_size u = MEDIUM_MAX_SIZE.
Proof. intros Hle Hmin. specialize (Hmin 0%nat). change (bsize LARGE_MIN 0) with MEDIUM_MAX_SIZE in Hmin. lia. Qed.

(** *** The two ways to carve a block from a large superblock *)

Definition allocated (type dir size region : Z) (bs : list Block) (b : Block) (st' : allocator) : Prop :=
  Core st' (b :: bs) /\ serves type dir size region (getUntypedBuffer b) /\ holder b <> None.

Section carve.
Context (type dir size region : Z) (sb : superblock) (st : allocator) (bs : list Block).
Context (HC : Core st bs) (Hsb : sb ∈ superblocks Large st).
Context (Hm : matchesAllocation (sb_whole sb) type dir region = true).

Abbreviation refused := (fun e st' => e = Thrown BadAlloc /\ st' = st /\
  (size <= LARGE_MAX_SIZE -> children Large (sb_id sb) st bs <> [])).

Lemma medium_from_ok :
  aspec (medium_from size (sb_id sb)) st (allocated type dir size region bs) refused.
Proof using HC Hsb Hm.
  unfold medium_from. ewp_step.
  eapply ewp_mono; [by apply (superblock_allocate_ok Large sb size st bs)| |done].
  intros u st' (HC' & Hreg & Hs & _). ewp_step. split; [done|]. split; [|done]. split; [done|].
  cbn. rewrite <- Hm. apply matches_part, Hreg.
Qed.

Lemma small_from_ok :
  size <= MEDIUM_MAX_SIZE ->
  aspec (small_from size (sb_id sb)) st (allocated type dir size region bs)
    (fun e st' => e = Thrown BadAlloc /\ st' = st /\ children Large (sb_id sb) st bs <> []).
Proof using HC Hsb Hm.
  intros Hsize. unfold small_from. ewp_step.
  eapply ewp_mono; [by apply (superblock_allocate_ok Large sb MEDIUM_MAX_SIZE st bs)| |].
  2: { intros e st' (-> & -> & Hc). split_and!; [done..|]. apply Hc. by vm_compute. }
  intros u st1 (HC1 & Hreg & Hs & Hmin). pose proof (two_mb_exact u Hs Hmin) as Hu.
  ewp_step. apply emplace_ok.
  { apply (medium_whole_ok (sb_whole sb)); [exact (large_whole_ok sb st bs HC Hsb)|done..]. }
  intros fl Hr. pose proof (core_new_medium _ u fl st1 bs HC1 Hu Hr) as HC2.
  set (st2 := add_sb _ _ _ _ _ _) in *. ewp_step.
  set (mb := {| sb_id := next_id st1; sb_parent := Some (sb_id sb); sb_whole := u; sb_freeList := fl |}).
  assert (Hmb : mb ∈ superblocks Medium st2) by (apply add_sb_elem; by right).
  eapply ewp_mono; [by apply (superblock_allocate_ok Medium mb size st2 bs)| |].
  - intros b st3 (HC3 & Hregb & Hsb' & _). ewp_step. split; [done|]. split; [|done]. split; [done|].
    cbn. rewrite <- Hm, <- (matches_part (sb_whole sb) u) by apply Hreg. apply matches_part, Hregb.
  - intros e st' (_ & _ & Hc). destruct Hc; [done|]. unfold children. cbn.
    pose proof (next_unused Medium _ _ HC1) as Hn.
    change (omap (block_of Medium (next_id st1)) bs = []) in Hn. exact Hn.
Qed.
End carve.

(** *** The device *)

(** No byte of device memory is in both device buffers. *)
Definition backing_apart (b b' : backing) : Prop :=
  bk_physAddr b + bk_size b <= bk_physAddr b' \/ bk_physAddr b' + bk_size b' <= bk_physAddr b.

(** What the allocator relies on: an opened device buffer has the requested
    kind, is at least as big as requested (the daemon rounds up to whole
    blocks of device memory), lies in the address space, and shares no memory
    with the device buffers that are open. *)
Definition device_ok (openBuffer : Z -> Z -> Z -> Z -> option backing) (open : list UntypedBuffer) : Prop :=
  forall type size region dir bk, openBuffer type size region dir = Some bk ->
  bk_allocType bk = type /\ bk_allocDir bk = dir /\ bk_allocArg bk = region /\ size <= bk_size bk <= UINT64_MAX /\
  0 <= bk_physAddr bk /\ bk_physAddr bk + bk_size bk <= 2 ^ 64 /\
  Forall (fun u => backing_apart bk (ub_backing u)) open.

Lemma backing_phys u : dev_ok u -> getPhysAddr u = bk_physAddr (ub_backing u).
Proof.
  intros (Ho & Hs & Hp & He). unfold getPhysAddr, add64, u64. rewrite Ho, Z.mod_small; lia.
Qed.

Lemma backing_phys_apart u v : dev_ok u -> dev_ok v -> backing_apart (ub_backing u) (ub_backing v) -> phys_apart u v.
Proof.
  intros Hu Hv. unfold backing_apart, phys_apart. rewrite !backing_phys by done.
  destruct Hu as (_ & ? & _), Hv as (_ & ? & _). lia.
Qed.

Section requests.
Context (openBuffer : Z -> Z -> Z -> Z -> option backing) (type dir size region : Z).
Context (st : allocator) (bs : list Block).
Context (HC : Core st bs) (Hdev : device_ok openBuffer (devs st bs)).

Lemma devs_ok : Forall dev_ok (devs st bs).
Proof using HC.
  apply Forall_app. split; apply Forall_forall; intros u; rewrite <-list_elem_of_In.
  - intros (sb & -> & Hsb)%list_elem_of_fmap. apply (co_placed _ _ HC Large sb Hsb).
  - intros (b & Hb & Hu)%list_elem_of_omap. destruct b; try done. injection Hu as <-. apply (co_blocks _ _ HC _ Hb).
Qed.

Lemma open_device_ok n (Q : backing -> allocator -> Prop) :
  0 < n ->
  (forall bk, let w := whole_buffer bk n 0 in
     ub_size w = n -> dev_ok w -> Forall (phys_apart w) (devs st bs) ->
     matchesAllocation w type dir region = true -> Q bk st) ->
  aspec (open_device openBuffer type dir n region) st Q (fun e st' => e = DeviceError /\ st' = st).
Proof using HC Hdev.
  intros Hn HQ. unfold open_device. destruct (openBuffer _ _ _ _) as [bk|] eqn:E; [|done].
  destruct (Hdev _ _ _ _ _ E) as (Ht & Hd & Ha & Hs & Hp & He & Hf). ewp_step.
  assert (Hsz : ub_size (whole_buffer bk n 0) = n).
  { cbn. destruct (Z.eqb_spec n UINT64_MAX); lia. }
  assert (Hok : dev_ok (whole_buffer bk n 0)).
  { unfold dev_ok. rewrite Hsz. split_and!; [done|lia|cbn; lia..]. }
  apply HQ; [done..| |].
  - pose proof devs_ok as Hall. rewrite Forall_forall in Hf, Hall |- *. intros u Hu.
    apply backing_phys_apart; [done|by apply Hall|by apply Hf].
  - unfold matchesAllocation, getHBMRegion. cbn. rewrite Ht, Hd, Ha, !Z.eqb_refl. cbn.
    destruct (Z.eqb_spec type Hbm) as [->|]; [|done]. cbn. apply Z.eqb_refl.
Qed.

Lemma new_large_ok :
  aspec (new_large openBuffer type dir region) st
    (fun id st' => exists sb, sb ∈ superblocks Large st' /\ sb_id sb = id /\ Core st' bs /\
       matchesAllocation (sb_whole sb) type dir region = true /\ children Large id st' bs = [])
    (fun e st' => e = DeviceError /\ st' = st).
Proof using HC Hdev.
  unfold new_large. ewp_step. apply open_device_ok; [done|]. intros bk w Hs Hd Hf Hm. apply emplace_ok.
  { destruct Hd as (Ho & _). fold w. unfold whole_ok. rewrite Hs, Ho. by split_and!. }
  intros fl Hr. eexists. split; [apply add_sb_elem; by right|]. split_and!; [done| |done|].
  - by apply core_new_large.
  - unfold children. cbn. by rewrite (next_no_sub _ _ HC), (next_unused _ _ _ HC).
Qed.

Lemma new_medium_block_ok :
  size <= LARGE_MAX_SIZE ->
  aspec (id ← new_large openBuffer type dir region; medium_from size id) st
    (allocated type dir size region bs) (fun e st' => e = DeviceError /\ st' = st).
Proof using HC Hdev.
  intros Hsize. ewp_step. eapply ewp_mono; [apply new_large_ok| |done].
  intros id st' (sb & Hsb & <- & HC' & Hm & Hch).
  eapply ewp_mono; [by apply (medium_from_ok type dir size region sb st' bs)|done|].
  intros e st2 (_ & _ & Hc). by destruct (Hc Hsize).
Qed.

Lemma new_small_block_ok :
  size <= MEDIUM_MAX_SIZE ->
  aspec (id ← new_large openBuffer type dir region; small_from size id) st
    (allocated type dir size region bs) (fun e st' => e = DeviceError /\ st' = st).
Proof using HC Hdev.
  intros Hsize. ewp_step. eapply ewp_mono; [apply new_large_ok| |done].
  intros id st' (sb & Hsb & <- & HC' & Hm & Hch).
  eapply ewp_mono; [by apply (small_from_ok type dir size region sb st' bs)|done|].
  intros e st2 (_ & _ & Hc). done.
Qed.

Lemma Allocator_allocate_ok :
  aspec (Allocator_allocate openBuffer type dir size region) st
    (fun b st' => Core st' (b :: bs) /\ serves type dir size region (getUntypedBuffer b) /\
       (holder b = None -> st' = st))
    (fun e st' => e = DeviceError /\ st' = st).
Proof using HC Hdev.
  assert (Hdone : forall b st', allocated type dir size region bs b st' ->
    Core st' (b :: bs) /\ serves type dir size region (getUntypedBuffer b) /\
       (holder b = None -> st' = st)).
  { intros b st' (HC' & Hs & Hh). done. }
  unfold Allocator_allocate. ewp_step; [|ewp_step].
  - assert (Hlt : LARGE_MAX_SIZE < size) by lia.
    ewp_step. apply open_device_ok; [by transitivity LARGE_MAX_SIZE|]. intros bk w Hs Hd Hf Hm. ewp_step.
    split_and!; [|split; [change (size <= ub_size w); lia|done]|done]. destruct HC as [Hi Hn Hsz Hp Hr Hb Hdv]. split; try done.
    + intros b [->|Hin]%elem_of_cons; [done|by apply Hb].
    + apply (fop_perm phys_apart (w :: devs st bs)); [apply Permutation_middle|by constructor].
  - ewp_step. ewp_step. eapply ewp_mono; [|exact Hdone|exact (fun _ _ Hx => Hx)]. eapply first_fit_ok; [done| | |].
    + done.
    + intros sb Hsb Hm. eapply ewp_mono; [by apply (medium_from_ok type dir size region sb st bs)|done|].
      intros e st' (-> & -> & _). done.
    + apply new_medium_block_ok. lia.
  - ewp_step. ewp_step. eapply ewp_mono; [|exact Hdone|exact (fun _ _ Hx => Hx)]. eapply first_fit_ok; [done|done| |].
    + intros sb Hsb Hm. ewp_step.
      eapply ewp_mono; [by apply (superblock_allocate_ok Medium sb size st bs)| |].
      * intros u st' (HC' & Hreg & Hs & _). ewp_step. split; [done|]. split; [|done]. split; [done|].
        cbn. rewrite <- Hm. apply matches_part, Hreg.
      * intros e st' (-> & -> & _). done.
    + ewp_step. ewp_step. eapply first_fit_ok; [done|done| |].
      * intros sb Hsb Hm. eapply ewp_mono; [apply (small_from_ok type dir size region sb st bs); [done..|lia]|done|].
        intros e st' (-> & -> & _). done.
      * apply new_small_block_ok. lia.
Qed.
End requests.

(** ** Release *)

Abbreviation never := (fun (_ : alloc_exn) (_ : allocator) => False).

Lemma superblock_deallocate_ok lv id u st st0 bs (Q : unit -> allocator -> Prop) :
  Core st0 (mk_block lv id u :: bs) -> superblocks lv st0 = superblocks lv st ->
  (forall fl, Core (set_fl lv id fl st0) bs -> Q tt (set_fl lv id fl st)) ->
  aspec (superblock_deallocate lv id u) st Q never.
Proof.
  intros HC Hsame HQ. destruct (core_free lv id u st0 bs HC) as (sb & fl & Hl & Hd & HC').
  unfold superblock_deallocate, deref. do 3 ewp_step. rewrite <- Hsame, Hl. ewp_step.
  rewrite Hd. ewp_step. by apply HQ.
Qed.

Lemma ewp_destructor m st (Q : unit -> allocator -> Prop) :
  aspec m st Q never -> aspec (destructor m) st Q never.
Proof. unfold ewp, post, destructor. by destruct (m st) as [[a|e] st'| |]. Qed.

Lemma reset_block_ok b st bs :
  Core st (b :: bs) -> aspec (reset_block b) st (fun _ st' => Core st' bs) never.
Proof.
  intros HC. destruct b as [u|id u|id u]; cbn [reset_block].
  - ewp_step. destruct HC as [Hi Hn Hs Hp Hr Hb Hd]. split; try done.
    + intros b Hin. apply Hb. by right.
    + apply (fop_perm phys_apart _ (u :: devs st bs)) in Hd; [by inversion Hd|].
      symmetry. apply Permutation_middle.
  - apply ewp_destructor. by apply (superblock_deallocate_ok Large id u st st bs).
  - apply ewp_destructor. by apply (superblock_deallocate_ok Medium id u st st bs).
Qed.

Abbreviation busy lv := (fun sb => superblock_isFree lv sb = false).

Lemma erase_medium_ok ms : forall k st bs,
  Core (set_superblocks Medium (k ++ ms) st) bs ->
  aspec (erase_free Medium ms) st
    (fun kept st' => Core (set_superblocks Medium (k ++ kept) st') bs /\ Forall (busy Medium) kept) never.
Proof.
  induction ms as [|m ms IH]; intros k st bs HC; cbn [erase_free]; [by ewp_step|].
  destruct (superblock_isFree Medium m) eqn:Hf.
  - destruct (core_drop_medium k m ms _ bs HC eq_refl Hf) as (p & Hp & HC').
    ewp_step. unfold destroy. ewp_step. rewrite Hf. ewp_step; [done|].
    rewrite Hp. apply ewp_destructor.
    eapply (superblock_deallocate_ok Large p); [exact HC'|done|]. intros fl HC2. by apply IH.
  - ewp_step. eapply ewp_mono; [apply (IH (k ++ [m]))| |done].
    + by rewrite <- app_assoc.
    + intros kept st' [HC' Hb]. ewp_step. rewrite <- app_assoc in HC'. split; [done|]. by constructor.
Qed.

Lemma erase_large_ok ls : forall k st bs,
  Core (set_superblocks Large (k ++ ls) st) bs ->
  aspec (erase_free Large ls) st
    (fun kept st' => st' = st /\ Core (set_superblocks Large (k ++ kept) st) bs /\
       Forall (busy Large) kept) never.
Proof.
  induction ls as [|l ls IH]; intros k st bs HC; cbn [erase_free]; [by ewp_step|].
  destruct (superblock_isFree Large l) eqn:Hf.
  - destruct (core_drop_large k l ls _ bs HC eq_refl Hf) as (Hp & HC').
    ewp_step. unfold destroy. ewp_step. rewrite Hf. ewp_step; [done|].
    rewrite Hp. ewp_step. by apply IH.
  - ewp_step. eapply ewp_mono; [apply (IH (k ++ [l]))| |done].
    + by rewrite <- app_assoc.
    + intros kept st' (-> & HC' & Hb). ewp_step. rewrite <- app_assoc in HC'.
      split_and!; [done..|]. by constructor.
Qed.

Definition no_superblocks (st : allocator) : Prop :=
  largeBlockSuperblocks st = [] /\ mediumBlockSuperblocks st = [].

(** If every superblock has something outstanding and no block came from one,
    there is none. *)
Lemma busy_none st bs :
  Core st bs -> (forall lv, Forall (busy lv) (superblocks lv st)) ->
  Forall (fun b => holder b = None) bs -> no_superblocks st.
Proof.
  intros HC Hb Hn. rewrite Forall_forall in Hn.
  assert (Hblk : forall lv id, omap (block_of lv id) bs = []).
  { intros lv id. apply elem_of_nil_inv. intros u (b & Hin & Hu)%list_elem_of_omap.
    unfold block_of in Hu. rewrite (Hn b) in Hu by (by apply list_elem_of_In). done. }
  assert (Hno : forall lv sb, sb ∈ superblocks lv st -> children lv (sb_id sb) st bs <> []).
  { intros lv sb Hsb Hc. specialize (Hb lv). rewrite Forall_forall in Hb.
    specialize (Hb sb (proj1 (list_elem_of_In _ _) Hsb)). cbn in Hb.
    pose proof (co_reach _ _ HC lv sb Hsb) as Hr.
    apply (@sb_isFree _ _ (SB lv) _ _ _ Hr) in Hc. unfold superblock_isFree in Hb. congruence. }
  assert (Hm : mediumBlockSuperblocks st = []).
  { apply elem_of_nil_inv. intros m Hm. apply (Hno Medium m Hm). unfold children. by rewrite Hblk. }
  split; [|done]. apply elem_of_nil_inv. intros l Hl. apply (Hno Large l Hl).
  unfold children. by rewrite Hblk, Hm.
Qed.

Lemma Allocator_deallocate_ok b st bs :
  Core st (b :: bs) ->
  aspec (Allocator_deallocate b) st
    (fun _ st' => Core st' bs /\ (Forall (fun b => holder b = None) bs -> no_superblocks st')) never.
Proof.
  intros HC. unfold Allocator_deallocate. ewp_step.
  eapply ewp_mono; [by apply reset_block_ok| |done]. intros [] st1 HC1.
  ewp_step. ewp_step. ewp_step.
  eapply ewp_mono; [apply (erase_medium_ok _ [] st1 bs)| |done].
  { by destruct st1. }
  intros ms st2 [HC2 Hms]. do 4 ewp_step. ewp_step.
  eapply ewp_mono; [apply (erase_large_ok _ [] (set_superblocks Medium ms st2) bs)| |done].
  { exact HC2. }
  intros ls st3 (-> & HC3 & Hls). ewp_step. split; [exact HC3|]. intros Hn.
  eapply busy_none; [exact HC3| |done]. intros []; done.
Qed.

(** ** Outstanding blocks share no memory *)

Definition inside (u w : UntypedBuffer) : Prop :=
  ub_backing u = ub_backing w /\ 0 < ub_size u /\ ub_offset w <= ub_offset u /\
  ub_offset u + ub_size u <= ub_offset w + ub_size w.

Lemma inside_trans u v w : inside u v -> inside v w -> inside u w.
Proof. intros (E & H1 & H2 & H3) (E' & H4 & H5 & H6). split; [congruence|lia]. Qed.

Lemma regular_inside k w u : regular k w u -> inside u w.
Proof.
  intros (E & i & n & Hs & Hn & Ho & He). pose proof (bsize_pos k i).
  split; [done|]. rewrite Hs in *. nia.
Qed.

Lemma inside_phys u w :
  dev_ok w -> inside u w -> getPhysAddr u = bk_physAddr (ub_backing w) + ub_offset u.
Proof.
  intros (Ho & Hp & Hq & He) (E & H1 & H2 & H3). unfold getPhysAddr. rewrite E. unfold add64, u64.
  rewrite Z.mod_small; lia.
Qed.

Lemma inside_self w : dev_ok w -> inside w w.
Proof. intros (Ho & Hs & _). split; [done|]. lia. Qed.

Lemma apart_inside u v w w' :
  dev_ok w -> dev_ok w' -> inside u w -> inside v w' -> phys_apart w w' -> phys_apart u v.
Proof.
  intros Hw Hw' Hu Hv Ha. unfold phys_apart in *.
  rewrite (inside_phys w w), (inside_phys w' w') in Ha by (try apply inside_self; done).
  rewrite (inside_phys u w), (inside_phys v w') by done.
  destruct Hu as (_ & ?), Hv as (_ & ?). lia.
Qed.

Lemma apart_same u v w :
  dev_ok w -> inside u w -> inside v w -> ~ meets u v -> phys_apart u v.
Proof.
  intros Hw Hu Hv Hm. unfold phys_apart. rewrite (inside_phys u w), (inside_phys v w) by done.
  unfold meets in Hm. lia.
Qed.

(** The block [b] lies in the part [c] of the large superblock [l]: [c] is
    the block itself or the medium superblock it was carved from. *)
Inductive under (st : allocator) (l : superblock) : Block -> UntypedBuffer -> Prop :=
| under_medium u : under st l (MediumBlock (sb_id l) u) u
| under_small m u : m ∈ mediumBlockSuperblocks st -> sb_parent m = Some (sb_id l) ->
    under st l (SmallBlock (sb_id m) u) (sb_whole m).

Lemma live_inside lv sb u live : reached lv sb (u :: live) -> inside u (sb_whole sb).
Proof. intros Hr. eapply regular_inside, (@sb_regular _ _ (SB lv)), Hr. Qed.

Lemma child_elem lv id u st bs : mk_block lv id u ∈ bs -> u ∈ children lv id st bs.
Proof.
  intros Hb. apply elem_of_app. right. apply list_elem_of_omap. exists (mk_block lv id u).
  split; [done|]. unfold block_of. rewrite decide_True by (by destruct lv). by destruct lv.
Qed.

Lemma sub_elem m id st bs :
  m ∈ mediumBlockSuperblocks st -> sb_parent m = Some id -> sb_whole m ∈ children Large id st bs.
Proof.
  intros Hm Hp. apply elem_of_app. left. apply list_elem_of_omap. exists m. split; [done|].
  unfold sub_of. by rewrite decide_True.
Qed.

Lemma child_inside lv sb u st bs :
  Core st bs -> sb ∈ superblocks lv st -> u ∈ children lv (sb_id sb) st bs -> inside u (sb_whole sb).
Proof.
  intros HC Hsb [rest E]%elem_of_Permutation. eapply (live_inside lv).
  eapply (@sb_perm _ _ (SB lv)); [exact E|]. by apply (co_reach _ _ HC lv).
Qed.

Lemma under_inside st bs b l c :
  Core st bs -> b ∈ bs -> l ∈ largeBlockSuperblocks st -> under st l b c ->
  inside (getUntypedBuffer b) c /\ inside c (sb_whole l).
Proof.
  intros HC Hb Hl Hu. revert Hb. destruct Hu as [u|m u Hm Hp]; intros Hb.
  - assert (Hin : inside u (sb_whole l)).
    { eapply (child_inside Large); [done..|]. by apply (child_elem Large). }
    split; [|done]. destruct Hin as (_ & H1 & _). split; [done|]. cbn. lia.
  - split.
    + eapply (child_inside Medium); [done..|]. by apply (child_elem Medium).
    + eapply (child_inside Large); [done..|]. by apply sub_elem.
Qed.

Lemma block_under st bs b :
  Core st bs -> b ∈ bs ->
  match b with
  | LargeBlock u => dev_ok u
  | _ => exists l c, l ∈ largeBlockSuperblocks st /\ under st l b c
  end.
Proof.
  intros HC Hb. pose proof (co_blocks _ _ HC b Hb) as Hh. destruct b as [u|id u|id u]; cbn in Hh.
  - done.
  - apply list_elem_of_fmap in Hh as (l & -> & Hl). exists l, u. split; [done|constructor].
  - apply list_elem_of_fmap in Hh as (m & -> & Hm).
    destruct (co_placed _ _ HC Medium m Hm) as (p & Hp & (l & -> & Hl)%list_elem_of_fmap).
    exists l, (sb_whole m). split; [done|]. by constructor.
Qed.

(** Two children of a superblock do not meet. *)
Lemma children_unmet lv sb u v rest st bs :
  Core st bs -> sb ∈ superblocks lv st -> children lv (sb_id sb) st bs ≡ₚ u :: v :: rest -> ~ meets u v.
Proof.
  intros HC Hsb E. eapply (@sb_apart _ _ (SB lv)). eapply (@sb_perm _ _ (SB lv)); [exact E|].
  by apply (co_reach _ _ HC lv).
Qed.

(** Two blocks under the same large superblock. *)
Lemma under_apart st b b' bs l c c' :
  Core st (b :: b' :: bs) -> l ∈ largeBlockSuperblocks st -> under st l b c -> under st l b' c' ->
  ~ meets c c' \/ exists m, m ∈ mediumBlockSuperblocks st /\ c = sb_whole m /\
    inside (getUntypedBuffer b) (sb_whole m) /\ inside (getUntypedBuffer b') (sb_whole m) /\
    ~ meets (getUntypedBuffer b) (getUntypedBuffer b').
Proof.
  intros HC Hl Hu Hu'. revert HC.
  assert (Hmix : forall u m v bs', m ∈ mediumBlockSuperblocks st -> sb_parent m = Some (sb_id l) ->
    Core st (MediumBlock (sb_id l) u :: SmallBlock (sb_id m) v :: bs') -> ~ meets u (sb_whole m)).
  { intros u m v bs' Hm Hp HC.
    pose proof (sub_elem m (sb_id l) st (SmallBlock (sb_id m) v :: bs') Hm Hp) as Hin.
    apply elem_of_Permutation in Hin as [rest E]. eapply (children_unmet Large l); [exact HC|done|].
    rewrite (children_mk Large (sb_id l) u), decide_True, E by done. done. }
  destruct Hu as [u|m u Hm Hp], Hu' as [u'|m' u' Hm' Hp']; intros HC.
  - left. eapply (children_unmet Large l); [exact HC|done|].
    rewrite (children_mk Large (sb_id l) u), decide_True by done.
    rewrite (children_mk Large (sb_id l) u'), decide_True by done. done.
  - left. by eapply Hmix.
  - left. intros [H1 H2]. eapply Hmix; [exact Hm|done| |split; [exact H2|exact H1]].
    eapply core_perm; [apply perm_swap|exact HC].
  - apply elem_of_Permutation in Hm as Hms. destruct Hms as [ms E].
    destruct (decide (sb_id m = sb_id m')) as [Eid|Hne].
    + assert (m' = m) as -> by (eapply (id_unique (mediumBlockSuperblocks st));
        [apply (co_ids _ _ HC Medium)|done..]).
      right. exists m. split_and!; [done..| | |].
      * eapply (child_inside Medium); [exact HC|done|]. apply (child_elem Medium). by left.
      * eapply (child_inside Medium); [exact HC|done|]. apply (child_elem Medium). right. by left.
      * eapply (children_unmet Medium m); [exact HC|done|].
        rewrite (children_mk Medium (sb_id m) u), decide_True by done.
        rewrite (children_mk Medium (sb_id m) u'), decide_True by done. done.
    + left. rewrite E in Hm'. apply elem_of_cons in Hm' as [->|Hm']; [done|].
      apply elem_of_Permutation in Hm' as [ms' E']. eapply (children_unmet Large l); [exact HC|done|].
      unfold children. rewrite (omap_perm _ _ _ E). cbn. unfold sub_of at 1. rewrite decide_True by done.
      rewrite (omap_perm _ _ _ E'). cbn. unfold sub_of at 1. rewrite decide_True by done.
      by rewrite <- app_comm_cons.
Qed.

Lemma fop_two {A} (R : A -> A -> Prop) `{!Symmetric R} l x y r :
  ForallOrdPairs R l -> l ≡ₚ x :: y :: r -> R x y.
Proof.
  intros Hf E. apply (fop_perm R l _ E) in Hf. inversion Hf as [|? ? Hx _]; subst. by inversion Hx.
Qed.

Lemma perm_two {A} (l : list A) x y : x ∈ l -> y ∈ l -> x <> y -> exists r, l ≡ₚ x :: y :: r.
Proof.
  intros [l' E]%elem_of_Permutation Hy Hne. rewrite E in Hy.
  apply elem_of_cons in Hy as [->|Hy]; [done|]. apply elem_of_Permutation in Hy as [r E'].
  exists r. by rewrite E, E'.
Qed.

Lemma large_dev_ok l st bs : Core st bs -> l ∈ largeBlockSuperblocks st -> dev_ok (sb_whole l).
Proof. intros HC Hl. by apply (co_placed _ _ HC Large). Qed.

Lemma own_apart st u b bs :
  Core st (LargeBlock u :: b :: bs) -> phys_apart u (getUntypedBuffer b).
Proof.
  intros HC. pose proof (co_devs _ _ HC) as Hd.
  assert (Hdu : dev_ok u) by (apply (block_under st _ (LargeBlock u) HC); by left).
  pose proof (block_under st _ b HC ltac:(right; by left)) as Hub.
  assert (Hl : forall l c, l ∈ largeBlockSuperblocks st -> under st l b c ->
    phys_apart u (getUntypedBuffer b)).
  { intros l c Hl Hun. destruct (under_inside st _ b l c HC ltac:(right; by left) Hl Hun) as [H1 H2].
    apply (apart_inside _ _ u (sb_whole l)); [done|by eapply large_dev_ok|by apply inside_self| |].
    - by eapply inside_trans.
    - apply elem_of_Permutation in Hl as [ls E]. symmetry.
      eapply fop_two; [apply _|exact Hd|]. unfold devs. rewrite E. cbn.
      by rewrite <- Permutation_middle. }
  destruct b as [v|id v|id v].
  - eapply fop_two; [apply _|exact Hd|]. unfold devs. cbn. by rewrite <- !Permutation_middle.
  - destruct Hub as (l & c & Hl' & Hun). by eapply Hl.
  - destruct Hub as (l & c & Hl' & Hun). by eapply Hl.
Qed.

Lemma carved_apart st b b' bs l c l' c' :
  Core st (b :: b' :: bs) -> l ∈ largeBlockSuperblocks st -> under st l b c ->
  l' ∈ largeBlockSuperblocks st -> under st l' b' c' ->
  phys_apart (getUntypedBuffer b) (getUntypedBuffer b').
Proof.
  intros HC Hl Hu Hl' Hu'.
  destruct (under_inside st _ b l c HC ltac:(by left) Hl Hu) as [H1 H2].
  destruct (under_inside st _ b' l' c' HC ltac:(right; by left) Hl' Hu') as [H1' H2'].
  pose proof (inside_trans _ _ _ H1 H2) as Hin. pose proof (inside_trans _ _ _ H1' H2') as Hin'.
  destruct (decide (sb_id l = sb_id l')) as [E|Hne].
  - assert (l' = l) as -> by (eapply (id_unique (largeBlockSuperblocks st));
      [apply (co_ids _ _ HC Large)|done..]).
    apply (apart_same _ _ (sb_whole l)); [by eapply large_dev_ok|done|done|].
    destruct (under_apart st b b' bs l c c' HC Hl Hu Hu') as [Hm|(m & _ & _ & _ & _ & Hm)]; [|done].
    intros [M1 M2]. apply Hm. destruct H1 as (_ & ?), H1' as (_ & ?). unfold meets. lia.
  - destruct (perm_two _ l l' Hl Hl') as [ls E]; [congruence|].
    apply (apart_inside _ _ (sb_whole l) (sb_whole l')); [by eapply large_dev_ok..|done|done|].
    eapply fop_two; [apply _|apply (co_devs _ _ HC)|]. unfold devs. rewrite E. cbn.
    reflexivity.
Qed.

Lemma core_apart st b b' bs :
  Core st (b :: b' :: bs) -> phys_apart (getUntypedBuffer b) (getUntypedBuffer b').
Proof.
  intros HC. destruct (decide (holder b = None)) as [E|E].
  { destruct b as [u| |]; [|done..]. by eapply own_apart. }
  destruct (decide (holder b' = None)) as [E'|E'].
  { destruct b' as [u| |]; [|done..]. symmetry. eapply own_apart.
    eapply core_perm; [apply perm_swap|exact HC]. }
  assert (Hun : exists l c, l ∈ largeBlockSuperblocks st /\ under st l b c).
  { pose proof (block_under st _ b HC ltac:(by left)) as Hu. by destruct b. }
  assert (Hun' : exists l c, l ∈ largeBlockSuperblocks st /\ under st l b' c).
  { pose proof (block_under st _ b' HC ltac:(right; by left)) as Hu. by destruct b'. }
  destruct Hun as (l & c & Hl & Hu), Hun' as (l' & c' & Hl' & Hu').
  exact (carved_apart st b b' bs l c l' c' HC Hl Hu Hl' Hu').
Qed.
End core.

(** The superblocks of both levels are buddy superblocks. *)
#[export] Instance level_superblock (lv : level) : Superblock (min_k lv) (max_k lv).
Proof.
  destruct lv.
  - refine (buddy_superblock LARGE_MIN LARGE_MAX _). unfold LARGE_MIN, LARGE_MAX. lia.
  - refine (buddy_superblock MEDIUM_MIN MEDIUM_MAX _). unfold MEDIUM_MIN, MEDIUM_MAX. lia.
Defined.

(** ** Histories *)

Record request := { rq_type : Z; rq_dir : Z; rq_size : Z; rq_region : Z }.

Definition allocate_for (openBuffer : Z -> Z -> Z -> Z -> option backing) (rq : request) : AM Block :=
  Allocator_allocate openBuffer (rq_type rq) (rq_dir rq) (rq_size rq) (rq_region rq).

Abbreviation outstanding := (list (request * Block)).

(** The allocator and the outstanding blocks, each with the request it
    answers, after a sequence of calls. *)
Inductive run : allocator -> outstanding -> Prop :=
| run_new : run new_allocator []
| run_allocate openBuffer rq b st st' bs :
    run st bs -> device_ok openBuffer (devs st (snd <$> bs)) ->
    allocate_for openBuffer rq st = Ret (Val b) st' -> run st' ((rq, b) :: bs)
| run_refused openBuffer rq e st st' bs :
    run st bs -> device_ok openBuffer (devs st (snd <$> bs)) ->
    allocate_for openBuffer rq st = Ret (Exn e) st' -> run st' bs
| run_deallocate rq b st st' l1 l2 :
    run st (l1 ++ (rq, b) :: l2) -> Allocator_deallocate b st = Ret (Val tt) st' -> run st' (l1 ++ l2).

Abbreviation core := (Core level_superblock).

Definition answered (x : request * Block) : Prop :=
  serves (rq_type x.1) (rq_dir x.1) (rq_size x.1) (rq_region x.1) (getUntypedBuffer x.2).

Lemma core_new : core new_allocator [].
Proof.
  split; try (intros [] ? Hn; by apply not_elem_of_nil in Hn).
  - intros []; constructor.
  - intros b Hn. by apply not_elem_of_nil in Hn.
  - constructor.
Qed.

Lemma run_inv st bs :
  run st bs ->
  core st (snd <$> bs) /\ Forall answered bs /\
  (Forall (fun b => holder b = None) (snd <$> bs) -> no_superblocks st).
Proof.
  induction 1 as [|openBuffer rq b st st' bs _ (HC & Hs & Hn) Hdev E|
                  openBuffer rq e st st' bs _ (HC & Hs & Hn) Hdev E|rq b st st' l1 l2 _ (HC & Hs & _) E].
  - split_and!; [apply core_new|constructor|done].
  - pose proof (Allocator_allocate_ok level_superblock openBuffer (rq_type rq) (rq_dir rq) (rq_size rq)
      (rq_region rq) st _ HC Hdev) as Ha.
    destruct (ewp_run _ _ _ _ _ _ Ha E) as (HC' & Hans & Hsame). split_and!; [done|by constructor|].
    cbn. rewrite Forall_cons_iff. intros [Hb Hrest]. rewrite (Hsame Hb). by apply Hn.
  - pose proof (Allocator_allocate_ok level_superblock openBuffer (rq_type rq) (rq_dir rq) (rq_size rq)
      (rq_region rq) st _ HC Hdev) as Ha.
    by destruct (ewp_run _ _ _ _ _ _ Ha E) as (_ & ->).
  - assert (HC' : core st (b :: (snd <$> l1 ++ l2))).
    { eapply core_perm; [|exact HC]. rewrite !fmap_app. cbn. symmetry. apply Permutation_middle. }
    pose proof (Allocator_deallocate_ok level_superblock b st _ HC') as Hd.
    destruct (ewp_run _ _ _ _ _ _ Hd E) as (HC2 & Hn). split_and!; [done| |done].
    rewrite Forall_app, Forall_cons_iff in Hs. apply Forall_app. tauto.
Qed.

Lemma fop_of_pairs {A} (R : A -> A -> Prop) l :
  (forall x y r, l ≡ₚ x :: y :: r -> R x y) -> ForallOrdPairs R l.
Proof.
  induction l as [|x l IH]; intros Hp; constructor.
  - apply Forall_forall. intros y Hy. apply list_elem_of_In, elem_of_Permutation in Hy as [r E].
    apply (Hp x y r). by rewrite E.
  - apply IH. intros y z r E. apply (Hp y z (x :: r)). rewrite E. apply (Permutation_middle [y; z] r x).
Qed.

(** ** Properties *)

Section properties.
Context (st : allocator) (bs : outstanding) (Hrun : run st bs).


(** A request fails only when the device refuses to open a buffer, and
    then nothing has changed: no [bad_alloc] or [runtime_error] of the
    superblocks escapes and no dangling superblock is used. *)
Lemma allocate_only_device_error openBuffer rq :
  device_ok openBuffer (devs st (snd <$> bs)) ->
  match allocate_for openBuffer rq st with
  | Ret (Val _) _ => True
  | Ret (Exn e) st' => e = DeviceError /\ st' = st
  | Ub | NoFuel => False
  end.
Proof using Hrun.
  intros Hdev. destruct (run_inv st bs Hrun) as (HC & _).
  pose proof (Allocator_allocate_ok level_superblock openBuffer (rq_type rq) (rq_dir rq) (rq_size rq)
    (rq_region rq) st _ HC Hdev) as Ha.
  unfold allocate_for, ewp, post in *. by destruct (Allocator_allocate _ _ _ _ _ st) as [[]| |].
Qed.

(** Every outstanding block can be released: no destructor aborts,
    terminates or follows a dangling pointer.  When no outstanding block comes
    from a superblock none is kept, and the allocator can be destroyed. *)
Lemma release_total :
  (forall x, x ∈ bs -> exists st', Allocator_deallocate x.2 st = Ret (Val tt) st') /\
  (Forall (fun x => holder x.2 = None) bs -> no_superblocks st /\ Allocator_destroy st = Ret (Val tt) st).
Proof using Hrun.
  destruct (run_inv st bs Hrun) as (HC & _ & Hn). split.
  - intros x [r E]%elem_of_Permutation.
    assert (HC' : core st (x.2 :: (snd <$> r))) by (eapply core_perm; [|exact HC]; by rewrite E).
    pose proof (Allocator_deallocate_ok level_superblock x.2 st _ HC') as Hd.
    unfold ewp, post in Hd. destruct (Allocator_deallocate x.2 st) as [[[]|] st'| |]; try done. by exists st'.
  - intros Hl. assert (Hno : no_superblocks st) by (by apply Hn, Forall_fmap).
    split; [done|]. destruct Hno as [H1 H2]. destruct st as [ls ms n]. cbn in *. by subst.
Qed.

(** The allocator always answers.  A request fails only when the device
    refuses to open a buffer, and then nothing has changed: no exception of a
    superblock escapes and no dangling superblock is used.  Every outstanding
    block can be released without abort, terminate or dangling pointer.  When
    no outstanding block comes from a superblock none is kept, and the
    allocator can be destroyed. *)
Theorem allocator_total :
  (forall openBuffer rq, device_ok openBuffer (devs st (snd <$> bs)) ->
     match allocate_for openBuffer rq st with
     | Ret (Val _) _ => True
     | Ret (Exn e) st' => e = DeviceError /\ st' = st
     | Ub | NoFuel => False
     end) /\
  (forall x, x ∈ bs -> exists st', Allocator_deallocate x.2 st = Ret (Val tt) st') /\
  (Forall (fun x => holder x.2 = None) bs -> no_superblocks st /\ Allocator_destroy st = Ret (Val tt) st).
Proof using Hrun.
  split; [exact allocate_only_device_error|exact release_total].
Qed.
End properties.

(** ** Examples *)

(** A device with DDR memory at [base], given in whole blocks of 64 MB. *)
Definition ddr_bank (base : Z) (type size region dir : Z) : option backing :=
  if (type =? Ddr) && (0 <? size) && (size <=? 2 ^ 30) then
    Some {| bk_physAddr := base; bk_size := (size + 2 ^ 26 - 1) / 2 ^ 26 * 2 ^ 26; bk_allocType := type;
            bk_allocDir := dir; bk_allocArg := region |}
  else None.

Definition no_device (type size region dir : Z) : option backing := None.

Definition rq_small : request := {| rq_type := Ddr; rq_dir := 0; rq_size := 5000; rq_region := NON_HBM |}.
Definition rq_medium : request := {| rq_type := Ddr; rq_dir := 0; rq_size := 3 * 2 ^ 20; rq_region := NON_HBM |}.
Definition rq_huge : request := {| rq_type := Ddr; rq_dir := 0; rq_size := 2 ^ 30; rq_region := NON_HBM |}.

Definition outcome {A} (a : A) (r : res allocator (except alloc_exn A)) : A * allocator :=
  match r with Ret (Val x) st => (x, st) | _ => (a, new_allocator) end.

Definition first_block := outcome (LargeBlock second_2mb) (allocate_for (ddr_bank (2 ^ 42)) rq_small new_allocator).
Definition second_block := outcome (LargeBlock second_2mb) (allocate_for no_device rq_medium first_block.2).

Definition rq_rounded : request := {| rq_type := Ddr; rq_dir := 0; rq_size := 2 ^ 26 + 1; rq_region := NON_HBM |}.
Definition third_block := outcome (LargeBlock second_2mb) (allocate_for (ddr_bank (2 ^ 42 + 2 ^ 30)) rq_rounded second_block.2).

Definition two_blocks : outstanding := [(rq_medium, second_block.1); (rq_small, first_block.1)].
Definition three_blocks : outstanding := (rq_rounded, third_block.1) :: two_blocks.

Lemma ddr_bank_ok base open :
  0 <= base <= 2 ^ 50 -> Forall (fun u => bk_physAddr (ub_backing u) + bk_size (ub_backing u) <= base) open ->
  device_ok (ddr_bank base) open.
Proof.
  intros Hbase Hopen type size region dir bk. unfold ddr_bank.
  destruct (Z.eqb_spec type Ddr) as [->|]; [|done]. destruct (Z.ltb_spec 0 size); [|done].
  destruct (Z.leb_spec size (2 ^ 30)); [|done]. intros [= <-]. cbn [bk_physAddr bk_size bk_allocType bk_allocDir bk_allocArg].
  assert (size <= (size + 2 ^ 26 - 1) / 2 ^ 26 * 2 ^ 26 <= 2 ^ 31).
  { pose proof (Z.div_mod (size + 2 ^ 26 - 1) (2 ^ 26) ltac:(lia)).
    pose proof (Z.mod_pos_bound (size + 2 ^ 26 - 1) (2 ^ 26) ltac:(lia)). lia. }
  split_and!; try done; try (unfold UINT64_MAX; lia).
  revert Hopen. apply Forall_impl. intros u Hu. right. exact Hu.
Qed.

Lemma run_two : run second_block.2 two_blocks.
Proof.
  eapply (run_allocate no_device rq_medium); [eapply (run_allocate (ddr_bank (2 ^ 42)) rq_small); [constructor|..]|..].
  - by apply ddr_bank_ok.
  - by vm_compute.
  - done.
  - by vm_compute.
Qed.

Lemma run_three : run third_block.2 three_blocks.
Proof.
  eapply (run_allocate (ddr_bank (2 ^ 42 + 2 ^ 30)) rq_rounded); [apply run_two| |by vm_compute].
  apply ddr_bank_ok; [done|]. apply (bool_decide_unpack _). by vm_compute.
Qed.


Lemma allocator_total_witness :
  (exists st', allocate_for no_device rq_huge second_block.2 = Ret (Exn DeviceError) st' /\
    st' = second_block.2) /\
  exists st', Allocator_deallocate first_block.1 second_block.2 = Ret (Val tt) st'.
Proof.
  destruct (allocator_total second_block.2 two_blocks run_two) as (Ha & Hr & _). split.
  - specialize (Ha no_device rq_huge).
    destruct (allocate_for no_device rq_huge second_block.2) as [[b|e] st'| |] eqn:E; [by vm_compute in E| | |].
    + destruct Ha as [-> ->]; [done|]. by exists second_block.2.
    + by destruct Ha.
    + by destruct Ha.
  - apply (Hr (rq_small, first_block.1)). right. by left.
Defined.
