(* ===== verification/BarrierLowering.v ===== *)
(** * Barrier lowering

    Models the barrier half of vrt/src/graph/device/fpga/control_lowering.cpp
    and its header: [lowerBarrierEvents] places every event of a graph, the
    completion of a node, on one bit of an RP1 barrier bucket.  A packet can
    await bits of one bucket only, so an event whose dependencies lie in
    several buckets gets collector nodes that gather each of them; a
    dependency on an event of an enclosing reset domain goes through a
    transition node of the domain itself.

    [std::map] is [gmap] iterated in the order of its keys; [std::sort] of the
    buckets, whose order of equal elements is unspecified, is the parameter
    [bucket_sort].  Exceptions carry the constructor of the message they are
    thrown with.  [fuel] bounds the walks over the domain tree, which need not
    be one, and the recursion of [allocateEventsInDomain]. *)

From S2P Require Import Prelude Rp1Protocol Except.
From stdpp Require Export gmap strings sorting pretty.

Open Scope Z_scope.

(** ** Data *)

Record BarrierPhysicalEvent := { pe_bucket : Z; pe_mask : Z }.
Record BarrierBucketRange := { rg_start : Z; rg_end : Z; rg_empty : bool }.
Record BarrierEventSpec := { es_id : string; es_domain : string; es_depends : list string }.
Record BarrierResetDomainSpec := {
  ds_id : string; ds_parent : option string; ds_children : list string
}.

Inductive BarrierSyntheticKind := Collector | Transition.
Record BarrierSyntheticNode := {
  sn_kind : BarrierSyntheticKind; sn_id : string; sn_domain : string;
  sn_depends : list string; sn_set : string
}.

Record BarrierLoweringInput := {
  rootDomain : string;
  in_domains : list BarrierResetDomainSpec;
  in_events : list BarrierEventSpec;
  bitsPerBucket : Z;
  maxBuckets : Z
}.

Record BarrierLoweringResult := {
  out_events : gmap string BarrierPhysicalEvent;
  domainRanges : gmap string BarrierBucketRange;
  syntheticNodes : list BarrierSyntheticNode
}.

Record BarrierBucket := { bk_id : Z; bk_slots : list string }.

Definition freeCount (b : BarrierBucket) : nat :=
  length (filter (fun slot => slot = EmptyString) (bk_slots b)).

Record BarrierEvent := {
  ev_id : string; ev_domain : string; ev_depends : list string;
  ev_affinity : gmap string Z;
  ev_bucket : Z; ev_slot : Z;
  ev_isPseudo : bool; ev_isTransition : bool
}.

Record BarrierDomain := {
  dm_id : string; dm_parent : option string; dm_children : list string;
  dm_localBuckets : list BarrierBucket; dm_range : BarrierBucketRange
}.

(** [std::unique] *)
Fixpoint unique (v : list string) : list string :=
  match v with
  | x :: ((y :: _) as v') => if decide (x = y) then unique v' else x :: unique v'
  | _ => v
  end.

Definition dedupSorted (v : list string) : list string := unique (merge_sort String.le v).

(** The keys of a [std::map] in iteration order. *)
Definition ids {A} (m : gmap string A) : list string := merge_sort String.le (map_to_list m).*1.

(** [map.emplace] *)
Definition emplace {A} (k : string) (v : A) (m : gmap string A) : gmap string A :=
  match m !! k with Some _ => m | None => <[k := v]> m end.

(** What is thrown: the two kinds of bad limits, a missing root, a bad event;
    a bad dependency; no bucket left; two broken internal assumptions; and
    [std::out_of_range] of [map::at]. *)
Inductive lowering_exn :=
  | BadBitsPerBucket | BadMaxBuckets | MissingRoot | UnknownDomain | DuplicateEvent
  | UnknownEvent | EscapesDomain | BucketsExhausted | BucketFull | NotAllocated | MapAt.

(** ** The lowerer *)

Record BarrierLowerer := {
  root_ : string;
  domains_ : gmap string BarrierDomain;
  events_ : gmap string BarrierEvent;
  syntheticNodes_ : list BarrierSyntheticNode;
  bitsPerBucket_ : Z;
  maxBuckets_ : Z;
  allocatedBucketCount_ : Z;
  nextCollector_ : Z;
  nextTransition_ : Z
}.

Definition set_domains m (s : BarrierLowerer) : BarrierLowerer := {|
  root_ := root_ s; domains_ := m; events_ := events_ s; syntheticNodes_ := syntheticNodes_ s;
  bitsPerBucket_ := bitsPerBucket_ s; maxBuckets_ := maxBuckets_ s;
  allocatedBucketCount_ := allocatedBucketCount_ s; nextCollector_ := nextCollector_ s;
  nextTransition_ := nextTransition_ s |}.
Definition set_events m (s : BarrierLowerer) : BarrierLowerer := {|
  root_ := root_ s; domains_ := domains_ s; events_ := m; syntheticNodes_ := syntheticNodes_ s;
  bitsPerBucket_ := bitsPerBucket_ s; maxBuckets_ := maxBuckets_ s;
  allocatedBucketCount_ := allocatedBucketCount_ s; nextCollector_ := nextCollector_ s;
  nextTransition_ := nextTransition_ s |}.
Definition set_synthetic l (s : BarrierLowerer) : BarrierLowerer := {|
  root_ := root_ s; domains_ := domains_ s; events_ := events_ s; syntheticNodes_ := l;
  bitsPerBucket_ := bitsPerBucket_ s; maxBuckets_ := maxBuckets_ s;
  allocatedBucketCount_ := allocatedBucketCount_ s; nextCollector_ := nextCollector_ s;
  nextTransition_ := nextTransition_ s |}.
Definition set_count n (s : BarrierLowerer) : BarrierLowerer := {|
  root_ := root_ s; domains_ := domains_ s; events_ := events_ s; syntheticNodes_ := syntheticNodes_ s;
  bitsPerBucket_ := bitsPerBucket_ s; maxBuckets_ := maxBuckets_ s;
  allocatedBucketCount_ := n; nextCollector_ := nextCollector_ s;
  nextTransition_ := nextTransition_ s |}.
Definition set_nextCollector n (s : BarrierLowerer) : BarrierLowerer := {|
  root_ := root_ s; domains_ := domains_ s; events_ := events_ s; syntheticNodes_ := syntheticNodes_ s;
  bitsPerBucket_ := bitsPerBucket_ s; maxBuckets_ := maxBuckets_ s;
  allocatedBucketCount_ := allocatedBucketCount_ s; nextCollector_ := n;
  nextTransition_ := nextTransition_ s |}.
Definition set_nextTransition n (s : BarrierLowerer) : BarrierLowerer := {|
  root_ := root_ s; domains_ := domains_ s; events_ := events_ s; syntheticNodes_ := syntheticNodes_ s;
  bitsPerBucket_ := bitsPerBucket_ s; maxBuckets_ := maxBuckets_ s;
  allocatedBucketCount_ := allocatedBucketCount_ s; nextCollector_ := nextCollector_ s;
  nextTransition_ := n |}.

Definition with_depends l (e : BarrierEvent) : BarrierEvent := {|
  ev_id := ev_id e; ev_domain := ev_domain e; ev_depends := l; ev_affinity := ev_affinity e;
  ev_bucket := ev_bucket e; ev_slot := ev_slot e; ev_isPseudo := ev_isPseudo e;
  ev_isTransition := ev_isTransition e |}.
Definition with_affinity a (e : BarrierEvent) : BarrierEvent := {|
  ev_id := ev_id e; ev_domain := ev_domain e; ev_depends := ev_depends e; ev_affinity := a;
  ev_bucket := ev_bucket e; ev_slot := ev_slot e; ev_isPseudo := ev_isPseudo e;
  ev_isTransition := ev_isTransition e |}.
Definition with_place b i (e : BarrierEvent) : BarrierEvent := {|
  ev_id := ev_id e; ev_domain := ev_domain e; ev_depends := ev_depends e;
  ev_affinity := ev_affinity e; ev_bucket := b; ev_slot := i; ev_isPseudo := ev_isPseudo e;
  ev_isTransition := ev_isTransition e |}.
Definition with_buckets l (d : BarrierDomain) : BarrierDomain := {|
  dm_id := dm_id d; dm_parent := dm_parent d; dm_children := dm_children d;
  dm_localBuckets := l; dm_range := dm_range d |}.
Definition with_range r (d : BarrierDomain) : BarrierDomain := {|
  dm_id := dm_id d; dm_parent := dm_parent d; dm_children := dm_children d;
  dm_localBuckets := dm_localBuckets d; dm_range := r |}.

Abbreviation LM := (EM lowering_exn BarrierLowerer).

Definition alter_event (f : BarrierEvent -> BarrierEvent) (id : string) : LM unit :=
  updates (fun s => set_events (alter f id (events_ s)) s).
Definition alter_domain (f : BarrierDomain -> BarrierDomain) (id : string) : LM unit :=
  updates (fun s => set_domains (alter f id (domains_ s)) s).

(** [events_.at(id)] and [domains_.at(id)] *)
Definition event_at (id : string) : LM BarrierEvent := fun s =>
  match events_ s !! id with Some e => Ret (Val e) s | None => Ret (Exn MapAt) s end.
Definition domain_at (id : string) : LM BarrierDomain := fun s =>
  match domains_ s !! id with Some d => Ret (Val d) s | None => Ret (Exn MapAt) s end.

(** ** Construction *)

Definition no_range : BarrierBucketRange := {| rg_start := 0; rg_end := 0; rg_empty := true |}.

Definition initial (input : BarrierLoweringInput) : BarrierLowerer := {|
  root_ := rootDomain input; domains_ := ∅; events_ := ∅; syntheticNodes_ := [];
  bitsPerBucket_ := bitsPerBucket input; maxBuckets_ := maxBuckets input;
  allocatedBucketCount_ := 0; nextCollector_ := 0; nextTransition_ := 0 |}.

Definition add_domain (d : BarrierResetDomainSpec) : LM unit :=
  updates (fun s => set_domains (emplace (ds_id d) {|
    dm_id := ds_id d; dm_parent := ds_parent d; dm_children := ds_children d;
    dm_localBuckets := []; dm_range := no_range |} (domains_ s)) s).

Definition new_event (id domain : string) (depends : list string) (pseudo transition : bool)
    : BarrierEvent := {|
  ev_id := id; ev_domain := domain; ev_depends := depends; ev_affinity := ∅;
  ev_bucket := -1; ev_slot := -1; ev_isPseudo := pseudo; ev_isTransition := transition |}.

Definition add_event (e : BarrierEventSpec) : LM unit :=
  domains ← asks domains_;
  throw_if (bool_decide (domains !! es_domain e = None)) UnknownDomain;;
  events ← asks events_;
  throw_if (bool_decide (is_Some (events !! es_id e))) DuplicateEvent;;
  updates (set_events (<[es_id e := new_event (es_id e) (es_domain e) (es_depends e) false false]> events)).

Definition construct (input : BarrierLoweringInput) : LM unit :=
  bits ← asks bitsPerBucket_;
  throw_if ((bits =? 0) || (31 <? bits)) BadBitsPerBucket;;
  buckets ← asks maxBuckets_;
  throw_if ((buckets =? 0) || (RP1_MAX_BUCKETS <? buckets)) BadMaxBuckets;;
  each (in_domains input) add_domain;;
  domains ← asks domains_;
  root ← asks root_;
  throw_if (bool_decide (domains !! root = None)) MissingRoot;;
  each (in_events input) add_event.

(** ** Dependencies between domains *)

Fixpoint walk_up (fuel : nat) (maybeAncestor : string) (cur : option string) : LM bool :=
  match cur with
  | None => mret false
  | Some c =>
      if decide (c = maybeAncestor) then mret true
      else match fuel with
      | O => out_of_fuel
      | S fuel' => d ← domain_at c; walk_up fuel' maybeAncestor (dm_parent d)
      end
  end.

Definition isAncestor (fuel : nat) (maybeAncestor domain : string) : LM bool :=
  d ← domain_at domain; walk_up fuel maybeAncestor (dm_parent d).

Definition validate_edge (fuel : nat) (event : BarrierEvent) (depId : string) : LM unit :=
  events ← asks events_;
  match events !! depId with
  | None => throw UnknownEvent
  | Some dep =>
      if decide (ev_domain dep = ev_domain event) then mret tt
      else
        ok ← isAncestor fuel (ev_domain dep) (ev_domain event);
        throw_if (negb ok) EscapesDomain
  end.

Definition validateDomainEdges (fuel : nat) : LM unit :=
  events ← asks events_;
  each (ids events) (fun id =>
    event ← event_at id; each (ev_depends event) (validate_edge fuel event)).

Abbreviation transition_cache := (gmap (string * string) string).

Definition transition_id (n : Z) : string := ("__transition_" +:+ pretty n)%string.
Definition collector_id (n : Z) : string := ("__collector_" +:+ pretty n)%string.

Definition add_synthetic (kind : BarrierSyntheticKind) (id domain : string) (depends : list string)
    : LM unit :=
  let pseudo := match kind with Collector => true | Transition => false end in
  updates (fun s => set_events
    (emplace id (new_event id domain depends pseudo (negb pseudo)) (events_ s)) s);;
  updates (fun s => set_synthetic (syntheticNodes_ s ++
    [{| sn_kind := kind; sn_id := id; sn_domain := domain; sn_depends := depends;
        sn_set := id |}]) s).

Definition getOrCreateTransition (source targetDomain : string) (cache : transition_cache)
    : LM (string * transition_cache) :=
  match cache !! (source, targetDomain) with
  | Some id => mret (id, cache)
  | None =>
      n ← asks nextTransition_;
      updates (set_nextTransition (add32 n 1));;
      add_synthetic Transition (transition_id n) targetDomain [source];;
      mret (transition_id n, <[(source, targetDomain) := transition_id n]> cache)
  end.

Definition rewrite_dep (event : BarrierEvent) (acc : list string * transition_cache) (depId : string)
    : LM (list string * transition_cache) :=
  let '(rewritten, cache) := acc in
  dep ← event_at depId;
  if decide (ev_domain dep = ev_domain event) then mret (rewritten ++ [depId], cache)
  else
    r ← getOrCreateTransition (ev_id dep) (ev_domain event) cache;
    mret (rewritten ++ [r.1], r.2).

Definition insertTransitions : LM unit :=
  events ← asks events_;
  loop (fun cache id =>
    event ← event_at id;
    r ← loop (rewrite_dep event) ([], cache) (ev_depends event);
    alter_event (with_depends (dedupSorted r.1)) id;;
    mret r.2) ∅ (ids events);;
  mret tt.

(** ** Collectors *)

(** Is [e] a collector of [domain] that has no bit yet? *)
Definition unplaced_pseudo (domain : string) (e : BarrierEvent) : bool :=
  bool_decide (ev_domain e = domain) && ev_isPseudo e && (ev_bucket e <? 0).

Fixpoint expandDeps (fuel : nat) (expansions : gmap string (list string)) (deps : list string)
    : option (list string) :=
  match fuel with
  | O => None
  | S fuel' =>
      out ← mapM (fun dep =>
        match expansions !! dep with
        | None => Some [dep]
        | Some ds => expandDeps fuel' expansions ds
        end) deps;
      Some (dedupSorted (concat out))
  end.

(** The loop that expands the expansions in place. *)
Definition expand_all (fuel : nat) (expansions : gmap string (list string))
    : LM (gmap string (list string)) :=
  loop (fun exps id =>
    match exps !! id with
    | None => throw MapAt
    | Some deps =>
        match expandDeps fuel exps deps with
        | Some out => mret (<[id := out]> exps)
        | None => out_of_fuel
        end
    end) expansions (ids expansions).

Definition collect_expansions (domain : string) (view : list string) : LM (gmap string (list string)) :=
  loop (fun exps id =>
    event ← event_at id;
    mret (if unplaced_pseudo domain event then <[ev_id event := ev_depends event]> exps else exps))
    ∅ view.

(** One event's dependencies with the collectors replaced. *)
Definition substitute (expansions : gmap string (list string)) (deps : list string) : list string :=
  dedupSorted (concat (map (fun dep => default [dep] (expansions !! dep)) deps)).

Definition drop_synthetic (id : string) : LM unit :=
  updates (fun s => set_events (delete id (events_ s)) s);;
  updates (fun s => set_synthetic (filter (fun n => sn_set n <> id) (syntheticNodes_ s)) s).

(** The view without the collectors that have no bit. *)
Definition erase_unplaced (domain : string) (view : list string) : LM (list string) :=
  loop (fun kept id =>
    event ← event_at id;
    mret (if unplaced_pseudo domain event then kept else kept ++ [id])) [] view.

Definition removeUnplacedPseudoEvents (fuel : nat) (domain : string) (view : list string)
    : LM (list string) :=
  exps ← collect_expansions domain view;
  if decide (exps = ∅) then mret view
  else
    exps' ← expand_all fuel exps;
    each view (fun id =>
      event ← event_at id;
      if unplaced_pseudo domain event then mret tt
      else alter_event (with_depends (substitute exps' (ev_depends event))) id);;
    view' ← erase_unplaced domain view;
    each (ids exps') drop_synthetic;;
    mret view'.

Abbreviation collectors := (gmap (list string) string).

Definition placed_collectors (domain : string) (view : list string) : LM collectors :=
  loop (fun m id =>
    event ← event_at id;
    mret (if bool_decide (ev_domain event = domain) && ev_isPseudo event && (0 <=? ev_bucket event)
          then <[dedupSorted (ev_depends event) := id]> m else m)) ∅ view.

(** The dependencies of an event by bucket, and those without a bit. *)
Definition split_deps (deps : list string) : LM (gmap Z (list string) * list string) :=
  loop (fun acc depId =>
    let '(byBucket, freeDeps) := acc in
    dep ← event_at depId;
    mret (if 0 <=? ev_bucket dep
          then (<[ev_bucket dep := default [] (byBucket !! ev_bucket dep) ++ [depId]]> byBucket, freeDeps)
          else (byBucket, freeDeps ++ [depId]))) (∅, []) deps.

Definition depsFitOneAwaitBucket (byBucket : gmap Z (list string)) (freeDeps : list string) : bool :=
  bool_decide (size byBucket = 0%nat) || (bool_decide (size byBucket = 1%nat) && bool_decide (freeDeps = [])).

(** The dependency groups in the order of their buckets. *)
Definition groups (byBucket : gmap Z (list string)) : list (list string) :=
  map (fun bucket => default [] (byBucket !! bucket)) (merge_sort Z.le (map_to_list byBucket).*1).

(** The collector of a group, created when there is none. *)
Definition collector_for (domain : string) (acc : list string * (collectors * list string))
    (group : list string) : LM (list string * (collectors * list string)) :=
  let '(rewritten, (byDeps, view)) := acc in
  let deps := dedupSorted group in
  match byDeps !! deps with
  | Some pid => mret (rewritten ++ [pid], (byDeps, view))
  | None =>
      n ← asks nextCollector_;
      updates (set_nextCollector (add32 n 1));;
      add_synthetic Collector (collector_id n) domain deps;;
      mret (rewritten ++ [collector_id n], (<[deps := collector_id n]> byDeps, view ++ [collector_id n]))
  end.

Definition gather_event (domain : string) (acc : collectors * list string) (id : string)
    : LM (collectors * list string) :=
  event ← event_at id;
  if negb (bool_decide (ev_domain event = domain)) || ev_isPseudo event ||
     (length (ev_depends event) <=? 1)%nat
  then mret acc
  else
    d ← split_deps (ev_depends event);
    if depsFitOneAwaitBucket d.1 d.2 then mret acc
    else
      r ← loop (collector_for domain) ([], acc) (groups d.1);
      alter_event (with_depends (dedupSorted (r.1 ++ d.2))) id;;
      mret r.2.

Definition createPseudoEvents (domain : string) (view : list string) : LM (list string) :=
  byDeps ← placed_collectors domain view;
  r ← loop (gather_event domain) (byDeps, view) view;
  mret r.2.

(** ** Affinity *)

(** The pairs [(l[i], l[j])] with [i < j], in loop order. *)
Fixpoint pairs (l : list string) : list (string * string) :=
  match l with
  | [] => []
  | x :: l' => map (pair x) l' ++ pairs l'
  end.

(** [events_.at(a).affinity[b]++] *)
Definition bump_affinity (a b : string) : LM unit :=
  e ← event_at a;
  alter_event (with_affinity (<[b := add32 (default 0 (ev_affinity e !! b)) 1]> (ev_affinity e))) a.

Definition recalculateAffinities (domain : string) (view : list string) : LM unit :=
  each view (fun id =>
    event ← event_at id;
    ewhen (bool_decide (ev_domain event = domain)) (alter_event (with_affinity ∅) id));;
  each view (fun id =>
    event ← event_at id;
    ewhen (bool_decide (ev_domain event = domain))
      (each (pairs (ev_depends event)) (fun p => bump_affinity p.1 p.2;; bump_affinity p.2 p.1))).

(** [std::max_element]: the index of the first largest score. *)
Fixpoint max_from (scores : list Z) (k best : nat) (bestScore : Z) : nat :=
  match scores with
  | [] => best
  | x :: l => if bestScore <? x then max_from l (S k) k x else max_from l (S k) best bestScore
  end.
Definition max_element (scores : list Z) : nat :=
  match scores with [] => 0%nat | x :: l => max_from l 1 0 x end.

(** [std::swap(l[i], l[j])] *)
Definition swap_at (i j : nat) (l : list string) : list string :=
  match l !! i, l !! j with
  | Some x, Some y => <[i := y]> (<[j := x]> l)
  | _, _ => l
  end.

Definition totalAffinity (id : string) : LM Z :=
  e ← event_at id;
  mret (foldl (fun total other => add32 total (default 0 (ev_affinity e !! other))) 0 (ids (ev_affinity e))).

Definition affinity_to (chosen : list string) (id : string) : LM Z :=
  e ← event_at id;
  mret (foldl (fun score other =>
    match ev_affinity e !! other with Some w => add32 score w | None => score end) 0 chosen).

(** One step of the greedy order: the last best candidate from [i] on. *)
Definition pick_next (l : list string) (i : nat) : LM (list string) :=
  best ← loop (fun acc k =>
    score ← affinity_to (take i l) (l !!! k);
    mret (if acc.2 <=? score then (k, score) else acc)) (i, 0) (seq i (length l - i));
  mret (swap_at i best.1 l).

Definition smartSort (l : list string) : LM (list string) :=
  scores ← loop (fun acc id => total ← totalAffinity id; mret (acc ++ [total])) [] l;
  loop pick_next (swap_at 0 (max_element scores) l) (seq 1 (length l - 1)).

(** ** Placement *)

Section placement.
Context (bucket_sort : list BarrierBucket -> list BarrierBucket).

Definition unallocatedInDomain (domain : string) (view : list string) : LM (list string) :=
  loop (fun out id =>
    event ← event_at id;
    mret (if bool_decide (ev_domain event = domain) && (ev_bucket event <? 0) then out ++ [id] else out))
    [] view.

Definition buckets_of (domain : string) : LM (list BarrierBucket) :=
  d ← domain_at domain; mret (dm_localBuckets d).

(** The index of the bucket the C++ function returns a reference to. *)
Definition largestFreeBucketOrNew (domain : string) : LM nat :=
  buckets ← buckets_of domain;
  let best := max_element (map (fun b => Z.of_nat (freeCount b)) buckets) in
  if match buckets !! best with Some b => (0 <? freeCount b)%nat | None => false end then mret best
  else
    count ← asks allocatedBucketCount_;
    limit ← asks maxBuckets_;
    throw_if (limit <=? count) BucketsExhausted;;
    bits ← asks bitsPerBucket_;
    updates (set_count (u8 (count + 1)));;
    alter_domain (with_buckets (buckets ++
      [{| bk_id := count; bk_slots := replicate (Z.to_nat bits) EmptyString |}])) domain;;
    mret (length buckets).

(** [putEvents] on bucket [k] of [domain]. *)
Definition putEvents (domain : string) (k : nat) (l : list string) : LM unit :=
  each l (fun id =>
    event ← event_at id;
    if 0 <=? ev_bucket event then mret tt
    else
      buckets ← buckets_of domain;
      match buckets !! k with
      | None => undefined
      | Some bucket =>
          match list_find (fun slot => slot = EmptyString) (bk_slots bucket) with
          | None => throw BucketFull
          | Some (i, _) =>
              alter_event (with_place (bk_id bucket) (Z.of_nat i)) id;;
              alter_domain (with_buckets
                (<[k := {| bk_id := bk_id bucket; bk_slots := <[i := id]> (bk_slots bucket) |}]> buckets)) domain
          end
      end).

Fixpoint allocateEventsInDomain (fuel : nat) (domain : string) (view : list string) : LM unit :=
  match fuel with
  | O => out_of_fuel
  | S fuel' =>
      view1 ← removeUnplacedPseudoEvents fuel domain view;
      view2 ← createPseudoEvents domain view1;
      recalculateAffinities domain view2;;
      remaining ← unallocatedInDomain domain view2;
      if decide (remaining = []) then mret tt
      else
        unsorted ← buckets_of domain;
        alter_domain (with_buckets (bucket_sort unsorted)) domain;;
        buckets ← buckets_of domain;
        match list_find (fun b => (length remaining <= freeCount b)%nat) buckets with
        | Some (k, _) => putEvents domain k remaining
        | None =>
            k ← largestFreeBucketOrNew domain;
            sorted ← smartSort remaining;
            buckets ← buckets_of domain;
            match buckets !! k with
            | None => undefined
            | Some bucket =>
                putEvents domain k (take (Nat.min (freeCount bucket) (length sorted)) sorted);;
                allocateEventsInDomain fuel' domain view2
            end
        end
  end.

(** ** The domain tree *)

Fixpoint ancestors (fuel : nat) (cur : option string) : LM (list string) :=
  match cur with
  | None => mret []
  | Some c =>
      match fuel with
      | O => out_of_fuel
      | S fuel' => d ← domain_at c; rest ← ancestors fuel' (dm_parent d); mret (c :: rest)
      end
  end.

Definition allocatedAncestorEvents (fuel : nat) (domain : string) : LM (list string) :=
  d ← domain_at domain;
  above ← ancestors fuel (dm_parent d);
  events ← asks events_;
  loop (fun out id =>
    event ← event_at id;
    mret (if (0 <=? ev_bucket event) && bool_decide (ev_domain event ∈ above) then out ++ [id] else out))
    [] (ids events).

Definition domainEvents (domain : string) : LM (list string) :=
  events ← asks events_;
  loop (fun out id =>
    event ← event_at id;
    mret (if decide (ev_domain event = domain) then out ++ [id] else out)) [] (ids events).

Fixpoint allocateDomainTree (rounds fuel : nat) (domain : string) : LM unit :=
  match fuel with
  | O => out_of_fuel
  | S fuel' =>
      above ← allocatedAncestorEvents fuel domain;
      local ← domainEvents domain;
      allocateEventsInDomain rounds domain (above ++ local);;
      d ← domain_at domain;
      each (dm_children d) (allocateDomainTree rounds fuel')
  end.

(** ** Ranges and result *)

(** [range] extended by [r]; the first one replaces the empty range. *)
Definition join_range (range r : BarrierBucketRange) : BarrierBucketRange :=
  if rg_empty range then r
  else {| rg_start := Z.min (rg_start range) (rg_start r); rg_end := Z.max (rg_end range) (rg_end r);
          rg_empty := false |}.

Definition bucket_range (b : BarrierBucket) : BarrierBucketRange :=
  {| rg_start := bk_id b; rg_end := bk_id b; rg_empty := false |}.

Fixpoint assignRanges (fuel : nat) (domain : string) : LM BarrierBucketRange :=
  match fuel with
  | O => out_of_fuel
  | S fuel' =>
      d ← domain_at domain;
      let own := foldl (fun range b => join_range range (bucket_range b)) no_range (dm_localBuckets d) in
      range ← loop (fun range child =>
        childRange ← assignRanges fuel' child;
        mret (if rg_empty childRange then range else join_range range childRange)) own (dm_children d);
      alter_domain (with_range range) domain;;
      mret range
  end.

Definition physical (e : BarrierEvent) : BarrierPhysicalEvent :=
  {| pe_bucket := u8 (ev_bucket e); pe_mask := u32 (Z.shiftl 1 (ev_slot e)) |}.

Definition buildResult : LM BarrierLoweringResult :=
  events ← asks events_;
  each (ids events) (fun id =>
    event ← event_at id; throw_if ((ev_bucket event <? 0) || (ev_slot event <? 0)) NotAllocated);;
  domains ← asks domains_;
  synthetic ← asks syntheticNodes_;
  mret {| out_events := physical <$> events; domainRanges := dm_range <$> domains;
          syntheticNodes := synthetic |}.

Definition run (rounds fuel : nat) : LM BarrierLoweringResult :=
  validateDomainEdges fuel;;
  insertTransitions;;
  root ← asks root_;
  allocateDomainTree rounds fuel root;;
  assignRanges fuel root;;
  buildResult.

Definition lowerBarrierEvents (rounds fuel : nat) (input : BarrierLoweringInput)
    : res BarrierLowerer (except lowering_exn BarrierLoweringResult) :=
  (construct input;; run rounds fuel) (initial input).
End placement.

(** Insertion order for equal free counts, what [std::sort] gives on short
    vectors; used to evaluate examples. *)
Definition fewest_free (a b : BarrierBucket) : Prop := (freeCount a <= freeCount b)%nat.
#[export] Instance fewest_free_dec : RelDecision fewest_free.
Proof. intros a b. unfold fewest_free. apply _. Defined.
Definition stable_sort : list BarrierBucket -> list BarrierBucket := merge_sort fewest_free.
