(* ===== verification/BarrierFacts.v ===== *)
(** * Lists, loops and maps of the barrier lowering

    Equations and rules for the building blocks of [BarrierLowering]:
    [dedupSorted] makes canonical lists, the loops that only read have a
    closed form, and the ones that change the state have an invariant rule. *)

From S2P Require Import Prelude Rp1Protocol Except BarrierLowering.

(** ** Canonical lists *)

Lemma unique_elem x v : x ∈ unique v <-> x ∈ v.
Proof.
  induction v as [|y v IH]; [done|]. destruct v as [|z v]; [done|]. cbn [unique] in *.
  case_decide as E; [subst z; rewrite IH, !elem_of_cons; tauto|].
  rewrite elem_of_cons, IH, (elem_of_cons _ _ y). tauto.
Qed.

Lemma unique_sublist v : unique v `sublist_of` v.
Proof.
  induction v as [|y v IH]; [done|]. destruct v as [|z v]; [done|]. cbn [unique] in *.
  case_decide; [by apply sublist_cons|by apply sublist_skip].
Qed.

Lemma sublist_sorted (R : relation string) l1 l2 :
  l1 `sublist_of` l2 -> StronglySorted R l2 -> StronglySorted R l1.
Proof.
  induction 1 as [|x l1 l2 Hs IH|x l1 l2 Hs IH]; intros H; [done| |].
  - apply StronglySorted_cons in H as [Hx H]. apply StronglySorted_cons. split; [|auto].
    rewrite Forall_forall in *. intros y Hy. apply Hx.
    by eapply elem_of_submseteq, sublist_submseteq.
  - apply StronglySorted_cons in H as [_ H]. auto.
Qed.

Lemma unique_nodup v : StronglySorted String.le v -> NoDup (unique v).
Proof.
  induction v as [|y v IH]; intros H; [constructor|]. destruct v as [|z v]; [apply NoDup_singleton|].
  apply StronglySorted_cons in H as [Hy Hv]. specialize (IH Hv).
  change (NoDup (if decide (y = z) then unique (z :: v) else y :: unique (z :: v))).
  case_decide as E; [done|]. apply NoDup_cons. split; [|done].
  rewrite unique_elem. apply Forall_cons_iff in Hy as [Hyz _].
  apply StronglySorted_cons in Hv as [Hz _]. intros [->|Hin]%elem_of_cons; [done|].
  apply E, (anti_symm String.le); [done|]. rewrite Forall_forall in Hz. by apply Hz.
Qed.

Definition canon (l : list string) : Prop := StronglySorted String.le l /\ NoDup l.

Lemma canon_unique l1 l2 : canon l1 -> canon l2 -> (forall x, x ∈ l1 <-> x ∈ l2) -> l1 = l2.
Proof.
  intros [S1 N1] [S2 N2] H. apply (StronglySorted_unique String.le); [done|done|].
  by apply NoDup_Permutation.
Qed.

Lemma dedup_elem x v : x ∈ dedupSorted v <-> x ∈ v.
Proof. unfold dedupSorted. by rewrite unique_elem, merge_sort_Permutation. Qed.

Lemma dedup_canon v : canon (dedupSorted v).
Proof.
  assert (StronglySorted String.le (merge_sort String.le v)) by apply (StronglySorted_merge_sort _).
  split; [eapply sublist_sorted; [apply unique_sublist|done]|by apply unique_nodup].
Qed.

Lemma dedup_id v : canon v -> dedupSorted v = v.
Proof. intros. apply canon_unique; [apply dedup_canon|done|]. intros. apply dedup_elem. Qed.

Lemma canon_filter (P : string -> Prop) `{!forall x, Decision (P x)} l : canon l -> canon (filter P l).
Proof.
  intros [Hs Hn]. split; [eapply sublist_sorted; [apply sublist_filter|done]|by apply NoDup_filter].
Qed.

Lemma ids_elem {A} (m : gmap string A) id : id ∈ ids m <-> is_Some (m !! id).
Proof.
  unfold ids. rewrite merge_sort_Permutation, list_elem_of_fmap. split.
  - intros ([k v] & -> & Hin). apply elem_of_map_to_list in Hin. by exists v.
  - intros [v Hv]. exists (id, v). split; [done|]. by apply elem_of_map_to_list.
Qed.

Lemma ids_nodup {A} (m : gmap string A) : NoDup (ids m).
Proof. unfold ids. rewrite merge_sort_Permutation. apply NoDup_fst_map_to_list. Qed.

Lemma filter_all {A} (P : A -> Prop) `{!forall x, Decision (P x)} (l : list A) :
  (forall x, x ∈ l -> P x) -> filter P l = l.
Proof.
  induction l as [|x l IH]; intros Hall; [done|]. rewrite filter_cons_True by (apply Hall; by left).
  f_equal. apply IH. intros. apply Hall. by right.
Qed.

(** ** Loops *)

Lemma loop_reads {A B} (body : B -> A -> LM B) (f : B -> A -> B) s l :
  (forall b x, x ∈ l -> body b x s = Ret (Val (f b x)) s) ->
  forall b, loop body b l s = Ret (Val (foldl f b l)) s.
Proof.
  induction l as [|x l IH]; intros Hb b; cbn [loop foldl]; [done|].
  rewrite (bind_exact _ _ _ _ _ (Hb b x ltac:(by left))). apply IH. intros. apply Hb. by right.
Qed.

Lemma each_reads {A} (body : A -> LM unit) s l :
  (forall x, x ∈ l -> body x s = Ret (Val tt) s) -> each l body s = Ret (Val tt) s.
Proof.
  induction l as [|x l IH]; intros Hb; cbn [each]; [done|].
  rewrite (bind_exact _ _ _ _ _ (Hb x ltac:(by left))). apply IH. intros. apply Hb. by right.
Qed.

Lemma foldl_filter {A} (p : A -> bool) l : forall acc,
  foldl (fun out x => if p x then out ++ [x] else out) acc l = acc ++ filter (fun x => p x = true) l.
Proof.
  induction l as [|x l IH]; intros acc; cbn [foldl]; [by rewrite app_nil_r|].
  rewrite IH, filter_cons. destruct (p x); case_decide; try done. by rewrite <-(assoc_L app).
Qed.

(** ** Reading the events *)

Definition known (s : BarrierLowerer) (l : list string) : Prop :=
  forall id, id ∈ l -> is_Some (events_ s !! id).

Definition test (s : BarrierLowerer) (p : BarrierEvent -> bool) (id : string) : bool :=
  match events_ s !! id with Some e => p e | None => false end.

Lemma event_at_run s id e : events_ s !! id = Some e -> event_at id s = Ret (Val e) s.
Proof. unfold event_at. by intros ->. Qed.

Lemma domain_at_run s id d : domains_ s !! id = Some d -> domain_at id s = Ret (Val d) s.
Proof. unfold domain_at. by intros ->. Qed.

Lemma known_ids s : known s (ids (events_ s)).
Proof. intros id. by rewrite ids_elem. Qed.

(** A loop that selects ids by their event. *)
Lemma select_run s (p : BarrierEvent -> bool) (body : list string -> string -> LM (list string)) l :
  known s l ->
  (forall out id e, events_ s !! id = Some e ->
     body out id s = Ret (Val (if p e then out ++ [id] else out)) s) ->
  loop body [] l s = Ret (Val (filter (fun id => test s p id = true) l)) s.
Proof.
  intros Hk Hb. rewrite (loop_reads _ (fun out id => if test s p id then out ++ [id] else out)).
  - by rewrite foldl_filter.
  - intros out x Hx. destruct (Hk x Hx) as [e He]. rewrite (Hb out x e He). unfold test. by rewrite He.
Qed.

(** [event ← event_at id; k event] at a known event. *)
Lemma at_event {A} s id e (k : BarrierEvent -> LM A) :
  events_ s !! id = Some e -> (event_at id ≫= k) s = k e s.
Proof. intros He. apply bind_exact. by apply event_at_run. Qed.
