(* ===== verification/BarrierInv.v ===== *)
(** * The invariant of the barrier lowering

    What holds of a lowerer between the steps of [allocateEventsInDomain],
    apart from affinities, which only steer the order of placement: [abs]
    forgets them.  Every bit has one owner, collectors gather placed events of
    one bucket, and following the synthetic nodes of an event leads to the
    dependencies it was given. *)

From S2P Require Import Prelude Rp1Protocol Except BarrierLowering BarrierFacts.

Implicit Types (s a : BarrierLowerer) (e : BarrierEvent) (id d : string).

(** ** Views of a lowerer *)

Definition strip e : BarrierEvent := with_affinity ∅ e.
Definition abs s : BarrierLowerer := set_events (strip <$> events_ s) s.

Definition bucket_of a id : Z := match events_ a !! id with Some e => ev_bucket e | None => -1 end.
Definition synthetic e : bool := ev_isPseudo e || ev_isTransition e.
Definition collector d e : Prop := ev_domain e = d /\ ev_isPseudo e = true.

(** All of [deps] have a bit, in one bucket. *)
Definition fits a (deps : list string) : Prop :=
  exists bucket, 0 <= bucket /\ forall x, x ∈ deps -> bucket_of a x = bucket.

(** The domain tree: parent and children of every domain. *)
Abbreviation skeleton := (gmap string (option string * list string)).
Definition skeleton_of a : skeleton := (fun dm => (dm_parent dm, dm_children dm)) <$> domains_ a.

Inductive above (T : skeleton) : string -> string -> Prop :=
  | above_parent d p cs : T !! d = Some (Some p, cs) -> above T p d
  | above_up d p cs x : T !! d = Some (Some p, cs) -> above T x p -> above T x d.

(** [id] owns the bit its event names. *)
Definition held a id e : Prop :=
  exists dm b, domains_ a !! ev_domain e = Some dm /\ b ∈ dm_localBuckets dm /\
    bk_id b = ev_bucket e /\ 0 <= ev_slot e /\ bk_slots b !! Z.to_nat (ev_slot e) = Some id.

Definition bucket_ok a (b : BarrierBucket) : Prop :=
  0 <= bk_id b < allocatedBucketCount_ a /\ length (bk_slots b) = Z.to_nat (bitsPerBucket_ a).

(** A synthetic node and the event it completes. *)
Definition describes (n : BarrierSyntheticNode) e : Prop :=
  sn_id n = sn_set n /\ sn_domain n = ev_domain e /\ sn_depends n = ev_depends e /\
  ev_isPseudo e = (if sn_kind n is Collector then true else false) /\
  ev_isTransition e = (if sn_kind n is Transition then true else false).

Record Wf a : Prop := {
  wf_limits : 1 <= bitsPerBucket_ a <= 31 /\ 0 <= allocatedBucketCount_ a <= maxBuckets_ a /\
    maxBuckets_ a <= RP1_MAX_BUCKETS;
  wf_id id e : events_ a !! id = Some e -> ev_id e = id /\ id <> EmptyString;
  wf_dom id e : events_ a !! id = Some e -> is_Some (domains_ a !! ev_domain e);
  wf_dep id e x : events_ a !! id = Some e -> x ∈ ev_depends e -> is_Some (events_ a !! x);
  wf_canon id e : events_ a !! id = Some e -> canon (ev_depends e);
  wf_local id e x e' : events_ a !! id = Some e -> ev_isTransition e = false ->
    x ∈ ev_depends e -> events_ a !! x = Some e' -> ev_domain e' = ev_domain e;
  wf_trans id e : events_ a !! id = Some e -> ev_isTransition e = true ->
    ev_isPseudo e = false /\ exists x e', ev_depends e = [x] /\ events_ a !! x = Some e' /\
      synthetic e' = false /\ above (skeleton_of a) (ev_domain e') (ev_domain e);
  wf_pseudo id e : events_ a !! id = Some e -> ev_isPseudo e = true ->
    ev_depends e <> [] /\ fits a (ev_depends e);
  wf_place id e : events_ a !! id = Some e ->
    (ev_bucket e = -1 /\ ev_slot e = -1) \/ held a id e;
  wf_buckets d dm : domains_ a !! d = Some dm ->
    NoDup (bk_id <$> dm_localBuckets dm) /\ Forall (bucket_ok a) (dm_localBuckets dm);
  wf_owner d1 dm1 b1 d2 dm2 b2 : domains_ a !! d1 = Some dm1 -> b1 ∈ dm_localBuckets dm1 ->
    domains_ a !! d2 = Some dm2 -> b2 ∈ dm_localBuckets dm2 -> bk_id b1 = bk_id b2 -> d1 = d2;
  wf_next : 0 <= nextCollector_ a;
  wf_fresh k : nextCollector_ a <= k -> events_ a !! collector_id k = None;
  wf_syn n : n ∈ syntheticNodes_ a -> exists e, events_ a !! sn_set n = Some e /\ describes n e;
  wf_syn_all id e : events_ a !! id = Some e -> synthetic e = true ->
    exists n, n ∈ syntheticNodes_ a /\ sn_set n = id
}.

(** ** Following synthetic nodes *)

(** [reads a id x]: [x] is a real event that [id] is, or stands for. *)
Inductive reads_in (M : gmap string BarrierEvent) : string -> string -> Prop :=
  | reads_real x e : M !! x = Some e -> synthetic e = false -> reads_in M x x
  | reads_via c e y x : M !! c = Some e -> synthetic e = true ->
      y ∈ ev_depends e -> reads_in M y x -> reads_in M c x.
Abbreviation reads a := (reads_in (events_ a)).

(** The real events are the given ones, and wait for what they were given. *)
Record Meaning (orig : gmap string (string * list string)) a : Prop := {
  me_real id : (exists e, events_ a !! id = Some e /\ synthetic e = false) <-> is_Some (orig !! id);
  me_domain id e dep : events_ a !! id = Some e -> orig !! id = Some dep -> ev_domain e = dep.1;
  me_depends id e dep x : events_ a !! id = Some e -> orig !! id = Some dep ->
    x ∈ dep.2 <-> exists y, y ∈ ev_depends e /\ reads a y x
}.

(** ** Progress within one domain *)

(** Two collectors of a domain gather different events. *)
Definition distinct_collectors d a : Prop :=
  forall p1 e1 p2 e2, events_ a !! p1 = Some e1 -> collector d e1 ->
    events_ a !! p2 = Some e2 -> collector d e2 -> ev_depends e1 = ev_depends e2 -> p1 = p2.

(** The collectors without a bit among [deps] gather from different buckets. *)
Definition apart a (deps : list string) : Prop :=
  forall u1 e1 u2 e2 x1 x2, u1 ∈ deps -> u2 ∈ deps -> u1 <> u2 ->
    events_ a !! u1 = Some e1 -> ev_isPseudo e1 = true -> ev_bucket e1 < 0 ->
    events_ a !! u2 = Some e2 -> ev_isPseudo e2 = true -> ev_bucket e2 < 0 ->
    x1 ∈ ev_depends e1 -> x2 ∈ ev_depends e2 -> bucket_of a x1 <> bucket_of a x2.

(** Between two rounds. *)
Record Mid d a : Prop := {
  mid_unique : distinct_collectors d a;
  mid_join id e : events_ a !! id = Some e -> ev_domain e = d -> ev_isPseudo e = false ->
    fits a (ev_depends e) \/
    (forall x, x ∈ ev_depends e -> 0 <= bucket_of a x ->
       forall p ep, events_ a !! p = Some ep -> collector d ep -> x ∉ ev_depends ep) /\
    apart a (ev_depends e)
}.

(** After the collectors without a bit are gone: an event that still waits on
    several buckets has no collector for any of its groups. *)
Record Ready d a : Prop := {
  rdy_placed id e : events_ a !! id = Some e -> collector d e -> 0 <= ev_bucket e;
  rdy_unique : distinct_collectors d a;
  rdy_join id e p ep bucket : events_ a !! id = Some e -> ev_domain e = d -> ev_isPseudo e = false ->
    ~ fits a (ev_depends e) -> events_ a !! p = Some ep -> collector d ep -> 0 <= bucket ->
    filter (fun x => bucket_of a x = bucket) (ev_depends e) <> ev_depends ep
}.

(** After the collectors are created. *)
Record Gathered d a : Prop := {
  ga_unique : distinct_collectors d a;
  ga_join id e : events_ a !! id = Some e -> ev_domain e = d -> ev_isPseudo e = false ->
    fits a (ev_depends e) \/
    (forall x, x ∈ ev_depends e -> bucket_of a x < 0) /\ apart a (ev_depends e)
}.

(** A step of domain [d]: what it leaves alone. *)
Record Frame d a a' : Prop := {
  fr_const : root_ a' = root_ a /\ bitsPerBucket_ a' = bitsPerBucket_ a /\
    maxBuckets_ a' = maxBuckets_ a /\ skeleton_of a' = skeleton_of a;
  fr_count : allocatedBucketCount_ a <= allocatedBucketCount_ a';
  fr_other id e : ev_domain e <> d -> events_ a' !! id = Some e <-> events_ a !! id = Some e;
  fr_domain d' : d' <> d -> domains_ a' !! d' = domains_ a !! d';
  fr_keep id : 0 <= bucket_of a id -> bucket_of a' id = bucket_of a id;
  fr_plain id : (exists e, events_ a' !! id = Some e /\ ev_isPseudo e = false) <->
    exists e, events_ a !! id = Some e /\ ev_isPseudo e = false;
  fr_new dm dm' b : domains_ a !! d = Some dm -> domains_ a' !! d = Some dm' ->
    b ∈ dm_localBuckets dm' -> bk_id b ∈ bk_id <$> dm_localBuckets dm \/ allocatedBucketCount_ a <= bk_id b
}.

#[export] Instance Frame_preorder d : PreOrder (Frame d).
Proof.
  split.
  - intros a. split; try done. intros dm dm' b E1 E2 Hb. simplify_eq. left. by apply list_elem_of_fmap_2.
  - intros a1 a2 a3 [C1 N1 O1 D1 K1 P1 W1] [C2 N2 O2 D2 K2 P2 W2]. split.
    + destruct C1 as (?&?&?&?), C2 as (?&?&?&?). split_and!; congruence.
    + lia.
    + intros id e Hd. rewrite O2, O1; done.
    + intros d' Hd. rewrite D2, D1; done.
    + intros id Hk. rewrite K2, K1; [done|done|]. by rewrite K1.
    + intros id. by rewrite P2, P1.
    + intros dm dm3 b E1 E3 Hb. destruct C1 as (_ & _ & _ & Hsk).
      assert (exists dm2, domains_ a2 !! d = Some dm2) as [dm2 E2].
      { apply (f_equal (fun T => T !! d)) in Hsk. unfold skeleton_of in Hsk.
        rewrite !lookup_fmap, E1 in Hsk. destruct (domains_ a2 !! d); [eauto|done]. }
      destruct (W2 _ _ _ E2 E3 Hb) as [Hb2|]; [|right; lia].
      apply list_elem_of_fmap in Hb2 as (b2 & Eb & Hb2). rewrite Eb. eapply W1; eauto.
Qed.

Lemma fits_mono a a' deps :
  (forall id, 0 <= bucket_of a id -> bucket_of a' id = bucket_of a id) -> fits a deps -> fits a' deps.
Proof.
  intros Hk (b & Hb & Hd). exists b. split; [done|]. intros x Hx. rewrite Hk; [auto|].
  rewrite (Hd x Hx). done.
Qed.

(** ** What synthetic nodes stand for is local *)

Lemma reads_local (K : string -> Prop) a a' :
  (forall c e, K c -> events_ a !! c = Some e -> exists e', events_ a' !! c = Some e' /\
     synthetic e' = synthetic e /\
     (synthetic e = true -> ev_depends e' = ev_depends e /\ forall y, y ∈ ev_depends e -> K y)) ->
  forall c x, K c -> reads a c x -> reads a' c x.
Proof.
  intros HK c x Hc Hr. revert Hc. induction Hr as [x e He Hs|c e y x He Hs Hy Hr IH]; intros Hc.
  - destruct (HK x e Hc He) as (e' & He' & Hs' & _). eapply reads_real; [done|]. by rewrite Hs'.
  - destruct (HK c e Hc He) as (e' & He' & Hs' & Hd). destruct (Hd Hs) as [Hdep HKy].
    eapply (reads_via _ c e' y); [done|by rewrite Hs'|by rewrite Hdep|auto].
Qed.

Lemma reads_synthetic a c e x :
  events_ a !! c = Some e -> synthetic e = true ->
  reads a c x <-> exists y, y ∈ ev_depends e /\ reads a y x.
Proof.
  intros He Hs. split.
  - intros Hr. inversion Hr as [? e' He'|? e' y ? He']; simplify_eq; [congruence|]. eauto.
  - intros (y & Hy & Hr). by eapply reads_via.
Qed.

(** ** Collectors without a bit can go *)

Definition expansions_of d a : gmap string (list string) :=
  ev_depends <$> filter (fun p => unplaced_pseudo d p.2 = true) (events_ a).

Definition removed d a : BarrierLowerer :=
  set_synthetic (filter (fun n => expansions_of d a !! sn_set n = None) (syntheticNodes_ a))
    (set_events ((fun e => with_depends (substitute (expansions_of d a) (ev_depends e)) e) <$>
       filter (fun p => unplaced_pseudo d p.2 = false) (events_ a)) a).

Lemma unplaced_spec d e :
  unplaced_pseudo d e = true <-> collector d e /\ ev_bucket e < 0.
Proof.
  unfold unplaced_pseudo, collector.
  rewrite !andb_true_iff, bool_decide_eq_true, Z.ltb_lt. tauto.
Qed.

Lemma expansions_lookup d a u l :
  expansions_of d a !! u = Some l <->
  exists e, events_ a !! u = Some e /\ unplaced_pseudo d e = true /\ l = ev_depends e.
Proof.
  unfold expansions_of. rewrite lookup_fmap, fmap_Some. split.
  - intros (e & [He Hu]%map_lookup_filter_Some & ->). eauto.
  - intros (e & He & Hu & ->). exists e. split; [|done]. by apply map_lookup_filter_Some.
Qed.

Lemma expansions_none d a u e :
  events_ a !! u = Some e -> expansions_of d a !! u = None <-> unplaced_pseudo d e = false.
Proof.
  intros He. destruct (expansions_of d a !! u) as [l|] eqn:E.
  - apply expansions_lookup in E as (e' & He' & Hu & _). simplify_eq. by rewrite Hu.
  - split; [|done]. intros _. destruct (unplaced_pseudo d e) eqn:Hu; [|done].
    assert (Hc : expansions_of d a !! u = Some (ev_depends e)) by (apply expansions_lookup; eauto).
    congruence.
Qed.

Lemma removed_lookup d a id e' :
  events_ (removed d a) !! id = Some e' <->
  exists e, events_ a !! id = Some e /\ unplaced_pseudo d e = false /\
    e' = with_depends (substitute (expansions_of d a) (ev_depends e)) e.
Proof.
  cbn [removed events_ set_synthetic set_events]. rewrite lookup_fmap, fmap_Some. split.
  - intros (e & [He Hu]%map_lookup_filter_Some & ->). eauto.
  - intros (e & He & Hu & ->). exists e. split; [|done]. by apply map_lookup_filter_Some.
Qed.

Lemma substitute_elem X deps x :
  x ∈ substitute X deps <-> exists y, y ∈ deps /\
    ((X !! y = None /\ x = y) \/ exists l, X !! y = Some l /\ x ∈ l).
Proof.
  unfold substitute. rewrite dedup_elem, list_elem_of_In, in_concat. split.
  - intros (l & [y [<- Hy]]%in_map_iff & Hx). exists y. split; [by apply list_elem_of_In|].
    destruct (X !! y) as [l|]; cbn in Hx; [right|left].
    + exists l. split; [done|]. by apply list_elem_of_In.
    + split; [done|]. by destruct Hx.
  - intros (y & Hy & Hc). exists (default [y] (X !! y)). split.
    + apply in_map_iff. exists y. split; [done|]. by apply list_elem_of_In.
    + destruct Hc as [[-> ->]|(l & -> & Hx)]; cbn; [by left|]. by apply list_elem_of_In.
Qed.

Lemma substitute_id X deps :
  canon deps -> (forall y, y ∈ deps -> X !! y = None) -> substitute X deps = deps.
Proof.
  intros Hc Hf. apply canon_unique; [apply dedup_canon|done|]. intros x. rewrite substitute_elem. split.
  - intros (y & Hy & [[_ ->]|(l & Hl & _)]); [done|]. by rewrite Hf in Hl.
  - intros Hx. exists x. split; [done|]. left. auto.
Qed.

Lemma bucket_of_event a id e : events_ a !! id = Some e -> bucket_of a id = ev_bucket e.
Proof. unfold bucket_of. by intros ->. Qed.

Lemma placed_event a id : 0 <= bucket_of a id -> exists e, events_ a !! id = Some e /\ 0 <= ev_bucket e.
Proof. unfold bucket_of. destruct (events_ a !! id) as [e|]; [eauto|lia]. Qed.

Section removal.
Context (d : string) (a : BarrierLowerer) (HW : Wf a).
Abbreviation X := (expansions_of d a).

Lemma pseudo_not_transition id e :
  events_ a !! id = Some e -> ev_isPseudo e = true -> ev_isTransition e = false.
Proof using HW.
  intros He Hp. destruct (ev_isTransition e) eqn:Ht; [|done].
  destruct (wf_trans _ HW _ _ He Ht) as [Hf _]. congruence.
Qed.

Lemma gathered_placed u eu x :
  events_ a !! u = Some eu -> ev_isPseudo eu = true -> x ∈ ev_depends eu -> 0 <= bucket_of a x.
Proof using HW.
  intros Hu Hp Hx. destruct (wf_pseudo _ HW _ _ Hu Hp) as [_ (b & Hb & Hf)]. by rewrite (Hf x Hx).
Qed.

Lemma placed_free x : 0 <= bucket_of a x -> X !! x = None.
Proof.
  intros (e & He & Hb)%placed_event. apply (expansions_none d a x e He).
  destruct (unplaced_pseudo d e) eqn:E; [|done]. apply unplaced_spec in E as [_ ?]. lia.
Qed.

Lemma keep_fits id e : events_ a !! id = Some e -> fits a (ev_depends e) -> substitute X (ev_depends e) = ev_depends e.
Proof using HW.
  intros He (b & Hb & Hd). apply substitute_id; [by eapply wf_canon|]. intros y Hy.
  apply placed_free. by rewrite (Hd y Hy).
Qed.

Lemma keep_transition id e :
  events_ a !! id = Some e -> ev_isTransition e = true -> substitute X (ev_depends e) = ev_depends e.
Proof using HW.
  intros He Ht. apply substitute_id; [by eapply wf_canon|].
  destruct (wf_trans _ HW _ _ He Ht) as (_ & x & e' & -> & Hx & Hs & _).
  intros y ->%list_elem_of_singleton. apply (expansions_none _ _ _ _ Hx).
  destruct (unplaced_pseudo d e') eqn:E; [|done]. apply unplaced_spec in E as [[_ Hp] _].
  unfold synthetic in Hs. by rewrite Hp in Hs.
Qed.

Lemma keep_synthetic id e :
  events_ a !! id = Some e -> synthetic e = true -> substitute X (ev_depends e) = ev_depends e.
Proof using HW.
  intros He [Hp|Ht]%orb_true_iff; [|by eapply keep_transition].
  eapply keep_fits; [done|]. by eapply wf_pseudo.
Qed.

Lemma keep_other id e :
  events_ a !! id = Some e -> ev_domain e <> d -> substitute X (ev_depends e) = ev_depends e.
Proof using HW.
  intros He Hd. destruct (ev_isTransition e) eqn:Ht; [by eapply keep_transition|].
  apply substitute_id; [by eapply wf_canon|]. intros y Hy.
  destruct (wf_dep _ HW _ _ _ He Hy) as [ey Hey]. apply (expansions_none _ _ _ _ Hey).
  destruct (unplaced_pseudo d ey) eqn:E; [|done]. apply unplaced_spec in E as [[Hdy _] _].
  by rewrite (wf_local _ HW _ _ _ _ He Ht Hy Hey) in Hdy.
Qed.

Lemma unplaced_minus1 id e : events_ a !! id = Some e -> ev_bucket e < 0 -> ev_bucket e = -1.
Proof using HW.
  intros He Hb. destruct (wf_place _ HW _ _ He) as [[-> _]|(dm & b & Hd & Hin & Eb & _)]; [done|].
  destruct (wf_buckets _ HW _ _ Hd) as [_ Hf]. rewrite Forall_forall in Hf.
  destruct (Hf _ Hin) as [Hr _]. lia.
Qed.

Lemma removed_bucket id : bucket_of (removed d a) id = bucket_of a id.
Proof using HW.
  unfold bucket_of at 1. destruct (events_ (removed d a) !! id) as [e'|] eqn:E.
  - apply removed_lookup in E as (e & He & _ & ->). by rewrite (bucket_of_event _ _ _ He).
  - unfold bucket_of. destruct (events_ a !! id) as [e|] eqn:He; [|done].
    destruct (unplaced_pseudo d e) eqn:Hu.
    + apply unplaced_spec in Hu as [_ Hb]. by rewrite (unplaced_minus1 _ _ He Hb).
    + assert (Hc : events_ (removed d a) !! id = Some (with_depends (substitute X (ev_depends e)) e))
        by (apply removed_lookup; eauto). congruence.
Qed.

Lemma removed_fits deps : fits (removed d a) deps <-> fits a deps.
Proof using HW. unfold fits. by setoid_rewrite removed_bucket. Qed.

(** A dependency after the substitution: an old one that stays, or one a
    removed collector gathered. *)
Lemma removed_dep id e x :
  events_ a !! id = Some e -> x ∈ substitute X (ev_depends e) ->
  (x ∈ ev_depends e /\ X !! x = None) \/
  exists u eu, u ∈ ev_depends e /\ events_ a !! u = Some eu /\ unplaced_pseudo d eu = true /\
    x ∈ ev_depends eu /\ 0 <= bucket_of a x.
Proof using HW.
  intros He (y & Hy & [[Hn ->]|(l & Hl & Hx)])%substitute_elem; [by left|right].
  apply expansions_lookup in Hl as (eu & Heu & Hu & ->). exists y, eu. split_and!; try done.
  apply unplaced_spec in Hu as [[_ Hp] _]. by eapply gathered_placed.
Qed.

Lemma survives x : is_Some (events_ a !! x) -> X !! x = None ->
  exists e, events_ a !! x = Some e /\
    events_ (removed d a) !! x = Some (with_depends (substitute X (ev_depends e)) e).
Proof.
  intros [e He] Hn. exists e. split; [done|]. apply removed_lookup. exists e.
  split_and!; [done| |done]. by apply (expansions_none _ _ _ _ He).
Qed.

Lemma removed_dep_known id e x :
  events_ a !! id = Some e -> x ∈ substitute X (ev_depends e) ->
  exists ex, events_ a !! x = Some ex /\
    events_ (removed d a) !! x = Some (with_depends (substitute X (ev_depends ex)) ex) /\
    (ev_isTransition e = false -> ev_domain ex = ev_domain e).
Proof using HW.
  intros He Hx. destruct (removed_dep _ _ _ He Hx) as [[Hin Hn]|(u & eu & Hu & Heu & Hup & Hxu & Hb)].
  - destruct (survives x (wf_dep _ HW _ _ _ He Hin) Hn) as (ex & Hex & Hs). exists ex.
    split_and!; [done|done|]. intros Ht. by eapply wf_local.
  - destruct (survives x (wf_dep _ HW _ _ _ Heu Hxu) (placed_free _ Hb)) as (ex & Hex & Hs). exists ex.
    split_and!; [done|done|]. intros Ht. apply unplaced_spec in Hup as [[_ Hp] _].
    rewrite (wf_local _ HW _ _ _ _ Heu (pseudo_not_transition _ _ Heu Hp) Hxu Hex). by eapply wf_local.
Qed.

Lemma removed_wf : Wf (removed d a).
Proof using HW.
  pose proof HW as []. split; try done.
  - intros id e' (e & He & _ & ->)%removed_lookup. exact (wf_id0 _ _ He).
  - intros id e' (e & He & _ & ->)%removed_lookup. exact (wf_dom0 _ _ He).
  - intros id e' x (e & He & _ & ->)%removed_lookup Hx.
    destruct (removed_dep_known _ _ _ He Hx) as (ex & _ & -> & _). by eexists.
  - intros id e' (e & He & _ & ->)%removed_lookup. apply dedup_canon.
  - intros id e' x ex' (e & He & _ & ->)%removed_lookup Ht Hx Hex'.
    destruct (removed_dep_known _ _ _ He Hx) as (ex & _ & Hex & Hd). rewrite Hex in Hex'. simplify_eq.
    by apply Hd.
  - intros id e' (e & He & Hu & ->)%removed_lookup Ht. cbn in Ht |- *.
    rewrite (keep_transition _ _ He Ht). destruct (wf_trans0 _ _ He Ht) as (Hp & x & ex & Ed & Hex & Hs & Hab).
    split; [done|]. exists x. destruct (removed_dep_known id e x He) as (ex2 & Hex2 & Hr & _).
    { rewrite (keep_transition _ _ He Ht), Ed. by left. }
    simplify_eq. eexists. by split_and!.
  - intros id e' (e & He & Hu & ->)%removed_lookup Hp. cbn in Hp |- *.
    destruct (wf_pseudo0 _ _ He Hp) as [Hne Hf]. rewrite (keep_fits _ _ He Hf). split; [done|].
    by apply removed_fits.
  - intros id e' (e & He & _ & ->)%removed_lookup. apply (wf_place0 _ _ He).
  - intros k Hk. destruct (events_ (removed d a) !! collector_id k) as [e'|] eqn:E; [|done].
    apply removed_lookup in E as (e & He & _). by rewrite (wf_fresh0 k Hk) in He.
  - intros n [Hn Hin]%list_elem_of_filter. destruct (wf_syn0 n Hin) as (e & He & Hde).
    destruct (survives (sn_set n)) as (e2 & He2 & Hr); [by eexists|done|]. simplify_eq.
    eexists. split; [exact Hr|]. rewrite (keep_synthetic _ _ He); [exact Hde|].
    destruct Hde as (_ & _ & _ & Hp & Ht). unfold synthetic. rewrite Hp, Ht. by destruct (sn_kind n).
  - intros id e' (e & He & Hu & ->)%removed_lookup Hs. destruct (wf_syn_all0 _ _ He Hs) as (n & Hn & <-).
    exists n. split; [|done]. apply list_elem_of_filter. split; [|done].
    by apply (expansions_none _ _ _ _ He).
Qed.

Lemma removed_frame : Frame d a (removed d a).
Proof using HW.
  split; try done.
  - intros id e' Hd. rewrite removed_lookup. split.
    + intros (e & He & _ & ->). by rewrite (keep_other _ _ He Hd), He; destruct e.
    + intros He. exists e'. split_and!; [done| |].
      * destruct (unplaced_pseudo d e') eqn:E; [|done]. by apply unplaced_spec in E as [[? _] _].
      * rewrite (keep_other _ _ He Hd). by destruct e'.
  - intros id _. apply removed_bucket.
  - intros id. setoid_rewrite removed_lookup. split.
    + intros (? & (e & He & _ & ->) & Hp). by exists e.
    + intros (e & He & Hp). eexists. split; [exists e; split_and!; [done| |done]|done].
      destruct (unplaced_pseudo d e) eqn:E; [|done]. apply unplaced_spec in E as [[_ ?] _]. congruence.
  - intros dm dm' b E1 E2 Hb. cbn in E2. simplify_eq. left. by apply list_elem_of_fmap_2.
Qed.

Lemma removed_reads c x : X !! c = None -> reads (removed d a) c x <-> reads a c x.
Proof using HW.
  intros Hc. split.
  - apply (reads_local (fun _ => True)); [|done]. intros y e' _ (e & He & _ & ->)%removed_lookup.
    exists e. split_and!; [done|done|]. intros Hs. cbn. by rewrite (keep_synthetic _ _ He Hs).
  - revert Hc. apply (reads_local (fun y => X !! y = None)). intros y e Hy He.
    destruct (survives y) as (e2 & He2 & Hr); [by eexists|done|]. simplify_eq. eexists.
    split_and!; [exact Hr|done|]. intros Hs. rewrite (keep_synthetic _ _ He Hs). split; [done|].
    intros z Hz. rewrite <-(keep_synthetic _ _ He Hs) in Hz.
    apply substitute_elem in Hz as (w & Hw & [[Hn ->]|(l & Hl & Hzl)]); [done|].
    apply expansions_lookup in Hl as (eu & Heu & [[_ Hp] _]%unplaced_spec & ->). by eapply placed_free, gathered_placed.
Qed.

Lemma removed_meaning orig : Meaning orig a -> Meaning orig (removed d a).
Proof using HW.
  intros [Hreal Hdom Hdep]. split.
  - intros id. rewrite <-Hreal. split.
    + intros (e' & (e & He & _ & ->)%removed_lookup & Hs). by exists e.
    + intros (e & He & Hs). eexists. split; [apply removed_lookup; exists e; split_and!; [done| |done]|done].
      destruct (unplaced_pseudo d e) eqn:E; [|done]. apply unplaced_spec in E as [[_ Hp] _].
      unfold synthetic in Hs. by rewrite Hp in Hs.
  - intros id e' dep (e & He & _ & ->)%removed_lookup Ho. by apply (Hdom id e).
  - intros id e' dep x (e & He & _ & ->)%removed_lookup Ho. rewrite (Hdep id e dep x He Ho). split.
    + intros (y & Hy & Hr). destruct (X !! y) as [l|] eqn:Hl.
      * pose proof Hl as Hl2. apply expansions_lookup in Hl2 as (eu & Heu & Hu & ->).
        apply unplaced_spec in Hu as [[_ Hp] _].
        rewrite (reads_synthetic a y eu) in Hr by (done || by unfold synthetic; rewrite Hp).
        destruct Hr as (z & Hz & Hr).
        exists z. split; [apply substitute_elem; exists y; split; [done|]; right; eauto|].
        apply removed_reads; [|done]. by eapply placed_free, gathered_placed.
      * exists y. split; [apply substitute_elem; exists y; split; [done|]; by left|]. by apply removed_reads.
    + intros (z & Hz & Hr). cbn in Hz. pose proof Hz as Hz0.
      apply substitute_elem in Hz as (y & Hy & [[Hn ->]|(l & Hl & Hzl)]).
      * exists y. split; [done|]. by apply removed_reads.
      * apply expansions_lookup in Hl as (eu & Heu & [[_ Hp] _]%unplaced_spec & ->).
        exists y. split; [done|]. apply (reads_synthetic a y eu); [done|unfold synthetic; by rewrite Hp|].
        exists z. split; [done|]. apply removed_reads in Hr; [done|]. by eapply placed_free, gathered_placed.
Qed.

(** The group of a bucket after the removal is not what a placed collector
    gathers: such a group consists of what one removed collector gathered. *)
Lemma removed_group id e p ep bucket :
  Mid d a -> events_ a !! id = Some e -> ev_domain e = d -> ev_isPseudo e = false ->
  ~ fits a (ev_depends e) -> events_ a !! p = Some ep -> collector d ep -> 0 <= ev_bucket ep ->
  filter (fun x => bucket_of a x = bucket) (substitute X (ev_depends e)) <> ev_depends ep.
Proof using HW.
  intros HM He Hd Hp Hnf Hep Hcp Hpl Heq.
  destruct (mid_join _ _ HM _ _ He Hd Hp) as [Hf|[Hnew Hap]]; [done|].
  destruct (wf_pseudo _ HW _ _ Hep (proj2 Hcp)) as [Hne (bp & Hbp & Hfp)].
  (* every member comes from a removed collector *)
  assert (Hfrom : forall x, x ∈ ev_depends ep -> exists u eu, u ∈ ev_depends e /\
    events_ a !! u = Some eu /\ unplaced_pseudo d eu = true /\ x ∈ ev_depends eu /\ bucket_of a x = bucket).
  { intros x Hx. pose proof Hx as Hx2. rewrite <-Heq in Hx2. apply list_elem_of_filter in Hx2 as [Hb Hs].
    destruct (removed_dep _ _ _ He Hs) as [[Hin _]|(u & eu & ? & ? & ? & ? & _)]; [|by exists u, eu].
    exfalso. apply (Hnew x Hin) with (p := p) (ep := ep); [|done|done|done]. by rewrite (Hfp x Hx). }
  destruct (ev_depends ep) as [|x0 l0] eqn:El; [done|]. rewrite <-El in *.
  destruct (Hfrom x0) as (u & eu & Hu & Heu & Hup & Hx0 & Hb0); [rewrite El; by left|].
  apply unplaced_spec in Hup as Hup2. destruct Hup2 as [[Hdu Hpu] Hbu].
  destruct (wf_pseudo _ HW _ _ Heu Hpu) as [_ (bu & Hbu0 & Hfu)].
  assert (bu = bucket) as -> by (by rewrite <-(Hfu x0 Hx0)).
  assert (ev_depends eu = ev_depends ep) as Hsame.
  { apply canon_unique; [by eapply wf_canon|by eapply wf_canon|]. intros x. split.
    - intros Hx. rewrite <-Heq. apply list_elem_of_filter. split; [by apply Hfu|].
      apply substitute_elem. exists u. split; [done|]. right. exists (ev_depends eu). split; [|done].
      apply expansions_lookup. eauto.
    - intros Hx. destruct (Hfrom x Hx) as (u2 & eu2 & Hu2 & Heu2 & Hup2 & Hx2 & Hb2).
      destruct (decide (u = u2)) as [<-|Hne2]; [by simplify_eq|].
      apply unplaced_spec in Hup2 as [[_ Hpu2] Hbu2]. exfalso.
      apply (Hap u eu u2 eu2 x0 x); try done. by rewrite Hb0. }
  assert (u = p) as -> by (by eapply (mid_unique _ _ HM)). simplify_eq. lia.
Qed.

Lemma removed_ready : Mid d a -> Ready d (removed d a).
Proof using HW.
  intros HM. split.
  - intros id e' (e & He & Hu & ->)%removed_lookup Hc. cbn. destruct (decide (0 <= ev_bucket e)); [done|].
    exfalso. assert (unplaced_pseudo d e = true); [|congruence]. apply unplaced_spec. split; [done|lia].
  - intros p1 e1 p2 e2 (f1 & Hf1 & _ & ->)%removed_lookup C1 (f2 & Hf2 & _ & ->)%removed_lookup C2.
    cbn. destruct C1 as [D1 P1], C2 as [D2 P2]. cbn in *.
    rewrite (keep_synthetic _ _ Hf1), (keep_synthetic _ _ Hf2) by (unfold synthetic; by rewrite ?P1, ?P2).
    intros. by eapply (mid_unique _ _ HM p1 f1 p2 f2).
  - intros id e' p ep' bucket (e & He & Hu & ->)%removed_lookup Hd Hp Hnf (ep & Hep & Hup & ->)%removed_lookup Hc Hb.
    cbn in *. destruct Hc as [Dp Pp]. cbn in *.
    rewrite (keep_synthetic _ _ Hep) by (unfold synthetic; by rewrite Pp).
    rewrite (list_filter_iff _ (fun x => bucket_of a x = bucket)) by (intros; by rewrite removed_bucket).
    apply (removed_group id e p ep); try done.
    + intros Hf. apply Hnf. apply removed_fits. by rewrite (keep_fits _ _ He Hf).
    + destruct (decide (0 <= ev_bucket ep)); [done|]. exfalso.
      assert (unplaced_pseudo d ep = true); [|congruence]. apply unplaced_spec. split; [done|lia].
Qed.
End removal.

(** ** A new collector *)

Lemma collector_id_inj k1 k2 : collector_id k1 = collector_id k2 -> k1 = k2.
Proof. unfold collector_id. intros H. by simplify_eq. Qed.

Definition collected d (deps : list string) a : BarrierLowerer :=
  let id := collector_id (nextCollector_ a) in
  set_synthetic (syntheticNodes_ a ++
    [{| sn_kind := Collector; sn_id := id; sn_domain := d; sn_depends := deps; sn_set := id |}])
    (set_events (<[id := new_event id d deps true false]> (events_ a))
      (set_nextCollector (nextCollector_ a + 1) a)).

Section new_collector.
Context (d : string) (deps : list string) (a : BarrierLowerer) (HW : Wf a).
Context (Hdom : is_Some (domains_ a !! d)) (Hcanon : canon deps) (Hne : deps <> []).
Context (Hfits : fits a deps).
Context (Hlocal : forall x, x ∈ deps -> exists e, events_ a !! x = Some e /\ ev_domain e = d).
Abbreviation a' := (collected d deps a).
Abbreviation pid := (collector_id (nextCollector_ a)).

Lemma pid_fresh : events_ a !! pid = None.
Proof using HW. by apply (wf_fresh _ HW). Qed.

Lemma collected_lookup id e :
  events_ a' !! id = Some e <->
  (id = pid /\ e = new_event pid d deps true false) \/ events_ a !! id = Some e.
Proof using HW.
  cbn [events_ collected set_synthetic set_events]. pose proof pid_fresh as Hf.
  rewrite lookup_insert_Some. split; [intros [[<- <-]|[_ ?]]; auto|].
  intros [[-> ->]|He]; [by left|]. right. split; [|done]. intros <-. congruence.
Qed.

Lemma collected_old id : is_Some (events_ a !! id) -> events_ a' !! id = events_ a !! id.
Proof using HW.
  intros [e He]. rewrite He. apply collected_lookup. by right.
Qed.

Lemma collected_bucket id : bucket_of a' id = bucket_of a id.
Proof using HW.
  unfold bucket_of at 1. destruct (events_ a' !! id) as [e|] eqn:E.
  - apply collected_lookup in E as [[-> ->]|He]; [|by rewrite (bucket_of_event _ _ _ He)].
    unfold bucket_of. by rewrite pid_fresh.
  - unfold bucket_of. destruct (events_ a !! id) as [e|] eqn:He; [|done].
    rewrite collected_old in E by eauto. congruence.
Qed.

Lemma collected_fits l : fits a' l <-> fits a l.
Proof using HW. unfold fits. by setoid_rewrite collected_bucket. Qed.

Lemma collected_wf : Wf a'.
Proof using All.
  pose proof HW as []. split; try done.
  - intros id e [[-> ->]|He]%collected_lookup; [|exact (wf_id0 _ _ He)]. done.
  - intros id e [[-> ->]|He]%collected_lookup; [done|exact (wf_dom0 _ _ He)].
  - intros id e x [[-> ->]|He]%collected_lookup Hx.
    + destruct (Hlocal x Hx) as (ex & Hex & _). rewrite collected_old; by eexists.
    + destruct (wf_dep0 _ _ _ He Hx) as [ex Hex]. rewrite collected_old; by eexists.
  - intros id e [[-> ->]|He]%collected_lookup; [done|exact (wf_canon0 _ _ He)].
  - intros id e x ex [[-> ->]|He]%collected_lookup Ht Hx Hex.
    + destruct (Hlocal x Hx) as (ex2 & Hex2 & Hd2). rewrite collected_old in Hex by eauto. by simplify_eq.
    + destruct (wf_dep0 _ _ _ He Hx) as [ex2 Hex2]. rewrite collected_old in Hex by eauto.
      by apply (wf_local0 _ _ _ _ He Ht Hx).
  - intros id e [[-> ->]|He]%collected_lookup Ht; [done|].
    destruct (wf_trans0 _ _ He Ht) as (Hp & x & ex & Ed & Hex & ?). split; [done|].
    exists x, ex. rewrite collected_old; eauto.
  - intros id e [[-> ->]|He]%collected_lookup Hp; [split; [done|]|destruct (wf_pseudo0 _ _ He Hp); split; [done|]];
      by apply collected_fits.
  - intros id e [[-> ->]|He]%collected_lookup; [by left|exact (wf_place0 _ _ He)].
  - cbn. lia.
  - intros k Hk. cbn in Hk. destruct (events_ a' !! collector_id k) as [e|] eqn:E; [|done].
    apply collected_lookup in E as [[Ek _]|He]; [apply collector_id_inj in Ek; lia|].
    by rewrite wf_fresh0 in He by lia.
  - intros n [Hn| ->%list_elem_of_singleton]%elem_of_app.
    + destruct (wf_syn0 n Hn) as (e & He & Hde). exists e. rewrite collected_old; eauto.
    + eexists. split; [apply collected_lookup; by left|]. done.
  - intros id e [[-> ->]|He]%collected_lookup Hs.
    + eexists. split; [apply elem_of_app; right; by left|done].
    + destruct (wf_syn_all0 _ _ He Hs) as (n & Hn & <-). exists n. split; [|done]. apply elem_of_app. by left.
Qed.

Lemma collected_frame : Frame d a a'.
Proof using HW.
  split; try done.
  - intros id e Hd. rewrite collected_lookup. split; [|by right]. intros [[-> ->]|?]; [by cbn in Hd|done].
  - intros id _. apply collected_bucket.
  - intros id. setoid_rewrite collected_lookup. split; [|intros (e & ? & ?); exists e; auto].
    intros (e & [[-> ->]|?] & ?); [done|eauto].
  - intros dm dm' b E1 E2 Hb. cbn in E2. simplify_eq. left. by apply list_elem_of_fmap_2.
Qed.

Lemma collected_reads c x : is_Some (events_ a !! c) -> reads a' c x <-> reads a c x.
Proof using HW.
  intros Hc. split; revert Hc; apply (reads_local (fun y => is_Some (events_ a !! y))).
  - intros y e [e2 Hy] He. rewrite collected_old in He by eauto. exists e. split_and!; try done.
    intros _. split; [done|]. intros z Hz. by eapply wf_dep.
  - intros y e _ He. exists e. rewrite collected_old by eauto. split_and!; try done.
    intros _. split; [done|]. intros z Hz. by eapply wf_dep.
Qed.

Lemma collected_reads_new x : reads a' pid x <-> exists y, y ∈ deps /\ reads a y x.
Proof using HW Hlocal.
  rewrite (reads_synthetic a' pid (new_event pid d deps true false)); [|apply collected_lookup; by left|done].
  cbn. split; intros (y & Hy & Hr); exists y; (split; [done|]);
    destruct (Hlocal y Hy) as (e & He & _); apply collected_reads in Hr || apply collected_reads; eauto.
Qed.

Lemma collected_meaning orig : Meaning orig a -> Meaning orig a'.
Proof using HW.
  intros [Hreal Hd Hdep]. split.
  - intros id. rewrite <-Hreal. split; intros (e & He & Hs); exists e; (split; [|done]).
    + by apply collected_lookup in He as [[-> ->]|He].
    + apply collected_lookup. by right.
  - intros id e dep [[-> ->]|He]%collected_lookup Ho; [|by eapply Hd].
    destruct (proj2 (Hreal pid) ltac:(eauto)) as (e & He & _). by rewrite pid_fresh in He.
  - intros id e dep x [[-> ->]|He]%collected_lookup Ho.
    { destruct (proj2 (Hreal pid) ltac:(eauto)) as (e & He & _). by rewrite pid_fresh in He. }
    rewrite (Hdep id e dep x He Ho). split; intros (y & Hy & Hr); exists y; (split; [done|]);
      pose proof (wf_dep _ HW _ _ _ He Hy); by apply collected_reads.
Qed.
End new_collector.

(** ** New dependencies for a real event *)

Definition rewired id (l : list string) a : BarrierLowerer :=
  set_events (alter (with_depends l) id (events_ a)) a.

Section rewiring.
Context (id : string) (l : list string) (a : BarrierLowerer) (HW : Wf a).
Context (e : BarrierEvent) (He : events_ a !! id = Some e) (Hreal : synthetic e = false).
Abbreviation a' := (rewired id l a).

Lemma rewired_lookup x ex :
  events_ a' !! x = Some ex <->
  (x = id /\ ex = with_depends l e) \/ (x <> id /\ events_ a !! x = Some ex).
Proof using He.
  cbn [events_ rewired set_events]. destruct (decide (x = id)) as [->|Hne].
  - rewrite lookup_alter_eq, He. cbn. split; [intros [= <-]; by left|]. intros [[_ ->]|[? _]]; done.
  - rewrite lookup_alter_ne by done. split; [by right|]. by intros [[? _]|[_ ?]].
Qed.

(** Every event is there with everything but, perhaps, its dependencies. *)
Lemma rewired_old x ex :
  events_ a !! x = Some ex -> exists ex', events_ a' !! x = Some ex' /\
    ex' = with_depends (ev_depends ex') ex /\ (x <> id -> ex' = ex).
Proof using He.
  intros Hx. destruct (decide (x = id)) as [->|Hne].
  - simplify_eq. exists (with_depends l e). split; [apply rewired_lookup; by left|]. by split.
  - exists ex. split; [apply rewired_lookup; by right|]. split; [by destruct ex|done].
Qed.

Lemma rewired_bucket x : bucket_of a' x = bucket_of a x.
Proof using He.
  unfold bucket_of at 1. destruct (events_ a' !! x) as [ex|] eqn:E.
  - apply rewired_lookup in E as [[-> ->]|[_ Hx]]; [by rewrite (bucket_of_event _ _ _ He)|].
    by rewrite (bucket_of_event _ _ _ Hx).
  - unfold bucket_of. destruct (events_ a !! x) as [ex|] eqn:Hx; [|done].
    destruct (rewired_old _ _ Hx) as (? & ? & _). congruence.
Qed.

Lemma rewired_fits deps : fits a' deps <-> fits a deps.
Proof using He. unfold fits. by setoid_rewrite rewired_bucket. Qed.

Lemma rewired_wf :
  canon l -> (forall x, x ∈ l -> exists ex, events_ a !! x = Some ex /\ ev_domain ex = ev_domain e) -> Wf a'.
Proof using All.
  intros Hcanon Hlocal. pose proof HW as []. apply orb_false_iff in Hreal as [Hp Ht]. split; try done.
  - intros x ex [[-> ->]|[_ Hx]]%rewired_lookup; [exact (wf_id0 _ _ He)|exact (wf_id0 _ _ Hx)].
  - intros x ex [[-> ->]|[_ Hx]]%rewired_lookup; [exact (wf_dom0 _ _ He)|exact (wf_dom0 _ _ Hx)].
  - intros x ex y [[-> ->]|[_ Hx]]%rewired_lookup Hy.
    + destruct (Hlocal y Hy) as (ey & Hey & _). destruct (rewired_old _ _ Hey) as (? & ? & _). by eexists.
    + destruct (wf_dep0 _ _ _ Hx Hy) as [ey Hey]. destruct (rewired_old _ _ Hey) as (? & ? & _). by eexists.
  - intros x ex [[-> ->]|[_ Hx]]%rewired_lookup; [done|exact (wf_canon0 _ _ Hx)].
  - intros x ex y ey Hx Hnt Hy Hey.
    assert (Hey2 : exists ey2, events_ a !! y = Some ey2 /\ ev_domain ey2 = ev_domain ey).
    { apply rewired_lookup in Hey as [[-> ->]|[_ Hey]]; by eexists. }
    destruct Hey2 as (ey2 & Hey2 & <-). apply rewired_lookup in Hx as [[-> ->]|[_ Hx]].
    + destruct (Hlocal y Hy) as (ey3 & Hey3 & Hd3). by simplify_eq.
    + by eapply wf_local0.
  - intros x ex [[-> ->]|[_ Hx]]%rewired_lookup Hxt; [cbn in Hxt; congruence|].
    destruct (wf_trans0 _ _ Hx Hxt) as (? & y & ey & Ed & Hey & Hs & Hab). split; [done|].
    destruct (rewired_old _ _ Hey) as (ey' & Hey' & E & _). exists y, ey'.
    split_and!; [done|done|by rewrite E|by rewrite E].
  - intros x ex [[-> ->]|[_ Hx]]%rewired_lookup Hxp; [cbn in Hxp; congruence|].
    destruct (wf_pseudo0 _ _ Hx Hxp). split; [done|]. by apply rewired_fits.
  - intros x ex [[-> ->]|[_ Hx]]%rewired_lookup; [exact (wf_place0 _ _ He)|exact (wf_place0 _ _ Hx)].
  - intros k Hk. destruct (events_ a' !! collector_id k) as [ex|] eqn:E; [|done].
    apply rewired_lookup in E as [[<- _]|[_ Hx]]; [|by rewrite wf_fresh0 in Hx].
    by rewrite wf_fresh0 in He.
  - intros n Hn. destruct (wf_syn0 n Hn) as (en & Hen & Hde). exists en. split; [|done].
    apply rewired_lookup. right. split; [|done]. intros E. rewrite E in Hen. simplify_eq.
    destruct Hde as (_ & _ & _ & P & T). rewrite P in Hp. rewrite T in Ht. by destruct (sn_kind n).
  - intros x ex [[-> ->]|[_ Hx]]%rewired_lookup Hs; [|exact (wf_syn_all0 _ _ Hx Hs)].
    unfold synthetic in Hs. cbn in Hs. by rewrite Hp, Ht in Hs.
Qed.

Lemma rewired_frame d : ev_domain e = d -> Frame d a a'.
Proof using He.
  intros Hd. split; try done.
  - intros x ex Hdx. rewrite rewired_lookup. split.
    + intros [[-> ->]|[_ ?]]; [by cbn in Hdx|done].
    + intros Hx. right. split; [|done]. intros ->. by simplify_eq.
  - intros x _. apply rewired_bucket.
  - intros x. split.
    + intros (ex & [[-> ->]|[_ Hx]]%rewired_lookup & ?); eauto.
    + intros (ex & Hx & Hp). destruct (rewired_old _ _ Hx) as (ex' & Hx' & E & _). exists ex'.
      split; [done|]. by rewrite E.
  - intros dm dm' b E1 E2 Hb. cbn in E2. simplify_eq. left. by apply list_elem_of_fmap_2.
Qed.

Lemma rewired_reads c x : reads a' c x <-> reads a c x.
Proof using He Hreal.
  split; apply (reads_local (fun _ => True)); try done.
  - intros y ey _ [[-> ->]|[_ Hy]]%rewired_lookup; [|by exists ey].
    exists e. split_and!; [done|done|]. intros Hs. unfold synthetic in *. cbn in Hs. congruence.
  - intros y ey _ Hy. destruct (rewired_old _ _ Hy) as (ey' & Hy' & E & Hne). exists ey'.
    rewrite E at 2. split_and!; [done|done|]. intros Hs. destruct (decide (y = id)) as [->|Hn].
    + simplify_eq. congruence.
    + by rewrite (Hne Hn).
Qed.

Lemma rewired_meaning orig :
  (forall x, (exists y, y ∈ ev_depends e /\ reads a y x) <-> exists y, y ∈ l /\ reads a y x) ->
  Meaning orig a -> Meaning orig a'.
Proof using He Hreal.
  intros Hsame [Hr Hd Hdep]. split.
  - intros x. rewrite <-Hr. split.
    + intros (ex & [[-> ->]|[_ Hx]]%rewired_lookup & Hs); by eexists.
    + intros (ex & Hx & Hs). destruct (rewired_old _ _ Hx) as (ex' & Hx' & E & _). exists ex'.
      split; [done|]. by rewrite E.
  - intros x ex dep [[-> ->]|[_ Hx]]%rewired_lookup Ho; [by apply (Hd id e)|by eapply Hd].
  - intros x ex dep y [[-> ->]|[_ Hx]]%rewired_lookup Ho; cbn [ev_depends with_depends].
    + rewrite (Hdep id e dep y He Ho), Hsame. by setoid_rewrite rewired_reads.
    + rewrite (Hdep x ex dep y Hx Ho). by setoid_rewrite rewired_reads.
Qed.
End rewiring.

(** ** Buckets of a domain *)

Definition rebucketed d (n : Z) (bs : list BarrierBucket) a : BarrierLowerer :=
  set_domains (alter (with_buckets bs) d (domains_ a)) (set_count n a).

Section buckets.
Context (d : string) (n : Z) (bs : list BarrierBucket) (a : BarrierLowerer) (HW : Wf a).
Context (dm : BarrierDomain) (Hdm : domains_ a !! d = Some dm).
Abbreviation a' := (rebucketed d n bs a).

Lemma rebucketed_lookup x dx :
  domains_ a' !! x = Some dx <->
  (x = d /\ dx = with_buckets bs dm) \/ (x <> d /\ domains_ a !! x = Some dx).
Proof using Hdm.
  cbn [domains_ rebucketed set_domains]. destruct (decide (x = d)) as [->|Hne].
  - rewrite lookup_alter_eq, Hdm. cbn. split; [intros [= <-]; by left|]. intros [[_ ->]|[? _]]; done.
  - rewrite lookup_alter_ne by done. split; [by right|]. by intros [[? _]|[_ ?]].
Qed.

Lemma rebucketed_skeleton : skeleton_of a' = skeleton_of a.
Proof using Hdm.
  apply map_eq. intros x. unfold skeleton_of. rewrite !lookup_fmap.
  destruct (decide (x = d)) as [->|Hne]; cbn.
  - by rewrite lookup_alter_eq, Hdm.
  - by rewrite lookup_alter_ne.
Qed.

Context (Hn : allocatedBucketCount_ a <= n <= maxBuckets_ a).
Context (Hnodup : NoDup (bk_id <$> bs)) (Hok : Forall (bucket_ok (set_count n a)) bs).
Context (Hnew : forall b, b ∈ bs -> bk_id b ∈ bk_id <$> dm_localBuckets dm \/ allocatedBucketCount_ a <= bk_id b).

(** A bucket of another domain is not one of [bs]. *)
Lemma rebucketed_foreign x dx b b2 :
  x <> d -> domains_ a !! x = Some dx -> b ∈ dm_localBuckets dx -> b2 ∈ bs -> bk_id b <> bk_id b2.
Proof using HW Hdm Hnew.
  intros Hx Hdx Hb Hb2 E. destruct (Hnew b2 Hb2) as [Hin|Hge].
  - apply list_elem_of_fmap in Hin as (b3 & E3 & Hb3). apply Hx.
    eapply (wf_owner _ HW x dx b d dm b3); try done. congruence.
  - destruct (wf_buckets _ HW _ _ Hdx) as [_ Hf]. rewrite Forall_forall in Hf.
    destruct (Hf _ Hb) as [Hr _]. lia.
Qed.

Lemma rebucketed_tables :
  (forall x dx, domains_ a' !! x = Some dx ->
     NoDup (bk_id <$> dm_localBuckets dx) /\ Forall (bucket_ok a') (dm_localBuckets dx)) /\
  (forall d1 dm1 b1 d2 dm2 b2, domains_ a' !! d1 = Some dm1 -> b1 ∈ dm_localBuckets dm1 ->
     domains_ a' !! d2 = Some dm2 -> b2 ∈ dm_localBuckets dm2 -> bk_id b1 = bk_id b2 -> d1 = d2).
Proof using All.
  split.
  - intros x dx [[-> ->]|[Hx Hdx]]%rebucketed_lookup; [done|].
    destruct (wf_buckets _ HW _ _ Hdx) as [Hnd Hf]. split; [done|]. eapply Forall_impl; [exact Hf|].
    intros b [Hr Hl]. split; [cbn; lia|done].
  - intros d1 dm1 b1 d2 dm2 b2 [[-> ->]|[H1 Hd1]]%rebucketed_lookup Hb1
      [[-> ->]|[H2 Hd2]]%rebucketed_lookup Hb2 E; [done| | |by eapply (wf_owner _ HW)].
    + by destruct (rebucketed_foreign _ _ _ _ H2 Hd2 Hb2 Hb1).
    + by destruct (rebucketed_foreign _ _ _ _ H1 Hd1 Hb1 Hb2).
Qed.

Lemma rebucketed_wf : (forall b, b ∈ dm_localBuckets dm -> b ∈ bs) -> Wf a'.
Proof using All.
  intros Hkeep. destruct rebucketed_tables as [Ht1 Ht2].
  assert (Hd : forall x, is_Some (domains_ a !! x) -> is_Some (domains_ a' !! x)).
  { intros x [dx Hx]. destruct (decide (x = d)) as [->|Hne]; eexists; apply rebucketed_lookup; eauto. }
  pose proof HW as []. split; try done.
  - destruct wf_limits0 as (? & ? & ?). split_and!; cbn; lia.
  - intros id e He. apply Hd, (wf_dom0 _ _ He).
  - intros id e He Ht. rewrite rebucketed_skeleton. by apply wf_trans0 with (id := id).
  - intros id e He. destruct (wf_place0 _ _ He) as [?|(dx & b & Hdx & Hb & ?)]; [by left|right].
    destruct (decide (ev_domain e = d)) as [E|Hne].
    + exists (with_buckets bs dm), b. rewrite E in Hdx |- *. assert (dx = dm) as -> by congruence.
      split; [apply rebucketed_lookup; by left|]. split; [by apply Hkeep|done].
    + exists dx, b. split; [apply rebucketed_lookup; by right|done].
Qed.

Lemma rebucketed_frame : Frame d a a'.
Proof using All.
  split; try done.
  - split_and!; try done. apply rebucketed_skeleton.
  - apply Hn.
  - intros x Hx. cbn. by apply lookup_alter_ne.
  - intros dm1 dm2 b E1 [[_ ->]|[? _]]%rebucketed_lookup Hb; [|done].
    assert (dm1 = dm) as -> by congruence. by apply Hnew.
Qed.
End buckets.

(** ** Taking a bit *)

Definition taken (b : BarrierBucket) (i : nat) id : BarrierBucket :=
  {| bk_id := bk_id b; bk_slots := <[i := id]> (bk_slots b) |}.

(** Event [id] on slot [i] of bucket [b], the [k]-th of the buckets [bs] of [d]. *)
Definition put_on d (bs : list BarrierBucket) (k : nat) (b : BarrierBucket) (i : nat) id a : BarrierLowerer :=
  set_domains (alter (with_buckets (<[k := taken b i id]> bs)) d (domains_ a))
    (set_events (alter (with_place (bk_id b) (Z.of_nat i)) id (events_ a)) a).

Section placing.
Context (d : string) (k : nat) (b : BarrierBucket) (i : nat) (id : string) (a : BarrierLowerer) (HW : Wf a).
Context (dm : BarrierDomain) (Hdm : domains_ a !! d = Some dm) (Hk : dm_localBuckets dm !! k = Some b).
Context (Hi : bk_slots b !! i = Some EmptyString).
Context (e : BarrierEvent) (He : events_ a !! id = Some e) (Hd : ev_domain e = d) (Hfree : ev_bucket e < 0).
Abbreviation bs := (dm_localBuckets dm).
Abbreviation a' := (put_on d bs k b i id a).
Abbreviation e' := (with_place (bk_id b) (Z.of_nat i) e).

Lemma put_lookup x ex :
  events_ a' !! x = Some ex <-> (x = id /\ ex = e') \/ (x <> id /\ events_ a !! x = Some ex).
Proof using He.
  cbn [events_ put_on set_events set_domains]. destruct (decide (x = id)) as [->|Hne].
  - rewrite lookup_alter_eq, He. cbn. split; [intros [= <-]; by left|]. intros [[_ ->]|[? _]]; done.
  - rewrite lookup_alter_ne by done. split; [by right|]. by intros [[? _]|[_ ?]].
Qed.

Lemma put_bucket_ok : 0 <= bk_id b < allocatedBucketCount_ a /\ length (bk_slots b) = Z.to_nat (bitsPerBucket_ a).
Proof using HW Hdm Hk.
  destruct (wf_buckets _ HW _ _ Hdm) as [_ Hf]. rewrite Forall_lookup in Hf. exact (Hf _ _ Hk).
Qed.

Lemma put_bucket x : bucket_of a' x = if decide (x = id) then bk_id b else bucket_of a x.
Proof using He.
  unfold bucket_of. cbn [events_ put_on set_events set_domains]. case_decide as E.
  - subst x. by rewrite lookup_alter_eq, He.
  - by rewrite lookup_alter_ne.
Qed.

Lemma put_keep x : 0 <= bucket_of a x -> bucket_of a' x = bucket_of a x.
Proof using He Hfree.
  intros Hx. rewrite put_bucket. case_decide as E; [|done]. subst x.
  rewrite (bucket_of_event _ _ _ He) in Hx. lia.
Qed.

Lemma put_ids : bk_id <$> <[k := taken b i id]> bs = bk_id <$> bs.
Proof using Hk.
  rewrite list_fmap_insert. apply list_insert_id. by rewrite list_lookup_fmap, Hk.
Qed.

(** Apart from places, the events are the same. *)
Lemma put_events x ex :
  events_ a !! x = Some ex -> exists ex', events_ a' !! x = Some ex' /\ ev_id ex' = ev_id ex /\
    ev_domain ex' = ev_domain ex /\ ev_depends ex' = ev_depends ex /\
    ev_isPseudo ex' = ev_isPseudo ex /\ ev_isTransition ex' = ev_isTransition ex.
Proof using He.
  intros Hx. destruct (decide (x = id)) as [->|Hne].
  - assert (ex = e) as -> by congruence. eexists. split; [apply put_lookup; by left|done].
  - exists ex. split; [apply put_lookup; by right|done].
Qed.

Lemma put_events_back x ex' :
  events_ a' !! x = Some ex' -> exists ex, events_ a !! x = Some ex /\ ev_id ex' = ev_id ex /\
    ev_domain ex' = ev_domain ex /\ ev_depends ex' = ev_depends ex /\
    ev_isPseudo ex' = ev_isPseudo ex /\ ev_isTransition ex' = ev_isTransition ex.
Proof using He. intros [[-> ->]|[_ Hx]]%put_lookup; by eexists. Qed.

Lemma put_domain_lookup x dx :
  domains_ a' !! x = Some dx <->
  (x = d /\ dx = with_buckets (<[k := taken b i id]> bs) dm) \/ (x <> d /\ domains_ a !! x = Some dx).
Proof using Hdm. apply (rebucketed_lookup d (allocatedBucketCount_ a) _ a dm Hdm). Qed.

Lemma put_held x ex : events_ a' !! x = Some ex -> x <> EmptyString ->
  (ev_bucket ex = -1 /\ ev_slot ex = -1) \/ held a' x ex.
Proof using All.
  intros [[-> ->]|[Hne Hx]]%put_lookup Hxe.
  - right. exists (with_buckets (<[k := taken b i id]> bs) dm), (taken b i id). cbn.
    split_and!; [apply put_domain_lookup; by left| |done|lia|].
    + apply list_elem_of_lookup. exists k. apply list_lookup_insert_eq. by eapply lookup_lt_Some.
    + rewrite Nat2Z.id. apply list_lookup_insert_eq. by eapply lookup_lt_Some.
  - destruct (wf_place _ HW _ _ Hx) as [?|(dx & bx & Hdx & Hbx & Eb & Hs & Hsl)]; [by left|right].
    destruct (decide (ev_domain ex = d)) as [E|Hnd]; [|exists dx, bx; split; [apply put_domain_lookup; by right|done]].
    exists (with_buckets (<[k := taken b i id]> bs) dm). rewrite E in Hdx |- *.
    assert (dx = dm) as -> by congruence. apply list_elem_of_lookup in Hbx as [kx Hkx].
    destruct (decide (kx = k)) as [->|Hkne].
    + assert (bx = b) as -> by congruence. exists (taken b i id). cbn.
      split_and!; [apply put_domain_lookup; by left| |done|done|].
      * apply list_elem_of_lookup. exists k. apply list_lookup_insert_eq. by eapply lookup_lt_Some.
      * rewrite list_lookup_insert_ne; [done|]. intros ->. congruence.
    + exists bx. split_and!; [apply put_domain_lookup; by left| |done..].
      apply list_elem_of_lookup. exists kx. cbn. by rewrite list_lookup_insert_ne.
Qed.

Lemma put_skeleton : skeleton_of a' = skeleton_of a.
Proof using Hdm. apply (rebucketed_skeleton d (allocatedBucketCount_ a) _ a dm Hdm). Qed.

Lemma put_wf : Wf a'.
Proof using All.
  pose proof HW as [].
  destruct (rebucketed_tables d (allocatedBucketCount_ a) (<[k := taken b i id]> bs) a HW dm Hdm) as [Ht1 Ht2].
  { destruct wf_limits0 as (? & ? & ?). lia. }
  { rewrite put_ids. by eapply wf_buckets0. }
  { apply Forall_insert; [by eapply wf_buckets0|]. split; [apply put_bucket_ok|]. cbn.
    rewrite length_insert. apply put_bucket_ok. }
  { intros b2 Hb2. left. rewrite <-put_ids. by apply list_elem_of_fmap_2. }
  split; try done.
  - intros x ex' (ex & Hx & -> & _)%put_events_back. by apply (wf_id0 _ ex).
  - intros x ex' (ex & Hx & _ & -> & _)%put_events_back. destruct (wf_dom0 _ _ Hx) as [dx Hdx].
    destruct (decide (ev_domain ex = d)) as [E|Hnd]; eexists; apply put_domain_lookup; [left|right]; eauto.
  - intros x ex' y (ex & Hx & _ & _ & -> & _)%put_events_back Hy. destruct (wf_dep0 _ _ _ Hx Hy) as [ey Hey].
    destruct (put_events _ _ Hey) as (? & ? & _). by eexists.
  - intros x ex' (ex & Hx & _ & _ & -> & _)%put_events_back. by eapply wf_canon0.
  - intros x ex' y ey' (ex & Hx & _ & -> & -> & _ & ->)%put_events_back Ht Hy
      (ey & Hey & _ & -> & _)%put_events_back. by eapply wf_local0.
  - intros x ex' (ex & Hx & _ & Ed & -> & -> & ->)%put_events_back Ht. rewrite put_skeleton, Ed.
    destruct (wf_trans0 _ _ Hx Ht) as (? & y & ey & ? & Hey & Hs & Hab). split; [done|].
    destruct (put_events _ _ Hey) as (ey' & Hey' & _ & Edy & _ & P & T). exists y, ey'.
    unfold synthetic in *. rewrite P, T, Edy. by split_and!.
  - intros x ex' (ex & Hx & _ & _ & -> & -> & _)%put_events_back Hp.
    destruct (wf_pseudo0 _ _ Hx Hp) as [? Hf]. split; [done|]. eapply fits_mono; [|exact Hf]. apply put_keep.
  - intros x ex' Hx. apply put_held; [done|]. destruct (put_events_back _ _ Hx) as (ex & Hx2 & _).
    by destruct (wf_id0 _ _ Hx2).
  - intros n Hn. destruct (events_ a' !! collector_id n) as [ex'|] eqn:E; [|done].
    apply put_events_back in E as (ex & Hx & _). by rewrite wf_fresh0 in Hx.
  - intros n Hn. destruct (wf_syn0 n Hn) as (en & Hen & Hde).
    destruct (put_events _ _ Hen) as (en' & Hen' & _ & E1 & E2 & E3 & E4). exists en'. split; [done|].
    unfold describes in *. by rewrite E1, E2, E3, E4.
  - intros x ex' (ex & Hx & _ & _ & _ & P & T)%put_events_back Hs. apply (wf_syn_all0 _ _ Hx).
    unfold synthetic in *. congruence.
Qed.

Lemma put_frame : Frame d a a'.
Proof using All.
  split; try done.
  - split_and!; try done. apply put_skeleton.
  - intros x ex Hdx. rewrite put_lookup. split.
    + intros [[-> ->]|[_ ?]]; [by cbn in Hdx|done].
    + intros Hx. right. split; [|done]. intros ->. congruence.
  - intros x Hx. cbn. by apply lookup_alter_ne.
  - apply put_keep.
  - intros x. split.
    + intros (ex & (ey & Hy & _ & _ & _ & P & _)%put_events_back & Hp). exists ey. split; [done|congruence].
    + intros (ex & Hx & Hp). destruct (put_events _ _ Hx) as (ex' & Hx' & _ & _ & _ & P & _). exists ex'.
      split; [done|congruence].
  - intros dm1 dm2 b2 E1 [[_ ->]|[? _]]%put_domain_lookup Hb2; [|done]. assert (dm1 = dm) as -> by congruence.
    left. rewrite <-put_ids. by apply list_elem_of_fmap_2.
Qed.

Lemma put_reads c x : reads a' c x <-> reads a c x.
Proof using He.
  split; apply (reads_local (fun _ => True)); try done.
  - intros y ey _ (ey2 & Hy & _ & _ & Ed & P & T)%put_events_back. exists ey2. unfold synthetic.
    rewrite P, T, Ed. by split_and!.
  - intros y ey _ Hy. destruct (put_events _ _ Hy) as (ey' & Hy' & _ & _ & Ed & P & T). exists ey'.
    unfold synthetic. rewrite P, T, Ed. by split_and!.
Qed.

Lemma put_meaning orig : Meaning orig a -> Meaning orig a'.
Proof using He.
  intros [Hr Hdo Hdep]. split.
  - intros x. rewrite <-Hr. split.
    + intros (ex & (ey & Hy & _ & _ & _ & P & T)%put_events_back & Hs). exists ey. unfold synthetic in *.
      by rewrite <-P, <-T.
    + intros (ex & Hx & Hs). destruct (put_events _ _ Hx) as (ex' & Hx' & _ & _ & _ & P & T). exists ex'.
      unfold synthetic in *. by rewrite P, T.
  - intros x ex dep (ey & Hy & _ & -> & _)%put_events_back Ho. by eapply Hdo.
  - intros x ex dep y (ey & Hy & _ & _ & -> & _)%put_events_back Ho.
    rewrite (Hdep x ey dep y Hy Ho). by setoid_rewrite put_reads.
Qed.
End placing.
