(* ===== verification/BarrierRound.v ===== *)
(** * One round of the barrier allocation

    The steps of [allocateEventsInDomain] in terms of the changes of
    [BarrierInv]: collectors without a bit are removed, new ones created, and
    as many events as fit get a bit of one bucket. *)

From S2P Require Import Prelude Rp1Protocol Except BarrierLowering BarrierFacts BarrierInv.

Implicit Types (s a : BarrierLowerer) (e : BarrierEvent) (id d : string).

(** The ids a round works on: every event of the domain, and perhaps others. *)
Record view_ok d a (view : list string) : Prop := {
  vo_nodup : NoDup view;
  vo_known : known a view;
  vo_all id e : events_ a !! id = Some e -> ev_domain e = d -> id ∈ view
}.

(** ** States up to affinities *)

Lemma abs_lookup s id : events_ (abs s) !! id = strip <$> events_ s !! id.
Proof. cbn. apply lookup_fmap. Qed.

Lemma abs_event s id e : events_ s !! id = Some e -> events_ (abs s) !! id = Some (strip e).
Proof. intros He. by rewrite abs_lookup, He. Qed.

Lemma abs_inv s id e : events_ (abs s) !! id = Some e -> exists e0, events_ s !! id = Some e0 /\ e = strip e0.
Proof. rewrite abs_lookup, fmap_Some. intros (e0 & ? & ->). eauto. Qed.

Lemma abs_known s l : known (abs s) l <-> known s l.
Proof. unfold known. by setoid_rewrite abs_lookup; setoid_rewrite fmap_is_Some. Qed.

Lemma abs_test s p id : (forall e, p (strip e) = p e) -> test (abs s) p id = test s p id.
Proof. intros Hp. unfold test. rewrite abs_lookup. destruct (events_ s !! id); cbn; auto. Qed.

Lemma abs_set_events s M : abs (set_events M s) = set_events (strip <$> M) (abs s).
Proof. done. Qed.

Lemma strip_alter f id (M : gmap string BarrierEvent) :
  (forall e, strip (f e) = f (strip e)) -> strip <$> alter f id M = alter f id (strip <$> M).
Proof.
  intros Hf. apply map_eq. intros x. rewrite lookup_fmap. destruct (decide (id = x)) as [->|Hne].
  - rewrite !lookup_alter_eq, lookup_fmap. destruct (M !! x); cbn; [by rewrite Hf|done].
  - by rewrite !lookup_alter_ne, lookup_fmap by done.
Qed.

Lemma abs_rewired s id l :
  abs (set_events (alter (with_depends l) id (events_ s)) s) = rewired id l (abs s).
Proof. rewrite abs_set_events, strip_alter by done. done. Qed.

Lemma abs_expansions d s : expansions_of d (abs s) = expansions_of d s.
Proof.
  apply map_eq. intros u. apply option_eq. intros l. rewrite !expansions_lookup. split.
  - intros (e & (e0 & He & ->)%abs_inv & Hu & ->). by exists e0.
  - intros (e & He & Hu & ->). exists (strip e). by rewrite (abs_event _ _ _ He).
Qed.

Lemma loop_const {A B} (body : B -> A -> LM B) (b : B) s l :
  (forall x, x ∈ l -> body b x s = Ret (Val b) s) -> loop body b l s = Ret (Val b) s.
Proof.
  induction l as [|x l IH]; intros Hb; cbn [loop]; [done|].
  rewrite (bind_exact _ _ _ _ _ (Hb x ltac:(by left))). apply IH. intros. apply Hb. by right.
Qed.

(** ** Removing collectors *)

Lemma collect_expansions_run d view s :
  Wf (abs s) -> view_ok d (abs s) view ->
  collect_expansions d view s = Ret (Val (expansions_of d s)) s.
Proof.
  intros HW [_ Hk Hall]. rewrite abs_known in Hk. unfold collect_expansions.
  set (f := fun (exps : gmap string (list string)) id => match events_ s !! id with
    | Some e => if unplaced_pseudo d e then <[ev_id e := ev_depends e]> exps else exps | None => exps end).
  rewrite (loop_reads _ f).
  - do 2 f_equal. apply map_eq. intros u.
    assert (Hf : forall l acc, l ⊆ view -> foldl f acc l !! u =
      if decide (u ∈ l /\ test s (unplaced_pseudo d) u = true) then ev_depends <$> events_ s !! u else acc !! u).
    { induction l as [|x l IH]; intros acc Hl; cbn [foldl]; [case_decide; set_solver|].
      rewrite IH by set_solver. destruct (Hk x ltac:(set_solver)) as [e He].
      destruct (wf_id _ HW _ _ (abs_event _ _ _ He)) as [Hid _]. cbn in Hid. unfold f at 1, test.
      rewrite He, Hid. destruct (decide (u = x)) as [->|Hne].
      - rewrite He. destruct (unplaced_pseudo d e) eqn:Hu; rewrite ?lookup_insert_eq; repeat case_decide; set_solver.
      - destruct (unplaced_pseudo d e); rewrite ?lookup_insert_ne by done; repeat case_decide; set_solver. }
    rewrite Hf by done. apply option_eq. intros l. rewrite expansions_lookup.
    destruct (decide (u ∈ view /\ test s (unplaced_pseudo d) u = true)) as [[Hu Ht]|Hd].
    + unfold test in Ht. rewrite fmap_Some. destruct (events_ s !! u) as [e|]; naive_solver.
    + split; [done|]. intros (e & He & Hu & _). destruct Hd. split; [|unfold test; by rewrite He].
      apply (Hall u (strip e)); [by apply abs_event|]. by apply unplaced_spec in Hu as [[? _] _].
  - intros exps x Hx. destruct (Hk x Hx) as [e He]. unfold f. rewrite He.
    by rewrite (at_event _ _ _ _ He).
Qed.

Lemma expandDeps_id fuel X deps :
  (0 < fuel)%nat -> canon deps -> (forall y, y ∈ deps -> X !! y = None) -> expandDeps fuel X deps = Some deps.
Proof.
  intros Hf Hc Hn. destruct fuel as [|fuel]; [lia|]. cbn [expandDeps].
  assert (mapM (fun dep => match X !! dep with None => Some [dep] | Some ds => expandDeps fuel X ds end) deps =
    Some (map (fun x => [x]) deps)) as ->.
  { clear Hc. induction deps as [|y deps IH]; [done|]. cbn [mapM map]. rewrite Hn by (by left).
    rewrite IH by (intros; apply Hn; by right). done. }
  cbn. do 2 f_equal. replace (concat (map (fun x => [x]) deps)) with deps; [by apply dedup_id|].
  clear. induction deps as [|y deps IH]; [done|]. cbn. by rewrite <-IH.
Qed.

Lemma expand_all_run fuel d s :
  Wf (abs s) -> (0 < fuel)%nat ->
  expand_all fuel (expansions_of d s) s = Ret (Val (expansions_of d s)) s.
Proof.
  intros HW Hf. apply loop_const. intros u [l Hl]%ids_elem. rewrite Hl.
  rewrite <-abs_expansions in Hl. apply expansions_lookup in Hl as Hu.
  destruct Hu as (e & He & Hu & ->). apply unplaced_spec in Hu as [[_ Hp] _].
  rewrite expandDeps_id; [|done|by eapply wf_canon|].
  - unfold mret, EM_ret. do 2 f_equal. apply insert_id. by rewrite <-abs_expansions.
  - intros y Hy. rewrite <-abs_expansions. eapply placed_free, gathered_placed; done.
Qed.

(** A loop that changes every event of a list, one at a time. *)
Lemma each_alter_run (g : BarrierEvent -> BarrierEvent) (body : string -> LM unit) l s :
  NoDup l -> known s l ->
  (forall id e s', events_ s' !! id = Some e -> body id s' = Ret (Val tt) (set_events (<[id := g e]> (events_ s')) s')) ->
  exists M, each l body s = Ret (Val tt) (set_events M s) /\
    forall x, M !! x = (if decide (x ∈ l) then g else (fun e => e)) <$> events_ s !! x.
Proof.
  intros Hnd Hk Hb. revert s Hk. induction Hnd as [|x l Hx Hnd IH]; intros s Hk; cbn [each].
  - exists (events_ s). split; [by destruct s|]. intros x. rewrite decide_False by apply not_elem_of_nil.
    by rewrite option_fmap_id.
  - destruct (Hk x ltac:(by left)) as [e He]. rewrite (bind_exact _ _ _ _ _ (Hb x e s He)).
    destruct (IH (set_events (<[x := g e]> (events_ s)) s)) as (M & Er & HM).
    { intros y Hy. cbn. destruct (decide (x = y)) as [->|Hne]; [rewrite lookup_insert_eq; by eexists|].
      rewrite lookup_insert_ne by done. apply Hk. by right. }
    exists M. split; [exact Er|]. intros y. rewrite HM. cbn. destruct (decide (x = y)) as [->|Hne].
    + rewrite lookup_insert_eq, He, decide_False by done. rewrite decide_True by (by left). done.
    + rewrite lookup_insert_ne by done. destruct (decide (y ∈ l)) as [Hy|Hy].
      * by rewrite decide_True by (by right).
      * rewrite decide_False; [done|]. by intros [->|?]%elem_of_cons.
Qed.

(** Dropping a list of synthetic nodes. *)
Lemma drop_synthetic_run l s :
  each l drop_synthetic s = Ret (Val tt)
    (set_synthetic (filter (fun n => sn_set n ∉ l) (syntheticNodes_ s))
      (set_events (filter (fun p => p.1 ∉ l) (events_ s)) s)).
Proof.
  revert s. induction l as [|x l IH]; intros s; cbn [each].
  - unfold mret, EM_ret. f_equal. destruct s; cbn. unfold set_synthetic, set_events. cbn. f_equal.
    + symmetry. apply map_filter_id. intros. apply not_elem_of_nil.
    + symmetry. apply filter_all. intros. apply not_elem_of_nil.
  - rewrite (bind_exact (drop_synthetic x) _ s tt
      (set_synthetic (filter (fun n => sn_set n <> x) (syntheticNodes_ s)) (set_events (delete x (events_ s)) s)))
      by done.
    rewrite IH. f_equal. unfold set_synthetic, set_events. cbn. f_equal.
    + apply map_eq. intros y. apply option_eq. intros e. rewrite !map_lookup_filter_Some, lookup_delete_Some.
      cbn. rewrite not_elem_of_cons. naive_solver.
    + rewrite list_filter_filter. apply list_filter_iff. intros n. rewrite not_elem_of_cons. tauto.
Qed.

Lemma erase_unplaced_run d view s :
  known s view ->
  erase_unplaced d view s =
    Ret (Val (filter (fun id => test s (fun e => negb (unplaced_pseudo d e)) id = true) view)) s.
Proof.
  intros Hk. apply select_run; [done|]. intros out id e He. rewrite (at_event _ _ _ _ He).
  by destruct (unplaced_pseudo d e).
Qed.

Lemma removed_nothing d a : Wf a -> expansions_of d a = ∅ -> removed d a = a.
Proof.
  intros HW HX.
  assert (Hno : forall id e, events_ a !! id = Some e -> unplaced_pseudo d e = false).
  { intros id e He. apply (expansions_none d a id e He). by rewrite HX. }
  destruct a as [r D M Y b m c n t]. unfold removed, set_synthetic, set_events. rewrite HX. cbn in *. f_equal.
  - apply map_eq. intros id. apply option_eq. intros e. rewrite lookup_fmap, fmap_Some. split.
    + intros (e0 & [He _]%map_lookup_filter_Some & ->). rewrite He. f_equal.
      rewrite substitute_id; [by destruct e0|by eapply (wf_canon _ HW)|done].
    + intros He. exists e. rewrite map_lookup_filter_Some. split; [eauto|].
      rewrite substitute_id; [by destruct e|by eapply (wf_canon _ HW)|done].
  - by apply filter_all.
Qed.

Lemma alter_as_insert (M : gmap string BarrierEvent) f id e :
  M !! id = Some e -> alter f id M = <[id := f e]> M.
Proof.
  intros He. apply map_eq. intros x. destruct (decide (id = x)) as [->|Hne].
  - by rewrite lookup_alter_eq, lookup_insert_eq, He.
  - by rewrite lookup_alter_ne, lookup_insert_ne.
Qed.

Lemma set_same_events s : set_events (events_ s) s = s.
Proof. by destruct s. Qed.

(** An event after the rewriting loop of the removal. *)
Definition without (X : gmap string (list string)) d e : BarrierEvent :=
  if unplaced_pseudo d e then e else with_depends (substitute X (ev_depends e)) e.

Lemma without_unplaced X d e : unplaced_pseudo d (without X d e) = unplaced_pseudo d e.
Proof. unfold without. by destruct (unplaced_pseudo d e) eqn:E. Qed.

Lemma rewrite_run d view s :
  Wf (abs s) -> view_ok d (abs s) view -> let X := expansions_of d s in
  exists M, each view (fun id => event ← event_at id;
      if unplaced_pseudo d event then mret tt
      else alter_event (with_depends (substitute X (ev_depends event))) id) s =
    Ret (Val tt) (set_events M s) /\
    forall x, M !! x = without X d <$> events_ s !! x.
Proof.
  intros HW HV X. pose proof (vo_known _ _ _ HV) as Hk. rewrite abs_known in Hk.
  destruct (each_alter_run (without X d) (fun id => event ← event_at id;
      if unplaced_pseudo d event then mret tt
      else alter_event (with_depends (substitute X (ev_depends event))) id) view s)
    as (M & Er & HM); [apply HV|exact Hk| |exists M; split; [exact Er|]].
  { intros id e s' He. rewrite (at_event _ _ _ _ He). unfold without. destruct (unplaced_pseudo d e).
    - unfold mret, EM_ret. by rewrite insert_id, set_same_events.
    - unfold alter_event, updates. by rewrite (alter_as_insert _ _ _ _ He). }
  intros x. rewrite HM. destruct (decide (x ∈ view)) as [Hx|Hx]; [done|].
  destruct (events_ s !! x) as [e|] eqn:He; [|done]. cbn. f_equal. unfold without.
  destruct (unplaced_pseudo d e); [done|].
  assert (Hd : ev_domain e <> d).
  { intros Hd. apply Hx. by apply (vo_all _ _ _ HV x (strip e) (abs_event _ _ _ He)). }
  pose proof (keep_other d (abs s) HW x (strip e) (abs_event _ _ _ He) Hd) as Hs.
  rewrite abs_expansions in Hs. change (substitute X (ev_depends e) = ev_depends e) in Hs.
  rewrite Hs. by destruct e.
Qed.

Lemma remove_run fuel d view s :
  Wf (abs s) -> view_ok d (abs s) view -> (0 < fuel)%nat ->
  exists s', removeUnplacedPseudoEvents fuel d view s =
      Ret (Val (filter (fun id => test s (fun e => negb (unplaced_pseudo d e)) id = true) view)) s' /\
    abs s' = removed d (abs s).
Proof.
  intros HW HV Hf. pose proof (vo_known _ _ _ HV) as Hk. rewrite abs_known in Hk.
  unfold removeUnplacedPseudoEvents.
  rewrite (bind_exact _ _ _ _ _ (collect_expansions_run d view s HW HV)).
  case_decide as HX.
  { exists s. split; [|symmetry; apply removed_nothing; [done|by rewrite abs_expansions]].
    unfold mret, EM_ret. rewrite filter_all; [done|]. intros id Hid. destruct (Hk id Hid) as [e He].
    unfold test. rewrite He. rewrite (proj1 (expansions_none d s id e He)); [done|]. by rewrite HX. }
  rewrite (bind_exact _ _ _ _ _ (expand_all_run fuel d s HW Hf)).
  destruct (rewrite_run d view s HW HV) as (M & Er & HM). rewrite (bind_exact _ _ _ _ _ Er). clear Er.
  set (s1 := set_events M s). set (X := expansions_of d s) in *.
  assert (Hk1 : known s1 view).
  { intros x Hx. cbn. rewrite HM. destruct (Hk x Hx) as [e ->]. by eexists. }
  rewrite (bind_exact _ _ _ _ _ (erase_unplaced_run d view s1 Hk1)).
  rewrite (bind_exact _ _ _ _ _ (drop_synthetic_run (ids X) s1)). eexists. split.
  - unfold mret, EM_ret. do 2 f_equal. apply list_filter_iff. intros x. unfold test. cbn. rewrite HM.
    destruct (events_ s !! x); cbn; [by rewrite without_unplaced|done].
  - unfold removed. rewrite abs_expansions. fold X. unfold abs, set_synthetic, set_events. cbn. f_equal.
    + apply map_eq. intros x. apply option_eq. intros e. rewrite !lookup_fmap, !fmap_Some.
      setoid_rewrite map_lookup_filter_Some. setoid_rewrite HM. setoid_rewrite lookup_fmap. cbn.
      destruct (events_ s !! x) as [e0|] eqn:He; cbn; [|split; intros (? & [? _] & _); discriminate].
      assert (Hx : x ∉ ids X <-> unplaced_pseudo d e0 = false).
      { rewrite ids_elem, <-eq_None_not_Some. by apply expansions_none. }
      split; intros (? & [[= <-] Hu] & ->).
      * apply Hx in Hu. eexists. split; [done|]. unfold without. by rewrite Hu.
      * apply Hx in Hu as Hu2. eexists. split; [done|]. unfold without.
        change (unplaced_pseudo d e0 = false) in Hu. by rewrite Hu.
    + apply list_filter_iff. intros nd. rewrite ids_elem. by rewrite eq_None_not_Some.
Qed.

Lemma remove_view d s view :
  Wf (abs s) -> view_ok d (abs s) view ->
  view_ok d (removed d (abs s))
    (filter (fun id => test s (fun e => negb (unplaced_pseudo d e)) id = true) view).
Proof.
  intros HW [Hn Hk Hall]. split.
  - by apply NoDup_filter.
  - intros x [Ht Hx]%list_elem_of_filter. unfold test in Ht.
    destruct (events_ s !! x) as [e|] eqn:He; [|done]. apply negb_true_iff in Ht.
    eexists. apply removed_lookup. exists (strip e). split_and!; [by apply abs_event|exact Ht|done].
  - intros x e (e0 & He & Hu & ->)%removed_lookup Hd. apply list_elem_of_filter. split; [|by eapply Hall].
    apply abs_inv in He as (e1 & He & ->). unfold test. rewrite He. by apply negb_true_iff.
Qed.

(** ** Creating collectors *)

Definition byDeps_ok d a (m : gmap (list string) string) : Prop :=
  forall D p, m !! D = Some p <-> exists e, events_ a !! p = Some e /\ collector d e /\ ev_depends e = D.

Lemma byDeps_distinct d a m : byDeps_ok d a m -> distinct_collectors d a.
Proof.
  intros Hm p1 e1 p2 e2 H1 C1 H2 C2 E.
  assert (m !! ev_depends e1 = Some p1) as A1 by (apply Hm; eauto).
  assert (m !! ev_depends e1 = Some p2) as A2 by (apply Hm; rewrite E; eauto). congruence.
Qed.

Lemma placed_collectors_run {ub nf : Prop} d view s X :
  Wf (abs s) -> Ready d (abs s) -> view_ok d (abs s) view ->
  ewp ub nf (placed_collectors d view) s (fun m s' => s' = s /\ byDeps_ok d (abs s) m) X.
Proof.
  intros HW HR [Hn Hk Hall]. rewrite abs_known in Hk.
  eapply ewp_mono; [apply (ewp_loop (fun old m s' => s' = s /\ forall D p, m !! D = Some p <->
    p ∈ old /\ exists e, events_ (abs s) !! p = Some e /\ collector d e /\ ev_depends e = D))| |done].
  - split; [done|]. intros D p. rewrite lookup_empty. split; [done|]. by intros [?%not_elem_of_nil _].
  - intros old x new m s' El [-> Hm].
    assert (x ∈ view) as Hx by (rewrite El; apply elem_of_app; right; by left).
    destruct (Hk x Hx) as [e He]. pose proof (abs_event _ _ _ He) as Hea.
    eapply ewp_exact; [rewrite (at_event _ _ _ _ He); done|]. split; [done|].
    assert (Hcd : bool_decide (ev_domain e = d) && ev_isPseudo e && (0 <=? ev_bucket e) = true <-> collector d (strip e)).
    { rewrite !andb_true_iff, bool_decide_eq_true, Z.leb_le. split; [intros [[? ?] _]; done|].
      intros Hc. split; [done|]. exact (rdy_placed _ _ HR _ _ Hea Hc). }
    destruct (bool_decide (ev_domain e = d) && ev_isPseudo e && (0 <=? ev_bucket e)) eqn:Ec.
    + rewrite dedup_id by exact (wf_canon _ HW _ _ Hea). pose proof (proj1 Hcd eq_refl) as Hc.
      intros D p. rewrite lookup_insert_Some, elem_of_app, list_elem_of_singleton, Hm. split.
      * intros [[<- <-]|[_ [? ?]]]; [|by split; [left|]]. split; [by right|]. by exists (strip e).
      * intros [[Hp| ->] (ep & Hep & Hcp & Ed)].
        -- destruct (decide (ev_depends e = D)) as [E|Hne].
           ++ left. split; [done|]. apply (rdy_unique _ _ HR _ _ _ _ Hea Hc Hep Hcp). by rewrite Ed.
           ++ right. split; [done|]. split; [done|]. by exists ep.
        -- left. rewrite Hea in Hep. by simplify_eq.
    + intros D p. rewrite elem_of_app, list_elem_of_singleton, Hm. split; [intros [? ?]; split; [by left|done]|].
      intros [[Hp| ->] (ep & Hep & Hcp & Ed)]; [eauto|]. rewrite Hea in Hep. simplify_eq. by apply Hcd in Hcp.
  - intros m s' [-> Hm]. split; [done|]. intros D p. rewrite Hm. split; [by intros [_ ?]|].
    intros (e & He & Hc & Ed). split; [|eauto]. apply (Hall p e He). apply Hc.
Qed.

(** The dependencies that lie in [bucket]. *)
Definition group_in a (deps : list string) (bucket : Z) : list string :=
  filter (fun x => bucket_of a x = bucket) deps.

Definition grouped a (deps : list string) (m : gmap Z (list string)) : Prop :=
  forall bucket, m !! bucket =
    if decide (0 <= bucket /\ group_in a deps bucket <> []) then Some (group_in a deps bucket) else None.

Lemma grouped_snoc a deps x m :
  grouped a deps m ->
  grouped a (deps ++ [x]) (if 0 <=? bucket_of a x
    then <[bucket_of a x := default [] (m !! bucket_of a x) ++ [x]]> m else m).
Proof.
  intros Hm bucket. unfold group_in. rewrite filter_app, filter_cons, filter_nil. specialize (Hm bucket) as Hb.
  unfold group_in in Hb. destruct (Z.leb_spec 0 (bucket_of a x)) as [Hx|Hx].
  - destruct (decide (bucket_of a x = bucket)) as [E|Hne].
    + rewrite E, lookup_insert_eq, decide_True by (split; [lia|by destruct (filter _ deps)]). f_equal. f_equal.
      rewrite Hb. destruct (decide _) as [?|Hn]; [done|]. cbn. symmetry. apply dec_stable. intros Hf. apply Hn. split; [lia|done].
    + by rewrite lookup_insert_ne, app_nil_r by done.
  - rewrite Hb. destruct (decide (bucket_of a x = bucket)) as [E|Hne]; [|by rewrite app_nil_r].
    rewrite !decide_False; [done|lia|lia].
Qed.

Lemma grouped_ext a a' deps m :
  (forall x, bucket_of a x = bucket_of a' x) -> grouped a deps m -> grouped a' deps m.
Proof.
  intros Hb Hm b. assert (group_in a' deps b = group_in a deps b) as ->; [|apply Hm].
  apply list_filter_iff. intros x. by rewrite Hb.
Qed.

Lemma split_deps_run deps s :
  known s deps ->
  exists m, split_deps deps s = Ret (Val (m, filter (fun x => bucket_of s x < 0) deps)) s /\ grouped s deps m.
Proof.
  intros Hk. unfold split_deps.
  set (f := fun (acc : gmap Z (list string) * list string) x => if 0 <=? bucket_of s x
    then (<[bucket_of s x := default [] (acc.1 !! bucket_of s x) ++ [x]]> acc.1, acc.2)
    else (acc.1, acc.2 ++ [x])).
  rewrite (loop_reads _ f).
  - assert (Hf : exists m, foldl f (∅, []) deps = (m, filter (fun x => bucket_of s x < 0) deps) /\ grouped s deps m).
    { clear Hk. induction deps as [|x deps IH] using rev_ind.
      - exists ∅. split; [done|]. intros b. by rewrite lookup_empty, decide_False by (intros [_ ?]; done).
      - destruct IH as (m & E & Hm). rewrite foldl_snoc, E. unfold f. cbn [fst snd].
        rewrite filter_app, filter_cons, filter_nil. pose proof (grouped_snoc s deps x m Hm) as Hs.
        destruct (Z.leb_spec 0 (bucket_of s x)); eexists; (split; [|exact Hs]).
        + by rewrite decide_False, app_nil_r by lia.
        + by rewrite decide_True by lia. }
    destruct Hf as (m & -> & Hm). by exists m.
  - intros [m fr] x Hx. destruct (Hk x Hx) as [e He]. rewrite (at_event _ _ _ _ He). unfold f. cbn.
    rewrite (bucket_of_event _ _ _ He). by destruct (0 <=? ev_bucket e).
Qed.

Lemma abs_bucket s id : bucket_of (abs s) id = bucket_of s id.
Proof. unfold bucket_of. rewrite abs_lookup. by destruct (events_ s !! id). Qed.

Lemma bucket_keys_spec (m : gmap Z (list string)) :
  let keys := merge_sort Z.le (map_to_list m).*1 in
  NoDup keys /\ (forall b, b ∈ keys <-> is_Some (m !! b)) /\ length keys = size m.
Proof.
  cbn zeta. split_and!.
  - rewrite merge_sort_Permutation. apply NoDup_fst_map_to_list.
  - intros b. rewrite merge_sort_Permutation, list_elem_of_fmap. split.
    + intros ([k v] & -> & Hin). apply elem_of_map_to_list in Hin. by exists v.
    + intros [v Hv]. exists (b, v). split; [done|]. by apply elem_of_map_to_list.
  - rewrite merge_sort_Permutation, length_fmap. apply length_map_to_list.
Qed.

(** The groups, with the bucket each comes from. *)
Lemma groups_spec a deps m :
  grouped a deps m ->
  exists bs, groups m = map (group_in a deps) bs /\ NoDup bs /\
    (forall b, b ∈ bs <-> 0 <= b /\ group_in a deps b <> []) /\ length bs = size m.
Proof.
  intros Hm. destruct (bucket_keys_spec m) as (Hn & Hk & Hl). eexists. split_and!; [|exact Hn| |exact Hl].
  - apply map_ext_in. intros b Hb%list_elem_of_In. apply Hk in Hb. rewrite (Hm b) in Hb |- *.
    destruct (decide _); [done|]. by destruct Hb.
  - intros b. rewrite Hk, (Hm b). destruct (decide _) as [?|Hne]; [|split; [by intros []|done]].
    split; [done|]. by eexists.
Qed.

Lemma fit_spec a deps m :
  grouped a deps m -> deps <> [] ->
  depsFitOneAwaitBucket m (filter (fun x => bucket_of a x < 0) deps) = true <->
  (forall x, x ∈ deps -> bucket_of a x < 0) \/ fits a deps.
Proof.
  intros Hm Hne. destruct (groups_spec a deps m Hm) as (bs & _ & Hn & Hb & Hl).
  assert (Hkey : forall x, x ∈ deps -> 0 <= bucket_of a x -> bucket_of a x ∈ bs).
  { intros x Hx Hp. apply Hb. split; [done|]. intros E. apply (not_elem_of_nil x). rewrite <-E.
    apply list_elem_of_filter. done. }
  unfold depsFitOneAwaitBucket. rewrite orb_true_iff, andb_true_iff, !bool_decide_eq_true, <-Hl. split.
  - intros [H0|[H1 Hf]].
    + left. intros x Hx. destruct (decide (0 <= bucket_of a x)) as [Hp|]; [|lia].
      destruct bs; [|done]. by apply Hkey, not_elem_of_nil in Hx.
    + right. destruct bs as [|b [|]]; try done. exists b. split; [by apply Hb; left|]. intros x Hx.
      destruct (decide (0 <= bucket_of a x)) as [Hp|Hp].
      * by apply Hkey, list_elem_of_singleton in Hx.
      * exfalso. apply (not_elem_of_nil x). rewrite <-Hf. apply list_elem_of_filter. split; [lia|done].
  - intros [Hall|(b & Hb0 & Hd)].
    + left. destruct bs as [|b bs]; [done|]. destruct (proj1 (Hb b) ltac:(by left)) as [Hb0 Hg].
      destruct (group_in a deps b) as [|x l] eqn:E; [done|].
      assert (x ∈ group_in a deps b) as [Hx Hin]%list_elem_of_filter by (rewrite E; by left).
      specialize (Hall x Hin). lia.
    + right. split.
      * assert (Hone : forall b', b' ∈ bs -> b' = b).
        { intros b' [Hb' Hg]%Hb. destruct (group_in a deps b') as [|x l] eqn:E; [done|].
          assert (x ∈ group_in a deps b') as [Hx Hin]%list_elem_of_filter by (rewrite E; by left).
          by rewrite <-Hx, (Hd x Hin). }
        destruct deps as [|x deps]; [done|].
        assert (b ∈ bs) as Hin by (rewrite <-(Hd x) by (by left); apply Hkey; [by left|rewrite (Hd x); [done|by left]]).
        destruct bs as [|b1 [|b2 bs]]; [by apply not_elem_of_nil in Hin|done|].
        apply NoDup_cons in Hn as [Hn _]. destruct Hn. rewrite (Hone b1), (Hone b2); set_solver.
      * destruct (filter _ deps) as [|x l] eqn:E; [done|].
        assert (x ∈ filter (fun x => bucket_of a x < 0) deps) as [Hx Hin]%list_elem_of_filter by (rewrite E; by left).
        rewrite (Hd x Hin) in Hx. lia.
Qed.

(** The dependencies of an event are in order: all in one bucket, or none has
    a bit and its collectors gather from different buckets. *)
Definition join_ok a (deps : list string) : Prop :=
  fits a deps \/ (forall x, x ∈ deps -> bucket_of a x < 0) /\ apart a deps.

Lemma join_mono a a' deps :
  (forall x, bucket_of a' x = bucket_of a x) ->
  (forall x e, x ∈ deps -> events_ a' !! x = Some e -> ev_isPseudo e = true -> events_ a !! x = Some e) ->
  join_ok a deps -> join_ok a' deps.
Proof.
  intros Hb He [Hf|[Hu Hap]]; [left; eapply fits_mono; [|exact Hf]; auto|right].
  split; [intros x Hx; rewrite Hb; auto|].
  intros u1 e1 u2 e2 x1 x2 H1 H2 Hne E1 P1 B1 E2 P2 B2 X1 X2. rewrite !Hb.
  by apply (Hap u1 e1 u2 e2 x1 x2); auto.
Qed.

(** How the state [a] of [createPseudoEvents] relates to the one it began in. *)
Record Grown d (orig : gmap string (string * list string)) a0 (byDeps : gmap (list string) string) (view : list string) a : Prop := {
  gr_wf : Wf a;
  gr_meaning : Meaning orig a;
  gr_frame : Frame d a0 a;
  gr_by : byDeps_ok d a byDeps;
  gr_view : view_ok d a view;
  gr_bucket id : bucket_of a id = bucket_of a0 id;
  gr_keep id e : events_ a0 !! id = Some e -> exists e', events_ a !! id = Some e' /\
    e' = with_depends (ev_depends e') e /\ (synthetic e = true -> e' = e);
  gr_new id e : events_ a !! id = Some e ->
    is_Some (events_ a0 !! id) \/ collector d e /\ ev_bucket e < 0
}.

Lemma placed_range a id : Wf a -> 0 <= bucket_of a id -> bucket_of a id < allocatedBucketCount_ a.
Proof.
  intros HW Hb. destruct (placed_event _ _ Hb) as (e & He & Hb2). rewrite (bucket_of_event _ _ _ He).
  destruct (wf_place _ HW _ _ He) as [[? _]|(dm & b & Hd & Hin & Eb & _)]; [lia|].
  destruct (wf_buckets _ HW _ _ Hd) as [_ Hf]. rewrite Forall_forall in Hf. destruct (Hf _ Hin). lia.
Qed.

Lemma bucket_list_short a bs :
  Wf a -> NoDup bs -> (forall b, b ∈ bs -> 0 <= b < allocatedBucketCount_ a) -> (length bs <= 32)%nat.
Proof.
  intros HW Hn Hb. destruct (wf_limits _ HW) as (_ & ? & Hmax). unfold RP1_MAX_BUCKETS in Hmax.
  assert (bs ⊆+ seqZ 0 32) as Hs.
  { apply NoDup_submseteq; [done|]. intros b Hin. apply elem_of_seqZ. specialize (Hb b Hin). lia. }
  apply submseteq_length in Hs. by rewrite length_seqZ in Hs.
Qed.

(** [add_synthetic] of a collector whose number is new. *)
Lemma collector_run d deps s :
  Wf (abs s) -> nextCollector_ s + 1 < 2 ^ 32 -> let n := nextCollector_ s in
  exists s', add_synthetic Collector (collector_id n) d deps (set_nextCollector (add32 n 1) s) =
    Ret (Val tt) s' /\ abs s' = collected d deps (abs s).
Proof.
  intros HW Hn n. pose proof (wf_next _ HW) as H0. cbn in H0.
  assert (Hf : events_ s !! collector_id n = None).
  { pose proof (wf_fresh _ HW n ltac:(done)) as Hf. rewrite abs_lookup in Hf. by apply fmap_None in Hf. }
  eexists. split; [reflexivity|]. unfold abs, collected, set_synthetic, set_events, set_nextCollector, emplace.
  cbn. rewrite Hf. f_equal.
  - rewrite fmap_insert. done.
  - unfold add32. apply u32_small. unfold is_u32. lia.
Qed.

(** A collector that gathers the group [g]. *)
Definition gathers d a (g : list string) (p : string) : Prop :=
  exists ep, events_ a !! p = Some ep /\ collector d ep /\ ev_bucket ep < 0 /\ ev_depends ep = g.

Lemma grown_collected d orig a0 byDeps view a deps :
  Grown d orig a0 byDeps view a -> byDeps !! deps = None ->
  is_Some (domains_ a !! d) -> canon deps -> deps <> [] -> fits a deps ->
  (forall x, x ∈ deps -> exists e, events_ a !! x = Some e /\ ev_domain e = d) ->
  let pid := collector_id (nextCollector_ a) in
  Grown d orig a0 (<[deps := pid]> byDeps) (view ++ [pid]) (collected d deps a).
Proof.
  intros [HW HM HF HB HV Hbk Hkeep Hnew] Hno Hd Hc Hne Hf Hl pid.
  assert (Hold : forall id e, events_ a !! id = Some e -> events_ (collected d deps a) !! id = Some e).
  { intros id e He. apply collected_lookup; [done|]. by right. }
  split.
  - by apply collected_wf.
  - by apply collected_meaning.
  - etransitivity; [exact HF|by apply collected_frame].
  - intros D p. rewrite lookup_insert_Some. setoid_rewrite (collected_lookup d deps a HW). rewrite (HB D p). split.
    + intros [[<- <-]|[_ (e & He & ?)]]; [|eauto]. eexists. split; [by left|]. done.
    + intros (e & [[-> ->]|He] & Hcol & Ed); [by left|right]. split; [|eauto]. intros <-.
      assert (byDeps !! deps = Some p); [|congruence]. apply HB. eauto.
  - destruct HV as [Hn Hk Hall]. split.
    + apply NoDup_app. split_and!; [done| |apply NoDup_singleton]. intros x Hx ->%list_elem_of_singleton.
      destruct (Hk _ Hx) as [e He]. pose proof (pid_fresh a HW) as Hp. fold pid in Hp. congruence.
    + intros x [Hx| ->%list_elem_of_singleton]%elem_of_app.
      * destruct (Hk x Hx) as [e He]. eexists. by apply Hold.
      * eexists. apply collected_lookup; [done|]. by left.
    + intros x e [[-> ->]|He]%(collected_lookup d deps a HW) Hx; apply elem_of_app; [right; by left|left; eauto].
  - intros id. by rewrite collected_bucket.
  - intros id e He. destruct (Hkeep id e He) as (e' & He' & ?). eauto.
  - intros id e [[-> ->]|He]%(collected_lookup d deps a HW); [by right|eauto].
Qed.

Section gathering.
Context (d : string) (orig : gmap string (string * list string)) (a0 : BarrierLowerer).
Context (HW0 : Wf a0) (HR0 : Ready d a0).
Abbreviation Grown := (Grown d orig a0).

(** The event being rewritten: it waits on several buckets. *)
Context (id : string) (e : BarrierEvent) (He0 : events_ a0 !! id = Some e).
Context (Hd : ev_domain e = d) (Hreal : synthetic e = false) (Hsplit : ~ fits a0 (ev_depends e)).
Abbreviation group := (group_in a0 (ev_depends e)).

Lemma group_gatherable byDeps view a b :
  Grown byDeps view a -> 0 <= b -> group b <> [] ->
  is_Some (domains_ a !! d) /\ canon (group b) /\ fits a (group b) /\
  (forall x, x ∈ group b -> exists ex, events_ a !! x = Some ex /\ ev_domain ex = d).
Proof using HW0 He0 Hd Hreal.
  intros HG Hb Hne. split_and!.
  - destruct (gr_keep _ _ _ _ _ _ HG _ _ He0) as (e' & He' & E & _).
    pose proof (wf_dom _ (gr_wf _ _ _ _ _ _ HG) _ _ He') as Hdom. rewrite E in Hdom. cbn in Hdom. by rewrite Hd in Hdom.
  - apply canon_filter. by eapply wf_canon.
  - exists b. split; [done|]. intros x [Hx _]%list_elem_of_filter. by rewrite (gr_bucket _ _ _ _ _ _ HG).
  - intros x [_ Hx]%list_elem_of_filter. destruct (wf_dep _ HW0 _ _ _ He0 Hx) as [ex Hex].
    destruct (gr_keep _ _ _ _ _ _ HG _ _ Hex) as (ex' & Hex' & E & _). exists ex'. split; [done|].
    rewrite E. cbn. rewrite <-Hd. eapply (wf_local _ HW0 id e x ex He0); [|done|done].
    by apply orb_false_iff in Hreal as [_ ?].
Qed.

(** A collector for one of the groups was made in this round. *)
Lemma group_collector_new byDeps view a b p :
  Grown byDeps view a -> 0 <= b -> byDeps !! group b = Some p -> gathers d a (group b) p.
Proof using HR0 He0 Hd Hreal Hsplit.
  intros HG Hb (ep & Hep & Hc & Ed)%(gr_by _ _ _ _ _ _ HG). exists ep. split_and!; [done|done| |done].
  destruct (gr_new _ _ _ _ _ _ HG _ _ Hep) as [[e0 Hold]|[_ ?]]; [|done]. exfalso.
  destruct (gr_keep _ _ _ _ _ _ HG _ _ Hold) as (e' & He' & E & Hsame).
  assert (ep = e') as -> by congruence.
  assert (Hc0 : collector d e0) by (rewrite E in Hc; exact Hc).
  assert (Hs0 : synthetic e0 = true) by (unfold synthetic; by rewrite (proj2 Hc0)).
  rewrite (Hsame Hs0) in Ed. apply orb_false_iff in Hreal as [Hp _].
  by apply (rdy_join _ _ HR0 id e p e0 b He0 Hd Hp Hsplit Hold Hc0 Hb).
Qed.

Lemma gather_groups {ub nf : Prop} byDeps view s bs X :
  Grown byDeps view (abs s) -> (forall b, b ∈ bs -> 0 <= b /\ group b <> []) ->
  nextCollector_ s + Z.of_nat (length bs) < 2 ^ 32 ->
  ewp ub nf (loop (collector_for d) ([], (byDeps, view)) (map group bs)) s
    (fun r s' => Grown r.2.1 r.2.2 (abs s') /\
       (forall x ex, events_ (abs s) !! x = Some ex -> events_ (abs s') !! x = Some ex) /\
       Forall2 (gathers d (abs s')) (map group bs) r.1 /\
       nextCollector_ s' <= nextCollector_ s + Z.of_nat (length bs)) X.
Proof using All.
  intros HG Hbs Hnext. eapply ewp_mono; [apply (ewp_loop (fun old r s' => Grown r.2.1 r.2.2 (abs s') /\
    (forall x ex, events_ (abs s) !! x = Some ex -> events_ (abs s') !! x = Some ex) /\
    Forall2 (gathers d (abs s')) old r.1 /\
    nextCollector_ s' <= nextCollector_ s + Z.of_nat (length old)))| |done].
  - split_and!; [done|done|constructor|cbn; lia].
  - intros old g new [rw [by2 view2]] s' El (HG' & Hext & Hall & Hn). cbn in HG', Hall.
    assert (Hg : exists b, b ∈ bs /\ g = group b).
    { assert (g ∈ map group bs) as Hg by (rewrite El; apply elem_of_app; right; by left).
      apply list_elem_of_fmap in Hg as (b & -> & Hb). eauto. }
    destruct Hg as (b & Hb & ->). destruct (Hbs b Hb) as [Hb0 Hne].
    destruct (group_gatherable _ _ _ b HG' Hb0 Hne) as (Hdom & Hcan & Hfit & Hloc).
    assert (Hlen : (S (length old) <= length bs)%nat).
    { apply (f_equal length) in El. rewrite length_map, length_app in El. cbn in El. lia. }
    unfold collector_for. rewrite (dedup_id _ Hcan). destruct (by2 !! group b) as [p|] eqn:Ep.
    + apply ewp_ret. cbn. split_and!; [done|done| |rewrite length_app; lia].
      apply Forall2_app; [done|]. repeat constructor. by eapply group_collector_new.
    + apply ewp_bind, ewp_asks.
      destruct (collector_run d (group b) s' (gr_wf _ _ _ _ _ _ HG')) as (s2 & Er & Ea); [lia|].
      apply ewp_bind, ewp_updates. apply ewp_bind. eapply ewp_exact; [exact Er|]. apply ewp_ret. cbn [fst snd].
      pose proof (grown_collected _ _ _ _ _ _ (group b) HG' Ep Hdom Hcan Hne Hfit Hloc) as HG2.
      cbn zeta in HG2. change (nextCollector_ (abs s')) with (nextCollector_ s') in HG2. rewrite <-Ea in HG2.
      assert (Hold : forall x ex, events_ (abs s') !! x = Some ex -> events_ (abs s2) !! x = Some ex).
      { intros x ex Hx. rewrite Ea. apply collected_lookup; [apply HG'|]. by right. }
      split_and!; [done|auto| |].
      * apply Forall2_app.
        -- eapply Forall2_impl; [exact Hall|]. intros g p (ep & Hep & ?). exists ep. auto.
        -- repeat constructor. eexists. split; [rewrite Ea; apply collected_lookup; [apply HG'|]; by left|]. done.
      * apply (f_equal nextCollector_) in Ea. cbn in Ea. rewrite Ea, length_app. cbn. lia.
  - intros r s' (HG' & Hext & Hall & Hn). rewrite length_map in Hn. done.
Qed.
End gathering.

(** The loop of [createPseudoEvents] after the events [old]. *)
Record Gathering d (orig : gmap string (string * list string)) a0 (old : list string)
    (acc : gmap (list string) string * list string) a : Prop := {
  gg_grown : Grown d orig a0 acc.1 acc.2 a;
  gg_todo id e : id ∉ old -> events_ a0 !! id = Some e -> events_ a !! id = Some e;
  gg_join id e : id ∈ old -> events_ a !! id = Some e -> ev_domain e = d -> ev_isPseudo e = false ->
    join_ok a (ev_depends e)
}.

Section create.
Context (d : string) (orig : gmap string (string * list string)) (a0 : BarrierLowerer).
Context (HW0 : Wf a0) (HR0 : Ready d a0).

(** No dependency of an event as it was is a collector without a bit. *)
Lemma no_loose_collector id e u eu a byDeps view :
  Grown d orig a0 byDeps view a -> events_ a0 !! id = Some e -> ev_domain e = d -> ev_isTransition e = false ->
  u ∈ ev_depends e -> events_ a !! u = Some eu -> ev_isPseudo eu = true -> 0 <= ev_bucket eu.
Proof using HW0 HR0.
  intros HG He Hd Ht Hu Heu Hp. destruct (wf_dep _ HW0 _ _ _ He Hu) as [e0 He0].
  destruct (gr_keep _ _ _ _ _ _ HG _ _ He0) as (e' & He' & E & _).
  assert (e' = eu) as -> by congruence. rewrite E in Hp |- *. cbn in *.
  apply (rdy_placed _ _ HR0 _ _ He0). split; [|done]. rewrite <-Hd. by eapply (wf_local _ HW0 id e).
Qed.

Lemma apart_old id e a byDeps view :
  Grown d orig a0 byDeps view a -> events_ a0 !! id = Some e -> ev_domain e = d -> ev_isTransition e = false ->
  apart a (ev_depends e).
Proof using HW0 HR0.
  intros HG He Hd Ht u1 e1 u2 e2 x1 x2 H1 H2 _ E1 P1 B1. exfalso.
  pose proof (no_loose_collector _ _ _ _ _ _ _ HG He Hd Ht H1 E1 P1). lia.
Qed.

Lemma join_short a deps : (length deps <= 1)%nat -> join_ok a deps.
Proof.
  intros Hl. destruct deps as [|x [|]]; [|destruct (decide (0 <= bucket_of a x)) as [Hb|Hb]|cbn in Hl; lia].
  - left. exists 0. split; [done|]. by intros x ?%not_elem_of_nil.
  - left. exists (bucket_of a x). split; [done|]. by intros y ->%list_elem_of_singleton.
  - right. split; [intros y ->%list_elem_of_singleton; lia|].
    intros u1 e1 u2 e2 x1 x2 ->%list_elem_of_singleton ->%list_elem_of_singleton. done.
Qed.

(** An event that stays as it is. *)
Lemma gathering_skip old acc a id e :
  Gathering d orig a0 old acc a -> id ∉ old -> events_ a0 !! id = Some e ->
  (ev_domain e = d -> ev_isPseudo e = false -> join_ok a (ev_depends e)) ->
  Gathering d orig a0 (old ++ [id]) acc a.
Proof.
  intros [HG Htodo Hjoin] Hid He Hj. split; [done| |].
  - intros x ex Hx. apply Htodo. intros Hin. apply Hx, elem_of_app. by left.
  - intros x ex [Hx| ->%list_elem_of_singleton]%elem_of_app Hex; [by eapply Hjoin|].
    rewrite (Htodo id e Hid He) in Hex. by simplify_eq.
Qed.

(** ** The new dependencies of an event *)

Section rewire.
Context (byDeps : gmap (list string) string) (view : list string) (a : BarrierLowerer).
Context (HG : Grown d orig a0 byDeps view a).
Context (id : string) (e : BarrierEvent) (He0 : events_ a0 !! id = Some e) (He : events_ a !! id = Some e).
Context (Hd : ev_domain e = d) (Hreal : synthetic e = false).
Context (bs : list Z) (Hnd : NoDup bs).
Context (Hbs : forall b, b ∈ bs <-> 0 <= b /\ group_in a0 (ev_depends e) b <> []).
Context (rw : list string) (Hrw : Forall2 (gathers d a) (map (group_in a0 (ev_depends e)) bs) rw).
Abbreviation free := (filter (fun x => bucket_of a0 x < 0) (ev_depends e)).
Abbreviation l := (dedupSorted (rw ++ free)).

Lemma rewire_elem x :
  x ∈ l <-> (exists b, b ∈ bs /\ gathers d a (group_in a0 (ev_depends e) b) x) \/
            (x ∈ ev_depends e /\ bucket_of a x < 0).
Proof using HG Hrw.
  rewrite dedup_elem, elem_of_app, list_elem_of_filter, (gr_bucket _ _ _ _ _ _ HG).
  enough (x ∈ rw <-> exists b, b ∈ bs /\ gathers d a (group_in a0 (ev_depends e) b) x) by tauto. split.
  - intros [i Hi]%list_elem_of_lookup. destruct (Forall2_lookup_r _ _ _ _ _ Hrw Hi) as (g & Hg & Hx).
    rewrite list_lookup_fmap in Hg. apply fmap_Some in Hg as (b & Hb & ->). exists b. split; [|done].
    by eapply list_elem_of_lookup_2.
  - intros (b & [i Hi]%list_elem_of_lookup & Hx).
    destruct (Forall2_lookup_l _ _ _ i (group_in a0 (ev_depends e) b) Hrw) as (p & Hp & Hg).
    { by rewrite list_lookup_fmap, Hi. }
    destruct Hx as (e1 & E1 & C1 & _ & D1), Hg as (e2 & E2 & C2 & _ & D2).
    assert (x = p) as ->; [|by eapply list_elem_of_lookup_2].
    apply (byDeps_distinct _ _ _ (gr_by _ _ _ _ _ _ HG) _ _ _ _ E1 C1 E2 C2). congruence.
Qed.

Lemma real_flags : ev_isPseudo e = false /\ ev_isTransition e = false.
Proof using Hreal. by apply orb_false_iff in Hreal. Qed.

Lemma rewire_local x : x ∈ l -> exists ex, events_ a !! x = Some ex /\ ev_domain ex = ev_domain e.
Proof using HG He Hd Hreal Hrw.
  rewrite rewire_elem. intros [(b & _ & ep & Hep & [Hdp _] & _)|[Hx _]]; [exists ep; split; [done|congruence]|].
  destruct (wf_dep _ (gr_wf _ _ _ _ _ _ HG) _ _ _ He Hx) as [ex Hex]. exists ex. split; [done|].
  eapply (wf_local _ (gr_wf _ _ _ _ _ _ HG) id e); [done|apply real_flags|done|done].
Qed.

(** The new dependencies stand for the same events. *)
Lemma rewire_reads x :
  (exists y, y ∈ ev_depends e /\ reads a y x) <-> exists y, y ∈ l /\ reads a y x.
Proof using HG Hbs Hrw.
  setoid_rewrite rewire_elem. split.
  - intros (y & Hy & Hr). destruct (decide (bucket_of a y < 0)) as [Hb|Hb]; [by exists y; split; [right|]|].
    set (b := bucket_of a0 y). assert (Hyg : y ∈ group_in a0 (ev_depends e) b) by (by apply list_elem_of_filter).
    assert (Hb2 : b ∈ bs).
    { apply Hbs. split; [unfold b; rewrite <-(gr_bucket _ _ _ _ _ _ HG); lia|]. intros E. rewrite E in Hyg.
      by apply not_elem_of_nil in Hyg. }
    apply list_elem_of_lookup in Hb2 as [i Hi].
    destruct (Forall2_lookup_l _ _ _ i (group_in a0 (ev_depends e) b) Hrw) as (p & Hp & Hg).
    { by rewrite list_lookup_fmap, Hi. }
    exists p. split; [left; exists b; split; [by eapply list_elem_of_lookup_2|done]|].
    destruct Hg as (ep & Hep & [_ Hpp] & _ & Ed). eapply (reads_via _ p ep y); [done| |by rewrite Ed|done].
    unfold synthetic. by rewrite Hpp.
  - intros (y & [(b & _ & ep & Hep & [_ Hpp] & _ & Ed)|[Hy _]] & Hr); [|by exists y].
    rewrite (reads_synthetic a y ep) in Hr by (done || unfold synthetic; by rewrite Hpp).
    destruct Hr as (z & Hz & Hr). exists z. split; [|done]. rewrite Ed in Hz.
    by apply list_elem_of_filter in Hz as [_ ?].
Qed.

Lemma grown_rewired : Grown d orig a0 byDeps view (rewired id l a).
Proof using HG He0 He Hd Hreal Hbs Hrw.
  pose proof HG as [HW HM HF HB HV Hbk Hkeep Hnew]. pose proof real_flags as [Hp Ht].
  assert (Hcol : forall p ep, ev_isPseudo ep = true ->
    events_ (rewired id l a) !! p = Some ep <-> events_ a !! p = Some ep).
  { intros p ep Hpp. rewrite (rewired_lookup id l a e He). split.
    - intros [[-> ->]|[_ ?]]; [cbn in Hpp; congruence|done].
    - intros Hep. right. split; [|done]. intros ->. congruence. }
  split.
  - apply (rewired_wf id l a HW e He Hreal); [apply dedup_canon|apply rewire_local].
  - apply (rewired_meaning id l a e He Hreal); [apply rewire_reads|done].
  - etransitivity; [exact HF|]. by apply (rewired_frame id l a e He).
  - intros D p. rewrite (HB D p). split; intros (ep & Hep & [? Hpp] & ?); exists ep; by rewrite Hcol in *.
  - destruct HV as [Hn Hk Hall]. split; [done| |].
    + intros x Hx. destruct (Hk x Hx) as [ex Hex].
      destruct (rewired_old id l a e He _ _ Hex) as (? & ? & _). by eexists.
    + intros x ex [[-> ->]|[_ Hx]]%(rewired_lookup id l a e He) Hdx; by eapply Hall.
  - intros x. by rewrite (rewired_bucket id l a e He).
  - intros x ex Hx. destruct (decide (x = id)) as [->|Hne].
    + assert (ex = e) as -> by congruence. exists (with_depends l e).
      split; [apply (rewired_lookup id l a e He); by left|]. split; [done|]. congruence.
    + destruct (Hkeep x ex Hx) as (ex' & Hex' & ?). exists ex'. split; [|done].
      apply (rewired_lookup id l a e He). by right.
  - intros x ex [[-> ->]|[_ Hx]]%(rewired_lookup id l a e He); [left; by eexists|eauto].
Qed.

(** None of them has a bit, and the collectors gather from different buckets. *)
Lemma rewire_join : join_ok (rewired id l a) l.
Proof using All.
  pose proof real_flags as [Hp Ht]. right.
  assert (Hb : forall x, bucket_of (rewired id l a) x = bucket_of a x) by apply (rewired_bucket id l a e He).
  split.
  - intros x Hx. rewrite Hb. apply rewire_elem in Hx as [(b & _ & ep & Hep & _ & ? & _)|[_ ?]]; [|done].
    by rewrite (bucket_of_event _ _ _ Hep).
  - assert (Hfrom : forall u eu, u ∈ l -> events_ (rewired id l a) !! u = Some eu -> ev_isPseudo eu = true ->
      ev_bucket eu < 0 -> exists b, events_ a !! u = Some eu /\ collector d eu /\
        ev_depends eu = group_in a0 (ev_depends e) b).
    { intros u eu Hu Heu Hpu Hbu. apply (rewired_lookup id l a e He) in Heu as [[-> ->]|[_ Heu]]; [cbn in Hpu; congruence|].
      apply rewire_elem in Hu as [(b & Hbb & ep & Hep & ? & _ & Ed)|[Hu _]].
      - assert (ep = eu) as -> by congruence. eauto.
      - pose proof (no_loose_collector _ _ _ _ _ _ _ HG He0 Hd Ht Hu Heu Hpu). lia. }
    intros u1 e1 u2 e2 x1 x2 U1 U2 Hne E1 P1 B1 E2 P2 B2 X1 X2.
    destruct (Hfrom u1 e1 U1 E1 P1 B1) as (b1 & F1 & C1 & D1), (Hfrom u2 e2 U2 E2 P2 B2) as (b2 & F2 & C2 & D2).
    rewrite !Hb, !(gr_bucket _ _ _ _ _ _ HG). rewrite D1 in X1. rewrite D2 in X2.
    apply list_elem_of_filter in X1 as [-> _], X2 as [-> _]. intros ->. apply Hne.
    apply (byDeps_distinct _ _ _ (gr_by _ _ _ _ _ _ HG) _ _ _ _ F1 C1 F2 C2). congruence.
Qed.
End rewire.

Lemma gathering_rewired old acc1 a1 acc2 a2 id e bs rw :
  Gathering d orig a0 old acc1 a1 -> known a0 old -> id ∉ old -> events_ a0 !! id = Some e ->
  ev_domain e = d -> synthetic e = false ->
  Grown d orig a0 acc2.1 acc2.2 a2 ->
  (forall x ex, events_ a1 !! x = Some ex -> events_ a2 !! x = Some ex) ->
  NoDup bs -> (forall b, b ∈ bs <-> 0 <= b /\ group_in a0 (ev_depends e) b <> []) ->
  Forall2 (gathers d a2) (map (group_in a0 (ev_depends e)) bs) rw ->
  let l := dedupSorted (rw ++ filter (fun x => bucket_of a0 x < 0) (ev_depends e)) in
  Gathering d orig a0 (old ++ [id]) acc2 (rewired id l a2).
Proof using HW0 HR0.
  intros [HG1 Htodo Hjoin] Hk Hid He0 Hd Hreal HG2 Hext Hnd Hbs Hrw l.
  pose proof (Hext _ _ (Htodo _ _ Hid He0)) as He.
  split; [by eapply grown_rewired| |].
  - intros x ex Hx Hex. rewrite elem_of_app, list_elem_of_singleton in Hx.
    apply (rewired_lookup id l a2 e He). right. split; [tauto|]. apply Hext, Htodo; tauto.
  - intros x ex Hx [[-> ->]|[Hne Hex2]]%(rewired_lookup id l a2 e He) Hdx Hpx; [by eapply rewire_join|].
    apply elem_of_app in Hx as [Hx|?%list_elem_of_singleton]; [|done].
    destruct (Hk x Hx) as [e0 Hx0]. destruct (gr_keep _ _ _ _ _ _ HG1 _ _ Hx0) as (ex1 & Hex1 & _).
    assert (ex = ex1) as -> by (apply Hext in Hex1; congruence).
    eapply join_mono; [| |by eapply Hjoin].
    + intros y. by rewrite (rewired_bucket id l a2 e He), (gr_bucket _ _ _ _ _ _ HG2), (gr_bucket _ _ _ _ _ _ HG1).
    + intros y ey Hy [[-> ->]|[_ Hey]]%(rewired_lookup id l a2 e He) Hpy.
      { apply orb_false_iff in Hreal as [Hp _]. cbn in Hpy. congruence. }
      destruct (wf_dep _ (gr_wf _ _ _ _ _ _ HG1) _ _ _ Hex1 Hy) as [ey1 Hey1].
      pose proof (Hext _ _ Hey1). congruence.
Qed.

(** An event of the domain with several dependencies. *)
Lemma gather_many {ub nf : Prop} old acc s id e X :
  Gathering d orig a0 old acc (abs s) -> known a0 old -> id ∉ old -> events_ a0 !! id = Some e ->
  ev_domain e = d -> ev_isPseudo e = false -> (1 < length (ev_depends e))%nat ->
  nextCollector_ s + 32 < 2 ^ 32 ->
  ewp ub nf (d' ← split_deps (ev_depends e);
    if depsFitOneAwaitBucket d'.1 d'.2 then mret acc
    else
      r ← loop (collector_for d) ([], acc) (groups d'.1);
      alter_event (with_depends (dedupSorted (r.1 ++ d'.2))) id;;
      mret r.2) s
    (fun acc' s' => Gathering d orig a0 (old ++ [id]) acc' (abs s') /\ nextCollector_ s' <= nextCollector_ s + 32) X.
Proof using HW0 HR0.
  intros HGa Hk Hid He0 Hd Hp Hlen Hn. pose proof (gg_todo _ _ _ _ _ _ HGa _ _ Hid He0) as Hea.
  pose proof (gg_grown _ _ _ _ _ _ HGa) as HG. pose proof (gr_wf _ _ _ _ _ _ HG) as HW.
  assert (Ht : ev_isTransition e = false).
  { destruct (ev_isTransition e) eqn:Ht; [|done].
    destruct (wf_trans _ HW0 _ _ He0 Ht) as (_ & x & ? & Ex & _). rewrite Ex in Hlen. cbn in Hlen. lia. }
  assert (Hreal : synthetic e = false) by (unfold synthetic; by rewrite Hp, Ht).
  assert (Hne : ev_depends e <> []) by (intros E; rewrite E in Hlen; cbn in Hlen; lia).
  assert (Hb0 : forall x, bucket_of s x = bucket_of a0 x).
  { intros x. by rewrite <-abs_bucket, (gr_bucket _ _ _ _ _ _ HG). }
  destruct (split_deps_run (ev_depends e) s) as (m & Er & Hm).
  { apply abs_known. intros x Hx. by eapply (wf_dep _ HW). }
  apply ewp_bind. eapply ewp_exact; [exact Er|]. cbn [fst snd].
  assert (Hm0 : grouped a0 (ev_depends e) m).
  { by eapply grouped_ext. }
  rewrite (list_filter_iff _ (fun x => bucket_of a0 x < 0)) by (intros; by rewrite Hb0).
  destruct (depsFitOneAwaitBucket m _) eqn:Efit.
  { apply ewp_ret. split; [|lia]. eapply (gathering_skip _ _ _ id e); [done|done|done|]. intros _ _.
    apply (fit_spec a0 _ _ Hm0 Hne) in Efit as [Hall|Hf].
    - right. split; [|by eapply apart_old]. intros x Hx. rewrite (gr_bucket _ _ _ _ _ _ HG). auto.
    - left. eapply fits_mono; [|exact Hf]. intros x _. apply (gr_bucket _ _ _ _ _ _ HG). }
  assert (Hsplit : ~ fits a0 (ev_depends e)).
  { intros Hf. assert (true = false); [|done]. rewrite <-Efit. symmetry. apply fit_spec; [done|done|]. by right. }
  destruct (groups_spec a0 _ m Hm0) as (bs & -> & Hnd & Hbs & _).
  assert (Hshort : (length bs <= 32)%nat).
  { apply (bucket_list_short a0); [done|done|]. intros b [Hb Hg]%Hbs. split; [done|].
    destruct (group_in a0 (ev_depends e) b) as [|x l] eqn:E; [done|].
    assert (x ∈ group_in a0 (ev_depends e) b) as [<- _]%list_elem_of_filter by (rewrite E; by left).
    by apply placed_range. }
  apply ewp_bind. destruct acc as [byDeps view]. eapply ewp_mono.
  { apply (gather_groups d orig a0 HW0 HR0 id e He0 Hd Hreal Hsplit byDeps view s bs); [exact HG| |lia].
    intros b Hb. by apply Hbs. }
  2: done.
  intros [rw acc2] s2 (HG2 & Hext & Hrw & Hn2). cbn in HG2, Hrw |- *. apply ewp_bind, ewp_updates, ewp_ret.
  split; [|cbn; lia].
  rewrite abs_rewired. by eapply (gathering_rewired old (byDeps, view) (abs s) acc2 (abs s2) id e bs rw).
Qed.

Lemma gather_event_step {ub nf : Prop} old acc s id X :
  Gathering d orig a0 old acc (abs s) -> known a0 old -> id ∉ old -> is_Some (events_ a0 !! id) ->
  nextCollector_ s + 32 < 2 ^ 32 ->
  ewp ub nf (gather_event d acc id) s (fun acc' s' => Gathering d orig a0 (old ++ [id]) acc' (abs s') /\
    nextCollector_ s' <= nextCollector_ s + (if test a0 (fun e => negb (ev_isPseudo e)) id then 32 else 0)) X.
Proof using HW0 HR0.
  intros HGa Hk Hid [e He0] Hn. pose proof (gg_todo _ _ _ _ _ _ HGa _ _ Hid He0) as Hea.
  apply abs_inv in Hea as (es & Hes & ->). unfold gather_event. apply ewp_bind.
  eapply ewp_exact; [by apply event_at_run|]. unfold test. rewrite He0. cbn.
  destruct (negb (bool_decide (ev_domain es = d)) || ev_isPseudo es || (length (ev_depends es) <=? 1)%nat) eqn:Eskip.
  { apply ewp_ret. split; [|destruct (ev_isPseudo es); cbn; lia].
    eapply (gathering_skip _ _ _ id (strip es)); [done|done|done|]. intros Hd Hp.
    apply join_short. cbn in *. rewrite Hd, Hp, bool_decide_eq_true_2 in Eskip by done. by apply Nat.leb_le in Eskip. }
  apply orb_false_iff in Eskip as [Eskip Hlen%Nat.leb_gt]. apply orb_false_iff in Eskip as [Hd%negb_false_iff Hp].
  apply bool_decide_eq_true in Hd. rewrite Hp. cbn.
  by apply (gather_many old acc s id (strip es)).
Qed.
End create.

(** ** Counting *)

Definition count_plain a : nat := size (filter (fun p => ev_isPseudo p.2 = false) (events_ a)).
Definition count_placed a : nat := size (filter (fun p => 0 <= ev_bucket p.2) (events_ a)).

Lemma nodup_count (P : string * BarrierEvent -> Prop) `{!forall p, Decision (P p)} (M : gmap string BarrierEvent) l :
  NoDup l -> (forall id, id ∈ l -> exists e, M !! id = Some e /\ P (id, e)) -> (length l <= size (filter P M))%nat.
Proof.
  intros Hn Hl. rewrite <-size_dom, <-(size_list_to_set (C := gset string) l) by done.
  apply subseteq_size. intros id Hid%elem_of_list_to_set. destruct (Hl id Hid) as (e & He & HP).
  apply elem_of_dom. exists e. by apply map_lookup_filter_Some.
Qed.

Lemma count_plain_frame d a a' : Frame d a a' -> count_plain a' = count_plain a.
Proof.
  intros HF. unfold count_plain. rewrite <-!size_dom. f_equal. apply set_eq. intros id.
  rewrite !elem_of_dom. unfold is_Some. setoid_rewrite map_lookup_filter_Some. apply (fr_plain _ _ _ HF).
Qed.

Lemma create_run {ub nf : Prop} d orig view s X :
  Wf (abs s) -> Meaning orig (abs s) -> Ready d (abs s) -> view_ok d (abs s) view ->
  nextCollector_ s + 32 * Z.of_nat (count_plain (abs s)) + 32 < 2 ^ 32 ->
  ewp ub nf (createPseudoEvents d view) s (fun view' s' =>
    Wf (abs s') /\ Meaning orig (abs s') /\ Frame d (abs s) (abs s') /\ Gathered d (abs s') /\
    view_ok d (abs s') view' /\ (forall id, bucket_of (abs s') id = bucket_of (abs s) id) /\
    nextCollector_ s' <= nextCollector_ s + 32 * Z.of_nat (count_plain (abs s))) X.
Proof.
  intros HW HM HR HV Hn. unfold createPseudoEvents. apply ewp_bind.
  eapply ewp_mono; [by eapply placed_collectors_run| |done]. intros byDeps s0 [-> Hby].
  set (a0 := abs s) in *. set (plain := fun id => test a0 (fun e => negb (ev_isPseudo e)) id = true).
  pose proof (vo_nodup _ _ _ HV) as Hnd. pose proof (vo_known _ _ _ HV) as Hk.
  assert (Hcount : forall l, sublist l view -> (length (filter plain l) <= count_plain a0)%nat).
  { intros l Hl. apply nodup_count; [apply NoDup_filter; by eapply sublist_NoDup|].
    intros id [Hp _]%list_elem_of_filter. unfold plain, test in Hp.
    destruct (events_ a0 !! id) as [e|]; [|done]. exists e. split; [done|]. by apply negb_true_iff in Hp. }
  apply ewp_bind. eapply ewp_mono; [apply (ewp_loop (fun old acc s' => Gathering d orig a0 old acc (abs s') /\
    nextCollector_ s' <= nextCollector_ s + 32 * Z.of_nat (length (filter plain old))))| |done].
  - split; [|cbn; lia]. split; [|done|by intros ???%not_elem_of_nil].
    split; [done|done|reflexivity|done|done|done| |].
    + intros id e He. exists e. split; [done|]. split; [by destruct e|done].
    + intros id e He. left. by eexists.
  - intros old id new acc s' El [HG Hb].
    assert (Hsub : sublist (old ++ [id]) view).
    { rewrite El, (cons_middle id old new), (assoc_L app). apply sublist_inserts_r. done. }
    pose proof (Hcount _ Hsub) as Hc. rewrite filter_app, length_app, filter_cons, filter_nil in Hc.
    eapply ewp_mono; [apply (gather_event_step d orig a0 HW HR old acc s' id); [done| | | |]| |done].
    + intros x Hx. apply Hk. rewrite El. apply elem_of_app. by left.
    + rewrite El in Hnd. apply NoDup_app in Hnd as (_ & Hnd & _). intros Hin. apply (Hnd id Hin). by left.
    + apply Hk. rewrite El. apply elem_of_app. right. by left.
    + lia.
    + intros acc2 s2 [HG2 Hb2]. split; [done|]. rewrite filter_app, length_app, filter_cons, filter_nil.
      destruct (decide (plain id)) as [Hpl|Hpl]; unfold plain in Hpl;
        [rewrite Hpl in Hb2|apply not_true_iff_false in Hpl; rewrite Hpl in Hb2]; cbn in *; lia.
  - intros [by2 view2] s2 [[HG _ Hj] Hb2]. apply ewp_ret. cbn in *.
    pose proof HG as [HW2 HM2 HF2 HB2 HV2 Hbk2 _ Hnew]. split_and!; try done.
    + split; [by eapply byDeps_distinct|]. intros id e He Hd Hp. apply (Hj id e); try done.
      destruct (Hnew id e He) as [[e0 He0]|[[_ ?] _]]; [|congruence].
      apply (vo_all _ _ _ HV id e0 He0). destruct (gr_keep _ _ _ _ _ _ HG _ _ He0) as (e1 & He1 & E & _).
      assert (e = e1) as -> by congruence. by rewrite E in Hd.
    + pose proof (Hcount view (reflexivity view)). lia.
Qed.
