(* ===== verification/BarrierDomain.v ===== *)
(** * Allocating one domain

    Affinities only order events; placement gives as many events as fit a bit
    of one bucket; the rounds of [allocateEventsInDomain] end because every
    one but the last places an event, and there are boundedly many bits. *)

From S2P Require Import Prelude Rp1Protocol Except BarrierLowering BarrierFacts BarrierInv BarrierRound.

Implicit Types (s a : BarrierLowerer) (e : BarrierEvent) (id d : string).

(** ** Bits *)

Lemma held_range a id e : Wf a -> events_ a !! id = Some e -> 0 <= ev_bucket e ->
  held a id e /\ ev_bucket e < allocatedBucketCount_ a /\ 0 <= ev_slot e < bitsPerBucket_ a.
Proof.
  intros HW He Hb. destruct (wf_place _ HW _ _ He) as [[? _]|Hh]; [lia|]. split; [done|].
  destruct Hh as (dm & b & Hd & Hin & Eb & Hs & Hsl). destruct (wf_buckets _ HW _ _ Hd) as [_ Hf].
  rewrite Forall_forall in Hf. destruct (Hf _ Hin) as [Hr Hlen]. apply lookup_lt_Some in Hsl.
  destruct (wf_limits _ HW) as [? _]. lia.
Qed.

(** No two events share a bit. *)
Lemma bits_exclusive a id1 e1 id2 e2 : Wf a ->
  events_ a !! id1 = Some e1 -> events_ a !! id2 = Some e2 -> 0 <= ev_bucket e1 ->
  ev_bucket e1 = ev_bucket e2 -> ev_slot e1 = ev_slot e2 -> id1 = id2.
Proof.
  intros HW H1 H2 Hb Eb Es. destruct (held_range _ _ _ HW H1 Hb) as [(dm1 & b1 & D1 & I1 & B1 & _ & S1) _].
  destruct (held_range _ _ _ HW H2 ltac:(lia)) as [(dm2 & b2 & D2 & I2 & B2 & _ & S2) _].
  assert (Ed : ev_domain e1 = ev_domain e2) by (eapply (wf_owner _ HW); eauto; congruence).
  rewrite Ed in D1. assert (dm1 = dm2) as -> by congruence.
  destruct (wf_buckets _ HW _ _ D2) as [Hn _]. apply list_elem_of_lookup in I1 as [i1 I1], I2 as [i2 I2].
  assert (i1 = i2) as ->.
  { eapply NoDup_lookup; [exact Hn| |]; rewrite list_lookup_fmap, ?I1, ?I2; cbn; [done|congruence]. }
  assert (b1 = b2) as -> by congruence. rewrite Es in S1. congruence.
Qed.

Definition capacity a : nat := Z.to_nat (bitsPerBucket_ a * maxBuckets_ a).

Lemma placed_bounded a : Wf a -> (count_placed a <= capacity a)%nat.
Proof.
  intros HW. unfold count_placed, capacity. set (M := filter _ (events_ a)).
  set (code := fun id => match events_ a !! id with
    | Some e => ev_bucket e * bitsPerBucket_ a + ev_slot e | None => 0 end).
  destruct (wf_limits _ HW) as (Hbits & Hcount & _).
  assert (Hin : forall id, id ∈ (map_to_list M).*1 -> exists e, events_ a !! id = Some e /\ 0 <= ev_bucket e).
  { intros id ([k e] & -> & Hk)%list_elem_of_fmap. apply elem_of_map_to_list in Hk.
    apply map_lookup_filter_Some in Hk as [? ?]. eauto. }
  rewrite <-length_map_to_list, <-(length_fmap fst), <-(length_fmap code).
  rewrite <-(length_seqZ 0 (bitsPerBucket_ a * maxBuckets_ a)). apply submseteq_length, NoDup_submseteq.
  - apply NoDup_fmap_2_strong; [|apply NoDup_fst_map_to_list].
    intros id1 id2 (e1 & H1 & B1)%Hin (e2 & H2 & B2)%Hin. unfold code. rewrite H1, H2. intros E.
    destruct (held_range _ _ _ HW H1 B1) as (_ & _ & S1), (held_range _ _ _ HW H2 B2) as (_ & _ & S2).
    assert (ev_bucket e1 = ev_bucket e2) by nia.
    by eapply (bits_exclusive a id1 e1 id2 e2); [..|nia].
  - intros c (id & -> & (e & He & Hb)%Hin)%list_elem_of_fmap. unfold code. rewrite He.
    destruct (held_range _ _ _ HW He Hb) as (_ & ? & ?). apply elem_of_seqZ. nia.
Qed.

(** ** Affinities *)

Lemma abs_affinity s id x :
  abs (set_events (alter (with_affinity x) id (events_ s)) s) = abs s.
Proof.
  unfold abs, set_events. cbn. f_equal. apply map_eq. intros y. rewrite !lookup_fmap.
  destruct (decide (id = y)) as [->|Hne].
  - rewrite lookup_alter_eq. by destruct (events_ s !! y).
  - by rewrite lookup_alter_ne.
Qed.

Lemma known_abs s s' l : abs s' = abs s -> known s l -> known s' l.
Proof. intros E Hk. apply abs_known. rewrite E. by apply abs_known. Qed.

Lemma bump_run {ub nf : Prop} x y s X :
  is_Some (events_ s !! x) -> ewp ub nf (bump_affinity x y) s (fun _ s' => abs s' = abs s) X.
Proof.
  intros [e He]. unfold bump_affinity. apply ewp_bind. eapply ewp_exact; [by apply event_at_run|].
  apply ewp_updates. apply abs_affinity.
Qed.

Lemma pairs_elem l p : p ∈ pairs l -> p.1 ∈ l /\ p.2 ∈ l.
Proof.
  induction l as [|x l IH]; cbn [pairs]; [by intros ?%not_elem_of_nil|].
  intros [(y & -> & Hy)%list_elem_of_fmap|Hp]%elem_of_app; cbn.
  - split; [by left|by right].
  - destruct (IH Hp). split; by right.
Qed.

Lemma recalculate_run {ub nf : Prop} d view s X :
  Wf (abs s) -> known s view ->
  ewp ub nf (recalculateAffinities d view) s (fun _ s' => abs s' = abs s) X.
Proof.
  intros HW Hk. unfold recalculateAffinities. apply ewp_bind.
  eapply ewp_mono; [apply (ewp_each _ (fun l s' => l ⊆ view /\ abs s' = abs s))| |done].
  - done.
  - intros id l s' _ [Hl Ea]. destruct (known_abs _ _ _ Ea Hk id) as [e He]; [apply Hl; by left|].
    apply ewp_bind. eapply ewp_exact; [by apply event_at_run|].
    assert (l ⊆ view) by (intros x Hx; apply Hl; by right). apply ewp_ewhen; intros _; [|done].
    apply ewp_updates. split; [done|]. by rewrite abs_affinity.
  - intros [] s1 [_ Ea1].
    eapply ewp_mono; [apply (ewp_each _ (fun l s' => l ⊆ view /\ abs s' = abs s))| |done]; [done| |by intros [] ? [_ ?]].
    intros id l s' _ [Hl Ea]. destruct (known_abs _ _ _ Ea Hk id) as [e He]; [apply Hl; by left|].
    apply ewp_bind. eapply ewp_exact; [by apply event_at_run|].
    assert (l ⊆ view) by (intros x Hx; apply Hl; by right). apply ewp_ewhen; intros _; [|done].
    assert (Hd : known s' (ev_depends e)).
    { intros x Hx. apply (proj1 (abs_known s' [x])); [|by left]. intros y ->%list_elem_of_singleton.
      rewrite Ea. apply (wf_dep _ HW id (strip e)); [|done]. rewrite <-Ea. by apply abs_event. }
    eapply ewp_mono; [apply (ewp_each _ (fun ps s2 => (forall p, p ∈ ps -> p ∈ pairs (ev_depends e)) /\ abs s2 = abs s'))| |done];
      [done| |intros [] s2 [_ Ea2]; split; [done|congruence]].
    intros p ps s2 _ [Hps Ea2]. destruct (pairs_elem _ _ (Hps p ltac:(by left))) as [H1 H2].
    apply ewp_bind. eapply ewp_mono; [apply bump_run, (known_abs _ _ _ Ea2 Hd _ H1)| |done].
    intros [] s3 Ea3. eapply ewp_mono; [apply bump_run, (known_abs s' s3 (ev_depends e)); [congruence|done|done]| |done].
    intros [] s4 Ea4. split; [intros q Hq; apply Hps; by right|congruence].
Qed.

(** ** Ordering candidates *)

Lemma delete_insert_list {A} (l : list A) i x : delete i (<[i := x]> l) = delete i l.
Proof. revert i. induction l as [|y l IH]; intros [|i]; cbn; [done..|]. by rewrite IH. Qed.

Lemma swap_perm i j l : swap_at i j l ≡ₚ l.
Proof.
  unfold swap_at. destruct (l !! i) as [x|] eqn:Hi; [|done]. destruct (l !! j) as [y|] eqn:Hj; [|done].
  destruct (decide (i = j)) as [<-|Hne].
  { simplify_eq. by rewrite !list_insert_id by (rewrite ?list_lookup_insert_eq; eauto using lookup_lt_Some). }
  assert (H1 : <[j := x]> l ≡ₚ x :: delete j l).
  { rewrite <-(delete_insert_list l j x). apply delete_Permutation, list_lookup_insert_eq. by eapply lookup_lt_Some. }
  assert (H1i : <[j := x]> l !! i = Some x) by (by rewrite list_lookup_insert_ne).
  assert (H2 : x :: delete j l ≡ₚ x :: delete i (<[j := x]> l)) by (by rewrite <-H1; apply delete_Permutation).
  apply Permutation_cons_inv in H2.
  etrans; [|symmetry; apply (delete_Permutation _ _ _ Hj)]. rewrite H2, <-(delete_insert_list (<[j := x]> l) i y).
  apply delete_Permutation, list_lookup_insert_eq. by eapply lookup_lt_Some.
Qed.

Lemma known_perm s l l' : l' ≡ₚ l -> known s l -> known s l'.
Proof. intros Hp Hk id Hid. apply Hk. by rewrite <-Hp. Qed.

Lemma pick_next_run {ub nf : Prop} l i s X :
  known s l -> ewp ub nf (pick_next l i) s (fun l' s' => s' = s /\ l' ≡ₚ l) X.
Proof.
  intros Hk. unfold pick_next. apply ewp_bind.
  eapply ewp_mono; [apply (ewp_loop (fun _ _ s' => s' = s)); [done|]| |done].
  - intros old k new acc s' El ->. assert (k ∈ seq i (length l - i)) as Hin by (rewrite El; apply elem_of_app; right; by left).
    apply elem_of_seq in Hin. destruct (lookup_lt_is_Some_2 l k ltac:(lia)) as [x Hx].
    rewrite (list_lookup_total_correct _ _ _ Hx). destruct (Hk x) as [e He]; [by eapply list_elem_of_lookup_2|].
    apply ewp_bind. unfold affinity_to. apply ewp_bind. eapply ewp_exact; [by apply event_at_run|]. done.
  - intros best s' ->. apply ewp_ret. split; [done|]. apply swap_perm.
Qed.

Lemma smartSort_run {ub nf : Prop} l s X :
  known s l -> ewp ub nf (smartSort l) s (fun l' s' => s' = s /\ l' ≡ₚ l) X.
Proof.
  intros Hk. unfold smartSort. apply ewp_bind.
  eapply ewp_mono; [apply (ewp_loop (fun _ _ s' => s' = s)); [done|]| |done].
  - intros old id new acc s' El ->. destruct (Hk id) as [e He]; [rewrite El; apply elem_of_app; right; by left|].
    apply ewp_bind. unfold totalAffinity. apply ewp_bind. eapply ewp_exact; [by apply event_at_run|]. done.
  - intros scores s' ->.
    eapply ewp_mono; [apply (ewp_loop (fun _ l' s' => s' = s /\ l' ≡ₚ l))| |done]; [split; [done|apply swap_perm]| |done].
    intros old i new l' s' _ [-> Hp].
    eapply ewp_mono; [apply pick_next_run; by eapply known_perm| |done]. intros l2 s2 [-> Hp2]. split; [done|]. by rewrite Hp2.
Qed.

(** ** Placement *)

Lemma free_slot b : (0 < freeCount b)%nat ->
  exists i, list_find (fun slot => slot = EmptyString) (bk_slots b) = Some (i, EmptyString) /\
    bk_slots b !! i = Some EmptyString.
Proof.
  unfold freeCount. intros Hf. destruct (list_find _ (bk_slots b)) as [[i x]|] eqn:E.
  - apply list_find_Some in E as (Hi & -> & _). eauto.
  - apply list_find_None in E. exfalso. rewrite Forall_forall in E.
    destruct (filter _ (bk_slots b)) as [|x l] eqn:El; [cbn in Hf; lia|].
    assert (x ∈ filter (fun slot => slot = EmptyString) (bk_slots b)) as [Hx Hin]%list_elem_of_filter by (rewrite El; by left).
    by apply (E x Hin).
Qed.

Lemma taken_free b i id :
  bk_slots b !! i = Some EmptyString -> id <> EmptyString -> S (freeCount (taken b i id)) = freeCount b.
Proof.
  unfold freeCount, taken. cbn. intros Hi Hid. revert i Hi. induction (bk_slots b) as [|x l IH]; intros [|i] Hi; try done.
  - cbn in Hi. simplify_eq. cbn [insert list_insert]. by rewrite filter_cons_False, filter_cons_True.
  - cbn [insert list_insert] in *. rewrite !filter_cons. specialize (IH i Hi). case_decide; cbn; by rewrite <-IH.
Qed.

(** The events [L] of domain [d] got a bit of [bucket]. *)
Record Put d (bucket : Z) (L : list string) a a' : Prop := {
  pt_wf : Wf a';
  pt_meaning orig : Meaning orig a -> Meaning orig a';
  pt_frame : Frame d a a';
  pt_next : nextCollector_ a' = nextCollector_ a;
  pt_bucket x : bucket_of a' x = if decide (x ∈ L) then bucket else bucket_of a x;
  pt_events x ex : events_ a !! x = Some ex -> exists ex', events_ a' !! x = Some ex' /\
    ev_domain ex' = ev_domain ex /\ ev_depends ex' = ev_depends ex /\
    ev_isPseudo ex' = ev_isPseudo ex /\ ev_isTransition ex' = ev_isTransition ex;
  pt_back x ex' : events_ a' !! x = Some ex' -> exists ex, events_ a !! x = Some ex /\
    ev_domain ex' = ev_domain ex /\ ev_depends ex' = ev_depends ex /\
    ev_isPseudo ex' = ev_isPseudo ex /\ ev_isTransition ex' = ev_isTransition ex
}.

Lemma put_nil d bucket a : Wf a -> Put d bucket [] a a.
Proof.
  intros HW. split; [done|done|reflexivity|done| | |]; try eauto 10.
Qed.

Lemma put_snoc d bucket L id a a1 a2 :
  Put d bucket L a a1 -> Put d bucket [id] a1 a2 -> Put d bucket (L ++ [id]) a a2.
Proof.
  intros [W1 M1 F1 N1 B1 E1 K1] [W2 M2 F2 N2 B2 E2 K2]. split; [done|auto|by etransitivity|congruence| | |].
  - intros x. rewrite B2, B1. destruct (decide (x ∈ [id])) as [H1|H1], (decide (x ∈ L)) as [H2|H2],
      (decide (x ∈ L ++ [id])) as [H3|H3]; try done; rewrite elem_of_app in H3; tauto.
  - intros x ex Hx. destruct (E1 x ex Hx) as (e1 & G1 & ? & ? & ? & ?).
    destruct (E2 x e1 G1) as (e2 & G2 & ? & ? & ? & ?). exists e2. split_and!; congruence.
  - intros x ex Hx. destruct (K2 x ex Hx) as (e1 & G1 & ? & ? & ? & ?).
    destruct (K1 x e1 G1) as (e2 & G2 & ? & ? & ? & ?). exists e2. split_and!; congruence.
Qed.

Lemma abs_put d bs k b i id s :
  abs (set_domains (alter (with_buckets (<[k := taken b i id]> bs)) d (domains_ s))
    (set_events (alter (with_place (bk_id b) (Z.of_nat i)) id (events_ s)) s)) = put_on d bs k b i id (abs s).
Proof.
  unfold abs, put_on, set_domains, set_events. cbn. f_equal. by apply strip_alter.
Qed.

Lemma put_on_put d k b i id a dm e :
  Wf a -> domains_ a !! d = Some dm -> dm_localBuckets dm !! k = Some b ->
  bk_slots b !! i = Some EmptyString -> events_ a !! id = Some e -> ev_domain e = d -> ev_bucket e < 0 ->
  Put d (bk_id b) [id] a (put_on d (dm_localBuckets dm) k b i id a).
Proof.
  intros HW Hdm Hk Hi He Hd Hb. split.
  - by apply (put_wf d k b i id a HW dm Hdm Hk Hi e He Hd Hb).
  - intros orig. by apply (put_meaning d k b i id a dm e He).
  - by apply (put_frame d k b i id a HW dm Hdm Hk Hi e He Hd Hb).
  - done.
  - intros x. rewrite (put_bucket d k b i id a dm e He).
    destruct (decide (x = id)) as [->|Hne]; [by rewrite decide_True by (by left)|].
    rewrite decide_False; [done|]. by intros ->%list_elem_of_singleton.
  - intros x ex Hx. destruct (put_events d k b i id a dm e He x ex Hx) as (ex' & ? & _ & ?). eauto.
  - intros x ex Hx. destruct (put_events_back d k b i id a dm e He x ex Hx) as (ex' & ? & _ & ?). eauto.
Qed.

Lemma putEvents_run {ub nf : Prop} d k L s dm b X :
  Wf (abs s) -> domains_ s !! d = Some dm -> dm_localBuckets dm !! k = Some b ->
  NoDup L -> (forall id, id ∈ L -> exists e, events_ (abs s) !! id = Some e /\ ev_domain e = d /\ ev_bucket e < 0) ->
  (length L <= freeCount b)%nat ->
  ewp ub nf (putEvents d k L) s (fun _ s' => Put d (bk_id b) L (abs s) (abs s')) X.
Proof.
  intros HW Hdm Hk Hnd HL Hfree. unfold putEvents.
  eapply ewp_mono; [apply (ewp_each _ (fun l s' => exists old dm' b', L = old ++ l /\
    Put d (bk_id b) old (abs s) (abs s') /\ domains_ s' !! d = Some dm' /\ dm_localBuckets dm' !! k = Some b' /\
    bk_id b' = bk_id b /\ (length l <= freeCount b')%nat))| |done].
  - exists [], dm, b. split_and!; try done. by apply put_nil.
  - intros id l s' _ (old & dm' & b' & El & HP & Hdm' & Hk' & Eb & Hf).
    destruct (HL id) as (e & He & Hd & Hb); [rewrite El; apply elem_of_app; right; by left|].
    destruct (pt_events _ _ _ _ _ HP _ _ He) as (e1 & He1 & Ed1 & _).
    assert (Hid : id ∉ old).
    { rewrite El in Hnd. apply NoDup_app in Hnd as (_ & Hnd & _). intros Hin. apply (Hnd id Hin). by left. }
    pose proof (pt_bucket _ _ _ _ _ HP id) as Hbk. rewrite decide_False in Hbk by done.
    rewrite (bucket_of_event _ _ _ He), (bucket_of_event _ _ _ He1) in Hbk.
    apply abs_inv in He1 as He1s. destruct He1s as (es & Hes & ->). cbn in Ed1, Hbk.
    apply ewp_bind. eapply ewp_exact; [by apply event_at_run|].
    destruct (Z.leb_spec 0 (ev_bucket es)) as [?|Hfree1]; [lia|].
    apply ewp_bind. eapply ewp_exact.
    { unfold buckets_of. rewrite (bind_exact _ _ _ _ _ (domain_at_run _ _ _ Hdm')). done. }
    rewrite Hk'. destruct (free_slot b') as (i & -> & Hi); [cbn in Hf; lia|].
    apply ewp_bind, ewp_updates, ewp_updates.
    exists (old ++ [id]), (with_buckets (<[k := taken b' i id]> (dm_localBuckets dm')) dm'), (taken b' i id).
    split_and!.
    + by rewrite <-(assoc_L app).
    + eapply put_snoc; [exact HP|]. rewrite <-Eb.
      change (Put d (bk_id b') [id] (abs s') (abs (set_domains (alter (with_buckets (<[k := taken b' i id]> (dm_localBuckets dm'))) d (domains_ s'))
        (set_events (alter (with_place (bk_id b') (Z.of_nat i)) id (events_ s')) s')))).
      rewrite abs_put. apply (put_on_put d k b' i id (abs s') dm' (strip es)); try done; [apply HP|cbn; congruence].
    + cbn. by rewrite lookup_alter_eq, Hdm'.
    + apply list_lookup_insert_eq. by eapply lookup_lt_Some.
    + done.
    + pose proof (taken_free b' i id Hi (proj2 (wf_id _ HW _ _ He))). cbn in Hf. lia.
  - intros [] s' (old & dm' & b' & El & HP & _). rewrite app_nil_r in El. by subst old.
Qed.

(** ** After a placement *)

Definition Done d a : Prop :=
  forall id e, events_ a !! id = Some e -> ev_domain e = d -> 0 <= ev_bucket e /\ fits a (ev_depends e).

Lemma put_fits d bucket L a a' deps : Put d bucket L a a' -> fits a deps -> fits a' deps.
Proof. intros HP. apply fits_mono. apply (fr_keep _ _ _ (pt_frame _ _ _ _ _ HP)). Qed.

(** Everything of the domain has a bit now. *)
Lemma put_done d bucket L a a' :
  Wf a -> Gathered d a -> Put d bucket L a a' -> 0 <= bucket ->
  (forall id e, events_ a !! id = Some e -> ev_domain e = d -> ev_bucket e < 0 -> id ∈ L) ->
  (forall id e x, events_ a !! id = Some e -> ev_domain e = d -> ev_isTransition e = true ->
     x ∈ ev_depends e -> 0 <= bucket_of a x) ->
  Done d a'.
Proof.
  intros HW HG HP Hb Hall Hup id e' He' Hd.
  destruct (pt_back _ _ _ _ _ HP _ _ He') as (e & He & Ed & Edep & Ep & Et). rewrite Ed in Hd. split.
  - rewrite <-(bucket_of_event _ _ _ He'), (pt_bucket _ _ _ _ _ HP). case_decide as HL; [done|].
    rewrite (bucket_of_event _ _ _ He). destruct (decide (0 <= ev_bucket e)); [done|].
    destruct HL. apply (Hall id e); [done|done|lia].
  - rewrite Edep. destruct (ev_isPseudo e) eqn:Hp.
    { eapply put_fits; [done|]. by eapply wf_pseudo. }
    destruct (ga_join _ _ HG _ _ He Hd Hp) as [Hf|[Hu _]]; [by eapply put_fits|].
    exists bucket. split; [done|]. intros x Hx. rewrite (pt_bucket _ _ _ _ _ HP).
    rewrite decide_True; [done|]. specialize (Hu x Hx) as Hux.
    destruct (ev_isTransition e) eqn:Ht; [specialize (Hup id e x He Hd Ht Hx); lia|].
    destruct (wf_dep _ HW _ _ _ He Hx) as [ex Hex]. apply (Hall x ex Hex).
    + rewrite <-Hd. by eapply (wf_local _ HW id e).
    + by rewrite <-(bucket_of_event _ _ _ Hex).
Qed.

(** The next round can start. *)
Lemma put_mid d bucket L a a' :
  Wf a -> Gathered d a -> Put d bucket L a a' -> (forall x, x ∈ L -> bucket_of a x < 0) -> 0 <= bucket -> Mid d a'.
Proof.
  intros HW HG HP HL Hb.
  assert (Hcol : forall p ep', events_ a' !! p = Some ep' -> collector d ep' ->
    exists ep, events_ a !! p = Some ep /\ collector d ep /\ ev_depends ep' = ev_depends ep).
  { intros p ep' Hp [Hd Hps]. destruct (pt_back _ _ _ _ _ HP _ _ Hp) as (ep & Hep & Ed & Edep & Ep & _).
    exists ep. split_and!; [done|split; congruence|done]. }
  split.
  - intros p1 e1 p2 e2 H1 C1 H2 C2 E. destruct (Hcol _ _ H1 C1) as (f1 & F1 & D1 & E1).
    destruct (Hcol _ _ H2 C2) as (f2 & F2 & D2 & E2). eapply (ga_unique _ _ HG); eauto. congruence.
  - intros id e' He' Hd Hp. destruct (pt_back _ _ _ _ _ HP _ _ He') as (e & He & Ed & Edep & Ep & Et).
    rewrite Edep. rewrite Ed in Hd. rewrite Ep in Hp.
    destruct (ga_join _ _ HG _ _ He Hd Hp) as [Hf|[Hu Hap]]; [left; by eapply put_fits|right]. split.
    + intros x Hx _ p ep' Hep' Hc Hin. destruct (Hcol _ _ Hep' Hc) as (ep & Hep & [_ Hpp] & E). rewrite E in Hin.
      pose proof (gathered_placed a HW p ep x Hep Hpp Hin). specialize (Hu x Hx). lia.
    + intros u1 e1 u2 e2 x1 x2 U1 U2 Hne E1 P1 B1 E2 P2 B2 X1 X2.
      assert (Hloose : forall u eu, events_ a' !! u = Some eu -> ev_isPseudo eu = true -> ev_bucket eu < 0 ->
        exists eu0, events_ a !! u = Some eu0 /\ ev_isPseudo eu0 = true /\ ev_bucket eu0 < 0 /\
          ev_depends eu = ev_depends eu0 /\ forall x, x ∈ ev_depends eu -> bucket_of a' x = bucket_of a x).
      { intros u eu Heu Pu Bu. destruct (pt_back _ _ _ _ _ HP _ _ Heu) as (eu0 & Heu0 & _ & D0 & P0 & _).
        assert (Ppu : ev_isPseudo eu0 = true) by congruence. exists eu0. split_and!; try done.
        - pose proof (pt_bucket _ _ _ _ _ HP u) as Hbu. rewrite (bucket_of_event _ _ _ Heu) in Hbu.
          rewrite <-(bucket_of_event _ _ _ Heu0). case_decide; [lia|congruence].
        - intros x Hx. rewrite D0 in Hx. apply (fr_keep _ _ _ (pt_frame _ _ _ _ _ HP)).
          by eapply (gathered_placed a HW u eu0). }
      destruct (Hloose u1 e1 E1 P1 B1) as (f1 & F1 & Q1 & C1 & D1 & K1).
      destruct (Hloose u2 e2 E2 P2 B2) as (f2 & F2 & Q2 & C2 & D2 & K2). rewrite K1, K2 by done.
      rewrite D1 in X1. rewrite D2 in X2. by eapply (Hap u1 f1 u2 f2).
Qed.

(** ** Counting placed events *)

Lemma placed_ids_mono a a' :
  (forall id, 0 <= bucket_of a id -> 0 <= bucket_of a' id) ->
  dom (filter (fun p => 0 <= ev_bucket p.2) (events_ a)) ⊆ dom (filter (fun p => 0 <= ev_bucket p.2) (events_ a')).
Proof.
  intros Hm id. rewrite !elem_of_dom. intros [e [He Hb]%map_lookup_filter_Some]. cbn in Hb.
  destruct (placed_event a' id) as (e' & He' & Hb'); [apply Hm; by rewrite (bucket_of_event _ _ _ He)|].
  exists e'. by apply map_lookup_filter_Some.
Qed.

Lemma count_placed_mono a a' :
  (forall id, 0 <= bucket_of a id -> 0 <= bucket_of a' id) -> (count_placed a <= count_placed a')%nat.
Proof.
  intros Hm. unfold count_placed. rewrite <-!size_dom. apply subseteq_size. by apply placed_ids_mono.
Qed.

Lemma count_placed_strict a a' id :
  (forall id, 0 <= bucket_of a id -> 0 <= bucket_of a' id) -> bucket_of a id < 0 -> 0 <= bucket_of a' id ->
  (count_placed a < count_placed a')%nat.
Proof.
  intros Hm Hn Hp. unfold count_placed. rewrite <-!size_dom. apply subset_size. split; [by apply placed_ids_mono|].
  intros Hsub. specialize (Hsub id). rewrite !elem_of_dom in Hsub. destruct Hsub as [e [He Hb]%map_lookup_filter_Some].
  - destruct (placed_event a' id Hp) as (e' & He' & Hb'). exists e'. by apply map_lookup_filter_Some.
  - cbn in Hb. rewrite (bucket_of_event _ _ _ He) in Hn. lia.
Qed.

(** ** Choosing a bucket *)

(** Only the bucket list of [d] may have changed. *)
Record Shelved d a a' : Prop := {
  sh_wf : Wf a';
  sh_frame : Frame d a a';
  sh_events : events_ a' = events_ a;
  sh_next : nextCollector_ a' = nextCollector_ a
}.

Lemma shelved_refl d a : Wf a -> Shelved d a a.
Proof. by split. Qed.

Lemma shelved_trans d a1 a2 a3 : Shelved d a1 a2 -> Shelved d a2 a3 -> Shelved d a1 a3.
Proof. intros [] []. split; [done|by etransitivity|congruence..]. Qed.

Section same_events.
Context (a a' : BarrierLowerer) (E : events_ a' = events_ a).

Lemma same_bucket id : bucket_of a' id = bucket_of a id.
Proof using E. unfold bucket_of. by rewrite E. Qed.

Lemma same_gathered d : Gathered d a -> Gathered d a'.
Proof using E.
  intros [Hu Hj]. split; unfold distinct_collectors, fits, apart, bucket_of in *; rewrite E; done.
Qed.

Lemma same_meaning orig : Meaning orig a -> Meaning orig a'.
Proof using E. intros [H1 H2 H3]. split; rewrite E; done. Qed.

Lemma same_view d view : view_ok d a view -> view_ok d a' view.
Proof using E. intros [H1 H2 H3]. split; unfold known in *; rewrite ?E; done. Qed.
End same_events.

Lemma abs_shelf s d n bs :
  abs (set_domains (alter (with_buckets bs) d (domains_ (set_count n s))) (set_count n s)) = rebucketed d n bs (abs s).
Proof. done. Qed.

Lemma abs_resort s d bs :
  abs (set_domains (alter (with_buckets bs) d (domains_ s)) s) =
  rebucketed d (allocatedBucketCount_ (abs s)) bs (abs s).
Proof. by destruct s. Qed.

Lemma sorted_shelved d bs a dm :
  Wf a -> domains_ a !! d = Some dm -> bs ≡ₚ dm_localBuckets dm ->
  Shelved d a (rebucketed d (allocatedBucketCount_ a) bs a).
Proof.
  intros HW Hdm Hp. destruct (wf_limits _ HW) as (? & ? & _), (wf_buckets _ HW _ _ Hdm) as [Hn Hf].
  assert (H1 : NoDup (bk_id <$> bs)) by (by rewrite Hp).
  assert (H2 : Forall (bucket_ok (set_count (allocatedBucketCount_ a) a)) bs).
  { rewrite Hp. exact Hf. }
  assert (H3 : forall b, b ∈ bs -> bk_id b ∈ bk_id <$> dm_localBuckets dm \/ allocatedBucketCount_ a <= bk_id b).
  { intros b Hb. left. apply list_elem_of_fmap_2. by rewrite <-Hp. }
  split; [|eapply rebucketed_frame; try done; lia|done..].
  eapply rebucketed_wf; try done; [lia|]. intros b. by rewrite Hp.
Qed.

Definition fresh_bucket a : BarrierBucket :=
  {| bk_id := allocatedBucketCount_ a; bk_slots := replicate (Z.to_nat (bitsPerBucket_ a)) EmptyString |}.

Lemma fresh_shelved d a dm :
  Wf a -> domains_ a !! d = Some dm -> allocatedBucketCount_ a < maxBuckets_ a ->
  Shelved d a (rebucketed d (allocatedBucketCount_ a + 1) (dm_localBuckets dm ++ [fresh_bucket a]) a).
Proof.
  intros HW Hdm Hlt. destruct (wf_limits _ HW) as (Hbits & Hc & _), (wf_buckets _ HW _ _ Hdm) as [Hn Hf].
  rewrite Forall_forall in Hf.
  assert (H1 : NoDup (bk_id <$> dm_localBuckets dm ++ [fresh_bucket a])).
  { rewrite fmap_app. apply NoDup_app. split_and!; [done| |apply NoDup_singleton].
    intros x (b & -> & Hb)%list_elem_of_fmap Hx%list_elem_of_singleton. cbn in Hx.
    destruct (Hf b Hb) as [Hr _]. lia. }
  assert (H2 : Forall (bucket_ok (set_count (allocatedBucketCount_ a + 1) a)) (dm_localBuckets dm ++ [fresh_bucket a])).
  { apply Forall_app. split.
    - apply Forall_forall. intros b Hb. destruct (Hf b Hb) as [Hr Hl]. split; [cbn; lia|done].
    - apply Forall_singleton. split; [cbn; lia|]. apply length_replicate. }
  assert (H3 : forall b, b ∈ dm_localBuckets dm ++ [fresh_bucket a] ->
    bk_id b ∈ bk_id <$> dm_localBuckets dm \/ allocatedBucketCount_ a <= bk_id b).
  { intros b [Hb| ->%list_elem_of_singleton]%elem_of_app; [left; by apply list_elem_of_fmap_2|right; cbn; lia]. }
  split; [|eapply rebucketed_frame; try done; lia|done..].
  eapply rebucketed_wf; try done; [lia|]. intros b Hb. apply elem_of_app. by left.
Qed.

Lemma fresh_free a : Wf a -> (0 < freeCount (fresh_bucket a))%nat.
Proof.
  intros HW. destruct (wf_limits _ HW) as [? _]. unfold freeCount, fresh_bucket. cbn [bk_slots].
  destruct (Z.to_nat (bitsPerBucket_ a)) eqn:E; [lia|]. cbn [replicate]. rewrite filter_cons_True by done. cbn. lia.
Qed.

Lemma buckets_run d s dm : domains_ s !! d = Some dm -> buckets_of d s = Ret (Val (dm_localBuckets dm)) s.
Proof. intros Hd. unfold buckets_of. rewrite (bind_exact _ _ _ _ _ (domain_at_run _ _ _ Hd)). done. Qed.

Lemma largest_run {ub nf : Prop} d s dm :
  Wf (abs s) -> domains_ s !! d = Some dm ->
  ewp ub nf (largestFreeBucketOrNew d) s (fun k s' => Shelved d (abs s) (abs s') /\
    exists dm' b, domains_ s' !! d = Some dm' /\ dm_localBuckets dm' !! k = Some b /\ (0 < freeCount b)%nat)
    (fun x _ => x = BucketsExhausted).
Proof.
  intros HW Hdm. unfold largestFreeBucketOrNew. apply ewp_bind. eapply ewp_exact; [by apply buckets_run|].
  set (best := max_element _). destruct (dm_localBuckets dm !! best) as [b|] eqn:Hb; cbn match.
  1: destruct (Nat.ltb_spec 0 (freeCount b)) as [Hf|_].
  { apply ewp_ret. split; [by apply shelved_refl|]. exists dm, b. done. }
  all: apply ewp_bind, ewp_asks, ewp_bind, ewp_asks, ewp_bind, ewp_throw_if; [done|];
    intros Hlt%Z.leb_gt; apply ewp_bind, ewp_asks, ewp_bind, ewp_updates, ewp_bind, ewp_updates, ewp_ret;
    destruct (wf_limits _ HW) as (_ & Hc & Hm); cbn in Hc, Hm; unfold RP1_MAX_BUCKETS in Hm;
    rewrite abs_shelf; unfold u8; rewrite Z.mod_small by lia;
    (split; [by apply (fresh_shelved d (abs s) dm)|]);
    exists (with_buckets (dm_localBuckets dm ++ [fresh_bucket (abs s)]) dm), (fresh_bucket (abs s));
    (split; [cbn; by rewrite lookup_alter_eq, Hdm|]); (split; [|by apply fresh_free]);
    cbn; by apply list_lookup_middle.
Qed.

(** ** Rounds *)

(** Everything above [d] has a bit. *)
Definition settled d a : Prop :=
  ~ above (skeleton_of a) d d /\
  forall id e, events_ a !! id = Some e -> above (skeleton_of a) (ev_domain e) d -> 0 <= ev_bucket e.

Lemma settled_frame d a a' : Frame d a a' -> settled d a -> settled d a'.
Proof.
  intros HF [Hn Hup]. destruct (fr_const _ _ _ HF) as (_ & _ & _ & Esk). unfold settled. rewrite Esk. split; [done|].
  intros id e He Hab. apply (Hup id e); [|done]. apply (fr_other _ _ _ HF); [|done]. intros E. by rewrite E in Hab.
Qed.

Lemma settled_fed d a id e x :
  Wf a -> settled d a -> events_ a !! id = Some e -> ev_domain e = d -> ev_isTransition e = true ->
  x ∈ ev_depends e -> 0 <= bucket_of a x.
Proof.
  intros HW [_ Hup] He <- Ht Hx. destruct (wf_trans _ HW _ _ He Ht) as (_ & y & ey & Ed & Hy & _ & Hab).
  rewrite Ed in Hx. apply list_elem_of_singleton in Hx as ->. rewrite (bucket_of_event _ _ _ Hy). by apply (Hup y ey).
Qed.

(** Room in the collector counter for the rounds that may still come, and one
    more for each of [D] domains. *)
Definition budget (D : Z) a : Prop :=
  nextCollector_ a + 32 * Z.of_nat (count_plain a) * (Z.of_nat (capacity a) - Z.of_nat (count_placed a) + D) + 32 < 2 ^ 32.

Lemma frame_placed d a a' : Frame d a a' -> (count_placed a <= count_placed a')%nat.
Proof. intros HF. apply count_placed_mono. intros id Hid. by rewrite (fr_keep _ _ _ HF). Qed.

Lemma frame_capacity d a a' : Frame d a a' -> capacity a' = capacity a.
Proof. intros HF. unfold capacity. destruct (fr_const _ _ _ HF) as (_ & -> & -> & _). done. Qed.

Lemma frame_known d a a' x : Frame d a a' -> is_Some (domains_ a !! x) -> is_Some (domains_ a' !! x).
Proof.
  intros HF [dm Hd]. destruct (fr_const _ _ _ HF) as (_ & _ & _ & Esk). apply (f_equal (fun T => T !! x)) in Esk.
  unfold skeleton_of in Esk. rewrite !lookup_fmap, Hd in Esk. destruct (domains_ a' !! x); [by eexists|done].
Qed.

Lemma budget_now D a : Wf a -> 0 <= D -> budget (D + 1) a -> nextCollector_ a + 32 * Z.of_nat (count_plain a) + 32 < 2 ^ 32.
Proof. intros HW%placed_bounded HD. unfold budget. nia. Qed.

Lemma budget_last D d a a' :
  Frame d a a' -> nextCollector_ a' <= nextCollector_ a + 32 * Z.of_nat (count_plain a) ->
  budget (D + 1) a -> budget D a'.
Proof.
  intros HF Hn. unfold budget. rewrite (frame_capacity _ _ _ HF), (count_plain_frame _ _ _ HF).
  pose proof (frame_placed _ _ _ HF). nia.
Qed.

Lemma budget_next D d a a' :
  Frame d a a' -> nextCollector_ a' <= nextCollector_ a + 32 * Z.of_nat (count_plain a) ->
  (count_placed a < count_placed a')%nat -> budget D a -> budget D a'.
Proof.
  intros HF Hn Hlt. unfold budget. rewrite (frame_capacity _ _ _ HF), (count_plain_frame _ _ _ HF). nia.
Qed.

Lemma unallocated_run d view s :
  view_ok d (abs s) view -> exists R, unallocatedInDomain d view s = Ret (Val R) s /\ NoDup R /\
    forall id, id ∈ R <-> exists e, events_ (abs s) !! id = Some e /\ ev_domain e = d /\ ev_bucket e < 0.
Proof.
  intros HV. pose proof (vo_known _ _ _ HV) as Hk. rewrite abs_known in Hk.
  set (p := fun e => bool_decide (ev_domain e = d) && (ev_bucket e <? 0)).
  exists (filter (fun id => test s p id = true) view). split_and!.
  - unfold unallocatedInDomain. apply select_run; [done|]. intros out id e He. by rewrite (at_event _ _ _ _ He).
  - apply NoDup_filter, HV.
  - intros id. rewrite list_elem_of_filter. unfold test, p. split.
    + intros [Ht Hin]. destruct (Hk id Hin) as [e He]. rewrite He in Ht. exists (strip e).
      apply andb_true_iff in Ht as [Ht1%bool_decide_eq_true Ht2%Z.ltb_lt]. split; [by apply abs_event|done].
    + intros (e & He & Hd & Hb). split; [|by eapply (vo_all _ _ _ HV)].
      apply abs_inv in He as (e0 & He & ->). rewrite He. apply andb_true_iff. split; [by apply bool_decide_eq_true|by apply Z.ltb_lt].
Qed.

Lemma put_view d d' bucket L a a' view : Put d' bucket L a a' -> view_ok d a view -> view_ok d a' view.
Proof.
  intros HP [Hn Hk Hall]. split; [done| |].
  - intros id Hid. destruct (Hk id Hid) as [e He]. destruct (pt_events _ _ _ _ _ HP _ _ He) as (e' & ? & _). by exists e'.
  - intros id e' He' Hd. destruct (pt_back _ _ _ _ _ HP _ _ He') as (e & He & Ed & _). apply (Hall id e He). congruence.
Qed.

(** A round after its preparation: [R] are the events of [d] to place. *)
Record Prepared d (orig : gmap string (string * list string)) a0 (view R : list string) a : Prop := {
  pr_wf : Wf a;
  pr_meaning : Meaning orig a;
  pr_frame : Frame d a0 a;
  pr_gathered : Gathered d a;
  pr_view : view_ok d a view;
  pr_nodup : NoDup R;
  pr_rest id : id ∈ R <-> exists e, events_ a !! id = Some e /\ ev_domain e = d /\ ev_bucket e < 0;
  pr_next : nextCollector_ a <= nextCollector_ a0 + 32 * Z.of_nat (count_plain a0)
}.

Lemma prepared_shelved d orig a0 view R a a' :
  Prepared d orig a0 view R a -> Shelved d a a' -> Prepared d orig a0 view R a'.
Proof.
  intros [] [? ? E ?]. split; try done.
  - by eapply same_meaning.
  - by etransitivity.
  - by eapply same_gathered.
  - by eapply same_view.
  - by rewrite E.
  - congruence.
Qed.

Lemma prepare_run {ub nf : Prop} fuel d orig view s (k : list string -> list string -> LM unit) Q X :
  Wf (abs s) -> Meaning orig (abs s) -> Mid d (abs s) -> view_ok d (abs s) view -> (0 < fuel)%nat ->
  nextCollector_ s + 32 * Z.of_nat (count_plain (abs s)) + 32 < 2 ^ 32 ->
  (forall view' R s', Prepared d orig (abs s) view' R (abs s') -> ewp ub nf (k view' R) s' Q X) ->
  ewp ub nf (view1 ← removeUnplacedPseudoEvents fuel d view; view2 ← createPseudoEvents d view1;
    recalculateAffinities d view2;; R ← unallocatedInDomain d view2; k view2 R) s Q X.
Proof.
  intros HW HM Hmid HV Hf Hn Hk. destruct (remove_run fuel d view s HW HV Hf) as (s1 & E1 & A1).
  apply ewp_bind. eapply ewp_exact; [exact E1|].
  pose proof (remove_view d s view HW HV) as HV1. rewrite <-A1 in HV1.
  pose proof (removed_frame d _ HW) as HF1. rewrite <-A1 in HF1.
  assert (N1 : nextCollector_ s1 = nextCollector_ s) by (by apply (f_equal nextCollector_) in A1).
  apply ewp_bind. eapply ewp_mono; [apply (create_run d orig)| |done]; try done.
  { rewrite A1. by apply removed_wf. }
  { rewrite A1. by apply removed_meaning. }
  { rewrite A1. by apply removed_ready. }
  { by rewrite N1, (count_plain_frame _ _ _ HF1). }
  intros view2 s2 (HW2 & HM2 & HF2 & HG2 & HV2 & _ & N2). rewrite (count_plain_frame _ _ _ HF1), N1 in N2.
  apply ewp_bind. eapply ewp_mono; [apply recalculate_run; [done|by apply abs_known, HV2]| |done].
  intros [] s3 A3. assert (N3 : nextCollector_ s3 = nextCollector_ s2) by (by apply (f_equal nextCollector_) in A3).
  rewrite <-A3 in *. destruct (unallocated_run d view2 s3 HV2) as (R & ER & HR1 & HR2).
  apply ewp_bind. eapply ewp_exact; [exact ER|]. apply Hk. split; try done; [by etransitivity|]. cbn in N2 |- *. lia.
Qed.

(** ** The rounds of one domain *)

Section rounds.
Context (bucket_sort : list BarrierBucket -> list BarrierBucket) (Hsort : forall l, bucket_sort l ≡ₚ l).
Context (d : string) (orig : gmap string (string * list string)) (D : Z) (HD : 0 <= D).

Definition Allocated a a' : Prop :=
  Wf a' /\ Meaning orig a' /\ Frame d a a' /\ Done d a' /\ budget D a'.

Lemma allocated_put a0 view R a bucket a' :
  budget (D + 1) a0 -> settled d a0 -> Prepared d orig a0 view R a -> Put d bucket R a a' -> 0 <= bucket -> Allocated a0 a'.
Proof.
  intros HB Hset [] HP Hb. assert (HF : Frame d a0 a') by (etransitivity; [done|apply HP]).
  split_and!; [apply HP|by apply (pt_meaning _ _ _ _ _ HP)|done| |].
  - eapply (put_done d bucket R a a'); try done.
    + intros id e He Hd Hb'. apply pr_rest0. eauto.
    + intros id e x He Hd Ht Hx. eapply settled_fed; try done. by eapply settled_frame.
  - eapply budget_last; [done| |done]. by rewrite (pt_next _ _ _ _ _ HP).
Qed.

Lemma bucket_nonneg a dm k b : Wf a -> domains_ a !! d = Some dm -> dm_localBuckets dm !! k = Some b -> 0 <= bk_id b.
Proof.
  intros HW Hdm Hk. destruct (wf_buckets _ HW _ _ Hdm) as [_ Hf]. rewrite Forall_forall in Hf.
  destruct (Hf b) as [Hr _]; [by eapply list_elem_of_lookup_2|]. lia.
Qed.

Definition ready_to_allocate a (view : list string) : Prop :=
  Wf a /\ Meaning orig a /\ Mid d a /\ settled d a /\ view_ok d a view /\ is_Some (domains_ a !! d) /\ budget (D + 1) a.

Lemma partial_put a0 view0 view R a bucket L a' :
  ready_to_allocate a0 view0 -> Prepared d orig a0 view R a -> Put d bucket L a a' -> 0 <= bucket ->
  L ⊆ R -> L <> [] ->
  ready_to_allocate a' view /\ Frame d a0 a' /\ (count_placed a0 < count_placed a')%nat.
Proof.
  intros (_ & _ & _ & Hset & _ & Hd & HB) [] HP Hb HL Hne.
  assert (HF : Frame d a0 a') by (etransitivity; [done|apply HP]).
  assert (Hfree : forall x, x ∈ L -> bucket_of a x < 0).
  { intros x (e & He & _ & ?)%HL%pr_rest0. by rewrite (bucket_of_event _ _ _ He). }
  assert (Hlt : (count_placed a0 < count_placed a')%nat).
  { destruct L as [|x L]; [done|]. apply (Nat.le_lt_trans _ (count_placed a)); [by eapply frame_placed|].
    apply (count_placed_strict _ _ x); [|apply Hfree; by left|].
    - intros id Hid. by rewrite (fr_keep _ _ _ (pt_frame _ _ _ _ _ HP)).
    - rewrite (pt_bucket _ _ _ _ _ HP), decide_True; [done|by left]. }
  unfold ready_to_allocate. split_and!; [apply HP|by apply (pt_meaning _ _ _ _ _ HP)|by eapply put_mid|by eapply settled_frame|
    by eapply put_view|by eapply frame_known| |done|done].
  eapply budget_next; [done| |done|done]. by rewrite (pt_next _ _ _ _ _ HP).
Qed.

Lemma allocate_run {ub nf : Prop} fuel : forall view s,
  ready_to_allocate (abs s) view -> (capacity (abs s) - count_placed (abs s) < fuel)%nat ->
  ewp ub nf (allocateEventsInDomain bucket_sort fuel d view) s (fun _ s' => Allocated (abs s) (abs s'))
    (fun x _ => x = BucketsExhausted).
Proof using All.
  induction fuel as [|fuel IH]; intros view s Hready Hfuel; [lia|]. cbn [allocateEventsInDomain].
  pose proof Hready as (HW & HM & Hmid & Hset & HV & Hd & HB).
  eapply prepare_run; [done..|lia|by apply (budget_now D (abs s))|]. intros view2 R s2 HP2.
  destruct (frame_known _ _ _ d (pr_frame _ _ _ _ _ _ HP2) Hd) as [dm2 Hdm2].
  change (domains_ s2 !! d = Some dm2) in Hdm2.
  case_decide as HR.
  { apply ewp_ret. eapply allocated_put; [done|done|done| |done]. rewrite HR. apply put_nil, HP2. }
  apply ewp_bind. eapply ewp_exact; [by apply buckets_run|]. apply ewp_bind, ewp_updates.
  set (s3 := set_domains _ s2).
  assert (HS3 : Shelved d (abs s2) (abs s3)).
  { unfold s3. rewrite abs_resort. apply sorted_shelved with dm2; [apply HP2|done|apply Hsort]. }
  assert (Hdm3 : domains_ s3 !! d = Some (with_buckets (bucket_sort (dm_localBuckets dm2)) dm2)).
  { cbn. rewrite lookup_alter_eq. by rewrite Hdm2. }
  pose proof (prepared_shelved _ _ _ _ _ _ _ HP2 HS3) as HP3.
  apply ewp_bind. eapply ewp_exact; [by apply buckets_run|].
  destruct (list_find _ _) as [[k b]|] eqn:Hfind.
  { apply list_find_Some in Hfind as (Hk & Hroom & _).
    eapply ewp_mono; [eapply (putEvents_run _ _ _ _ _ _ (fun x _ => x = BucketsExhausted)); [apply HP3|exact Hdm3|exact Hk| | |exact Hroom]| |done].
    - apply HP3.
    - intros id Hid. by apply (pr_rest _ _ _ _ _ _ HP3).
    - intros [] s4 HP4. eapply allocated_put; try done. eapply bucket_nonneg; [apply HP3|exact Hdm3|exact Hk]. }
  apply ewp_bind. eapply ewp_mono; [eapply largest_run; [apply HP3|exact Hdm3]| |done].
  intros k s4 (HS4 & dm4 & b & Hdm4 & Hk & Hroom). pose proof (prepared_shelved _ _ _ _ _ _ _ HP3 HS4) as HP4.
  assert (HR4 : forall id, id ∈ R -> exists e, events_ (abs s4) !! id = Some e /\ ev_domain e = d /\ ev_bucket e < 0)
    by (intros id; apply (pr_rest _ _ _ _ _ _ HP4)).
  apply ewp_bind. eapply ewp_mono; [apply (smartSort_run _ _ (fun x _ => x = BucketsExhausted))| |done].
  { intros id (e & He & _)%HR4. apply abs_inv in He as (e0 & He & _). by eexists. }
  intros R' s5 [-> HR']. apply ewp_bind. eapply ewp_exact; [by apply buckets_run|]. rewrite Hk.
  set (n := Nat.min _ _). assert (HL : take n R' ⊆ R) by (intros x Hx; rewrite <-HR'; by apply (sublist_subseteq _ _ (sublist_take _ _)) in Hx).
  apply ewp_bind. eapply ewp_mono; [eapply (putEvents_run _ _ _ _ _ _ (fun x _ => x = BucketsExhausted)); [apply HP4|exact Hdm4|exact Hk| | |]| |done].
  - eapply (sublist_NoDup _ R'); [|apply sublist_take]. rewrite HR'. apply HP4.
  - auto.
  - rewrite length_take. lia.
  - intros [] s6 HP6. destruct (partial_put _ _ _ _ _ _ _ _ Hready HP4 HP6) as (Hr6 & HF6 & Hlt); [|done| |].
    + eapply bucket_nonneg; [apply HP4|exact Hdm4|exact Hk].
    + intros E%(f_equal length). unfold n in E. rewrite length_take, HR' in E.
      destruct R; [done|]. cbn in E. lia.
    + eapply ewp_mono; [apply IH; [done|]| |done].
      * rewrite (frame_capacity _ _ _ HF6). pose proof (placed_bounded _ (proj1 Hr6)) as Hb.
        rewrite (frame_capacity _ _ _ HF6) in Hb. lia.
      * intros [] s7 (? & ? & ? & ? & ?). split_and!; try done. by etransitivity.
Qed.
End rounds.
