(* ===== verification/BarrierTree.v ===== *)
(** * Allocating the tree of reset domains

    Domains form a tree, given to the lowerer as a table.  A domain is placed
    after the ones above it and before the ones below, so the buckets of a
    subtree have consecutive numbers; [assignRanges] computes the interval
    they span. *)

From S2P Require Import Prelude Rp1Protocol Except BarrierLowering BarrierFacts BarrierInv BarrierRound BarrierDomain.

Implicit Types (s a : BarrierLowerer) (e : BarrierEvent) (id d : string).

(** ** Trees *)

Inductive tree := Node (id : string) (children : list tree).

Definition tree_id (t : tree) : string := let '(Node id _) := t in id.
Definition tree_children (t : tree) : list tree := let '(Node _ ts) := t in ts.

Section tree_ind.
Context (P : tree -> Prop) (HP : forall id ts, Forall P ts -> P (Node id ts)).

Fixpoint tree_induction (t : tree) : P t :=
  let '(Node id ts) := t in
  HP id ts ((fix go ts : Forall P ts :=
    match ts with
    | [] => Forall_nil_2 P
    | t' :: ts' => Forall_cons_2 P t' ts' (tree_induction t') (go ts')
    end) ts).
End tree_ind.

Fixpoint tree_ids (t : tree) : list string := let '(Node id ts) := t in id :: concat (map tree_ids ts).
Definition forest_ids (ts : list tree) : list string := concat (map tree_ids ts).

Fixpoint subtrees (t : tree) : list tree := let '(Node id ts) := t in t :: concat (map subtrees ts).

(** The table that describes a tree. *)
Fixpoint tree_specs (parent : option string) (t : tree) : list BarrierResetDomainSpec :=
  let '(Node id ts) := t in
  {| ds_id := id; ds_parent := parent; ds_children := map tree_id ts |} :: concat (map (tree_specs (Some id)) ts).

(** [T] has the nodes of [t] below [parent]. *)
Inductive tree_in (T : skeleton) : option string -> tree -> Prop :=
  | tree_in_node parent id ts : T !! id = Some (parent, map tree_id ts) ->
      Forall (tree_in T (Some id)) ts -> tree_in T parent (Node id ts).

(** The path from a parent to the root. *)
Inductive up (T : skeleton) : option string -> list string -> Prop :=
  | up_root : up T None []
  | up_step d p cs l : T !! d = Some (p, cs) -> up T p l -> up T (Some d) (d :: l).

Lemma up_above T d p cs l x : T !! d = Some (p, cs) -> up T p l -> above T x d <-> x ∈ l.
Proof.
  intros Hd Hup. revert d cs Hd. induction Hup as [|p p' cs' l Hp Hup IH]; intros d cs Hd.
  - split; [|by intros ?%not_elem_of_nil]. intros Ha. inversion Ha; simplify_eq.
  - rewrite elem_of_cons, <-(IH p cs' Hp). split.
    + intros Ha. inversion Ha; simplify_eq; auto.
    + intros [->|Ha]; [by eapply above_parent|by eapply above_up].
Qed.

Lemma tree_id_in t : tree_id t ∈ tree_ids t.
Proof. destruct t as [id ts]. by left. Qed.

(** ** What a step on several domains leaves alone *)

Record Frames (P : list string) a a' : Prop := {
  fs_const : root_ a' = root_ a /\ bitsPerBucket_ a' = bitsPerBucket_ a /\
    maxBuckets_ a' = maxBuckets_ a /\ skeleton_of a' = skeleton_of a;
  fs_count : allocatedBucketCount_ a <= allocatedBucketCount_ a';
  fs_other id e : ev_domain e ∉ P -> events_ a' !! id = Some e <-> events_ a !! id = Some e;
  fs_domain d : d ∉ P -> domains_ a' !! d = domains_ a !! d;
  fs_keep id : 0 <= bucket_of a id -> bucket_of a' id = bucket_of a id
}.

Lemma frames_refl P a : Frames P a a.
Proof. by split. Qed.

Lemma frames_one d P a a' : d ∈ P -> Frame d a a' -> Frames P a a'.
Proof.
  intros Hd [C N O Dm K _ _]. split; [done|done| | |done].
  - intros id e He. apply O. intros E. by rewrite E in He.
  - intros x Hx. apply Dm. by intros ->.
Qed.

Lemma frames_mono P Q a a' : P ⊆ Q -> Frames P a a' -> Frames Q a a'.
Proof. intros HPQ [C N O Dm K]. split; auto. Qed.

Lemma frames_trans P a1 a2 a3 : Frames P a1 a2 -> Frames P a2 a3 -> Frames P a1 a3.
Proof.
  intros [C1 N1 O1 D1 K1] [C2 N2 O2 D2 K2]. split.
  - destruct C1 as (?&?&?&?), C2 as (?&?&?&?). split_and!; congruence.
  - lia.
  - intros id e Hd. rewrite O2, O1; done.
  - intros x Hd. rewrite D2, D1; done.
  - intros id Hk. rewrite K2, K1; [done|done|]. by rewrite K1.
Qed.

Lemma frames_done P d a a' : d ∉ P -> Frames P a a' -> Done d a -> Done d a'.
Proof.
  intros Hd HF HD id e He Ed. apply (fs_other _ _ _ HF) in He; [|by rewrite Ed].
  destruct (HD id e He Ed) as [Hb Hf]. split; [done|]. eapply fits_mono; [apply HF|done].
Qed.

(** No event of [d] has a bit, and [d] has no bucket. *)
Definition Fresh d a : Prop :=
  (forall id e, events_ a !! id = Some e -> ev_domain e = d -> ev_isPseudo e = false) /\
  forall dm, domains_ a !! d = Some dm -> dm_localBuckets dm = [].

Lemma frames_fresh P d a a' : d ∉ P -> Frames P a a' -> Fresh d a -> Fresh d a'.
Proof.
  intros Hd HF [H1 H2]. split.
  - intros id e He Ed. apply (fs_other _ _ _ HF) in He; [by eapply H1|by rewrite Ed].
  - intros dm. rewrite (fs_domain _ _ _ HF) by done. apply H2.
Qed.

Lemma fresh_mid d a : Wf a -> Fresh d a -> Mid d a.
Proof.
  intros HW [H1 _]. assert (Hnone : forall p ep, events_ a !! p = Some ep -> ~ collector d ep).
  { intros p ep Hp [Hd Hps]. rewrite (H1 p ep Hp Hd) in Hps. done. }
  split; [intros p1 e1 p2 e2 Hp1 Hc; by destruct (Hnone p1 e1 Hp1)|].
  intros id e He Hd _. right. split; [intros x _ _ p ep Hp Hc; by destruct (Hnone p ep Hp)|].
  intros u1 e1 u2 e2 x1 x2 Hu1 _ _ E1 P1 _ _ _ _ _ _. exfalso. destruct (ev_isTransition e) eqn:Ht.
  - destruct (wf_trans _ HW _ _ He Ht) as (_ & y & ey & Ed & Hy & Hs & _). rewrite Ed in Hu1.
    apply list_elem_of_singleton in Hu1 as ->. assert (ey = e1) as -> by congruence.
    unfold synthetic in Hs. by rewrite P1 in Hs.
  - apply (Hnone u1 e1 E1). split; [|done]. rewrite <-Hd. by eapply (wf_local _ HW id e).
Qed.

(** ** The view of a domain *)

Lemma skeleton_lookup s d p cs : skeleton_of s !! d = Some (p, cs) <->
  exists dm, domains_ s !! d = Some dm /\ dm_parent dm = p /\ dm_children dm = cs.
Proof.
  unfold skeleton_of. rewrite lookup_fmap, fmap_Some. split; [intros (dm & ? & [= -> ->])|intros (dm & ? & <- & <-)]; eauto.
Qed.

Lemma ancestors_run p l s fuel :
  up (skeleton_of s) p l -> (length l <= fuel)%nat -> ancestors fuel p s = Ret (Val l) s.
Proof.
  intros Hup. revert fuel. induction Hup as [|d p cs l Hd Hup IH]; intros fuel Hf; [by destruct fuel|].
  destruct fuel as [|fuel]; cbn in Hf; [lia|]. apply skeleton_lookup in Hd as (dm & Hd & <- & _). cbn [ancestors].
  rewrite (bind_exact _ _ _ _ _ (domain_at_run _ _ _ Hd)), (bind_exact _ _ _ _ _ (IH fuel ltac:(lia))). done.
Qed.

Lemma view_run {ub nf : Prop} fuel d l p cs s (k : list string -> LM unit) Q X :
  skeleton_of s !! d = Some (p, cs) -> up (skeleton_of s) p l -> d ∉ l -> (length l <= fuel)%nat ->
  (forall view, view_ok d (abs s) view -> ewp ub nf (k view) s Q X) ->
  ewp ub nf (above ← allocatedAncestorEvents fuel d; local ← domainEvents d; k (above ++ local)) s Q X.
Proof.
  intros Hd Hup Hnot Hf Hk. pose proof Hd as (dm & Hdm & <- & _)%skeleton_lookup.
  set (p1 := fun e => (0 <=? ev_bucket e) && bool_decide (ev_domain e ∈ l)).
  set (p2 := fun e => bool_decide (ev_domain e = d)).
  apply ewp_bind. eapply (ewp_exact _ _ (filter (fun id => test s p1 id = true) (ids (events_ s)))).
  { unfold allocatedAncestorEvents. rewrite (bind_exact _ _ _ _ _ (domain_at_run _ _ _ Hdm)),
      (bind_exact _ _ _ _ _ (ancestors_run _ _ _ _ Hup Hf)).
    rewrite (bind_exact (asks events_) _ _ (events_ s) s) by done.
    apply select_run; [apply known_ids|]. intros out id e He. by rewrite (at_event _ _ _ _ He). }
  apply ewp_bind. eapply (ewp_exact _ _ (filter (fun id => test s p2 id = true) (ids (events_ s)))).
  { unfold domainEvents. rewrite (bind_exact (asks events_) _ _ (events_ s) s) by done.
    apply select_run; [apply known_ids|]. intros out id e He. rewrite (at_event _ _ _ _ He). unfold p2.
    destruct (decide (ev_domain e = d)) as [E|E]; [by rewrite bool_decide_true|by rewrite bool_decide_false]. }
  apply Hk. assert (Ht : forall p id, test s p id = true -> exists e, events_ s !! id = Some e /\ p e = true).
  { intros q id. unfold test. destruct (events_ s !! id); [eauto|done]. }
  split.
  - apply NoDup_app. split_and!; [apply NoDup_filter, ids_nodup| |apply NoDup_filter, ids_nodup].
    intros id [(e & He & [_ H1%bool_decide_eq_true]%andb_true_iff)%Ht _]%list_elem_of_filter
      [(e' & He' & H2%bool_decide_eq_true)%Ht _]%list_elem_of_filter.
    assert (e' = e) as -> by congruence. by rewrite H2 in H1.
  - apply abs_known. intros id [[_ Hid]%list_elem_of_filter|[_ Hid]%list_elem_of_filter]%elem_of_app; by apply ids_elem.
  - intros id e (e0 & He & ->)%abs_inv Hde. apply elem_of_app. right. apply list_elem_of_filter. split.
    + unfold test. rewrite He. by apply bool_decide_eq_true.
    + apply ids_elem. by eexists.
Qed.

(** ** Allocation of a subtree *)

(** The buckets numbered [lo] to [hi - 1] are those of the domains [P]. *)
Definition isolated (P : list string) (lo hi : Z) a : Prop :=
  forall d dm b, domains_ a !! d = Some dm -> b ∈ dm_localBuckets dm -> lo <= bk_id b < hi <-> d ∈ P.

Definition all_isolated (ts : list tree) a : Prop :=
  forall t, t ∈ ts -> exists lo hi, hi <= allocatedBucketCount_ a /\ isolated (tree_ids t) lo hi a.

(** The buckets of [P] are new since [a]. *)
Definition newer (P : list string) a a' : Prop :=
  forall d dm b, d ∈ P -> domains_ a' !! d = Some dm -> b ∈ dm_localBuckets dm -> allocatedBucketCount_ a <= bk_id b.

Lemma bucket_below a d dm b : Wf a -> domains_ a !! d = Some dm -> b ∈ dm_localBuckets dm -> 0 <= bk_id b < allocatedBucketCount_ a.
Proof.
  intros HW Hd Hb. destruct (wf_buckets _ HW _ _ Hd) as [_ Hf]. rewrite Forall_forall in Hf. by destruct (Hf b Hb).
Qed.

Lemma isolated_whole P a a' : Wf a -> Wf a' -> Frames P a a' -> newer P a a' ->
  isolated P (allocatedBucketCount_ a) (allocatedBucketCount_ a') a'.
Proof.
  intros HW HW' HF Hnew d dm b Hd Hb. split.
  - intros [Hlo _]. destruct (decide (d ∈ P)) as [|Hn]; [done|]. rewrite (fs_domain _ _ _ HF) in Hd by done.
    pose proof (bucket_below _ _ _ _ HW Hd Hb). lia.
  - intros HP. split; [by eapply Hnew|]. by eapply bucket_below.
Qed.

Lemma isolated_later P Q lo hi a a' : Frames Q a a' -> newer Q a a' -> (forall d, d ∈ P -> d ∉ Q) ->
  hi <= allocatedBucketCount_ a -> isolated P lo hi a -> isolated P lo hi a'.
Proof.
  intros HF Hnew Hdis Hhi Hiso d dm b Hd Hb. destruct (decide (d ∈ Q)) as [HQ|HQ].
  - specialize (Hnew d dm b HQ Hd Hb). split; [lia|]. intros HP. by destruct (Hdis d HP).
  - rewrite (fs_domain _ _ _ HF) in Hd by done. by eapply Hiso.
Qed.

Section allocation.
Context (bucket_sort : list BarrierBucket -> list BarrierBucket) (Hsort : forall l, bucket_sort l ≡ₚ l).
Context (orig : gmap string (string * list string)) (T : skeleton) (rounds : nat).

(** Before the domains [P] are placed, those in [l] being done. *)
Record TreePre (P l : list string) (D : Z) a : Prop := {
  tp_wf : Wf a;
  tp_meaning : Meaning orig a;
  tp_skeleton : skeleton_of a = T;
  tp_above id e : events_ a !! id = Some e -> ev_domain e ∈ l -> 0 <= ev_bucket e;
  tp_fresh d : d ∈ P -> Fresh d a;
  tp_budget : budget (Z.of_nat (length P) + D) a;
  tp_rounds : (capacity a < rounds)%nat
}.

(** After it. *)
Record TreePost (P : list string) (ts : list tree) (D : Z) a a' : Prop := {
  tq_wf : Wf a';
  tq_meaning : Meaning orig a';
  tq_frames : Frames P a a';
  tq_newer : newer P a a';
  tq_done d : d ∈ P -> Done d a';
  tq_isolated : all_isolated ts a';
  tq_budget : budget D a'
}.

Lemma pre_left P1 P2 l D a : TreePre (P1 ++ P2) l D a -> TreePre P1 l (Z.of_nat (length P2) + D) a.
Proof.
  intros []. split; try done.
  - intros d Hd. apply tp_fresh0, elem_of_app. by left.
  - rewrite length_app, Nat2Z.inj_add in tp_budget0. by rewrite Z.add_assoc.
Qed.

Lemma pre_right P1 P2 ts l l' D a a' :
  TreePre (P1 ++ P2) l D a -> TreePost P1 ts (Z.of_nat (length P2) + D) a a' ->
  (forall d, d ∈ P2 -> d ∉ P1) -> l' ⊆ l ++ P1 -> TreePre P2 l' D a'.
Proof.
  intros [] [] Hdis Hl. destruct (fs_const _ _ _ tq_frames0) as (_ & Eb & Em & Esk). split; try done.
  - congruence.
  - intros id e He Hd. destruct (decide (ev_domain e ∈ P1)) as [Hp|Hn]; [by eapply (tq_done0 (ev_domain e) Hp id)|].
    apply (fs_other _ _ _ tq_frames0) in He; [|done]. apply (tp_above0 _ _ He).
    apply Hl, elem_of_app in Hd as [|]; done.
  - intros d Hd. eapply frames_fresh; [by apply Hdis|done|]. apply tp_fresh0, elem_of_app. by right.
  - unfold capacity in *. by rewrite Eb, Em.
Qed.

Lemma post_app P1 P2 ts1 ts2 D D' a a1 a2 :
  TreePost P1 ts1 D' a a1 -> TreePost P2 ts2 D a1 a2 -> (forall d, d ∈ P1 -> d ∉ P2) ->
  (forall t, t ∈ ts1 -> tree_ids t ⊆ P1) -> TreePost (P1 ++ P2) (ts1 ++ ts2) D a a2.
Proof.
  intros [W1 M1 F1 N1 D1 I1 _] [W2 M2 F2 N2 D2 I2 B2] Hdis Hsub. split; try done.
  - apply (frames_trans _ _ a1); [apply (frames_mono P1)|apply (frames_mono P2)]; try done; intros x Hx; apply elem_of_app; auto.
  - intros d dm b [Hd|Hd]%elem_of_app Hdm Hb.
    + rewrite (fs_domain _ _ _ F2) in Hdm by auto. by eapply N1.
    + pose proof (fs_count _ _ _ F1). specialize (N2 d dm b Hd Hdm Hb). lia.
  - intros d [Hd|Hd]%elem_of_app; [|auto]. eapply frames_done; [by apply Hdis|done|auto].
  - intros t [Ht|Ht]%elem_of_app; [|auto]. destruct (I1 t Ht) as (lo & hi & Hhi & Hiso). exists lo, hi.
    pose proof (fs_count _ _ _ F2). split; [lia|]. eapply isolated_later; try done.
    intros d Hd. by apply Hdis, (Hsub t).
Qed.

Lemma post_root P ts D t a a' : Wf a -> TreePost P ts D a a' -> tree_ids t = P -> TreePost P (t :: ts) D a a'.
Proof.
  intros HW HP <-. pose proof HP as []. split; try done. intros t' [->|Ht]%elem_of_cons; [|auto].
  eexists _, _. split; [reflexivity|]. by apply (isolated_whole _ a).
Qed.

Lemma post_nothing D a : Wf a -> Meaning orig a -> budget D a -> TreePost [] [] D a a.
Proof. intros. split; try done; [by intros d dm b ?%not_elem_of_nil|by intros d ?%not_elem_of_nil|by intros t ?%not_elem_of_nil]. Qed.

Lemma domain_post d l p cs D view a a' :
  TreePre [d] l D a -> T !! d = Some (p, cs) -> up T p l -> d ∉ l -> 0 <= D -> view_ok d a view ->
  ready_to_allocate d orig D a view /\ (Allocated d orig D a a' -> TreePost [d] [] D a a').
Proof.
  intros [] Hd Hup Hnot HD HV. split.
  - unfold ready_to_allocate. pose proof (tp_fresh0 d ltac:(by left)) as Hf. split_and!; try done.
    + by apply fresh_mid.
    + unfold settled. rewrite tp_skeleton0. split; [by rewrite (up_above T d p cs l)|].
      intros id e He Ha. apply (tp_above0 id e He). by rewrite (up_above T d p cs l) in Ha.
    + rewrite <-tp_skeleton0 in Hd. apply skeleton_lookup in Hd as (dm & Hd & _). by eexists.
    + by rewrite Z.add_comm in tp_budget0.
  - intros (HW & HM & HF & HDone & HB). split; try done.
    + eapply frames_one; [by left|done].
    + intros d' dm b ->%list_elem_of_singleton Hdm Hb. rewrite <-tp_skeleton0 in Hd.
      apply skeleton_lookup in Hd as (dm0 & Hd & _). destruct (fr_new _ _ _ HF _ _ _ Hd Hdm Hb) as [Hin|]; [|done].
      destruct (tp_fresh0 d ltac:(by left)) as [_ Hnone]. rewrite (Hnone _ Hd) in Hin. by apply not_elem_of_nil in Hin.
    + by intros d' ->%list_elem_of_singleton.
    + by intros t ?%not_elem_of_nil.
Qed.

Abbreviation exhausted := (fun (x : lowering_exn) (_ : BarrierLowerer) => x = BucketsExhausted).

Definition places {ub nf : Prop} (t : tree) : Prop :=
  forall fuel l p D s, tree_in T p t -> up T p l -> NoDup (tree_ids t) -> (forall x, x ∈ l -> x ∉ tree_ids t) ->
    (length l + 2 * length (tree_ids t) <= fuel)%nat -> 0 <= D -> TreePre (tree_ids t) l D (abs s) ->
    ewp ub nf (allocateDomainTree bucket_sort rounds fuel (tree_id t)) s
      (fun _ s' => TreePost (tree_ids t) (subtrees t) D (abs s) (abs s')) exhausted.

Lemma subtrees_ids t : forall t', t' ∈ subtrees t -> tree_ids t' ⊆ tree_ids t.
Proof.
  induction t as [id ts IH] using tree_induction. intros t' [->|(l & Hl & Ht')%list_elem_of_In%in_concat]%elem_of_cons; [done|].
  apply in_map_iff in Hl as (c & <- & Hc). rewrite Forall_forall in IH.
  intros x Hx%(IH c ltac:(by apply list_elem_of_In) t' ltac:(by apply list_elem_of_In)). right.
  apply list_elem_of_In, in_concat. exists (tree_ids c). split; [by apply in_map|by apply list_elem_of_In].
Qed.

Lemma forest_run {ub nf : Prop} ts : Forall (@places ub nf) ts -> forall fuel l p D s,
  Forall (tree_in T p) ts -> up T p l -> NoDup (forest_ids ts) -> (forall x, x ∈ l -> x ∉ forest_ids ts) ->
  (length l + 2 * length (forest_ids ts) <= fuel)%nat -> 0 <= D -> TreePre (forest_ids ts) l D (abs s) ->
  ewp ub nf (each (map tree_id ts) (allocateDomainTree bucket_sort rounds fuel)) s
    (fun _ s' => TreePost (forest_ids ts) (concat (map subtrees ts)) D (abs s) (abs s')) exhausted.
Proof.
  induction 1 as [|t ts Ht _ IH]; intros fuel l p D s Hin Hup Hnd Hl Hf HD Hpre.
  { apply ewp_ret. apply post_nothing; apply Hpre. }
  unfold forest_ids in *. cbn [map concat each] in *. apply Forall_cons in Hin as [Hin1 Hin2].
  apply NoDup_app in Hnd as (Hnd1 & Hdis & Hnd2). rewrite length_app in Hf.
  apply ewp_bind. eapply ewp_mono; [apply (Ht fuel l p (Z.of_nat (length (concat (map tree_ids ts))) + D)); try done|..]; [|lia|lia|by apply pre_left| |done].
  - intros x Hx Hx'. apply (Hl x Hx), elem_of_app. by left.
  - intros [] s1 Hpost. assert (Hdis' : forall d, d ∈ concat (map tree_ids ts) -> d ∉ tree_ids t).
    { intros d Hd Hd'. by apply (Hdis d). }
    assert (Hpre2 : TreePre (concat (map tree_ids ts)) l D (abs s1)).
    { eapply pre_right; try done. intros x Hx. apply elem_of_app. by left. }
    eapply ewp_mono; [eapply (IH fuel l p); try done|..]; [|lia| |done].
    + intros x Hx Hx'. apply (Hl x Hx), elem_of_app. by right.
    + intros [] s2 Hpost2. eapply post_app; try done. apply subtrees_ids.
Qed.

Lemma tree_run {ub nf : Prop} t : @places ub nf t.
Proof using Hsort.
  induction t as [d ts IH] using tree_induction. intros fuel l p D s Hin Hup Hnd Hl Hf HD Hpre.
  inversion Hin as [? ? ? Hd Hts]; subst. cbn [tree_ids tree_id subtrees] in *. change (concat (map tree_ids ts)) with (forest_ids ts) in *.
  apply NoDup_cons in Hnd as [Hd' Hnd]. change (d :: forest_ids ts) with ([d] ++ forest_ids ts) in *.
  destruct fuel as [|fuel]; [cbn in Hf; lia|]. cbn [allocateDomainTree]. cbn [length app] in Hf.
  assert (Hdl : d ∉ l) by (intros Hx; apply (Hl d Hx); by left).
  pose proof (tp_skeleton _ _ _ _ Hpre) as Esk. change (skeleton_of s = T) in Esk.
  eapply (view_run _ d l p _ s (fun view => allocateEventsInDomain bucket_sort rounds d view;;
    dm ← domain_at d; each (dm_children dm) (allocateDomainTree bucket_sort rounds fuel))); [by rewrite Esk|by rewrite Esk|done|lia|]. intros view HV.
  pose proof (pre_left _ _ _ _ _ Hpre) as Hpre1.
  apply ewp_bind. eapply ewp_mono; [apply (allocate_run bucket_sort Hsort d orig (Z.of_nat (length (forest_ids ts)) + D) ltac:(lia) _ view)| |done].
  - eapply (domain_post d l); try done. lia.
  - pose proof (tp_rounds _ _ _ _ Hpre). lia.
  - intros [] s1 HA. assert (Hpost : TreePost [d] [] (Z.of_nat (length (forest_ids ts)) + D) (abs s) (abs s1))
      by (eapply (domain_post d l); try done; lia).
    assert (Hfor : forall x, x ∈ forest_ids ts -> x ∉ [d]) by (by intros x Hx ->%list_elem_of_singleton).
    assert (Hpre2 : TreePre (forest_ids ts) (d :: l) D (abs s1)).
    { eapply (pre_right [d]); try done. intros x [->|Hx]%elem_of_cons; apply elem_of_app; [right; by left|by left]. }
    pose proof (tp_skeleton _ _ _ _ Hpre2) as Esk1. change (skeleton_of s1 = T) in Esk1.
    pose proof Hd as Hd1. rewrite <-Esk1 in Hd1. apply skeleton_lookup in Hd1 as (dm & Hdm & _ & Hch).
    apply ewp_bind. eapply ewp_exact; [by apply domain_at_run|]. rewrite Hch.
    eapply ewp_mono; [eapply (forest_run ts IH fuel (d :: l) (Some d)); try done|..]; [by eapply up_step| |cbn; lia| |done].
    + intros x [->|Hx]%elem_of_cons; [done|]. intros Hx'. apply (Hl x Hx). by right.
    + intros [] s2 Hpost2. apply post_root; [apply Hpre| |done].
      eapply (post_app [d] _ []); try done; [|by intros t ?%not_elem_of_nil].
      intros x ->%list_elem_of_singleton. done.
Qed.
End allocation.

(** ** Ranges *)

(** [r] is the smallest interval around the numbers in [P]. *)
Definition hull (r : BarrierBucketRange) (P : Z -> Prop) : Prop :=
  if rg_empty r then forall z, ~ P z
  else P (rg_start r) /\ P (rg_end r) /\ forall z, P z -> rg_start r <= z <= rg_end r.

Lemma hull_ext r (P Q : Z -> Prop) : (forall z, P z <-> Q z) -> hull r P -> hull r Q.
Proof.
  intros E. unfold hull. destruct (rg_empty r); [by intros Hn z ?%E; destruct (Hn z)|].
  rewrite !E. intros (? & ? & Hall). split_and!; [done..|]. intros z Hz%E. auto.
Qed.

Lemma hull_join r r' (P Q : Z -> Prop) :
  hull r P -> hull r' Q -> rg_empty r' = false -> hull (join_range r r') (fun z => P z \/ Q z).
Proof.
  unfold hull, join_range. intros Hr Hr' He. rewrite He in Hr'. destruct Hr' as (Hs' & He' & Hall').
  destruct (rg_empty r) eqn:Er.
  - rewrite He. split_and!; [by right..|]. intros z [Hz|Hz]; [by destruct (Hr z)|auto].
  - destruct Hr as (Hs & Hee & Hall). cbn. split_and!.
    + destruct (Z.min_spec (rg_start r) (rg_start r')) as [[_ ->]|[_ ->]]; auto.
    + destruct (Z.max_spec (rg_end r) (rg_end r')) as [[_ ->]|[_ ->]]; auto.
    + intros z [Hz%Hall|Hz%Hall']; lia.
Qed.

Lemma hull_skip r r' (P Q : Z -> Prop) :
  hull r P -> hull r' Q -> rg_empty r' = true -> hull r (fun z => P z \/ Q z).
Proof.
  intros Hr Hr' He. unfold hull in Hr'. rewrite He in Hr'. eapply hull_ext; [|exact Hr]. intros z. split; [by left|].
  intros [?|Hz]; [done|by destruct (Hr' z)].
Qed.

Lemma hull_own bs : forall r P, hull r P ->
  hull (foldl (fun range b => join_range range (bucket_range b)) r bs) (fun z => P z \/ z ∈ bk_id <$> bs).
Proof.
  induction bs as [|b bs IH]; intros r P Hr; cbn [foldl].
  - eapply hull_ext; [|exact Hr]. intros z. split; [by left|]. by intros [?|?%not_elem_of_nil].
  - eapply hull_ext; [|apply IH, (hull_join r (bucket_range b) P (fun z => z = bk_id b))]; [|done| |done].
    + intros z. cbn [fmap list_fmap]. rewrite elem_of_cons. tauto.
    + split_and!; [done..|]. intros z ->. cbn. lia.
Qed.

(** A bucket of one of the domains [P] has number [z]. *)
Definition bucket_in a (P : list string) (z : Z) : Prop :=
  exists d dm b, d ∈ P /\ domains_ a !! d = Some dm /\ b ∈ dm_localBuckets dm /\ bk_id b = z.

(** Only the ranges of the domains [P] differ. *)
Definition Ranged (P : list string) s s' : Prop :=
  s' = set_domains (domains_ s') s /\
  (forall d, exists r, domains_ s' !! d = with_range r <$> domains_ s !! d) /\
  forall d, d ∉ P -> domains_ s' !! d = domains_ s !! d.

Definition range_of s d : BarrierBucketRange :=
  match domains_ s !! d with Some dm => dm_range dm | None => no_range end.

Lemma ranged_refl P s : Ranged P s s.
Proof.
  split_and!; [by destruct s| |done]. intros d. exists (range_of s d). unfold range_of.
  destruct (domains_ s !! d) as [[]|]; done.
Qed.

Lemma ranged_trans P s1 s2 s3 : Ranged P s1 s2 -> Ranged P s2 s3 -> Ranged P s1 s3.
Proof.
  intros (E1 & R1 & O1) (E2 & R2 & O2). split_and!.
  - rewrite E2, E1. done.
  - intros d. destruct (R1 d) as [r1 H1], (R2 d) as [r2 H2]. exists r2. rewrite H2, H1. by destruct (domains_ s1 !! d).
  - intros d Hd. by rewrite O2, O1.
Qed.

Lemma ranged_mono P Q s s' : P ⊆ Q -> Ranged P s s' -> Ranged Q s s'.
Proof. intros HPQ (E & R & O). split_and!; try done. auto. Qed.

Lemma ranged_buckets P Q s s' z : Ranged P s s' -> bucket_in s' Q z <-> bucket_in s Q z.
Proof.
  intros (_ & R & _). split; intros (d & dm & b & Hd & Hdm & Hb & Ez); destruct (R d) as [r E].
  - rewrite E in Hdm. apply fmap_Some in Hdm as (dm0 & Hdm & ->). exists d, dm0, b. done.
  - exists d, (with_range r dm), b. rewrite E, Hdm. done.
Qed.

Lemma ranged_skeleton P s s' : Ranged P s s' -> skeleton_of s' = skeleton_of s.
Proof.
  intros (_ & R & _). apply map_eq. intros d. unfold skeleton_of. rewrite !lookup_fmap. destruct (R d) as [r ->].
  by destruct (domains_ s !! d).
Qed.

Lemma ranged_range P s s' d : Ranged P s s' -> d ∉ P -> range_of s' d = range_of s d.
Proof. intros (_ & _ & O) Hd. unfold range_of. by rewrite O. Qed.

(** Every subtree of [ts] has its range. *)
Definition ranges_ok s0 (ts : list tree) s : Prop :=
  forall t, t ∈ ts -> hull (range_of s (tree_id t)) (bucket_in s0 (tree_ids t)).

Definition ranges_tree {ub nf : Prop} (t : tree) : Prop :=
  forall fuel p s, tree_in (skeleton_of s) p t -> NoDup (tree_ids t) -> (length (tree_ids t) <= fuel)%nat ->
    ewp ub nf (assignRanges fuel (tree_id t)) s (fun r s' =>
      Ranged (tree_ids t) s s' /\ hull r (bucket_in s (tree_ids t)) /\ ranges_ok s (subtrees t) s')
      (fun _ _ => False).

Lemma ranges_forest {ub nf : Prop} ts : Forall (@ranges_tree ub nf) ts -> forall fuel p s r P,
  Forall (tree_in (skeleton_of s) p) ts -> NoDup (forest_ids ts) -> (length (forest_ids ts) <= fuel)%nat ->
  hull r P ->
  ewp ub nf (loop (fun range child => childRange ← assignRanges fuel child;
      mret (if rg_empty childRange then range else join_range range childRange)) r (map tree_id ts)) s
    (fun r' s' => Ranged (forest_ids ts) s s' /\ hull r' (fun z => P z \/ bucket_in s (forest_ids ts) z) /\
      ranges_ok s (concat (map subtrees ts)) s') (fun _ _ => False).
Proof.
  induction 1 as [|t ts Ht _ IH]; intros fuel p s r P Hin Hnd Hf Hr; unfold forest_ids in *; cbn [map concat loop] in *.
  { apply ewp_ret. split_and!; [apply ranged_refl| |by intros t ?%not_elem_of_nil].
    eapply hull_ext; [|exact Hr]. intros z. split; [by left|]. intros [?|(d & _ & _ & Hd & _)]; [done|].
    by apply not_elem_of_nil in Hd. }
  apply Forall_cons in Hin as [Hin1 Hin2]. apply NoDup_app in Hnd as (Hnd1 & Hdis & Hnd2). rewrite length_app in Hf.
  apply ewp_bind, ewp_bind. eapply ewp_mono; [apply (Ht fuel p); [done..|lia]| |done].
  intros rt s1 (HR1 & Hrt & Hok1). apply ewp_ret.
  eapply ewp_mono; [apply (IH fuel p s1 _ (fun z => P z \/ bucket_in s (tree_ids t) z)); [|done|lia|]| |done].
  - by rewrite (ranged_skeleton _ _ _ HR1).
  - destruct (rg_empty rt) eqn:Er; [by eapply hull_skip|by apply hull_join].
  - intros r' s2 (HR2 & Hr' & Hok2). split_and!.
    + apply (ranged_trans _ _ s1); [apply (ranged_mono (tree_ids t))|apply (ranged_mono (concat (map tree_ids ts)))]; try done;
        intros x Hx; apply elem_of_app; auto.
    + eapply hull_ext; [|exact Hr']. intros z. cbn beta. rewrite (ranged_buckets _ _ _ _ _ HR1). unfold bucket_in.
      setoid_rewrite elem_of_app. naive_solver.
    + intros t' [Ht'|Ht']%elem_of_app.
      * rewrite (ranged_range _ _ _ _ HR2); [auto|]. apply Hdis, (subtrees_ids t t' Ht'), tree_id_in.
      * eapply hull_ext; [|by apply (Hok2 t')]. intros z. by apply ranged_buckets with (P := tree_ids t).
Qed.

Lemma ranges_run {ub nf : Prop} t : @ranges_tree ub nf t.
Proof.
  induction t as [d ts IH] using tree_induction. intros fuel p s Hin Hnd Hf.
  inversion Hin as [? ? ? Hd Hts]; subst. cbn [tree_ids tree_id subtrees] in *. apply NoDup_cons in Hnd as [Hd' Hnd].
  change (concat (map tree_ids ts)) with (forest_ids ts) in *.
  destruct fuel as [|fuel]; cbn [length] in Hf; [lia|]. apply skeleton_lookup in Hd as (dm & Hdm & _ & Hch). cbn [assignRanges].
  apply ewp_bind. eapply ewp_exact; [by apply domain_at_run|]. rewrite Hch. apply ewp_bind.
  eapply ewp_mono; [apply (ranges_forest ts IH fuel (Some d) s _ (fun z => False \/ z ∈ bk_id <$> dm_localBuckets dm));
    [done|done|lia|by apply hull_own; intros z []]| |done].
  intros r s1 (HR1 & Hr & Hok). apply ewp_bind, ewp_updates, ewp_ret.
  assert (Hdm1 : domains_ s1 !! d = Some dm) by (destruct HR1 as (_ & _ & ->); done).
  set (s2 := set_domains _ s1). assert (HR2 : Ranged [d] s1 s2).
  { split_and!; [done| |].
    - intros x. cbn. destruct (decide (x = d)) as [->|Hne]; [exists r; by rewrite lookup_alter_eq|].
      rewrite lookup_alter_ne by done. destruct (ranged_refl [] s1) as (_ & Hx & _). apply Hx.
    - intros x Hx. cbn. apply lookup_alter_ne. intros ->. apply Hx. by left. }
  assert (Hhull : hull r (bucket_in s (d :: forest_ids ts))).
  { eapply hull_ext; [|exact Hr]. intros z. cbn beta. split.
    - intros [[[]|(b & -> & Hb)%list_elem_of_fmap]|(x & dx & b & Hx & ?)].
      + exists d, dm, b. split; [by left|done].
      + exists x, dx, b. split; [by right|done].
    - intros (x & dx & b & [->|Hx]%elem_of_cons & Hdx & Hb & Ez); [left; right|right; by exists x, dx, b].
      assert (dx = dm) as -> by congruence. rewrite <-Ez. by apply list_elem_of_fmap_2. }
  split_and!; [|done|].
  - apply (ranged_trans _ _ s1); [apply (ranged_mono (forest_ids ts))|apply (ranged_mono [d])]; try done; intros x Hx; [by right|].
    apply list_elem_of_singleton in Hx as ->. by left.
  - intros t' [->|Ht']%elem_of_cons.
    + unfold range_of. cbn [s2 domains_ set_domains tree_id tree_ids]. by rewrite lookup_alter_eq, Hdm1.
    + rewrite (ranged_range _ _ _ _ HR2); [by apply Hok|]. intros E%list_elem_of_singleton. apply Hd'. rewrite <-E.
      apply list_elem_of_In, in_concat in Ht' as (l & (c & <- & Hc)%in_map_iff & Ht').
      apply list_elem_of_In, in_concat. exists (tree_ids c). split; [by apply in_map|].
      apply list_elem_of_In, (subtrees_ids c t'); [by apply list_elem_of_In|apply tree_id_in].
Qed.
