(* ===== verification/BarrierInput.v ===== *)
(** * From the input to the first invariant

    The constructor's tables, the check of the dependencies against the domain
    tree, and the transitions that [insertTransitions] puts between domains. *)

From S2P Require Import Prelude Rp1Protocol Except BarrierLowering BarrierFacts BarrierInv BarrierRound BarrierDomain BarrierTree.

Implicit Types (s a : BarrierLowerer) (e : BarrierEvent) (id d : string) (input : BarrierLoweringInput).

(** ** Construction *)

Definition spec_domain (p : BarrierResetDomainSpec) : BarrierDomain := {|
  dm_id := ds_id p; dm_parent := ds_parent p; dm_children := ds_children p;
  dm_localBuckets := []; dm_range := no_range |}.

Definition spec_event (p : BarrierEventSpec) : BarrierEvent :=
  new_event (es_id p) (es_domain p) (es_depends p) false false.

(** The lowerer holds the tables [domains] and [events] of the input. *)
Record Built input (domains : list BarrierResetDomainSpec) (events : list BarrierEventSpec) s : Prop := {
  bt_same : s = set_events (events_ s) (set_domains (domains_ s) (initial input));
  bt_domains x dm : domains_ s !! x = Some dm <-> exists p, p ∈ domains /\ ds_id p = x /\ dm = spec_domain p;
  bt_events x e : events_ s !! x = Some e <-> exists p, p ∈ events /\ es_id p = x /\ e = spec_event p
}.

Lemma built_domain input ds (d : BarrierResetDomainSpec) s :
  Built input ds [] s -> ds_id d ∉ ds_id <$> ds ->
  Built input (ds ++ [d]) [] (set_domains (emplace (ds_id d) (spec_domain d) (domains_ s)) s).
Proof.
  intros [Es Hd He] Hnew. assert (Hnone : domains_ s !! ds_id d = None).
  { apply eq_None_not_Some. intros (dm & (d' & Hin & Ed & _)%Hd). apply Hnew. rewrite <-Ed. by apply list_elem_of_fmap_2. }
  unfold emplace. rewrite Hnone. split; [by rewrite Es| |done]. intros x dm. cbn [domains_ set_domains].
  rewrite lookup_insert_Some, Hd. setoid_rewrite elem_of_app. setoid_rewrite list_elem_of_singleton. split.
  - intros [[<- <-]|[Hne (d' & Hin & E)]]; [exists d; auto|exists d'; auto].
  - intros (d' & [Hin| ->] & <- & ->); [right|by left]. split; [|by exists d'].
    intros E. apply Hnew. rewrite E. by apply list_elem_of_fmap_2.
Qed.

Lemma built_event input ds es p s :
  Built input ds es s -> es_id p ∉ es_id <$> es ->
  Built input ds (es ++ [p]) (set_events (<[es_id p := spec_event p]> (events_ s)) s).
Proof.
  intros [Es Hd He] Hnew. split; [by rewrite Es|done|]. intros x e. cbn [events_ set_events].
  rewrite lookup_insert_Some, He. setoid_rewrite elem_of_app. setoid_rewrite list_elem_of_singleton. split.
  - intros [[<- <-]|[Hne (d' & Hin & E)]]; [exists p; auto|exists d'; auto].
  - intros (d' & [Hin| ->] & <- & ->); [right|by left]. split; [|by exists d'].
    intros E. apply Hnew. rewrite E. by apply list_elem_of_fmap_2.
Qed.

(** What the constructor accepts. *)
Record accepted input : Prop := {
  ac_bits : 1 <= bitsPerBucket input <= 31;
  ac_buckets : 1 <= maxBuckets input <= RP1_MAX_BUCKETS;
  ac_root : rootDomain input ∈ ds_id <$> in_domains input;
  ac_domains p : p ∈ in_events input -> es_domain p ∈ ds_id <$> in_domains input;
  ac_events : NoDup (es_id <$> in_events input)
}.

Lemma built_known input ds es s x : Built input ds es s -> x ∈ ds_id <$> ds -> is_Some (domains_ s !! x).
Proof. intros HB (d & -> & Hd)%list_elem_of_fmap. exists (spec_domain d). apply (bt_domains _ _ _ _ HB). by exists d. Qed.

Lemma construct_run {ub nf : Prop} input :
  accepted input -> NoDup (ds_id <$> in_domains input) ->
  ewp ub nf (construct input) (initial input)
    (fun _ s => Built input (in_domains input) (in_events input) s) (fun _ _ => False).
Proof.
  intros [Hb Hm Hroot Hdom Hev] Hnd. unfold construct.
  apply ewp_bind, ewp_asks, ewp_bind, ewp_throw_if; cbn [bitsPerBucket_ initial]; [intros ?; lia|intros _].
  apply ewp_bind, ewp_asks, ewp_bind, ewp_throw_if; cbn [maxBuckets_ initial]; [intros ?; lia|intros _].
  apply ewp_bind. eapply ewp_mono;
    [apply (ewp_each _ (fun l s => exists old, in_domains input = old ++ l /\ Built input old [] s) (fun _ _ => False))| |done].
  - exists []. split; [done|]. split; [done|..]; intros x y; cbn; split; try done; by intros (? & ?%not_elem_of_nil & _).
  - intros d l s _ (old & El & HB). apply ewp_updates. exists (old ++ [d]). split; [by rewrite <-(assoc_L app)|].
    apply built_domain; [done|]. rewrite El, fmap_app in Hnd. apply NoDup_app in Hnd as (_ & Hnd & _).
    intros Hin. apply (Hnd _ Hin). by left.
  - intros [] s1 (old & El & HB). rewrite app_nil_r in El. subst old.
    apply ewp_bind, ewp_asks, ewp_bind, ewp_asks, ewp_bind, ewp_throw_if.
    { intros Hn%bool_decide_eq_true. rewrite (bt_same _ _ _ _ HB) in Hn. cbn in Hn.
      destruct (built_known _ _ _ _ _ HB Hroot). congruence. }
    intros _. eapply ewp_mono; [apply (ewp_each _ (fun l s => exists old, in_events input = old ++ l /\
      Built input (in_domains input) old s) (fun _ _ => False))| |done]; [by exists []| |].
    + intros p l s _ (old & El & HB'). unfold add_event.
      assert (Hp : p ∈ in_events input) by (rewrite El; apply elem_of_app; right; by left).
      apply ewp_bind, ewp_asks, ewp_bind, ewp_throw_if.
      { intros Hn%bool_decide_eq_true. destruct (built_known _ _ _ _ _ HB' (Hdom p Hp)). congruence. }
      intros _. assert (Hnew : es_id p ∉ es_id <$> old).
      { rewrite El, fmap_app in Hev. apply NoDup_app in Hev as (_ & Hev & _). intros Hin. apply (Hev _ Hin). by left. }
      apply ewp_bind, ewp_asks, ewp_bind, ewp_throw_if.
      { intros [e (q & Hq & Eq & _)%(bt_events _ _ _ _ HB')]%bool_decide_eq_true. apply Hnew. rewrite <-Eq.
        by apply list_elem_of_fmap_2. }
      intros _. apply ewp_updates. exists (old ++ [p]). split; [by rewrite <-(assoc_L app)|]. by apply built_event.
    + intros [] s2 (old & El & HB2). rewrite app_nil_r in El. by subst old.
Qed.

(** ** The tree in the table *)

Lemma specs_ids t : forall p, ds_id <$> tree_specs p t = tree_ids t.
Proof.
  induction t as [id ts IH] using tree_induction. intros p. cbn [tree_specs tree_ids fmap list_fmap ds_id]. f_equal.
  induction IH as [|t ts Ht _ IHts]; [done|]. cbn [map concat]. by rewrite fmap_app, Ht, IHts.
Qed.

Lemma specs_in (T : skeleton) t : forall p,
  (forall q, q ∈ tree_specs p t -> T !! ds_id q = Some (ds_parent q, ds_children q)) -> tree_in T p t.
Proof.
  induction t as [id ts IH] using tree_induction. intros p Hall. constructor.
  - apply (Hall {| ds_id := id; ds_parent := p; ds_children := map tree_id ts |}). by left.
  - assert (Hts : forall q, q ∈ concat (map (tree_specs (Some id)) ts) -> T !! ds_id q = Some (ds_parent q, ds_children q)).
    { intros q Hq. apply Hall. by right. }
    clear Hall. induction IH as [|t ts Ht _ IHts]; constructor.
    + apply Ht. intros q Hq. apply Hts. cbn. apply elem_of_app. by left.
    + apply IHts. intros q Hq. apply Hts. cbn. apply elem_of_app. by right.
Qed.

(** Every domain of a tree has a path to the root. *)
Lemma tree_up T t : forall p l d, tree_in T p t -> up T p l -> d ∈ tree_ids t ->
  exists p' cs l', T !! d = Some (p', cs) /\ up T p' l' /\ (length l' < length l + length (tree_ids t))%nat.
Proof.
  induction t as [id ts IH] using tree_induction. intros p l d Hin Hup Hd.
  inversion Hin as [? ? ? Hid Hts]; subst. cbn [tree_ids] in *. apply elem_of_cons in Hd as [->|Hd].
  { exists p, (map tree_id ts), l. split_and!; [done|done|]. cbn. lia. }
  assert (Hup' : up T (Some id) (id :: l)) by (by eapply up_step). clear Hin Hid.
  induction IH as [|t ts Ht _ IHts]; cbn [map concat] in *; [by apply not_elem_of_nil in Hd|].
  apply Forall_cons in Hts as [Ht1 Hts1]. cbn [length]. rewrite length_app. apply elem_of_app in Hd as [Hd|Hd].
  - destruct (Ht (Some id) (id :: l) d Ht1 Hup' Hd) as (p' & cs & l' & ? & ? & Hlen). cbn in Hlen.
    exists p', cs, l'. split_and!; [done|done|lia].
  - destruct (IHts Hd Hts1) as (p' & cs & l' & ? & ? & Hlen). cbn in Hlen.
    exists p', cs, l'. split_and!; [done|done|lia].
Qed.

(** ** Dependencies against the tree *)

Lemma walk_up_run fuel x p l s :
  up (skeleton_of s) p l -> (length l <= fuel)%nat -> walk_up fuel x p s = Ret (Val (bool_decide (x ∈ l))) s.
Proof.
  intros Hup. revert fuel. induction Hup as [|d p cs l Hd Hup IH]; intros fuel Hf; [by destruct fuel|].
  destruct fuel as [|fuel]; cbn in Hf; [lia|]. apply skeleton_lookup in Hd as (dm & Hd & <- & _). cbn [walk_up].
  destruct (decide (d = x)) as [->|Hne]; [rewrite bool_decide_true by (by left); done|].
  rewrite (bind_exact _ _ _ _ _ (domain_at_run _ _ _ Hd)), (IH fuel) by lia.
  do 2 f_equal. apply bool_decide_ext. rewrite elem_of_cons. naive_solver.
Qed.

Lemma isAncestor_run fuel x d p cs l s :
  skeleton_of s !! d = Some (p, cs) -> up (skeleton_of s) p l -> (length l <= fuel)%nat ->
  isAncestor fuel x d s = Ret (Val (bool_decide (x ∈ l))) s.
Proof.
  intros Hd Hup Hf. pose proof Hd as (dm & Hdm & <- & _)%skeleton_lookup. unfold isAncestor.
  rewrite (bind_exact _ _ _ _ _ (domain_at_run _ _ _ Hdm)). by apply walk_up_run.
Qed.

(** What an event may wait for: an event of its own domain or of one above. *)
Definition edge_ok s e (dep : string) : Prop :=
  exists e', events_ s !! dep = Some e' /\
    (ev_domain e' = ev_domain e \/ above (skeleton_of s) (ev_domain e') (ev_domain e)).

Definition edges_ok s : Prop :=
  forall id e dep, events_ s !! id = Some e -> dep ∈ ev_depends e -> edge_ok s e dep.

(** The exception that a bad dependency causes. *)
Definition bad_edge s (x : lowering_exn) : Prop :=
  exists id e dep, events_ s !! id = Some e /\ dep ∈ ev_depends e /\ ~ edge_ok s e dep /\
    x = match events_ s !! dep with None => UnknownEvent | Some _ => EscapesDomain end.

Lemma validate_edge_run {ub nf : Prop} fuel t s e dep :
  tree_in (skeleton_of s) None t -> (length (tree_ids t) <= fuel)%nat -> ev_domain e ∈ tree_ids t ->
  ewp ub nf (validate_edge fuel e dep) s (fun _ s' => s' = s /\ edge_ok s e dep) (fun x s' => s' = s /\ ~ edge_ok s e dep /\
    x = match events_ s !! dep with None => UnknownEvent | Some _ => EscapesDomain end).
Proof.
  intros Ht Hf Hdom. destruct (tree_up _ _ None [] _ Ht (up_root _) Hdom) as (p & cs & l' & Hd & Hup & Hlen).
  cbn [length Nat.add] in Hlen. unfold validate_edge. apply ewp_bind, ewp_asks.
  destruct (events_ s !! dep) as [e'|] eqn:He'.
  - assert (Hiff : edge_ok s e dep <-> ev_domain e' = ev_domain e \/ ev_domain e' ∈ l').
    { unfold edge_ok. rewrite He'. setoid_rewrite (up_above _ _ _ _ _ _ Hd Hup). naive_solver. }
    destruct (decide (ev_domain e' = ev_domain e)) as [E|E]; [apply ewp_ret; tauto|].
    apply ewp_bind. eapply ewp_exact; [eapply isAncestor_run; [exact Hd|exact Hup|lia]|].
    apply ewp_throw_if; intros Hb; [apply negb_true_iff, bool_decide_eq_false in Hb|apply negb_false_iff, bool_decide_eq_true in Hb]; tauto.
  - apply ewp_throw. split_and!; [done| |done]. intros (e2 & He2 & _). congruence.
Qed.

Lemma validate_run {ub nf : Prop} fuel t s :
  tree_in (skeleton_of s) None t -> (length (tree_ids t) <= fuel)%nat ->
  (forall id e, events_ s !! id = Some e -> ev_domain e ∈ tree_ids t) ->
  ewp ub nf (validateDomainEdges fuel) s (fun _ s' => s' = s /\ edges_ok s) (fun x s' => s' = s /\ bad_edge s x).
Proof.
  intros Ht Hf Hdom. unfold validateDomainEdges. apply ewp_bind, ewp_asks.
  eapply ewp_mono; [apply (ewp_each _ (fun l s' => s' = s /\ forall id e dep, id ∉ l ->
    events_ s !! id = Some e -> dep ∈ ev_depends e -> edge_ok s e dep) (fun x s' => s' = s /\ bad_edge s x))| |done].
  - split; [done|]. intros id e dep Hid He _. destruct Hid. apply ids_elem. by eexists.
  - intros id l s' Hin [-> Hok]. assert (Hid : id ∈ ids (events_ s)) by (destruct Hin as [old ->]; apply elem_of_app; right; by left).
    apply ids_elem in Hid as [e He]. apply ewp_bind. eapply ewp_exact; [by apply event_at_run|].
    eapply ewp_mono; [apply (ewp_each _ (fun deps s' => s' = s /\
      forall dep, dep ∈ ev_depends e -> dep ∉ deps -> edge_ok s e dep) (fun x s' => s' = s /\ bad_edge s x))| |done].
    + split; [done|]. by intros.
    + intros dep deps s' Hsuf (-> & Hdeps). eapply ewp_mono; [eapply (validate_edge_run fuel t); [done..|by eapply Hdom]| |].
      * intros [] s' [-> Hdep]. split; [done|]. intros x Hx Hn. destruct (decide (x = dep)) as [->|Hne]; [done|].
        apply Hdeps; [done|]. by rewrite elem_of_cons; intros [?|?].
      * intros x s' (-> & Hbad & ->). split; [done|]. exists id, e, dep. split_and!; try done.
        destruct Hsuf as [old ->]. apply elem_of_app. right. by left.
    + intros [] s' (-> & Hdeps). split; [done|]. intros id' e2 dep Hn He2 Hdep.
      destruct (decide (id' = id)) as [->|Hne].
      * assert (e2 = e) as -> by congruence. apply Hdeps; [done|]. apply not_elem_of_nil.
      * apply (Hok id' e2 dep); [|done..]. by rewrite elem_of_cons; intros [?|?].
  - intros [] s' [-> Hok]. split; [done|]. intros id e dep. apply Hok. apply not_elem_of_nil.
Qed.

(** ** Transitions *)

Lemma transition_id_inj k1 k2 : transition_id k1 = transition_id k2 -> k1 = k2.
Proof. unfold transition_id. by intros ?%(inj _)%(inj _). Qed.

Lemma transition_not_collector k1 k2 : transition_id k1 <> collector_id k2.
Proof. unfold transition_id, collector_id. discriminate. Qed.

(** The names the lowerer makes up. *)
Definition reserved id : Prop := id = EmptyString \/ exists k, id = transition_id k \/ id = collector_id k.

(** A lowerer as the constructor leaves it. *)
Record Raw s : Prop := {
  rw_limits : 1 <= bitsPerBucket_ s <= 31 /\ 0 <= maxBuckets_ s <= RP1_MAX_BUCKETS;
  rw_start : allocatedBucketCount_ s = 0 /\ nextCollector_ s = 0 /\ nextTransition_ s = 0 /\ syntheticNodes_ s = [];
  rw_event id e : events_ s !! id = Some e -> e = new_event id (ev_domain e) (ev_depends e) false false;
  rw_name id e : events_ s !! id = Some e -> ~ reserved id;
  rw_dom id e : events_ s !! id = Some e -> is_Some (domains_ s !! ev_domain e);
  rw_buckets d dm : domains_ s !! d = Some dm -> dm_localBuckets dm = []
}.

Lemma lowerer_eta s :
  s = set_nextTransition (nextTransition_ s) (set_synthetic (syntheticNodes_ s) (set_events (events_ s) s)).
Proof. by destruct s. Qed.

Section insertion.
Context (s0 : BarrierLowerer) (H0 : Raw s0) (Hedges : edges_ok s0).
Abbreviation M0 := (events_ s0).

(** What dependency [x] of [e0] became. *)
Definition arrow (cache : transition_cache) e0 (x y : string) : Prop :=
  exists ex, M0 !! x = Some ex /\
    if decide (ev_domain ex = ev_domain e0) then y = x else cache !! (x, ev_domain e0) = Some y.

Definition deps_of id : list string := match M0 !! id with Some e => ev_depends e | None => [] end.
Definition edges (l : list string) : nat := sum_list_with (fun id => length (deps_of id)) l.

(** The events of [old] are rewritten; [cache] has the transitions so far. *)
Record Inserted (old : list string) (cache : transition_cache) (n : nat) s : Prop := {
  in_same : s = set_nextTransition (nextTransition_ s) (set_synthetic (syntheticNodes_ s) (set_events (events_ s) s0));
  in_next : 0 <= nextTransition_ s <= Z.of_nat n;
  in_todo id : id ∉ old -> is_Some (M0 !! id) -> events_ s !! id = M0 !! id;
  in_old id e0 : id ∈ old -> M0 !! id = Some e0 -> exists ys,
    Forall2 (arrow cache e0) (ev_depends e0) ys /\ events_ s !! id = Some (with_depends (dedupSorted ys) e0);
  in_cache x d tid : cache !! (x, d) = Some tid -> exists k ex,
    tid = transition_id k /\ 0 <= k < nextTransition_ s /\ events_ s !! tid = Some (new_event tid d [x] false true) /\
    M0 !! x = Some ex /\ above (skeleton_of s0) (ev_domain ex) d /\ is_Some (domains_ s0 !! d);
  in_only id e : events_ s !! id = Some e -> is_Some (M0 !! id) \/ exists x d, cache !! (x, d) = Some id;
  in_syn nd : nd ∈ syntheticNodes_ s <-> exists x d tid, cache !! (x, d) = Some tid /\
    nd = {| sn_kind := Transition; sn_id := tid; sn_domain := d; sn_depends := [x]; sn_set := tid |}
}.

Lemma inserted_start : Inserted [] ∅ 0 s0.
Proof using H0.
  destruct (rw_start _ H0) as (_ & _ & HT & HS). split; try done.
  - apply lowerer_eta.
  - lia.
  - by intros id e0 ?%not_elem_of_nil.
  - intros id e He. left. by eexists.
  - intros nd. rewrite HS. split; [by intros ?%not_elem_of_nil|]. by intros (x & d & tid & ? & _).
Qed.

Lemma arrow_mono (c c' : transition_cache) e0 x y : c ⊆ c' -> arrow c e0 x y -> arrow c' e0 x y.
Proof.
  intros Hc (ex & Hx & Ha). exists ex. split; [done|]. case_decide; [done|]. by eapply lookup_weaken.
Qed.

Lemma old_event old cache n s x ex : Inserted old cache n s -> M0 !! x = Some ex ->
  exists l, events_ s !! x = Some (with_depends l ex).
Proof.
  intros HI Hx. destruct (decide (x ∈ old)) as [Ho|Ho].
  - destruct (in_old _ _ _ _ HI _ _ Ho Hx) as (ys & _ & ?). eauto.
  - exists (ev_depends ex). rewrite (in_todo _ _ _ _ HI x Ho) by (by eexists). rewrite Hx. by destruct ex.
Qed.

Lemma getOrCreate_run {ub nf : Prop} old cache n s x ex e0 id X :
  Inserted old cache n s -> M0 !! x = Some ex -> M0 !! id = Some e0 ->
  above (skeleton_of s0) (ev_domain ex) (ev_domain e0) -> Z.of_nat (S n) < 2 ^ 32 ->
  ewp ub nf (getOrCreateTransition x (ev_domain e0) cache) s (fun r s' =>
    Inserted old r.2 (S n) s' /\ cache ⊆ r.2 /\ r.2 !! (x, ev_domain e0) = Some r.1) X.
Proof using H0.
  intros HI Hx Hid Hab Hn. unfold getOrCreateTransition.
  destruct (cache !! (x, ev_domain e0)) as [tid|] eqn:Hc.
  { apply ewp_ret. split_and!; [|done|done]. destruct HI. split; try done. lia. }
  apply ewp_bind, ewp_asks, ewp_bind, ewp_updates, ewp_bind, ewp_bind, ewp_updates, ewp_updates, ewp_ret. cbn [fst snd].
  set (k := nextTransition_ s). set (tid := transition_id k). set (c' := <[(x, ev_domain e0) := tid]> cache).
  assert (Hsub : cache ⊆ c') by (by apply insert_subseteq). split_and!; [|done|by apply lookup_insert_eq].
  pose proof (in_next _ _ _ _ HI) as Hk.
  assert (Hnew : events_ s !! tid = None).
  { apply eq_None_not_Some. intros (e & [[e1 He1]|(x' & d' & Hc')]%(in_only _ _ _ _ HI)).
    - apply (rw_name _ H0 _ _ He1). right. exists k. by left.
    - destruct (in_cache _ _ _ _ HI _ _ _ Hc') as (k' & _ & E & Hk' & _). apply transition_id_inj in E. subst k'. lia. }
  destruct HI. unfold emplace. cbn [events_ set_nextTransition set_events]. rewrite Hnew. cbn [negb].
  assert (Hraw : forall id', is_Some (M0 !! id') -> id' <> tid).
  { intros id' [e' He'] ->. apply (rw_name _ H0 _ _ He'). right. exists k. by left. }
  assert (Hadd : add32 k 1 = k + 1) by (unfold add32, u32; apply Z.mod_small; lia).
  split; cbn [events_ nextTransition_ syntheticNodes_ set_events set_synthetic set_nextTransition].
  - rewrite in_same0. done.
  - rewrite Hadd. lia.
  - intros id' Ho Hs. rewrite lookup_insert_ne by (symmetry; by apply Hraw). auto.
  - intros id' e1 Ho He1. destruct (in_old0 _ _ Ho He1) as (ys & Hys & Hl). exists ys. split.
    + eapply Forall2_impl; [exact Hys|]. intros x' y'. by apply arrow_mono.
    + rewrite lookup_insert_ne by (symmetry; apply Hraw; by eexists). done.
  - intros x' d' tid' [[[= <- <-] <-]|[Hne Hc']]%lookup_insert_Some.
    + exists k, ex. rewrite lookup_insert_eq, Hadd. split_and!; try done; try lia. by eapply rw_dom.
    + destruct (in_cache0 _ _ _ Hc') as (k' & ex' & -> & Hk' & He' & ?). exists k', ex'. rewrite Hadd.
      rewrite lookup_insert_ne; [split_and!; try done; try lia; naive_solver|]. intros E. by rewrite E, He' in Hnew.
  - intros id' e' [[<- _]|[_ He']]%lookup_insert_Some.
    + right. exists x, (ev_domain e0). apply lookup_insert_eq.
    + destruct (in_only0 _ _ He') as [?|(x' & d' & Hc')]; [by left|]. right. exists x', d'. by eapply lookup_weaken.
  - intros nd. rewrite elem_of_app, list_elem_of_singleton, in_syn0. split.
    + intros [(x' & d' & t' & Hc' & ->)| ->]; [exists x', d', t'; split; [by eapply lookup_weaken|done]|].
      exists x, (ev_domain e0), tid. split; [apply lookup_insert_eq|done].
    + intros (x' & d' & t' & [[[= <- <-] <-]|[_ Hc']]%lookup_insert_Some & ->); [by right|]. left. by exists x', d', t'.
Qed.

Lemma rewrite_deps_run {ub nf : Prop} old cache n s id e0 X :
  Inserted old cache n s -> M0 !! id = Some e0 -> Z.of_nat (n + length (ev_depends e0)) < 2 ^ 32 ->
  ewp ub nf (loop (rewrite_dep e0) ([], cache) (ev_depends e0)) s (fun r s' =>
    Inserted old r.2 (n + length (ev_depends e0)) s' /\ Forall2 (arrow r.2 e0) (ev_depends e0) r.1) X.
Proof using All.
  intros HI Hid Hn.
  apply (ewp_loop (fun l r s' => Inserted old r.2 (n + length l) s' /\ Forall2 (arrow r.2 e0) l r.1)).
  { rewrite Nat.add_0_r. split; [done|constructor]. }
  intros l x new [ys c] s' El [HI' Hys]. cbn [fst snd] in *. unfold rewrite_dep.
  destruct (Hedges id e0 x Hid) as (ex & Hx & Hdx); [rewrite El; apply elem_of_app; right; by left|].
  destruct (old_event _ _ _ _ _ _ HI' Hx) as [lx Hlx]. apply ewp_bind. eapply ewp_exact; [by apply event_at_run|].
  cbn [with_depends ev_domain ev_id]. rewrite length_app. cbn [length].
  assert (Hex : ev_id ex = x) by (by rewrite (rw_event _ H0 _ _ Hx)).
  destruct (decide (ev_domain ex = ev_domain e0)) as [E|E].
  - apply ewp_ret. cbn [fst snd]. split; [destruct HI'; split; try done; lia|]. apply Forall2_app; [done|].
    constructor; [|constructor]. exists ex. by rewrite decide_True.
  - destruct Hdx as [?|Hab]; [done|]. rewrite Hex. apply ewp_bind.
    eapply ewp_mono; [eapply (getOrCreate_run _ _ _ _ _ _ _ _ X); try done| |done].
    { rewrite El, length_app in Hn. cbn in Hn. lia. }
    intros [y c'] s2 (HI2 & Hc & Hy). apply ewp_ret. cbn [fst snd] in *. split; [by rewrite Nat.add_1_r, Nat.add_succ_r|].
    apply Forall2_app.
    + eapply Forall2_impl; [exact Hys|]. intros x' y'. by apply arrow_mono.
    + constructor; [|constructor]. exists ex. by rewrite decide_False.
Qed.

Lemma inserted_next old cache s id e0 ys :
  Inserted old cache (edges (old ++ [id])) s -> id ∉ old -> M0 !! id = Some e0 ->
  Forall2 (arrow cache e0) (ev_depends e0) ys ->
  Inserted (old ++ [id]) cache (edges (old ++ [id])) (set_events (alter (with_depends (dedupSorted ys)) id (events_ s)) s).
Proof using H0.
  intros HI Hnew Hid Hys. pose proof (in_todo _ _ _ _ HI id Hnew ltac:(by eexists)) as Hcur. rewrite Hid in Hcur.
  destruct HI. split; try done; cbn [events_ set_events nextTransition_].
  - by rewrite in_same0.
  - intros id' Ho Hs. rewrite elem_of_app, list_elem_of_singleton in Ho. rewrite lookup_alter_ne by naive_solver.
    apply in_todo0; naive_solver.
  - intros id' e1 Ho He1. destruct (decide (id' = id)) as [->|Hne].
    + assert (e1 = e0) as -> by congruence. exists ys. split; [done|]. by rewrite lookup_alter_eq, Hcur.
    + apply elem_of_app in Ho as [Ho|Ho%list_elem_of_singleton]; [|done].
      destruct (in_old0 _ _ Ho He1) as (ys' & ? & ?). exists ys'. split; [done|]. by rewrite lookup_alter_ne.
  - intros x d tid Hc. destruct (in_cache0 _ _ _ Hc) as (k & ex & -> & Hk & He & ?). exists k, ex.
    rewrite lookup_alter_ne; [naive_solver|]. intros E. rewrite E in Hid. apply (rw_name _ H0 _ _ Hid). right. exists k. by left.
  - intros id' e'. rewrite lookup_alter. case_decide as E; [|apply in_only0]. subst id'. intros _. left. by eexists.
Qed.

Lemma insert_run {ub nf : Prop} X : Z.of_nat (edges (ids M0)) < 2 ^ 32 ->
  ewp ub nf insertTransitions s0 (fun _ s => exists cache, Inserted (ids M0) cache (edges (ids M0)) s) X.
Proof using All.
  intros Hn. unfold insertTransitions. apply ewp_bind, ewp_asks, ewp_bind.
  eapply ewp_mono; [apply (ewp_loop (fun old cache s => Inserted old cache (edges old) s) X)| |done].
  - apply inserted_start.
  - intros old id new cache s El HI. assert (Hid : id ∈ ids M0) by (rewrite El; apply elem_of_app; right; by left).
    apply ids_elem in Hid as [e0 Hid]. pose proof (ids_nodup M0) as Hnd. rewrite El in Hnd.
    apply NoDup_app in Hnd as (_ & Hnd & _). assert (Hnew : id ∉ old) by (intros Ho; apply (Hnd id Ho); by left).
    assert (Hlen : edges (old ++ [id]) = (edges old + length (ev_depends e0))%nat).
    { unfold edges. rewrite sum_list_with_app. cbn. unfold deps_of at 2. rewrite Hid. lia. }
    apply ewp_bind. eapply ewp_exact; [apply event_at_run; by rewrite (in_todo _ _ _ _ HI)|].
    apply ewp_bind. eapply ewp_mono; [eapply (rewrite_deps_run _ _ _ _ _ _ X); [done|done|]| |done].
    { rewrite El in Hn. unfold edges in Hn, Hlen |- *. rewrite sum_list_with_app in Hn. cbn in Hn.
      unfold deps_of at 2 in Hn. rewrite Hid in Hn. lia. }
    intros [ys c] s' [HI' Hys]. rewrite <-Hlen in HI'. apply ewp_bind, ewp_updates, ewp_ret. by apply (inserted_next _ _ _ _ e0).
  - intros cache s HI. apply ewp_ret. by exists cache.
Qed.

(** *** The result *)

Context (cache : transition_cache) (s : BarrierLowerer) (HI : Inserted (ids M0) cache (edges (ids M0)) s).

Definition transition_of id e : Prop :=
  exists x d ex k, e = new_event id d [x] false true /\ cache !! (x, d) = Some id /\ id = transition_id k /\
    0 <= k < nextTransition_ s /\ M0 !! x = Some ex /\ above (skeleton_of s0) (ev_domain ex) d /\ is_Some (domains_ s0 !! d).

Definition rewritten id e : Prop :=
  exists e0 ys, M0 !! id = Some e0 /\ Forall2 (arrow cache e0) (ev_depends e0) ys /\ e = with_depends (dedupSorted ys) e0.

Lemma inserted_cases id e : events_ s !! id = Some e <-> rewritten id e \/ transition_of id e.
Proof using HI.
  split.
  - intros He. destruct (in_only _ _ _ _ HI _ _ He) as [[e0 He0]|(x & d & Hc)].
    + left. destruct (in_old _ _ _ _ HI id e0) as (ys & ? & ?); [apply ids_elem; by eexists|done|].
      exists e0, ys. split_and!; [done|done|congruence].
    + right. destruct (in_cache _ _ _ _ HI _ _ _ Hc) as (k & ex & ? & ? & ? & ?). exists x, d, ex, k.
      split_and!; [congruence|done|naive_solver..].
  - intros [(e0 & ys & He0 & Hys & ->)|(x & d & ex & k & -> & Hc & _)].
    + destruct (in_old _ _ _ _ HI id e0) as (ys' & Hys' & ->); [apply ids_elem; by eexists|done|].
      assert (ys' = ys) as ->; [|done]. clear -Hys Hys'. revert ys Hys.
      induction Hys' as [|x y' l l' Ha _ IH]; intros ys Hys; inversion Hys as [|? y ? ? Hb]; subst; [done|].
      f_equal; [|by apply IH]. destruct Ha as (ex & Hx & Ha), Hb as (ex' & Hx' & Hb).
      assert (ex' = ex) as -> by congruence. case_decide; congruence.
    + destruct (in_cache _ _ _ _ HI _ _ _ Hc) as (k' & ex' & ? & ? & ? & ?). done.
Qed.

Lemma inserted_domains : domains_ s = domains_ s0.
Proof using HI. by rewrite (in_same _ _ _ _ HI). Qed.

Lemma raw_event id e0 : M0 !! id = Some e0 ->
  ev_id e0 = id /\ ev_affinity e0 = ∅ /\ ev_bucket e0 = -1 /\ ev_slot e0 = -1 /\ ev_isPseudo e0 = false /\ ev_isTransition e0 = false.
Proof using H0. intros H. by rewrite (rw_event _ H0 _ _ H). Qed.

(** What all events have in common. *)
Lemma inserted_event id e : events_ s !! id = Some e ->
  ev_id e = id /\ ev_affinity e = ∅ /\ ev_bucket e = -1 /\ ev_slot e = -1 /\ ev_isPseudo e = false /\
  is_Some (domains_ s0 !! ev_domain e) /\ canon (ev_depends e).
Proof using H0 HI.
  intros [(e0 & ys & He0 & _ & ->)|(x & d & ex & k & -> & _ & _ & _ & _ & _ & Hd)]%inserted_cases.
  - destruct (raw_event _ _ He0) as (? & ? & ? & ? & ? & _). pose proof (rw_dom _ H0 _ _ He0).
    split_and!; try done; apply dedup_canon.
  - split_and!; try done. split; [repeat constructor|apply NoDup_singleton].
Qed.

Lemma inserted_abs : abs s = s.
Proof using H0 HI.
  unfold abs. enough (strip <$> events_ s = events_ s) as -> by apply set_same_events.
  apply map_eq. intros id. rewrite lookup_fmap. destruct (events_ s !! id) as [e|] eqn:He; [|done]. cbn. f_equal.
  destruct (inserted_event _ _ He) as (_ & Ha & _). unfold strip, with_affinity. rewrite <-Ha. by destruct e.
Qed.

Lemma real_event id e0 : M0 !! id = Some e0 ->
  exists e, events_ s !! id = Some e /\ ev_domain e = ev_domain e0 /\ synthetic e = false.
Proof using H0 HI.
  intros He0. destruct (in_old _ _ _ _ HI id e0) as (ys & _ & He); [apply ids_elem; by eexists|done|].
  destruct (raw_event _ _ He0) as (_ & _ & _ & _ & Hp & Ht). eexists. split_and!; [done|done|]. unfold synthetic. cbn.
  by rewrite Hp, Ht.
Qed.

Lemma arrow_event e0 x y : arrow cache e0 x y ->
  exists ey, events_ s !! y = Some ey /\ ev_domain ey = ev_domain e0 /\ forall z, reads s y z <-> z = x.
Proof using H0 HI.
  intros (ex & Hx & Ha). destruct (real_event _ _ Hx) as (ex' & Hx' & Hd & Hs). case_decide as E.
  - subst y. exists ex'. split_and!; [done|congruence|]. intros z. split; [|intros ->; by eapply reads_real].
    intros Hr. inversion Hr; simplify_eq; congruence.
  - destruct (in_cache _ _ _ _ HI _ _ _ Ha) as (k & ex2 & _ & _ & He & _). eexists. split_and!; [done|done|].
    intros z. rewrite (reads_synthetic s y _ z He) by done. cbn. setoid_rewrite list_elem_of_singleton. split.
    + intros (w & -> & Hr). inversion Hr; simplify_eq; congruence.
    + intros ->. exists x. split; [done|]. by eapply reads_real.
Qed.

Lemma rewritten_dep e0 ys y : Forall2 (arrow cache e0) (ev_depends e0) ys -> y ∈ dedupSorted ys ->
  exists x, x ∈ ev_depends e0 /\ arrow cache e0 x y.
Proof.
  rewrite dedup_elem. intros Hys [i Hi]%list_elem_of_lookup.
  destruct (Forall2_lookup_r _ _ _ _ _ Hys Hi) as (x & Hx & Ha). exists x. split; [by eapply list_elem_of_lookup_2|done].
Qed.

Lemma inserted_wf : Wf s.
Proof using H0 HI.
  destruct (rw_start _ H0) as (Hcnt & Hcol & Htr & _), (rw_limits _ H0) as [Hbits Hmax].
  assert (Esk : skeleton_of s = skeleton_of s0) by (unfold skeleton_of; by rewrite inserted_domains).
  pose proof (in_same _ _ _ _ HI) as Es. split.
  - rewrite Es. cbn. rewrite Hcnt. split_and!; lia.
  - intros id e He. destruct (inserted_event _ _ He) as [? _]. split; [done|]. intros ->.
    apply inserted_cases in He as [(e0 & ys & He0 & _)|(x & d & ex & k & _ & _ & E & _)]; [|done].
    apply (rw_name _ H0 _ _ He0). by left.
  - intros id e He. rewrite inserted_domains. by eapply inserted_event.
  - intros id e x [(e0 & ys & He0 & Hys & ->)|(y & d & ey & k & -> & _ & _ & _ & Hy & _)]%inserted_cases Hx; cbn in Hx.
    + destruct (rewritten_dep _ _ _ Hys Hx) as (z & _ & Ha). destruct (arrow_event _ _ _ Ha) as (? & ? & _). by eexists.
    + apply list_elem_of_singleton in Hx as ->. destruct (real_event _ _ Hy) as (? & ? & _). by eexists.
  - intros id e He. by eapply inserted_event.
  - intros id e x e' [(e0 & ys & He0 & Hys & ->)|(y & d & ey & k & -> & _)]%inserted_cases Ht Hx Hx'; [|done]. cbn in Hx |- *.
    destruct (rewritten_dep _ _ _ Hys Hx) as (z & _ & Ha). destruct (arrow_event _ _ _ Ha) as (? & ? & ? & _). congruence.
  - intros id e [(e0 & ys & He0 & Hys & ->)|(y & d & ey & k & -> & _ & _ & _ & Hy & Hab & _)]%inserted_cases Ht.
    + cbn in Ht. destruct (raw_event _ _ He0) as (_ & _ & _ & _ & _ & ?). congruence.
    + split; [done|]. destruct (real_event _ _ Hy) as (e' & He' & Hd & Hs). exists y, e'. rewrite Esk, Hd. done.
  - intros id e (_ & _ & _ & _ & Hp & _)%inserted_event. congruence.
  - intros id e (_ & _ & ? & ? & _)%inserted_event. by left.
  - intros d dm. rewrite inserted_domains. intros ->%(rw_buckets _ H0). split; constructor.
  - intros d1 dm1 b1 d2 dm2 b2 Hd1 Hb1. rewrite inserted_domains in Hd1. rewrite (rw_buckets _ H0 _ _ Hd1) in Hb1.
    by apply not_elem_of_nil in Hb1.
  - rewrite Es. cbn. lia.
  - intros k _. apply eq_None_not_Some. intros (e & [(e0 & ys & He0 & _)|(x & d & ex & k' & _ & _ & E & _)]%inserted_cases).
    + apply (rw_name _ H0 _ _ He0). right. exists k. by right.
    + by apply (transition_not_collector k' k).
  - intros n (x & d & tid & Hc & ->)%(in_syn _ _ _ _ HI). destruct (in_cache _ _ _ _ HI _ _ _ Hc) as (k & ex & _ & _ & He & _).
    eexists. by split.
  - intros id e [(e0 & ys & He0 & Hys & ->)|(y & d & ey & k & -> & Hc & _)]%inserted_cases Hs.
    + destruct (raw_event _ _ He0) as (_ & _ & _ & _ & Hp & Ht). unfold synthetic in Hs. cbn in Hs. by rewrite Hp, Ht in Hs.
    + eexists. split; [apply (in_syn _ _ _ _ HI); by exists y, d, id|done].
Qed.

(** The dependencies as they were given. *)
Definition orig_of : gmap string (string * list string) := (fun e => (ev_domain e, ev_depends e)) <$> M0.

Lemma inserted_meaning : Meaning orig_of s.
Proof using H0 HI.
  assert (Horig : forall id dep, orig_of !! id = Some dep <-> exists e0, M0 !! id = Some e0 /\ dep = (ev_domain e0, ev_depends e0)).
  { intros id dep. unfold orig_of. by rewrite lookup_fmap, fmap_Some. }
  split.
  - intros id. split.
    + intros (e & [(e0 & ys & He0 & _)|(x & d & ex & k & -> & _)]%inserted_cases & Hs); [|done].
      eexists. apply Horig. by exists e0.
    + intros (dep & (e0 & He0 & _)%Horig). destruct (real_event _ _ He0) as (e & ? & _ & ?). by exists e.
  - intros id e dep He (e0 & He0 & ->)%Horig. destruct (real_event _ _ He0) as (e' & ? & ? & _). cbn. congruence.
  - intros id e dep x He (e0 & He0 & ->)%Horig. cbn.
    destruct (in_old _ _ _ _ HI id e0) as (ys & Hys & He'); [apply ids_elem; by eexists|done|].
    assert (e = with_depends (dedupSorted ys) e0) as -> by congruence. cbn. split.
    + intros [i Hi]%list_elem_of_lookup. destruct (Forall2_lookup_l _ _ _ _ _ Hys Hi) as (y & Hy & Ha).
      exists y. split; [apply dedup_elem; by eapply list_elem_of_lookup_2|].
      destruct (arrow_event _ _ _ Ha) as (_ & _ & _ & Hr). by apply Hr.
    + intros (y & Hy & Hr). destruct (rewritten_dep _ _ _ Hys Hy) as (z & Hz & Ha).
      destruct (arrow_event _ _ _ Ha) as (_ & _ & _ & Hr'). by apply Hr' in Hr as ->.
Qed.

Lemma inserted_count : (count_plain s <= size M0 + edges (ids M0))%nat.
Proof using HI.
  pose proof (in_next _ _ _ _ HI) as Hn. unfold count_plain. set (M := filter _ (events_ s)).
  rewrite <-length_map_to_list, <-(length_fmap fst).
  etransitivity; [apply submseteq_length, (NoDup_submseteq _ (ids M0 ++ (transition_id <$> seqZ 0 (nextTransition_ s))))|].
  - apply NoDup_fst_map_to_list.
  - intros id ([id' e] & -> & Hin)%list_elem_of_fmap. apply elem_of_map_to_list in Hin. cbn. apply elem_of_app.
    apply map_lookup_filter_Some in Hin as [[(e0 & ys & He0 & _)|(x & d & ex & k & _ & _ & -> & Hk & _)]%inserted_cases _].
    + left. apply ids_elem. by eexists.
    + right. apply list_elem_of_fmap_2, elem_of_seqZ. lia.
  - rewrite length_app, length_fmap, length_seqZ. unfold ids at 1. rewrite merge_sort_Permutation, length_fmap, length_map_to_list. lia.
Qed.
End insertion.
