(* ===== verification/BarrierTheorems.v ===== *)
(** * What the barrier lowering promises

    For inputs whose domains form a tree: the lowering returns, and it fails
    only for a dependency that leaves its domain or when the buckets are used
    up; events get disjoint bits; whatever an event waits for lies in one
    bucket and stands for the dependencies it was given; and resetting the
    bucket range of a domain clears the events at or below it and no others. *)

From S2P Require Import Prelude Rp1Protocol Except BarrierLowering BarrierFacts BarrierInv BarrierRound BarrierDomain BarrierTree BarrierInput.

Implicit Types (s a : BarrierLowerer) (e : BarrierEvent) (id d : string) (input : BarrierLoweringInput).

(** ** Below a domain *)

(** [d'] is [d] or below it in [t]. *)
Definition within (t : tree) (d d' : string) : Prop :=
  exists t', t' ∈ subtrees t /\ tree_id t' = d /\ d' ∈ tree_ids t'.

Lemma subtrees_fmap t : tree_id <$> subtrees t = tree_ids t.
Proof.
  induction t as [id ts IH] using tree_induction. cbn [subtrees tree_ids fmap list_fmap tree_id]. f_equal.
  induction IH as [|t ts Ht _ IHts]; [done|]. cbn [map concat]. rewrite fmap_app. by f_equal.
Qed.

Lemma concat_map_elem {A B} (f : A -> list B) (l : list A) y : y ∈ concat (map f l) <-> exists x, x ∈ l /\ y ∈ f x.
Proof.
  rewrite list_elem_of_In, in_concat. setoid_rewrite in_map_iff. setoid_rewrite <-list_elem_of_In. naive_solver.
Qed.

Lemma subtrees_trans t : forall t1 t2, t1 ∈ subtrees t -> t2 ∈ subtrees t1 -> t2 ∈ subtrees t.
Proof.
  induction t as [id ts IH] using tree_induction. intros t1 t2 [->|(c & Hc & H1)%concat_map_elem]%elem_of_cons H2; [done|].
  right. apply concat_map_elem. exists c. split; [done|]. rewrite Forall_forall in IH. by eapply IH.
Qed.

Lemma subtrees_self t : t ∈ subtrees t.
Proof. destruct t. by left. Qed.

Lemma subtrees_in T t : forall p t', tree_in T p t -> t' ∈ subtrees t -> exists p', tree_in T p' t'.
Proof.
  induction t as [id ts IH] using tree_induction. intros p t' Hin [->|(c & Hc & H1)%concat_map_elem]%elem_of_cons; [eauto|].
  inversion Hin as [? ? ? _ Hts]; subst. rewrite Forall_forall in IH, Hts. by eapply IH; [..|apply Hts|].
Qed.

Lemma above_trans T x y z : above T x y -> above T y z -> above T x z.
Proof.
  intros Hxy Hyz. revert Hxy. induction Hyz as [d p cs HT|d p cs y HT _ IH]; intros Hxy; (eapply above_up; [done|auto]).
Qed.

Lemma tree_above T t : forall p d, tree_in T p t -> d ∈ tree_ids t -> d = tree_id t \/ above T (tree_id t) d.
Proof.
  induction t as [id ts IH] using tree_induction. intros p d Hin [->|(c & Hc & Hd)%concat_map_elem]%elem_of_cons; [by left|].
  right. inversion Hin as [? ? ? _ Hts]; subst. rewrite Forall_forall in IH, Hts. specialize (Hts c Hc) as Hc'.
  assert (Ha : above T id (tree_id c)) by (inversion Hc'; subst; cbn; by eapply above_parent).
  destruct (IH c Hc _ _ Hc' Hd) as [->|Hd']; [done|]. by eapply above_trans.
Qed.

(** The parent of a node has it among its children. *)
Lemma tree_parent T t : forall p d d' cs, tree_in T p t -> d ∈ tree_ids t -> T !! d = Some (Some d', cs) ->
  (d = tree_id t /\ p = Some d') \/ exists t', t' ∈ subtrees t /\ tree_id t' = d' /\ d ∈ tree_ids t'.
Proof.
  induction t as [id ts IH] using tree_induction. intros p d d' cs Hin Hd HT. inversion Hin as [? ? ? Hid Hts]; subst.
  apply elem_of_cons in Hd as [->|(c & Hc & Hd)%concat_map_elem]; [left; split; [done|congruence]|right].
  rewrite Forall_forall in IH, Hts. destruct (IH c Hc _ _ _ _ (Hts c Hc) Hd HT) as [[-> [= <-]]|(t' & Ht' & ?)].
  - exists (Node id ts). split_and!; [by left|done|]. right. apply concat_map_elem. exists c. split; [done|apply tree_id_in].
  - exists t'. split; [|done]. right. apply concat_map_elem. by exists c.
Qed.

Lemma subtree_unique t t1 t2 : NoDup (tree_ids t) -> t1 ∈ subtrees t -> t2 ∈ subtrees t -> tree_id t1 = tree_id t2 -> t1 = t2.
Proof.
  rewrite <-subtrees_fmap. intros Hn [i Hi]%list_elem_of_lookup [j Hj]%list_elem_of_lookup E.
  assert (i = j) as ->; [|congruence].
  eapply NoDup_lookup; [exact Hn| |]; rewrite list_lookup_fmap, ?Hi, ?Hj; cbn; [done|congruence].
Qed.

Lemma within_above T t x d : tree_in T None t -> NoDup (tree_ids t) -> x ∈ tree_ids t -> d ∈ tree_ids t ->
  (forall y, is_Some (T !! y) -> y ∈ tree_ids t) -> within t x d <-> x = d \/ above T x d.
Proof.
  intros Hin Hn Hx Hd Hall. split.
  - intros (t' & Ht' & <- & Hd'). destruct (subtrees_in _ _ _ _ Hin Ht') as [p' Hin'].
    destruct (tree_above _ _ _ _ Hin' Hd') as [->|?]; auto.
  - assert (Hself : forall y, y ∈ tree_ids t -> exists t', t' ∈ subtrees t /\ tree_id t' = y).
    { intros y. rewrite <-subtrees_fmap. intros (t' & -> & ?)%list_elem_of_fmap. eauto. }
    intros [->|Ha]; [destruct (Hself d Hd) as (t' & ? & <-); exists t'; split_and!; [done..|apply tree_id_in]|].
    induction Ha as [d p cs HT|d p cs x HT Ha IH].
    + destruct (tree_parent _ _ _ _ _ _ Hin Hd HT) as [[_ ?]|(t' & ?)]; [done|by exists t'].
    + destruct (tree_parent _ _ _ _ _ _ Hin Hd HT) as [[_ ?]|(tp & Htp & Ep & Hdp)]; [done|].
      assert (Hp : p ∈ tree_ids t) by (rewrite <-Ep, <-subtrees_fmap; by apply list_elem_of_fmap_2).
      destruct (IH Hx Hp) as (tx & Htx & Ex & Hpx). exists tx. split_and!; [done..|].
      rewrite <-subtrees_fmap in Hpx. apply list_elem_of_fmap in Hpx as (tp' & Ep' & Htp').
      assert (tp' = tp) as -> by (eapply (subtree_unique t); [done|by eapply subtrees_trans|done|congruence]).
      by apply (subtrees_ids tx tp).
Qed.

(** ** Inputs *)

Definition dependencies input : nat := sum_list_with (fun p => length (es_depends p)) (in_events input).

(** An input the theorems speak of: the limits are those the constructor
    accepts, the domains are those of the tree [t], every event has a domain of
    [t] and a name of its own, which is not empty nor of the form the lowering
    gives to its transitions and collectors, and the input is small enough for
    the 32-bit counters. *)
Record lowerable input (t : tree) : Prop := {
  lw_bits : 1 <= bitsPerBucket input <= 31;
  lw_buckets : 1 <= maxBuckets input <= RP1_MAX_BUCKETS;
  lw_root : rootDomain input = tree_id t;
  lw_tree : in_domains input ≡ₚ tree_specs None t;
  lw_nodup : NoDup (tree_ids t);
  lw_domain p : p ∈ in_events input -> es_domain p ∈ tree_ids t;
  lw_ids : NoDup (es_id <$> in_events input);
  lw_names p : p ∈ in_events input -> ~ reserved (es_id p);
  lw_size : 32 * Z.of_nat (length (in_events input) + dependencies input) *
    (bitsPerBucket input * maxBuckets input + Z.of_nat (length (in_domains input))) + 32 < 2 ^ 32
}.

(** An event may wait for [dep]. *)
Definition dependency_ok input t (p : BarrierEventSpec) (dep : string) : Prop :=
  exists q, q ∈ in_events input /\ es_id q = dep /\ within t (es_domain q) (es_domain p).

Definition dependencies_ok input t : Prop :=
  forall p dep, p ∈ in_events input -> dep ∈ es_depends p -> dependency_ok input t p dep.

Section input.
Context (input : BarrierLoweringInput) (t : tree) (HL : lowerable input t).

Lemma lowerable_ids : ds_id <$> in_domains input ≡ₚ tree_ids t.
Proof using HL. by rewrite (lw_tree _ _ HL), specs_ids. Qed.

Lemma lowerable_accepted : accepted input.
Proof using HL.
  split; try apply HL; setoid_rewrite lowerable_ids; [rewrite (lw_root _ _ HL); apply tree_id_in|apply HL].
Qed.

Context (s : BarrierLowerer) (HB : Built input (in_domains input) (in_events input) s).

Lemma built_skeleton : tree_in (skeleton_of s) None t.
Proof using HL HB.
  apply specs_in. intros q Hq. rewrite <-(lw_tree _ _ HL) in Hq. apply skeleton_lookup.
  exists (spec_domain q). split_and!; try done. apply (bt_domains _ _ _ _ HB). by exists q.
Qed.

Lemma built_domains x : is_Some (domains_ s !! x) <-> x ∈ tree_ids t.
Proof using HL HB.
  rewrite <-lowerable_ids, list_elem_of_fmap. split.
  - intros [dm (q & Hq & <- & _)%(bt_domains _ _ _ _ HB)]. by exists q.
  - intros (q & -> & Hq). exists (spec_domain q). apply (bt_domains _ _ _ _ HB). by exists q.
Qed.

Lemma built_skeleton_ids x : is_Some (skeleton_of s !! x) -> x ∈ tree_ids t.
Proof using HL HB.
  unfold skeleton_of. rewrite lookup_fmap. intros [y (dm & Hdm & _)%fmap_Some]. apply built_domains. by eexists.
Qed.

Lemma built_events p : p ∈ in_events input -> events_ s !! es_id p = Some (spec_event p).
Proof using HB. intros Hp. apply (bt_events _ _ _ _ HB). by exists p. Qed.

Lemma built_raw : Raw s.
Proof using HL HB.
  pose proof (bt_same _ _ _ _ HB) as Es. split.
  - rewrite Es. cbn. pose proof (lw_bits _ _ HL). pose proof (lw_buckets _ _ HL). lia.
  - by rewrite Es.
  - intros id e (p & _ & <- & ->)%(bt_events _ _ _ _ HB). done.
  - intros id e (p & Hp & <- & ->)%(bt_events _ _ _ _ HB). by apply HL.
  - intros id e (p & Hp & <- & ->)%(bt_events _ _ _ _ HB). cbn. by apply built_domains, HL.
  - intros d dm (q & _ & _ & ->)%(bt_domains _ _ _ _ HB). done.
Qed.

Lemma built_edge p dep : p ∈ in_events input -> edge_ok s (spec_event p) dep <-> dependency_ok input t p dep.
Proof using HL HB.
  intros Hp. unfold edge_ok, dependency_ok. pose proof (lw_domain _ _ HL p Hp) as Hd.
  assert (Hw : forall q, q ∈ in_events input -> within t (es_domain q) (es_domain p) <->
    es_domain q = es_domain p \/ above (skeleton_of s) (es_domain q) (es_domain p)).
  { intros q Hq. apply within_above; [apply built_skeleton|apply HL|by apply HL|done|apply built_skeleton_ids]. }
  split.
  - intros (e' & (q & Hq & <- & ->)%(bt_events _ _ _ _ HB) & He). exists q. split_and!; [done..|]. by apply Hw.
  - intros (q & Hq & <- & He%Hw); [|done]. exists (spec_event q). split; [by apply built_events|done].
Qed.

Lemma built_perm : ids (events_ s) ≡ₚ es_id <$> in_events input.
Proof using HL HB.
  apply NoDup_Permutation; [apply ids_nodup|apply HL|]. intros id. rewrite ids_elem, list_elem_of_fmap. split.
  - intros [e (p & Hp & <- & _)%(bt_events _ _ _ _ HB)]. by exists p.
  - intros (p & -> & Hp). exists (spec_event p). by apply built_events.
Qed.

Lemma built_edges : edges s (ids (events_ s)) = dependencies input.
Proof using HL HB.
  unfold edges, dependencies. rewrite built_perm. pose proof built_events as Hev. clear -Hev.
  induction (in_events input) as [|p l IH]; [done|]. cbn [fmap list_fmap sum_list_with]. f_equal.
  - unfold deps_of. by rewrite Hev by (by left).
  - apply IH. intros. apply Hev. by right.
Qed.

Lemma built_size : size (events_ s) = length (in_events input).
Proof using HL HB.
  rewrite <-(length_fmap es_id), <-built_perm. unfold ids. by rewrite merge_sort_Permutation, length_fmap, length_map_to_list.
Qed.
End input.

(** ** The run *)

(** The exception for a dependency that is not allowed. *)
Definition bad_dependency input t (x : lowering_exn) : Prop :=
  exists p dep, p ∈ in_events input /\ dep ∈ es_depends p /\ ~ dependency_ok input t p dep /\
    x = if decide (dep ∈ es_id <$> in_events input) then EscapesDomain else UnknownEvent.

Definition given input : gmap string (string * list string) :=
  list_to_map ((fun p => (es_id p, (es_domain p, es_depends p))) <$> in_events input).

(** What is known of a result [r] and the lowerer [s] that built it, which
    was [s2] before the ranges were assigned. *)
Record Lowered input t (r : BarrierLoweringResult) s : Prop := {
  ld_state : exists s2, Wf (abs s2) /\
    Meaning (given input) (abs s2) /\ (forall d, d ∈ tree_ids t -> Done d (abs s2)) /\
    all_isolated (subtrees t) (abs s2) /\ (forall d, is_Some (domains_ s2 !! d) <-> d ∈ tree_ids t) /\
    maxBuckets_ s2 = maxBuckets input /\ bitsPerBucket_ s2 = bitsPerBucket input /\
    Ranged (tree_ids t) s2 s /\ ranges_ok s2 (subtrees t) s;
  ld_result : r = {| out_events := physical <$> events_ s; domainRanges := dm_range <$> domains_ s;
    syntheticNodes := syntheticNodes_ s |}
}.

Lemma given_lookup input id dep : NoDup (es_id <$> in_events input) ->
  given input !! id = Some dep <-> exists p, p ∈ in_events input /\ es_id p = id /\ dep = (es_domain p, es_depends p).
Proof.
  intros Hn. unfold given. rewrite <-elem_of_list_to_map.
  - rewrite list_elem_of_fmap. split; [intros (p & [= -> ->] & Hp)|intros (p & Hp & <- & ->)]; by exists p.
  - by rewrite <-list_fmap_compose.
Qed.

Lemma given_built input t s : lowerable input t -> Built input (in_domains input) (in_events input) s ->
  orig_of s = given input.
Proof.
  intros HL HB. apply map_eq. intros id. apply option_eq. intros dep. rewrite given_lookup by apply HL.
  unfold orig_of. rewrite lookup_fmap, fmap_Some. split.
  - intros (e & (p & Hp & <- & ->)%(bt_events _ _ _ _ HB) & ->). by exists p.
  - intros (p & Hp & <- & ->). exists (spec_event p). split; [|done]. by apply (built_events input s HB).
Qed.

Lemma buildResult_run {ub nf : Prop} s Q X :
  (forall id e, events_ s !! id = Some e -> 0 <= ev_bucket e /\ 0 <= ev_slot e) ->
  Q {| out_events := physical <$> events_ s; domainRanges := dm_range <$> domains_ s; syntheticNodes := syntheticNodes_ s |} s ->
  ewp ub nf buildResult s Q X.
Proof.
  intros Hall HQ. unfold buildResult. apply ewp_bind, ewp_asks, ewp_bind. eapply ewp_exact.
  { apply each_reads. intros id [e He]%ids_elem. rewrite (at_event _ _ _ _ He). destruct (Hall id e He) as [H1 H2].
    apply Z.ltb_ge in H1, H2. by rewrite H1, H2. }
  apply ewp_bind, ewp_asks, ewp_bind, ewp_asks, ewp_ret. done.
Qed.

Section run.
Context (bucket_sort : list BarrierBucket -> list BarrierBucket) (Hsort : forall l, bucket_sort l ≡ₚ l).
Context (input : BarrierLoweringInput) (t : tree) (HL : lowerable input t).
Context (rounds : nat) (Hrounds : bitsPerBucket input * maxBuckets input < Z.of_nat rounds).

Lemma lowerable_length : length (in_domains input) = length (tree_ids t).
Proof using HL. rewrite <-(length_fmap ds_id). by rewrite (lowerable_ids _ _ HL). Qed.

(** Once the transitions are in, the tree can be allocated. *)
Lemma inserted_pre s0 s1 cache :
  Built input (in_domains input) (in_events input) s0 ->
  Inserted s0 (ids (events_ s0)) cache (edges s0 (ids (events_ s0))) s1 ->
  TreePre (given input) (skeleton_of s1) rounds (tree_ids t) [] 0 s1.
Proof using HL Hrounds.
  intros HB HI. pose proof (built_raw _ _ HL _ HB) as HR. rewrite <-(given_built _ _ _ HL HB).
  pose proof (in_same _ _ _ _ _ HI) as Es. pose proof (bt_same _ _ _ _ HB) as Es0.
  assert (Hcap : Z.of_nat (capacity s1) = bitsPerBucket input * maxBuckets input).
  { unfold capacity. rewrite Es, Es0. cbn. pose proof (lw_bits _ _ HL). pose proof (lw_buckets _ _ HL). nia. }
  split.
  - by eapply inserted_wf.
  - by eapply inserted_meaning.
  - done.
  - by intros id e _ ?%not_elem_of_nil.
  - intros d _. split.
    + intros id e He _. by eapply inserted_event.
    + rewrite (inserted_domains _ _ _ HI). apply HR.
  - pose proof (inserted_count _ _ _ HI) as Hc. rewrite (built_edges _ _ HL _ HB), (built_size _ _ HL _ HB) in Hc.
    unfold budget.
    assert (nextCollector_ s1 = 0) as -> by (by rewrite Es, Es0).
    pose proof (lw_size _ _ HL) as Hs. rewrite lowerable_length in Hs. rewrite Hcap. nia.
  - lia.
Qed.

Context (fuel : nat) (Hfuel : (2 * length (in_domains input) <= fuel)%nat).

Lemma place_run s0 s1 cache :
  Built input (in_domains input) (in_events input) s0 ->
  Inserted s0 (ids (events_ s0)) cache (edges s0 (ids (events_ s0))) s1 ->
  ewp False False (root ← asks root_; allocateDomainTree bucket_sort rounds fuel root;; assignRanges fuel root;; buildResult) s1
    (fun r s => Lowered input t r s) (fun x _ => x = BucketsExhausted).
Proof using All.
  intros HB HI. pose proof (inserted_pre _ _ _ HB HI) as Hpre. pose proof lowerable_length as Hlen.
  pose proof (inserted_abs _ (built_raw _ _ HL _ HB) _ _ HI) as Eabs.
  assert (Esk : skeleton_of s1 = skeleton_of s0) by (unfold skeleton_of; by rewrite (inserted_domains _ _ _ HI)).
  assert (Hin : tree_in (skeleton_of s1) None t) by (rewrite Esk; by apply (built_skeleton input)).
  assert (Es1 : root_ s1 = tree_id t /\ maxBuckets_ s1 = maxBuckets input /\ bitsPerBucket_ s1 = bitsPerBucket input).
  { rewrite (in_same _ _ _ _ _ HI), (bt_same _ _ _ _ HB). split_and!; [apply HL|done..]. }
  destruct Es1 as (Hroot & Emax & Ebits). apply ewp_bind, ewp_asks, ewp_bind. rewrite Hroot.
  eapply ewp_mono; [eapply (tree_run bucket_sort Hsort (given input) (skeleton_of s1) rounds t fuel [] None 0)| |done].
  - done.
  - constructor.
  - apply HL.
  - by intros x ?%not_elem_of_nil.
  - cbn. lia.
  - done.
  - by rewrite Eabs.
  - intros [] s2 [W2 M2 F2 _ D2 I2 _]. rewrite Eabs in F2.
    destruct (fs_const _ _ _ F2) as (Er & Eb & Em & Esk2). change (skeleton_of s2 = skeleton_of s1) in Esk2.
    assert (Hdoms : forall d, is_Some (domains_ s2 !! d) <-> d ∈ tree_ids t).
    { intros d. rewrite <-(built_domains _ _ HL _ HB). rewrite Esk in Esk2. apply (f_equal (fun T => T !! d)) in Esk2.
      unfold skeleton_of in Esk2. rewrite !lookup_fmap in Esk2.
      destruct (domains_ s2 !! d), (domains_ s0 !! d); try done; by split; intros []. }
    apply ewp_bind. eapply ewp_mono; [apply (ranges_run t fuel None); [by rewrite Esk2|apply HL|lia]| |done].
    intros rg s3 (HR3 & _ & Hok). apply buildResult_run.
    + intros id e He. destruct HR3 as (E3 & _). rewrite E3 in He. apply abs_event in He.
      destruct (D2 (ev_domain e)) with (id := id) (e := strip e) as [Hb _]; [|done|done|].
      { apply Hdoms. by apply (wf_dom _ W2 id (strip e)). }
      split; [done|]. by apply (held_range _ _ _ W2 He).
    + split; [|done]. exists s2. split_and!; try done; [by transitivity (maxBuckets_ s1)|by transitivity (bitsPerBucket_ s1)].
Qed.

Lemma bad_edge_given s0 x :
  Built input (in_domains input) (in_events input) s0 -> bad_edge s0 x -> bad_dependency input t x.
Proof using HL.
  intros HB (id & e & dep & (p & Hp & <- & ->)%(bt_events _ _ _ _ HB) & Hdep & Hbad & ->).
  exists p, dep. split_and!; try done; [by rewrite <-(built_edge _ _ HL _ HB)|].
  assert (Hiff : is_Some (events_ s0 !! dep) <-> dep ∈ es_id <$> in_events input) by (by rewrite <-ids_elem, (built_perm _ _ HL _ HB)).
  destruct (events_ s0 !! dep) eqn:E; case_decide as Hd; try done.
  - destruct Hd. apply Hiff. by eexists.
  - apply Hiff in Hd as [? ?]. congruence.
Qed.

Lemma lower_run :
  ewp False False (construct input;; run bucket_sort rounds fuel) (initial input)
    (fun r s => dependencies_ok input t /\ Lowered input t r s)
    (fun x _ => (x = BucketsExhausted /\ dependencies_ok input t) \/ bad_dependency input t x).
Proof using All.
  apply ewp_bind. eapply ewp_mono; [apply construct_run; [by apply lowerable_accepted with t|]| |done].
  { rewrite (lowerable_ids _ _ HL). apply HL. }
  intros [] s0 HB. pose proof (built_raw _ _ HL _ HB) as HR. pose proof lowerable_length as Hlen.
  unfold run. apply ewp_bind. eapply ewp_mono; [apply (validate_run fuel t)| |].
  - by apply (built_skeleton input).
  - lia.
  - intros id e (p & Hp & _ & ->)%(bt_events _ _ _ _ HB). by apply HL.
  - intros [] s' [-> Hedges]. assert (Hdeps : dependencies_ok input t).
    { intros p dep Hp Hdep. apply (built_edge _ _ HL _ HB p dep Hp).
      apply (Hedges (es_id p)); [by apply (built_events input s0 HB)|done]. }
    apply ewp_bind. eapply ewp_mono; [apply (insert_run s0 HR Hedges (fun _ _ => False))| |done].
    { rewrite (built_edges _ _ HL _ HB). pose proof (lw_size _ _ HL). pose proof (lw_bits _ _ HL).
      pose proof (lw_buckets _ _ HL). nia. }
    intros [] s1 [cache HI]. eapply ewp_mono; [by apply (place_run s0 s1 cache)| |]; auto.
  - intros x s' [_ Hbad]. right. by apply (bad_edge_given s0).
Qed.
End run.

(** ** Reading a result *)

Lemma physical_placed a id e : Wf a -> events_ a !! id = Some e -> 0 <= ev_bucket e ->
  physical e = {| pe_bucket := ev_bucket e; pe_mask := 2 ^ ev_slot e |} /\ ev_bucket e < maxBuckets_ a /\ 0 <= ev_slot e < bitsPerBucket_ a.
Proof.
  intros HW He Hb. destruct (held_range _ _ _ HW He Hb) as (_ & Hlt & Hs). destruct (wf_limits _ HW) as (Hbits & Hc & Hm).
  unfold RP1_MAX_BUCKETS in Hm. split; [|lia]. unfold physical, u8, u32. f_equal; [apply Z.mod_small; lia|].
  rewrite Z.shiftl_1_l. apply Z.mod_small. split; [apply Z.pow_nonneg; lia|apply Z.pow_lt_mono_r; lia].
Qed.

(** [id] stands for [x] once the synthetic nodes are followed. *)
Inductive resolves (nodes : list BarrierSyntheticNode) : string -> string -> Prop :=
  | resolves_real x : (forall n, n ∈ nodes -> sn_set n <> x) -> resolves nodes x x
  | resolves_via n y x : n ∈ nodes -> y ∈ sn_depends n -> resolves nodes y x -> resolves nodes (sn_set n) x.

Lemma resolves_reads a id x : Wf a -> is_Some (events_ a !! id) -> resolves (syntheticNodes_ a) id x <-> reads a id x.
Proof.
  intros HW Hid. split.
  - intros Hr. revert Hid. induction Hr as [x Hno|n y x Hn Hy _ IH]; intros [e He].
    + eapply reads_real; [done|]. destruct (synthetic e) eqn:Hs; [|done]. destruct (wf_syn_all _ HW _ _ He Hs) as (n & Hn & E).
      by destruct (Hno n Hn).
    + destruct (wf_syn _ HW _ Hn) as (e' & He' & _ & _ & Hd & Hp & Ht). assert (e' = e) as -> by congruence.
      rewrite Hd in Hy. eapply reads_via; [done| |done|].
      * unfold synthetic. rewrite Hp, Ht. by destruct (sn_kind n).
      * apply IH. by eapply (wf_dep _ HW (sn_set n) e).
  - intros Hr. clear Hid. induction Hr as [x e He Hs|c e y x He Hs Hy Hr IH].
    + apply resolves_real. intros n Hn E. destruct (wf_syn _ HW _ Hn) as (e' & He' & _ & _ & _ & Hp & Ht).
      rewrite E in He'. assert (e' = e) as -> by congruence. unfold synthetic in Hs. rewrite Hp, Ht in Hs. by destruct (sn_kind n).
    + destruct (wf_syn_all _ HW _ _ He Hs) as (n & Hn & <-). destruct (wf_syn _ HW _ Hn) as (e' & He' & _ & _ & Hd & _).
      assert (e' = e) as -> by congruence. eapply resolves_via; [done| |done]. by rewrite Hd.
Qed.

(** The domain of an event of the result. *)
Definition homed input (r : BarrierLoweringResult) id d : Prop :=
  (exists p, p ∈ in_events input /\ es_id p = id /\ es_domain p = d) \/
  exists n, n ∈ syntheticNodes r /\ sn_set n = id /\ sn_domain n = d.

(** [id] has bit [k] of [bucket]. *)
Definition bit_of (r : BarrierLoweringResult) id (bucket k : Z) : Prop :=
  out_events r !! id = Some {| pe_bucket := bucket; pe_mask := 2 ^ k |}.

Definition in_range (range : BarrierBucketRange) (z : Z) : Prop :=
  rg_empty range = false /\ rg_start range <= z <= rg_end range.

Section result.
Context (input : BarrierLoweringInput) (t : tree) (HL : lowerable input t).
Context (r : BarrierLoweringResult) (s : BarrierLowerer) (HLow : Lowered input t r s).

Lemma lowered_state : exists a, Wf a /\ Meaning (given input) a /\ (forall id e, events_ a !! id = Some e -> 0 <= ev_bucket e /\ fits a (ev_depends e)) /\
  maxBuckets_ a = maxBuckets input /\ bitsPerBucket_ a = bitsPerBucket input /\ syntheticNodes r = syntheticNodes_ a /\
  out_events r = physical <$> events_ a /\ events_ a = strip <$> events_ s /\
  (forall id e, events_ a !! id = Some e -> ev_domain e ∈ tree_ids t) /\ all_isolated (subtrees t) a /\
  forall t', t' ∈ subtrees t -> exists range, domainRanges r !! tree_id t' = Some range /\ hull range (bucket_in a (tree_ids t')).
Proof using HLow.
  destruct HLow as [(s2 & HW & HM & HD & HI & Hdoms & Em & Eb & HR & Hok) ->]. pose proof HR as (E & HRd & _).
  assert (Hdom : forall id e, events_ (abs s2) !! id = Some e -> ev_domain e ∈ tree_ids t).
  { intros id e He. apply Hdoms. by apply (wf_dom _ HW id e). }
  assert (Ev : events_ s = events_ s2) by (by rewrite E).
  exists (abs s2). split_and!; try done; cbn.
  - intros id e He. by apply (HD (ev_domain e) (Hdom id e He) id).
  - by rewrite E.
  - rewrite Ev, <-map_fmap_compose. done.
  - by rewrite Ev.
  - intros t' Ht'. exists (range_of s (tree_id t')). split; [|by apply Hok]. rewrite lookup_fmap. unfold range_of.
    assert (Hid : tree_id t' ∈ tree_ids t) by (apply (subtrees_ids t t' Ht'), tree_id_in).
    apply Hdoms in Hid as [dm Hdm]. destruct (HRd (tree_id t')) as [rg ->]. by rewrite Hdm.
Qed.

Lemma event_homed a id e : Wf a -> Meaning (given input) a -> syntheticNodes r = syntheticNodes_ a -> events_ a !! id = Some e ->
  homed input r id (ev_domain e).
Proof using HL.
  intros HW HM Es He. unfold homed. rewrite Es. destruct (synthetic e) eqn:Hs.
  - right. destruct (wf_syn_all _ HW _ _ He Hs) as (n & Hn & <-). exists n. split; [done|]. split; [done|].
    destruct (wf_syn _ HW _ Hn) as (e' & He' & _ & -> & _). congruence.
  - left. destruct (proj1 (me_real _ _ HM id) ltac:(eauto)) as [dep Hdep]. pose proof (me_domain _ _ HM _ _ _ He Hdep) as ->.
    apply given_lookup in Hdep as (p & Hp & Hid & ->); [by exists p|apply HL].
Qed.
End result.

(** [deps] can be awaited with one mask. *)
Definition one_bucket (r : BarrierLoweringResult) (deps : list string) : Prop :=
  exists bucket, forall y, y ∈ deps -> exists pe, out_events r !! y = Some pe /\ pe_bucket pe = bucket.

Lemma fits_one_bucket a r deps : Wf a -> out_events r = physical <$> events_ a ->
  (forall y, y ∈ deps -> is_Some (events_ a !! y)) -> fits a deps -> one_bucket r deps.
Proof.
  intros HW Ho Hk (b & Hb & Hf). exists b. intros y Hy. destruct (Hk y Hy) as [e He]. exists (physical e).
  rewrite Ho, lookup_fmap, He. split; [done|]. specialize (Hf y Hy). rewrite (bucket_of_event _ _ _ He) in Hf.
  destruct (physical_placed _ _ _ HW He ltac:(lia)) as [-> _]. done.
Qed.

(** A place in the bucket numbering decides the domain. *)
Lemma isolated_range a P lo hi range id e :
  Wf a -> events_ a !! id = Some e -> 0 <= ev_bucket e -> isolated P lo hi a -> hull range (bucket_in a P) ->
  in_range range (ev_bucket e) <-> ev_domain e ∈ P.
Proof.
  intros HW He Hb Hiso Hh. destruct (held_range _ _ _ HW He Hb) as [(dm & b & Hdm & Hin & Eb & _) _].
  assert (Hends : forall z, bucket_in a P z -> lo <= z < hi).
  { intros z (d & dz & bz & Hd & Hdz & Hbz & <-). by apply (Hiso d dz bz). }
  unfold hull in Hh. unfold in_range. split.
  - intros [Hne Hr]. rewrite Hne in Hh. destruct Hh as (Hs & Hl & _). apply (Hiso _ _ _ Hdm Hin).
    apply Hends in Hs, Hl. lia.
  - intros HP. assert (Hbi : bucket_in a P (ev_bucket e)) by (by exists (ev_domain e), dm, b).
    destruct (rg_empty range); [by destruct (Hh _ Hbi)|]. split; [done|]. by apply Hh.
Qed.

Section claims.
Context (bucket_sort : list BarrierBucket -> list BarrierBucket) (Hsort : forall l, bucket_sort l ≡ₚ l).
Context (rounds fuel : nat) (input : BarrierLoweringInput) (t : tree) (HL : lowerable input t).
Context (Hrounds : bitsPerBucket input * maxBuckets input < Z.of_nat rounds).
Context (Hfuel : (2 * length (in_domains input) <= fuel)%nat).

Context (r : BarrierLoweringResult) (s : BarrierLowerer).
Context (Hret : lowerBarrierEvents bucket_sort rounds fuel input = Ret (Val r) s).

Lemma lowered_result : Lowered input t r s.
Proof using All. apply (ewp_run _ _ _ _ _ _ (lower_run bucket_sort Hsort input t HL rounds Hrounds fuel Hfuel) Hret). Qed.

(** The given events and the ones of the synthetic nodes are those of the
    result. *)
Lemma lowered_events id : is_Some (out_events r !! id) <-> exists d, homed input r id d.
Proof using All.
  destruct (lowered_state input t r s lowered_result) as (a & HW & HM & _ & _ & _ & Es & Eo & _). rewrite Eo, lookup_fmap, fmap_is_Some. split.
  - intros [e He]. exists (ev_domain e). by apply (event_homed input t HL r a).
  - unfold homed. rewrite Es. intros (d & [(p & Hp & <- & _)|(n & (e & He & _)%(wf_syn _ HW) & <- & _)]); [|by eexists].
    destruct (proj2 (me_real _ _ HM (es_id p))) as (e & He & _); [|by eexists]. eexists. apply given_lookup; [apply HL|by exists p].
Qed.

Lemma lowered_bits :
  (forall id pe, out_events r !! id = Some pe -> exists k, bit_of r id (pe_bucket pe) k /\
    0 <= pe_bucket pe < maxBuckets input /\ 0 <= k < bitsPerBucket input) /\
  (forall id1 id2 bucket k, 0 <= k -> bit_of r id1 bucket k -> bit_of r id2 bucket k -> id1 = id2).
Proof using All.
  destruct (lowered_state input t r s lowered_result) as (a & HW & HM & HD & Em & Eb & Es & Eo & _). unfold bit_of. rewrite Eo.
  assert (Hout : forall id pe, (physical <$> events_ a) !! id = Some pe <-> exists e, events_ a !! id = Some e /\ pe = physical e).
  { intros id pe. by rewrite lookup_fmap, fmap_Some. }
  split.
  - intros id pe (e & He & ->)%Hout. destruct (HD _ _ He) as [Hb _].
    destruct (physical_placed _ _ _ HW He Hb) as (E & ? & ?). exists (ev_slot e). rewrite E. cbn. rewrite <-Em, <-Eb.
    split_and!; try lia. apply Hout. by exists e.
  - intros id1 id2 bucket k Hk (e1 & He1 & E1)%Hout (e2 & He2 & E2)%Hout.
    destruct (HD _ _ He1) as [Hb1 _], (HD _ _ He2) as [Hb2 _].
    destruct (physical_placed _ _ _ HW He1 Hb1) as (F1 & _ & ?), (physical_placed _ _ _ HW He2 Hb2) as (F2 & _ & ?).
    rewrite F1 in E1. rewrite F2 in E2. injection E1 as B1 S1. injection E2 as B2 S2.
    apply Z.pow_inj_r in S1, S2; [|lia..]. eapply (bits_exclusive a id1 e1 id2 e2); try done; congruence.
Qed.

(** What the events of the lowerer wait for, in terms of the result. *)
Lemma lowered_awaits a id e : Wf a -> Meaning (given input) a -> syntheticNodes r = syntheticNodes_ a -> out_events r = physical <$> events_ a ->
  events_ a !! id = Some e -> fits a (ev_depends e) ->
  one_bucket r (ev_depends e) /\ (ev_isTransition e = false -> forall y, y ∈ ev_depends e -> homed input r y (ev_domain e)).
Proof using HL.
  intros HW HM Es Eo He Hfit. split.
  - apply (fits_one_bucket a); [done..| |done]. intros y. by apply (wf_dep _ HW id e).
  - intros Ht y Hy. destruct (wf_dep _ HW _ _ _ He Hy) as [e' He']. rewrite <-(wf_local _ HW _ _ _ _ He Ht Hy He').
    by apply (event_homed input t HL r a).
Qed.

Lemma lowered_refines p : p ∈ in_events input -> exists awaited, one_bucket r awaited /\
  (forall y, y ∈ awaited -> homed input r y (es_domain p)) /\
  forall x, x ∈ es_depends p <-> exists y, y ∈ awaited /\ resolves (syntheticNodes r) y x.
Proof using All.
  destruct (lowered_state input t r s lowered_result) as (a & HW & HM & HD & _ & _ & Es & Eo & _). intros Hp.
  assert (Hg : given input !! es_id p = Some (es_domain p, es_depends p)) by (apply given_lookup; [apply HL|by exists p]).
  destruct (proj2 (me_real _ _ HM (es_id p)) ltac:(by eexists)) as (e & He & Hs).
  pose proof (me_domain _ _ HM _ _ _ He Hg) as Hd. cbn in Hd.
  destruct (lowered_awaits a (es_id p) e HW HM Es Eo He (proj2 (HD _ _ He))) as [Ho Hh]. exists (ev_depends e).
  split; [done|]. split.
  - rewrite <-Hd. apply Hh. apply orb_false_iff in Hs as [_ ?]. done.
  - intros x. rewrite (me_depends _ _ HM _ _ _ x He Hg), Es. split; intros (y & Hy & Hr); exists y; (split; [done|]);
      (apply resolves_reads; [done| |done]); by apply (wf_dep _ HW (es_id p) e).
Qed.

Lemma lowered_synthetic n : n ∈ syntheticNodes r -> one_bucket r (sn_depends n) /\
  match sn_kind n with
  | Collector => forall y, y ∈ sn_depends n -> homed input r y (sn_domain n)
  | Transition => exists x, sn_depends n = [x] /\ x ∈ es_id <$> in_events input
  end.
Proof using All.
  destruct (lowered_state input t r s lowered_result) as (a & HW & HM & HD & _ & _ & Es & Eo & _). rewrite Es.
  intros (e & He & _ & Hd & Hdep & Hp & Ht)%(wf_syn _ HW).
  destruct (lowered_awaits a (sn_set n) e HW HM Es Eo He (proj2 (HD _ _ He))) as [Ho Hh]. rewrite Hdep, Hd. split; [done|].
  destruct (sn_kind n); [by apply Hh|]. destruct (wf_trans _ HW _ _ He Ht) as (_ & x & e' & -> & He' & Hs & _). exists x. split; [done|].
  destruct (proj1 (me_real _ _ HM x) ltac:(eauto)) as [dep (q & Hq & <- & _)%given_lookup]; [|apply HL].
  apply list_elem_of_fmap. by exists q.
Qed.

(** The bucket range of a domain holds the bits of the events at or below
    the domain, and of no other event: resetting the range clears a subtree of
    the domains, no more and no less. *)
Theorem lowering_ranges_exact t' id d pe :
  t' ∈ subtrees t -> homed input r id d -> out_events r !! id = Some pe ->
  exists range, domainRanges r !! tree_id t' = Some range /\ (in_range range (pe_bucket pe) <-> d ∈ tree_ids t').
Proof using All.
  intros Ht' Hhome Hpe. destruct (lowered_state input t r s lowered_result) as (a & HW & HM & HD & _ & _ & Es & Eo & _ & _ & HI & HR).
  destruct (HR t' Ht') as (range & Er & Hh). exists range. split; [done|]. rewrite Eo, lookup_fmap in Hpe.
  apply fmap_Some in Hpe as (e & He & ->). destruct (HD _ _ He) as [Hb _].
  assert (ev_domain e = d) as <-.
  { destruct Hhome as [(p & Hp & <- & <-)|(n & Hn & <- & <-)].
    - apply (me_domain _ _ HM (es_id p) e (es_domain p, es_depends p) He). apply given_lookup; [apply HL|by exists p].
    - rewrite Es in Hn. destruct (wf_syn _ HW _ Hn) as (e' & He' & _ & -> & _). congruence. }
  destruct (HI t' Ht') as (lo & hi & _ & Hiso). destruct (physical_placed _ _ _ HW He Hb) as (-> & _).
  by apply (isolated_range a (tree_ids t') lo hi range id e).
Qed.
End claims.

(** C36: the barrier lowering always returns for an input as in [lowerable],
    whatever order [std::sort] leaves equal buckets in: it neither runs forever,
    nor uses a bucket that is not there, nor fails one of its internal checks.
    It rejects the input for a dependency exactly when there is one that is
    unknown or not at or above the domain of the event that waits for it;
    otherwise it gives a result or reports that the buckets are used up. *)
Theorem lowering_total bucket_sort rounds fuel input t :
  (forall l, bucket_sort l ≡ₚ l) -> lowerable input t -> bitsPerBucket input * maxBuckets input < Z.of_nat rounds ->
  (2 * length (in_domains input) <= fuel)%nat ->
  exists x s, lowerBarrierEvents bucket_sort rounds fuel input = Ret x s /\
    match x with
    | Val _ => dependencies_ok input t
    | Exn e => (e = BucketsExhausted /\ dependencies_ok input t) \/ bad_dependency input t e
    end.
Proof.
  intros Hsort HL Hrounds Hfuel. pose proof (lower_run bucket_sort Hsort input t HL rounds Hrounds fuel Hfuel) as Hrun.
  unfold lowerBarrierEvents. unfold ewp, post in Hrun.
  destruct ((construct input;; run bucket_sort rounds fuel) (initial input)) as [x s| |]; [|done..].
  exists x, s. split; [done|]. destruct x; [apply Hrun|done].
Qed.

(** C18: in a result of the lowering of an input as in [lowerable], for any
    order [std::sort] leaves equal buckets in: the events are the given ones and
    the ones of the synthetic nodes, each has one bit of a bucket that exists,
    and no two events have the same bit. *)
Theorem lowering_exclusive_bits bucket_sort rounds fuel input t r s :
  (forall l, bucket_sort l ≡ₚ l) -> lowerable input t -> bitsPerBucket input * maxBuckets input < Z.of_nat rounds ->
  (2 * length (in_domains input) <= fuel)%nat -> lowerBarrierEvents bucket_sort rounds fuel input = Ret (Val r) s ->
  (forall id, is_Some (out_events r !! id) <-> exists d, homed input r id d) /\
  (forall id pe, out_events r !! id = Some pe -> exists k, bit_of r id (pe_bucket pe) k /\
    0 <= pe_bucket pe < maxBuckets input /\ 0 <= k < bitsPerBucket input) /\
  (forall id1 id2 bucket k, 0 <= k -> bit_of r id1 bucket k -> bit_of r id2 bucket k -> id1 = id2).
Proof.
  intros Hsort HL Hrounds Hfuel Hret. split; [by eapply lowered_events|]. by eapply lowered_bits.
Qed.

(** C17: in a result of the lowering of an input as in [lowerable], for any
    order [std::sort] leaves equal buckets in, the dependencies of every given
    event can be awaited with one mask: there are events of the result, of its
    own domain and with bits in one bucket, that stand for them; following the
    collectors and transitions of the result from these events leads to the
    dependencies the event was given, all of them and no others.  A collector
    waits for events of its own domain in one bucket, and a transition for one
    given event. *)
Theorem lowering_awaits_refine bucket_sort rounds fuel input t r s :
  (forall l, bucket_sort l ≡ₚ l) -> lowerable input t -> bitsPerBucket input * maxBuckets input < Z.of_nat rounds ->
  (2 * length (in_domains input) <= fuel)%nat -> lowerBarrierEvents bucket_sort rounds fuel input = Ret (Val r) s ->
  (forall p, p ∈ in_events input -> exists awaited, one_bucket r awaited /\
     (forall y, y ∈ awaited -> homed input r y (es_domain p)) /\
     forall x, x ∈ es_depends p <-> exists y, y ∈ awaited /\ resolves (syntheticNodes r) y x) /\
  (forall n, n ∈ syntheticNodes r -> one_bucket r (sn_depends n) /\
     match sn_kind n with
     | Collector => forall y, y ∈ sn_depends n -> homed input r y (sn_domain n)
     | Transition => exists x, sn_depends n = [x] /\ x ∈ es_id <$> in_events input
     end).
Proof.
  intros Hsort HL Hrounds Hfuel Hret. split; [intros p; by eapply lowered_refines|intros n; by eapply lowered_synthetic].
Qed.

(** ** Examples *)

Section examples.
Open Scope string_scope.

Definition event_spec id domain depends : BarrierEventSpec :=
  {| es_id := id; es_domain := domain; es_depends := depends |}.

(** Two nested loops; the inner one waits across both. *)
Definition nested_tree : tree := Node "root" [Node "loop1" [Node "loop2" []]].
Definition nested : BarrierLoweringInput := {|
  rootDomain := "root"; in_domains := tree_specs None nested_tree;
  in_events := [event_spec "r0" "root" []; event_spec "r1" "root" []; event_spec "r2" "root" ["r0"; "r1"];
    event_spec "l1" "loop1" ["r0"]; event_spec "l2" "loop2" ["r1"; "l1"; "r2"]];
  bitsPerBucket := 2; maxBuckets := 32 |}.

Lemma nested_lowerable : lowerable nested nested_tree.
Proof.
  split.
  - cbn. lia.
  - cbn. unfold RP1_MAX_BUCKETS. lia.
  - done.
  - done.
  - by apply (bool_decide_unpack _).
  - apply Forall_forall. repeat constructor; apply (bool_decide_unpack _); by vm_compute.
  - by apply (bool_decide_unpack _).
  - apply Forall_forall. repeat constructor; intros [?|(k & [?|?])]; discriminate.
  - vm_compute. done.
Qed.

Lemma nested_returns : exists r s pe, lowerBarrierEvents stable_sort 65 6 nested = Ret (Val r) s /\ out_events r !! "l2" = Some pe.
Proof.
  assert (H : match lowerBarrierEvents stable_sort 65 6 nested with
    | Ret (Val r) _ => bool_decide (is_Some (out_events r !! "l2")) | _ => false end = true) by (vm_compute; reflexivity).
  destruct (lowerBarrierEvents stable_sort 65 6 nested) as [[r|x] s| |]; [|discriminate..].
  apply bool_decide_eq_true in H as [pe H]. exists r, s, pe. split; [reflexivity|exact H].
Qed.

Lemma stable_sort_perm l : stable_sort l ≡ₚ l.
Proof. apply merge_sort_Permutation. Qed.

Lemma lowering_total_witness : exists x s, lowerBarrierEvents stable_sort 65 6 nested = Ret x s.
Proof.
  destruct (lowering_total stable_sort 65 6 nested nested_tree stable_sort_perm nested_lowerable) as (x & s & E & _);
    [reflexivity|vm_compute; lia|exists x, s; exact E].
Defined.

Lemma lowering_exclusive_bits_witness : exists r s, lowerBarrierEvents stable_sort 65 6 nested = Ret (Val r) s /\
  is_Some (out_events r !! "r2").
Proof.
  destruct nested_returns as (r & s & pe & E & _). exists r, s. split; [exact E|].
  destruct (lowering_exclusive_bits stable_sort 65 6 nested nested_tree r s stable_sort_perm nested_lowerable) as [H _];
    [reflexivity|vm_compute; lia|exact E|]. apply H. exists "root". left. exists (event_spec "r2" "root" ["r0"; "r1"]).
  split_and!; [do 2 right; by left|done..].
Defined.

Lemma lowering_awaits_refine_witness : exists r s awaited, lowerBarrierEvents stable_sort 65 6 nested = Ret (Val r) s /\
  one_bucket r awaited /\ exists y, y ∈ awaited /\ homed nested r y "loop2" /\ resolves (syntheticNodes r) y "r1".
Proof.
  destruct nested_returns as (r & s & pe & E & _).
  destruct (lowering_awaits_refine stable_sort 65 6 nested nested_tree r s stable_sort_perm nested_lowerable) as [H _];
    [reflexivity|vm_compute; lia|exact E|].
  destruct (H (event_spec "l2" "loop2" ["r1"; "l1"; "r2"])) as (awaited & Ho & Hh & Hx); [do 4 right; by left|].
  exists r, s, awaited. split; [exact E|]. split; [exact Ho|]. destruct (proj1 (Hx "r1") ltac:(by left)) as (y & Hy & Hr).
  exists y. split; [exact Hy|]. split; [by apply Hh|exact Hr].
Defined.

Lemma lowering_ranges_exact_witness : exists r s pe range, lowerBarrierEvents stable_sort 65 6 nested = Ret (Val r) s /\
  out_events r !! "l2" = Some pe /\ domainRanges r !! "loop1" = Some range /\ in_range range (pe_bucket pe).
Proof.
  destruct nested_returns as (r & s & pe & E & Hpe). exists r, s, pe.
  destruct (lowering_ranges_exact stable_sort stable_sort_perm 65 6 nested nested_tree nested_lowerable) with r s
    (Node "loop1" [Node "loop2" []]) "l2" "loop2" pe as (range & Hr & Hin); [reflexivity|vm_compute; lia|exact E| | |exact Hpe|].
  - right. by left.
  - left. exists (event_spec "l2" "loop2" ["r1"; "l1"; "r2"]). split_and!; [do 4 right; by left|done..].
  - exists range. split; [exact E|]. split; [exact Hpe|]. split; [exact Hr|]. apply Hin. right. by left.
Defined.

(** An event with the empty name takes a bit and leaves it free. *)
Definition unnamed : BarrierLoweringInput := {|
  rootDomain := "root"; in_domains := tree_specs None (Node "root" []);
  in_events := [event_spec "" "root" []; event_spec "b" "root" []]; bitsPerBucket := 2; maxBuckets := 32 |}.

(** An event whose name is empty is accepted, and gets the same bit as the
    next event: the empty string marks free slots. *)
Theorem empty_event_id_collides : match lowerBarrierEvents stable_sort 65 6 unnamed with
  | Ret (Val r) _ => out_events r !! "" = Some {| pe_bucket := 0; pe_mask := 1 |} /\
      out_events r !! "b" = Some {| pe_bucket := 0; pe_mask := 1 |}
  | _ => False
  end.
Proof. vm_compute. done. Qed.

(** An event of the inner domain that is named like the first transition. *)
Definition clash : BarrierLoweringInput := {|
  rootDomain := "root"; in_domains := tree_specs None (Node "root" [Node "loop" []]);
  in_events := [event_spec "a" "root" []; event_spec (transition_id 0) "loop" []; event_spec "b" "loop" ["a"]];
  bitsPerBucket := 8; maxBuckets := 32 |}.

(** An event with the name of a transition is accepted, and the transition of
    the result sets the bit of that event. *)
Theorem reserved_name_collides : match lowerBarrierEvents stable_sort 257 6 clash with
  | Ret (Val r) _ => sn_set <$> syntheticNodes r = [transition_id 0] /\
      out_events r !! transition_id 0 = Some {| pe_bucket := 1; pe_mask := 1 |} /\ size (out_events r) = 3%nat
  | _ => False
  end.
Proof. vm_compute. done. Qed.
End examples.
