(* ===== verification/MainlineImage.v ===== *)
(** * Lowering a command list to an RP1 image

    [FpgaDevicePlan] (vrt/src/graph/device/fpga_device.cpp) turns a queue
    program without loops and conditionals into the packets RP1 executes: one
    packet per command, extra packets that move scalars between kernels and
    signal slots, collectors where a packet waits for bits of several buckets,
    and the sentinel that signals completion.  This file models
    [buildMainlineImage], [emitMainlineCommands] and everything they call:
    argument packing, register offsets and kernel locations from the loaded
    images, and the reservation of signal slots.

    The lookup a caller installs for devices without image metadata is a
    function of the model; it answers [None] where it throws.  Texts of
    exceptions, environment-variable diagnostics and fields that no function
    here reads (device ids, publications of control commands) are left out. *)

From Stdlib Require Import Ascii.
From stdpp Require Import gmap strings sorting pretty.
From S2P Require Import Prelude Except Rp1Protocol Rp1Loop Rp1Window Rp1Submitter ControlLowering BarrierLowering.
Open Scope Z_scope.

(** ** Programs *)

Inductive BufferType := B_U8 | B_U16 | B_U32 | B_U64 | B_I8 | B_I16 | B_I32 | B_I64 | B_F32 | B_F64.

Record GraphScalar := { gs_type : ScalarType; varName : string; gs_scopeId : Z }.
Record GraphBuffer := {
  gb_type : BufferType; gb_name : string; gb_scopeId : Z; gb_size : option GraphScalar
}.

Record ScalarPort := { sp_name : string; sp_type : ScalarType }.
Record BufferPort := { bp_name : string; bp_type : BufferType }.
Record RWBufferPort := { rw_in : BufferPort; rw_out : BufferPort }.
Record IOTypeMap := {
  inputScalars : list ScalarPort; outputScalars : list ScalarPort;
  inputs : list BufferPort; outputs : list BufferPort; inouts : list RWBufferPort
}.
Record KernelDescriptor := { kd_name : string; kd_image : option string; ioType : IOTypeMap }.

Record InoutBinding := { inPort : string; outPort : string; ib_in : GraphBuffer; ib_out : GraphBuffer }.
Record PortBindings := {
  b_inputScalars : gmap string GraphScalar; b_outputScalars : gmap string GraphScalar;
  b_inputs : gmap string GraphBuffer; b_outputs : gmap string GraphBuffer;
  b_inouts : list InoutBinding
}.

Record Rp1KernelCommand := {
  k_id : string; k_kernel : KernelDescriptor; k_ioMap : PortBindings; k_dependsOn : list string
}.
Record Rp1ReprogramCommand := {
  r_id : string; r_imageId : string; r_pdiPath : string; r_timeoutCycles : Z; r_dependsOn : list string
}.
Record Rp1BoundaryCommand := { bd_id : string; bd_dependsOn : list string }.
Inductive Rp1SplitRole := SplitNone | Authority | Follower.
Record Rp1LoopCommand := {
  l_id : string; l_dependsOn : list string; broadcastRole : Rp1SplitRole;
  conditionBroadcastSlot : Z; broadcastReadySlot : Z; broadcastAckSlot : Z
}.
Record Rp1ConditionalCommand := { c_id : string; c_dependsOn : list string }.
Record Rp1SignalCommand := {
  s_id : string; s_dependsOn : list string; s_slot : Z; s_value : Z; s_operation : Z
}.
Record Rp1WaitCommand := {
  w_id : string; w_dependsOn : list string; w_slot : Z; w_value : Z; w_conditionOp : Z
}.

Inductive Rp1Command :=
  | KernelCommand (k : Rp1KernelCommand) | ReprogramCommand (r : Rp1ReprogramCommand)
  | BoundaryCommand (b : Rp1BoundaryCommand) | LoopCommand (l : Rp1LoopCommand)
  | ConditionalCommand (c : Rp1ConditionalCommand) | SignalCommand (s : Rp1SignalCommand)
  | WaitCommand (w : Rp1WaitCommand).

Definition rp1CommandId (c : Rp1Command) : string :=
  match c with
  | KernelCommand k => k_id k | ReprogramCommand r => r_id r | BoundaryCommand b => bd_id b
  | LoopCommand l => l_id l | ConditionalCommand c => c_id c | SignalCommand s => s_id s
  | WaitCommand w => w_id w
  end.

Definition rp1CommandDependsOn (c : Rp1Command) : list string :=
  match c with
  | KernelCommand k => k_dependsOn k | ReprogramCommand r => r_dependsOn r
  | BoundaryCommand b => bd_dependsOn b | LoopCommand l => l_dependsOn l
  | ConditionalCommand c => c_dependsOn c | SignalCommand s => s_dependsOn s
  | WaitCommand w => w_dependsOn w
  end.

Inductive Rp1ChildRole := LoopBody | ConditionalThen | ConditionalElse.

(** A child program pointer can be null. *)
Inductive Rp1QueueProgram := mkProgram {
  commands : list Rp1Command;
  scalarResources : gmap string Z;
  resourcesLeased : bool;
  children : list Rp1ChildProgram
}
with Rp1ChildProgram := mkChild {
  parentCommandId : string; role : Rp1ChildRole; programs : list (option Rp1QueueProgram)
}.

Definition scopedScalarKey (scopeId : Z) (name : string) : string :=
  ("scope:" +:+ pretty scopeId +:+ ":" +:+ name)%string.
Definition scopedBufferKey (scopeId : Z) (name : string) : string :=
  ("scope:" +:+ pretty scopeId +:+ ":" +:+ name)%string.
Definition scalar_key (g : GraphScalar) : string := scopedScalarKey (gs_scopeId g) (varName g).

(** ** The device and its images *)

Record FpgaKernelArgSpec := {
  arg_name : string; arg_type : string; arg_offset : Z; readable : bool; writable : bool; arg_port : string
}.
Record FpgaKernelSpec := { r5_base_addr : Z; args : list FpgaKernelArgSpec }.
Record FpgaImageSpec := { kernels : gmap string FpgaKernelSpec }.
Record FpgaKernelLocation := { loc_base : Z; loc_timeout_cycles : Z }.

(** [vbinSpec_], [activeImageId_] and [lookup_] of [FpgaDevice]. *)
Record FpgaDevice := {
  vbinSpec_ : option (gmap string FpgaImageSpec);
  activeImageId_ : string;
  lookup_ : option (string -> option FpgaKernelLocation)
}.

Inductive image_exn :=
  | EmptyProgram | MainlineTooLarge | NonRp1Node | JoinBucketsExhausted | ImageTooLarge
  | SentinelCollision (slot : Z) | NoLeasedSlot (key : string) | SlotsExhausted
  | WideOutputScalar (port : string) | UnboundPort (port : string) | NoRegisterOffset (port : string)
  | ArgBufferOverflow (port : string) | TooManyArguments | OutOfRange (port : string)
  | NullScalarMap | UnsetScalar (key : string)
  | NoActiveImage | UnknownImage | UnknownKernel | NoLookup | LookupThrows | UnmappedKernel.

(** The image a kernel runs in: its own or the active one. *)
Definition image_of (dev : FpgaDevice) (kernel : KernelDescriptor) : string :=
  default (activeImageId_ dev) (kd_image kernel).

Definition resolveKernelLocation (dev : FpgaDevice) (kernel : KernelDescriptor)
    : except image_exn FpgaKernelLocation :=
  match vbinSpec_ dev with
  | Some images =>
      let imageId := image_of dev kernel in
      if decide (imageId = EmptyString) then Exn NoActiveImage
      else match images !! imageId with
      | None => Exn UnknownImage
      | Some image =>
          match kernels image !! kd_name kernel with
          | None => Exn UnknownKernel
          | Some spec => Val {| loc_base := r5_base_addr spec; loc_timeout_cycles := 0 |}
          end
      end
  | None =>
      match lookup_ dev with
      | None => Exn NoLookup
      | Some lookup =>
          match lookup (kd_name kernel) with
          | None => Exn LookupThrows
          | Some loc => if loc_base loc =? 0 then Exn UnmappedKernel else Val loc
          end
      end
  end.

(** [std::tolower] in the C locale *)
Definition tolower (c : Ascii.ascii) : Ascii.ascii :=
  let n := Ascii.nat_of_ascii c in
  if ((65 <=? n) && (n <=? 90))%nat then Ascii.ascii_of_nat (n + 32) else c.

Definition isBufferArg (arg : FpgaKernelArgSpec) : bool :=
  let t := map tolower (String.list_ascii_of_string (arg_type arg)) in
  bool_decide (t = String.list_ascii_of_string "buffer") || bool_decide ("*"%char ∈ t).

(** The loop that sorts the arguments into scalars and buffers; [promote]
    readable-only pointers without a memory port count as scalars. *)
Fixpoint split_args (promote : nat) (l : list FpgaKernelArgSpec) : list string * list string :=
  match l with
  | [] => ([], [])
  | arg :: l' =>
      if isBufferArg arg then
        if (0 <? promote)%nat && readable arg && negb (writable arg) && bool_decide (arg_port arg = EmptyString)
        then let r := split_args (promote - 1) l' in (arg_name arg :: r.1, r.2)
        else let r := split_args promote l' in (r.1, arg_name arg :: r.2)
      else let r := split_args promote l' in (arg_name arg :: r.1, r.2)
  end.

(** [out[k] = v] for the pairs in turn. *)
Definition assign_all {A} (l : list (string * A)) (m : gmap string A) : gmap string A :=
  foldl (fun m kv => <[kv.1 := kv.2]> m) m l.

(** The metadata of a kernel, where the device has it. *)
Definition kernel_args (dev : FpgaDevice) (kernel : KernelDescriptor) : option (list FpgaKernelArgSpec) :=
  images ← vbinSpec_ dev;
  let imageId := image_of dev kernel in
  if decide (imageId = EmptyString) then None
  else image ← images !! imageId; spec ← kernels image !! kd_name kernel; Some (args spec).

Definition descriptorPortToArgName (dev : FpgaDevice) (kernel : KernelDescriptor) : gmap string string :=
  match kernel_args dev kernel with
  | None => ∅
  | Some l =>
      let d := ioType kernel in
      let descScalars := map sp_name (inputScalars d) ++ map sp_name (outputScalars d) in
      let descBuffers := map bp_name (inputs d) ++ map bp_name (outputs d) ++
        map (fun p => bp_name (rw_in p)) (inouts d) in
      let specScalarCount := length (filter (fun a => isBufferArg a = false) l) in
      let spec := split_args (length descScalars - specScalarCount) l in
      let out := assign_all (zip descBuffers spec.2) (assign_all (zip descScalars spec.1) ∅) in
      foldl (fun out p =>
        match out !! bp_name (rw_in p) with
        | Some a => <[bp_name (rw_out p) := a]> out
        | None => out
        end) out (inouts d)
  end.

Definition kernelArgOffsets (dev : FpgaDevice) (kernel : KernelDescriptor) : gmap string Z :=
  match kernel_args dev kernel with
  | None => ∅
  | Some l =>
      let byArgName := assign_all (map (fun a => (arg_name a, arg_offset a)) l) ∅ in
      let offsets := omap (fun argName => byArgName !! argName) (descriptorPortToArgName dev kernel) in
      if decide (offsets = ∅) then byArgName else offsets
  end.

Definition outputScalarRegOffset (dev : FpgaDevice) (kernel : KernelDescriptor) (portName : string)
    : except image_exn Z :=
  match kernelArgOffsets dev kernel !! portName with
  | Some off => Val off
  | None => match vbinSpec_ dev with Some _ => Exn (NoRegisterOffset portName) | None => Val 0x10 end
  end.

(** The 1-based index of [name] in [l]. *)
Fixpoint index_from (n : Z) (name : string) (l : list string) : option Z :=
  match l with
  | [] => None
  | x :: l' => if decide (x = name) then Some n else index_from (add32 n 1) name l'
  end.

Definition imageNumericId (dev : FpgaDevice) (imageId : string) : Z :=
  match vbinSpec_ dev with
  | None => 0
  | Some images =>
      if decide (imageId = EmptyString) then 0 else default 0 (index_from 1 imageId (ids images))
  end.

(** ** The plan under construction *)

Record DeferredScalar := {
  df_scopedKey : string; df_fallbackKey : string; df_hasFallback : bool; df_type : ScalarType;
  df_arg_word_offset : Z
}.
Record DeferredPdi := { dp_nodeIndex : nat; dp_imageId : string; dp_pdiPath : string }.
Record DeferredBufferAddress := { da_buffer : GraphBuffer; da_arg_word_offset : Z }.
Record DeferredBufferAlias := { sourceKey : string; targetKey : string; sizeToken : GraphBuffer }.

(** What is patched into the image at launch. *)
Record fixups := {
  deferred_ : list DeferredScalar;
  deferredPdis_ : list DeferredPdi;
  pdiImagesByNode_ : gmap nat string;
  deferredBufferAddresses_ : list DeferredBufferAddress;
  deferredBufferAliases_ : list DeferredBufferAlias;
  scalarSlots_ : gmap string Z
}.

(** Signal slots: of this image, of the device, and those the plan owns. *)
Record slot_state := {
  slotAlloc : reservations; scalarSlotAlloc_ : reservations; ownedSignalSlots_ : gset Z
}.

(** A [std::map] from buckets to bits. *)
Abbreviation bit_groups := (list (Z * Z)).

Record MainlineScalarReady := { mr_slot : Z; mr_bucket : Z; mr_mask : Z }.

Record scalar_state := {
  scalarReady : gmap string MainlineScalarReady; extraLeafGroups : bit_groups; nextExtraPos : nat
}.

Record join_state := { aggregators : list rp1_node_t; joinBucket : Z; joinBit : Z }.

Record lowering := {
  fixes : fixups; slots : slot_state; scalars : scalar_state; joins : join_state; image : Rp1GraphImage
}.

Definition set_fixes f (s : lowering) : lowering := {|
  fixes := f; slots := slots s; scalars := scalars s; joins := joins s; image := image s |}.
Definition set_slots f (s : lowering) : lowering := {|
  fixes := fixes s; slots := f; scalars := scalars s; joins := joins s; image := image s |}.
Definition set_scalars f (s : lowering) : lowering := {|
  fixes := fixes s; slots := slots s; scalars := f; joins := joins s; image := image s |}.
Definition set_joins f (s : lowering) : lowering := {|
  fixes := fixes s; slots := slots s; scalars := scalars s; joins := f; image := image s |}.
Definition set_image f (s : lowering) : lowering := {|
  fixes := fixes s; slots := slots s; scalars := scalars s; joins := joins s; image := f |}.

Definition with_nodes l (i : Rp1GraphImage) : Rp1GraphImage := {|
  img_nodes := l; arg_buf := arg_buf i; clear_signal_slots := clear_signal_slots i;
  cq_size_override := cq_size_override i; img_trace_enable := img_trace_enable i;
  trace_size_override := trace_size_override i |}.
Definition with_args l (i : Rp1GraphImage) : Rp1GraphImage := {|
  img_nodes := img_nodes i; arg_buf := l; clear_signal_slots := clear_signal_slots i;
  cq_size_override := cq_size_override i; img_trace_enable := img_trace_enable i;
  trace_size_override := trace_size_override i |}.
Definition with_clears l (i : Rp1GraphImage) : Rp1GraphImage := {|
  img_nodes := img_nodes i; arg_buf := arg_buf i; clear_signal_slots := l;
  cq_size_override := cq_size_override i; img_trace_enable := img_trace_enable i;
  trace_size_override := trace_size_override i |}.

Abbreviation IM := (EM image_exn lowering).

(** A call that only computes or throws. *)
Definition call {A} (r : except image_exn A) : IM A := fun s => Ret r s.

(** [image.nodes.push_back(n)], giving the index. *)
Definition push_node (n : rp1_node_t) : IM nat :=
  index ← asks (fun s => length (img_nodes (image s)));
  updates (fun s => set_image (with_nodes (img_nodes (image s) ++ [n]) (image s)) s);;
  mret index.

(** ** Argument packing *)

Definition kArgBufferWords : Z := (RP1_DEFAULT_SIG_ARRAY_OFFSET - RP1_DEFAULT_ARG_BUF_OFFSET) / 4.
Definition kApArgBlockBase : Z := 0x10.
Definition UINT16_MAX : Z := 2 ^ 16 - 1.

Definition scalarWidthInWords (t : ScalarType) : Z :=
  match t with U8 | U16 | U32 | I8 | I16 | I32 | F32 => 1 | U64 | I64 | F64 => 2 end.

Definition scalarFitsSignalSlot (t : ScalarType) : bool := scalarWidthInWords t =? 1.

Definition requireSignalSlotScalar (port : ScalarPort) : IM unit :=
  throw_if (negb (scalarFitsSignalSlot (sp_type port))) (WideOutputScalar (sp_name port)).

Record ArgLayout := { offsets_ : gmap string Z; fallback_ : Z }.

Definition new_layout (offsets : gmap string Z) : ArgLayout :=
  {| offsets_ := offsets; fallback_ := kApArgBlockBase |}.

Definition baseFor (l : ArgLayout) (port : string) : except image_exn Z :=
  match offsets_ l !! port with
  | Some off => Val off
  | None =>
      let n := String.length port in
      if (4 <? n)%nat && bool_decide (String.substring (n - 4) 4 port = "_out"%string) then
        match offsets_ l !! String.substring 0 (n - 4) port with
        | Some off => Val off
        | None => Exn (NoRegisterOffset port)
        end
      else Exn (NoRegisterOffset port)
  end.

(** [ArgLayout::take]; [haveSpec_] is whether there are offsets. *)
Definition layout_take (l : ArgLayout) (port : string) (words : Z) : except image_exn (Z * ArgLayout) :=
  if decide (offsets_ l = ∅) then
    Val (fallback_ l, {| offsets_ := offsets_ l; fallback_ := add32 (fallback_ l) (u32 (words * 4)) |})
  else match baseFor l port with Val base => Val (base, l) | Exn e => Exn e end.

Definition put_arg (i : Z) (v : Z) (l : list Z) : list Z := <[Z.to_nat i := v]> l.

(** [arg_buf[i] = v], undefined beyond the end of the vector. *)
Definition store_arg (i v : Z) : IM unit :=
  size ← asks (fun s => Z.of_nat (length (arg_buf (image s))));
  if i <? size then updates (fun s => set_image (with_args (put_arg i v (arg_buf (image s))) (image s)) s)
  else undefined.

(** The index of the first value word and the new cursor. *)
Definition appendArgWordsAsPairs (cursor_words base_offset : Z) (words : list Z) (width : Z) (portName : string)
    : IM (Z * Z) :=
  let total := u32 (width * 2) in
  throw_if (kArgBufferWords <? cursor_words + total) (ArgBufferOverflow portName);;
  updates (fun s => set_image (with_args (resize (Z.to_nat (add32 cursor_words total)) 0 (arg_buf (image s))) (image s)) s);;
  each (seqZ 0 width) (fun w =>
    store_arg (add32 cursor_words (u32 (2 * w))) (add32 base_offset (u32 (4 * w)));;
    v ← defined (words !! Z.to_nat w);
    store_arg (add32 (add32 cursor_words (u32 (2 * w))) 1) v);;
  mret (add32 cursor_words 1, add32 cursor_words total).

Definition push_scalar_fixup (d : DeferredScalar) (f : fixups) : fixups := {|
  deferred_ := deferred_ f ++ [d]; deferredPdis_ := deferredPdis_ f; pdiImagesByNode_ := pdiImagesByNode_ f;
  deferredBufferAddresses_ := deferredBufferAddresses_ f; deferredBufferAliases_ := deferredBufferAliases_ f;
  scalarSlots_ := scalarSlots_ f |}.
Definition push_pdi_fixup (d : DeferredPdi) (f : fixups) : fixups := {|
  deferred_ := deferred_ f; deferredPdis_ := deferredPdis_ f ++ [d];
  pdiImagesByNode_ := <[dp_nodeIndex d := dp_imageId d]> (pdiImagesByNode_ f);
  deferredBufferAddresses_ := deferredBufferAddresses_ f; deferredBufferAliases_ := deferredBufferAliases_ f;
  scalarSlots_ := scalarSlots_ f |}.
Definition push_address_fixup (d : DeferredBufferAddress) (f : fixups) : fixups := {|
  deferred_ := deferred_ f; deferredPdis_ := deferredPdis_ f; pdiImagesByNode_ := pdiImagesByNode_ f;
  deferredBufferAddresses_ := deferredBufferAddresses_ f ++ [d];
  deferredBufferAliases_ := deferredBufferAliases_ f; scalarSlots_ := scalarSlots_ f |}.
Definition push_alias_fixup (d : DeferredBufferAlias) (f : fixups) : fixups := {|
  deferred_ := deferred_ f; deferredPdis_ := deferredPdis_ f; pdiImagesByNode_ := pdiImagesByNode_ f;
  deferredBufferAddresses_ := deferredBufferAddresses_ f;
  deferredBufferAliases_ := deferredBufferAliases_ f ++ [d]; scalarSlots_ := scalarSlots_ f |}.
Definition record_scalar_slot (key : string) (slot : Z) (f : fixups) : fixups := {|
  deferred_ := deferred_ f; deferredPdis_ := deferredPdis_ f; pdiImagesByNode_ := pdiImagesByNode_ f;
  deferredBufferAddresses_ := deferredBufferAddresses_ f; deferredBufferAliases_ := deferredBufferAliases_ f;
  scalarSlots_ := <[key := slot]> (scalarSlots_ f) |}.
Definition fixup (f : fixups -> fixups) : IM unit := updates (fun s => set_fixes (f (fixes s)) s).

(** The locals of [packKernelArgs]. *)
Record packing := { pk_layout : ArgLayout; cursor_words : Z; pk_count : Z }.

Definition appendBufferAddress (portName : string) (buffer : GraphBuffer) (p : packing) : IM packing :=
  b ← call (layout_take (pk_layout p) portName 2);
  r ← appendArgWordsAsPairs (cursor_words p) b.1 [0; 0] 2 portName;
  fixup (push_address_fixup {| da_buffer := buffer; da_arg_word_offset := r.1 |});;
  mret {| pk_layout := b.2; cursor_words := r.2; pk_count := add32 (pk_count p) 2 |}.

Definition pack_scalar (bindings : PortBindings) (skip : list string) (p : packing) (port : ScalarPort) : IM packing :=
  let width := scalarWidthInWords (sp_type port) in
  b ← call (layout_take (pk_layout p) (sp_name port) width);
  if decide (sp_name port ∈ skip) then
    mret {| pk_layout := b.2; cursor_words := cursor_words p; pk_count := pk_count p |}
  else match b_inputScalars bindings !! sp_name port with
  | None => throw (UnboundPort (sp_name port))
  | Some g =>
      r ← appendArgWordsAsPairs (cursor_words p) b.1 [0; 0] width (sp_name port);
      fixup (push_scalar_fixup {| df_scopedKey := scalar_key g; df_fallbackKey := varName g;
        df_hasFallback := gs_scopeId g =? 0; df_type := sp_type port; df_arg_word_offset := r.1 |});;
      mret {| pk_layout := b.2; cursor_words := r.2; pk_count := add32 (pk_count p) width |}
  end.

Definition pack_buffer (bound : gmap string GraphBuffer) (p : packing) (port : BufferPort) : IM packing :=
  match bound !! bp_name port with
  | None => throw (UnboundPort (bp_name port))
  | Some buffer => appendBufferAddress (bp_name port) buffer p
  end.

Definition pack_inout (bindings : PortBindings) (p : packing) (port : RWBufferPort) : IM packing :=
  match list_find (fun b => inPort b = bp_name (rw_in port) /\ outPort b = bp_name (rw_out port)) (b_inouts bindings) with
  | None => throw (UnboundPort (bp_name (rw_in port)))
  | Some (_, b) =>
      p' ← appendBufferAddress (bp_name (rw_in port)) (ib_in b) p;
      fixup (push_alias_fixup {|
        sourceKey := scopedBufferKey (gb_scopeId (ib_in b)) (gb_name (ib_in b));
        targetKey := scopedBufferKey (gb_scopeId (ib_out b)) (gb_name (ib_out b)); sizeToken := ib_in b |});;
      mret p'
  end.

Definition packKernelArgs (dev : FpgaDevice) (k : Rp1KernelCommand) (skipInputScalars : list string) : IM Z :=
  size ← asks (fun s => length (arg_buf (image s)));
  let io := ioType (k_kernel k) in
  let p := {| pk_layout := new_layout (kernelArgOffsets dev (k_kernel k));
              cursor_words := u32 (Z.of_nat size); pk_count := 0 |} in
  p ← loop (pack_scalar (k_ioMap k) skipInputScalars) p (inputScalars io);
  p ← loop (pack_buffer (b_inputs (k_ioMap k))) p (inputs io);
  p ← loop (pack_buffer (b_outputs (k_ioMap k))) p (outputs io);
  p ← loop (pack_inout (k_ioMap k)) p (inouts io);
  throw_if (UINT16_MAX <? pk_count p) TooManyArguments;;
  mret (pk_count p).

(** ** Joins *)

Definition kSentinelBucket : Z := 0.
Definition kSentinelBit : Z := Z.shiftl 1 31.
Definition kKernelBitsPerBucket : Z := 31.

Definition nodeBucketOf (p : nat) : Z := u8 (Z.of_nat p / kKernelBitsPerBucket).
Definition nodeBitOf (p : nat) : Z := Z.shiftl 1 (Z.of_nat p mod kKernelBitsPerBucket).

(** [groups[bucket] |= bits] *)
Fixpoint group_or (bucket bits : Z) (groups : bit_groups) : bit_groups :=
  match groups with
  | [] => [(bucket, bits)]
  | (b, m) :: groups' =>
      if bucket =? b then (b, Z.lor m bits) :: groups'
      else if bucket <? b then (bucket, bits) :: groups
      else (b, m) :: group_or bucket bits groups'
  end.

(** A zero-initialised packet with the fields that are then assigned. *)
Definition rp1_packet (op flags : Z) (await set : Z * Z) (p : payload) : rp1_node_t := {|
  node_opcode := op; node_flags := flags; barrier_await_mask := await.2; barrier_set_mask := set.2;
  barrier_await_bucket := await.1; barrier_set_bucket := set.1; node_status_field := RP1_NODE_PENDING;
  node_payload := enc_payload p |}.

(** [1u << n] *)
Definition shift_one (n : Z) : IM Z := if n <? 32 then mret (Z.shiftl 1 n) else undefined.

Definition update_joins (f : join_state -> join_state) : IM unit := updates (fun s => set_joins (f (joins s)) s).

Definition push_aggregator (agg : rp1_node_t) : IM unit :=
  update_joins (fun j => {| aggregators := aggregators j ++ [agg]; joinBucket := joinBucket j; joinBit := joinBit j |}).

(** The loop over the groups: one silent collector each. *)
Definition collect_group (cb base : Z) (acc : Z * Z) (group : Z * Z) : IM (Z * Z) :=
  bit ← shift_one (add32 base acc.2);
  push_aggregator (rp1_packet RP1_OP_NOP RP1_FLAG_SILENT group (cb, bit) P_none);;
  mret (Z.lor acc.1 bit, add32 acc.2 1).

(** The collectors of [groups] in the current join bucket. *)
Definition join_groups (groups : bit_groups) : IM (Z * Z) :=
  j ← asks joins;
  throw_if (RP1_MAX_BUCKETS <=? joinBucket j) JoinBucketsExhausted;;
  update_joins (fun j => {| aggregators := aggregators j; joinBucket := joinBucket j;
    joinBit := add32 (joinBit j) (u32 (Z.of_nat (length groups))) |});;
  r ← loop (collect_group (joinBucket j) (joinBit j)) (0, 0) groups;
  mret (joinBucket j, r.1).

Definition resolveAwait (groups : bit_groups) : IM (Z * Z) :=
  match groups with
  | [] => mret (0, 0)
  | [group] => mret group
  | _ =>
      j ← asks joins;
      ewhen (kKernelBitsPerBucket <? add32 (joinBit j) (u32 (Z.of_nat (length groups))))
        (update_joins (fun j => {| aggregators := aggregators j; joinBucket := u8 (joinBucket j + 1); joinBit := 0 |}));;
      join_groups groups
  end.

(** ** Commands *)

Fixpoint input_offsets (l : ArgLayout) (out : gmap string Z) (ports : list ScalarPort) : except image_exn (gmap string Z) :=
  match ports with
  | [] => Val out
  | port :: ports' =>
      match layout_take l (sp_name port) (scalarWidthInWords (sp_type port)) with
      | Val (base, l') => input_offsets l' (<[sp_name port := base]> out) ports'
      | Exn e => Exn e
      end
  end.

Definition inputScalarRegOffsets (dev : FpgaDevice) (kernel : KernelDescriptor) : except image_exn (gmap string Z) :=
  input_offsets (new_layout (kernelArgOffsets dev kernel)) ∅ (inputScalars (ioType kernel)).

(** The bits of the packets of the commands [deps] names. *)
Definition pred_groups (posOf : gmap string nat) (deps : list string) : bit_groups :=
  foldl (fun groups depId =>
    match posOf !! depId with
    | Some q => group_or (nodeBucketOf q) (nodeBitOf q) groups
    | None => groups
    end) [] deps.

(** What the slots a command names are. *)
Definition command_slots (c : Rp1Command) : list Z :=
  match c with
  | SignalCommand sg => [s_slot sg]
  | WaitCommand wt => [w_slot wt]
  | LoopCommand l =>
      match broadcastRole l with
      | SplitNone => []
      | _ => [conditionBroadcastSlot l; broadcastReadySlot l; broadcastAckSlot l]
      end
  | _ => []
  end.

(** The slots named in a program, those of its children last. *)
Fixpoint referenced_slots (dg : Rp1QueueProgram) : list Z :=
  match dg with
  | mkProgram commands _ _ children => concat (map command_slots commands) ++ concat (map child_slots children)
  end
with child_slots (child : Rp1ChildProgram) : list Z :=
  match child with
  | mkChild _ _ programs =>
      concat (map (fun p => match p with Some dg => referenced_slots dg | None => [] end) programs)
  end.

(** The locals of the loop that forwards scalars. *)
Record forwarding := {
  forwardedInputs : list string; kernelGroups : bit_groups;
  resolved : option (FpgaKernelLocation * gmap string Z)
}.

Section plan.
Context (dev : FpgaDevice) (boundScalarSlots_ : gmap string Z) (resourcesLeased_ : bool).
Context (sentinelSlot_ sentinelValue_ : Z).

Definition update_slots (f : slot_state -> slot_state) : IM unit := updates (fun s => set_slots (f (slots s)) s).

Definition reserve_local (slot : Z) : IM unit :=
  update_slots (fun r => {| slotAlloc := reserve slot (slotAlloc r); scalarSlotAlloc_ := scalarSlotAlloc_ r;
    ownedSignalSlots_ := ownedSignalSlots_ r |}).

Definition reserveDeviceSignalSlot (slot : Z) : IM unit :=
  if resourcesLeased_ then mret tt
  else update_slots (fun r =>
    if decide (slot ∈ ownedSignalSlots_ r) then r
    else {| slotAlloc := slotAlloc r; scalarSlotAlloc_ := reserve slot (scalarSlotAlloc_ r);
            ownedSignalSlots_ := {[slot]} ∪ ownedSignalSlots_ r |}).

Definition acquireScalarSlot (key : string) : IM Z :=
  match boundScalarSlots_ !! key with
  | Some bound => let slot := u32 bound in reserve_local slot;; mret slot
  | None =>
      throw_if resourcesLeased_ (NoLeasedSlot key);;
      r ← asks slots;
      match slot_alloc (scalarSlotAlloc_ r) with
      | Exn _ => throw SlotsExhausted
      | Val (slot, r') =>
          update_slots (fun r => {| slotAlloc := slotAlloc r; scalarSlotAlloc_ := r';
            ownedSignalSlots_ := {[slot]} ∪ ownedSignalSlots_ r |});;
          reserve_local slot;; mret slot
      end
  end.

Definition reserveSignalSlot (slot : Z) : IM unit :=
  throw_if (slot =? sentinelSlot_) (SentinelCollision slot);;
  reserve_local slot;; reserveDeviceSignalSlot slot.

Definition reserveReferencedSignalSlots (dg : Rp1QueueProgram) : IM unit :=
  each (referenced_slots dg) reserveSignalSlot.

Definition emitKernelPacket (k : Rp1KernelCommand) (await set : Z * Z) (skipInputScalars : list string)
    (resolvedLocation : option FpgaKernelLocation) : IM nat :=
  loc ← match resolvedLocation with Some loc => mret loc | None => call (resolveKernelLocation dev (k_kernel k)) end;
  size ← asks (fun s => length (arg_buf (image s)));
  argCount ← packKernelArgs dev k skipInputScalars;
  push_node (rp1_packet RP1_OP_KERNEL_DISPATCH RP1_FLAG_HALT_ON_ERROR await set (P_kernel_dispatch {|
    kernel_base_addr := loc_base loc;
    arg_buffer_offset := u32 (u32 (Z.of_nat size) * 4);
    arg_count := u16 argCount; ctrl_flags := 0;
    kd_timeout_cycles := loc_timeout_cycles loc;
    expected_image_id := match kd_image (k_kernel k) with Some i => imageNumericId dev i | None => 0 end |})).

Definition emitReprogramPacket (r : Rp1ReprogramCommand) (await set : Z * Z) : IM nat :=
  idx ← push_node (rp1_packet RP1_OP_PDI_LOAD RP1_FLAG_HALT_ON_ERROR await set (P_pdi_load {|
    pdi_addr_lo := 0; pdi_addr_hi := 0; pdi_timeout_cycles := r_timeoutCycles r;
    pdi_image_id := imageNumericId dev (r_imageId r) |}));
  fixup (push_pdi_fixup {| dp_nodeIndex := idx; dp_imageId := r_imageId r; dp_pdiPath := r_pdiPath r |});;
  mret idx.

(** [nextExtraPos++] *)
Definition next_extra : IM nat :=
  p ← asks (fun s => nextExtraPos (scalars s));
  updates (fun s => set_scalars {| scalarReady := scalarReady (scalars s);
    extraLeafGroups := extraLeafGroups (scalars s); nextExtraPos := S p |} s);;
  mret p.

(** One round of the loop over the input scalars of a kernel. *)
Definition forward_scalar (k : Rp1KernelCommand) (predGroups : bit_groups) (f : forwarding) (sp : ScalarPort)
    : IM forwarding :=
  ready ← asks (fun s => gs ← b_inputScalars (k_ioMap k) !! sp_name sp; scalarReady (scalars s) !! scalar_key gs);
  match ready with
  | None => mret f
  | Some ready =>
      r ← match resolved f with
          | Some r => mret r
          | None =>
              loc ← call (resolveKernelLocation dev (k_kernel k));
              offsets ← call (inputScalarRegOffsets dev (k_kernel k));
              mret (loc, offsets)
          end;
      aw ← resolveAwait (group_or (mr_bucket ready) (mr_mask ready) predGroups);
      cpos ← next_extra;
      match r.2 !! sp_name sp with
      | None => throw (OutOfRange (sp_name sp))
      | Some off =>
          push_node (rp1_packet RP1_OP_SCALAR_COPY 0 aw (nodeBucketOf cpos, nodeBitOf cpos)
            (P_scalar_copy {| source_slot := mr_slot ready; dest_addr := add32 (loc_base r.1) off |}));;
          mret {| forwardedInputs := sp_name sp :: forwardedInputs f;
                  kernelGroups := group_or (nodeBucketOf cpos) (nodeBitOf cpos) (kernelGroups f);
                  resolved := Some r |}
      end
  end.

(** The scalar of a read is available and the read is a leaf. *)
Definition publish_scalar (k : Rp1KernelCommand) (sp : ScalarPort) (slot : Z) (set : Z * Z) : IM unit :=
  let bound := b_outputScalars (k_ioMap k) !! sp_name sp in
  let key := match bound with Some gs => scalar_key gs | None => EmptyString end in
  ewhen (bool_decide (is_Some bound))
    (fixup (record_scalar_slot key slot);;
     updates (fun s => set_scalars {|
       scalarReady := <[key := {| mr_slot := slot; mr_bucket := set.1; mr_mask := set.2 |}]> (scalarReady (scalars s));
       extraLeafGroups := extraLeafGroups (scalars s); nextExtraPos := nextExtraPos (scalars s) |} s));;
  updates (fun s => set_scalars {| scalarReady := scalarReady (scalars s);
    extraLeafGroups := group_or set.1 set.2 (extraLeafGroups (scalars s));
    nextExtraPos := nextExtraPos (scalars s) |} s).

(** One round of the loop over the output scalars; [last] is the bit of the
    dispatch or the previous read. *)
Definition read_scalar (k : Rp1KernelCommand) (last : Z * Z) (sp : ScalarPort) : IM (Z * Z) :=
  requireSignalSlotScalar sp;;
  rpos ← next_extra;
  let bound := b_outputScalars (k_ioMap k) !! sp_name sp in
  let key := match bound with Some gs => scalar_key gs | None => EmptyString end in
  slot ← acquireScalarSlot key;
  loc ← call (resolveKernelLocation dev (k_kernel k));
  off ← call (outputScalarRegOffset dev (k_kernel k) (sp_name sp));
  let set := (nodeBucketOf rpos, nodeBitOf rpos) in
  push_node (rp1_packet RP1_OP_SCALAR_READ 0 last set
    (P_scalar_read {| source_addr := add32 (loc_base loc) off; sr_target_slot := slot |}));;
  publish_scalar k sp slot set;;
  mret set.

Definition emit_kernel (k : Rp1KernelCommand) (predGroups : bit_groups) (set : Z * Z) : IM unit :=
  f ← loop (forward_scalar k predGroups) {| forwardedInputs := []; kernelGroups := predGroups; resolved := None |}
    (inputScalars (ioType (k_kernel k)));
  aw ← resolveAwait (kernelGroups f);
  emitKernelPacket k aw set (forwardedInputs f) (fst <$> resolved f);;
  loop (read_scalar k) set (outputScalars (ioType (k_kernel k)));;
  mret tt.

(** The body of the loop of [emitMainlineCommands]. *)
Definition emit_command (posOf : gmap string nat) (pn : nat * Rp1Command) : IM unit :=
  let predGroups := pred_groups posOf (rp1CommandDependsOn pn.2) in
  let set := (nodeBucketOf pn.1, nodeBitOf pn.1) in
  match pn.2 with
  | KernelCommand k => emit_kernel k predGroups set
  | _ =>
      aw ← resolveAwait predGroups;
      match pn.2 with
      | ReprogramCommand r => emitReprogramPacket r aw set;; mret tt
      | SignalCommand sg =>
          push_node (rp1_packet RP1_OP_SIGNAL 0 aw set (P_signal {|
            sig_target_slot := s_slot sg; sig_value := s_value sg; sig_operation := s_operation sg |}));; mret tt
      | WaitCommand wt =>
          push_node (rp1_packet RP1_OP_WAIT 0 aw set (P_wait {|
            wait_condition_signal := w_slot wt; wait_condition_value := w_value wt;
            wait_condition_op := w_conditionOp wt |}));; mret tt
      | _ => throw NonRp1Node
      end
  end.

Definition emitMainlineCommands (dg : Rp1QueueProgram) (posOf : gmap string nat) : IM unit :=
  each (imap pair (commands dg)) (emit_command posOf).

(** ** The image *)

(** How the counting loop accounts for a command: the work and the scalars
    produced so far. *)
Definition count_command (acc : nat * gset string) (c : Rp1Command) : nat * gset string :=
  match c with
  | KernelCommand k =>
      let io := ioType (k_kernel k) in
      let keys b ports := omap (fun sp => scalar_key <$> (b !! sp_name sp)) ports in
      let copies := filter (fun key => key ∈ acc.2) (keys (b_inputScalars (k_ioMap k)) (inputScalars io)) in
      ((acc.1 + length copies + length (outputScalars io))%nat,
       list_to_set (keys (b_outputScalars (k_ioMap k)) (outputScalars io)) ∪ acc.2)
  | _ => acc
  end.

Definition totalWork (dg : Rp1QueueProgram) : nat :=
  (foldl count_command (length (commands dg), ∅) (commands dg)).1.

Definition hasOutputScalarReads (c : Rp1Command) : bool :=
  match c with KernelCommand k => bool_decide (outputScalars (ioType (k_kernel k)) <> []) | _ => false end.

Definition positions (dg : Rp1QueueProgram) : gmap string nat :=
  assign_all (imap (fun p c => (rp1CommandId c, p)) (commands dg)) ∅.

(** [isLeaf[posOf[depId]] = false]; [None] is a write beyond the end. *)
Definition clear_leaf (posOf : gmap string nat) (leaf : list bool) (depId : string) : option (list bool) :=
  match posOf !! depId with
  | Some q => if (q <? length leaf)%nat then Some (<[q := false]> leaf) else None
  | None => Some leaf
  end.

Definition isLeaf (dg : Rp1QueueProgram) (posOf : gmap string nat) : option (list bool) :=
  foldl (fun leaf depId => match leaf with Some l => clear_leaf posOf l depId | None => None end)
    (Some (replicate (length (commands dg)) true)) (concat (map rp1CommandDependsOn (commands dg))).

(** [None] is a read of [isLeaf] beyond the end. *)
Definition leaf_groups (dg : Rp1QueueProgram) (leaf : list bool) (extra : bit_groups) : option bit_groups :=
  foldl (fun groups pn =>
    match groups, leaf !! pn.1 with
    | Some g, Some b =>
        Some (if b && negb (hasOutputScalarReads pn.2) then group_or (nodeBucketOf pn.1) (nodeBitOf pn.1) g else g)
    | _, _ => None
    end) (Some extra) (imap pair (commands dg)).

Definition carried_slots (nodes : list rp1_node_t) : list Z :=
  omap (fun n => if node_opcode n =? RP1_OP_SCALAR_COPY then Some (source_slot (view_scalar_copy (node_payload n)))
                 else None) nodes.

Definition handshake_slots (nodes : list rp1_node_t) : list Z :=
  omap (fun n =>
    if node_opcode n =? RP1_OP_LOOP then Some (loop_condition_signal (view_loop (node_payload n)))
    else if node_opcode n =? RP1_OP_SIGNAL then Some (sig_target_slot (view_signal (node_payload n)))
    else if node_opcode n =? RP1_OP_WAIT then Some (wait_condition_signal (view_wait (node_payload n)))
    else None) nodes.

(** The elements of a [std::set] of slots in order. *)
Definition sorted_slots (l : list Z) : list Z := merge_sort Z.le (elements (list_to_set l : gset Z)).

Definition clearHandshakeSlots (i : Rp1GraphImage) : Rp1GraphImage :=
  with_clears
    (foldl (fun clears s =>
       if decide (s ∈ carried_slots (img_nodes i)) then clears
       else if decide (s ∈ clears) then clears else clears ++ [s])
      (clear_signal_slots i) (sorted_slots (handshake_slots (img_nodes i)))) i.

Definition programHasControl (dg : Rp1QueueProgram) : bool :=
  existsb (fun c => match c with LoopCommand _ | ConditionalCommand _ => true | _ => false end) (commands dg).

Definition empty_image : Rp1GraphImage := {|
  img_nodes := []; arg_buf := []; clear_signal_slots := []; cq_size_override := 0;
  img_trace_enable := false; trace_size_override := 0 |}.

(** The locals of [buildMainlineImage]. *)
Definition start_image : IM unit :=
  updates (fun s => {|
    fixes := fixes s;
    slots := {| slotAlloc := SignalSlotAllocator_new; scalarSlotAlloc_ := scalarSlotAlloc_ (slots s);
                ownedSignalSlots_ := ownedSignalSlots_ (slots s) |};
    scalars := {| scalarReady := ∅; extraLeafGroups := []; nextExtraPos := 0 |};
    joins := {| aggregators := []; joinBucket := 0; joinBit := 0 |};
    image := empty_image |}).

Definition sentinel_packet (await : Z * Z) : rp1_node_t :=
  rp1_packet RP1_OP_SIGNAL 0 await (kSentinelBucket, kSentinelBit) (P_signal {|
    sig_target_slot := sentinelSlot_; sig_value := sentinelValue_; sig_operation := RP1_SIGOP_SET |}).

Definition buildMainlineImage (dg : Rp1QueueProgram) : IM Rp1GraphImage :=
  throw_if (bool_decide (commands dg = [])) EmptyProgram;;
  start_image;;
  reserve_local sentinelSlot_;;
  reserveReferencedSignalSlots dg;;
  let nodeBuckets := (Z.of_nat (totalWork dg) + (kKernelBitsPerBucket - 1)) / kKernelBitsPerBucket in
  throw_if (RP1_MAX_BUCKETS <=? nodeBuckets) MainlineTooLarge;;
  let posOf := positions dg in
  leaf ← defined (isLeaf dg posOf);
  updates (fun s =>
    set_joins {| aggregators := []; joinBucket := u8 nodeBuckets; joinBit := 0 |}
      (set_scalars {| scalarReady := ∅; extraLeafGroups := []; nextExtraPos := length (commands dg) |} s));;
  emitMainlineCommands dg posOf;;
  extra ← asks (fun s => extraLeafGroups (scalars s));
  groups ← defined (leaf_groups dg leaf extra);
  aw ← resolveAwait groups;
  aggs ← asks (fun s => aggregators (joins s));
  updates (fun s => set_image (with_nodes (img_nodes (image s) ++ aggs) (image s)) s);;
  push_node (sentinel_packet aw);;
  updates (fun s => set_image (clearHandshakeSlots
    (with_clears (clear_signal_slots (image s) ++ [sentinelSlot_]) (image s))) s);;
  i ← asks image;
  throw_if (RP1_MAX_NODES <? Z.of_nat (length (img_nodes i))) ImageTooLarge;;
  mret i.
End plan.
