(* ===== verification/MainlineSchedule.v ===== *)
(** * What a mainline image should contain

    A reference for [MainlineImage]: which packets a command list needs, which
    of them each one has to wait for, and which arguments each kernel gets.
    Packets are named by their position in the barrier numbering, not by
    buckets and masks; there are no collectors, slots or fix-ups.  The builder
    is proved to implement it in [MainlineFacts]. *)

From stdpp Require Import gmap strings.
From S2P Require Import Prelude Except Rp1Protocol ControlLowering Rp1Submitter MainlineImage.
Open Scope Z_scope.

(** ** Arguments *)

Inductive source := FromScalar (g : GraphScalar) (t : ScalarType) | FromBuffer (b : GraphBuffer).

Definition source_words (src : source) : Z :=
  match src with FromScalar _ t => scalarWidthInWords t | FromBuffer _ => 2 end.

(** A value for the registers from [ar_base] on. *)
Record argument := { ar_base : Z; ar_source : source }.

(** A port takes up registers; it has no source when its register is fed by a
    scalar copy. *)
Record port := { po_name : string; po_words : Z; po_source : option source }.

Definition scalar_port (bindings : PortBindings) (skip : list string) (sp : ScalarPort) : port := {|
  po_name := sp_name sp; po_words := scalarWidthInWords (sp_type sp);
  po_source := if decide (sp_name sp ∈ skip) then None
               else (fun g => FromScalar g (sp_type sp)) <$> b_inputScalars bindings !! sp_name sp |}.

Definition buffer_port (bound : gmap string GraphBuffer) (bp : BufferPort) : port :=
  {| po_name := bp_name bp; po_words := 2; po_source := FromBuffer <$> bound !! bp_name bp |}.

Definition inout_port (bindings : PortBindings) (rw : RWBufferPort) : port := {|
  po_name := bp_name (rw_in rw); po_words := 2;
  po_source := (fun b => FromBuffer (ib_in b.2)) <$>
    list_find (fun b => inPort b = bp_name (rw_in rw) /\ outPort b = bp_name (rw_out rw)) (b_inouts bindings) |}.

Definition kernel_ports (k : Rp1KernelCommand) (skip : list string) : list port :=
  let io := ioType (k_kernel k) in
  map (scalar_port (k_ioMap k) skip) (inputScalars io) ++
  map (buffer_port (b_inputs (k_ioMap k))) (inputs io) ++
  map (buffer_port (b_outputs (k_ioMap k))) (outputs io) ++
  map (inout_port (k_ioMap k)) (inouts io).

(** The first register of a port that [before] words of ports precede. *)
Definition port_base (offsets : gmap string Z) (before : Z) (name : string) : Z :=
  if decide (offsets = ∅) then u32 (kApArgBlockBase + 4 * before)
  else match baseFor (new_layout offsets) name with Val base => base | Exn _ => 0 end.

Fixpoint arguments_of (offsets : gmap string Z) (before : Z) (ports : list port) : list argument :=
  match ports with
  | [] => []
  | p :: ports' =>
      match po_source p with
      | Some src => [{| ar_base := port_base offsets before (po_name p); ar_source := src |}]
      | None => []
      end ++ arguments_of offsets (before + po_words p) ports'
  end.

Definition kernel_arguments (dev : FpgaDevice) (k : Rp1KernelCommand) (skip : list string) : list argument :=
  arguments_of (kernelArgOffsets dev (k_kernel k)) 0 (kernel_ports k skip).

(** The argument buffer that holds [value src w] for word [w] of a source. *)
Definition encode_argument (value : source -> Z -> Z) (a : argument) : list Z :=
  flat_map (fun w => [add32 (ar_base a) (u32 (4 * w)); value (ar_source a) w]) (seqZ 0 (source_words (ar_source a))).
Definition encode_arguments (value : source -> Z -> Z) (l : list argument) : list Z :=
  flat_map (encode_argument value) l.

(** The (register, value) pairs of [l]. *)
Definition argument_pairs (l : list argument) : Z := foldr (fun a n => source_words (ar_source a) + n) 0 l.

(** ** Packets *)

(** The commands that are packets; boundaries and control are lowered
    elsewhere. *)
Definition is_rp1 (c : Rp1Command) : bool :=
  match c with KernelCommand _ | ReprogramCommand _ | SignalCommand _ | WaitCommand _ => true | _ => false end.

Inductive task :=
  | T_dispatch (k : Rp1KernelCommand) (skip : list string)
  | T_copy (k : Rp1KernelCommand) (sp : ScalarPort) (producer : nat)
  | T_read (k : Rp1KernelCommand) (sp : ScalarPort)
  | T_load (r : Rp1ReprogramCommand)
  | T_signal (s : Rp1SignalCommand)
  | T_wait (w : Rp1WaitCommand).

(** The packet at position [e_pos] waits for the packets at [e_needs]. *)
Record entry := { e_pos : nat; e_needs : list nat; e_task : task }.

(** The next free position, the positions that read the scalars produced so
    far, the packets. *)
Record schedule := { sc_next : nat; sc_ready : gmap string nat; sc_entries : list entry }.

Definition dependencies (posOf : gmap string nat) (deps : list string) : list nat :=
  omap (fun dep => posOf !! dep) deps.

Record copies := { cs_schedule : schedule; cs_names : list string; cs_positions : list nat }.

(** An input scalar that an earlier kernel produces is copied from its slot. *)
Definition plan_copy (k : Rp1KernelCommand) (deps : list nat) (acc : copies) (sp : ScalarPort) : copies :=
  let sc := cs_schedule acc in
  match gs ← b_inputScalars (k_ioMap k) !! sp_name sp; sc_ready sc !! scalar_key gs with
  | None => acc
  | Some r => {|
      cs_schedule := {| sc_next := S (sc_next sc); sc_ready := sc_ready sc;
        sc_entries := sc_entries sc ++ [{| e_pos := sc_next sc; e_needs := r :: deps; e_task := T_copy k sp r |}] |};
      cs_names := sp_name sp :: cs_names acc; cs_positions := sc_next sc :: cs_positions acc |}
  end.

(** Output scalars are read one after the other. *)
Definition plan_read (k : Rp1KernelCommand) (acc : schedule * nat) (sp : ScalarPort) : schedule * nat :=
  let sc := acc.1 in
  ({| sc_next := S (sc_next sc);
      sc_ready := match b_outputScalars (k_ioMap k) !! sp_name sp with
                  | Some gs => <[scalar_key gs := sc_next sc]> (sc_ready sc)
                  | None => sc_ready sc
                  end;
      sc_entries := sc_entries sc ++ [{| e_pos := sc_next sc; e_needs := [acc.2]; e_task := T_read k sp |}] |},
   sc_next sc).

Definition plan_entry (sc : schedule) (e : entry) : schedule :=
  {| sc_next := sc_next sc; sc_ready := sc_ready sc; sc_entries := sc_entries sc ++ [e] |}.

Definition plan_kernel (k : Rp1KernelCommand) (deps : list nat) (p : nat) (sc : schedule) : schedule :=
  let io := ioType (k_kernel k) in
  let c := foldl (plan_copy k deps) {| cs_schedule := sc; cs_names := []; cs_positions := [] |} (inputScalars io) in
  let sc := plan_entry (cs_schedule c)
    {| e_pos := p; e_needs := cs_positions c ++ deps; e_task := T_dispatch k (cs_names c) |} in
  (foldl (plan_read k) (sc, p) (outputScalars io)).1.

Definition plan_command (posOf : gmap string nat) (sc : schedule) (pc : nat * Rp1Command) : schedule :=
  let deps := dependencies posOf (rp1CommandDependsOn pc.2) in
  let simple t := plan_entry sc {| e_pos := pc.1; e_needs := deps; e_task := t |} in
  match pc.2 with
  | KernelCommand k => plan_kernel k deps pc.1 sc
  | ReprogramCommand r => simple (T_load r)
  | SignalCommand s => simple (T_signal s)
  | WaitCommand w => simple (T_wait w)
  | _ => sc
  end.

Definition plan_commands (dg : Rp1QueueProgram) (l : list (nat * Rp1Command)) : schedule :=
  foldl (plan_command (positions dg)) {| sc_next := length (commands dg); sc_ready := ∅; sc_entries := [] |} l.

Definition plan (dg : Rp1QueueProgram) : schedule := plan_commands dg (imap pair (commands dg)).

Definition is_read (e : entry) : bool := match e_task e with T_read _ _ => true | _ => false end.
Definition reads (sc : schedule) : list nat := omap (fun e => if is_read e then Some (e_pos e) else None) (sc_entries sc).

(** The commands that no command waits for and that end with their own
    packet. *)
Definition plain_leaves (dg : Rp1QueueProgram) : list nat :=
  omap (fun pc =>
    if decide (pc.1 ∉ dependencies (positions dg) (concat (map rp1CommandDependsOn (commands dg)))) then
      if hasOutputScalarReads pc.2 then None else Some pc.1
    else None) (imap pair (commands dg)).

(** What the sentinel waits for. *)
Definition sentinel_needs (dg : Rp1QueueProgram) : list nat := plain_leaves dg ++ reads (plan dg).

(** All arguments of the image, in packet order. *)
Definition entry_arguments (dev : FpgaDevice) (e : entry) : list argument :=
  match e_task e with T_dispatch k skip => kernel_arguments dev k skip | _ => [] end.
Definition all_arguments (dev : FpgaDevice) (l : list entry) : list argument := flat_map (entry_arguments dev) l.

(** ** Fix-ups *)

Fixpoint scalar_fixups (at_word : Z) (l : list argument) : list DeferredScalar :=
  match l with
  | [] => []
  | a :: l' =>
      match ar_source a with
      | FromScalar g t => [{| df_scopedKey := scalar_key g; df_fallbackKey := varName g;
          df_hasFallback := gs_scopeId g =? 0; df_type := t; df_arg_word_offset := at_word + 1 |}]
      | FromBuffer _ => []
      end ++ scalar_fixups (at_word + 2 * source_words (ar_source a)) l'
  end.

Fixpoint address_fixups (at_word : Z) (l : list argument) : list DeferredBufferAddress :=
  match l with
  | [] => []
  | a :: l' =>
      match ar_source a with
      | FromScalar _ _ => []
      | FromBuffer b => [{| da_buffer := b; da_arg_word_offset := at_word + 1 |}]
      end ++ address_fixups (at_word + 2 * source_words (ar_source a)) l'
  end.

Definition load_fixups (l : list entry) : list DeferredPdi :=
  omap id (imap (fun i e =>
    match e_task e with
    | T_load r => Some {| dp_nodeIndex := i; dp_imageId := r_imageId r; dp_pdiPath := r_pdiPath r |}
    | _ => None
    end) l).
