(* ===== verification/MainlineFacts.v ===== *)
(** * The mainline builder implements its reference

    Every packet [buildMainlineImage] emits is the packet of one entry of the
    schedule of [MainlineSchedule]: it sets the bit of its position, and it
    waits, directly or through collectors, exactly for the positions the entry
    names.  The collectors' own bits are positions too, above those of the
    work. *)

From S2P Require Import Prelude Except Rp1Protocol ControlLowering Rp1Submitter MainlineImage MainlineSchedule.
From stdpp Require Import gmap strings sorting.
Open Scope Z_scope.

Local Ltac Zify.zify_post_hook ::= Z.to_euclidean_division_equations.

(** ** Positions as bits *)

(** Every bit below bit 31 of the 32 buckets is a position. *)
Definition max_position : nat := 992.

Definition bitpos (c : nat) : Z * Z := (nodeBucketOf c, nodeBitOf c).

(** [aw], a bucket and a mask, contains position [c]. *)
Definition has (aw : Z * Z) (c : nat) : Prop :=
  aw.1 = Z.of_nat c / 31 /\ Z.testbit aw.2 (Z.of_nat c mod 31) = true.

Definition set_of (n : rp1_node_t) : Z * Z := (barrier_set_bucket n, barrier_set_mask n).
Definition await_of (n : rp1_node_t) : Z * Z := (barrier_await_bucket n, barrier_await_mask n).

Lemma bitpos_eq c : (c < max_position)%nat -> bitpos c = (Z.of_nat c / 31, 2 ^ (Z.of_nat c mod 31)).
Proof.
  intros Hc. unfold bitpos, nodeBucketOf, nodeBitOf, kKernelBitsPerBucket, u8, max_position in *.
  rewrite Z.shiftl_1_l, Z.mod_small; [done|]. split; [lia|]. apply Z.div_lt_upper_bound; lia.
Qed.

Lemma has_bitpos c d : (c < max_position)%nat -> has (bitpos c) d <-> c = d.
Proof.
  intros Hc. rewrite bitpos_eq by done. unfold has. cbn. rewrite Z.pow2_bits_eqb by lia.
  rewrite Z.eqb_eq. split; [|by intros ->]. intros [E1 E2].
  rewrite (Z.div_mod (Z.of_nat c) 31), (Z.div_mod (Z.of_nat d) 31) in * by lia. lia.
Qed.

Lemma bitpos_range c : (c < max_position)%nat -> 0 <= (bitpos c).1 < 32 /\ 0 < (bitpos c).2 < 2 ^ 31.
Proof.
  intros Hc. rewrite bitpos_eq by done. cbn. unfold max_position in *. split.
  - split; [lia|]. apply Z.div_lt_upper_bound; lia.
  - split; [apply Z.pow_pos_nonneg; lia|]. apply Z.pow_lt_mono_r; lia.
Qed.

Lemma bitpos_inj c d : (c < max_position)%nat -> (d < max_position)%nat -> bitpos c = bitpos d -> c = d.
Proof. intros Hc Hd E. apply (has_bitpos c d Hc). rewrite E. by apply has_bitpos. Qed.

Lemma has_lor b m1 m2 c : has (b, Z.lor m1 m2) c <-> has (b, m1) c \/ has (b, m2) c.
Proof. unfold has. cbn. rewrite Z.lor_spec, orb_true_iff. tauto. Qed.

Lemma has_zero b c : ~ has (b, 0) c.
Proof. unfold has. cbn. rewrite Z.bits_0. by intros [_ ?]. Qed.

Lemma lor_range m1 m2 n : 0 <= n -> 0 <= m1 < 2 ^ n -> 0 <= m2 < 2 ^ n -> 0 <= Z.lor m1 m2 < 2 ^ n.
Proof.
  intros Hn H1 H2. assert (Hl : 0 <= Z.lor m1 m2) by (by apply Z.lor_nonneg; lia). split; [done|].
  destruct (decide (Z.lor m1 m2 = 0)) as [->|]; [by apply Z.pow_pos_nonneg|].
  assert (Hlog : forall m, 0 <= m < 2 ^ n -> Z.log2 m < n \/ m = 0).
  { intros m Hm. destruct (decide (m = 0)); [by right|left]. apply Z.log2_lt_pow2; lia. }
  apply Z.log2_lt_pow2; [lia|]. destruct (Hlog m1 H1) as [|E1], (Hlog m2 H2) as [|E2]; subst.
  - rewrite Z.log2_lor by lia. lia.
  - by rewrite Z.lor_0_r.
  - by rewrite Z.lor_0_l.
  - done.
Qed.

(** ** Groups of bits *)

Section groups.
Context (NB : Z).
Implicit Types g : bit_groups.

(** [g] is a map from buckets below [NB] and holds the positions [S]. *)
Record holds g (S : list nat) : Prop := {
  h_keys : StronglySorted Z.lt (map fst g);
  h_mask : forall b m, (b, m) ∈ g -> 0 <= b < NB /\ 0 <= m < 2 ^ 31;
  h_bits : forall c, (exists bm, bm ∈ g /\ has bm c) <-> c ∈ S
}.

Lemma holds_nil : holds [] [].
Proof. split; [constructor|by intros ?? ?%not_elem_of_nil|]. intros c. set_solver. Qed.

Lemma holds_same g S T : holds g S -> (forall c, c ∈ S <-> c ∈ T) -> holds g T.
Proof. intros [Hk Hm Hb] E. split; [done|done|]. intros c. by rewrite Hb. Qed.

Lemma group_or_keys b m g x : x ∈ map fst (group_or b m g) -> x = b \/ x ∈ map fst g.
Proof.
  induction g as [|[b' m'] g IH]; cbn; [set_solver|].
  destruct (b =? b') eqn:E; [cbn; set_solver|]. destruct (b <? b'); cbn; [set_solver|].
  rewrite !elem_of_cons. naive_solver.
Qed.

Lemma group_or_sorted b m g : StronglySorted Z.lt (map fst g) -> StronglySorted Z.lt (map fst (group_or b m g)).
Proof.
  induction g as [|[b' m'] g IH]; cbn; intros Hs; [by repeat constructor|].
  apply StronglySorted_inv in Hs as [Hs Hf]. destruct (b =? b') eqn:E; [by constructor|].
  destruct (b <? b') eqn:E2; cbn; bools.
  - constructor; [by constructor|]. constructor; [done|]. eapply Forall_impl; [exact Hf|]. intros; cbn in *; lia.
  - constructor; [by apply IH|]. apply Forall_forall. intros x [->|Hx]%group_or_keys; [lia|].
    by apply (proj1 (Forall_forall _ _) Hf).
Qed.

Lemma group_or_mask b m g b1 m1 : (b1, m1) ∈ group_or b m g ->
  (b1, m1) ∈ g \/ b1 = b /\ (m1 = m \/ exists m0, (b, m0) ∈ g /\ m1 = Z.lor m0 m).
Proof.
  induction g as [|[b' m'] g IH]; cbn; [rewrite list_elem_of_singleton; naive_solver|].
  destruct (b =? b') eqn:E; bools; [|destruct (b <? b')]; rewrite !elem_of_cons; [| |].
  - intros [[= -> ->]|?]; [|naive_solver]. right. split; [done|]. right. exists m'. set_solver.
  - naive_solver.
  - intros [?|H]; [naive_solver|]. destruct (IH H) as [?|[-> [->|(m0 & ? & ->)]]]; [naive_solver| |].
    + right. naive_solver.
    + right. split; [done|]. right. exists m0. set_solver.
Qed.

Lemma group_or_bits b m g c :
  (exists bm, bm ∈ group_or b m g /\ has bm c) <-> (exists bm, bm ∈ g /\ has bm c) \/ has (b, m) c.
Proof.
  induction g as [|[b' m'] g IH]; cbn.
  - split; [|intros [(? & []%not_elem_of_nil & _)|H]; eexists; split; [by apply list_elem_of_singleton|done]].
    intros (bm & ->%list_elem_of_singleton & H). by right.
  - assert (Hcons : forall (x : Z * Z) l, (exists bm, bm ∈ x :: l /\ has bm c) <-> has x c \/ exists bm, bm ∈ l /\ has bm c).
    { intros x l. setoid_rewrite elem_of_cons. naive_solver. }
    destruct (b =? b') eqn:E; bools; [subst b'|destruct (b <? b')]; rewrite !Hcons.
    + rewrite has_lor. tauto.
    + tauto.
    + rewrite IH. tauto.
Qed.

Lemma holds_add g S q : holds g S -> (q < max_position)%nat -> Z.of_nat q < 31 * NB ->
  holds (group_or (nodeBucketOf q) (nodeBitOf q) g) (q :: S).
Proof.
  intros [Hk Hm Hb] Hq Hn. pose proof (bitpos_range q Hq) as [_ H2]. unfold bitpos in *. cbn [fst snd] in *.
  split; [by apply group_or_sorted| |].
  - assert (Hb' : 0 <= nodeBucketOf q < NB).
    { pose proof (bitpos_eq q Hq) as [= -> _]. split; [lia|]. apply Z.div_lt_upper_bound; lia. }
    intros b m [?|[-> [->|(m0 & ? & ->)]]]%group_or_mask; [by eauto|lia|].
    split; [done|]. destruct (Hm _ _ ltac:(done)) as [_ ?]. apply lor_range; lia.
  - intros c. rewrite group_or_bits, Hb, elem_of_cons. rewrite (has_bitpos q c Hq). naive_solver.
Qed.

Lemma holds_union g S (T : list nat) : holds g S -> (forall q, q ∈ T -> (q < max_position)%nat /\ Z.of_nat q < 31 * NB) ->
  holds (foldl (fun g q => group_or (nodeBucketOf q) (nodeBitOf q) g) g T) (T ++ S).
Proof.
  revert g S. induction T as [|q T IH]; intros g S Hg HT; cbn; [done|].
  eapply holds_same; [apply IH; [apply holds_add; [done|apply HT; set_solver..]|set_solver]|]. set_solver.
Qed.
End groups.

Lemma holds_le NB NB' g S : NB <= NB' -> holds NB g S -> holds NB' g S.
Proof. intros Hle [Hk Hm Hb]. split; [done| |done]. intros b m Hin. destruct (Hm b m Hin). lia. Qed.

Lemma holds_length NB g S : 0 <= NB -> holds NB g S -> Z.of_nat (length g) <= NB.
Proof.
  intros Hn [Hk Hm _]. rewrite <-(length_map fst). 
  assert (Hsub : map fst g ⊆+ map Z.of_nat (seq 0 (Z.to_nat NB))).
  { apply NoDup_submseteq.
    - clear Hm. induction Hk as [|x l _ IH Hf]; constructor; [|done]. intros Hx.
      pose proof (proj1 (Forall_forall _ _) Hf x Hx). lia.
    - intros x Hx. apply list_elem_of_fmap in Hx as ([b m] & -> & Hin). apply Hm in Hin as [Hb _].
      apply list_elem_of_fmap. exists (Z.to_nat b). cbn. split; [lia|]. apply elem_of_seq. lia. }
  apply submseteq_length in Hsub. rewrite (length_map Z.of_nat), length_seq in Hsub. lia.
Qed.

(** ** Collectors *)

(** Lower than the position of the first free bit. *)
Definition cursor (j : join_state) : nat := Z.to_nat (31 * joinBucket j + joinBit j).

Definition collector (await set : Z * Z) : rp1_node_t := rp1_packet RP1_OP_NOP RP1_FLAG_SILENT await set P_none.

(** The collectors so far: their bits are distinct positions from [31 * NB]
    to the cursor, and they wait for work. *)
Record Joins (NB : Z) (j : join_state) : Prop := {
  jn_bucket : NB <= joinBucket j < 32;
  jn_bit : 0 <= joinBit j <= 31;
  jn_sets : exists cs, map set_of (aggregators j) = map bitpos cs /\ NoDup cs /\
    forall c, c ∈ cs -> (Z.to_nat (31 * NB) <= c < cursor j)%nat;
  jn_form : forall a, a ∈ aggregators j -> a = collector (await_of a) (set_of a) /\
    0 <= (await_of a).1 < NB /\ 0 <= (await_of a).2 < 2 ^ 31
}.

(** Waiting for [aw] is waiting for the packet at [q], directly or through a
    collector. *)
Definition reaches (NB : Z) (aggs : list rp1_node_t) (aw : Z * Z) (q : nat) : Prop :=
  Z.of_nat q < 31 * NB /\
  (has aw q \/ exists a c, a ∈ aggs /\ set_of a = bitpos c /\ (c < max_position)%nat /\ has aw c /\ has (await_of a) q).

(** Waiting for [aw] is waiting exactly for [S]. *)
Record awaits (NB : Z) (j : join_state) (aw : Z * Z) (S : list nat) : Prop := {
  aw_range : 0 <= aw.1 < 32 /\ 0 <= aw.2 < 2 ^ 31;
  aw_issued : forall c, has aw c -> (c < cursor j)%nat;
  aw_exact : forall q, reaches NB (aggregators j) aw q <-> q ∈ S
}.

(** Collectors are only added, above the cursor. *)
Definition grows (j j' : join_state) : Prop :=
  (cursor j <= cursor j')%nat /\
  exists new, aggregators j' = aggregators j ++ new /\
    forall a c, a ∈ new -> set_of a = bitpos c -> (c < max_position)%nat -> (cursor j <= c)%nat.

#[export] Instance grows_preorder : PreOrder grows.
Proof.
  split.
  - intros j. split; [done|]. exists []. rewrite app_nil_r. split; [done|]. by intros ?? ?%not_elem_of_nil.
  - intros j1 j2 j3 [H1 (n1 & E1 & F1)] [H2 (n2 & E2 & F2)]. split; [lia|]. exists (n1 ++ n2).
    rewrite E2, E1, (assoc_L app). split; [done|]. intros a c [Ha|Ha]%elem_of_app Hs Hc; [by eapply F1|].
    specialize (F2 a c Ha Hs Hc). lia.
Qed.

Lemma awaits_grows NB j j' aw S : grows j j' -> awaits NB j aw S -> awaits NB j' aw S.
Proof.
  intros [Hc (new & E & Hnew)] [Hr Hi Hx]. split; [done| |].
  - intros c Hh. specialize (Hi c Hh). lia.
  - intros q. rewrite <-Hx. unfold reaches. rewrite E. split.
    + intros [Hq [?|(a & c & Ha & Hs & Hm & Hh & Haq)]]; [auto|]. split; [done|]. right. exists a, c.
      apply elem_of_app in Ha as [?|Ha]; [done|]. specialize (Hi c Hh). specialize (Hnew a c Ha Hs Hm). lia.
    + intros [Hq [?|(a & c & Ha & ?)]]; [auto|]. split; [done|]. right. exists a, c. set_solver.
Qed.

Lemma awaits_same NB j aw S T : awaits NB j aw S -> (forall q, q ∈ S <-> q ∈ T) -> awaits NB j aw T.
Proof. intros [Hr Hi Hx] E. split; [done|done|]. intros q. by rewrite Hx. Qed.

Lemma has_below NB b m c : 0 <= b < NB -> has (b, m) c -> Z.of_nat c < 31 * NB.
Proof. intros Hb [E _]. cbn in E. lia. Qed.

Lemma joins_position NB j a c : 0 <= NB -> Joins NB j -> a ∈ aggregators j -> set_of a = bitpos c ->
  (c < max_position)%nat -> (Z.to_nat (31 * NB) <= c < cursor j)%nat.
Proof.
  intros Hn HJ Ha Es Hc. destruct (jn_sets _ _ HJ) as (cs & E & _ & Hcs).
  assert (set_of a ∈ map set_of (aggregators j)) as Hin by (by apply list_elem_of_fmap_2).
  rewrite E, Es in Hin. apply list_elem_of_fmap in Hin as (c' & Ec & Hc'). specialize (Hcs c' Hc').
  pose proof (jn_bucket _ _ HJ). pose proof (jn_bit _ _ HJ).
  apply bitpos_inj in Ec; [by subst|done|]. unfold cursor, max_position in *. lia.
Qed.

(** A single group is awaited as it is. *)
Lemma awaits_direct NB j g S aw : Joins NB j -> 0 <= NB -> holds NB g S ->
  g = [] /\ aw = (0, 0) \/ g = [aw] -> awaits NB j aw S.
Proof.
  intros HJ Hn HS Hg. pose proof (jn_bucket _ _ HJ). pose proof (jn_bit _ _ HJ).
  assert (Hbits : forall c, has aw c <-> c ∈ S).
  { intros c. rewrite <-(h_bits _ _ _ HS). destruct Hg as [[-> ->]| ->].
    - split; [by intros ?%has_zero|]. by intros (? & ?%not_elem_of_nil & _).
    - setoid_rewrite list_elem_of_singleton. naive_solver. }
  assert (Hrange : aw = (0, 0) \/ 0 <= aw.1 < NB /\ 0 <= aw.2 < 2 ^ 31).
  { destruct Hg as [[_ ->]| ->]; [by left|right]. destruct aw. apply (h_mask _ _ _ HS). set_solver. }
  assert (Hlow : forall c, has aw c -> Z.of_nat c < 31 * NB).
  { intros c Hh. destruct Hrange as [->|[? _]]; [by apply has_zero in Hh|]. destruct aw. by eapply has_below. }
  split.
  - destruct Hrange as [->|?]; cbn; lia.
  - intros c Hh%Hlow. unfold cursor. lia.
  - intros q. rewrite <-Hbits. unfold reaches. split; [|by auto].
    intros [_ [?|(a & c & Ha & Hs & Hm & Hh & _)]]; [done|]. apply Hlow in Hh.
    pose proof (joins_position NB j a c Hn HJ Ha Hs Hm). lia.
Qed.

(** One collector per group, from position [c] on. *)
Definition collectors (c : nat) (groups : bit_groups) : list rp1_node_t :=
  imap (fun i group => collector group (bitpos (c + i))) groups.

Lemma collectors_app c groups group :
  collectors c (groups ++ [group]) = collectors c groups ++ [collector group (bitpos (c + length groups))].
Proof. unfold collectors. rewrite imap_app. cbn. by rewrite Nat.add_0_r. Qed.

Lemma collectors_elem c groups a : a ∈ collectors c groups <->
  exists i group, groups !! i = Some group /\ a = collector group (bitpos (c + i)).
Proof.
  unfold collectors. rewrite list_elem_of_lookup. setoid_rewrite list_lookup_imap. split.
  - intros (i & (group & ? & ->)%fmap_Some). eauto.
  - intros (i & group & E & ->). exists i. by rewrite E.
Qed.

Lemma collectors_sets c groups : map set_of (collectors c groups) = map bitpos (seq c (length groups)).
Proof.
  revert c. induction groups as [|group groups IH]; intros c; [done|]. unfold collectors. cbn.
  rewrite Nat.add_0_r. f_equal. rewrite <-IH. unfold collectors. f_equal. apply imap_ext. intros i x _. cbn.
  do 2 f_equal. lia.
Qed.

Lemma set_joins_twice j j' s : set_joins j (set_joins j' s) = set_joins j s.
Proof. done. Qed.

Section collect.
Context (cb base : Z).
Let P0 : nat := Z.to_nat (31 * cb + base).

Lemma position_bit i : 0 <= cb < 32 -> 0 <= base -> base + Z.of_nat i < 31 ->
  (P0 + i < max_position)%nat /\ bitpos (P0 + i) = (cb, 2 ^ (base + Z.of_nat i)).
Proof.
  intros Hc Hb Hi. assert (Hp : (P0 + i < max_position)%nat) by (unfold P0, max_position; lia). split; [done|].
  rewrite bitpos_eq by done. assert (Z.of_nat (P0 + i) = 31 * cb + (base + Z.of_nat i)) as -> by (unfold P0; lia).
  f_equal; [|f_equal]; lia.
Qed.

Lemma collect_run {ub nf} s groups X : 0 <= cb < 32 -> 0 <= base -> base + Z.of_nat (length groups) <= 31 ->
  ewp ub nf (loop (collect_group cb base) (0, 0) groups) s
    (fun r s' => s' = set_joins {| aggregators := aggregators (joins s) ++ collectors P0 groups;
                                   joinBucket := joinBucket (joins s); joinBit := joinBit (joins s) |} s /\
       0 <= r.1 < 2 ^ 31 /\ forall c, has (cb, r.1) c <-> (P0 <= c < P0 + length groups)%nat) X.
Proof.
  intros Hc Hb Hm. eapply ewp_mono with (X := X);
    [apply (ewp_loop (fun old (r : Z * Z) s' => r.2 = Z.of_nat (length old) /\
       s' = set_joins {| aggregators := aggregators (joins s) ++ collectors P0 old;
                         joinBucket := joinBucket (joins s); joinBit := joinBit (joins s) |} s /\
       0 <= r.1 < 2 ^ 31 /\ forall c, has (cb, r.1) c <-> (P0 <= c < P0 + length old)%nat))| |done].
  - split; [done|]. split; [by destruct s as [? ? ? [] ?]; cbn; rewrite app_nil_r|]. split; [done|].
    intros c. split; [by intros ?%has_zero|cbn; lia].
  - intros old group new [mask i] s' -> (Hi & -> & Hr & Hbits). cbn in Hi, Hr, Hbits. subst i.
    rewrite length_app in Hm. cbn in Hm. destruct (position_bit (length old)) as [Hp Eb]; [done|done|lia|].
    unfold collect_group, add32. cbn [fst snd]. rewrite (u32_small (base + _)) by (unfold is_u32; lia). unfold shift_one.
    rewrite (proj2 (Z.ltb_lt _ _)) by lia. do 3 ewp_step. unfold push_aggregator, update_joins. ewp_step. ewp_step.
    cbn [fst snd joins set_joins aggregators joinBucket joinBit]. rewrite Z.shiftl_1_l, length_app. cbn [length].
    pose proof (bitpos_range _ Hp) as [_ Hr2]. rewrite Eb in Hr2. cbn in Hr2. split_and!.
    + rewrite u32_small by (unfold is_u32; lia). lia.
    + rewrite collectors_app, (assoc_L app), Eb. done.
    + apply (lor_range _ _ 31); lia.
    + apply (lor_range _ _ 31); lia.
    + intros c. rewrite has_lor, Hbits. rewrite <-Eb, has_bitpos by done. lia.
  - intros r s' (_ & ? & ? & ?). done.
Qed.
End collect.

(** The collectors of one join are awaited as the groups they collect. *)
Lemma awaits_collected NB j groups S cb base mask :
  let P0 := Z.to_nat (31 * cb + base) in
  let j' := {| aggregators := aggregators j ++ collectors P0 groups; joinBucket := cb;
               joinBit := base + Z.of_nat (length groups) |} in
  0 <= NB <= cb -> cb < 32 -> 0 <= base -> base + Z.of_nat (length groups) <= 31 -> (cursor j <= P0)%nat ->
  Joins NB j -> holds NB groups S -> 0 <= mask < 2 ^ 31 ->
  (forall c, has (cb, mask) c <-> (P0 <= c < P0 + length groups)%nat) ->
  Joins NB j' /\ grows j j' /\ awaits NB j' (cb, mask) S.
Proof.
  intros P0 j' Hn Hc Hb Hm Hcur HJ HS Hr Hbits.
  assert (Hpos : forall i, (i < length groups)%nat -> (P0 + i < max_position)%nat).
  { intros i Hi. unfold P0, max_position. lia. }
  assert (Hcur' : cursor j' = (P0 + length groups)%nat) by (unfold cursor, j', P0; cbn; lia).
  assert (Hnew : forall a c, a ∈ collectors P0 groups -> set_of a = bitpos c -> (c < max_position)%nat -> (P0 <= c)%nat).
  { intros a c (i & group & Hi & ->)%collectors_elem E Hcm. apply lookup_lt_Some in Hi.
    apply (bitpos_inj (P0 + i)) in E; [lia|by apply Hpos|done]. }
  split_and!.
  - split; cbn; [lia|lia| |].
    + destruct (jn_sets _ _ HJ) as (cs & E & Hnd & Hcs). exists (cs ++ seq P0 (length groups)).
      rewrite !map_app, E, collectors_sets, Hcur'. split_and!; [done| |].
      * apply NoDup_app. split_and!; [done| |apply NoDup_seq]. intros c Hc1%Hcs Hc2%elem_of_seq. lia.
      * intros c [Hc1%Hcs|Hc1%elem_of_seq]%elem_of_app; [lia|]. unfold P0 in *. lia.
    + intros a [Ha|(i & [b m] & Hi & ->)%collectors_elem]%elem_of_app; [by apply HJ|]. split; [done|].
      cbn. apply (h_mask _ _ _ HS). by eapply list_elem_of_lookup_2.
  - split; [lia|]. exists (collectors P0 groups). split; [done|]. intros a c Ha E Hcm.
    specialize (Hnew a c Ha E Hcm). lia.
  - split; [cbn; lia|intros c Hh%Hbits; lia|]. intros q. rewrite <-(h_bits _ _ _ HS). unfold reaches. cbn. split.
    + intros [Hq [Hh|(a & c & Ha & Es & Hcm & Hh & Haq)]]; [apply Hbits in Hh; unfold P0 in Hh; lia|].
      apply elem_of_app in Ha as [Ha|(i & group & Hi & ->)%collectors_elem];
        [|exists group; split; [by eapply list_elem_of_lookup_2|]; by destruct group].
      apply Hbits in Hh. pose proof (joins_position NB j a c (proj1 Hn) HJ Ha Es Hcm). lia.
    + intros ([b m] & Hin & Hh). pose proof (has_below NB b m q (proj1 (h_mask _ _ _ HS _ _ Hin)) Hh). split; [done|].
      right. apply list_elem_of_lookup in Hin as [i Hi]. exists (collector (b, m) (bitpos (P0 + i))), (P0 + i)%nat.
      pose proof (lookup_lt_Some _ _ _ Hi) as Hlt. split_and!; [|done|by apply Hpos| |done].
      * apply elem_of_app. right. apply collectors_elem. eauto.
      * apply Hbits. lia.
Qed.

(** ** Waiting for groups *)

Section await.
Context (NB : Z) (HNB : 0 <= NB <= 31).

Lemma join_groups_run {ub nf} groups S s s1 cb base : holds NB groups S -> Joins NB (joins s) ->
  NB <= cb -> 0 <= base -> base + Z.of_nat (length groups) <= 31 -> (cursor (joins s) <= Z.to_nat (31 * cb + base))%nat ->
  s1 = set_joins {| aggregators := aggregators (joins s); joinBucket := cb; joinBit := base |} s ->
  ewp ub nf (join_groups groups) s1
    (fun aw s' => exists j, s' = set_joins j s /\ Joins NB j /\ grows (joins s) j /\ awaits NB j aw S)
    (fun _ _ => True).
Proof using HNB.
  intros HS HJ Hcb Hb Hm Hcur ->. unfold join_groups. do 4 ewp_step; [done|]. cbn [joins set_joins joinBucket] in *.
  bools. unfold RP1_MAX_BUCKETS in *. rewrite (u32_small (Z.of_nat (length groups))) by (unfold is_u32; lia).
  unfold update_joins. do 3 ewp_step. cbn [joinBit].
  eapply ewp_mono; [apply (collect_run cb base _ groups (fun _ _ => True)); [lia|lia|done]| |done].
  intros [mask i] s' (-> & Hr & Hbits). cbn [fst snd] in *. ewp_step. cbn [joins set_joins joinBucket joinBit aggregators].
  unfold add32. rewrite u32_small by (unfold is_u32; lia).
  eexists. split; [done|]. apply awaits_collected; try done. lia.
Qed.

Lemma resolveAwait_run {ub nf} groups S s : holds NB groups S -> Joins NB (joins s) ->
  ewp ub nf (resolveAwait groups) s
    (fun aw s' => exists j, s' = set_joins j s /\ Joins NB j /\ grows (joins s) j /\ awaits NB j aw S)
    (fun _ _ => True).
Proof using HNB.
  intros HS HJ. pose proof (holds_length NB groups S ltac:(lia) HS) as Hlen.
  pose proof (jn_bucket _ _ HJ) as Hjb. pose proof (jn_bit _ _ HJ) as Hbit.
  assert (Hsame : s = set_joins (joins s) s) by (by destruct s).
  unfold resolveAwait. destruct groups as [|g1 [|g2 groups]].
  - ewp_step. exists (joins s). split_and!; [done|done|done|]. eapply awaits_direct; [done|lia|done|by left].
  - ewp_step. exists (joins s). split_and!; [done|done|done|]. eapply awaits_direct; [done|lia|done|by right].
  - set (l := g1 :: g2 :: groups) in *. do 3 ewp_step. unfold kKernelBitsPerBucket, add32.
    rewrite (u32_small (Z.of_nat (length l))) by (unfold is_u32; lia). rewrite u32_small by (unfold is_u32; lia).
    ewp_step; bools.
    + unfold update_joins. ewp_step. unfold u8. rewrite Z.mod_small by lia.
      eapply (join_groups_run l S s); [done|done|..|done]; [lia|done|cbn in *; lia|]. unfold cursor. lia.
    + apply (join_groups_run l S s s (joinBucket (joins s)) (joinBit (joins s))); try done; try lia. by destruct s as [? ? ? [] ?].
Qed.
End await.
