(* ===== verification/MainlineArgs.v ===== *)
(** * Packing kernel arguments

    [packKernelArgs] appends exactly the arguments the reference names, in
    port order, and records for every one of them where its value goes. *)

From S2P Require Import Prelude Except Rp1Protocol ControlLowering Rp1Submitter MainlineImage MainlineSchedule.
From stdpp Require Import gmap strings sorting.
Open Scope Z_scope.

Local Ltac Zify.zify_post_hook ::= Z.to_euclidean_division_equations.

Definition placeholder (_ : source) (_ : Z) : Z := 0.
Abbreviation encode0 := (encode_arguments placeholder).

(** ** The reference *)

Lemma source_words_cases src : source_words src = 1 \/ source_words src = 2.
Proof. destruct src as [g t|b]; [destruct t|]; cbn; auto. Qed.

Lemma length_encode_argument v a : Z.of_nat (length (encode_argument v a)) = 2 * source_words (ar_source a).
Proof. unfold encode_argument. by destruct (source_words_cases (ar_source a)) as [-> | ->]. Qed.

Lemma length_encode v l : Z.of_nat (length (encode_arguments v l)) = 2 * argument_pairs l.
Proof.
  induction l as [|a l IH]; [done|]. unfold encode_arguments in *. cbn [flat_map argument_pairs foldr].
  rewrite length_app, Nat2Z.inj_add, length_encode_argument, IH. unfold argument_pairs. lia.
Qed.

Lemma encode_app v l1 l2 : encode_arguments v (l1 ++ l2) = encode_arguments v l1 ++ encode_arguments v l2.
Proof. apply flat_map_app. Qed.

Lemma argument_pairs_nonneg l : 0 <= argument_pairs l.
Proof. pose proof (length_encode placeholder l). lia. Qed.

Lemma argument_pairs_app l1 l2 : argument_pairs (l1 ++ l2) = argument_pairs l1 + argument_pairs l2.
Proof. induction l1 as [|a l1 IH]; [done|]. cbn. unfold argument_pairs in *. lia. Qed.

(** The words of a part of the arguments. *)
Lemma encode_block v before l after :
  take (2 * Z.to_nat (argument_pairs l)) (drop (Z.to_nat (8 * argument_pairs before / 4)) (encode_arguments v (before ++ l ++ after))) =
  encode_arguments v l.
Proof.
  pose proof (length_encode v before). pose proof (length_encode v l). rewrite !encode_app.
  replace (Z.to_nat (8 * argument_pairs before / 4)) with (length (encode_arguments v before)) by lia.
  rewrite drop_app_length. replace (2 * Z.to_nat (argument_pairs l))%nat with (length (encode_arguments v l)) by lia.
  apply take_app_length.
Qed.

Definition ports_words (l : list port) : Z := foldr (fun p n => po_words p + n) 0 l.

Lemma ports_words_app l1 l2 : ports_words (l1 ++ l2) = ports_words l1 + ports_words l2.
Proof. induction l1 as [|p l1 IH]; [done|]. cbn. unfold ports_words in *. lia. Qed.

Lemma arguments_of_app offsets before l1 l2 :
  arguments_of offsets before (l1 ++ l2) = arguments_of offsets before l1 ++ arguments_of offsets (before + ports_words l1) l2.
Proof.
  revert before. induction l1 as [|p l1 IH]; intros before; cbn; [by rewrite Z.add_0_r|].
  rewrite IH, <-(assoc_L app). unfold ports_words. do 3 f_equal. lia.
Qed.

Lemma scalar_fixups_app w l1 l2 : scalar_fixups w (l1 ++ l2) = scalar_fixups w l1 ++ scalar_fixups (w + 2 * argument_pairs l1) l2.
Proof.
  revert w. induction l1 as [|a l1 IH]; intros w; [cbn; by rewrite Z.add_0_r|].
  cbn [app scalar_fixups]. rewrite IH, <-(assoc_L app). do 3 f_equal. unfold argument_pairs. cbn. lia.
Qed.

Lemma address_fixups_app w l1 l2 : address_fixups w (l1 ++ l2) = address_fixups w l1 ++ address_fixups (w + 2 * argument_pairs l1) l2.
Proof.
  revert w. induction l1 as [|a l1 IH]; intros w; [cbn; by rewrite Z.add_0_r|].
  cbn [app address_fixups]. rewrite IH, <-(assoc_L app). do 3 f_equal. unfold argument_pairs. cbn. lia.
Qed.

(** ** What packing does to the plan *)

Definition words_used (s : lowering) : Z := Z.of_nat (length (arg_buf (image s))).

(** [l] was appended to the arguments, with its fix-ups. *)
Record packs (l : list argument) (s s' : lowering) : Prop := {
  pk_slots : slots s' = slots s;
  pk_scalars : scalars s' = scalars s;
  pk_joins : joins s' = joins s;
  pk_image : image s' = with_args (arg_buf (image s) ++ encode0 l) (image s);
  pk_deferred : deferred_ (fixes s') = deferred_ (fixes s) ++ scalar_fixups (words_used s) l;
  pk_addresses : deferredBufferAddresses_ (fixes s') = deferredBufferAddresses_ (fixes s) ++ address_fixups (words_used s) l;
  pk_loads : deferredPdis_ (fixes s') = deferredPdis_ (fixes s) /\ pdiImagesByNode_ (fixes s') = pdiImagesByNode_ (fixes s)
}.

Lemma packs_nil s : packs [] s s.
Proof. split; try done; cbn; rewrite ?app_nil_r; try done. by destruct s as [? ? ? ? []]. Qed.

Lemma packs_app l1 l2 s1 s2 s3 : packs l1 s1 s2 -> packs l2 s2 s3 -> packs (l1 ++ l2) s1 s3.
Proof.
  intros [A1 B1 C1 D1 E1 F1 [G1 H1]] [A2 B2 C2 D2 E2 F2 [G2 H2]].
  assert (Hw : words_used s2 = words_used s1 + 2 * argument_pairs l1).
  { unfold words_used. rewrite D1. cbn. rewrite length_app, Nat2Z.inj_add, length_encode. lia. }
  split; try congruence; [| | |split; congruence].
  - rewrite D2, D1, encode_app, (assoc_L app). done.
  - by rewrite E2, E1, Hw, scalar_fixups_app, (assoc_L app).
  - by rewrite F2, F1, Hw, address_fixups_app, (assoc_L app).
Qed.

Lemma packs_words l s s' : packs l s s' -> words_used s' = words_used s + 2 * argument_pairs l.
Proof. intros H. unfold words_used. rewrite (pk_image _ _ _ H). cbn. rewrite length_app, Nat2Z.inj_add, length_encode. lia. Qed.

(** ** Appending words *)

Lemma put_arg_app l1 l2 i v : Z.of_nat (length l1) <= i -> put_arg i v (l1 ++ l2) = l1 ++ put_arg (i - Z.of_nat (length l1)) v l2.
Proof.
  intros Hi. unfold put_arg. rewrite insert_app_r_alt by lia. do 2 f_equal. lia.
Qed.

Lemma store_arg_run {ub nf} i v s (Q : unit -> lowering -> Prop) X : 0 <= i < Z.of_nat (length (arg_buf (image s))) ->
  Q tt (set_image (with_args (put_arg i v (arg_buf (image s))) (image s)) s) -> ewp ub nf (store_arg i v) s Q X.
Proof. intros Hi HQ. unfold store_arg. ewp_step. ewp_step. rewrite (proj2 (Z.ltb_lt _ _)) by lia. by ewp_step. Qed.

(** A write at the end of [l1]. *)
Lemma store_arg_at {ub nf} l1 x l2 i v s (Q : unit -> lowering -> Prop) X :
  arg_buf (image s) = l1 ++ x :: l2 -> i = Z.of_nat (length l1) ->
  Q tt (set_image (with_args (l1 ++ v :: l2) (image s)) s) -> ewp ub nf (store_arg i v) s Q X.
Proof.
  intros E -> HQ. apply store_arg_run; rewrite E.
  - rewrite length_app. cbn. lia.
  - rewrite put_arg_app, Z.sub_diag by lia. exact HQ.
Qed.

(** One register offset and value. *)
Lemma store_pair {ub nf} l1 x y l2 i r o v s (Q : unit -> lowering -> Prop) X :
  arg_buf (image s) = l1 ++ x :: y :: l2 -> i = Z.of_nat (length l1) -> Z.of_nat (length l1) < 2 ^ 31 -> o = Some v ->
  Q tt (set_image (with_args (l1 ++ r :: v :: l2) (image s)) s) ->
  ewp ub nf (store_arg i r;; z ← defined o; store_arg (add32 i 1) z) s Q X.
Proof.
  intros E -> Hi -> HQ. ewp_step. eapply store_arg_at; [exact E|done|]. ewp_step. apply (ewp_defined _ v); [done|].
  eapply (store_arg_at (l1 ++ [r])); [cbn; by rewrite <-(assoc_L app)| |by rewrite <-(assoc_L app)].
  rewrite length_app. unfold add32. rewrite u32_small; [cbn|unfold is_u32]; lia.
Qed.

Lemma append_run {ub nf} s base width name :
  width = 1 \/ width = 2 -> words_used s <= kArgBufferWords ->
  ewp ub nf (appendArgWordsAsPairs (words_used s) base [0; 0] width name) s
    (fun r s' => r = (words_used s + 1, words_used s + 2 * width) /\ words_used s + 2 * width <= kArgBufferWords /\
       s' = set_image (with_args (arg_buf (image s) ++ flat_map (fun w => [add32 base (u32 (4 * w)); 0]) (seqZ 0 width)) (image s)) s)
    (fun _ _ => True).
Proof.
  intros Hw Hcap. assert (kArgBufferWords < 2 ^ 31) as Hk by done.
  assert (Hu : 0 <= words_used s) by (unfold words_used; lia).
  unfold appendArgWordsAsPairs. cbv zeta.
  assert (Hwu : u32 (width * 2) = width * 2) by (apply u32_small; unfold is_u32; lia).
  ewp_step. ewp_step; [done|]. rewrite Hwu in *. bools. do 2 ewp_step. ewp_step.
  assert (Hadd : forall a b, 0 <= a < 2 ^ 31 -> 0 <= b < 2 ^ 31 -> add32 a (u32 b) = a + b).
  { intros a b ? ?. unfold add32. rewrite !u32_small; unfold is_u32; try lia. rewrite u32_small; unfold is_u32; lia. }
  assert (Hone : forall a, 0 <= a < 2 ^ 31 -> add32 a 1 = a + 1) by (intros; apply (Hadd _ 1); lia).
  assert (Hsum : add32 (words_used s) (width * 2) = words_used s + width * 2) by (rewrite <-Hwu at 1; apply Hadd; lia).
  rewrite Hsum, (Hone (words_used s)), resize_ge by (unfold words_used in *; lia).
  replace (Z.to_nat (words_used s + width * 2) - length (arg_buf (image s)))%nat with (Z.to_nat (width * 2)) by (unfold words_used; lia).
  assert (Hidx : forall w, 0 <= w < 2 -> add32 (words_used s) (u32 (2 * w)) = words_used s + 2 * w) by (intros; apply Hadd; lia).
  unfold words_used in *. set (old := arg_buf (image s)) in *. destruct Hw as [-> | ->].
  - change (seqZ 0 1) with [0]. cbn [each]. ewp_step. apply (store_pair old 0 0 [] _ _ _ 0); [done|rewrite Hidx; lia|lia|done|].
    do 2 ewp_step. split; [f_equal; lia|]. by split; [lia|].
  - change (seqZ 0 2) with [0; 1]. cbn [each]. ewp_step. apply (store_pair old 0 0 [0; 0] _ _ _ 0); [done|rewrite Hidx; lia|lia|done|].
    ewp_step. apply (store_pair (old ++ [add32 base (u32 (4 * 0)); 0]) 0 0 [] _ _ _ 0);
      [cbn; by rewrite <-(assoc_L app)|rewrite Hidx, length_app by lia; cbn; lia|rewrite length_app; cbn; lia|done|].
    do 2 ewp_step. split; [f_equal; lia|]. split; [lia|]. cbn. by rewrite <-(assoc_L app).
Qed.

(** ** Ports *)

Definition layout_at (offsets : gmap string Z) (before : Z) : ArgLayout := {|
  offsets_ := offsets;
  fallback_ := if decide (offsets = ∅) then u32 (kApArgBlockBase + 4 * before) else kApArgBlockBase |}.

Lemma new_layout_at offsets : new_layout offsets = layout_at offsets 0.
Proof. unfold new_layout, layout_at. by case_decide. Qed.

Lemma layout_take_at offsets before name words :
  match layout_take (layout_at offsets before) name words with
  | Val (base, l') => base = port_base offsets before name /\ l' = layout_at offsets (before + words)
  | Exn _ => True
  end.
Proof.
  unfold layout_take, layout_at, port_base, baseFor, new_layout. cbn. case_decide; [split; [done|]|].
  - f_equal. unfold add32, u32. rewrite <-Z.add_mod by done. f_equal. lia.
  - repeat case_match; simplify_eq; done.
Qed.

(** The locals before a port: [before] words of registers are taken, [n]
    pairs are written. *)
Record at_port (offsets : gmap string Z) (before n : Z) (p : packing) (s : lowering) : Prop := {
  ap_layout : pk_layout p = layout_at offsets before;
  ap_cursor : cursor_words p = words_used s;
  ap_space : words_used s <= kArgBufferWords;
  ap_count : pk_count p = n;
  ap_written : 0 <= 2 * n <= words_used s
}.

Section ports.
Context (offsets : gmap string Z).

(** Packing ports appends their arguments. *)
Definition packs_ports (before n : Z) (ports : list port) (s : lowering) (p' : packing) (s' : lowering) : Prop :=
  let l := arguments_of offsets before ports in
  at_port offsets (before + ports_words ports) (n + argument_pairs l) p' s' /\ packs l s s'.

Lemma ewp_call {ub nf A} (r : except image_exn A) s (Q : A -> lowering -> Prop) (X : image_exn -> lowering -> Prop) :
  match r with Val a => Q a s | Exn e => X e s end -> ewp ub nf (call r) s Q X.
Proof. done. Qed.

(** The words of one argument and its fix-up. *)
Lemma packs_one a s f :
  deferred_ f = deferred_ (fixes s) ++ scalar_fixups (words_used s) [a] ->
  deferredBufferAddresses_ f = deferredBufferAddresses_ (fixes s) ++ address_fixups (words_used s) [a] ->
  deferredPdis_ f = deferredPdis_ (fixes s) -> pdiImagesByNode_ f = pdiImagesByNode_ (fixes s) ->
  packs [a] s (set_fixes f (set_image (with_args (arg_buf (image s) ++
    flat_map (fun w => [add32 (ar_base a) (u32 (4 * w)); 0]) (seqZ 0 (source_words (ar_source a)))) (image s)) s)).
Proof. intros ? ? ? ?. split; try done. cbn. by rewrite app_nil_r. Qed.

Lemma at_port_next before n name src words p s s' l' :
  at_port offsets before n p s -> l' = layout_at offsets (before + words) ->
  words_used s + 2 * source_words src <= kArgBufferWords ->
  packs [{| ar_base := port_base offsets before name; ar_source := src |}] s s' ->
  at_port offsets (before + words) (n + source_words src)
    {| pk_layout := l'; cursor_words := words_used s + 2 * source_words src; pk_count := add32 (pk_count p) (source_words src) |} s'.
Proof.
  intros [Hl Hc Hs Hn Hw] -> Hcap Hp. pose proof (packs_words _ _ _ Hp) as E. cbn in E.
  pose proof (source_words_cases src). assert (kArgBufferWords < 2 ^ 31) by done.
  split; cbn; try lia; [done|]. unfold add32. rewrite u32_small; unfold is_u32; lia.
Qed.

Lemma packs_ports_one before n (po : port) src s p' s' :
  po_source po = Some src ->
  at_port offsets (before + po_words po) (n + source_words src) p' s' ->
  packs [{| ar_base := port_base offsets before (po_name po); ar_source := src |}] s s' ->
  packs_ports before n [po] s p' s'.
Proof.
  intros Es Hat Hp. unfold packs_ports, ports_words. cbn. rewrite Es. cbn. by rewrite !Z.add_0_r.
Qed.

Lemma pack_scalar_run {ub nf} bindings skip before n p s sp : at_port offsets before n p s ->
  ewp ub nf (pack_scalar bindings skip p sp) s (packs_ports before n [scalar_port bindings skip sp] s) (fun _ _ => True).
Proof.
  intros Hat. unfold pack_scalar. cbv zeta. ewp_step. apply ewp_call. rewrite (ap_layout _ _ _ _ _ Hat).
  pose proof (layout_take_at offsets before (sp_name sp) (scalarWidthInWords (sp_type sp))) as Ht.
  destruct (layout_take _ _ _) as [[base l']|]; [|done]. destruct Ht as [-> ->]. cbn [fst snd].
  case_decide as Hd.
  - ewp_step. unfold packs_ports, ports_words, scalar_port. cbn. rewrite decide_True by done. cbn.
    rewrite !Z.add_0_r. split; [|apply packs_nil]. by destruct Hat; split.
  - destruct (b_inputScalars bindings !! sp_name sp) as [g|] eqn:Eg; [|done].
    ewp_step. rewrite (ap_cursor _ _ _ _ _ Hat).
    eapply ewp_mono; [apply append_run; [by destruct (sp_type sp); auto|apply Hat]| |done].
    intros r s' (-> & Hcap & ->). cbn [fst snd]. unfold fixup. do 3 ewp_step. cbn [fixes set_image].
    assert (Hp : packs [{| ar_base := port_base offsets before (sp_name sp); ar_source := FromScalar g (sp_type sp) |}] s
      (set_fixes (push_scalar_fixup {| df_scopedKey := scalar_key g; df_fallbackKey := varName g; df_hasFallback := gs_scopeId g =? 0;
         df_type := sp_type sp; df_arg_word_offset := words_used s + 1 |} (fixes s))
        (set_image (with_args (arg_buf (image s) ++ flat_map (fun w => [add32 (port_base offsets before (sp_name sp)) (u32 (4 * w)); 0])
           (seqZ 0 (scalarWidthInWords (sp_type sp)))) (image s)) s))).
    { apply packs_one; try done. cbn. by rewrite app_nil_r. }
    apply packs_ports_one with (src := FromScalar g (sp_type sp)); [|by eapply at_port_next|exact Hp].
    unfold scalar_port. cbn. by rewrite decide_False, Eg.
Qed.

Lemma appendBufferAddress_run {ub nf} before n p s (po : port) b :
  po_words po = 2 -> po_source po = Some (FromBuffer b) -> at_port offsets before n p s ->
  ewp ub nf (appendBufferAddress (po_name po) b p) s (packs_ports before n [po] s) (fun _ _ => True).
Proof.
  intros Hw Es Hat. unfold appendBufferAddress. ewp_step. apply ewp_call. rewrite (ap_layout _ _ _ _ _ Hat).
  pose proof (layout_take_at offsets before (po_name po) 2) as Ht.
  destruct (layout_take _ _ _) as [[base l']|]; [|done]. destruct Ht as [-> ->]. cbn [fst snd].
  ewp_step. rewrite (ap_cursor _ _ _ _ _ Hat). eapply ewp_mono; [apply append_run; [by right|apply Hat]| |done].
  intros r s' (-> & Hcap & ->). cbn [fst snd]. unfold fixup. do 3 ewp_step. cbn [fixes set_image].
  set (a := {| ar_base := port_base offsets before (po_name po); ar_source := FromBuffer b |}).
  assert (Hp : packs [a] s (set_fixes (push_address_fixup {| da_buffer := b; da_arg_word_offset := words_used s + 1 |} (fixes s))
    (set_image (with_args (arg_buf (image s) ++ flat_map (fun w => [add32 (ar_base a) (u32 (4 * w)); 0])
       (seqZ 0 (source_words (ar_source a)))) (image s)) s))).
  { apply packs_one; try done. cbn. by rewrite app_nil_r. }
  apply packs_ports_one with (src := FromBuffer b); [done| |exact Hp]. rewrite Hw. by eapply (at_port_next _ _ _ (FromBuffer b) 2).
Qed.

Lemma pack_buffer_run {ub nf} bound before n p s bp : at_port offsets before n p s ->
  ewp ub nf (pack_buffer bound p bp) s (packs_ports before n [buffer_port bound bp] s) (fun _ _ => True).
Proof.
  intros Hat. unfold pack_buffer. destruct (bound !! bp_name bp) as [b|] eqn:Eb; [|done].
  apply (appendBufferAddress_run before n p s (buffer_port bound bp) b); [done| |done]. cbn. by rewrite Eb.
Qed.

Lemma pack_inout_run {ub nf} bindings before n p s rw : at_port offsets before n p s ->
  ewp ub nf (pack_inout bindings p rw) s (packs_ports before n [inout_port bindings rw] s) (fun _ _ => True).
Proof.
  intros Hat. unfold pack_inout. destruct (list_find _ (b_inouts bindings)) as [[i b]|] eqn:Eb; [|done].
  ewp_step. eapply ewp_mono; [apply (appendBufferAddress_run before n p s (inout_port bindings rw) (ib_in b)); [done| |done]| |done].
  { unfold inout_port. cbn. by rewrite Eb. }
  intros p' s' [[Hl Hc Hs Hn Hw] [A B C D E F G]]. unfold fixup. do 3 ewp_step. split; by split.
Qed.

(** A loop that packs a port for each element. *)
Lemma pack_loop_run {ub nf A} (body : packing -> A -> IM packing) (port_of : A -> port) :
  (forall before n p s x, at_port offsets before n p s ->
     ewp ub nf (body p x) s (packs_ports before n [port_of x] s) (fun _ _ => True)) ->
  forall before n p s l, at_port offsets before n p s ->
  ewp ub nf (loop body p l) s (packs_ports before n (map port_of l) s) (fun _ _ => True).
Proof.
  intros Hbody before n p s l Hat.
  apply (ewp_loop (fun old => packs_ports before n (map port_of old) s)).
  - split; [|apply packs_nil]. cbn. by rewrite !Z.add_0_r.
  - intros old x new p' s' _ [Hat' Hp]. eapply ewp_mono; [by apply Hbody| |done].
    intros p2 s2 [Hat2 Hp2]. rewrite map_app. cbn [map]. unfold packs_ports. cbv zeta.
    rewrite arguments_of_app, argument_pairs_app, ports_words_app, !Z.add_assoc. split; [done|by eapply packs_app].
Qed.

Lemma packs_ports_app before n l1 l2 s p1 s1 p2 s2 :
  packs_ports before n l1 s p1 s1 ->
  packs_ports (before + ports_words l1) (n + argument_pairs (arguments_of offsets before l1)) l2 s1 p2 s2 ->
  packs_ports before n (l1 ++ l2) s p2 s2.
Proof.
  intros [_ H1] [Hat H2]. unfold packs_ports. cbv zeta.
  rewrite arguments_of_app, argument_pairs_app, ports_words_app, !Z.add_assoc. split; [done|by eapply packs_app].
Qed.
End ports.

(** The arguments of a kernel are packed, and no more than a packet can
    count. *)
Lemma packKernelArgs_run {ub nf} dev k skip s : words_used s <= kArgBufferWords ->
  let l := kernel_arguments dev k skip in
  ewp ub nf (packKernelArgs dev k skip) s
    (fun count s' => count = argument_pairs l /\ argument_pairs l <= UINT16_MAX /\ words_used s' <= kArgBufferWords /\ packs l s s')
    (fun _ _ => True).
Proof.
  intros Hs l. set (offsets := kernelArgOffsets dev (k_kernel k)). unfold packKernelArgs. ewp_step. ewp_step. cbv zeta.
  assert (Hat : at_port offsets 0 0 {| pk_layout := new_layout offsets; cursor_words := u32 (words_used s); pk_count := 0 |} s).
  { assert (kArgBufferWords < 2 ^ 31) by done. split; cbn; try done; [apply new_layout_at| |unfold words_used; lia].
    apply u32_small. unfold is_u32, words_used in *. lia. }
  ewp_step. eapply ewp_mono; [apply (pack_loop_run offsets _ _ (pack_scalar_run offsets (k_ioMap k) skip)), Hat| |done].
  intros p1 s1 H1. ewp_step.
  eapply ewp_mono; [apply (pack_loop_run offsets _ _ (pack_buffer_run offsets (b_inputs (k_ioMap k)))), H1| |done].
  intros p2 s2 H2. ewp_step.
  eapply ewp_mono; [apply (pack_loop_run offsets _ _ (pack_buffer_run offsets (b_outputs (k_ioMap k)))), H2| |done].
  intros p3 s3 H3. ewp_step.
  eapply ewp_mono; [apply (pack_loop_run offsets _ _ (pack_inout_run offsets (k_ioMap k))), H3| |done].
  intros p4 s4 H4.
  pose proof (packs_ports_app _ _ _ _ _ _ _ _ _ _ H3 H4) as H34.
  pose proof (packs_ports_app _ _ _ _ _ _ _ _ _ _ H2 H34) as H24.
  pose proof (packs_ports_app _ _ _ _ _ _ _ _ _ _ H1 H24) as [Hat4 Hp].
  change (packs l s s4) in Hp. change (at_port offsets (0 + ports_words (kernel_ports k skip)) (0 + argument_pairs l) p4 s4) in Hat4.
  ewp_step. ewp_step; [done|]. bools. ewp_step. destruct Hat4 as [_ _ Hspace Hcount _]. rewrite Hcount in *. done.
Qed.
