(* ===== verification/MainlineEmit.v ===== *)
(** * Emitting the packets of a mainline image

    The invariant of [emitMainlineCommands]: what has been emitted is the
    schedule of the commands so far.  Each packet sets the bit of its entry,
    waits exactly for what the entry needs and carries the entry's payload;
    the argument buffer and the fix-ups are those of the reference. *)

From S2P Require Import Prelude Except Rp1Protocol ControlLowering Rp1Submitter MainlineImage MainlineSchedule MainlineFacts MainlineArgs.
From stdpp Require Import gmap strings sorting.
Open Scope Z_scope.

Local Ltac Zify.zify_post_hook ::= Z.to_euclidean_division_equations.

(** ** The schedule *)

Lemma foldl_mono {A B} (f : B -> A -> B) (m : B -> nat) : (forall b x, (m b <= m (f b x))%nat) ->
  forall l b, (m b <= m (foldl f b l))%nat.
Proof. intros Hf l. induction l as [|x l IH]; intros b; cbn; [done|]. specialize (IH (f b x)). specialize (Hf b x). lia. Qed.

Lemma plan_copy_mono k deps acc sp : (sc_next (cs_schedule acc) <= sc_next (cs_schedule (plan_copy k deps acc sp)))%nat.
Proof. unfold plan_copy. cbv zeta. case_match; cbn; lia. Qed.

Lemma plan_read_mono k acc sp : (sc_next acc.1 <= sc_next (plan_read k acc sp).1)%nat.
Proof. cbn. lia. Qed.

Lemma plan_command_mono posOf sc pc : (sc_next sc <= sc_next (plan_command posOf sc pc))%nat.
Proof.
  unfold plan_command. cbv zeta. destruct pc.2; cbn; try lia. unfold plan_kernel. cbv zeta.
  etrans; [|apply (foldl_mono _ (fun a => sc_next a.1) (plan_read_mono k))]. cbn.
  apply (foldl_mono _ (fun a => sc_next (cs_schedule a)) (plan_copy_mono k _)
    (inputScalars (ioType (k_kernel k))) {| cs_schedule := sc; cs_names := []; cs_positions := [] |}).
Qed.

Lemma reads_entry sc e : reads (plan_entry sc e) = reads sc ++ if is_read e then [e_pos e] else [].
Proof. unfold reads, plan_entry. cbn [sc_entries]. rewrite omap_app. cbn. by destruct (is_read e). Qed.

Lemma all_arguments_app dev l1 l2 : all_arguments dev (l1 ++ l2) = all_arguments dev l1 ++ all_arguments dev l2.
Proof. apply flat_map_app. Qed.

Lemma load_fixups_app l e : load_fixups (l ++ [e]) = load_fixups l ++
  match e_task e with
  | T_load r => [{| dp_nodeIndex := length l; dp_imageId := r_imageId r; dp_pdiPath := r_pdiPath r |}]
  | _ => []
  end.
Proof.
  unfold load_fixups. rewrite imap_app, omap_app. cbn. rewrite Nat.add_0_r. by destruct (e_task e).
Qed.

(** ** The invariant *)

Section emit.
Context (dev : FpgaDevice) (boundScalarSlots_ : gmap string Z) (resourcesLeased_ : bool).
Context (NB : Z) (HNB : 0 <= NB <= 31).

(** A slot is bound by the plan or was free on the device. *)
Definition slot_from (slot : Z) : Prop :=
  (exists key b, boundScalarSlots_ !! key = Some b /\ slot = u32 b) \/ 0 <= slot < RP1_MAX_SIGNALS.

(** The payload of an entry; [sl] is the slot each read stores to. *)
Definition task_payload (sl : gmap nat Z) (args : list argument) (e : entry) (op flags : Z) (p : payload) : Prop :=
  match e_task e with
  | T_dispatch k skip => exists loc before after,
      resolveKernelLocation dev (k_kernel k) = Val loc /\
      args = before ++ kernel_arguments dev k skip ++ after /\
      argument_pairs (kernel_arguments dev k skip) <= UINT16_MAX /\
      op = RP1_OP_KERNEL_DISPATCH /\ flags = RP1_FLAG_HALT_ON_ERROR /\
      p = P_kernel_dispatch {| kernel_base_addr := loc_base loc; arg_buffer_offset := 8 * argument_pairs before;
        arg_count := argument_pairs (kernel_arguments dev k skip); ctrl_flags := 0;
        kd_timeout_cycles := loc_timeout_cycles loc;
        expected_image_id := match kd_image (k_kernel k) with Some i => imageNumericId dev i | None => 0 end |}
  | T_copy k sp r => exists loc offs off slot,
      resolveKernelLocation dev (k_kernel k) = Val loc /\ inputScalarRegOffsets dev (k_kernel k) = Val offs /\
      offs !! sp_name sp = Some off /\ sl !! r = Some slot /\ op = RP1_OP_SCALAR_COPY /\ flags = 0 /\
      p = P_scalar_copy {| source_slot := slot; dest_addr := add32 (loc_base loc) off |}
  | T_read k sp => exists loc off slot,
      resolveKernelLocation dev (k_kernel k) = Val loc /\ outputScalarRegOffset dev (k_kernel k) (sp_name sp) = Val off /\
      sl !! e_pos e = Some slot /\ scalarFitsSignalSlot (sp_type sp) = true /\ op = RP1_OP_SCALAR_READ /\ flags = 0 /\
      p = P_scalar_read {| source_addr := add32 (loc_base loc) off; sr_target_slot := slot |}
  | T_load r => op = RP1_OP_PDI_LOAD /\ flags = RP1_FLAG_HALT_ON_ERROR /\
      p = P_pdi_load {| pdi_addr_lo := 0; pdi_addr_hi := 0; pdi_timeout_cycles := r_timeoutCycles r;
        pdi_image_id := imageNumericId dev (r_imageId r) |}
  | T_signal c => op = RP1_OP_SIGNAL /\ flags = 0 /\
      p = P_signal {| sig_target_slot := s_slot c; sig_value := s_value c; sig_operation := s_operation c |}
  | T_wait w => op = RP1_OP_WAIT /\ flags = 0 /\
      p = P_wait {| wait_condition_signal := w_slot w; wait_condition_value := w_value w; wait_condition_op := w_conditionOp w |}
  end.

Definition packet_ok (j : join_state) (sl : gmap nat Z) (args : list argument) (n : rp1_node_t) (e : entry) : Prop :=
  set_of n = bitpos (e_pos e) /\ awaits NB j (await_of n) (e_needs e) /\
  exists op flags p, n = rp1_packet op flags (await_of n) (set_of n) p /\ task_payload sl args e op flags p.

Record Emitted (sc : schedule) (sl : gmap nat Z) (s : lowering) : Prop := {
  em_next : nextExtraPos (scalars s) = sc_next sc;
  em_ready : forall key, scalarReady (scalars s) !! key =
    (fun r => {| mr_slot := default 0 (sl !! r); mr_bucket := nodeBucketOf r; mr_mask := nodeBitOf r |}) <$> sc_ready sc !! key;
  em_ready_read : forall key r, sc_ready sc !! key = Some r -> is_Some (sl !! r);
  em_extra : holds NB (extraLeafGroups (scalars s)) (reads sc);
  em_joins : Joins NB (joins s);
  em_nodes : Forall2 (packet_ok (joins s) sl (all_arguments dev (sc_entries sc))) (img_nodes (image s)) (sc_entries sc);
  em_image : image s = with_args (encode0 (all_arguments dev (sc_entries sc))) (with_nodes (img_nodes (image s)) empty_image);
  em_space : words_used s <= kArgBufferWords;
  em_deferred : deferred_ (fixes s) = scalar_fixups 0 (all_arguments dev (sc_entries sc));
  em_addresses : deferredBufferAddresses_ (fixes s) = address_fixups 0 (all_arguments dev (sc_entries sc));
  em_loads : deferredPdis_ (fixes s) = load_fixups (sc_entries sc);
  em_slots : forall r slot, sl !! r = Some slot -> (r < sc_next sc)%nat /\ slot_from slot;
  em_alloc : Z.of_nat (length (scalarSlotAlloc_ (slots s))) = RP1_MAX_SIGNALS
}.

Lemma task_payload_mono sl sl' args more e op flags p :
  sl ⊆ sl' -> task_payload sl args e op flags p -> task_payload sl' (args ++ more) e op flags p.
Proof using Type.
  intros Hs. unfold task_payload. destruct (e_task e); try done.
  - intros (loc & before & after & H1 & -> & H2). exists loc, before, (after ++ more). split; [done|].
    split; [by rewrite <-!(assoc_L app)|done].
  - intros (loc & offs & off & slot & H1 & H2 & H3 & H4 & H5). exists loc, offs, off, slot. split_and!; try done; try apply H5.
    by eapply lookup_weaken.
  - intros (loc & off & slot & H1 & H2 & H3 & H4). exists loc, off, slot. split_and!; try done; try apply H4.
    by eapply lookup_weaken.
Qed.

Lemma packet_ok_mono j j' sl sl' args more n e :
  grows j j' -> sl ⊆ sl' -> packet_ok j sl args n e -> packet_ok j' sl' (args ++ more) n e.
Proof using Type.
  intros Hg Hs (H1 & H2 & op & flags & p & H3 & H4). split; [done|]. split; [by eapply awaits_grows|].
  exists op, flags, p. split; [done|]. by eapply task_payload_mono.
Qed.

(** ** Steps *)

Lemma emitted_joins sc sl s j : Emitted sc sl s -> grows (joins s) j -> Joins NB j -> Emitted sc sl (set_joins j s).
Proof using Type.
  intros [] Hg HJ. split; try done. cbn. eapply Forall2_impl; [done|]. intros n e Hok.
  rewrite <-(app_nil_r (all_arguments _ _)). by eapply packet_ok_mono.
Qed.

Lemma emitted_slots sc sl s r : Emitted sc sl s -> length (scalarSlotAlloc_ r) = length (scalarSlotAlloc_ (slots s)) ->
  Emitted sc sl (set_slots r s).
Proof using Type. intros [] E. split; try done. cbn. by rewrite E. Qed.

Definition bump (sc : schedule) : schedule :=
  {| sc_next := S (sc_next sc); sc_ready := sc_ready sc; sc_entries := sc_entries sc |}.

Lemma next_extra_run {ub nf} sc sl s X : Emitted sc sl s ->
  ewp ub nf next_extra s (fun p s' => p = sc_next sc /\ Emitted (bump sc) sl s' /\
    s' = set_scalars {| scalarReady := scalarReady (scalars s); extraLeafGroups := extraLeafGroups (scalars s);
                        nextExtraPos := S (sc_next sc) |} s) X.
Proof using Type.
  intros HE. unfold next_extra. do 4 ewp_step. ewp_step. rewrite (em_next _ _ _ HE). split; [done|]. split; [|done].
  destruct HE. split; try done. intros r slot Hr. cbn. destruct (em_slots0 r slot Hr). split; [lia|done].
Qed.

(** The plan after the packet [n] of entry [e], scalars apart. *)
Record pushed (e : entry) (n : rp1_node_t) (s s' : lowering) : Prop := {
  ps_alloc : length (scalarSlotAlloc_ (slots s')) = length (scalarSlotAlloc_ (slots s));
  ps_joins : joins s' = joins s;
  ps_image : image s' = with_nodes (img_nodes (image s) ++ [n])
    (with_args (arg_buf (image s) ++ encode0 (entry_arguments dev e)) (image s));
  ps_space : words_used s' <= kArgBufferWords;
  ps_deferred : deferred_ (fixes s') = deferred_ (fixes s) ++ scalar_fixups (words_used s) (entry_arguments dev e);
  ps_addresses : deferredBufferAddresses_ (fixes s') =
    deferredBufferAddresses_ (fixes s) ++ address_fixups (words_used s) (entry_arguments dev e);
  ps_loads : deferredPdis_ (fixes s') = deferredPdis_ (fixes s) ++
    match e_task e with
    | T_load r => [{| dp_nodeIndex := length (img_nodes (image s)); dp_imageId := r_imageId r; dp_pdiPath := r_pdiPath r |}]
    | _ => []
    end
}.

Lemma emitted_words sc sl s : Emitted sc sl s -> words_used s = 2 * argument_pairs (all_arguments dev (sc_entries sc)).
Proof using Type. intros HE. unfold words_used. rewrite (em_image _ _ _ HE). apply length_encode. Qed.

Lemma emitted_push sc sl sl' ready s s' e n :
  Emitted sc sl s -> sl ⊆ sl' -> pushed e n s s' ->
  packet_ok (joins s) sl' (all_arguments dev (sc_entries sc) ++ entry_arguments dev e) n e ->
  nextExtraPos (scalars s') = sc_next sc ->
  (forall key, scalarReady (scalars s') !! key =
    (fun r => {| mr_slot := default 0 (sl' !! r); mr_bucket := nodeBucketOf r; mr_mask := nodeBitOf r |}) <$> ready !! key) ->
  (forall key r, ready !! key = Some r -> is_Some (sl' !! r)) ->
  holds NB (extraLeafGroups (scalars s')) (reads (plan_entry sc e)) ->
  (forall r slot, sl' !! r = Some slot -> (r < sc_next sc)%nat /\ slot_from slot) ->
  Emitted {| sc_next := sc_next sc; sc_ready := ready; sc_entries := sc_entries sc ++ [e] |} sl' s'.
Proof using Type.
  intros HE Hs HP Hok Hn Hr Hr' Hx Hsl. pose proof (emitted_words _ _ _ HE) as Hw.
  assert (Hall : all_arguments dev (sc_entries sc ++ [e]) = all_arguments dev (sc_entries sc) ++ entry_arguments dev e).
  { rewrite all_arguments_app. cbn. by rewrite app_nil_r. }
  assert (Hlen : length (img_nodes (image s)) = length (sc_entries sc)) by (eapply Forall2_length, HE).
  destruct HE, HP. split; cbn [sc_next sc_ready sc_entries]; try done; rewrite ?Hall.
  - by rewrite ps_joins0.
  - rewrite ps_joins0, ps_image0. cbn. apply Forall2_app; [|by constructor]. eapply Forall2_impl; [done|].
    intros n' e' Hok'. by eapply packet_ok_mono.
  - rewrite ps_image0, em_image0, encode_app. done.
  - by rewrite ps_deferred0, em_deferred0, Hw, scalar_fixups_app.
  - by rewrite ps_addresses0, em_addresses0, Hw, address_fixups_app.
  - by rewrite ps_loads0, em_loads0, load_fixups_app, Hlen.
  - by rewrite ps_alloc0.
Qed.

Lemma emitted_push_plain sc sl s s' e n :
  Emitted sc sl s -> pushed e n s s' -> scalars s' = scalars s -> is_read e = false ->
  packet_ok (joins s) sl (all_arguments dev (sc_entries sc) ++ entry_arguments dev e) n e ->
  Emitted (plan_entry sc e) sl s'.
Proof using Type.
  intros HE HP Es Hr Hok. apply (emitted_push sc sl sl (sc_ready sc) s s' e n); try done; rewrite ?Es; try apply HE.
  rewrite reads_entry, Hr, app_nil_r. apply HE.
Qed.

Lemma push_node_run {ub nf} n s (Q : nat -> lowering -> Prop) X :
  Q (length (img_nodes (image s))) (set_image (with_nodes (img_nodes (image s) ++ [n]) (image s)) s) ->
  ewp ub nf (push_node n) s Q X.
Proof using Type. intros HQ. unfold push_node. do 4 ewp_step. by ewp_step. Qed.

(** A packet without arguments or fix-ups. *)
Lemma pushed_simple e n s : entry_arguments dev e = [] -> match e_task e with T_load _ => False | _ => True end ->
  words_used s <= kArgBufferWords ->
  pushed e n s (set_image (with_nodes (img_nodes (image s) ++ [n]) (image s)) s).
Proof using Type.
  intros Ha Hl Hs. split; try done; rewrite ?Ha; cbn; rewrite ?app_nil_r; try done. destruct (e_task e); rewrite ?app_nil_r; done.
Qed.

(** A packet with the fields of its entry. *)
Lemma rp1_packet_ok j sl args op flags aw p e :
  awaits NB j aw (e_needs e) -> task_payload sl args e op flags p ->
  packet_ok j sl args (rp1_packet op flags aw (bitpos (e_pos e)) p) e.
Proof using Type.
  intros Ha Hp. split; [done|]. split; [by destruct aw|]. exists op, flags, p. by destruct aw.
Qed.

(** ** Waiting *)

Lemma await_run {ub nf} sc sl s groups S : Emitted sc sl s -> holds NB groups S ->
  ewp ub nf (resolveAwait groups) s
    (fun aw s' => exists j, s' = set_joins j s /\ Emitted sc sl s' /\ awaits NB j aw S) (fun _ _ => True).
Proof using HNB.
  intros HE HS. eapply ewp_mono; [apply (resolveAwait_run NB HNB groups S s HS), HE| |done].
  intros aw s' (j & -> & HJ & Hg & Ha). exists j. split_and!; try done. by apply emitted_joins.
Qed.

(** Positions that have a bit. *)
Definition in_work (q : nat) : Prop := Z.of_nat q < 31 * NB.

Lemma in_work_max q : in_work q -> (q < max_position)%nat.
Proof using HNB. unfold in_work, max_position. lia. Qed.

Lemma holds_in_work g S q : holds NB g S -> q ∈ S -> in_work q.
Proof using Type. intros HS Hq. apply (h_bits _ _ _ HS) in Hq as ([b m] & Hin & Hh). eapply has_below; [|done]. by apply (h_mask _ _ _ HS _ m). Qed.

Lemma pred_groups_holds posOf deps : (forall id q, posOf !! id = Some q -> in_work q) ->
  holds NB (pred_groups posOf deps) (dependencies posOf deps).
Proof using HNB.
  intros Hpos. assert (Hgen : forall g S, holds NB g S ->
    holds NB (foldl (fun groups depId => match posOf !! depId with
      | Some q => group_or (nodeBucketOf q) (nodeBitOf q) groups | None => groups end) g deps) (dependencies posOf deps ++ S)).
  { unfold dependencies. induction deps as [|d deps IH]; intros g S HS; cbn; [done|].
    destruct (posOf !! d) as [q|] eqn:E; cbn; [|by apply IH].
    eapply holds_same; [apply IH, (holds_add NB g S q HS)|]; [by apply in_work_max, (Hpos d)|by apply (Hpos d)|set_solver]. }
  specialize (Hgen [] [] (holds_nil NB)). by rewrite app_nil_r in Hgen.
Qed.

(** ** Scalar copies *)

Definition located (k : Rp1KernelCommand) (r : FpgaKernelLocation * gmap string Z) : Prop :=
  resolveKernelLocation dev (k_kernel k) = Val r.1 /\ inputScalarRegOffsets dev (k_kernel k) = Val r.2.

(** The locals of the forwarding loop agree with the reference. *)
Record Forwarding (k : Rp1KernelCommand) (deps : list nat) (sl : gmap nat Z) (c : copies) (f : forwarding) (s : lowering) : Prop := {
  fw_emitted : Emitted (cs_schedule c) sl s;
  fw_groups : holds NB (kernelGroups f) (cs_positions c ++ deps);
  fw_names : forwardedInputs f = cs_names c;
  fw_located : forall r, resolved f = Some r -> located k r
}.

Lemma resolved_run {ub nf} k f s (Q : _ -> lowering -> Prop) :
  (forall r, resolved f = Some r -> located k r) -> (forall r, located k r -> Q r s) ->
  ewp ub nf match resolved f with
    | Some r => mret r
    | None => loc ← call (resolveKernelLocation dev (k_kernel k)); offsets ← call (inputScalarRegOffsets dev (k_kernel k));
              mret (loc, offsets)
    end s Q (fun _ _ => True).
Proof using Type.
  intros Hl HQ. destruct (resolved f) as [r|]; [ewp_step; auto|].
  ewp_step. apply ewp_call. destruct (resolveKernelLocation _ _) eqn:E1; [|done].
  ewp_step. apply ewp_call. destruct (inputScalarRegOffsets _ _) eqn:E2; [|done]. ewp_step. by apply HQ.
Qed.

Lemma forward_scalar_run {ub nf} k deps predGroups sl c f s sp :
  Forwarding k deps sl c f s -> holds NB predGroups deps ->
  Z.of_nat (sc_next (cs_schedule (plan_copy k deps c sp))) <= 31 * NB ->
  ewp ub nf (forward_scalar dev k predGroups f sp) s (Forwarding k deps sl (plan_copy k deps c sp)) (fun _ _ => True).
Proof using HNB.
  intros [HE HG HN HL] HP Hmax. unfold forward_scalar. ewp_step. ewp_step. revert Hmax. unfold plan_copy.
  set (sc := cs_schedule c) in *. cbv zeta.
  destruct (b_inputScalars (k_ioMap k) !! sp_name sp) as [gs|]; cbn [mbind option_bind]; [|by intros _; apply ewp_ret].
  rewrite (em_ready _ _ _ HE (scalar_key gs)). destruct (sc_ready sc !! scalar_key gs) as [r|] eqn:Er; cbn [fmap option_fmap option_map]; [|by intros _; apply ewp_ret].
  cbn [cs_schedule sc_next]. intros Hmax. destruct (em_ready_read _ _ _ HE _ _ Er) as [slot Hslot]. rewrite Hslot. cbn [default].
  assert (Hr : in_work r). { destruct (em_slots _ _ _ HE r slot Hslot). unfold in_work. lia. }
  ewp_step. apply resolved_run; [done|]. intros loc Hloc.
  ewp_step. eapply ewp_mono; [apply (await_run sc sl s _ (r :: deps) HE)| |done].
  { apply holds_add; [done|by apply in_work_max|done]. }
  intros aw s1 (j & -> & HE1 & Ha). ewp_step. eapply ewp_mono; [apply (next_extra_run sc sl _ (fun _ _ => True) HE1)| |done].
  intros cpos s2 (-> & HE2 & ->). destruct (loc.2 !! sp_name sp) as [off|] eqn:Eoff; [|done].
  ewp_step. apply push_node_run. ewp_step. split.
  - set (e := {| e_pos := sc_next sc; e_needs := r :: deps; e_task := T_copy k sp r |}).
    eapply (emitted_push_plain (bump sc) sl _ _ e _ HE2); [apply pushed_simple; [done|done|apply HE2]|done|done|].
    apply (rp1_packet_ok _ _ _ _ _ _ _ e); [done|]. exists loc.1, loc.2, off, slot. split_and!; try done; apply Hloc.
  - cbn [cs_positions kernelGroups]. apply holds_add; [done| |]; [apply in_work_max|]; unfold in_work; lia.
  - cbn. by rewrite HN.
  - by intros r' [= <-].
Qed.

(** ** The dispatch *)

Lemma emitKernelPacket_run {ub nf} k aw p skip oloc sc sl s needs :
  let e := {| e_pos := p; e_needs := needs; e_task := T_dispatch k skip |} in
  Emitted sc sl s -> awaits NB (joins s) aw needs ->
  (forall loc, oloc = Some loc -> resolveKernelLocation dev (k_kernel k) = Val loc) ->
  ewp ub nf (emitKernelPacket dev k aw (bitpos p) skip oloc) s (fun _ s' => Emitted (plan_entry sc e) sl s') (fun _ _ => True).
Proof using Type.
  intros e HE Ha Hloc. unfold emitKernelPacket. ewp_step.
  assert (Hl : ewp ub nf match oloc with Some loc => mret loc | None => call (resolveKernelLocation dev (k_kernel k)) end s
    (fun loc s' => s' = s /\ resolveKernelLocation dev (k_kernel k) = Val loc) (fun _ _ => True)).
  { destruct oloc as [loc|]; [ewp_step; by auto|]. apply ewp_call. by destruct (resolveKernelLocation _ _). }
  eapply ewp_mono; [exact Hl| |done]. intros loc s0 [-> Hr]. ewp_step. ewp_step. ewp_step.
  eapply ewp_mono; [apply (packKernelArgs_run dev k skip s), HE| |done].
  intros count s1 (-> & Hcount & Hspace & HP). apply push_node_run.
  pose proof (emitted_words _ _ _ HE) as Hw. pose proof (argument_pairs_nonneg (all_arguments dev (sc_entries sc))) as Hnn.
  pose proof (argument_pairs_nonneg (kernel_arguments dev k skip)) as Hnn2. pose proof (em_space _ _ _ HE) as Hsp.
  assert (kArgBufferWords < 2 ^ 29) by done. unfold UINT16_MAX in Hcount.
  eapply (emitted_push_plain sc sl s _ e); [done| | |done|].
  - destruct HP as [A B C D E F [G _]]. split; [cbn; by rewrite A|exact C|cbn; by rewrite D|exact Hspace|exact E|exact F|].
    cbn. by rewrite app_nil_r.
  - apply (pk_scalars _ _ _ HP).
  - apply (rp1_packet_ok _ _ _ _ _ _ _ e); [done|]. exists loc, (all_arguments dev (sc_entries sc)), []. cbn. rewrite app_nil_r.
    split_and!; try done; unfold UINT16_MAX; try lia. do 2 f_equal.
    + change (Z.of_nat (length (arg_buf (image s)))) with (words_used s). rewrite (u32_small (words_used s)), u32_small; unfold is_u32; lia.
    + unfold u16. apply Z.mod_small. lia.
Qed.

(** ** Scalar reads *)

Lemma acquireScalarSlot_run {ub nf} key s : Z.of_nat (length (scalarSlotAlloc_ (slots s))) = RP1_MAX_SIGNALS ->
  ewp ub nf (acquireScalarSlot boundScalarSlots_ resourcesLeased_ key) s
    (fun slot s' => slot_from slot /\ exists r, s' = set_slots r s /\
       length (scalarSlotAlloc_ r) = length (scalarSlotAlloc_ (slots s))) (fun _ _ => True).
Proof using Type.
  intros Hlen. unfold acquireScalarSlot. destruct (boundScalarSlots_ !! key) as [b|] eqn:Eb.
  - cbv zeta. unfold reserve_local, update_slots. do 3 ewp_step. split; [left; by exists key, b|]. by eexists.
  - ewp_step. ewp_step; [done|]. do 2 ewp_step. pose proof (slot_alloc_spec (scalarSlotAlloc_ (slots s))) as Ha.
    destruct (slot_alloc _) as [[slot r']|]; [|done]. unfold reserve_local, update_slots. do 5 ewp_step.
    destruct Ha as (Hr & Ha). split; [right; lia|]. eexists. split; [done|].
    destruct Ha as (_ & -> & _). cbn. by rewrite length_insert.
Qed.

Lemma awaits_bit j q : Joins NB j -> in_work q -> awaits NB j (bitpos q) [q].
Proof using HNB.
  intros HJ Hq. eapply (awaits_direct NB j [bitpos q]); [done|lia| |by right].
  apply (holds_add NB [] [] q); [apply holds_nil|by apply in_work_max|done].
Qed.

Lemma read_fresh sc sl s : Emitted sc sl s -> sl !! sc_next sc = None.
Proof using Type.
  intros HE. destruct (sl !! sc_next sc) as [slot|] eqn:E; [|done]. destruct (em_slots _ _ _ HE _ _ E). lia.
Qed.

Lemma emitted_read {ub nf} sc sl s s1 k sp slot last n X :
  let e := {| e_pos := sc_next sc; e_needs := [last]; e_task := T_read k sp |} in
  Emitted (bump sc) sl s -> sl !! sc_next sc = None -> slot_from slot -> in_work (sc_next sc) ->
  pushed e n s s1 -> scalars s1 = scalars s ->
  packet_ok (joins s) (<[sc_next sc := slot]> sl) (all_arguments dev (sc_entries sc)) n e ->
  ewp ub nf (publish_scalar k sp slot (bitpos (sc_next sc))) s1
    (fun _ s' => Emitted (plan_read k (sc, last) sp).1 (<[sc_next sc := slot]> sl) s') X.
Proof using HNB.
  intros e HE Hfresh Hslot Hin HP Es Hok. set (q := sc_next sc) in *.
  assert (Hsub : sl ⊆ <[q := slot]> sl) by (by apply insert_subseteq).
  assert (Hextra : holds NB (group_or (bitpos q).1 (bitpos q).2 (extraLeafGroups (scalars s))) (reads (plan_entry (bump sc) e))).
  { eapply holds_same; [apply (holds_add NB _ _ q (em_extra _ _ _ HE)); [by apply in_work_max|done]|].
    rewrite reads_entry. cbn. set_solver. }
  assert (Hold : forall key r, sc_ready sc !! key = Some r -> is_Some (<[q := slot]> sl !! r)).
  { intros key r Hr. destruct (em_ready_read _ _ _ HE key r Hr) as [v Hv]. exists v. by eapply lookup_weaken. }
  assert (Hready : forall key, scalarReady (scalars s) !! key = (fun r => {| mr_slot := default 0 (<[q := slot]> sl !! r);
    mr_bucket := nodeBucketOf r; mr_mask := nodeBitOf r |}) <$> sc_ready sc !! key).
  { intros key. rewrite (em_ready _ _ _ HE key). cbn [bump sc_ready]. destruct (sc_ready sc !! key) as [r|] eqn:Er; [|done].
    destruct (em_ready_read _ _ _ HE key r Er) as [v Hv]. cbn. by rewrite Hv, (lookup_weaken _ _ _ _ Hv Hsub). }
  assert (Hsl : forall r v, <[q := slot]> sl !! r = Some v -> (r < sc_next (bump sc))%nat /\ slot_from v).
  { intros r v [[<- <-]|[_ Hr]]%lookup_insert_Some; [split; [cbn; lia|done]|]. by apply (em_slots _ _ _ HE). }
  unfold publish_scalar, plan_read. cbv zeta. cbn [fst snd].
  destruct (b_outputScalars (k_ioMap k) !! sp_name sp) as [gs|]; rewrite ?bool_decide_true, ?bool_decide_false by (done || by inversion 1).
  - cbn [ewhen]. unfold fixup. do 5 ewp_step.
    apply (emitted_push (bump sc) sl _ (<[scalar_key gs := q]> (sc_ready sc)) s _ e n); try done; cbn; rewrite ?Es, ?app_nil_r; try done.
    + by destruct HP; split.
    + apply HE.
    + intros key. destruct (decide (key = scalar_key gs)) as [->|].
      * rewrite !lookup_insert_eq. cbn. by rewrite lookup_insert_eq.
      * rewrite !lookup_insert_ne by done. apply Hready.
    + intros key r [[<- <-]|[_ Hr]]%lookup_insert_Some; [rewrite lookup_insert_eq; by eexists|by eapply Hold].
  - cbn [ewhen]. do 3 ewp_step.
    apply (emitted_push (bump sc) sl _ (sc_ready sc) s _ e n); try done; cbn; rewrite ?Es, ?app_nil_r; try done.
    + by destruct HP; split.
    + apply HE.
Qed.

Lemma read_scalar_run {ub nf} k sc sl s last sp : Emitted sc sl s -> in_work last -> in_work (sc_next sc) ->
  ewp ub nf (read_scalar dev boundScalarSlots_ resourcesLeased_ k (bitpos last) sp) s
    (fun set s' => set = bitpos (sc_next sc) /\ exists sl', sl ⊆ sl' /\ Emitted (plan_read k (sc, last) sp).1 sl' s') (fun _ _ => True).
Proof using HNB.
  intros HE Hlast Hin. unfold read_scalar, requireSignalSlotScalar. ewp_step. ewp_step; [done|]. ewp_step.
  eapply ewp_mono; [apply (next_extra_run sc sl s (fun _ _ => True) HE)| |done]. intros rpos s1 (-> & HE1 & ->). cbv zeta.
  ewp_step. eapply ewp_mono; [apply acquireScalarSlot_run, HE1| |done]. intros slot s2 (Hslot & r & -> & Hlen).
  pose proof (emitted_slots _ _ _ _ HE1 Hlen) as HE2.
  ewp_step. apply ewp_call. destruct (resolveKernelLocation dev (k_kernel k)) as [loc|] eqn:El; [|done].
  ewp_step. apply ewp_call. destruct (outputScalarRegOffset dev (k_kernel k) (sp_name sp)) as [off|] eqn:Eo; [|done].
  ewp_step. apply push_node_run. ewp_step.
  set (e := {| e_pos := sc_next sc; e_needs := [last]; e_task := T_read k sp |}).
  eapply ewp_mono; [eapply (emitted_read sc sl _ _ k sp slot last _ (fun _ _ => True) HE2); try done| |done].
  - by eapply read_fresh.
  - apply pushed_simple; [done|done|apply HE2].
  - apply (rp1_packet_ok _ _ _ _ _ _ _ e); [apply awaits_bit; [apply HE2|done]|].
    exists loc, off, slot. split_and!; try done; [by rewrite lookup_insert_eq|by bools].
  - intros [] s' HE'. ewp_step. split; [done|]. eexists. split; [|exact HE']. apply insert_subseteq. by eapply read_fresh.
Qed.

(** ** Commands *)

Abbreviation bounded sc := (Z.of_nat (sc_next sc) <= 31 * NB).

Lemma forward_run {ub nf} k deps predGroups sc sl s :
  let c0 := {| cs_schedule := sc; cs_names := []; cs_positions := [] |} in
  let ports := inputScalars (ioType (k_kernel k)) in
  Emitted sc sl s -> holds NB predGroups deps -> bounded (cs_schedule (foldl (plan_copy k deps) c0 ports)) ->
  ewp ub nf (loop (forward_scalar dev k predGroups) {| forwardedInputs := []; kernelGroups := predGroups; resolved := None |} ports) s
    (Forwarding k deps sl (foldl (plan_copy k deps) c0 ports)) (fun _ _ => True).
Proof using HNB.
  intros c0 ports HE HP Hmax.
  apply (ewp_loop (fun old => Forwarding k deps sl (foldl (plan_copy k deps) c0 old))); [by split|].
  intros old sp new f s' El Hf. rewrite foldl_snoc. apply forward_scalar_run; [done|done|].
  etrans; [|exact Hmax]. rewrite El, foldl_app. cbn [foldl]. apply inj_le.
  apply (foldl_mono _ (fun a => sc_next (cs_schedule a)) (plan_copy_mono k deps)).
Qed.

Lemma reads_run {ub nf} k sc sl s p :
  let ports := outputScalars (ioType (k_kernel k)) in
  Emitted sc sl s -> in_work p -> bounded (foldl (plan_read k) (sc, p) ports).1 ->
  ewp ub nf (loop (read_scalar dev boundScalarSlots_ resourcesLeased_ k) (bitpos p) ports) s
    (fun _ s' => exists sl', sl ⊆ sl' /\ Emitted (foldl (plan_read k) (sc, p) ports).1 sl' s') (fun _ _ => True).
Proof using HNB.
  intros ports HE Hp Hmax. eapply ewp_mono; [apply (ewp_loop (fun old last s' => exists sl',
    last = bitpos (foldl (plan_read k) (sc, p) old).2 /\ in_work (foldl (plan_read k) (sc, p) old).2 /\
    sl ⊆ sl' /\ Emitted (foldl (plan_read k) (sc, p) old).1 sl' s') (fun _ _ => True))| |done].
  - by exists sl.
  - intros old sp new last s' El (sl' & -> & Hin & Hsub & HE'). rewrite foldl_snoc.
    set (acc := foldl (plan_read k) (sc, p) old) in *.
    assert (Hnext : in_work (sc_next acc.1)).
    { unfold in_work. assert (Hle : (sc_next (plan_read k acc sp).1 <= sc_next (foldl (plan_read k) (sc, p) ports).1)%nat).
      { rewrite El, foldl_app. cbn [foldl]. apply (foldl_mono _ (fun a => sc_next a.1) (plan_read_mono k)). }
      cbn in Hle. lia. }
    eapply ewp_mono; [by apply read_scalar_run| |done]. intros set s2 (-> & sl2 & Hsub2 & HE2). exists sl2.
    assert (plan_read k (acc.1, acc.2) sp = plan_read k acc sp) as E by (by destruct acc). rewrite E in HE2.
    split_and!; try done. by etrans.
  - intros last s' (sl' & _ & _ & ? & ?). by exists sl'.
Qed.

Lemma emit_kernel_run {ub nf} k deps predGroups p sc sl s :
  Emitted sc sl s -> holds NB predGroups deps -> in_work p -> bounded (plan_kernel k deps p sc) ->
  ewp ub nf (emit_kernel dev boundScalarSlots_ resourcesLeased_ k predGroups (bitpos p)) s
    (fun _ s' => exists sl', sl ⊆ sl' /\ Emitted (plan_kernel k deps p sc) sl' s') (fun _ _ => True).
Proof using HNB.
  intros HE HP Hp Hmax. unfold plan_kernel in *. cbv zeta in *. unfold emit_kernel. ewp_step.
  set (c := foldl (plan_copy k deps) _ _) in *.
  eapply ewp_mono; [apply (forward_run k deps predGroups sc sl s HE HP)| |done].
  { etrans; [|exact Hmax]. apply inj_le. etrans; [|apply (foldl_mono _ (fun a => sc_next a.1) (plan_read_mono k))]. done. }
  intros f s1 [HE1 HG HN HL]. ewp_step. eapply ewp_mono; [by apply (await_run _ sl s1 _ _ HE1 HG)| |done].
  intros aw s2 (j & -> & HE2 & Ha). ewp_step. rewrite HN.
  eapply ewp_mono; [eapply (emitKernelPacket_run k aw p _ _ _ sl _ (cs_positions c ++ deps) HE2); [done|]| |done].
  { intros loc. destruct (resolved f) as [r|]; [|done]. intros [= <-]. by apply HL. }
  intros ? s3 HE3. ewp_step. eapply ewp_mono; [by apply (reads_run k _ sl s3 p HE3)| |done].
  intros ? s4 HE4. by ewp_step.
Qed.

Lemma push_plain_run {ub nf} op flags aw p sc sl s e : Emitted sc sl s -> awaits NB (joins s) aw (e_needs e) ->
  match e_task e with T_signal _ | T_wait _ => True | _ => False end ->
  task_payload sl (all_arguments dev (sc_entries sc)) e op flags p ->
  ewp ub nf (push_node (rp1_packet op flags aw (bitpos (e_pos e)) p);; mret tt) s
    (fun _ s' => Emitted (plan_entry sc e) sl s') (fun _ _ => True).
Proof using Type.
  intros HE Ha Ht Hp. assert (Hargs : entry_arguments dev e = []) by (unfold entry_arguments; by destruct (e_task e)).
  ewp_step. apply push_node_run. ewp_step. eapply (emitted_push_plain sc sl s _ e _ HE).
  - apply pushed_simple; [done|by destruct (e_task e)|apply HE].
  - done.
  - unfold is_read. by destruct (e_task e).
  - rewrite Hargs, app_nil_r. by apply rp1_packet_ok.
Qed.

Lemma emitReprogramPacket_run {ub nf} r aw p sc sl s needs : Emitted sc sl s -> awaits NB (joins s) aw needs ->
  ewp ub nf (emitReprogramPacket dev r aw (bitpos p);; mret tt) s
    (fun _ s' => Emitted (plan_entry sc {| e_pos := p; e_needs := needs; e_task := T_load r |}) sl s') (fun _ _ => True).
Proof using Type.
  intros HE Ha. set (e := {| e_pos := p; e_needs := needs; e_task := T_load r |}).
  ewp_step. unfold emitReprogramPacket. ewp_step. apply push_node_run. unfold fixup. do 4 ewp_step.
  eapply (emitted_push_plain sc sl s _ e _ HE); [split; cbn; rewrite ?app_nil_r; try done; apply HE|done|done|].
  by apply (rp1_packet_ok _ _ _ _ _ _ _ e).
Qed.

Lemma emit_command_run {ub nf} posOf sc sl s pc :
  Emitted sc sl s -> (forall id q, posOf !! id = Some q -> in_work q) -> in_work pc.1 -> bounded (plan_command posOf sc pc) ->
  ewp ub nf (emit_command dev boundScalarSlots_ resourcesLeased_ posOf pc) s
    (fun _ s' => is_rp1 pc.2 = true /\ exists sl', sl ⊆ sl' /\ Emitted (plan_command posOf sc pc) sl' s') (fun _ _ => True).
Proof using HNB.
  intros HE Hpos Hp Hmax. destruct pc as [p c]. unfold emit_command, plan_command in *. cbn [fst snd] in *. cbv zeta in *.
  set (deps := dependencies posOf (rp1CommandDependsOn c)) in *.
  pose proof (pred_groups_holds posOf (rp1CommandDependsOn c) Hpos) as HG. fold (bitpos p).
  assert (Hplain : forall (m : Z * Z -> IM unit) sc', (forall aw s1, Emitted sc sl s1 -> awaits NB (joins s1) aw deps ->
      ewp ub nf (m aw) s1 (fun _ s' => Emitted sc' sl s') (fun _ _ => True)) ->
    ewp ub nf (aw ← resolveAwait (pred_groups posOf (rp1CommandDependsOn c)); m aw) s
      (fun _ s' => exists sl', sl ⊆ sl' /\ Emitted sc' sl' s') (fun _ _ => True)).
  { intros m sc' Hm. ewp_step. eapply ewp_mono; [by apply (await_run sc sl s _ _ HE HG)| |done].
    intros aw s1 (j & -> & HE1 & Ha). eapply ewp_mono; [by apply Hm| |done]. intros ? s2 HE2. by exists sl. }
  assert (Hrp : forall m sc', ewp ub nf m s (fun _ s' => exists sl', sl ⊆ sl' /\ Emitted sc' sl' s') (fun _ _ => True) ->
    ewp ub nf (m : IM unit) s (fun _ s' => true = true /\ exists sl', sl ⊆ sl' /\ Emitted sc' sl' s') (fun _ _ => True)).
  { intros m sc' Hm. eapply ewp_mono; [exact Hm|by split|done]. }
  destruct c; cbn [is_rp1];
    try (ewp_step; eapply ewp_mono; [by apply (await_run sc sl s _ _ HE HG)|intros; by apply ewp_throw|done]); apply Hrp;
    [by apply emit_kernel_run|apply Hplain; intros aw s1 HE1 Ha..].
  - by apply emitReprogramPacket_run.
  - by apply (push_plain_run _ _ _ _ _ _ _ {| e_pos := p; e_needs := deps; e_task := T_signal s0 |}).
  - by apply (push_plain_run _ _ _ _ _ _ _ {| e_pos := p; e_needs := deps; e_task := T_wait w |}).
Qed.

(** All commands: what is emitted is the plan. *)
Lemma emitMainlineCommands_run {ub nf} dg sl s :
  Emitted (plan_commands dg []) sl s -> bounded (plan dg) -> (length (commands dg) <= sc_next (plan dg))%nat ->
  (forall id q, positions dg !! id = Some q -> (q < length (commands dg))%nat) ->
  ewp ub nf (emitMainlineCommands dev boundScalarSlots_ resourcesLeased_ dg (positions dg)) s
    (fun _ s' => Forall (fun c => is_rp1 c = true) (commands dg) /\ exists sl', Emitted (plan dg) sl' s') (fun _ _ => True).
Proof using HNB.
  intros HE Hmax Hlen Hpos. unfold emitMainlineCommands. set (l := imap pair (commands dg)).
  eapply ewp_mono; [apply (ewp_each _ (fun rest s' => exists old sl', l = old ++ rest /\ Forall (fun pc => is_rp1 pc.2 = true) old /\
    Emitted (plan_commands dg old) sl' s') (fun _ _ => True))| |done].
  - by exists [], sl.
  - intros pc rest s' _ (old & sl' & El & Hold & HE'). eapply ewp_mono; [apply (emit_command_run (positions dg) _ sl' s' pc HE')| |done].
    + intros id q Hq%Hpos. unfold in_work. lia.
    + assert (pc ∈ l) as Hin by (rewrite El; set_solver). apply list_elem_of_lookup in Hin as [i Hi].
      unfold l in Hi. rewrite list_lookup_imap in Hi. apply fmap_Some in Hi as (c & Hc%lookup_lt_Some & ->).
      unfold in_work. cbn. lia.
    + etrans; [|exact Hmax]. apply inj_le. unfold plan, plan_commands. fold l. rewrite El, foldl_app. cbn [foldl].
      apply (foldl_mono _ sc_next (plan_command_mono (positions dg))).
    + intros ? s2 (Hrp & sl2 & _ & HE2). exists (old ++ [pc]), sl2. rewrite <-(assoc_L app). split; [done|].
      split; [apply Forall_app; split; [done|by constructor]|]. unfold plan_commands in *. by rewrite foldl_snoc.
  - intros ? s' (old & sl' & El & Hold & HE'). rewrite app_nil_r in El. subst old. split; [|by exists sl'].
    apply Forall_lookup. intros i c Hc. apply (Forall_lookup_1 _ _ i (i, c) Hold). unfold l. by rewrite list_lookup_imap, Hc.
Qed.
End emit.
