(* ===== verification/MainlineBuild.v ===== *)
(** * The mainline image as a whole

    [buildMainlineImage] counts the packets before it emits them: the count
    is the size of the plan, so every packet has a bit.  The sentinel waits for
    the leaves of the plan. *)

From S2P Require Import Prelude Except Rp1Protocol ControlLowering Rp1Submitter MainlineImage MainlineSchedule MainlineFacts MainlineArgs MainlineEmit.
From stdpp Require Import gmap strings sorting.
Open Scope Z_scope.

Local Ltac Zify.zify_post_hook ::= Z.to_euclidean_division_equations.

(** ** Counting *)

(** The counting loop is at the same point as the plan. *)
Definition counted (acc : nat * gset string) (sc : schedule) : Prop :=
  acc.1 = sc_next sc /\ forall key, key ∈ acc.2 <-> is_Some (sc_ready sc !! key).

Definition bound_keys (b : gmap string GraphScalar) (ports : list ScalarPort) : list string :=
  omap (fun sp => scalar_key <$> (b !! sp_name sp)) ports.

Lemma plan_copies_count k deps (keys : gset string) ports c :
  (forall key, key ∈ keys <-> is_Some (sc_ready (cs_schedule c) !! key)) ->
  let c' := foldl (plan_copy k deps) c ports in
  sc_next (cs_schedule c') =
    (sc_next (cs_schedule c) + length (filter (fun key => key ∈ keys) (bound_keys (b_inputScalars (k_ioMap k)) ports)))%nat /\
  sc_ready (cs_schedule c') = sc_ready (cs_schedule c).
Proof.
  unfold bound_keys. revert c. induction ports as [|sp ports IH]; intros c Hk; cbn; [by rewrite Nat.add_0_r|].
  assert (Hr : sc_ready (cs_schedule (plan_copy k deps c sp)) = sc_ready (cs_schedule c)).
  { unfold plan_copy. cbv zeta. by case_match. }
  destruct (IH (plan_copy k deps c sp)) as [-> ->]; [by rewrite Hr|]. split; [|done].
  unfold plan_copy. cbv zeta. destruct (b_inputScalars (k_ioMap k) !! sp_name sp) as [g|]; cbn; [|done].
  destruct (sc_ready (cs_schedule c) !! scalar_key g) as [r|] eqn:Er; cbn.
  - rewrite decide_True by (apply Hk; by rewrite Er). cbn [length]. by rewrite <-plus_n_Sm.
  - rewrite decide_False by (rewrite Hk, Er; by inversion 1). done.
Qed.

Lemma plan_reads_count k ports acc :
  let acc' := foldl (plan_read k) acc ports in
  sc_next acc'.1 = (sc_next acc.1 + length ports)%nat /\
  forall key, is_Some (sc_ready acc'.1 !! key) <->
    key ∈ bound_keys (b_outputScalars (k_ioMap k)) ports \/ is_Some (sc_ready acc.1 !! key).
Proof.
  unfold bound_keys. revert acc. induction ports as [|sp ports IH]; intros acc; cbn; [split; [lia|set_solver]|].
  destruct (IH (plan_read k acc sp)) as [-> Hr]. cbn. split; [lia|]. intros key. rewrite Hr. cbn.
  destruct (b_outputScalars (k_ioMap k) !! sp_name sp) as [g|]; cbn; [|done].
  rewrite lookup_insert_is_Some, elem_of_cons. destruct (decide (scalar_key g = key)); naive_solver.
Qed.

Lemma counted_command posOf acc sc pc : counted acc sc -> counted (count_command acc pc.2) (plan_command posOf sc pc).
Proof.
  intros [Hn Hk]. unfold count_command, plan_command. cbv zeta. destruct pc as [p [k| | | | | |]]; try done. cbn [snd fst].
  unfold plan_kernel. cbv zeta. set (deps := dependencies _ _).
  destruct (plan_copies_count k deps acc.2 (inputScalars (ioType (k_kernel k)))
    {| cs_schedule := sc; cs_names := []; cs_positions := [] |} Hk) as [Hn1 Hr1].
  set (c := foldl (plan_copy k deps) _ _) in *.
  set (e := {| e_pos := p; e_needs := _; e_task := _ |}).
  destruct (plan_reads_count k (outputScalars (ioType (k_kernel k))) (plan_entry (cs_schedule c) e, p)) as [Hn2 Hr2].
  split; cbn [fst snd].
  - rewrite Hn2. cbn. rewrite Hn1. cbn. unfold bound_keys. lia.
  - intros key. rewrite Hr2. cbn. rewrite Hr1, elem_of_union, Hk, elem_of_list_to_set. done.
Qed.

Lemma totalWork_plan dg : totalWork dg = sc_next (plan dg).
Proof.
  unfold totalWork, plan, plan_commands.
  assert (Hgen : forall l acc sc, counted acc sc ->
    counted (foldl count_command acc (map snd l)) (foldl (plan_command (positions dg)) sc l)).
  { induction l as [|pc l IH]; intros acc sc H; cbn; [done|]. by apply IH, counted_command. }
  assert (Hsnd : map snd (imap pair (commands dg)) = commands dg).
  { apply list_eq. intros i. rewrite list_lookup_fmap, list_lookup_imap. by destruct (commands dg !! i). }
  rewrite <-Hsnd at 2. apply Hgen. split; [done|]. intros key. cbn. rewrite lookup_empty. split; [set_solver|by inversion 1].
Qed.

Lemma plan_length dg : (length (commands dg) <= sc_next (plan dg))%nat.
Proof.
  unfold plan, plan_commands. apply (foldl_mono _ sc_next (plan_command_mono (positions dg)) _
    {| sc_next := length (commands dg); sc_ready := ∅; sc_entries := [] |}).
Qed.

(** ** Positions and leaves *)

Lemma positions_spec dg id q : positions dg !! id = Some q ->
  exists c, commands dg !! q = Some c /\ rp1CommandId c = id.
Proof.
  unfold positions, assign_all. assert (Hgen : forall (l : list (string * nat)) (m : gmap string nat),
    foldl (fun m kv => <[kv.1 := kv.2]> m) m l !! id = Some q -> (id, q) ∈ l \/ m !! id = Some q).
  { induction l as [|[x y] l IH]; intros m; cbn; [auto|]. intros [?|H]%IH; [set_solver|].
    apply lookup_insert_Some in H as [[<- <-]|[_ ?]]; [set_solver|auto]. }
  intros [Hin|H]%Hgen; [|by rewrite lookup_empty in H]. apply list_elem_of_lookup in Hin as [i Hi].
  rewrite list_lookup_imap in Hi. apply fmap_Some in Hi as (c & Hc & [= -> ->]). eauto.
Qed.

Lemma positions_lt dg id q : positions dg !! id = Some q -> (q < length (commands dg))%nat.
Proof. intros (c & Hc & _)%positions_spec. by eapply lookup_lt_Some. Qed.

(** The marks of the leaves; no write leaves the vector. *)
Lemma isLeaf_spec dg : exists leaf, isLeaf dg (positions dg) = Some leaf /\
  forall p, (p < length (commands dg))%nat -> exists b, leaf !! p = Some b /\
    (b = true <-> p ∉ dependencies (positions dg) (concat (map rp1CommandDependsOn (commands dg)))).
Proof.
  unfold isLeaf, dependencies. set (deps := concat _). clearbody deps.
  assert (Hgen : forall v : list bool, length v = length (commands dg) -> exists leaf,
    foldl (fun leaf depId => match leaf with Some l => clear_leaf (positions dg) l depId | None => None end) (Some v) deps = Some leaf /\
    forall p, (p < length (commands dg))%nat -> exists b, leaf !! p = Some b /\
      (b = true <-> v !! p = Some true /\ p ∉ omap (fun dep => positions dg !! dep) deps)).
  { induction deps as [|d deps IH]; intros v Hv; cbn.
    - exists v. split; [done|]. intros p Hp. rewrite <-Hv in Hp. apply lookup_lt_is_Some_2 in Hp as [b Hb].
      exists b. split; [done|]. rewrite Hb. set_solver.
    - unfold clear_leaf at 2. destruct (positions dg !! d) as [q|] eqn:E; [|by apply IH]. pose proof (positions_lt _ _ _ E).
      rewrite (proj2 (Nat.ltb_lt _ _)) by lia. destruct (IH (<[q := false]> v)) as (leaf & El & Hl); [by rewrite length_insert|].
      exists leaf. split; [exact El|]. intros p Hp. destruct (Hl p Hp) as (b & Hb & Hiff). exists b. split; [done|].
      rewrite Hiff, not_elem_of_cons. destruct (decide (p = q)) as [->|Hne].
      + rewrite list_lookup_insert_eq by lia. naive_solver.
      + rewrite list_lookup_insert_ne by done. naive_solver. }
  destruct (Hgen (replicate (length (commands dg)) true)) as (leaf & El & Hl); [by rewrite length_replicate|].
  exists leaf. split; [done|]. intros p Hp. destruct (Hl p Hp) as (b & Hb & Hiff). exists b. split; [done|].
  rewrite Hiff, lookup_replicate_2 by done. naive_solver.
Qed.

Lemma leaf_groups_holds NB dg leaf extra R : 0 <= NB <= 31 -> Z.of_nat (length (commands dg)) <= 31 * NB ->
  isLeaf dg (positions dg) = Some leaf -> holds NB extra R ->
  exists groups, leaf_groups dg leaf extra = Some groups /\ holds NB groups (plain_leaves dg ++ R).
Proof.
  intros HNB Hlen El. destruct (isLeaf_spec dg) as (leaf' & El' & Hspec). rewrite El in El'. injection El' as <-.
  unfold leaf_groups, plain_leaves.
  assert (Hall : forall pc, pc ∈ imap pair (commands dg) -> (pc.1 < length (commands dg))%nat).
  { intros pc [i Hi]%list_elem_of_lookup. rewrite list_lookup_imap in Hi.
    apply fmap_Some in Hi as (c & Hc%lookup_lt_Some & ->). done. }
  revert extra R. induction (imap pair (commands dg)) as [|pc l IH]; intros extra R HR; cbn; [by exists extra|].
  destruct (Hspec pc.1) as (b & Hb & Hleaf); [apply Hall; set_solver|]. rewrite Hb.
  assert (Hrest : forall g T, holds NB g T -> exists groups, foldl _ (Some g) l = Some groups /\ holds NB groups _)
    by (intros g T; apply IH; set_solver).
  case_decide as Hd.
  - rewrite (proj2 Hleaf) by done. cbn. destruct (hasOutputScalarReads pc.2); cbn; [by apply Hrest|].
    edestruct Hrest as (groups & E & HH); [apply (holds_add NB extra R pc.1 HR); unfold max_position; specialize (Hall pc); set_solver by lia|].
    exists groups. split; [exact E|]. eapply holds_same; [exact HH|set_solver].
  - destruct b; [|by apply Hrest]. exfalso. by apply (proj1 Hleaf).
Qed.

(** ** Slots to clear *)

Lemma sorted_slots_elem l x : x ∈ sorted_slots l <-> x ∈ l.
Proof. unfold sorted_slots. rewrite merge_sort_Permutation, elem_of_elements. apply elem_of_list_to_set. Qed.

(** The slots of handshakes that no copy carries are cleared, after those
    already listed. *)
Lemma clearHandshakeSlots_spec i : let nodes := img_nodes i in
  clearHandshakeSlots i = with_clears (clear_signal_slots (clearHandshakeSlots i)) i /\
  forall x, x ∈ clear_signal_slots (clearHandshakeSlots i) <->
    x ∈ clear_signal_slots i \/ x ∈ handshake_slots nodes /\ x ∉ carried_slots nodes.
Proof.
  intros nodes. split; [done|]. intros x. unfold clearHandshakeSlots. cbn. fold nodes.
  rewrite <-(sorted_slots_elem (handshake_slots nodes)). generalize (clear_signal_slots i).
  induction (sorted_slots (handshake_slots nodes)) as [|y l IH]; intros clears; cbn; [set_solver|].
  rewrite IH. repeat case_decide; set_solver.
Qed.

(** ** The result *)

Section build.
Context (dev : FpgaDevice) (boundScalarSlots_ : gmap string Z) (resourcesLeased_ : bool).
Context (sentinelSlot_ sentinelValue_ : Z).

(** The buckets the work takes. *)
Definition node_buckets (dg : Rp1QueueProgram) : Z := (Z.of_nat (totalWork dg) + 30) / 31.

(** A plan whose image has not been built. *)
Record fresh_plan (s : lowering) : Prop := {
  fp_deferred : deferred_ (fixes s) = [];
  fp_addresses : deferredBufferAddresses_ (fixes s) = [];
  fp_loads : deferredPdis_ (fixes s) = [];
  fp_alloc : Z.of_nat (length (scalarSlotAlloc_ (slots s))) = RP1_MAX_SIGNALS
}.

(** An image: the packets [work] of the plan, the collectors, the sentinel. *)
Record Image (dg : Rp1QueueProgram) (i : Rp1GraphImage) (sl : gmap nat Z) (j : join_state)
    (work : list rp1_node_t) (aw : Z * Z) : Prop := {
  im_rp1 : Forall (fun c => is_rp1 c = true) (commands dg);
  im_fits : Z.of_nat (sc_next (plan dg)) <= 31 * node_buckets dg /\ 0 <= node_buckets dg <= 31;
  im_nodes : img_nodes i = work ++ aggregators j ++ [sentinel_packet sentinelSlot_ sentinelValue_ aw];
  im_work : Forall2 (packet_ok dev (node_buckets dg) j sl (all_arguments dev (sc_entries (plan dg)))) work (sc_entries (plan dg));
  im_joins : Joins (node_buckets dg) j;
  im_sentinel : awaits (node_buckets dg) j aw (sentinel_needs dg);
  im_args : arg_buf i = encode0 (all_arguments dev (sc_entries (plan dg)));
  im_space : Z.of_nat (length (arg_buf i)) <= kArgBufferWords;
  im_clears : forall x, x ∈ clear_signal_slots i <->
    x = sentinelSlot_ \/ x ∈ handshake_slots (img_nodes i) /\ x ∉ carried_slots (img_nodes i);
  im_size : Z.of_nat (length (img_nodes i)) <= RP1_MAX_NODES;
  im_defaults : cq_size_override i = 0 /\ trace_size_override i = 0;
  im_slots : forall r slot, sl !! r = Some slot -> slot_from boundScalarSlots_ slot
}.

(** What is left to patch at launch. *)
Record Fixups (dg : Rp1QueueProgram) (f : fixups) : Prop := {
  fx_scalars : deferred_ f = scalar_fixups 0 (all_arguments dev (sc_entries (plan dg)));
  fx_addresses : deferredBufferAddresses_ f = address_fixups 0 (all_arguments dev (sc_entries (plan dg)));
  fx_loads : deferredPdis_ f = load_fixups (sc_entries (plan dg))
}.

Lemma reserve_length slot r : length (reserve slot r) = length r.
Proof using Type. unfold reserve. case_match; [apply length_insert|done]. Qed.

Lemma reserve_run {ub nf} dg s :
  ewp ub nf (reserveReferencedSignalSlots resourcesLeased_ sentinelSlot_ dg) s
    (fun _ s' => exists r, s' = set_slots r s /\ length (scalarSlotAlloc_ r) = length (scalarSlotAlloc_ (slots s))) (fun _ _ => True).
Proof using Type.
  unfold reserveReferencedSignalSlots.
  apply (ewp_each _ (fun _ s' => exists r, s' = set_slots r s /\ length (scalarSlotAlloc_ r) = length (scalarSlotAlloc_ (slots s)))).
  - exists (slots s). by destruct s.
  - intros slot _ s' _ (r & -> & Hr). unfold reserveSignalSlot. ewp_step. ewp_step; [done|].
    unfold reserve_local, reserveDeviceSignalSlot, update_slots. ewp_step. ewp_step.
    destruct resourcesLeased_; ewp_step; cbn; [by eexists|]. case_decide; eexists; (split; [done|]); cbn; rewrite ?reserve_length; done.
Qed.

Lemma emitted_start NB dg s : 0 <= NB <= 31 -> fresh_plan s ->
  scalars s = {| scalarReady := ∅; extraLeafGroups := []; nextExtraPos := length (commands dg) |} ->
  joins s = {| aggregators := []; joinBucket := NB; joinBit := 0 |} -> image s = empty_image ->
  Emitted dev boundScalarSlots_ NB (plan_commands dg []) ∅ s.
Proof using Type.
  intros HNB [Hd Ha Hl Hal] Es Ej Ei. split; rewrite ?Es, ?Ej, ?Ei; try done.
  - apply holds_nil.
  - split; cbn; [lia|lia| |by intros ? ?%not_elem_of_nil]. exists []. split; [done|]. split; [constructor|by intros ? ?%not_elem_of_nil].
  - unfold words_used. rewrite Ei. cbn. by vm_compute.
Qed.

(** The tail of the builder: collectors and sentinel. *)
Lemma finish_run NB dg leaf sl s (Q : Rp1GraphImage -> lowering -> Prop) : 0 <= NB <= 31 -> Z.of_nat (length (commands dg)) <= 31 * NB ->
  isLeaf dg (positions dg) = Some leaf ->
  Emitted dev boundScalarSlots_ NB (plan dg) sl s ->
  (forall aw j, let i := with_nodes (img_nodes (image s) ++ aggregators j ++ [sentinel_packet sentinelSlot_ sentinelValue_ aw]) (image s) in
     Emitted dev boundScalarSlots_ NB (plan dg) sl (set_joins j s) -> awaits NB j aw (sentinel_needs dg) ->
     Z.of_nat (length (img_nodes i)) <= RP1_MAX_NODES ->
     let i' := clearHandshakeSlots (with_clears (clear_signal_slots i ++ [sentinelSlot_]) i) in
     Q i' (set_image i' (set_joins j s))) ->
  ewp False False (
    extra ← asks (fun s => extraLeafGroups (scalars s));
    groups ← defined (leaf_groups dg leaf extra);
    aw ← resolveAwait groups;
    aggs ← asks (fun s => aggregators (joins s));
    updates (fun s => set_image (with_nodes (img_nodes (image s) ++ aggs) (image s)) s);;
    push_node (sentinel_packet sentinelSlot_ sentinelValue_ aw);;
    updates (fun s => set_image (clearHandshakeSlots
      (with_clears (clear_signal_slots (image s) ++ [sentinelSlot_]) (image s))) s);;
    i ← asks image;
    throw_if (RP1_MAX_NODES <? Z.of_nat (length (img_nodes i))) ImageTooLarge;;
    mret i) s Q (fun _ _ => True).
Proof using Type.
  intros HNB Hlen El HE HQ. ewp_step. ewp_step. ewp_step.
  destruct (leaf_groups_holds NB dg leaf _ _ HNB Hlen El (em_extra _ _ _ _ _ _ HE)) as (groups & Eg & Hg).
  apply (ewp_defined _ groups); [exact Eg|]. ewp_step.
  eapply ewp_mono; [apply (await_run _ _ NB HNB (plan dg) sl s _ (sentinel_needs dg) HE); exact Hg| |done].
  intros aw s1 (j & -> & HE1 & Ha). do 5 ewp_step. apply push_node_run. do 5 ewp_step. ewp_step; [done|].
  ewp_step. bools. cbn in *. rewrite <-(assoc_L app) in *. by apply HQ.
Qed.

(** The image built is an image of the plan. *)
Lemma buildMainlineImage_run dg s : fresh_plan s ->
  ewp False False (buildMainlineImage dev boundScalarSlots_ resourcesLeased_ sentinelSlot_ sentinelValue_ dg) s
    (fun i s' => (exists sl j work aw, Image dg i sl j work aw) /\ Fixups dg (fixes s') /\ image s' = i) (fun _ _ => True).
Proof using Type.
  intros HF. unfold buildMainlineImage. cbv zeta. ewp_step. ewp_step; [done|].
  unfold start_image, reserve_local, update_slots. do 4 ewp_step. ewp_step.
  eapply ewp_mono; [apply reserve_run| |done]. intros [] s1 (r & -> & Hr).
  unfold kKernelBitsPerBucket. fold (node_buckets dg). ewp_step. ewp_step; [done|]. bools. unfold RP1_MAX_BUCKETS in *.
  assert (HNB : 0 <= node_buckets dg <= 31) by (unfold node_buckets in *; lia).
  assert (Hfit : Z.of_nat (sc_next (plan dg)) <= 31 * node_buckets dg).
  { rewrite <-totalWork_plan. unfold node_buckets. lia. }
  pose proof (plan_length dg) as Hlen.
  destruct (isLeaf_spec dg) as (leaf & El & _). ewp_step. apply (ewp_defined _ leaf); [exact El|].
  ewp_step. ewp_step. ewp_step. eapply ewp_mono;
    [apply (emitMainlineCommands_run dev boundScalarSlots_ resourcesLeased_ _ HNB dg ∅); [|done|done|apply positions_lt]| |done].
  - apply emitted_start; try done.
    + destruct HF. split; try done. cbn in *. by rewrite Hr.
    + cbn. f_equal. unfold u8. apply Z.mod_small. lia.
  - intros [] s2 [Hrp [sl HE]]. apply (finish_run (node_buckets dg) dg leaf sl s2); [done|lia|done|done|].
    intros aw j i HE1 Ha Hsize i'. pose proof (em_image _ _ _ _ _ _ HE) as Ei.
    assert (Eargs : arg_buf (image s2) = encode0 (all_arguments dev (sc_entries (plan dg)))) by (by rewrite Ei).
    assert (Eclear : clear_signal_slots (image s2) = []) by (by rewrite Ei).
    destruct (clearHandshakeSlots_spec (with_clears (clear_signal_slots i ++ [sentinelSlot_]) i)) as [_ Hcl]. split.
    + exists sl, j, (img_nodes (image s2)), aw. split; try done.
      * apply HE1.
      * apply HE1.
      * apply HE.
      * intros x. unfold i'. rewrite Hcl. cbn. rewrite Eclear. set_solver.
      * unfold i', i. cbn. by rewrite Ei.
      * intros q slot Hq. by apply (em_slots _ _ _ _ _ _ HE q).
    + split; [|done]. split; apply HE.
Qed.
End build.
