(* ===== verification/MainlinePlan.v ===== *)
(** * The shape of a mainline plan

    Facts about the reference schedule alone: every packet has its own
    position, every command has a packet that waits for its dependencies, and
    everything a packet waits for is scheduled.  Following the leaves back
    reaches every packet, when the dependencies have no cycle. *)

From S2P Require Import Prelude Except Rp1Protocol ControlLowering Rp1Submitter MainlineImage MainlineSchedule MainlineFacts MainlineArgs MainlineEmit MainlineBuild.
From stdpp Require Import gmap strings.
Open Scope Z_scope.

(** ** Blocks: what one command adds *)

Definition ready_at (sc : schedule) (q : nat) : Prop := exists key, sc_ready sc !! key = Some q.

(** The command a packet is emitted for. *)
Definition task_command (t : task) : Rp1Command :=
  match t with
  | T_dispatch k _ | T_copy k _ _ | T_read k _ => KernelCommand k
  | T_load r => ReprogramCommand r
  | T_signal s => SignalCommand s
  | T_wait w => WaitCommand w
  end.

(** The packet that stands for the command itself. *)
Definition main_task (c : Rp1Command) (t : task) : Prop :=
  task_command t = c /\ match t with T_copy _ _ _ | T_read _ _ => False | _ => True end.

(** [blk] is what the command at [p] with dependencies [deps] adds to the
    schedule [sc], giving [sc']. *)
Record block (p : nat) (c : Rp1Command) (deps : list nat) (sc sc' : schedule) (blk : list entry) : Prop := {
  bk_entries : sc_entries sc' = sc_entries sc ++ blk;
  bk_order : (sc_next sc <= sc_next sc')%nat;
  bk_main : exists e, e ∈ blk /\ e_pos e = p /\ main_task c (e_task e) /\ (forall q, q ∈ deps -> q ∈ e_needs e);
  bk_pos : forall e, e ∈ blk -> e_pos e = p \/ (sc_next sc <= e_pos e < sc_next sc')%nat;
  bk_nodup : ~ (sc_next sc <= p < sc_next sc')%nat -> NoDup (map e_pos blk);
  bk_kinds : forall e, e ∈ blk -> e_pos e = p \/ is_read e = true \/
    exists e', e' ∈ blk /\ e_pos e' = p /\ e_pos e ∈ e_needs e';
  bk_reads : hasOutputScalarReads c = true -> exists e, e ∈ blk /\ is_read e = true /\ p ∈ e_needs e;
  bk_needs : forall e q, e ∈ blk -> q ∈ e_needs e -> q ∈ deps \/ q ∈ map e_pos blk \/ ready_at sc q;
  bk_ready : forall q, ready_at sc' q -> ready_at sc q \/ q ∈ map e_pos blk;
  bk_tasks : forall e, e ∈ blk -> task_command (e_task e) = c
}.

Lemma block_single p c deps sc e : hasOutputScalarReads c = false -> e_pos e = p -> e_needs e = deps ->
  main_task c (e_task e) ->
  block p c deps sc (plan_entry sc e) [e].
Proof.
  intros Hr Hp Hd Ht. assert (Hone : forall e', e' ∈ [e] -> e_pos e' = p) by (by intros e' ->%list_elem_of_singleton).
  split; try done; auto.
  - exists e. split; [set_solver|]. split; [done|]. split; [done|]. by rewrite Hd.
  - intros _. apply NoDup_singleton.
  - by rewrite Hr.
  - intros e' q ->%list_elem_of_singleton Hq. left. by rewrite <-Hd.
  - intros e' ->%list_elem_of_singleton. apply Ht.
Qed.

(** The copies of a kernel. *)
Record copied (k : Rp1KernelCommand) (deps : list nat) (ready : gmap string nat) (c : copies) (lo : nat) (old blk : list entry) : Prop := {
  cp_entries : sc_entries (cs_schedule c) = old ++ blk;
  cp_map : map e_pos blk = seq lo (sc_next (cs_schedule c) - lo);
  cp_order : (lo <= sc_next (cs_schedule c))%nat;
  cp_listed : forall q, q ∈ cs_positions c <-> (lo <= q < sc_next (cs_schedule c))%nat;
  cp_needs : forall e q, e ∈ blk -> q ∈ e_needs e -> q ∈ deps \/ ready_at (cs_schedule c) q;
  cp_ready : sc_ready (cs_schedule c) = ready;
  cp_tasks : forall e, e ∈ blk -> task_command (e_task e) = KernelCommand k
}.

Lemma plan_copies_copied k deps ready ports c lo old blk : copied k deps ready c lo old blk ->
  exists blk', copied k deps ready (foldl (plan_copy k deps) c ports) lo old blk'.
Proof.
  revert c blk. induction ports as [|sp ports IH]; intros c blk Hc; cbn; [by exists blk|].
  unfold plan_copy at 2. cbv zeta. destruct (_ ≫= _) as [r|] eqn:Er; [|by eapply IH]. eapply IH.
  destruct Hc as [E M O L N R T]. split; cbn.
  - rewrite E, <-(assoc_L app). done.
  - rewrite map_app, M. cbn. rewrite Nat.sub_succ_l, seq_S by done. do 2 f_equal. lia.
  - lia.
  - intros q. rewrite elem_of_cons, L. lia.
  - intros e q [He| ->%list_elem_of_singleton]%elem_of_app; [by apply N|]. cbn. intros [->|?]%elem_of_cons; [|by left].
    right. apply bind_Some in Er as (gs & _ & Er). by exists (scalar_key gs).
  - done.
  - intros e [?| ->%list_elem_of_singleton]%elem_of_app; [by apply T|done].
Qed.

(** The reads of a kernel, from position [lo] on. *)
Record read_chain (k : Rp1KernelCommand) (ready : gmap string nat) (acc : schedule * nat) (first lo : nat) (old blk : list entry) : Prop := {
  rd_entries : sc_entries acc.1 = old ++ blk;
  rd_map : map e_pos blk = seq lo (sc_next acc.1 - lo);
  rd_order : (lo <= sc_next acc.1)%nat;
  rd_kind : forall e, e ∈ blk -> is_read e = true;
  rd_first : blk = [] /\ acc.2 = first \/ exists e, e ∈ blk /\ first ∈ e_needs e;
  rd_last : acc.2 = first \/ acc.2 ∈ map e_pos blk;
  rd_needs : forall e q, e ∈ blk -> q ∈ e_needs e -> q = first \/ q ∈ map e_pos blk;
  rd_ready : forall q, ready_at acc.1 q -> (exists key, ready !! key = Some q) \/ q ∈ map e_pos blk;
  rd_tasks : forall e, e ∈ blk -> task_command (e_task e) = KernelCommand k
}.

Lemma plan_read_chain k sp ready acc first lo old blk : read_chain k ready acc first lo old blk ->
  let e := {| e_pos := sc_next acc.1; e_needs := [acc.2]; e_task := T_read k sp |} in
  read_chain k ready (plan_read k acc sp) first lo old (blk ++ [e]).
Proof.
  intros [E M O K F L N R T] e. split; cbn.
  - rewrite E, <-(assoc_L app). done.
  - rewrite map_app, M. cbn. rewrite Nat.sub_succ_l, seq_S by done. do 2 f_equal. lia.
  - lia.
  - intros x [?| ->%list_elem_of_singleton]%elem_of_app; [by apply K|done].
  - right. destruct F as [[-> Ef]|(x & Hx & Hf)]; [|exists x; set_solver]. exists e. split; [by apply list_elem_of_singleton|]. cbn. set_solver.
  - right. rewrite map_app. set_solver.
  - intros x q Hx Hq. rewrite map_app, elem_of_app. apply elem_of_app in Hx as [Hx| ->%list_elem_of_singleton].
    + destruct (N x q Hx Hq); auto.
    + cbn in Hq. apply list_elem_of_singleton in Hq as ->. destruct L; auto.
  - intros q [key Hq]. rewrite map_app, elem_of_app. cbn in Hq.
    assert (Hcases : ready_at acc.1 q \/ q = sc_next acc.1).
    { destruct (b_outputScalars (k_ioMap k) !! sp_name sp) as [gs|]; [|left; by exists key].
      apply lookup_insert_Some in Hq as [[_ <-]|[_ Hq]]; [by right|left; by exists key]. }
    destruct Hcases as [Hq2| ->]; [|right; right; set_solver]. destruct (R q Hq2); auto.
  - intros x [?| ->%list_elem_of_singleton]%elem_of_app; [by apply T|done].
Qed.

Lemma plan_reads_chain k ports ready acc first lo old blk : read_chain k ready acc first lo old blk ->
  exists blk', read_chain k ready (foldl (plan_read k) acc ports) first lo old blk' /\ (ports <> [] \/ blk <> [] -> blk' <> []).
Proof.
  revert acc blk. induction ports as [|sp ports IH]; intros acc blk Hc; cbn; [exists blk; naive_solver|].
  destruct (IH (plan_read k acc sp) _ (plan_read_chain k sp _ _ _ _ _ _ Hc)) as (blk' & Hblk & Hne).
  exists blk'. split; [done|]. intros _. apply Hne. right. by destruct blk.
Qed.

Lemma elem_of_positions x (blk : list entry) lo n : map e_pos blk = seq lo n -> x ∈ blk -> (lo <= e_pos x < lo + n)%nat.
Proof.
  intros M Hx. apply (list_elem_of_fmap_2 e_pos) in Hx. change (e_pos x ∈ map e_pos blk) in Hx. rewrite M in Hx.
  by apply elem_of_seq in Hx.
Qed.

Lemma copied_start k deps sc : copied k deps (sc_ready sc) {| cs_schedule := sc; cs_names := []; cs_positions := [] |}
  (sc_next sc) (sc_entries sc) [].
Proof.
  split; cbn; [by rewrite app_nil_r|by rewrite Nat.sub_diag|done| |by intros ? ? ?%not_elem_of_nil|done|by intros ? ?%not_elem_of_nil].
  intros q. split; [by intros ?%not_elem_of_nil|lia].
Qed.

Lemma read_chain_start k sc p : read_chain k (sc_ready sc) (sc, p) p (sc_next sc) (sc_entries sc) [].
Proof.
  split; cbn; [by rewrite app_nil_r|by rewrite Nat.sub_diag|done|by intros ? ?%not_elem_of_nil|by left|by left|
    by intros ? ? ?%not_elem_of_nil|by left|by intros ? ?%not_elem_of_nil].
Qed.

(** Copies, dispatch and reads together. *)
Lemma kernel_block k deps p sc c b1 acc b2 :
  let e := {| e_pos := p; e_needs := cs_positions c ++ deps; e_task := T_dispatch k (cs_names c) |} in
  copied k deps (sc_ready sc) c (sc_next sc) (sc_entries sc) b1 ->
  read_chain k (sc_ready sc) acc p (sc_next (cs_schedule c)) (sc_entries (cs_schedule c) ++ [e]) b2 ->
  (outputScalars (ioType (k_kernel k)) <> [] -> b2 <> []) ->
  block p (KernelCommand k) deps sc acc.1 (b1 ++ [e] ++ b2).
Proof.
  intros e [E1 M1 O1 L1 N1 R1 T1] [E2 M2 O2 K2 F2 _ N2 R2 T2] Hne.
  assert (Hpos1 : forall x, x ∈ b1 -> (sc_next sc <= e_pos x < sc_next (cs_schedule c))%nat).
  { intros x Hx. pose proof (elem_of_positions x b1 _ _ M1 Hx). lia. }
  assert (Hpos2 : forall x, x ∈ b2 -> (sc_next (cs_schedule c) <= e_pos x < sc_next acc.1)%nat).
  { intros x Hx. pose proof (elem_of_positions x b2 _ _ M2 Hx). lia. }
  assert (Hcase : forall x, x ∈ b1 ++ [e] ++ b2 -> x ∈ b1 \/ x = e \/ x ∈ b2) by (intros x; rewrite !elem_of_app, list_elem_of_singleton; tauto).
  assert (Hcopy : forall q, (sc_next sc <= q < sc_next (cs_schedule c))%nat -> q ∈ map e_pos b1) by (intros q Hq; rewrite M1; apply elem_of_seq; lia).
  split.
  - by rewrite E2, E1, <-!(assoc_L app).
  - lia.
  - exists e. split; [set_solver|]. split; [done|]. split; [done|]. cbn. set_solver.
  - intros x [Hx|[->|Hx]]%Hcase; [apply Hpos1 in Hx|by left|apply Hpos2 in Hx]; lia.
  - intros Hp. rewrite !map_app, M1, M2. cbn [map e_pos e]. apply NoDup_app. split_and!; [apply NoDup_seq| |].
    + intros x Hx%elem_of_seq [->%list_elem_of_singleton|Hx2%elem_of_seq]%elem_of_app; lia.
    + apply NoDup_app. split_and!; [apply NoDup_singleton| |apply NoDup_seq]. intros x ->%list_elem_of_singleton Hx%elem_of_seq. lia.
  - intros x [Hx|[->|Hx]]%Hcase; [right; right|by left|right; left; by apply K2].
    exists e. split; [set_solver|]. split; [done|]. cbn. apply elem_of_app. left. apply L1. by apply Hpos1.
  - cbn. intros Ho%bool_decide_eq_true. destruct F2 as [[-> _]|(x & Hx & Hp)]; [by destruct (Hne Ho)|].
    exists x. split; [set_solver|]. split; [by apply K2|done].
  - intros x q [Hx|[->|Hx]]%Hcase Hq; rewrite !map_app, !elem_of_app.
    + destruct (N1 x q Hx Hq) as [?|[key Hk]]; [by left|]. right. right. exists key. by rewrite <-R1.
    + cbn in Hq. apply elem_of_app in Hq as [Hq|?]; [|by left]. apply L1, Hcopy in Hq. auto.
    + destruct (N2 x q Hx Hq) as [->|?]; [|by auto]. right. left. right. left. cbn. set_solver.
  - intros q Hq. rewrite !map_app, !elem_of_app. destruct (R2 q Hq); auto.
  - intros x [Hx|[->|Hx]]%Hcase; auto.
Qed.

Lemma plan_kernel_block k deps p sc : exists blk, block p (KernelCommand k) deps sc (plan_kernel k deps p sc) blk.
Proof.
  unfold plan_kernel. cbv zeta. set (io := ioType (k_kernel k)).
  destruct (plan_copies_copied k deps _ (inputScalars io) _ _ _ _ (copied_start k deps sc)) as (b1 & C1).
  set (c := foldl (plan_copy k deps) _ _) in *.
  set (e := {| e_pos := p; e_needs := cs_positions c ++ deps; e_task := T_dispatch k (cs_names c) |}).
  destruct (plan_reads_chain k (outputScalars io) _ _ _ _ _ _ (read_chain_start k (plan_entry (cs_schedule c) e) p)) as (b2 & C2 & Hne).
  cbn [plan_entry sc_ready sc_next sc_entries] in C2. rewrite (cp_ready _ _ _ _ _ _ _ C1) in C2.
  exists (b1 ++ [e] ++ b2). apply kernel_block; [done|done|by auto].
Qed.

Lemma plan_command_block posOf sc p c : is_rp1 c = true ->
  exists blk, block p c (dependencies posOf (rp1CommandDependsOn c)) sc (plan_command posOf sc (p, c)) blk.
Proof.
  intros Hc. destruct c; try done; [apply plan_kernel_block|..]; eexists; by apply block_single.
Qed.

(** ** The whole plan *)

Definition command_position (l : list (nat * Rp1Command)) (q : nat) : Prop := q ∈ map fst l.

(** What holds of the schedule [sc] of the commands [l] of [dg]. *)
Record Planned (dg : Rp1QueueProgram) (l : list (nat * Rp1Command)) (sc : schedule) : Prop := {
  pl_lt : forall q, command_position l q -> (q < length (commands dg))%nat;
  pl_next : (length (commands dg) <= sc_next sc)%nat;
  pl_pos : forall e, e ∈ sc_entries sc -> command_position l (e_pos e) \/ (length (commands dg) <= e_pos e < sc_next sc)%nat;
  pl_nodup : NoDup (map e_pos (sc_entries sc));
  pl_main : forall p c, (p, c) ∈ l -> exists e, e ∈ sc_entries sc /\ e_pos e = p /\ main_task c (e_task e) /\
    forall q, q ∈ dependencies (positions dg) (rp1CommandDependsOn c) -> q ∈ e_needs e;
  pl_kinds : forall e, e ∈ sc_entries sc -> command_position l (e_pos e) \/ is_read e = true \/
    exists e', e' ∈ sc_entries sc /\ command_position l (e_pos e') /\ e_pos e ∈ e_needs e';
  pl_reads : forall p c, (p, c) ∈ l -> hasOutputScalarReads c = true ->
    exists e, e ∈ sc_entries sc /\ is_read e = true /\ p ∈ e_needs e;
  pl_needs : forall e q, e ∈ sc_entries sc -> q ∈ e_needs e -> (q < length (commands dg))%nat \/ q ∈ map e_pos (sc_entries sc);
  pl_ready : forall q, ready_at sc q -> q ∈ map e_pos (sc_entries sc);
  pl_tasks : forall e, e ∈ sc_entries sc -> exists p, (p, task_command (e_task e)) ∈ l
}.

Lemma planned_start dg : Planned dg [] (plan_commands dg []).
Proof.
  split; cbn; try (by intros ? ?%not_elem_of_nil); try (by intros ? ? ?%not_elem_of_nil); [done|constructor|].
  intros q [key Hk]. cbn in Hk. by rewrite lookup_empty in Hk.
Qed.

Lemma planned_step dg l sc p c blk : Planned dg l sc -> (p < length (commands dg))%nat -> ~ command_position l p ->
  block p c (dependencies (positions dg) (rp1CommandDependsOn c)) sc (plan_command (positions dg) sc (p, c)) blk ->
  Planned dg (l ++ [(p, c)]) (plan_command (positions dg) sc (p, c)).
Proof.
  intros [Hl Hn Hp Hnd Hm Hk Hr Hne Hrd Ht] Hlt Hfresh [E O Bm Bp Bnd Bk Br Bn Brd Bt].
  set (sc' := plan_command _ _ _) in *.
  assert (Hcp : forall q, command_position (l ++ [(p, c)]) q <-> command_position l q \/ q = p).
  { intros q. unfold command_position. rewrite map_app, elem_of_app. cbn. by rewrite list_elem_of_singleton. }
  assert (Hold : forall e, e ∈ sc_entries sc -> e ∈ sc_entries sc') by (intros e He; rewrite E; set_solver).
  assert (Hnew : forall e, e ∈ blk -> e ∈ sc_entries sc') by (intros e He; rewrite E; set_solver).
  assert (Hmap : forall q, q ∈ map e_pos (sc_entries sc') <-> q ∈ map e_pos (sc_entries sc) \/ q ∈ map e_pos blk).
  { intros q. by rewrite E, map_app, elem_of_app. }
  assert (Hsplit : forall e, e ∈ sc_entries sc' -> e ∈ sc_entries sc \/ e ∈ blk) by (intros e; by rewrite E, elem_of_app).
  assert (Hcmd : forall p' c', (p', c') ∈ l ++ [(p, c)] -> (p', c') ∈ l \/ p' = p /\ c' = c).
  { intros p' c' [?|[= -> ->]%list_elem_of_singleton]%elem_of_app; auto. }
  split.
  - intros q [?| ->]%Hcp; auto.
  - lia.
  - intros e [He|He]%Hsplit; rewrite Hcp; [destruct (Hp e He); [auto|lia]|]. destruct (Bp e He); [auto|lia].
  - rewrite E, map_app. apply NoDup_app. split_and!; [done| |apply Bnd; lia].
    intros q (e & -> & He)%list_elem_of_fmap (e' & Ee & He')%list_elem_of_fmap.
    destruct (Hp e He) as [Hc|Hc], (Bp e' He') as [Hc'|Hc']; [by rewrite Ee, Hc' in Hc|apply Hl in Hc; lia|lia|lia].
  - intros p' c' [Hin|[-> ->]]%Hcmd; [destruct (Hm p' c' Hin) as (e & He & ?)|destruct Bm as (e & He & ?)]; exists e; auto.
  - intros e [He|He]%Hsplit.
    + destruct (Hk e He) as [?|[?|(e' & ? & ? & ?)]]; [left; apply Hcp; auto|auto|right; right; exists e'; rewrite Hcp; auto].
    + destruct (Bk e He) as [?|[?|(e' & ? & ? & ?)]]; [left; apply Hcp; auto|auto|right; right; exists e'; rewrite Hcp; auto].
  - intros p' c' [Hin|[-> ->]]%Hcmd Ho; [destruct (Hr p' c' Hin Ho) as (e & He & ?)|destruct (Br Ho) as (e & He & ?)]; exists e; auto.
  - intros e q [He|He]%Hsplit Hq; rewrite Hmap; [destruct (Hne e q He Hq); auto|].
    destruct (Bn e q He Hq) as [Hd|[?|?]]; [left|auto|auto]. unfold dependencies in Hd.
    apply list_elem_of_omap in Hd as (dep & _ & Hd). by eapply positions_lt.
  - intros q Hq. rewrite Hmap. destruct (Brd q Hq); auto.
  - intros e [He|He]%Hsplit; [destruct (Ht e He) as [p' ?]; exists p'; set_solver|]. exists p. rewrite (Bt e He). set_solver.
Qed.

Lemma imap_pair_lookup (l : list Rp1Command) p c : (p, c) ∈ imap pair l <-> l !! p = Some c.
Proof.
  rewrite list_elem_of_lookup. setoid_rewrite list_lookup_imap. split.
  - intros (i & (x & Hx & [= -> ->])%fmap_Some). done.
  - intros H. exists p. by rewrite H.
Qed.

Lemma imap_pair_fst (l : list Rp1Command) : map fst (imap pair l) = seq 0 (length l).
Proof.
  apply list_eq. intros i. rewrite list_lookup_fmap, list_lookup_imap.
  destruct (l !! i) as [c|] eqn:E; cbn.
  - symmetry. apply lookup_seq. split; [done|]. by eapply lookup_lt_Some.
  - symmetry. apply lookup_seq_ge. by apply lookup_ge_None.
Qed.

Lemma plan_planned dg : Forall (fun c => is_rp1 c = true) (commands dg) -> Planned dg (imap pair (commands dg)) (plan dg).
Proof.
  intros Hc. set (l := imap pair (commands dg)). enough (Hgen : forall new old, l = old ++ new -> Planned dg old (plan_commands dg old) ->
    Planned dg l (foldl (plan_command (positions dg)) (plan_commands dg old) new)) by (apply (Hgen l []); [done|apply planned_start]).
  induction new as [|[p c] new IH]; intros old El HP; cbn [foldl].
  - by rewrite app_nil_r in El; subst old.
  - assert (Hpc : commands dg !! p = Some c) by (apply imap_pair_lookup; fold l; rewrite El; set_solver).
    assert (Hnd : NoDup (map fst l)) by (unfold l; rewrite imap_pair_fst; apply NoDup_seq).
    destruct (plan_command_block (positions dg) (plan_commands dg old) p c) as [blk Hb]; [exact (Forall_lookup_1 _ _ _ _ Hc Hpc)|].
    specialize (IH (old ++ [(p, c)])). unfold plan_commands in IH at 2. rewrite foldl_snoc in IH. apply IH.
    + by rewrite <-(assoc_L app).
    + unfold plan_commands. rewrite foldl_snoc. eapply planned_step; [done|by eapply lookup_lt_Some| |exact Hb].
      rewrite El, map_app in Hnd. apply NoDup_app in Hnd as (_ & Hd & _). intros Hin. apply (Hd p Hin). cbn. set_solver.
Qed.

(** ** Following the leaves back *)

(** The dependencies between the commands have no cycle. *)
Definition acyclic (dg : Rp1QueueProgram) : Prop :=
  exists rank : nat -> nat, forall p c q, commands dg !! p = Some c ->
    q ∈ dependencies (positions dg) (rp1CommandDependsOn c) -> (rank q < rank p)%nat.

Lemma plain_leaf dg p c : commands dg !! p = Some c -> hasOutputScalarReads c = false ->
  p ∉ dependencies (positions dg) (concat (map rp1CommandDependsOn (commands dg))) -> p ∈ sentinel_needs dg.
Proof.
  intros Hc Hr Hd. unfold sentinel_needs, plain_leaves. apply elem_of_app. left. apply list_elem_of_omap.
  exists (p, c). split; [by apply imap_pair_lookup|]. cbn. by rewrite decide_True, Hr.
Qed.

Lemma reads_elem sc e : e ∈ sc_entries sc -> is_read e = true -> e_pos e ∈ reads sc.
Proof. intros He Hr. unfold reads. apply list_elem_of_omap. exists e. by rewrite Hr. Qed.

Lemma dependency_user dg q : q ∈ dependencies (positions dg) (concat (map rp1CommandDependsOn (commands dg))) ->
  exists p c, commands dg !! p = Some c /\ q ∈ dependencies (positions dg) (rp1CommandDependsOn c).
Proof.
  unfold dependencies. intros (dep & Hdep & Hq)%list_elem_of_omap.
  apply list_elem_of_In, in_concat in Hdep as (deps & (c & <- & Hc)%in_map_iff & Hin).
  apply list_elem_of_In, list_elem_of_lookup in Hc as [p Hp]. exists p, c. split; [done|].
  apply list_elem_of_omap. exists dep. split; [by apply list_elem_of_In|done].
Qed.

(** A set that contains what the sentinel needs and, with a packet, what the
    packet needs, contains every packet. *)
Lemma plan_covered dg (F : nat -> Prop) :
  Forall (fun c => is_rp1 c = true) (commands dg) -> acyclic dg ->
  (forall q, q ∈ sentinel_needs dg -> F q) ->
  (forall e q, e ∈ sc_entries (plan dg) -> F (e_pos e) -> q ∈ e_needs e -> F q) ->
  forall e, e ∈ sc_entries (plan dg) -> F (e_pos e).
Proof.
  intros Hrp [rank Hrank] Hs Hclosed. pose proof (plan_planned dg Hrp) as HP. set (l := imap pair (commands dg)) in *.
  assert (Hread : forall e, e ∈ sc_entries (plan dg) -> is_read e = true -> F (e_pos e)).
  { intros e He Hr. apply Hs. unfold sentinel_needs. apply elem_of_app. right. by apply reads_elem. }
  assert (Hmain : forall p, (p < length (commands dg))%nat -> F p).
  { set (top := list_max (map rank (seq 0 (length (commands dg))))).
    assert (Htop : forall p, (p < length (commands dg))%nat -> (rank p <= top)%nat).
    { intros p Hp. pose proof (proj1 (list_max_le (map rank (seq 0 (length (commands dg)))) top) ltac:(done)) as Hle.
      rewrite Forall_forall in Hle. apply Hle. apply list_elem_of_fmap_2, elem_of_seq. lia. }
    intros p. remember (top - rank p)%nat as d eqn:Ed. revert p Ed. induction d as [d IH] using lt_wf_ind. intros p Ed Hp.
    destruct (lookup_lt_is_Some_2 _ _ Hp) as [c Hc].
    destruct (decide (p ∈ dependencies (positions dg) (concat (map rp1CommandDependsOn (commands dg))))) as [Hd|Hd].
    - destruct (dependency_user dg p Hd) as (p' & c' & Hc' & Hdep). pose proof (lookup_lt_Some _ _ _ Hc') as Hp'.
      specialize (Hrank p' c' p Hc' Hdep). specialize (Htop p' Hp').
      destruct (pl_main _ _ _ HP p' c') as (e & He & Epos & _ & Hneeds); [by apply imap_pair_lookup|].
      apply (Hclosed e p He); [rewrite Epos; apply (IH (top - rank p')%nat); [lia|done|done]|by apply Hneeds].
    - destruct (hasOutputScalarReads c) eqn:Ho; [|apply Hs; by eapply plain_leaf].
      destruct (pl_reads _ _ _ HP p c) as (e & He & Hr & Hin); [by apply imap_pair_lookup|done|].
      apply (Hclosed e p He); [by apply Hread|done]. }
  assert (Hcmd : forall q, command_position l q -> F q) by (intros q Hq; apply Hmain; by apply (pl_lt _ _ _ HP)).
  intros e He. destruct (pl_kinds _ _ _ HP e He) as [?|[?|(e' & He' & Hc & Hin)]]; [by apply Hcmd|by apply Hread|].
  apply (Hclosed e' _ He'); [by apply Hcmd|done].
Qed.

(** What a packet waits for is scheduled. *)
Lemma plan_needs_scheduled dg e q : Forall (fun c => is_rp1 c = true) (commands dg) ->
  e ∈ sc_entries (plan dg) -> q ∈ e_needs e -> q ∈ map e_pos (sc_entries (plan dg)).
Proof.
  intros Hrp He Hq. pose proof (plan_planned dg Hrp) as HP. destruct (pl_needs _ _ _ HP e q He Hq) as [Hlt|?]; [|done].
  destruct (lookup_lt_is_Some_2 _ _ Hlt) as [c Hc]. destruct (pl_main _ _ _ HP q c) as (e' & He' & <- & _); [by apply imap_pair_lookup|].
  by apply list_elem_of_fmap_2.
Qed.

(** A packet is emitted for a command of the program. *)
Lemma plan_task_command dg e : Forall (fun c => is_rp1 c = true) (commands dg) -> e ∈ sc_entries (plan dg) ->
  task_command (e_task e) ∈ commands dg.
Proof.
  intros Hrp He. destruct (pl_tasks _ _ _ (plan_planned dg Hrp) e He) as [p Hp%imap_pair_lookup]. by eapply list_elem_of_lookup_2.
Qed.

(** ** Scalars *)

(** Position [r] is the read of an output scalar with key [key]. *)
Definition reads_key (entries : list entry) (key : string) (r : nat) : Prop :=
  exists e k sp gs, e ∈ entries /\ e_pos e = r /\ e_task e = T_read k sp /\
    b_outputScalars (k_ioMap k) !! sp_name sp = Some gs /\ scalar_key gs = key.

(** Scalars that are ready have been read, and copies are of such scalars. *)
Record Flow (sc : schedule) : Prop := {
  fl_ready : forall key r, sc_ready sc !! key = Some r -> reads_key (sc_entries sc) key r;
  fl_copy : forall e k sp r, e ∈ sc_entries sc -> e_task e = T_copy k sp r -> r ∈ e_needs e /\
    exists gs, b_inputScalars (k_ioMap k) !! sp_name sp = Some gs /\ reads_key (sc_entries sc) (scalar_key gs) r
}.

Lemma reads_key_app l1 l2 key r : reads_key l1 key r -> reads_key (l1 ++ l2) key r.
Proof. intros (e & k & sp & gs & He & ?). exists e, k, sp, gs. split; [set_solver|done]. Qed.

(** A schedule with one entry more. *)
Lemma flow_step sc sc' e : Flow sc -> sc_entries sc' = sc_entries sc ++ [e] ->
  (forall key r, sc_ready sc' !! key = Some r -> sc_ready sc !! key = Some r \/ reads_key [e] key r) ->
  (forall k sp r, e_task e = T_copy k sp r -> r ∈ e_needs e /\
     exists gs, b_inputScalars (k_ioMap k) !! sp_name sp = Some gs /\ reads_key (sc_entries sc) (scalar_key gs) r) -> Flow sc'.
Proof.
  intros [Hr Hc] E Hready Hcopy. split; rewrite ?E.
  - intros key r [H|(e' & k & sp & gs & He & ?)]%Hready; [by apply reads_key_app, Hr|]. exists e', k, sp, gs. split; [set_solver|done].
  - intros e' k sp r [He|He]%elem_of_app Et.
    + destruct (Hc e' k sp r He Et) as (? & gs & ? & ?). split; [done|]. exists gs. split; [done|by apply reads_key_app].
    + apply list_elem_of_singleton in He as ->. destruct (Hcopy k sp r Et) as (? & gs & ? & ?). split; [done|].
      exists gs. split; [done|by apply reads_key_app].
Qed.

Lemma flow_copies k deps ports c : Flow (cs_schedule c) -> Flow (cs_schedule (foldl (plan_copy k deps) c ports)).
Proof.
  revert c. induction ports as [|sp ports IH]; intros c Hc; cbn; [done|]. apply IH. unfold plan_copy. cbv zeta.
  destruct (_ ≫= _) as [r|] eqn:Er; [|done]. apply bind_Some in Er as (gs & Eg & Er). cbn.
  eapply flow_step; [done|done|by left|]. cbn. intros k' sp' r' [= <- <- <-]. split; [set_solver|].
  exists gs. split; [done|]. by apply (fl_ready _ Hc).
Qed.

Lemma flow_reads k ports acc : Flow acc.1 -> Flow (foldl (plan_read k) acc ports).1.
Proof.
  revert acc. induction ports as [|sp ports IH]; intros acc Ha; cbn; [done|]. apply IH.
  eapply flow_step; [done|done| |done]. cbn. intros key r Hr.
  destruct (b_outputScalars (k_ioMap k) !! sp_name sp) as [gs|] eqn:Eg; [|by left].
  apply lookup_insert_Some in Hr as [[<- <-]|[_ ?]]; [right|by left].
  eexists _, k, sp, gs. split; [by apply list_elem_of_singleton|done].
Qed.

Lemma flow_command posOf sc pc : Flow sc -> Flow (plan_command posOf sc pc).
Proof.
  intros H. destruct pc as [p c]. unfold plan_command. cbv zeta. cbn [fst snd].
  destruct c; try done; try (eapply flow_step; [exact H|done|by left|done]).
  unfold plan_kernel. cbv zeta. apply flow_reads. cbn. eapply flow_step; [|done|by left|done].
  by apply (flow_copies k _ _ {| cs_schedule := sc; cs_names := []; cs_positions := [] |}).
Qed.

Lemma plan_flow dg : Flow (plan dg).
Proof.
  unfold plan, plan_commands. assert (Hgen : forall l sc, Flow sc -> Flow (foldl (plan_command (positions dg)) sc l)).
  { induction l as [|pc l IH]; intros sc Hs; cbn; [done|]. by apply IH, flow_command. }
  apply Hgen. split; cbn; [|by intros ? ? ? ? ?%not_elem_of_nil]. intros key r Hr. by rewrite lookup_empty in Hr.
Qed.
