(* ===== verification/MainlineOrder.v ===== *)
(** * Mainline images run in order

    What the barrier words of a built image mean: the bits of its packets are
    distinct, a packet waits exactly for the packets its entry needs, and on
    the firmware the packets start in that order, the sentinel last. *)

From S2P Require Import Prelude Except Rp1Protocol Rp1Store Rp1Loop Rp1Order ControlLowering Rp1Submitter.
From S2P Require Import MainlineImage MainlineSchedule MainlineFacts MainlineArgs MainlineEmit MainlineBuild MainlinePlan.
From stdpp Require Import gmap strings.
Open Scope Z_scope.

Local Ltac Zify.zify_post_hook ::= Z.to_euclidean_division_equations.

(** ** What packets wait for *)

(** Packet [n] sets bit [k] of [bucket]. *)
Definition sets (n : rp1_node_t) (bucket k : Z) : Prop :=
  barrier_set_bucket n = bucket /\ 0 <= k /\ Z.testbit (barrier_set_mask n) k = true.

(** Packet [n] waits for a bit that packet [m] sets. *)
Definition waits_bit (n m : rp1_node_t) : Prop :=
  exists k, 0 <= k /\ Z.testbit (barrier_await_mask n) k = true /\ sets m (barrier_await_bucket n) k.

Definition is_collector (n : rp1_node_t) : Prop := node_opcode n = RP1_OP_NOP /\ node_flags n = RP1_FLAG_SILENT.

(** Packet [n] waits for the packet at index [y], directly or through
    collectors. *)
Inductive waits_for (nodes : list rp1_node_t) : rp1_node_t -> nat -> Prop :=
  | waits_direct n y m : nodes !! y = Some m -> waits_bit n m -> waits_for nodes n y
  | waits_through n a m y : nodes !! a = Some m -> is_collector m -> waits_bit n m -> waits_for nodes m y ->
      waits_for nodes n y.

(** The packet of entry [e] of the plan is at index [x]: entries and packets
    are in the same order. *)
Definition packet_at (dg : Rp1QueueProgram) (x : nat) (e : entry) : Prop := sc_entries (plan dg) !! x = Some e.

Lemma sets_position n c bucket k : set_of n = bitpos c -> (c < max_position)%nat ->
  sets n bucket k <-> bucket = Z.of_nat c / 31 /\ k = Z.of_nat c mod 31.
Proof.
  intros E Hc. rewrite bitpos_eq in E by done. injection E as Eb Em. unfold sets. rewrite Eb, Em.
  split.
  - intros (-> & Hk & Hb). rewrite Z.pow2_bits_eqb in Hb by lia. bools. lia.
  - intros [-> ->]. split; [done|]. split; [lia|]. rewrite Z.pow2_bits_eqb by lia. apply Z.eqb_refl.
Qed.

Lemma waits_bit_has n m c : set_of m = bitpos c -> (c < max_position)%nat -> waits_bit n m <-> has (await_of n) c.
Proof.
  intros E Hc. unfold waits_bit, has, await_of. cbn. setoid_rewrite (sets_position m c _ _ E Hc). split.
  - intros (k & _ & Hb & Hbk & ->). done.
  - intros [Hb Hk]. exists (Z.of_nat c mod 31). split; [lia|]. done.
Qed.

Section image.
Context {dev : FpgaDevice} {boundScalarSlots_ : gmap string Z} {sentinelSlot_ sentinelValue_ : Z}.
Context {dg : Rp1QueueProgram} {i : Rp1GraphImage} {sl : gmap nat Z} {j : join_state} {work : list rp1_node_t} {aw : Z * Z}.
Context (HI : Image dev boundScalarSlots_ sentinelSlot_ sentinelValue_ dg i sl j work aw).
Abbreviation NB := (node_buckets dg).
Abbreviation sentinel := (sentinel_packet sentinelSlot_ sentinelValue_ aw).

Lemma entry_in_work e : e ∈ sc_entries (plan dg) -> Z.of_nat (e_pos e) < 31 * NB /\ (e_pos e < max_position)%nat.
Proof using HI.
  intros He. destruct (im_fits _ _ _ _ _ _ _ _ _ _ HI) as [Hf Hn]. pose proof (plan_planned dg (im_rp1 _ _ _ _ _ _ _ _ _ _ HI)) as HP.
  pose proof (plan_length dg). destruct (pl_pos _ _ _ HP e He) as [Hc%(pl_lt _ _ _ HP)|Hc]; unfold max_position; lia.
Qed.

Lemma work_packet x n : work !! x = Some n -> exists e, packet_at dg x e /\ set_of n = bitpos (e_pos e) /\
  awaits NB j (await_of n) (e_needs e) /\ (e_pos e < max_position)%nat /\ Z.of_nat (e_pos e) < 31 * NB /\ ~ is_collector n.
Proof using HI.
  intros Hx. destruct (Forall2_lookup_l _ _ _ _ _ (im_work _ _ _ _ _ _ _ _ _ _ HI) Hx) as (e & He & Hs & Ha & op & flags & p & En & Ht).
  exists e. destruct (entry_in_work e (list_elem_of_lookup_2 _ _ _ He)). split_and!; try done.
  intros [Hop _]. rewrite En in Hop. cbn in Hop. unfold task_payload in Ht. destruct (e_task e); naive_solver.
Qed.

Lemma entry_packet x e : packet_at dg x e -> exists n, work !! x = Some n /\ img_nodes i !! x = Some n.
Proof using HI.
  intros Hx. destruct (Forall2_lookup_r _ _ _ _ _ (im_work _ _ _ _ _ _ _ _ _ _ HI) Hx) as (n & Hn & _). exists n. split; [done|].
  rewrite (im_nodes _ _ _ _ _ _ _ _ _ _ HI). by apply lookup_app_l_Some.
Qed.

(** A packet is of the plan, a collector or the sentinel. *)
Lemma packet_cases x n : img_nodes i !! x = Some n ->
  work !! x = Some n \/ (exists y, (x = length work + y)%nat /\ aggregators j !! y = Some n) \/
  x = (length work + length (aggregators j))%nat /\ n = sentinel.
Proof using HI.
  rewrite (im_nodes _ _ _ _ _ _ _ _ _ _ HI). intros [?|[Hx Hl]]%lookup_app_Some; [by left|right].
  apply lookup_app_Some in Hl as [Hl|[Hy Hl]].
  - left. exists (x - length work)%nat. split; [lia|done].
  - right. apply list_lookup_singleton_Some in Hl as [Hz <-]. split; [lia|done].
Qed.

Lemma collector_packet y n : aggregators j !! y = Some n -> exists c, set_of n = bitpos c /\
  (Z.to_nat (31 * NB) <= c)%nat /\ (c < max_position)%nat /\ 0 <= (await_of n).1 < NB /\ 0 <= (await_of n).2 < 2 ^ 31 /\ is_collector n.
Proof using HI.
  intros Hy. pose proof (im_joins _ _ _ _ _ _ _ _ _ _ HI) as HJ. destruct (jn_sets _ _ HJ) as (cs & E & _ & Hcs).
  destruct (jn_form _ _ HJ n (list_elem_of_lookup_2 _ _ _ Hy)) as (En & H1 & H2).
  apply (f_equal (.!! y)) in E. rewrite !list_lookup_fmap, Hy in E. cbn in E. symmetry in E.
  apply fmap_Some in E as (c & Hc & Ec). exists c. specialize (Hcs c (list_elem_of_lookup_2 _ _ _ Hc)).
  pose proof (jn_bucket _ _ HJ). pose proof (jn_bit _ _ HJ).
  split_and!; try done; try lia; [unfold cursor, max_position in *; lia|]. rewrite En. done.
Qed.

(** All bits below the sentinel's are distinct positions. *)
Lemma image_positions : exists cs, NoDup cs /\ (forall c, c ∈ cs -> (c < max_position)%nat) /\
  map set_of (work ++ aggregators j) = map bitpos cs.
Proof using HI.
  pose proof (plan_planned dg (im_rp1 _ _ _ _ _ _ _ _ _ _ HI)) as HP. pose proof (im_joins _ _ _ _ _ _ _ _ _ _ HI) as HJ.
  destruct (jn_sets _ _ HJ) as (cs & E & Hnd & Hcs). pose proof (jn_bucket _ _ HJ). pose proof (jn_bit _ _ HJ).
  exists (map e_pos (sc_entries (plan dg)) ++ cs). split_and!.
  - apply NoDup_app. split_and!; [apply HP| |done]. intros c (e & -> & He)%list_elem_of_fmap Hc%Hcs.
    pose proof (proj1 (entry_in_work e He)). lia.
  - intros c [(e & -> & He)%list_elem_of_fmap|Hc%Hcs]%elem_of_app; [by apply entry_in_work|]. unfold cursor, max_position in *. lia.
  - rewrite !map_app, E. f_equal. pose proof (im_work _ _ _ _ _ _ _ _ _ _ HI) as HW. clear -HW.
    induction HW as [|n e l l' (Hs & _) _ IH]; [done|]. cbn. by rewrite Hs, IH.
Qed.

Lemma packet_bit cs x n : map set_of (work ++ aggregators j) = map bitpos cs -> img_nodes i !! x = Some n ->
  (exists c, cs !! x = Some c /\ set_of n = bitpos c) \/ x = length cs /\ n = sentinel.
Proof using HI.
  intros E. rewrite (im_nodes _ _ _ _ _ _ _ _ _ _ HI), (assoc_L app). intros [Hx|[Hge Hx]]%lookup_app_Some.
  - left. apply (f_equal (.!! x)) in E. rewrite !list_lookup_fmap, Hx in E. cbn in E. symmetry in E.
    apply fmap_Some in E as (c & Hc & ->). by exists c.
  - right. apply list_lookup_singleton_Some in Hx as [Hz <-]. apply (f_equal length) in E. rewrite !length_map in E. split; [lia|done].
Qed.

(** A bit is set by one packet only. *)
Lemma bit_owner x y n m b k : img_nodes i !! x = Some n -> img_nodes i !! y = Some m -> sets n b k -> sets m b k -> x = y.
Proof using HI.
  intros Hx Hy Hn Hm. destruct image_positions as (cs & Hnd & Hlt & E).
  assert (Hsent : forall b' k', sets sentinel b' k' -> k' = 31).
  { intros b' k' (_ & Hk & Hb). cbn in Hb. unfold kSentinelBit in Hb. rewrite Z.shiftl_1_l, Z.pow2_bits_eqb in Hb by lia. by bools. }
  assert (Hpos : forall z p c, cs !! z = Some c -> set_of p = bitpos c -> forall b' k', sets p b' k' -> b' = Z.of_nat c / 31 /\ k' = Z.of_nat c mod 31).
  { intros z p c Hc Hs b' k'. apply sets_position; [done|]. by eapply Hlt, list_elem_of_lookup_2. }
  destruct (packet_bit cs x n E Hx) as [(c & Hc & Hs)|[-> ->]], (packet_bit cs y m E Hy) as [(c' & Hc' & Hs')|[-> ->]]; [| | |done].
  - destruct (Hpos _ _ _ Hc Hs _ _ Hn), (Hpos _ _ _ Hc' Hs' _ _ Hm). assert (c = c') as -> by lia. by eapply NoDup_lookup.
  - destruct (Hpos _ _ _ Hc Hs _ _ Hn). apply Hsent in Hm. lia.
  - destruct (Hpos _ _ _ Hc' Hs' _ _ Hm). apply Hsent in Hn. lia.
Qed.

(** ** Waiting, exactly *)

Lemma collector_in a m : img_nodes i !! a = Some m -> is_collector m -> exists y, aggregators j !! y = Some m.
Proof using HI.
  intros [Hc|[(y & _ & Hy)|[_ ->]]]%packet_cases Hm; [|by exists y|by destruct Hm as [? _]].
  destruct (work_packet a m Hc) as (? & _ & _ & _ & _ & _ & Hn). done.
Qed.

Lemma entry_set x e : packet_at dg x e -> exists m, img_nodes i !! x = Some m /\ set_of m = bitpos (e_pos e).
Proof using HI.
  intros Hx. destruct (entry_packet x e Hx) as (m & Hm & Hmi). exists m. split; [done|].
  destruct (work_packet x m Hm) as (e' & He' & Hs & _). unfold packet_at in *. by simplify_eq.
Qed.

(** A collector waits for work directly. *)
Lemma collector_waits y m x e : aggregators j !! y = Some m -> packet_at dg x e ->
  waits_for (img_nodes i) m x <-> has (await_of m) (e_pos e).
Proof using HI.
  intros Hy Hx. destruct (entry_set x e Hx) as (p & Hp & Hset). destruct (entry_in_work e (list_elem_of_lookup_2 _ _ _ Hx)) as [_ Hmax].
  split; [|intros Hh; apply waits_direct with p; [done|]; by apply (waits_bit_has m p (e_pos e))].
  destruct (collector_packet y m Hy) as (_ & _ & _ & _ & Hb & _). destruct 1 as [m x p' Hp' Hbit|m a m2 x Ha Hc Hbit _].
  - rewrite Hp in Hp'. injection Hp' as <-. by apply (waits_bit_has m p (e_pos e)).
  - destruct (collector_in a m2 Ha Hc) as [y2 Hy2]. destruct (collector_packet y2 m2 Hy2) as (c2 & Hs2 & Hge & Hc2 & _).
    apply (waits_bit_has m m2 c2 Hs2 Hc2) in Hbit as [Hb3 _]. lia.
Qed.

(** A packet that awaits [S] waits for the packets of [S] and no others. *)
Lemma waits_for_exact n S x e : awaits NB j (await_of n) S -> packet_at dg x e ->
  waits_for (img_nodes i) n x <-> e_pos e ∈ S.
Proof using HI.
  intros HA Hx. destruct (entry_set x e Hx) as (m & Hm & Hset). destruct (entry_in_work e (list_elem_of_lookup_2 _ _ _ Hx)) as [Hw Hmax].
  rewrite <-(aw_exact _ _ _ _ HA (e_pos e)). unfold reaches. split.
  - intros Hwf. split; [done|]. destruct Hwf as [n x m2 Hm2 Hbit|n a m2 x Ha Hc Hbit Hwf].
    + left. rewrite Hm in Hm2. injection Hm2 as <-. by apply (waits_bit_has n m (e_pos e)).
    + right. destruct (collector_in a m2 Ha Hc) as [y2 Hy2]. destruct (collector_packet y2 m2 Hy2) as (c2 & Hs2 & _ & Hc2 & _).
      exists m2, c2. split_and!; try done; [by eapply list_elem_of_lookup_2|by apply (waits_bit_has n m2 c2)|by apply (collector_waits y2 m2 x e)].
  - intros [_ [Hh|(m2 & c & Hin & Hs & Hc & Hh & Hh2)]].
    + apply waits_direct with m; [done|]. by apply (waits_bit_has n m (e_pos e)).
    + apply list_elem_of_lookup in Hin as [y Hy]. destruct (collector_packet y m2 Hy) as (_ & _ & _ & _ & _ & _ & Hcol).
      apply waits_through with (length work + y)%nat m2; [|done|by apply (waits_bit_has n m2 c)|by apply (collector_waits y m2 x e)].
      rewrite (im_nodes _ _ _ _ _ _ _ _ _ _ HI), lookup_app_r by lia. apply lookup_app_l_Some. by rewrite Nat.add_sub'.
Qed.

(** ** On the firmware *)

Section firmware.
Context {HW : Type} `{!Hal HW} `{!Platform}.
Implicit Types s : st HW.

(** The image is what the firmware finds. *)
Definition staged_image (s0 : st HW) : Prop :=
  ctrl s0 node_count = Z.of_nat (length (img_nodes i)) /\
  forall x n, img_nodes i !! x = Some n -> nodes s0 (Z.of_nat x) = n.

Lemma staged_packet s0 x : staged_image s0 -> 0 <= x < ctrl s0 node_count ->
  exists y n, x = Z.of_nat y /\ img_nodes i !! y = Some n /\ nodes s0 x = n.
Proof using Type.
  intros [Ec En] Hx. rewrite Ec in Hx. destruct (lookup_lt_is_Some_2 (img_nodes i) (Z.to_nat x)) as [n Hn]; [lia|].
  exists (Z.to_nat x), n. specialize (En _ _ Hn). rewrite Z2Nat.id in * by lia. done.
Qed.

Lemma image_straight s0 : staged_image s0 -> straight_line (ctrl s0 node_count) (nodes s0).
Proof using HI.
  intros HS x Hx. destruct (staged_packet s0 x HS Hx) as (y & n & _ & Hn & ->).
  apply packet_cases in Hn as [Hw|[(z & _ & Hz)|[_ ->]]]; [| |by vm_compute].
  - destruct (Forall2_lookup_l _ _ _ _ _ (im_work _ _ _ _ _ _ _ _ _ _ HI) Hw) as (e & _ & _ & _ & op & flags & p & -> & Ht).
    cbn. unfold task_payload in Ht. destruct (e_task e); destruct_and?; naive_solver.
  - destruct (collector_packet z n Hz) as (_ & _ & _ & _ & _ & _ & [-> _]). by vm_compute.
Qed.

Lemma finished_started s x : finished s x -> node_status s x <> RP1_NODE_PENDING.
Proof using Type. by intros [-> | ->]. Qed.

(** A started packet has everything it waits for finished. *)
Lemma started_waits s0 s x n y : staged_image s0 -> Ord (ctrl s0 node_count) (nodes s0) s ->
  waits_for (img_nodes i) n y -> img_nodes i !! x = Some n -> node_status s (Z.of_nat x) <> RP1_NODE_PENDING ->
  finished s (Z.of_nat y).
Proof using HI.
  intros HS HO Hwf. pose proof HS as [Ec En].
  assert (Hstep : forall x n y m, img_nodes i !! x = Some n -> img_nodes i !! y = Some m -> waits_bit n m ->
    node_status s (Z.of_nat x) <> RP1_NODE_PENDING -> finished s (Z.of_nat y)).
  { intros x' n' y' m Hx Hy (k & Hk & Hbit & Hset) Hst. pose proof (lookup_lt_Some _ _ _ Hx) as Hlt.
    pose proof (ord_started _ _ _ HO (Z.of_nat x') ltac:(lia) Hst) as Hr. unfold ready in Hr. rewrite (En _ _ Hx) in Hr.
    apply (proj1 (land_mask_spec _ _) Hr k Hk) in Hbit.
    destruct (ord_released _ _ _ HO _ k Hk Hbit) as (z & Hz & [Hpb Hpk] & Hf).
    destruct (staged_packet s0 z HS Hz) as (z' & p & -> & Hp & Ep). rewrite Ep in *.
    assert (z' = y') as -> by (by eapply (bit_owner z' y')). done. }
  revert x. induction Hwf as [n y m Hy Hb|n a m y Ha Hc Hb Hwf IH]; intros x Hx Hst; [by eapply Hstep|].
  apply (IH a Ha). apply finished_started. by eapply (Hstep x n a m).
Qed.
End firmware.
End image.
