(* ===== verification/MainlineTypes.v ===== *)
(** * Built images are well formed and valid

    The values in a built image are values of their C types, and when the
    slots, operations and addresses a program names are valid, the image
    passes the checks the submitter makes before it touches the device. *)

From S2P Require Import Prelude Except Rp1Protocol Rp1Safety ControlLowering Rp1Submitter SubmitterLog.
From S2P Require Import MainlineImage MainlineSchedule MainlineFacts MainlineArgs MainlineEmit MainlineBuild MainlinePlan MainlineOrder.
From stdpp Require Import gmap strings.
Open Scope Z_scope.

Local Ltac Zify.zify_post_hook ::= Z.to_euclidean_division_equations.

(** ** Types *)

(** The fields of the image metadata and of kernel locations are 32-bit. *)
Record device_typed (dev : FpgaDevice) : Prop := {
  dt_base : forall images id spec name k, vbinSpec_ dev = Some images -> images !! id = Some spec ->
    kernels spec !! name = Some k -> is_u32 (r5_base_addr k);
  dt_lookup : forall f name loc, lookup_ dev = Some f -> f name = Some loc -> is_u32 (loc_base loc) /\ is_u32 (loc_timeout_cycles loc)
}.

Definition command_typed (c : Rp1Command) : Prop :=
  match c with
  | ReprogramCommand r => is_u32 (r_timeoutCycles r)
  | SignalCommand s => is_u32 (s_slot s) /\ is_u32 (s_value s) /\ is_u16 (s_operation s)
  | WaitCommand w => is_u32 (w_slot w) /\ is_u32 (w_value w) /\ is_u16 (w_conditionOp w)
  | _ => True
  end.

Lemma location_typed dev kernel loc : device_typed dev -> resolveKernelLocation dev kernel = Val loc ->
  is_u32 (loc_base loc) /\ is_u32 (loc_timeout_cycles loc).
Proof.
  intros [Hb Hl]. unfold resolveKernelLocation. intros E. repeat case_match; simplify_eq.
  - cbn. split; [|done]. by eapply Hb.
  - by eapply Hl.
Qed.

Lemma index_from_u32 n name l x : is_u32 n -> index_from n name l = Some x -> is_u32 x.
Proof. revert n. induction l as [|y l IH]; intros n Hn; cbn; [done|]. case_decide; [by intros [= <-]|]. apply IH, add32_range. Qed.

Lemma imageNumericId_u32 dev id : is_u32 (imageNumericId dev id).
Proof.
  unfold imageNumericId. repeat case_match; try done. destruct (index_from 1 id (BarrierLowering.ids g)) eqn:E; [|done].
  cbn. by eapply (index_from_u32 1).
Qed.

Lemma enc_payload_u8 p : Forall is_u8 (enc_payload p).
Proof.
  destruct p; cbn [enc_payload]; rewrite ?Forall_app; try (repeat split; apply le_bytes_u8).
  induction p as [|w p IH]; [constructor|]. cbn [map concat]. rewrite !Forall_app. repeat split; try apply le_bytes_u8. exact IH.
Qed.

Lemma rp1_packet_wf op flags aw st p : is_u16 op -> is_u16 flags -> is_u8 aw.1 -> is_u32 aw.2 -> is_u8 st.1 -> is_u32 st.2 ->
  payload_wf p -> node_wf (rp1_packet op flags aw st p).
Proof.
  intros. unfold node_wf. cbn. split_and!; try done; [by apply length_enc_payload|apply enc_payload_u8].
Qed.

(** ** Validity *)

Definition command_valid (c : Rp1Command) : Prop :=
  match c with
  | SignalCommand s => s_slot s < RP1_MAX_SIGNALS /\ s_operation s <= RP1_SIGOP_AND
  | WaitCommand w => w_slot w < RP1_MAX_SIGNALS /\ w_conditionOp w <= RP1_COP_AND_Z
  | _ => True
  end.

(** Kernels of the loaded images have an address. *)
Definition device_mapped (dev : FpgaDevice) : Prop :=
  forall images id spec name k, vbinSpec_ dev = Some images -> images !! id = Some spec ->
    kernels spec !! name = Some k -> r5_base_addr k <> 0.

Lemma location_mapped dev kernel loc : device_mapped dev -> resolveKernelLocation dev kernel = Val loc -> loc_base loc <> 0.
Proof.
  intros Hm. unfold resolveKernelLocation. intros E. repeat case_match; simplify_eq.
  - cbn. by eapply Hm.
  - by bools.
Qed.

(** What each packet kind reads back. *)
Lemma view_dispatch_enc q : payload_wf (P_kernel_dispatch q) -> view_kernel_dispatch (enc_payload (P_kernel_dispatch q)) = q.
Proof. intros H. destruct (payload_roundtrip KERNEL_DISPATCH (P_kernel_dispatch q) I H) as [E _]. cbn [view_payload] in E. congruence. Qed.
Lemma view_copy_enc q : payload_wf (P_scalar_copy q) -> view_scalar_copy (enc_payload (P_scalar_copy q)) = q.
Proof. intros H. destruct (payload_roundtrip SCALAR_COPY (P_scalar_copy q) I H) as [E _]. cbn [view_payload] in E. congruence. Qed.
Lemma view_read_enc q : payload_wf (P_scalar_read q) -> view_scalar_read (enc_payload (P_scalar_read q)) = q.
Proof. intros H. destruct (payload_roundtrip SCALAR_READ (P_scalar_read q) I H) as [E _]. cbn [view_payload] in E. congruence. Qed.
Lemma view_signal_enc q : payload_wf (P_signal q) -> view_signal (enc_payload (P_signal q)) = q.
Proof. intros H. destruct (payload_roundtrip SIGNAL (P_signal q) I H) as [E _]. cbn [view_payload] in E. congruence. Qed.
Lemma view_wait_enc q : payload_wf (P_wait q) -> view_wait (enc_payload (P_wait q)) = q.
Proof. intros H. destruct (payload_roundtrip WAIT (P_wait q) I H) as [E _]. cbn [view_payload] in E. congruence. Qed.

(** The payload of an accepted packet, given what its opcode reads. *)
Definition payload_valid (words : Z) (p : payload) : Prop :=
  match p with
  | P_none | P_pdi_load _ => True
  | P_signal q => validSlot (sig_target_slot q) = true /\ sig_operation q <= RP1_SIGOP_AND
  | P_wait q => validSlot (wait_condition_signal q) = true /\ isValidCondition (wait_condition_op q) = true
  | P_scalar_read q => validSlot (sr_target_slot q) = true
  | P_scalar_copy q => validSlot (source_slot q) = true
  | P_kernel_dispatch q => kernel_base_addr q <> 0 /\ arg_buffer_offset q mod 8 = 0 /\
      arg_buffer_offset q + 8 * arg_count q <= 4 * words
  | _ => False
  end.

Lemma rp1_packet_valid count words op o flags aw st p :
  opcode_of op = Some o -> member_of o p -> payload_wf p -> payload_valid words p -> has_flag flags RP1_FLAG_SILENT = false \/ p = P_none ->
  0 <= aw.1 < 32 -> 0 <= st.1 < 32 -> valid_packet count words (rp1_packet op flags aw st p) = true.
Proof.
  intros Ho Hm Hwf Hv Hf Ha Hs.
  unfold valid_packet. cbn [node_payload rp1_packet barrier_await_bucket barrier_set_bucket node_opcode node_flags]. rewrite Ho.
  unfold RP1_MAX_BUCKETS. rewrite (proj2 (Z.leb_gt _ _)), (proj2 (Z.leb_gt _ _)) by lia. cbn [orb].
  destruct o, p as [|q|q|q|q|q|q|q|q|q|q|q|q]; try done; cbn [payload_valid] in Hv; cbv zeta.
  - rewrite view_wait_enc by done. destruct Hv as [-> ->]. done.
  - rewrite view_signal_enc by done. destruct Hv as [-> Hv]. by rewrite (proj2 (Z.ltb_ge _ _)).
  - rewrite view_dispatch_enc by done. destruct Hv as (Hb & Hal & Hend). destruct Hwf as (_ & Ho1 & Hc1 & _). unfold is_u32, is_u16 in *.
    rewrite (proj2 (Z.eqb_neq _ _)) by done. change 7 with (Z.ones 3). rewrite Z.land_ones by lia. change (2 ^ 3) with 8. rewrite Hal.
    unfold add64, u64, sizeof_kernel_arg. rewrite (Z.mod_small (_ * 8)), Z.mod_small by lia.
    by rewrite (proj2 (Z.ltb_ge _ _)) by lia.
  - by rewrite view_read_enc.
  - by rewrite view_copy_enc.
  - destruct Hf as [-> |?]; done.
Qed.

Section image.
Context {dev : FpgaDevice} {boundScalarSlots_ : gmap string Z} {sentinelSlot_ sentinelValue_ : Z}.
Context {dg : Rp1QueueProgram} {i : Rp1GraphImage} {sl : gmap nat Z} {j : join_state} {work : list rp1_node_t} {aw : Z * Z}.
Context (HI : Image dev boundScalarSlots_ sentinelSlot_ sentinelValue_ dg i sl j work aw).

Lemma slot_u32 r slot : sl !! r = Some slot -> is_u32 slot.
Proof using HI.
  intros [(key & b & _ & ->)|Hs]%(im_slots _ _ _ _ _ _ _ _ _ _ HI); [apply u32_range|].
  unfold is_u32, RP1_MAX_SIGNALS in *. lia.
Qed.

Lemma block_bounds before l after : all_arguments dev (sc_entries (plan dg)) = before ++ l ++ after ->
  2 * (argument_pairs before + argument_pairs l) <= Z.of_nat (length (arg_buf i)) <= kArgBufferWords.
Proof using HI.
  intros E. pose proof (im_space _ _ _ _ _ _ _ _ _ _ HI) as Hs. rewrite (im_args _ _ _ _ _ _ _ _ _ _ HI), length_encode in *.
  rewrite E, !argument_pairs_app in *. pose proof (argument_pairs_nonneg after). lia.
Qed.

Lemma task_payload_wf e op flags p : device_typed dev -> Forall command_typed (commands dg) -> e ∈ sc_entries (plan dg) ->
  task_payload dev sl (all_arguments dev (sc_entries (plan dg))) e op flags p -> is_u16 op /\ is_u16 flags /\ payload_wf p.
Proof using HI.
  intros Hd Hc He Ht. pose proof (plan_task_command dg e (im_rp1 _ _ _ _ _ _ _ _ _ _ HI) He) as Hin.
  rewrite Forall_forall in Hc. specialize (Hc _ Hin). unfold task_payload in Ht. destruct (e_task e); cbn in Hc.
  - destruct Ht as (loc & before & after & Hloc & E & Hcnt & -> & -> & ->). destruct (location_typed _ _ _ Hd Hloc).
    pose proof (block_bounds _ _ _ E). pose proof (argument_pairs_nonneg before). pose proof (argument_pairs_nonneg (kernel_arguments dev k skip)).
    assert (kArgBufferWords < 2 ^ 29) by done. unfold UINT16_MAX in *. split; [done|]. split; [done|]. cbn.
    split_and!; try done; unfold is_u32, is_u16 in *; try lia; destruct (kd_image (k_kernel k)); try lia; apply imageNumericId_u32.
  - destruct Ht as (loc & offs & off & slot & _ & _ & _ & Hslot & -> & -> & ->). split; [done|]. split; [done|]. cbn.
    split; [by eapply slot_u32|apply add32_range].
  - destruct Ht as (loc & off & slot & _ & _ & Hslot & _ & -> & -> & ->). split; [done|]. split; [done|]. cbn.
    split; [apply add32_range|by eapply slot_u32].
  - destruct Ht as (-> & -> & ->). split; [done|]. split; [done|]. cbn. split_and!; try done; apply imageNumericId_u32.
  - destruct Ht as (-> & -> & ->). done.
  - destruct Ht as (-> & -> & ->). done.
Qed.

Lemma small_range c : 0 <= c.1 < 32 /\ 0 <= c.2 < 2 ^ 31 -> is_u8 c.1 /\ is_u32 c.2.
Proof using Type. unfold is_u8, is_u32. lia. Qed.

Lemma bitpos_typed c : (c < max_position)%nat -> is_u8 (bitpos c).1 /\ is_u32 (bitpos c).2.
Proof using Type. intros Hc. pose proof (bitpos_range c Hc). apply small_range. lia. Qed.

Lemma packets_wf : device_typed dev -> Forall command_typed (commands dg) -> is_u32 sentinelSlot_ -> is_u32 sentinelValue_ ->
  Forall node_wf (img_nodes i).
Proof using HI.
  intros Hd Hc Hs Hv. apply Forall_forall. intros n [x Hx]%list_elem_of_lookup.
  destruct (im_fits _ _ _ _ _ _ _ _ _ _ HI) as [_ Hn]. apply (packet_cases HI) in Hx as [Hw|[(y & _ & Hy)|[_ ->]]].
  - destruct (work_packet HI x n Hw) as (e & He & Hset & Ha & Hm & _). unfold packet_at in He.
    destruct (Forall2_lookup_lr _ _ _ _ _ _ (im_work _ _ _ _ _ _ _ _ _ _ HI) Hw He) as (_ & _ & op & flags & p & -> & Ht).
    destruct (task_payload_wf e op flags p Hd Hc (list_elem_of_lookup_2 _ _ _ He) Ht) as (Ho & Hf & Hp).
    destruct (small_range _ (aw_range _ _ _ _ Ha)), (bitpos_typed _ Hm). apply rp1_packet_wf; try done; by rewrite Hset.
  - destruct (collector_packet HI y n Hy) as (c & Hset & _ & Hm & Hb & Hmask & _).
    destruct (jn_form _ _ (im_joins _ _ _ _ _ _ _ _ _ _ HI) n (list_elem_of_lookup_2 _ _ _ Hy)) as [-> _].
    destruct (small_range (await_of n)) as [? ?]; [lia|]. destruct (bitpos_typed c Hm).
    apply rp1_packet_wf; try done; by rewrite Hset.
  - destruct (small_range _ (aw_range _ _ _ _ (im_sentinel _ _ _ _ _ _ _ _ _ _ HI))). by apply rp1_packet_wf.
Qed.

Lemma slot_valid r slot : (forall key b, boundScalarSlots_ !! key = Some b -> 0 <= b < RP1_MAX_SIGNALS) -> sl !! r = Some slot ->
  validSlot slot = true.
Proof using HI.
  intros Hb Hs. apply (im_slots _ _ _ _ _ _ _ _ _ _ HI) in Hs. unfold validSlot. apply Z.ltb_lt.
  destruct Hs as [(key & b & Hk & ->)|?]; [|lia]. specialize (Hb key b Hk). rewrite u32_small; [lia|]. unfold is_u32, RP1_MAX_SIGNALS in *. lia.
Qed.

Lemma task_valid e op flags p : device_mapped dev -> Forall command_valid (commands dg) ->
  (forall key b, boundScalarSlots_ !! key = Some b -> 0 <= b < RP1_MAX_SIGNALS) -> e ∈ sc_entries (plan dg) ->
  task_payload dev sl (all_arguments dev (sc_entries (plan dg))) e op flags p ->
  payload_valid (Z.of_nat (length (arg_buf i))) p /\ has_flag flags RP1_FLAG_SILENT = false /\
  exists o, opcode_of op = Some o /\ member_of o p.
Proof using HI.
  intros Hd Hc Hb He Ht. pose proof (plan_task_command dg e (im_rp1 _ _ _ _ _ _ _ _ _ _ HI) He) as Hin.
  rewrite Forall_forall in Hc. specialize (Hc _ Hin). unfold task_payload in Ht. destruct (e_task e); cbn in Hc.
  - destruct Ht as (loc & before & after & Hloc & E & Hcnt & -> & -> & ->). pose proof (block_bounds _ _ _ E). split; [|split; [done|]; by eexists].
    cbn. split; [by eapply location_mapped|]. split; [|lia]. rewrite Z.mul_comm. apply Z.mod_mul. done.
  - destruct Ht as (loc & offs & off & slot & _ & _ & _ & Hslot & -> & -> & ->). split; [by eapply slot_valid|]. split; [done|]. by eexists.
  - destruct Ht as (loc & off & slot & _ & _ & Hslot & _ & -> & -> & ->). split; [by eapply slot_valid|]. split; [done|]. by eexists.
  - destruct Ht as (-> & -> & ->). split; [done|]. split; [done|]. by eexists.
  - destruct Ht as (-> & -> & ->). split; [|split; [done|]; by eexists]. cbn. destruct Hc. split; [by apply Z.ltb_lt|done].
  - destruct Ht as (-> & -> & ->). split; [|split; [done|]; by eexists]. cbn. destruct Hc. split; [by apply Z.ltb_lt|by apply Z.leb_le].
Qed.

Lemma packets_valid : device_typed dev -> Forall command_typed (commands dg) -> is_u32 sentinelSlot_ -> is_u32 sentinelValue_ ->
  device_mapped dev -> Forall command_valid (commands dg) ->
  (forall key b, boundScalarSlots_ !! key = Some b -> 0 <= b < RP1_MAX_SIGNALS) -> sentinelSlot_ < RP1_MAX_SIGNALS ->
  Forall (fun n => valid_packet (Z.of_nat (length (img_nodes i))) (Z.of_nat (length (arg_buf i))) n = true) (img_nodes i).
Proof using HI.
  intros Hd Hc Hs Hv Hm Hcv Hb Hsl. apply Forall_forall. intros n [x Hx]%list_elem_of_lookup.
  destruct (im_fits _ _ _ _ _ _ _ _ _ _ HI) as [_ Hn]. apply (packet_cases HI) in Hx as [Hw|[(y & _ & Hy)|[_ ->]]].
  - destruct (work_packet HI x n Hw) as (e & He & Hset & Ha & Hmax & _). unfold packet_at in He.
    destruct (Forall2_lookup_lr _ _ _ _ _ _ (im_work _ _ _ _ _ _ _ _ _ _ HI) Hw He) as (_ & _ & op & flags & p & -> & Ht).
    pose proof (list_elem_of_lookup_2 _ _ _ He) as Hin. destruct (task_payload_wf e op flags p Hd Hc Hin Ht) as (_ & _ & Hp).
    destruct (task_valid e op flags p Hm Hcv Hb Hin Ht) as (Hpv & Hf & o & Ho & Hmem).
    eapply rp1_packet_valid; try done; [by left|apply (aw_range _ _ _ _ Ha)|]. rewrite Hset. by apply bitpos_range.
  - destruct (collector_packet HI y n Hy) as (c & Hset & _ & Hmax & Hab & Hmask & _).
    destruct (jn_form _ _ (im_joins _ _ _ _ _ _ _ _ _ _ HI) n (list_elem_of_lookup_2 _ _ _ Hy)) as [-> _].
    eapply rp1_packet_valid; try done; [by right|lia|]. rewrite Hset. by apply bitpos_range.
  - eapply rp1_packet_valid; try done; [|by left|apply (aw_range _ _ _ _ (im_sentinel _ _ _ _ _ _ _ _ _ _ HI))].
    cbn. split; [by apply Z.ltb_lt|done].
Qed.

Lemma handshake_u32 l : Forall node_wf l -> Forall is_u32 (handshake_slots l).
Proof using Type.
  intros Hl. apply Forall_forall. intros x (n & Hn & Hx)%list_elem_of_omap. rewrite Forall_forall in Hl.
  destruct (Hl n Hn) as (_ & _ & _ & _ & _ & _ & _ & _ & Hp).
  assert (Hld : forall o, is_u32 (ld 4 o (node_payload n))) by (intros o; apply (ld_range 4 o _ Hp)).
  repeat case_match; simplify_eq; apply Hld.
Qed.

Lemma encode0_u32 l : Forall is_u32 (encode0 l).
Proof using Type.
  induction l as [|a l IH]; [constructor|]. unfold encode_arguments. cbn [flat_map]. apply Forall_app. split; [|exact IH].
  unfold encode_argument. destruct (source_words_cases (ar_source a)) as [-> | ->]; cbn; repeat constructor; try apply add32_range; done.
Qed.

(** The slots to clear are named by valid packets. *)
Lemma clears_valid : Forall node_wf (img_nodes i) ->
  Forall (fun n => valid_packet (Z.of_nat (length (img_nodes i))) (Z.of_nat (length (arg_buf i))) n = true) (img_nodes i) ->
  sentinelSlot_ < RP1_MAX_SIGNALS -> Forall (fun slot => slot < RP1_MAX_SIGNALS) (clear_signal_slots i).
Proof using HI.
  intros Hwf Hv Hs. apply Forall_forall. intros x [->|[Hx _]]%(im_clears _ _ _ _ _ _ _ _ _ _ HI); [done|].
  apply list_elem_of_omap in Hx as (n & Hn & Hx). rewrite Forall_forall in Hv. specialize (Hv n Hn).
  unfold valid_packet in Hv. cbv zeta in Hv. destruct (_ || _); [done|].
  destruct (node_opcode n =? RP1_OP_LOOP) eqn:E1; [|destruct (node_opcode n =? RP1_OP_SIGNAL) eqn:E2;
    [|destruct (node_opcode n =? RP1_OP_WAIT) eqn:E3; [|done]]]; bools; simplify_eq.
  - rewrite E1 in Hv. change (opcode_of RP1_OP_LOOP) with (Some LOOP) in Hv. cbn iota in Hv. bools. by apply Z.ltb_lt.
  - rewrite E2 in Hv. change (opcode_of RP1_OP_SIGNAL) with (Some SIGNAL) in Hv. cbn iota in Hv. bools. by apply Z.ltb_lt.
  - rewrite E3 in Hv. change (opcode_of RP1_OP_WAIT) with (Some WAIT) in Hv. cbn iota in Hv. bools. by apply Z.ltb_lt.
Qed.
End image.

Lemma first_bad_valid count words l k : Forall (fun n => valid_packet count words n = true) l -> first_bad count words k l = None.
Proof. intros H. revert k. induction H as [|n l Hn _ IH]; intros k; cbn; [done|]. by rewrite Hn. Qed.
