(* ===== verification/MainlineLaunch.v ===== *)
(** * Scalar arguments at launch

    [resolveDeferredScalars] patches the values of graph scalars into the
    argument buffer of a built image when the plan is launched.  It writes
    inside the buffer, leaves the register offsets alone, and afterwards the
    buffer holds for every kernel the value of each of its scalars. *)

From S2P Require Import Prelude Except Rp1Protocol ControlLowering Rp1Submitter.
From S2P Require Import MainlineImage MainlineSchedule MainlineFacts MainlineArgs MainlineEmit MainlineBuild.
From stdpp Require Import gmap strings.
Open Scope Z_scope.

Local Ltac Zify.zify_post_hook ::= Z.to_euclidean_division_equations.

(** ** The code *)

(** The two words at [dst], zero before. *)
Definition writeScalarToArgWords (t : ScalarType) (bits : Z) : list Z :=
  match t with
  | U8 => [u8 bits; 0]
  | U16 => [u16 bits; 0]
  | U32 | F32 => [u32 bits; 0]
  | I8 => [u32 (signed_bits 8 bits); 0]
  | I16 => [u32 (signed_bits 16 bits); 0]
  | I32 => [u32 (signed_bits 32 bits); 0]
  | U64 | I64 | F64 => [u32 bits; u32 (Z.shiftr (u64 bits) 32)]
  end.

Definition scalar_value (values : gmap string Z) (key fallback : string) (hasFallback : bool) : option Z :=
  match values !! key with
  | Some v => Some v
  | None => if hasFallback then values !! fallback else None
  end.

Definition resolve_scalar (values : gmap string Z) (d : DeferredScalar) : IM unit :=
  match scalar_value values (df_scopedKey d) (df_fallbackKey d) (df_hasFallback d) with
  | None => throw (UnsetScalar (df_scopedKey d))
  | Some bits =>
      let words := writeScalarToArgWords (df_type d) bits in
      each (seqZ 0 (scalarWidthInWords (df_type d))) (fun w =>
        v ← defined (words !! Z.to_nat w);
        store_arg (add32 (df_arg_word_offset d) (u32 (2 * w))) v)
  end.

Definition resolveDeferredScalars (scalarValues_ : option (gmap string Z)) : IM unit :=
  l ← asks (fun s => deferred_ (fixes s));
  match l with
  | [] => mret tt
  | _ =>
      match scalarValues_ with
      | None => throw NullScalarMap
      | Some values => each l (resolve_scalar values)
      end
  end.

(** ** The values *)

Definition graph_scalar_value (values : gmap string Z) (g : GraphScalar) : option Z :=
  scalar_value values (scalar_key g) (varName g) (gs_scopeId g =? 0).

(** The integer the low bits of [bits] are as a [t]: two's complement for the
    signed types, the bit pattern for the floating-point ones. *)
Definition scalar_integer (t : ScalarType) (bits : Z) : Z :=
  match t with
  | U8 => bits mod 2 ^ 8
  | U16 => bits mod 2 ^ 16
  | U32 | F32 => bits mod 2 ^ 32
  | U64 | F64 => bits mod 2 ^ 64
  | I8 => (bits + 2 ^ 7) mod 2 ^ 8 - 2 ^ 7
  | I16 => (bits + 2 ^ 15) mod 2 ^ 16 - 2 ^ 15
  | I32 => (bits + 2 ^ 31) mod 2 ^ 32 - 2 ^ 31
  | I64 => (bits + 2 ^ 63) mod 2 ^ 64 - 2 ^ 63
  end.

(** Its 32-bit words, the low one first; the high words of a negative number
    are all ones. *)
Definition integer_word (n w : Z) : Z := n / 2 ^ (32 * w) mod 2 ^ 32.

(** Scalars have their values, buffer addresses are still placeholders. *)
Definition with_scalars (values : gmap string Z) (src : source) (w : Z) : Z :=
  match src with
  | FromScalar g t => match graph_scalar_value values g with
                      | Some bits => integer_word (scalar_integer t bits) w
                      | None => 0
                      end
  | FromBuffer _ => 0
  end.

(** Every scalar of [l] is set. *)
Definition scalars_set (values : gmap string Z) (l : list argument) : Prop :=
  forall a g t, a ∈ l -> ar_source a = FromScalar g t -> is_Some (graph_scalar_value values g).

(** The words written are those of the value, sign- or zero-extended. *)
Lemma writeScalarToArgWords_spec t bits w : 0 <= w < scalarWidthInWords t ->
  writeScalarToArgWords t bits !! Z.to_nat w = Some (integer_word (scalar_integer t bits) w).
Proof.
  intros Hw. assert (Hc : w = 0 \/ w = 1) by (destruct t; cbn in Hw; lia).
  destruct Hc as [-> | ->]; destruct t; cbn in Hw; try lia;
    change (Z.to_nat 0) with 0%nat; change (Z.to_nat 1) with 1%nat; cbn [writeScalarToArgWords lookup list_lookup]; f_equal;
    rewrite ?Z.shiftr_div_pow2 by done; unfold integer_word, scalar_integer, signed_bits, low_bits, u8, u16, u32, u64;
    change (2 ^ (32 * 0)) with 1; change (2 ^ (32 * 1)) with (2 ^ 32); rewrite ?Z.div_1_r; try case_match; bools; lia.
Qed.

Section resolve.
Context (values : gmap string Z).

Lemma encode_one v base src : encode_arguments v [{| ar_base := base; ar_source := src |}] =
  if source_words src =? 1 then [add32 base (u32 0); v src 0]
  else [add32 base (u32 0); v src 0; add32 base (u32 4); v src 1].
Proof using Type.
  unfold encode_arguments, encode_argument. cbn [flat_map ar_source ar_base]. by destruct (source_words_cases src) as [-> | ->].
Qed.

(** The value words of one argument. *)
Lemma resolve_scalar_run {ub nf} old g t base rest s (X : image_exn -> lowering -> Prop) :
  let n := Z.of_nat (length old) in
  let a := {| ar_base := base; ar_source := FromScalar g t |} in
  arg_buf (image s) = old ++ encode0 [a] ++ rest -> n + 4 < 2 ^ 32 ->
  (graph_scalar_value values g = None -> X (UnsetScalar (scalar_key g)) s) ->
  ewp ub nf (resolve_scalar values {| df_scopedKey := scalar_key g; df_fallbackKey := varName g;
      df_hasFallback := gs_scopeId g =? 0; df_type := t; df_arg_word_offset := n + 1 |}) s
    (fun _ s' => is_Some (graph_scalar_value values g) /\
       s' = set_image (with_args (old ++ encode_arguments (with_scalars values) [a] ++ rest) (image s)) s) X.
Proof using Type.
  intros n a E Hn HX. unfold resolve_scalar. cbn [df_scopedKey df_fallbackKey df_hasFallback df_type df_arg_word_offset].
  fold (graph_scalar_value values g). destruct (graph_scalar_value values g) as [bits|] eqn:Ev; [|apply ewp_throw; auto].
  assert (Hadd : forall w, 0 <= w < 2 -> add32 (n + 1) (u32 (2 * w)) = n + 1 + 2 * w).
  { intros w Hw. unfold add32. rewrite (u32_small (2 * w)), u32_small; unfold is_u32, n in *; lia. }
  assert (Hval : forall w, 0 <= w < scalarWidthInWords t ->
    writeScalarToArgWords t bits !! Z.to_nat w = Some (with_scalars values (FromScalar g t) w)).
  { intros w Hw. cbn. rewrite Ev. by apply writeScalarToArgWords_spec. }
  unfold a in *. destruct (source_words_cases (FromScalar g t)) as [Hw|Hw]; cbn in Hw; cbv zeta; rewrite Hw in *;
    rewrite !encode_one in *; cbn [source_words] in *; rewrite Hw in *; cbn [Z.eqb Pos.eqb app] in E |- *.
  - change (seqZ 0 1) with [0]. cbn [each]. do 2 ewp_step. apply (ewp_defined _ _ _ _ _ (Hval 0 ltac:(lia))). rewrite Hadd by lia.
    apply (store_arg_at (old ++ [add32 base (u32 0)]) 0 rest);
      [by rewrite E, <-(assoc_L app)|rewrite length_app; cbn; lia|]. ewp_step. split; [done|]. by rewrite <-(assoc_L app).
  - change (seqZ 0 2) with [0; 1]. cbn [each]. do 2 ewp_step. apply (ewp_defined _ _ _ _ _ (Hval 0 ltac:(lia))). rewrite Hadd by lia.
    apply (store_arg_at (old ++ [add32 base (u32 0)]) 0 (add32 base (u32 4) :: 0 :: rest));
      [by rewrite E, <-(assoc_L app)|rewrite length_app; cbn; lia|].
    do 2 ewp_step. apply (ewp_defined _ _ _ _ _ (Hval 1 ltac:(lia))). rewrite Hadd by lia.
    apply (store_arg_at (old ++ [add32 base (u32 0); with_scalars values (FromScalar g t) 0; add32 base (u32 4)]) 0 rest);
      [cbn; by rewrite <-!(assoc_L app)|rewrite length_app; cbn; lia|]. ewp_step. split; [done|]. by rewrite <-(assoc_L app).
Qed.

(** All of them: the scalars among [l] are patched. *)
Lemma resolve_run {ub nf} l : forall old s,
  arg_buf (image s) = old ++ encode0 l -> Z.of_nat (length (arg_buf (image s))) < 2 ^ 31 ->
  ewp ub nf (each (scalar_fixups (Z.of_nat (length old)) l) (resolve_scalar values)) s
    (fun _ s' => scalars_set values l /\ s' = set_image (with_args (old ++ encode_arguments (with_scalars values) l) (image s)) s)
    (fun _ _ => ~ scalars_set values l).
Proof using Type.
  induction l as [|[base src] l IH]; intros old s E Hlen.
  - apply ewp_ret. split; [by intros ? ? ? ?%not_elem_of_nil|]. change (encode_arguments (with_scalars values) []) with (encode0 []). rewrite <-E. by destruct s as [? ? ? ? []].
  - assert (Hcons : encode0 ({| ar_base := base; ar_source := src |} :: l) = encode0 [{| ar_base := base; ar_source := src |}] ++ encode0 l)
      by apply (encode_app placeholder [_] l).
    assert (Hcons' : encode_arguments (with_scalars values) ({| ar_base := base; ar_source := src |} :: l) =
      encode_arguments (with_scalars values) [{| ar_base := base; ar_source := src |}] ++ encode_arguments (with_scalars values) l)
      by apply (encode_app (with_scalars values) [_] l).
    rewrite Hcons in E. rewrite Hcons'.
    assert (Hw : forall v, Z.of_nat (length (old ++ encode_arguments v [{| ar_base := base; ar_source := src |}])) =
      Z.of_nat (length old) + 2 * source_words src).
    { intros v. rewrite length_app, Nat2Z.inj_add, length_encode. cbn. lia. }
    cbn [scalar_fixups ar_source]. destruct src as [g t|b].
    + cbn [app each]. ewp_step. eapply ewp_mono; [apply (resolve_scalar_run old g t base (encode0 l) s (fun _ _ => ~ scalars_set values ({| ar_base := base; ar_source := FromScalar g t |} :: l)))| |done].
      * done.
      * rewrite E, !length_app, !Nat2Z.inj_add in Hlen. pose proof (length_encode placeholder [{| ar_base := base; ar_source := FromScalar g t |}]).
        lia.
      * intros Hnone Hset. destruct (Hset _ g t ltac:(by left) eq_refl). congruence.
      * intros [] s1 [Hsome ->]. rewrite <-(Hw (with_scalars values)).
        eapply ewp_mono; [apply IH| |].
        -- cbn [image set_image arg_buf with_args]. by rewrite (assoc_L app).
        -- cbn [image set_image arg_buf with_args]. rewrite E in Hlen. rewrite !length_app in *. pose proof (length_encode placeholder [{| ar_base := base; ar_source := FromScalar g t |}]).
           pose proof (length_encode (with_scalars values) [{| ar_base := base; ar_source := FromScalar g t |}]). lia.
        -- intros [] s2 [Hset ->]. split; [|cbn [image set_image]; by rewrite <-(assoc_L app)].
           intros a g' t' [->|Ha]%elem_of_cons Ea; [cbn in Ea; by simplify_eq|by eapply Hset].
        -- intros x s2 Hn Hset. apply Hn. intros a g' t' Ha. apply Hset. by right.
    + cbn [app]. rewrite <-(Hw placeholder). eapply ewp_mono; [apply IH| |].
      * by rewrite E, (assoc_L app).
      * done.
      * intros [] s2 [Hset ->]. split; [|by rewrite <-(assoc_L app)].
        intros a g' t' [->|Ha]%elem_of_cons Ea; [done|by eapply Hset].
      * intros x s2 Hn Hset. apply Hn. intros a g' t' Ha. apply Hset. by right.
Qed.
End resolve.
