(* ===== verification/MainlineTheorems.v ===== *)
(** * What a mainline image guarantees

    The claims about [buildMainlineImage] and the launch of what it builds:
    it always ends; the bits of the packets are distinct; a packet waits
    exactly for what its command depends on; on the firmware the packets run
    in that order and the sentinel comes last; the image is well typed and
    passes the submitter's checks; the scalar arguments arrive. *)

From S2P Require Import Prelude Except Rp1Protocol Rp1Store Rp1Loop Rp1Safety Rp1Order Rp1Fixture ControlLowering Rp1Submitter SubmitterLog.
From S2P Require Import MainlineImage MainlineSchedule MainlineFacts MainlineArgs MainlineEmit MainlineBuild MainlinePlan.
From S2P Require Import MainlineOrder MainlineTypes MainlineLaunch.
From stdpp Require Import gmap strings.
Open Scope Z_scope.

Section claims.
Context (dev : FpgaDevice) (boundScalarSlots_ : gmap string Z) (resourcesLeased_ : bool).
Context (sentinelSlot_ sentinelValue_ : Z).

(** [dg] is built into [i], with [s'] the plan's state afterwards. *)
Definition builds (dg : Rp1QueueProgram) (s : lowering) (i : Rp1GraphImage) (s' : lowering) : Prop :=
  buildMainlineImage dev boundScalarSlots_ resourcesLeased_ sentinelSlot_ sentinelValue_ dg s = Ret (Val i) s'.

Lemma builds_image dg s i s' : fresh_plan s -> builds dg s i s' ->
  (exists sl j work aw, Image dev boundScalarSlots_ sentinelSlot_ sentinelValue_ dg i sl j work aw) /\
  Fixups dev dg (fixes s') /\ image s' = i.
Proof using Type.
  intros HF HB. exact (ewp_run _ _ _ _ _ _ (buildMainlineImage_run dev boundScalarSlots_ resourcesLeased_ sentinelSlot_ sentinelValue_ dg s HF) HB).
Qed.

(** C14: lowering a command list always ends, with an image or an exception:
    no shift is out of range, no access leaves the argument buffer or the
    leaf marks, and no loop runs on, whatever the program, the device and the
    bindings are. *)
Theorem mainline_total dg s : fresh_plan s ->
  (exists i s', builds dg s i s') \/
  exists e s', buildMainlineImage dev boundScalarSlots_ resourcesLeased_ sentinelSlot_ sentinelValue_ dg s = Ret (Exn e) s'.
Proof using Type.
  intros HF. pose proof (buildMainlineImage_run dev boundScalarSlots_ resourcesLeased_ sentinelSlot_ sentinelValue_ dg s HF) as H.
  unfold ewp, post in H. unfold builds. destruct (buildMainlineImage _ _ _ _ _ _ _) as [[i|e] s'| |]; [left|right|done|done]; eauto.
Qed.

(** C13: every packet of an image sets exactly one bit, no two packets set the
    same one, and the last packet, the sentinel, has bit 31 of bucket 0. *)
Theorem mainline_bits_exclusive dg s i s' : fresh_plan s -> builds dg s i s' ->
  (forall x n, img_nodes i !! x = Some n -> exists b k, 0 <= b < 32 /\ 0 <= k < 32 /\ set_of n = (b, 2 ^ k)) /\
  (forall x y n m b k, img_nodes i !! x = Some n -> img_nodes i !! y = Some m -> sets n b k -> sets m b k -> x = y) /\
  exists n, last (img_nodes i) = Some n /\ sets n kSentinelBucket 31.
Proof using Type.
  intros HF HB. destruct (builds_image _ _ _ _ HF HB) as [(sl & j & work & aw & HI) _].
  destruct (image_positions HI) as (cs & Hnd & Hlt & E). split_and!.
  - intros x n Hx. destruct (packet_bit HI cs x n E Hx) as [(c & Hc & Hs)|[-> ->]].
    + pose proof (Hlt c (list_elem_of_lookup_2 _ _ _ Hc)) as Hm. rewrite Hs, bitpos_eq by done.
      exists (Z.of_nat c / 31), (Z.of_nat c mod 31). pose proof (bitpos_range c Hm) as [Hb _]. rewrite bitpos_eq in Hb by done.
      split; [done|]. split; [|done]. pose proof (Z.mod_pos_bound (Z.of_nat c) 31). lia.
    + by exists 0, 31.
  - intros x y n m b k. apply (bit_owner HI).
  - exists (sentinel_packet sentinelSlot_ sentinelValue_ aw). rewrite (im_nodes _ _ _ _ _ _ _ _ _ _ HI), (assoc_L app), last_snoc. by repeat split.
Qed.

(** [e'] reads an output scalar of a kernel that [e] waits for. *)
Definition reads_of_needed (dg : Rp1QueueProgram) (e e' : entry) : Prop :=
  exists k sp y d skip, e_task e' = T_read k sp /\ packet_at dg y d /\ e_task d = T_dispatch k skip /\ e_pos d ∈ e_needs e.

(** C6: an image consists of the packets of the plan, in its order, silent
    collectors and the sentinel.  Every command has its packet.  A packet of the
    plan has the opcode, the flags and the payload of its task (the address of
    the kernel, its argument block, the slot that a copy and the read it is fed
    by share, the slot and value of a signal), and waits, directly or through
    collectors, for every packet its entry needs; it waits for no other packet
    of the plan, except possibly the reads of output scalars of a kernel it
    waits for.  The sentinel signals the slot and value it was given and waits
    for exactly the leaves. *)
Theorem mainline_image_exact dg s i s' : fresh_plan s -> builds dg s i s' ->
  (exists sl, forall x e, packet_at dg x e -> exists n op flags p, img_nodes i !! x = Some n /\
     n = rp1_packet op flags (await_of n) (set_of n) p /\
     task_payload dev sl (all_arguments dev (sc_entries (plan dg))) e op flags p /\
     (forall q, q ∈ e_needs e -> exists y e', packet_at dg y e' /\ e_pos e' = q /\ waits_for (img_nodes i) n y) /\
     (forall y e', packet_at dg y e' -> waits_for (img_nodes i) n y -> e_pos e' ∈ e_needs e \/ reads_of_needed dg e e')) /\
  (forall p c, commands dg !! p = Some c -> exists x e, packet_at dg x e /\ e_pos e = p /\ main_task c (e_task e)) /\
  (forall x n, img_nodes i !! x = Some n -> (exists e, packet_at dg x e) \/ (exists await set, n = collector await set) \/
     S x = length (img_nodes i)) /\
  exists aw, let n := sentinel_packet sentinelSlot_ sentinelValue_ aw in last (img_nodes i) = Some n /\
    forall y e', packet_at dg y e' -> waits_for (img_nodes i) n y <-> e_pos e' ∈ sentinel_needs dg.
Proof using Type.
  intros HF HB. destruct (builds_image _ _ _ _ HF HB) as [(sl & j & work & aw & HI) _].
  pose proof (im_nodes _ _ _ _ _ _ _ _ _ _ HI) as Enodes. pose proof (im_rp1 _ _ _ _ _ _ _ _ _ _ HI) as Hrp. split_and!.
  - exists sl. intros x e Hx. destruct (entry_packet HI x e Hx) as (n & Hn & Hni).
    destruct (Forall2_lookup_lr _ _ _ _ _ _ (im_work _ _ _ _ _ _ _ _ _ _ HI) Hn Hx) as (_ & Ha & op & flags & p & En & Ht).
    exists n, op, flags, p. split_and!; [done..| |].
    + intros q Hq. pose proof (plan_needs_scheduled dg e q Hrp (list_elem_of_lookup_2 _ _ _ Hx) Hq) as Hin.
      apply list_elem_of_fmap in Hin as (e2 & -> & Hin). apply list_elem_of_lookup in Hin as [y Hy]. exists y, e2.
      split_and!; [done..|]. by apply (waits_for_exact HI n (e_needs e) y e2).
    + intros y e2 Hy Hw. left. by apply (waits_for_exact HI n (e_needs e) y e2).
  - intros p c Hc. destruct (pl_main _ _ _ (plan_planned dg Hrp) p c) as (e & He & Hp & Hm & _); [by apply imap_pair_lookup|].
    apply list_elem_of_lookup in He as [x Hx]. by exists x, e.
  - intros x n [Hn|[(y & _ & Hy)|[-> ->]]]%(packet_cases HI).
    + left. destruct (work_packet HI x n Hn) as (e & He & _). by exists e.
    + right. left. destruct (jn_form _ _ (im_joins _ _ _ _ _ _ _ _ _ _ HI) n (list_elem_of_lookup_2 _ _ _ Hy)) as (En & _). eauto.
    + right. right. rewrite Enodes, !length_app. cbn. lia.
  - exists aw. cbv zeta. rewrite Enodes at 1. rewrite (assoc_L app), last_snoc.
    split; [done|]. intros y e' Hy. apply (waits_for_exact HI); [|done]. destruct aw. apply (im_sentinel _ _ _ _ _ _ _ _ _ _ HI).
Qed.

Section firmware.
Context {HW : Type} `{!Hal HW} `{!Platform}.

(** Scan passes of the firmware on a graph it found as image [i]. *)
Definition runs (pf qf : nat) (i : Rp1GraphImage) (f : st HW) : Prop :=
  exists s0 s1 : st HW, config_words (ctrl s0) /\ staged_image (i := i) s0 /\ rp1_store_init s0 = Ret None s1 /\
    passes pf qf (ctrl s0 node_count) s1 f.

Lemma runs_ord pf qf i f sl j work aw dg :
  Image dev boundScalarSlots_ sentinelSlot_ sentinelValue_ dg i sl j work aw -> runs pf qf i f ->
  exists s0 : st HW, staged_image (i := i) s0 /\ Ord (ctrl s0 node_count) (nodes s0) f.
Proof using Type.
  intros HI (s0 & s1 & Hc & Hs & Hinit & Hp). exists s0. split; [done|].
  destruct (accepted_ord s0 s1 Hc Hinit) as [Hn HO].
  eapply passes_ord; [lia|by apply (image_straight HI)|exact HO|exact Hp].
Qed.

(** C5: on the firmware, whatever the hardware and the host do, a packet of the
    plan that has been started has every packet its entry needs finished; and
    the entry of a command needs the packets of the commands it depends on. *)
Theorem mainline_runs_in_order pf qf dg s i s' (f : st HW) : fresh_plan s -> builds dg s i s' -> runs pf qf i f ->
  (forall x e y e', packet_at dg x e -> packet_at dg y e' -> e_pos e' ∈ e_needs e ->
     node_status f (Z.of_nat x) <> RP1_NODE_PENDING -> finished f (Z.of_nat y)) /\
  forall p c, commands dg !! p = Some c -> exists x e, packet_at dg x e /\ e_pos e = p /\
    forall dep q, dep ∈ rp1CommandDependsOn c -> positions dg !! dep = Some q -> q ∈ e_needs e.
Proof using Type.
  intros HF HB HR. destruct (builds_image _ _ _ _ HF HB) as [(sl & j & work & aw & HI) _].
  destruct (runs_ord _ _ _ _ _ _ _ _ _ HI HR) as (s0 & Hs & HO). split.
  - intros x e y e' Hx Hy Hin Hst. destruct (entry_packet HI x e Hx) as (n & Hn & Hni).
    destruct (work_packet HI x n Hn) as (e2 & He2 & _ & Ha & _). assert (e2 = e) as -> by (unfold packet_at in *; congruence).
    eapply (started_waits HI s0 f x n y); [done|done| |done|done]. by apply (waits_for_exact HI n (e_needs e) y e').
  - intros p c Hc. pose proof (plan_planned dg (im_rp1 _ _ _ _ _ _ _ _ _ _ HI)) as HP.
    destruct (pl_main _ _ _ HP p c) as (e & He & Hp & _ & Hneeds); [by apply imap_pair_lookup|].
    apply list_elem_of_lookup in He as [x Hx]. exists x, e. split; [done|]. split; [done|].
    intros dep q Hdep Hq. apply Hneeds. apply list_elem_of_omap. by exists dep.
Qed.

(** The sentinel comes last.  When the dependencies of the commands have no
    cycle and the sentinel has been started, every packet of the plan has
    finished: the completion signal is not raised before the work is done. *)
Theorem mainline_sentinel_last pf qf dg s i s' (f : st HW) : fresh_plan s -> builds dg s i s' -> runs pf qf i f -> acyclic dg ->
  node_status f (Z.of_nat (length (img_nodes i)) - 1) <> RP1_NODE_PENDING ->
  forall y e, packet_at dg y e -> finished f (Z.of_nat y).
Proof using Type.
  intros HF HB HR Hac Hst. destruct (builds_image _ _ _ _ HF HB) as [(sl & j & work & aw & HI) _].
  destruct (runs_ord _ _ _ _ _ _ _ _ _ HI HR) as (s0 & Hs & HO).
  set (x := (length work + length (aggregators j))%nat).
  assert (Hx : img_nodes i !! x = Some (sentinel_packet sentinelSlot_ sentinelValue_ aw)).
  { rewrite (im_nodes _ _ _ _ _ _ _ _ _ _ HI), (assoc_L app). apply list_lookup_middle. by rewrite length_app. }
  assert (Hlast : Z.of_nat (length (img_nodes i)) - 1 = Z.of_nat x).
  { rewrite (im_nodes _ _ _ _ _ _ _ _ _ _ HI), !length_app. cbn. lia. }
  rewrite Hlast in Hst.
  assert (Hcov : forall e, e ∈ sc_entries (plan dg) -> forall e' y, packet_at dg y e' -> e_pos e' = e_pos e -> finished f (Z.of_nat y)).
  { apply (plan_covered dg (fun q => forall e' y, packet_at dg y e' -> e_pos e' = q -> finished f (Z.of_nat y)));
      [apply (im_rp1 _ _ _ _ _ _ _ _ _ _ HI)|done| |].
    - intros q Hq e y Hy <-. eapply (started_waits HI s0 f x); [done|done| |exact Hx|done].
      apply (waits_for_exact HI _ (sentinel_needs dg) y e); [|done|done]. destruct aw. apply (im_sentinel _ _ _ _ _ _ _ _ _ _ HI).
    - intros e q He Hfin Hq e' y Hy <-. apply list_elem_of_lookup in He as [x' Hx'].
      destruct (entry_packet HI x' e Hx') as (n & Hn & Hni). destruct (work_packet HI x' n Hn) as (e2 & He2 & _ & Ha & _).
      assert (e2 = e) as -> by (unfold packet_at in *; congruence).
      eapply (started_waits HI s0 f x' n y); [done|done| |done|by apply finished_started, (Hfin e)].
      by apply (waits_for_exact HI n (e_needs e) y e'). }
  intros y e Hy. by apply (Hcov e (list_elem_of_lookup_2 _ _ _ Hy) e y Hy).
Qed.
End firmware.

(** The fields of the program and the device are values of their C types. *)
Record program_typed (dg : Rp1QueueProgram) : Prop := {
  pt_device : device_typed dev;
  pt_commands : Forall command_typed (commands dg);
  pt_sentinel : is_u32 sentinelSlot_ /\ is_u32 sentinelValue_
}.

(** The slots and operations it names exist, and kernels are mapped. *)
Record program_valid (dg : Rp1QueueProgram) : Prop := {
  pv_device : device_mapped dev;
  pv_commands : Forall command_valid (commands dg);
  pv_bound : forall key b, boundScalarSlots_ !! key = Some b -> 0 <= b < RP1_MAX_SIGNALS;
  pv_sentinel : sentinelSlot_ < RP1_MAX_SIGNALS
}.

(** The image of a program with fields of their C types is well typed:
    every field of every packet, every argument word and every slot to clear
    is a value of its type. *)
Theorem mainline_image_typed dg s i s' : fresh_plan s -> builds dg s i s' -> program_typed dg -> image_wf i.
Proof using Type.
  intros HF HB [Hd Hc [Hs Hv]]. destruct (builds_image _ _ _ _ HF HB) as [(sl & j & work & aw & HI) _].
  pose proof (packets_wf HI Hd Hc Hs Hv) as Hn. destruct (im_defaults _ _ _ _ _ _ _ _ _ _ HI) as [Hcq Htr].
  split; [done|rewrite (im_args _ _ _ _ _ _ _ _ _ _ HI); apply encode0_u32| |by rewrite Hcq|by rewrite Htr].
  apply Forall_forall. intros x [->|[Hx _]]%(im_clears _ _ _ _ _ _ _ _ _ _ HI); [done|].
  pose proof (handshake_u32 _ Hn) as Hh. rewrite Forall_forall in Hh. by apply Hh.
Qed.

(** C15: what the lowering builds, the submitter accepts: the image of a valid
    program passes every check of a submission, and its arguments fit the
    argument buffer. *)
Theorem mainline_image_accepted dg s i s' : fresh_plan s -> builds dg s i s' -> program_typed dg -> program_valid dg ->
  image_error i = None /\ args_fit i.
Proof using Type.
  intros HF HB [Hd Hc [Hs Hv]] [Hm Hcv Hb Hsl]. destruct (builds_image _ _ _ _ HF HB) as [(sl & j & work & aw & HI) _].
  pose proof (packets_wf HI Hd Hc Hs Hv) as Hwf. pose proof (packets_valid HI Hd Hc Hs Hv Hm Hcv Hb Hsl) as Hval.
  pose proof (clears_valid HI Hwf Hval Hsl) as Hclear. pose proof (im_size _ _ _ _ _ _ _ _ _ _ HI) as Hsize. split.
  - unfold image_error. cbv zeta. rewrite (proj2 (Z.eqb_neq _ _)), (proj2 (Z.ltb_ge _ _)) by
      (rewrite (im_nodes _ _ _ _ _ _ _ _ _ _ HI) in *; rewrite ?length_app in *; cbn in *; lia).
    rewrite first_bad_valid by done. destruct (List.find _ _) as [slot|] eqn:E; [|done].
    apply find_some in E as [Hin E]. rewrite Forall_forall in Hclear. apply list_elem_of_In, Hclear in Hin. bools. lia.
  - unfold args_fit. pose proof (im_space _ _ _ _ _ _ _ _ _ _ HI) as Hspace. unfold kArgBufferWords in Hspace.
    change ((RP1_DEFAULT_SIG_ARRAY_OFFSET - RP1_DEFAULT_ARG_BUF_OFFSET) / 4) with (Z.div (RP1_DEFAULT_SIG_ARRAY_OFFSET - RP1_DEFAULT_ARG_BUF_OFFSET) 4) in Hspace.
    pose proof (Z.mul_div_le (RP1_DEFAULT_SIG_ARRAY_OFFSET - RP1_DEFAULT_ARG_BUF_OFFSET) 4). lia.
Qed.

Lemma packet_payload dg i sl j work aw x e :
  Image dev boundScalarSlots_ sentinelSlot_ sentinelValue_ dg i sl j work aw -> program_typed dg -> packet_at dg x e ->
  exists n op flags p, img_nodes i !! x = Some n /\ node_payload n = enc_payload p /\ node_opcode n = op /\ payload_wf p /\
    task_payload dev sl (all_arguments dev (sc_entries (plan dg))) e op flags p /\
    awaits (node_buckets dg) j (await_of n) (e_needs e).
Proof using Type.
  intros HI [Hd Hc _] Hx. destruct (entry_packet HI x e Hx) as (n & Hn & Hni). unfold packet_at in Hx.
  destruct (Forall2_lookup_lr _ _ _ _ _ _ (im_work _ _ _ _ _ _ _ _ _ _ HI) Hn Hx) as (_ & Ha & op & flags & p & En & Ht).
  destruct (task_payload_wf HI e op flags p Hd Hc (list_elem_of_lookup_2 _ _ _ Hx) Ht) as (_ & _ & Hp).
  exists n, op, flags, p. split; [done|]. split; [by rewrite En|]. split; [by rewrite En|]. done.
Qed.

(** A scalar that one kernel produces and a later one consumes stays on the
    device: the consumer's SCALAR_COPY is of the slot that the SCALAR_READ of
    the producer's output with the same key stores to, and waits for it. *)
Theorem mainline_scalars_forwarded dg s i s' x e k sp r : fresh_plan s -> builds dg s i s' -> program_typed dg ->
  packet_at dg x e -> e_task e = T_copy k sp r ->
  exists n y e' m k' sp' gs gs', img_nodes i !! x = Some n /\ img_nodes i !! y = Some m /\
    packet_at dg y e' /\ e_pos e' = r /\ e_task e' = T_read k' sp' /\
    b_inputScalars (k_ioMap k) !! sp_name sp = Some gs /\ b_outputScalars (k_ioMap k') !! sp_name sp' = Some gs' /\
    scalar_key gs' = scalar_key gs /\ node_opcode n = RP1_OP_SCALAR_COPY /\ node_opcode m = RP1_OP_SCALAR_READ /\
    source_slot (view_scalar_copy (node_payload n)) = sr_target_slot (view_scalar_read (node_payload m)) /\
    waits_for (img_nodes i) n y.
Proof using Type.
  intros HF HB HT Hx Et. destruct (builds_image _ _ _ _ HF HB) as [(sl & j & work & aw & HI) _].
  destruct (fl_copy _ (plan_flow dg) e k sp r (list_elem_of_lookup_2 _ _ _ Hx) Et) as (Hr & gs & Hgs & e' & k' & sp' & gs' & He' & Hp' & Et' & Hgs' & Hkey).
  apply list_elem_of_lookup in He' as [y Hy].
  destruct (packet_payload _ _ _ _ _ _ x e HI HT Hx) as (n & op & flags & p & Hn & Epay & Eop & Hwf & Ht & Ha).
  destruct (packet_payload _ _ _ _ _ _ y e' HI HT Hy) as (m & op' & flags' & p' & Hm & Epay' & Eop' & Hwf' & Ht' & _).
  unfold task_payload in Ht, Ht'. rewrite Et in Ht. rewrite Et' in Ht'.
  destruct Ht as (loc & offs & off & slot & _ & _ & _ & Hslot & -> & -> & ->).
  destruct Ht' as (loc' & off' & slot' & _ & _ & Hslot' & _ & -> & -> & ->).
  exists n, y, e', m, k', sp', gs, gs'. split_and!; try done.
  - rewrite Epay, Epay', view_copy_enc, view_read_enc by done. cbn. congruence.
  - apply (waits_for_exact HI n (e_needs e) y e'); [done|done|]. by rewrite Hp'.
Qed.

End claims.

(** ** Concrete programs *)

Definition root_scalar (name : string) (t : ScalarType) : GraphScalar := {| gs_type := t; varName := name; gs_scopeId := 0 |}.

(** Two kernels without image metadata, found by the lookup. *)
Definition lookup_device : FpgaDevice := {|
  vbinSpec_ := None; activeImageId_ := EmptyString;
  lookup_ := Some (fun name =>
    if decide (name = "produce"%string) then Some {| loc_base := 0xA4000000; loc_timeout_cycles := 1000 |}
    else if decide (name = "consume"%string) then Some {| loc_base := 0xA4010000; loc_timeout_cycles := 1000 |}
    else None) |}.

Definition kernel_command (id name : string) (ins outs : list (string * GraphScalar)) (deps : list string) : Rp1Command :=
  let port p := {| sp_name := p.1; sp_type := gs_type p.2 |} in
  KernelCommand {|
    k_id := id; k_dependsOn := deps;
    k_kernel := {| kd_name := name; kd_image := None;
      ioType := {| inputScalars := map port ins; outputScalars := map port outs; inputs := []; outputs := []; inouts := [] |} |};
    k_ioMap := {| b_inputScalars := list_to_map ins; b_outputScalars := list_to_map outs; b_inputs := ∅; b_outputs := ∅; b_inouts := [] |} |}.

Definition signal_command (id : string) (slot : Z) (deps : list string) : Rp1Command :=
  SignalCommand {| s_id := id; s_dependsOn := deps; s_slot := slot; s_value := 1; s_operation := RP1_SIGOP_SET |}.

Definition program (l : list Rp1Command) : Rp1QueueProgram := mkProgram l ∅ false [].

(** A kernel produces a scalar that the next one consumes; a signal follows. *)
Definition pipeline : Rp1QueueProgram := program [
  kernel_command "a" "produce" [("count"%string, root_scalar "count" U64)] [("sum"%string, root_scalar "sum" U32)] [];
  kernel_command "b" "consume" [("sum"%string, root_scalar "sum" U32)] [] ["a"%string];
  signal_command "done" 7 ["b"%string]].

(** 33 signals and one that waits for the first and the last of them, which
    are in different buckets. *)
Definition wide : Rp1QueueProgram := program
  (map (fun n => signal_command ("s" +:+ pretty.pretty (Z.of_nat n)) 9 []) (seq 0 33) ++ [signal_command "end" 9 ["s0"; "s32"]%string]).

Definition new_plan : lowering := {|
  fixes := {| deferred_ := []; deferredPdis_ := []; pdiImagesByNode_ := ∅; deferredBufferAddresses_ := [];
              deferredBufferAliases_ := []; scalarSlots_ := ∅ |};
  slots := {| slotAlloc := SignalSlotAllocator_new; scalarSlotAlloc_ := SignalSlotAllocator_new; ownedSignalSlots_ := ∅ |};
  scalars := {| scalarReady := ∅; extraLeafGroups := []; nextExtraPos := 0 |};
  joins := {| aggregators := []; joinBucket := 0; joinBit := 0 |};
  image := empty_image |}.

Lemma new_plan_fresh : fresh_plan new_plan.
Proof. by split. Qed.

Abbreviation build_on dg := (buildMainlineImage lookup_device ∅ false 3 1 dg new_plan).
Abbreviation builds_on dg i s := (builds lookup_device ∅ false 3 1 dg new_plan i s).

Definition image_built (dg : Rp1QueueProgram) : Rp1GraphImage :=
  match build_on dg with Ret (Val i) _ => i | _ => empty_image end.
Definition plan_built (dg : Rp1QueueProgram) : lowering :=
  match build_on dg with Ret (Val _) s => s | _ => new_plan end.

Lemma built dg : match build_on dg with Ret (Val _) _ => true | _ => false end = true ->
  builds_on dg (image_built dg) (plan_built dg).
Proof. unfold builds, image_built, plan_built. by destruct (build_on dg) as [[]| |]. Qed.

Lemma pipeline_built : builds_on pipeline (image_built pipeline) (plan_built pipeline).
Proof. apply built. by vm_compute. Qed.

Lemma wide_built : builds_on wide (image_built wide) (plan_built wide).
Proof. apply built. by vm_compute. Qed.

Lemma mainline_total_witness : exists i s', builds_on wide i s'.
Proof.
  destruct (mainline_total lookup_device ∅ false 3 1 wide new_plan new_plan_fresh) as [H|(e & s' & E)]; [exact H|].
  exfalso. pose proof wide_built as B. unfold builds in B. congruence.
Defined.

(** The image of [wide]: 34 signals, two joins of two buckets, the sentinel. *)
Lemma mainline_bits_exclusive_witness :
  length (img_nodes (image_built wide)) = 39%nat /\
  exists n, last (img_nodes (image_built wide)) = Some n /\ sets n kSentinelBucket 31.
Proof.
  split; [by vm_compute|].
  exact (proj2 (proj2 (mainline_bits_exclusive lookup_device ∅ false 3 1 wide new_plan _ _ new_plan_fresh wide_built))).
Defined.

(** The packet of "end" signals slot 9 and waits for "s0" and "s32", through
    collectors, but not for "s1". *)
Lemma mainline_image_exact_witness : exists n, img_nodes (image_built wide) !! 33%nat = Some n /\
  node_opcode n = RP1_OP_SIGNAL /\ (exists y, waits_for (img_nodes (image_built wide)) n y) /\
  ~ waits_for (img_nodes (image_built wide)) n 1.
Proof.
  assert (In0 : 0%nat ∈ [0; 32]%nat) by (by left).
  assert (Out1 : 1%nat ∉ [0; 32]%nat) by (apply (bool_decide_unpack _); by vm_compute).
  set (entry_of pos needs name deps := {| e_pos := pos; e_needs := needs; e_task := T_signal
    {| s_id := name; s_dependsOn := deps; s_slot := 9; s_value := 1; s_operation := RP1_SIGOP_SET |} |}).
  assert (packet_at wide 33 (entry_of 33%nat [0; 32]%nat "end" ["s0"; "s32"])%string) as P33 by (by vm_compute).
  assert (packet_at wide 1 (entry_of 1%nat [] "s1" [])%string) as P1 by (by vm_compute).
  destruct (mainline_image_exact lookup_device ∅ false 3 1 wide new_plan _ _ new_plan_fresh wide_built) as [(sl & H) _].
  destruct (H _ _ P33) as (n & op & flags & p & Hn & En & (Eop & _) & Hw & Hx). exists n. split; [exact Hn|].
  split; [rewrite En; exact Eop|]. split; [destruct (Hw 0%nat In0) as (y & e' & _ & _ & Hy); exists y; exact Hy|].
  intros C. destruct (Hx _ _ P1 C) as [Hin|(k & sp & y & d & skip & Et & _)]; [exact (Out1 Hin)|discriminate Et].
Defined.

(** ** Runs *)

Definition pipeline_start : st fabric := staged fabric0 (img_nodes (image_built pipeline)) (arg_buf (image_built pipeline)).

(** The firmware on a staged graph: started, then [k] scan passes. *)
Definition boots {HW} `{!Hal HW} (s0 : st HW) : bool :=
  match rp1_store_init s0 with Ret None _ => true | _ => false end.
Fixpoint passes_from {HW} `{!Hal HW} (s0 : st HW) (k : nat) : st HW :=
  match k with
  | O => final rp1_store_init s0
  | S k' => final (scan_pass 9 9 (ctrl s0 node_count)) (passes_from s0 k')
  end.
Definition scans {HW} `{!Hal HW} (s0 : st HW) (k : nat) : bool :=
  forallb (fun j => returns (scan_pass 9 9 (ctrl s0 node_count)) (passes_from s0 j)) (seq 0 k).
Definition pipeline_after (k : nat) : st fabric := passes_from pipeline_start k.

Lemma runs_from {HW} `{!Hal HW} i (s0 : st HW) k :
  config_words (ctrl s0) -> staged_image (i := i) s0 -> boots s0 = true -> scans s0 k = true ->
  runs 9 9 i (passes_from s0 k).
Proof.
  intros Hc Hi Hb Hs. exists s0, (final rp1_store_init s0). split; [done|]. split; [done|]. split.
  - unfold boots, final in *. by destruct (rp1_store_init s0) as [[] | |].
  - unfold scans in Hs. rewrite forallb_forall in Hs. induction k as [|k IH]; [apply passes_start|]. cbn [passes_from].
    destruct (returns_final (scan_pass 9 9 (ctrl s0 node_count)) (passes_from s0 k)) as [r E].
    { apply Hs, in_seq. lia. }
    eapply passes_pass; [apply IH; intros j Hj%in_seq; apply Hs, in_seq; lia|exact E].
Qed.

Lemma staged_is_image {HW} (f : HW) i : staged_image (i := i) (staged f (img_nodes i) (arg_buf i)).
Proof.
  split; [done|]. intros x n Hn. cbn. rewrite Nat2Z.id. by apply nth_lookup_Some.
Qed.

Lemma pipeline_runs k : (k <= 3)%nat -> runs 9 9 (image_built pipeline) (pipeline_after k).
Proof.
  intros Hk. apply runs_from; [repeat constructor; by vm_compute|apply staged_is_image|by vm_compute|].
  assert (k = 0 \/ k = 1 \/ k = 2 \/ k = 3)%nat as [->|[->|[->| ->]]] by lia; by vm_compute.
Qed.

Lemma pipeline_acyclic : acyclic pipeline.
Proof.
  exists id. intros p c q Hc Hq.
  assert (Ea : dependencies (positions pipeline) ["a"%string] = [0%nat]) by (by vm_compute).
  assert (Eb : dependencies (positions pipeline) ["b"%string] = [1%nat]) by (by vm_compute).
  destruct p as [|[|[|p]]]; cbn in Hc; simplify_eq; cbn in Hq; rewrite ?Ea, ?Eb in Hq.
  - by apply not_elem_of_nil in Hq.
  - apply list_elem_of_singleton in Hq as ->. cbn. lia.
  - apply list_elem_of_singleton in Hq as ->. cbn. lia.
Qed.

(** Entry [x] of the plan of [pipeline]. *)
Definition pipeline_entry (x : nat) : entry :=
  default {| e_pos := 0; e_needs := []; e_task := T_wait {| w_id := ""; w_dependsOn := []; w_slot := 0; w_value := 0; w_conditionOp := 0 |} |}
    (sc_entries (plan pipeline) !! x).

Lemma pipeline_packet x : (x < 5)%nat -> packet_at pipeline x (pipeline_entry x).
Proof.
  intros Hx. unfold packet_at, pipeline_entry. destruct (sc_entries (plan pipeline) !! x) eqn:E; [done|]. exfalso.
  apply lookup_ge_None in E. assert (length (sc_entries (plan pipeline)) = 5%nat) by (by vm_compute). lia.
Qed.

(** After two passes the consumer has been started, so the copy of the scalar
    into its register is finished. *)
Lemma mainline_runs_in_order_witness :
  node_status (pipeline_after 2) 3 <> RP1_NODE_PENDING /\ finished (pipeline_after 2) 2.
Proof.
  assert (node_status (pipeline_after 2) 3 <> RP1_NODE_PENDING) as Hst by (by vm_compute). split; [exact Hst|].
  assert (e_pos (pipeline_entry 2) ∈ e_needs (pipeline_entry 3)) as Hin by (apply (bool_decide_unpack _); by vm_compute).
  destruct (mainline_runs_in_order lookup_device ∅ false 3 1 9 9 pipeline new_plan _ _ (pipeline_after 2)
    new_plan_fresh pipeline_built (pipeline_runs 2 ltac:(lia))) as [H _].
  exact (H 3%nat _ 2%nat _ (pipeline_packet 3 ltac:(lia)) (pipeline_packet 2 ltac:(lia)) Hin Hst).
Defined.

(** After three passes the sentinel has been started, so all is done. *)
Lemma mainline_sentinel_last_witness :
  node_status (pipeline_after 3) 5 <> RP1_NODE_PENDING /\ finished (pipeline_after 3) 4.
Proof.
  assert (length (img_nodes (image_built pipeline)) = 6%nat) as Hlen by (by vm_compute).
  assert (node_status (pipeline_after 3) 5 <> RP1_NODE_PENDING) as Hst by (by vm_compute). split; [exact Hst|].
  pose proof (mainline_sentinel_last lookup_device ∅ false 3 1 9 9 pipeline new_plan _ _ (pipeline_after 3)
    new_plan_fresh pipeline_built (pipeline_runs 3 ltac:(lia)) pipeline_acyclic) as H.
  rewrite Hlen in H. exact (H Hst 4%nat _ (pipeline_packet 4 ltac:(lia))).
Defined.

Lemma lookup_device_typed : device_typed lookup_device.
Proof.
  split; [done|]. intros f name loc [= <-] Hl. repeat case_decide; simplify_eq; by split; vm_compute.
Qed.

Lemma pipeline_typed : program_typed lookup_device 3 1 pipeline.
Proof. split; [apply lookup_device_typed| |by vm_compute]. repeat constructor; by vm_compute. Qed.

Lemma pipeline_valid : program_valid lookup_device ∅ 3 pipeline.
Proof. split; [done| |by intros key b Hk; rewrite lookup_empty in Hk|by vm_compute]. repeat constructor; by vm_compute. Qed.

Lemma mainline_image_typed_witness : image_wf (image_built pipeline).
Proof. exact (mainline_image_typed lookup_device ∅ false 3 1 pipeline new_plan _ _ new_plan_fresh pipeline_built pipeline_typed). Defined.

Lemma mainline_image_accepted_witness : image_error (image_built pipeline) = None /\ args_fit (image_built pipeline).
Proof.
  exact (mainline_image_accepted lookup_device ∅ false 3 1 pipeline new_plan _ _ new_plan_fresh pipeline_built pipeline_typed pipeline_valid).
Defined.

(** The copy is packet 2, of the read that is packet 1. *)
Lemma mainline_scalars_forwarded_witness : exists n y m, img_nodes (image_built pipeline) !! 2%nat = Some n /\
  img_nodes (image_built pipeline) !! y = Some m /\
  source_slot (view_scalar_copy (node_payload n)) = sr_target_slot (view_scalar_read (node_payload m)).
Proof.
  assert (exists k sp r, e_task (pipeline_entry 2) = T_copy k sp r) as (k & sp & r & Et) by (vm_compute; eauto).
  destruct (mainline_scalars_forwarded lookup_device ∅ false 3 1 pipeline new_plan _ _ 2 _ k sp r new_plan_fresh pipeline_built
    pipeline_typed (pipeline_packet 2 ltac:(lia)) Et) as (n & y & e' & m & k' & sp' & gs & gs' & Hn & Hm & _ & _ & _ & _ & _ & _ & _ & _ & Hs & _).
  exists n, y, m. split; [exact Hn|]. split; [exact Hm|exact Hs].
Defined.


(** ** A dependent can overtake the scalar read *)

(** A fabric whose host reads the completion queue once, at its [sh_drain]-th
    chance. *)
Record slow_host := { sh_fabric : fabric; sh_calls : nat; sh_drain : nat }.

#[export] Instance slow_hal : Hal slow_host := {
  hal_read32 a h := let r := hal_read32 a (sh_fabric h) in
    (r.1, {| sh_fabric := r.2; sh_calls := sh_calls h; sh_drain := sh_drain h |});
  hal_write32 a v h := {| sh_fabric := hal_write32 a v (sh_fabric h); sh_calls := sh_calls h; sh_drain := sh_drain h |};
  hal_barrier h := h;
  hal_pmu_init h := {| sh_fabric := hal_pmu_init (sh_fabric h); sh_calls := sh_calls h; sh_drain := sh_drain h |};
  hal_cycles h := let r := hal_cycles (sh_fabric h) in
    (r.1, {| sh_fabric := r.2; sh_calls := sh_calls h; sh_drain := sh_drain h |});
  hal_host h c sigs :=
    ({| sh_fabric := sh_fabric h; sh_calls := S (sh_calls h); sh_drain := sh_drain h |},
     if (sh_calls h =? sh_drain h)%nat then c cq_write_idx else c cq_read_idx, sigs)
}.

(** A kernel with an output scalar and a signal that depends on it. *)
Definition announced : Rp1QueueProgram := program [
  kernel_command "a" "produce" [] [("sum"%string, root_scalar "sum" U32)] [];
  signal_command "go" 7 ["a"%string]].

Lemma announced_built : builds_on announced (image_built announced) (plan_built announced).
Proof. apply built. by vm_compute. Qed.

Definition announced_start (drain : nat) : st slow_host :=
  set_ctrl cq_size 1 (staged {| sh_fabric := fabric0; sh_calls := 0; sh_drain := drain |}
    (img_nodes (image_built announced)) (arg_buf (image_built announced))).

Lemma announced_runs : runs 9 9 (image_built announced) (passes_from (announced_start 4) 2).
Proof.
  apply runs_from; [repeat constructor; by vm_compute| |by vm_compute|by vm_compute].
  split; [by vm_compute|exact (proj2 (staged_is_image _ (image_built announced)))].
Qed.

(** The barriers of an image do not order a dependent after the scalar
    reads of the kernel it depends on.  With a full completion queue that the
    host drains at the wrong moment, the signal that announces a kernel's
    completion is done while the kernel's output scalar has not been read. *)
Theorem dependent_overtakes_read : exists i s' (f : st slow_host),
  builds_on announced i s' /\ runs 9 9 i f /\
  (exists k sp, packet_at announced 1 {| e_pos := 2; e_needs := [0%nat]; e_task := T_read k sp |} /\ k_id k = "a"%string) /\
  (exists c, packet_at announced 2 {| e_pos := 1; e_needs := [0%nat]; e_task := T_signal c |} /\ s_dependsOn c = ["a"%string]) /\
  node_status f 2 = RP1_NODE_DONE /\ node_status f 1 = RP1_NODE_PENDING.
Proof.
  exists (image_built announced), (plan_built announced), (passes_from (announced_start 4) 2).
  split; [exact announced_built|]. split; [exact announced_runs|].
  split; [eexists _, _; split; [by vm_compute|by vm_compute]|]. split; [eexists; split; [by vm_compute|by vm_compute]|].
  split; by vm_compute.
Qed.
