(* ===== verification/Clock.v ===== *)
(** * The clock driver of the daemon (vrtd/src/clock.c)

    Two clocking wizards, for the user and the service region, sit behind
    registers of a PCI BAR.  The rate of a region is
    [prim_in_hz * M / D / O]; setting it searches the multipliers and dividers
    the hardware can realise, keeps the best candidates in a bounded buffer,
    and programs them in turn until one reports lock.

    This file models every function of clock.c.  The registers, the monotonic
    clock and the sleep are the class [Wizard]; an access outside the mapped
    BAR is undefined behaviour, and so is a division by 0.  [errno] is the
    exception of a call that returns -1.  Log texts are left out, but not the
    register reads that [clock_driver_log_state] makes for them. *)

From S2P Require Import Prelude Except.

(** ** Registers and limits *)

Definition XCLK_WIZ_RECONFIG_OFFSET : Z := 0x14.
Definition XCLK_WIZ_REG1_OFFSET : Z := 0x330.
Definition XCLK_WIZ_REG2_OFFSET : Z := 0x334.
Definition XCLK_WIZ_REG3_OFFSET : Z := 0x338.
Definition XCLK_WIZ_REG4_OFFSET : Z := 0x33C.
Definition XCLK_WIZ_REG11_OFFSET : Z := 0x378.
Definition XCLK_WIZ_REG12_OFFSET : Z := 0x380.
Definition XCLK_WIZ_REG13_OFFSET : Z := 0x384.
Definition XCLK_WIZ_REG14_OFFSET : Z := 0x398.
Definition XCLK_WIZ_REG15_OFFSET : Z := 0x39C.
Definition XCLK_WIZ_REG16_OFFSET : Z := 0x3A0.
Definition XCLK_WIZ_REG17_OFFSET : Z := 0x3A8.
Definition XCLK_WIZ_REG19_OFFSET : Z := 0x3CC.
Definition XCLK_WIZ_REG25_OFFSET : Z := 0x3F0.
Definition XCLK_WIZ_REG26_OFFSET : Z := 0x3FC.

Definition XCLK_WIZ_LOCK : Z := 0x1.
Definition XCLK_WIZ_RECONFIG_LOAD : Z := 0x1.
Definition XCLK_WIZ_RECONFIG_SADDR : Z := 0x2.
Definition XCLK_WIZ_REG1_EDGE_MASK : Z := 0x100.
Definition XCLK_WIZ_CLKFBOUT_L_MASK : Z := 0xFF.
Definition XCLK_WIZ_CLKFBOUT_H_MASK : Z := 0xFF00.
Definition XCLK_WIZ_EDGE_MASK : Z := Z.shiftl 1 10.
Definition XCLK_WIZ_REG3_PREDIV2 : Z := Z.shiftl 1 11.
Definition XCLK_WIZ_REG3_USED : Z := Z.shiftl 1 12.
Definition XCLK_WIZ_REG3_MX : Z := Z.shiftl 1 9.
Definition XCLK_WIZ_REG1_PREDIV2 : Z := Z.shiftl 1 12.
Definition XCLK_WIZ_REG1_EN : Z := Z.shiftl 1 9.
Definition XCLK_WIZ_REG1_MX : Z := Z.shiftl 1 10.

Definition XCLK_MHZ : Z := 1000000.
Definition XCLK_M_MIN : Z := 5.
Definition XCLK_M_MAX : Z := 432.
Definition XCLK_D_MIN : Z := 1.
Definition XCLK_D_MAX : Z := 123.
Definition XCLK_VCO_MIN : Z := 2160.
Definition XCLK_VCO_MAX : Z := 4320.
Definition XCLK_PFD_MIN : Z := 10.
Definition XCLK_PFD_MAX : Z := 500.
Definition XCLK_O_MIN : Z := 2.
Definition XCLK_O_MAX : Z := 511.

Definition CLOCK_DRIVER_DEFAULT_PRIM_IN_HZ : Z := 100000000.
Definition CLOCK_DRIVER_DEFAULT_MIN_ERR_HZ : Z := 500000.
Definition CLOCK_DRIVER_DEFAULT_MAX_CANDIDATES : nat := 50.
Definition CLOCK_DRIVER_DEFAULT_O_WINDOW : Z := 6.
Definition CLOCK_DRIVER_DEFAULT_LOCK_TIMEOUT_MS : Z := 200.
Definition CLOCK_DRIVER_BAR_NUMBER : Z := 4.
Definition CLOCK_DRIVER_BAR_NUMBER_FALLBACK : Z := 2.
Definition CLOCK_DRIVER_USER_REGION_WIZARD_OFFSET : Z := 0x0.
Definition CLOCK_DRIVER_SERVICE_REGION_WIZARD_OFFSET : Z := 0x10000.
Definition CLOCK_DRIVER_WIZARD_CLKOUT_ID : Z := 0.

(** ** The driver *)

(** The hardware and the operating system: register accesses by byte offset
    into the BAR, [clock_gettime(CLOCK_MONOTONIC)] as seconds and nanoseconds,
    [None] where it fails, and [usleep(100)]. *)
Class Wizard (W : Type) := {
  wz_read : Z -> W -> Z * W;
  wz_write : Z -> Z -> W -> W;
  wz_gettime : W -> option (Z * Z) * W;
  wz_usleep : W -> W
}.

Inductive clock_errno := E_INVAL | E_OVERFLOW | E_RANGE | E_TIMEDOUT | E_GETTIME | E_NOBAR.

(** [struct clock_driver]; [regs_mapped] is [regs != NULL], [bar_len] is [len]. *)
Record clock_driver (W : Type) := mkDriver {
  ck_hw : W; regs_mapped : bool; bar_len : Z; prim_in_hz : Z;
  ck_m : Z; ck_d : Z; ck_o : Z; min_err_hz : Z
}.
Arguments mkDriver {W}.
Arguments ck_hw {W}.
Arguments regs_mapped {W}.
Arguments bar_len {W}.
Arguments prim_in_hz {W}.
Arguments ck_m {W}.
Arguments ck_d {W}.
Arguments ck_o {W}.
Arguments min_err_hz {W}.

Definition set_ck_hw {W} (w : W) (s : clock_driver W) : clock_driver W :=
  mkDriver w (regs_mapped s) (bar_len s) (prim_in_hz s) (ck_m s) (ck_d s) (ck_o s) (min_err_hz s).
Definition set_mdo {W} (m d o : Z) (s : clock_driver W) : clock_driver W :=
  mkDriver (ck_hw s) (regs_mapped s) (bar_len s) (prim_in_hz s) m d o (min_err_hz s).

(** What [slash_bar_file_open] gives: whether the mapping exists, its length. *)
Record bar_file := { bf_mapped : bool; bf_len : Z }.

(** [clock_driver_init] on a device whose BARs [open] opens. *)
Definition clock_driver_init {W} (w : W) (open : Z -> option bar_file) : except clock_errno (clock_driver W) :=
  let bar := match open CLOCK_DRIVER_BAR_NUMBER with
             | Some b => Some b
             | None => open CLOCK_DRIVER_BAR_NUMBER_FALLBACK
             end in
  match bar with
  | None => Exn E_NOBAR
  | Some b =>
      if negb (bf_mapped b) || (bf_len b =? 0) then Exn E_NOBAR
      else Val (mkDriver w true (bf_len b) CLOCK_DRIVER_DEFAULT_PRIM_IN_HZ 0 0 0 CLOCK_DRIVER_DEFAULT_MIN_ERR_HZ)
  end.

(** ** Encodings *)

(** The quotient of two unsigned integers; by 0 there is none. *)
Definition udiv (a b : Z) : option Z := if b =? 0 then None else Some (a / b).

Definition bit_of (v mask : Z) : Z := if Z.land v mask =? 0 then 0 else 1.

Definition clock_wizard_leaf_offset (clock_id : Z) : Z :=
  if clock_id <? 3 then add32 XCLK_WIZ_REG3_OFFSET (u32 (clock_id * 8))
  else add32 XCLK_WIZ_REG19_OFFSET (u32 (sub32 clock_id 3 * 8)).

(** The two registers of an output divider: flags and counts. *)
Definition clock_wizard_encode_leaf (o : Z) : Z * Z :=
  let o := if XCLK_O_MAX <? o then XCLK_O_MAX else o in
  let high_time := o / 4 in
  let div_edge := if o mod 4 <=? 1 then 0 else 1 in
  let p5_enable := o mod 2 in
  let p5f_edge := o mod 2 in
  (Z.lor (Z.lor (Z.lor (Z.lor (Z.lor XCLK_WIZ_REG3_PREDIV2 XCLK_WIZ_REG3_USED) XCLK_WIZ_REG3_MX)
     (Z.shiftl div_edge 8)) (Z.shiftl p5_enable 13)) (Z.shiftl p5f_edge 15),
   Z.lor high_time (Z.shiftl high_time 8)).

Definition low_count (reg : Z) : Z := Z.land reg XCLK_WIZ_CLKFBOUT_L_MASK.
Definition high_count (reg : Z) : Z := Z.shiftr (Z.land reg XCLK_WIZ_CLKFBOUT_H_MASK) 8.

Definition clock_wizard_decode_leaf (ctrl counts : Z) : Z :=
  let edge := bit_of ctrl (Z.shiftl 1 8) in
  let p5en := bit_of ctrl (Z.shiftl 1 13) in
  let prediv := bit_of ctrl XCLK_WIZ_REG3_PREDIV2 in
  let leaf := high_count counts + low_count counts + edge in
  let divo := (prediv + 1) * leaf + prediv * p5en in
  if divo =? 0 then 1 else divo.

Definition clock_driver_effective_divo_from_o (o : Z) : Z :=
  let '(ctrl, counts) := clock_wizard_encode_leaf o in clock_wizard_decode_leaf ctrl counts.

(** ** Candidates *)

Record clock_candidate := {
  diff_hz : Z; achieved_hz : Z; cand_m : Z; cand_d : Z; cand_o : Z; fvco_hz : Z
}.

Definition clock_driver_candidate_cmp (a b : clock_candidate) : Z :=
  if negb (diff_hz a =? diff_hz b) then (if diff_hz a <? diff_hz b then -1 else 1)
  else
    let ao4 := if cand_o a mod 4 =? 0 then 0 else 1 in
    let bo4 := if cand_o b mod 4 =? 0 then 0 else 1 in
    if negb (ao4 =? bo4) then (if ao4 <? bo4 then -1 else 1)
    else
      let ao2 := if cand_o a mod 2 =? 0 then 0 else 1 in
      let bo2 := if cand_o b mod 2 =? 0 then 0 else 1 in
      if negb (ao2 =? bo2) then (if ao2 <? bo2 then -1 else 1)
      else if negb (fvco_hz a =? fvco_hz b) then (if fvco_hz b <? fvco_hz a then -1 else 1)
      else if negb (cand_o a =? cand_o b) then (if cand_o a <? cand_o b then -1 else 1)
      else 0.

(** [worst_index] after the loop over the rest of the buffer. *)
Fixpoint worst_from (worst : nat * clock_candidate) (i : nat) (l : list clock_candidate) : nat * clock_candidate :=
  match l with
  | [] => worst
  | c :: l' => worst_from (if clock_driver_candidate_cmp worst.2 c <? 0 then (i, c) else worst) (S i) l'
  end.

(** Append the candidate, or put it in place of the worst one. *)
Definition keep_candidate (max_candidates : nat) (cands : list clock_candidate) (candidate : clock_candidate)
    : list clock_candidate :=
  if (length cands <? max_candidates)%nat then cands ++ [candidate]
  else match cands with
  | [] => cands
  | c :: l =>
      let worst := worst_from (0%nat, c) 1 l in
      if clock_driver_candidate_cmp candidate worst.2 <? 0 then <[worst.1 := candidate]> cands else cands
  end.

(** The bounds [o_lo] and [o_hi] of the output dividers that are tried. *)
Definition o_window (fvco target_hz : Z) : option (Z * Z) :=
  o_est ← udiv (fvco + target_hz / 2) target_hz;
  let o_est := if o_est <? XCLK_O_MIN then XCLK_O_MIN else if XCLK_O_MAX <? o_est then XCLK_O_MAX else o_est in
  let o_lo := if CLOCK_DRIVER_DEFAULT_O_WINDOW <? o_est then o_est - CLOCK_DRIVER_DEFAULT_O_WINDOW else XCLK_O_MIN in
  let o_lo := if o_lo <? XCLK_O_MIN then XCLK_O_MIN else o_lo in
  let o_hi := u32 (o_est + CLOCK_DRIVER_DEFAULT_O_WINDOW) in
  Some (o_lo, if XCLK_O_MAX <? o_hi then XCLK_O_MAX else o_hi).

(** The candidate of one output divider, if it is not passed over. *)
Definition candidate_of (target_hz : Z) (no_exceed : bool) (m d fvco o : Z)
    : option (option clock_candidate) :=
  achieved ← udiv fvco o;
  Some (if no_exceed && (target_hz <? achieved) then None
        else Some {| diff_hz := if target_hz <? achieved then achieved - target_hz else target_hz - achieved;
                     achieved_hz := achieved; cand_m := m; cand_d := d; cand_o := o; fvco_hz := fvco |}).

(** [for (x = lo; x <= hi; ++x) acc = f(acc, x)] *)
Definition for_fold {A} (lo hi : Z) (f : A -> Z -> option A) (acc : A) : option A :=
  foldl (fun acc x => a ← acc; f a x) (Some acc) (seqZ lo (hi - lo + 1)).

(** The body of the loop over [d]. *)
Definition scan_divider (prim target_hz : Z) (max_candidates : nat) (no_exceed : bool) (m : Z)
    (cands : list clock_candidate) (d : Z) : option (list clock_candidate) :=
  fvco ← udiv (u64 (prim * m)) d;
  if (fvco <? XCLK_VCO_MIN * XCLK_MHZ) || (XCLK_VCO_MAX * XCLK_MHZ <? fvco) then Some cands
  else
    pfd_hz ← udiv prim d;
    if (pfd_hz <? XCLK_PFD_MIN * XCLK_MHZ) || (XCLK_PFD_MAX * XCLK_MHZ <? pfd_hz) then Some cands
    else
      w ← o_window fvco target_hz;
      for_fold w.1 w.2 (fun cands o =>
        candidate ← candidate_of target_hz no_exceed m d fvco o;
        Some match candidate with
             | Some c => keep_candidate max_candidates cands c
             | None => cands
             end) cands.

(** One round [i] of the sort: [x] is [cands[i]], the list what follows it. *)
Fixpoint exchange (x : clock_candidate) (l : list clock_candidate) : clock_candidate * list clock_candidate :=
  match l with
  | [] => (x, [])
  | y :: l' =>
      if clock_driver_candidate_cmp y x <? 0
      then let r := exchange y l' in (r.1, x :: r.2)
      else let r := exchange x l' in (r.1, y :: r.2)
  end.

Fixpoint sort_rounds (n : nat) (l : list clock_candidate) : list clock_candidate :=
  match n, l with
  | S n', x :: l' => let r := exchange x l' in r.1 :: sort_rounds n' r.2
  | _, _ => l
  end.

Definition clock_driver_generate_candidates (prim target_hz : Z) (max_candidates : nat) (no_exceed : bool)
    : option (list clock_candidate) :=
  if (target_hz =? 0) || (max_candidates =? 0)%nat then Some []
  else
    cands ← for_fold XCLK_M_MIN XCLK_M_MAX (fun cands m =>
      for_fold XCLK_D_MIN XCLK_D_MAX (scan_divider prim target_hz max_candidates no_exceed m) cands) [];
    Some (sort_rounds (length cands) cands).

(** ** Register access *)

Section driver.
Context {W : Type} `{!Wizard W}.

Abbreviation CM := (EM clock_errno (clock_driver W)).

(** [return -1] with [errno] set, from a function whose other results are
    values *)
Definition clock_driver_check_bounds (offset : Z) : CM unit :=
  s ← asks id;
  throw_if (negb (regs_mapped s)) E_INVAL;;
  throw_if (bar_len s <? offset + 4) E_OVERFLOW.

(** [regs[offset / 4]] *)
Definition clock_driver_r32 (offset : Z) : CM Z :=
  s ← asks id;
  if regs_mapped s && (offset / 4 * 4 + 4 <=? bar_len s) then
    let r := wz_read (offset / 4 * 4) (ck_hw s) in
    updates (set_ck_hw r.2);; mret r.1
  else undefined.

Definition clock_driver_w32 (offset value : Z) : CM unit :=
  s ← asks id;
  if regs_mapped s && (offset / 4 * 4 + 4 <=? bar_len s) then
    updates (set_ck_hw (wz_write (offset / 4 * 4) value (ck_hw s)))
  else undefined.

Definition clock_driver_reg (wizard_offset reg_offset : Z) : Z := add32 wizard_offset reg_offset.

Definition clock_driver_check_wizard_bounds (wizard_offset : Z) : CM unit :=
  clock_driver_check_bounds (clock_driver_reg wizard_offset XCLK_WIZ_REG26_OFFSET).

Definition clock_driver_get_vco_hz (wizard_offset : Z) : CM Z :=
  reg1 ← clock_driver_r32 (clock_driver_reg wizard_offset XCLK_WIZ_REG1_OFFSET);
  reg2 ← clock_driver_r32 (clock_driver_reg wizard_offset XCLK_WIZ_REG2_OFFSET);
  let mult := low_count reg2 + high_count reg2 + bit_of reg1 XCLK_WIZ_REG1_EDGE_MASK in
  let mult := if mult =? 0 then 1 else mult in
  reg13 ← clock_driver_r32 (clock_driver_reg wizard_offset XCLK_WIZ_REG13_OFFSET);
  reg12 ← clock_driver_r32 (clock_driver_reg wizard_offset XCLK_WIZ_REG12_OFFSET);
  let div := low_count reg13 + high_count reg13 + bit_of reg12 XCLK_WIZ_EDGE_MASK in
  let div := if div =? 0 then 1 else div in
  prim ← asks prim_in_hz;
  defined (udiv (u64 (prim * mult)) div).

Definition clock_driver_get_rate_hz (wizard_offset clock_id : Z) : CM Z :=
  fvco ← clock_driver_get_vco_hz wizard_offset;
  let reg_off := clock_driver_reg wizard_offset (clock_wizard_leaf_offset clock_id) in
  ctrl ← clock_driver_r32 reg_off;
  counts ← clock_driver_r32 (add32 reg_off 4);
  defined (udiv fvco (clock_wizard_decode_leaf ctrl counts)).

(** The reads a log line takes its values from. *)
Definition clock_driver_log_state (wizard_offset clock_id : Z) : CM unit :=
  let leaf_off := if clock_id <? 3 then add32 XCLK_WIZ_REG3_OFFSET (u32 (clock_id * 8))
                  else add32 XCLK_WIZ_REG19_OFFSET (u32 (clock_id * 8)) in
  let leaf_reg_off := clock_driver_reg wizard_offset leaf_off in
  each (map (clock_driver_reg wizard_offset)
          [XCLK_WIZ_REG1_OFFSET; XCLK_WIZ_REG2_OFFSET; XCLK_WIZ_REG12_OFFSET; XCLK_WIZ_REG13_OFFSET]
        ++ [leaf_reg_off; add32 leaf_reg_off 4]
        ++ map (clock_driver_reg wizard_offset) [XCLK_WIZ_REG4_OFFSET; XCLK_WIZ_RECONFIG_OFFSET])
    (fun a => clock_driver_r32 a;; mret tt);;
  clock_driver_get_vco_hz wizard_offset;;
  clock_driver_get_rate_hz wizard_offset clock_id;;
  mret tt.

(** ** Programming *)

Definition clock_driver_update_o (wizard_offset clock_id : Z) : CM unit :=
  let reg_off := clock_driver_reg wizard_offset (clock_wizard_leaf_offset clock_id) in
  o ← asks ck_o;
  clock_driver_w32 reg_off (clock_wizard_encode_leaf o).1;;
  clock_driver_w32 (add32 reg_off 4) (clock_wizard_encode_leaf o).2.

Definition clock_driver_update_d (wizard_offset : Z) : CM unit :=
  d ← asks ck_d;
  let high_time := d / 2 in
  clock_driver_w32 (clock_driver_reg wizard_offset XCLK_WIZ_REG12_OFFSET) (Z.shiftl (d mod 2) 10);;
  clock_driver_w32 (clock_driver_reg wizard_offset XCLK_WIZ_REG13_OFFSET)
    (u32 (Z.lor high_time (Z.shiftl high_time 8))).

Definition clock_driver_update_m (wizard_offset : Z) : CM unit :=
  m ← asks ck_m;
  clock_driver_w32 (clock_driver_reg wizard_offset XCLK_WIZ_REG25_OFFSET) 0;;
  let high_time := m / 2 in
  clock_driver_w32 (clock_driver_reg wizard_offset XCLK_WIZ_REG2_OFFSET)
    (u32 (Z.lor high_time (Z.shiftl high_time 8)));;
  let reg := Z.lor (Z.lor XCLK_WIZ_REG1_PREDIV2 XCLK_WIZ_REG1_EN) XCLK_WIZ_REG1_MX in
  clock_driver_w32 (clock_driver_reg wizard_offset XCLK_WIZ_REG1_OFFSET)
    (if m mod 2 =? 0 then Z.ldiff reg (Z.shiftl 1 8) else Z.lor reg (Z.shiftl 1 8)).

Definition clock_driver_program_common_tail (wizard_offset : Z) : CM unit :=
  clock_driver_w32 (clock_driver_reg wizard_offset XCLK_WIZ_REG11_OFFSET) 0x2E;;
  clock_driver_w32 (clock_driver_reg wizard_offset XCLK_WIZ_REG14_OFFSET) 0xE80;;
  clock_driver_w32 (clock_driver_reg wizard_offset XCLK_WIZ_REG15_OFFSET) 0x4271;;
  clock_driver_w32 (clock_driver_reg wizard_offset XCLK_WIZ_REG16_OFFSET) 0x43E9;;
  clock_driver_w32 (clock_driver_reg wizard_offset XCLK_WIZ_REG17_OFFSET) 0x1C;;
  clock_driver_w32 (clock_driver_reg wizard_offset XCLK_WIZ_REG26_OFFSET) 0x1.

Definition clock_driver_trigger_reconfig (wizard_offset : Z) : CM unit :=
  clock_driver_w32 (clock_driver_reg wizard_offset XCLK_WIZ_RECONFIG_OFFSET)
    (Z.lor XCLK_WIZ_RECONFIG_LOAD XCLK_WIZ_RECONFIG_SADDR).

Definition clock_gettime : CM (Z * Z) :=
  s ← asks id;
  let r := wz_gettime (ck_hw s) in
  updates (set_ck_hw r.2);;
  match r.1 with Some t => mret t | None => throw E_GETTIME end.

(** The milliseconds between two times, in the code's integer types. *)
Definition elapsed_ms (start now : Z * Z) : Z :=
  let sec := now.1 - start.1 in
  let nsec := now.2 - start.2 in
  let borrow := nsec <? 0 in
  let sec := if borrow then sec - 1 else sec in
  let nsec := if borrow then nsec + 1000000000 else nsec in
  add64 (u64 (u64 sec * 1000)) (u64 nsec / 1000000).

Fixpoint lock_loop (fuel : nat) (wizard_offset timeout_ms : Z) (start : Z * Z) : CM unit :=
  match fuel with
  | O => out_of_fuel
  | S fuel' =>
      status ← clock_driver_r32 (clock_driver_reg wizard_offset XCLK_WIZ_REG4_OFFSET);
      if negb (Z.land status XCLK_WIZ_LOCK =? 0) then mret tt
      else
        now ← clock_gettime;
        throw_if (timeout_ms <? elapsed_ms start now) E_TIMEDOUT;;
        updates (fun s => set_ck_hw (wz_usleep (ck_hw s)) s);;
        lock_loop fuel' wizard_offset timeout_ms start
  end.

Definition clock_driver_wait_for_lock (fuel : nat) (wizard_offset timeout_ms : Z) : CM unit :=
  start ← clock_gettime;
  lock_loop fuel wizard_offset timeout_ms start.

(** The achieved rate, or [None] where [*ok] stays -1. *)
Definition clock_driver_program_mdo_and_reconfig (fuel : nat) (wizard_offset clock_id timeout_ms : Z)
    : CM (option Z) :=
  clock_driver_w32 (clock_driver_reg wizard_offset XCLK_WIZ_REG25_OFFSET) 0;;
  clock_driver_update_o wizard_offset clock_id;;
  clock_driver_update_d wizard_offset;;
  clock_driver_update_m wizard_offset;;
  clock_driver_program_common_tail wizard_offset;;
  clock_driver_trigger_reconfig wizard_offset;;
  locked ← (fun s => match clock_driver_wait_for_lock fuel wizard_offset timeout_ms s with
                     | Ret (Val _) s' => Ret (Val true) s'
                     | Ret (Exn _) s' => Ret (Val false) s'
                     | Ub => Ub
                     | NoFuel => NoFuel
                     end : res (clock_driver W) (except clock_errno bool));
  if locked : bool then
    rate ← clock_driver_get_rate_hz wizard_offset clock_id; mret (Some rate)
  else mret None.

(** The loop over the candidates; the result is the new [*rate_hz_inout]. *)
Fixpoint try_candidates (fuel : nat) (wizard_offset clock_id : Z) (cands : list clock_candidate) : CM Z :=
  match cands with
  | [] => throw E_TIMEDOUT
  | cand :: cands' =>
      updates (set_mdo (cand_m cand) (cand_d cand) (cand_o cand));;
      clock_driver_log_state wizard_offset clock_id;;
      reported ← clock_driver_program_mdo_and_reconfig fuel wizard_offset clock_id
        CLOCK_DRIVER_DEFAULT_LOCK_TIMEOUT_MS;
      clock_driver_log_state wizard_offset clock_id;;
      match reported with
      | Some rate => mret (u32 rate)
      | None => try_candidates fuel wizard_offset clock_id cands'
      end
  end.

Definition clock_driver_try_set_rate_hz (fuel : nat) (wizard_offset clock_id rate_hz : Z) (no_exceed : bool)
    : CM Z :=
  throw_if (rate_hz =? 0) E_INVAL;;
  prim ← asks prim_in_hz;
  candidates ← defined (clock_driver_generate_candidates prim rate_hz CLOCK_DRIVER_DEFAULT_MAX_CANDIDATES no_exceed);
  throw_if (length candidates =? 0)%nat E_RANGE;;
  try_candidates fuel wizard_offset clock_id candidates.

(** ** Regions *)

Definition get_region_rate_hz (wizard_offset : Z) : CM Z :=
  clock_driver_check_wizard_bounds wizard_offset;;
  rate ← clock_driver_get_rate_hz wizard_offset CLOCK_DRIVER_WIZARD_CLKOUT_ID;
  mret (u32 rate).

Definition set_region_rate_hz (fuel : nat) (wizard_offset rate_hz : Z) (no_exceed : bool) : CM Z :=
  clock_driver_check_wizard_bounds wizard_offset;;
  clock_driver_try_set_rate_hz fuel wizard_offset CLOCK_DRIVER_WIZARD_CLKOUT_ID rate_hz no_exceed.

Definition clock_driver_get_service_region_rate_hz : CM Z :=
  get_region_rate_hz CLOCK_DRIVER_SERVICE_REGION_WIZARD_OFFSET.
Definition clock_driver_set_service_region_rate_hz (fuel : nat) (rate_hz : Z) : CM Z :=
  set_region_rate_hz fuel CLOCK_DRIVER_SERVICE_REGION_WIZARD_OFFSET rate_hz false.
Definition clock_driver_get_user_region_rate_hz : CM Z :=
  get_region_rate_hz CLOCK_DRIVER_USER_REGION_WIZARD_OFFSET.
Definition clock_driver_set_user_region_rate_hz (fuel : nat) (rate_hz : Z) (no_exceed : bool) : CM Z :=
  set_region_rate_hz fuel CLOCK_DRIVER_USER_REGION_WIZARD_OFFSET rate_hz no_exceed.
End driver.
