(* ===== verification/ClockSearch.v ===== *)
(** * The search for a clock configuration

    The comparison of candidates is a lexicographic order; the buffer of the
    search keeps the best candidates of all that are offered, and the sort
    orders them.  The window of output dividers loses nothing: the first
    candidate is as close to the target as any configuration the hardware
    can realise. *)

From S2P Require Import Prelude Except Clock.
From Stdlib Require Import Sorted.
From stdpp Require Import list sorting.
Open Scope Z_scope.

(** ** The order of candidates *)

(** What the comparison looks at, most significant first. *)
Definition rank_key (c : clock_candidate) : list Z :=
  [diff_hz c; if cand_o c mod 4 =? 0 then 0 else 1; if cand_o c mod 2 =? 0 then 0 else 1; - fvco_hz c; cand_o c].

Fixpoint lex (a b : list Z) : Z :=
  match a, b with
  | x :: a', y :: b' => if x =? y then lex a' b' else if x <? y then -1 else 1
  | _, _ => 0
  end.

Lemma lex_opp a : forall b, lex b a = - lex a b.
Proof.
  induction a as [|x a IH]; intros [|y b]; cbn; try done. rewrite (Z.eqb_sym y x).
  destruct (Z.eqb_spec x y) as [->|]; [done|]. destruct (Z.ltb_spec x y), (Z.ltb_spec y x); lia.
Qed.

Lemma lex_trans a : forall b c, length a = length b -> length b = length c ->
  lex a b <= 0 -> lex b c <= 0 -> lex a c <= 0.
Proof.
  induction a as [|x a IH]; intros [|y b] [|z c] H1 H2; cbn in *; try done.
  destruct (Z.eqb_spec x y) as [->|], (Z.eqb_spec y z) as [->|].
  - apply IH; lia.
  - done.
  - destruct (Z.eqb_spec x z) as [->|]; done.
  - destruct (Z.ltb_spec x y), (Z.ltb_spec y z); try lia. destruct (Z.eqb_spec x z); [lia|].
    destruct (Z.ltb_spec x z); lia.
Qed.

Lemma cmp_lex a b : clock_driver_candidate_cmp a b = lex (rank_key a) (rank_key b).
Proof.
  unfold clock_driver_candidate_cmp, rank_key. cbn [lex].
  destruct (diff_hz a =? diff_hz b); cbn; [|done].
  destruct (cand_o a mod 4 =? 0), (cand_o b mod 4 =? 0); cbn; try done;
    destruct (cand_o a mod 2 =? 0), (cand_o b mod 2 =? 0); cbn; try done;
    destruct (Z.eqb_spec (fvco_hz a) (fvco_hz b)), (Z.eqb_spec (- fvco_hz a) (- fvco_hz b)); try lia; cbn;
    try (by destruct (cand_o a =? cand_o b));
    destruct (Z.ltb_spec (fvco_hz b) (fvco_hz a)), (Z.ltb_spec (- fvco_hz a) (- fvco_hz b)); lia.
Qed.

(** [a] is at least as good as [b]. *)
Definition ranks (a b : clock_candidate) : Prop := clock_driver_candidate_cmp a b <= 0.

Lemma ranks_refl a : ranks a a.
Proof. unfold ranks. rewrite cmp_lex. pose proof (lex_opp (rank_key a) (rank_key a)). lia. Qed.

#[export] Instance ranks_preorder : PreOrder ranks.
Proof.
  split; [exact ranks_refl|]. intros a b c. unfold ranks. rewrite !cmp_lex. by apply lex_trans.
Qed.

(** The test of the code and its failure. *)
Lemma better_ranks a b : (clock_driver_candidate_cmp a b <? 0) = true -> ranks a b.
Proof. unfold ranks. lia. Qed.

Lemma not_better_ranks a b : (clock_driver_candidate_cmp a b <? 0) = false -> ranks b a.
Proof. unfold ranks. rewrite !cmp_lex, (lex_opp (rank_key a)). lia. Qed.

Lemma ranks_diff a b : ranks a b -> diff_hz a <= diff_hz b.
Proof.
  unfold ranks. rewrite cmp_lex. cbn. destruct (Z.eqb_spec (diff_hz a) (diff_hz b)); [lia|].
  destruct (Z.ltb_spec (diff_hz a) (diff_hz b)); lia.
Qed.

(** ** The buffer *)

Lemma worst_from_spec l : forall pre w i, pre !! w.1 = Some w.2 -> i = length pre -> Forall (fun x => ranks x w.2) pre ->
  let r := worst_from w i l in (pre ++ l) !! r.1 = Some r.2 /\ Forall (fun x => ranks x r.2) (pre ++ l).
Proof.
  induction l as [|c l IH]; intros pre w i Hw -> Hp; cbn.
  - by rewrite app_nil_r.
  - rewrite cons_middle, (assoc_L app). apply IH.
    + destruct (_ <? 0); cbn; [by rewrite lookup_app_r, Nat.sub_diag by lia|by apply lookup_app_l_Some].
    + rewrite length_app. cbn. lia.
    + destruct (clock_driver_candidate_cmp w.2 c <? 0) eqn:E; cbn; apply Forall_app; split; [|by constructor| |].
      * eapply Forall_impl; [exact Hp|]. intros x Hx. etrans; [exact Hx|by apply better_ranks].
      * done.
      * constructor; [|done]. by apply not_better_ranks.
Qed.

Lemma insert_exchange {A} (l : list A) i x w : l !! i = Some w -> w :: <[i := x]> l ≡ₚ x :: l.
Proof.
  intros Hw. rewrite <-(take_drop_middle l i w Hw) at 2. rewrite insert_take_drop by (by eapply lookup_lt_Some).
  rewrite <-!Permutation_middle. apply Permutation_swap.
Qed.

(** The buffer after [seen] has been offered: the best [max] of it. *)
Definition best_of (max : nat) (seen kept : list clock_candidate) : Prop :=
  length kept = Nat.min max (length seen) /\
  exists rest, seen ≡ₚ kept ++ rest /\ forall x y, x ∈ kept -> y ∈ rest -> ranks x y.

Lemma keep_best max seen kept c : max <> 0%nat -> best_of max seen kept ->
  best_of max (seen ++ [c]) (keep_candidate max kept c).
Proof.
  intros Hmax (Hlen & rest & Hp & Hr). unfold keep_candidate.
  pose proof (Permutation_length Hp) as Hl. rewrite length_app in Hl.
  destruct (Nat.ltb_spec (length kept) max) as [Hlt|Hge].
  - split; [rewrite !length_app; cbn; lia|]. assert (rest = []) as -> by (apply nil_length_inv; lia).
    exists []. rewrite app_nil_r in Hp. split; [by rewrite app_nil_r, Hp|by intros ? ? _ ?%not_elem_of_nil].
  - destruct kept as [|x kept]; [cbn in *; lia|].
    destruct (worst_from_spec kept [x] (0%nat, x) 1 eq_refl eq_refl) as [Hw Hworst].
    { constructor; [apply ranks_refl|done]. }
    set (w := worst_from (0%nat, x) 1 kept) in *. cbn [app] in *. rewrite Forall_forall in Hworst.
    destruct (clock_driver_candidate_cmp c w.2 <? 0) eqn:E.
    + split; [rewrite length_insert, length_app; cbn in *; lia|]. exists (w.2 :: rest). split.
      * rewrite Hp. transitivity (c :: (x :: kept) ++ rest); [symmetry; apply Permutation_cons_append|].
        rewrite <-Permutation_middle. apply (Permutation_app_tail (l := c :: x :: kept) (l' := w.2 :: <[w.1 := c]> (x :: kept))).
        symmetry. by apply insert_exchange.
      * intros a b Ha Hb. assert (Haw : ranks a w.2).
        { apply list_elem_of_lookup in Ha as [k Hk]. rewrite list_lookup_insert_Some in Hk.
          destruct Hk as [(_ & -> & _)|(_ & Hk)]; [by apply better_ranks|]. eapply Hworst, list_elem_of_lookup_2, Hk. }
        apply elem_of_cons in Hb as [->|Hb]; [done|]. etrans; [exact Haw|].
        eapply Hr; [by eapply list_elem_of_lookup_2|done].
    + split; [rewrite length_app; cbn in *; lia|]. exists (rest ++ [c]). split; [by rewrite Hp, (assoc_L app)|].
      intros a b Ha [Hb|Hb]%elem_of_app; [by apply Hr|]. apply list_elem_of_singleton in Hb as ->.
      etrans; [by apply Hworst|by apply not_better_ranks].
Qed.

Lemma fold_best max offers : forall seen kept, max <> 0%nat -> best_of max seen kept ->
  best_of max (seen ++ offers) (foldl (keep_candidate max) kept offers).
Proof.
  induction offers as [|c offers IH]; intros seen kept Hmax Hb; cbn; [by rewrite app_nil_r|].
  rewrite cons_middle, (assoc_L app). apply IH; [done|]. by apply keep_best.
Qed.

(** ** The sort *)

Lemma exchange_spec l : forall x, let r := exchange x l in
  r.1 :: r.2 ≡ₚ x :: l /\ Forall (ranks r.1) r.2 /\ ranks r.1 x.
Proof.
  induction l as [|y l IH]; intros x; cbn; [split; [done|split; [done|apply ranks_refl]]|].
  destruct (clock_driver_candidate_cmp y x <? 0) eqn:E; cbn.
  - destruct (IH y) as (Hp & Hr & Hy). split; [by rewrite Permutation_swap, Hp, Permutation_swap|].
    assert (ranks (exchange y l).1 x) by (etrans; [exact Hy|by apply better_ranks]). split; [by constructor|done].
  - destruct (IH x) as (Hp & Hr & Hx). split; [by rewrite Permutation_swap, Hp, Permutation_swap|].
    split; [|done]. constructor; [|done]. etrans; [exact Hx|by apply not_better_ranks].
Qed.

Lemma sort_rounds_spec n : forall l, (length l <= n)%nat ->
  sort_rounds n l ≡ₚ l /\ StronglySorted ranks (sort_rounds n l).
Proof.
  induction n as [|n IH]; intros [|x l] Hl; cbn in *; try (split; [done|constructor]); try lia.
  destruct (exchange_spec l x) as (Hp & Hr & _). set (r := exchange x l) in *.
  pose proof (Permutation_length Hp) as Hlen. cbn in Hlen. destruct (IH r.2) as [Hp' Hs]; [lia|].
  split; [by rewrite Hp', Hp|]. constructor; [done|]. by rewrite Hp'.
Qed.

(** ** What is offered *)

(** The feedback multiplier and input divider keep the oscillator and the
    phase detector in their ranges. *)
Definition in_range (prim m d : Z) : bool :=
  let fvco := prim * m / d in
  (XCLK_VCO_MIN * XCLK_MHZ <=? fvco) && (fvco <=? XCLK_VCO_MAX * XCLK_MHZ) &&
  (XCLK_PFD_MIN * XCLK_MHZ <=? prim / d) && (prim / d <=? XCLK_PFD_MAX * XCLK_MHZ).

(** A configuration the hardware can realise, and the rate it gives. *)
Definition realisable (prim m d o : Z) : Prop :=
  XCLK_M_MIN <= m <= XCLK_M_MAX /\ XCLK_D_MIN <= d <= XCLK_D_MAX /\ XCLK_O_MIN <= o <= XCLK_O_MAX /\
  in_range prim m d = true.
Definition rate_of (prim m d o : Z) : Z := prim * m / d / o.

(** The output dividers tried around [fvco / target], and what one of them
    offers. *)
Definition window (fvco target : Z) : Z * Z :=
  let est := Z.max XCLK_O_MIN (Z.min XCLK_O_MAX ((fvco + target / 2) / target)) in
  (Z.max XCLK_O_MIN (est - CLOCK_DRIVER_DEFAULT_O_WINDOW), Z.min XCLK_O_MAX (est + CLOCK_DRIVER_DEFAULT_O_WINDOW)).
Definition candidate (target : Z) (no_exceed : bool) (m d fvco o : Z) : option clock_candidate :=
  let achieved := fvco / o in
  if no_exceed && (target <? achieved) then None
  else Some {| diff_hz := Z.abs (achieved - target); achieved_hz := achieved;
               cand_m := m; cand_d := d; cand_o := o; fvco_hz := fvco |}.

Definition offered_by (prim target : Z) (no_exceed : bool) (m d : Z) : list clock_candidate :=
  if in_range prim m d then
    let fvco := prim * m / d in
    let w := window fvco target in
    omap (candidate target no_exceed m d fvco) (seqZ w.1 (w.2 - w.1 + 1))
  else [].
Definition offered (prim target : Z) (no_exceed : bool) : list clock_candidate :=
  m ← seqZ XCLK_M_MIN (XCLK_M_MAX - XCLK_M_MIN + 1); d ← seqZ XCLK_D_MIN (XCLK_D_MAX - XCLK_D_MIN + 1);
  offered_by prim target no_exceed m d.

Lemma foldl_omap {A B C} (f : C -> B -> C) (g : A -> option B) l : forall acc,
  foldl (fun acc x => match g x with Some y => f acc y | None => acc end) acc l = foldl f acc (omap g l).
Proof. induction l as [|x l IH]; intros acc; cbn; [done|]. by destruct (g x); cbn; rewrite IH. Qed.

Lemma foldl_pointwise {A B} (f g : A -> B -> A) (Hfg : forall a b, f a b = g a b) l : forall acc,
  foldl f acc l = foldl g acc l.
Proof. induction l as [|x l IH]; intros acc; cbn; [done|]. by rewrite Hfg, IH. Qed.

Lemma foldl_mbind {A B C} (f : C -> B -> C) (g : A -> list B) l : forall acc,
  foldl (fun acc x => foldl f acc (g x)) acc l = foldl f acc (l ≫= g).
Proof.
  induction l as [|x l IH]; intros acc; [done|]. cbn [foldl]. rewrite bind_cons, foldl_app. by rewrite IH.
Qed.

(** ** The divisions are defined *)

Lemma udiv_some a b : b <> 0 -> udiv a b = Some (a / b).
Proof. intros Hb. unfold udiv. by destruct (Z.eqb_spec b 0). Qed.

Lemma window_bounds f target : XCLK_O_MIN <= (window f target).1 /\ (window f target).2 <= XCLK_O_MAX.
Proof. unfold window. cbn [fst snd]. lia. Qed.

Lemma o_window_some f target : target <> 0 -> o_window f target = Some (window f target).
Proof.
  intros Ht. unfold o_window, window. rewrite udiv_some by done. cbn [mbind option_bind].
  unfold XCLK_O_MIN, XCLK_O_MAX, CLOCK_DRIVER_DEFAULT_O_WINDOW. set (est := (f + target / 2) / target). clearbody est.
  set (e := if est <? 2 then 2 else if 511 <? est then 511 else est).
  assert (e = Z.max 2 (Z.min 511 est)) as <- by (unfold e; destruct (Z.ltb_spec est 2), (Z.ltb_spec 511 est); lia).
  assert (2 <= e <= 511) by (unfold e; destruct (Z.ltb_spec est 2), (Z.ltb_spec 511 est); lia). clearbody e.
  rewrite u32_small by (unfold is_u32; lia). do 2 f_equal.
  - destruct (Z.ltb_spec 6 e); cbn; [destruct (Z.ltb_spec (e - 6) 2)|]; lia.
  - destruct (Z.ltb_spec 511 (e + 6)); lia.
Qed.

Lemma candidate_of_some target no_exceed m d f o : o <> 0 ->
  candidate_of target no_exceed m d f o = Some (candidate target no_exceed m d f o).
Proof.
  intros Ho. unfold candidate_of, candidate. rewrite udiv_some by done. cbn [mbind option_bind].
  destruct (Z.ltb_spec target (f / o)); destruct no_exceed; cbn [andb]; try done; do 3 f_equal; lia.
Qed.

(** A loop whose body has a result on the range it runs over. *)
Lemma for_fold_total {A} (f : A -> Z -> option A) lo hi :
  (forall acc x, lo <= x <= hi -> is_Some (f acc x)) -> forall acc, is_Some (for_fold lo hi f acc).
Proof.
  intros Hf. unfold for_fold. assert (Hl : Forall (fun x => lo <= x <= hi) (seqZ lo (hi - lo + 1))).
  { apply Forall_forall. intros x Hx%elem_of_seqZ. lia. }
  induction Hl as [|x l Hx _ IH]; intros acc; [done|]. cbn. destruct (Hf acc x Hx) as [acc' ->]. apply IH.
Qed.

Lemma for_fold_some {A} (f : A -> Z -> option A) (g : A -> Z -> A) lo hi :
  (forall acc x, lo <= x <= hi -> f acc x = Some (g acc x)) -> forall acc,
  for_fold lo hi f acc = Some (foldl g acc (seqZ lo (hi - lo + 1))).
Proof.
  intros Hf. unfold for_fold. assert (Hl : Forall (fun x => lo <= x <= hi) (seqZ lo (hi - lo + 1))).
  { apply Forall_forall. intros x Hx%elem_of_seqZ. lia. }
  induction Hl as [|x l Hx _ IH]; intros acc; [done|]. cbn. by rewrite Hf, IH.
Qed.

(** The dividers of the window, whatever the oscillator. *)
Lemma try_window target max no_exceed m d f cands : target <> 0 ->
  (w ← o_window f target;
   for_fold w.1 w.2 (fun cands o =>
     candidate ← candidate_of target no_exceed m d f o;
     Some match candidate with
          | Some c => keep_candidate max cands c
          | None => cands
          end) cands) =
  Some (foldl (keep_candidate max) cands
    (omap (candidate target no_exceed m d f) (seqZ (window f target).1 ((window f target).2 - (window f target).1 + 1)))).
Proof.
  intros Ht. rewrite o_window_some by done. cbn [mbind option_bind]. rewrite <-foldl_omap.
  apply for_fold_some. intros acc o Ho. pose proof (window_bounds f target) as [Hlo _]. unfold XCLK_O_MIN in Hlo.
  by rewrite candidate_of_some by lia.
Qed.

(** The search divides by nothing that is 0, whatever it is asked. *)
Lemma generate_total prim target max no_exceed :
  is_Some (clock_driver_generate_candidates prim target max no_exceed).
Proof.
  unfold clock_driver_generate_candidates. destruct (Z.eqb_spec target 0) as [|Ht]; [done|]. cbn [orb].
  destruct (max =? 0)%nat; [done|]. set (scan := for_fold XCLK_M_MIN _ _ _).
  enough (is_Some scan) as Hscan by (clearbody scan; by destruct Hscan as [cands ->]).
  apply for_fold_total. intros acc m _. apply for_fold_total. intros acc' d Hd. unfold XCLK_D_MIN in Hd.
  unfold scan_divider. rewrite !udiv_some by lia. cbn [mbind option_bind].
  destruct (_ || _); [done|]. destruct (_ || _); [done|]. by rewrite (try_window target max no_exceed m d _ acc' Ht).
Qed.

Section search.
Context (prim target : Z) (max : nat) (no_exceed : bool).
Context (Hprim : is_u32 prim) (Htarget : 0 < target < 2 ^ 32) (Hmax : max <> 0%nat).

Lemma scan_divider_offers m cands d : XCLK_M_MIN <= m <= XCLK_M_MAX -> XCLK_D_MIN <= d ->
  scan_divider prim target max no_exceed m cands d =
  Some (foldl (keep_candidate max) cands (offered_by prim target no_exceed m d)).
Proof using Hprim Htarget.
  clear Hmax. intros Hm Hd. unfold XCLK_M_MIN, XCLK_M_MAX, XCLK_D_MIN, is_u32 in *. unfold scan_divider, offered_by, in_range.
  assert (u64 (prim * m) = prim * m) as -> by (unfold u64; rewrite Z.mod_small; [done|nia]).
  rewrite !udiv_some by lia. cbn [mbind option_bind]. set (f := prim * m / d). rewrite !Z.leb_antisym.
  destruct (f <? XCLK_VCO_MIN * XCLK_MHZ); [done|]. destruct (XCLK_VCO_MAX * XCLK_MHZ <? f); [done|]. cbn [orb andb negb].
  destruct (prim / d <? XCLK_PFD_MIN * XCLK_MHZ); [done|]. destruct (XCLK_PFD_MAX * XCLK_MHZ <? prim / d); [done|].
  cbn [orb andb negb]. apply try_window. lia.
Qed.

Lemma generate_exact :
  let cands := foldl (keep_candidate max) [] (offered prim target no_exceed) in
  clock_driver_generate_candidates prim target max no_exceed = Some (sort_rounds (length cands) cands).
Proof using Hprim Htarget Hmax.
  unfold clock_driver_generate_candidates. destruct (Z.eqb_spec target 0); [lia|]. destruct (Nat.eqb_spec max 0); [done|].
  cbn [orb]. unfold offered. rewrite <-foldl_mbind.
  rewrite (for_fold_some _ (fun acc m => foldl (keep_candidate max) acc
    (seqZ XCLK_D_MIN (XCLK_D_MAX - XCLK_D_MIN + 1) ≫= offered_by prim target no_exceed m))); [reflexivity|].
  intros acc m Hm. rewrite <-foldl_mbind. apply for_fold_some. intros acc' d [Hd _]. by apply scan_divider_offers.
Qed.

Lemma generate_best : exists l, clock_driver_generate_candidates prim target max no_exceed = Some l /\
  StronglySorted ranks l /\ best_of max (offered prim target no_exceed) l.
Proof using Hprim Htarget Hmax.
  rewrite generate_exact. cbv zeta. set (cands := foldl _ [] _). eexists. split; [reflexivity|].
  assert (Hb : best_of max ([] ++ offered prim target no_exceed) cands).
  { apply fold_best; [done|]. split; [cbn; lia|]. exists []. split; [done|]. by intros ? ? ?%not_elem_of_nil. }
  destruct (sort_rounds_spec (length cands) cands) as [Hp Hs]; [lia|]. split; [done|]. destruct Hb as (Hl & rest & Hperm & Hr).
  split; [by rewrite Hp|]. exists rest. split; [by rewrite Hp|]. intros x y Hx. apply Hr. by rewrite <-Hp.
Qed.

(** ** The window of output dividers *)

(** A divider outside the window is not closer to the target than the end of
    the window on its side, and exceeds the target when that does. *)
Lemma window_complete f o : 0 <= f -> XCLK_O_MIN <= o <= XCLK_O_MAX ->
  exists o', (window f target).1 <= o' <= (window f target).2 /\
    Z.abs (f / o' - target) <= Z.abs (f / o - target) /\ (f / o <= target -> f / o' <= target).
Proof using Htarget.
  clear Hmax Hprim. intros Hf Ho. unfold window, XCLK_O_MIN, XCLK_O_MAX, CLOCK_DRIVER_DEFAULT_O_WINDOW in *. cbn [fst snd].
  set (est := (f + target / 2) / target).
  assert (Hest : est * target <= f + target / 2 < (est + 1) * target).
  { pose proof (Z.mul_div_le (f + target / 2) target ltac:(lia)).
    pose proof (Z.mul_succ_div_gt (f + target / 2) target ltac:(lia)). unfold est. nia. }
  assert (Hhalf : 0 <= target / 2 <= target) by (split; [apply Z.div_pos; lia|apply Z.div_le_upper_bound; lia]).
  set (e := Z.max 2 (Z.min 511 est)).
  assert (He : 2 <= e <= 511 /\ (e = 2 \/ e <= est) /\ (e = 511 \/ est <= e)) by lia. clearbody e.
  set (lo := Z.max 2 (e - 6)). set (hi := Z.min 511 (e + 6)).
  assert (Hlo : 2 <= lo <= e /\ (lo = 2 \/ lo = e - 6)) by lia.
  assert (Hhi : e <= hi <= 511 /\ (hi = 511 \/ hi = e + 6)) by lia.
  clearbody lo hi. destruct (decide (o < lo)) as [Hl|Hl]; [|destruct (decide (hi < o)) as [Hh|Hh]].
  - exists lo. split; [lia|]. assert (lo = e - 6 /\ e <= est) as [-> He'] by lia.
    assert (target <= f / (e - 6)) by (apply Z.div_le_lower_bound; nia).
    assert (f / (e - 6) <= f / o) by (apply Z.div_le_compat_l; lia). lia.
  - exists hi. split; [lia|]. assert (hi = e + 6 /\ est <= e) as [-> He'] by lia.
    assert (f / (e + 6) < target) by (apply Z.div_lt_upper_bound; nia).
    assert (f / o <= f / (e + 6)) by (apply Z.div_le_compat_l; lia). lia.
  - exists o. lia.
Qed.

(** ** Soundness and completeness of the offers *)

(** The fields of a candidate say what its configuration gives. *)
Definition sound (c : clock_candidate) : Prop :=
  realisable prim (cand_m c) (cand_d c) (cand_o c) /\
  achieved_hz c = rate_of prim (cand_m c) (cand_d c) (cand_o c) /\
  diff_hz c = Z.abs (achieved_hz c - target) /\ (no_exceed = true -> achieved_hz c <= target).

Lemma candidate_spec m d o c : candidate target no_exceed m d (prim * m / d) o = Some c <->
  (no_exceed = true -> rate_of prim m d o <= target) /\
  c = {| diff_hz := Z.abs (rate_of prim m d o - target); achieved_hz := rate_of prim m d o;
         cand_m := m; cand_d := d; cand_o := o; fvco_hz := prim * m / d |}.
Proof using Type.
  clear Hmax Htarget Hprim. unfold candidate, rate_of. set (a := prim * m / d / o).
  destruct no_exceed; cbn [andb].
  - destruct (Z.ltb_spec target a); split; try done.
    + intros [Hle _]. specialize (Hle eq_refl). lia.
    + intros [= <-]. split; [lia|done].
    + by intros [_ ->].
  - split; [by intros [= <-]|by intros [_ ->]].
Qed.

Lemma vco_nonneg m d : XCLK_M_MIN <= m -> XCLK_D_MIN <= d -> 0 <= prim * m / d.
Proof using Hprim.
  clear Hmax Htarget. unfold XCLK_M_MIN, XCLK_D_MIN, is_u32 in *. intros. apply Z.div_pos; nia.
Qed.

Lemma elem_of_offered c : c ∈ offered prim target no_exceed <->
  exists m d, XCLK_M_MIN <= m <= XCLK_M_MAX /\ XCLK_D_MIN <= d <= XCLK_D_MAX /\ in_range prim m d = true /\
    exists o, (window (prim * m / d) target).1 <= o <= (window (prim * m / d) target).2 /\
      candidate target no_exceed m d (prim * m / d) o = Some c.
Proof using Type.
  clear Hmax Htarget Hprim. unfold offered. setoid_rewrite list_elem_of_bind. split.
  - intros (m & (d & Hc & Hd)%list_elem_of_bind & Hm). rewrite elem_of_seqZ in Hd, Hm. unfold offered_by in Hc.
    destruct (in_range prim m d) eqn:E; [|by apply not_elem_of_nil in Hc].
    apply list_elem_of_omap in Hc as (o & Ho%elem_of_seqZ & Hc). exists m, d.
    split; [lia|]. split; [lia|]. split; [done|]. exists o. split; [lia|done].
  - intros (m & d & Hm & Hd & Hr & o & Ho & Hc). exists m. split; [|apply elem_of_seqZ; lia].
    apply list_elem_of_bind. exists d. split; [|apply elem_of_seqZ; lia]. unfold offered_by. rewrite Hr.
    apply list_elem_of_omap. exists o. split; [apply elem_of_seqZ; lia|done].
Qed.

Lemma offered_sound c : c ∈ offered prim target no_exceed -> sound c.
Proof using Hprim Htarget.
  clear Hmax. intros (m & d & Hm & Hd & Hr & o & Ho & [Hle ->]%candidate_spec)%elem_of_offered. unfold sound. cbn.
  pose proof (window_bounds (prim * m / d) target).
  split; [|done]. repeat split; try lia. done.
Qed.

Lemma offered_complete m d o : realisable prim m d o -> (no_exceed = true -> rate_of prim m d o <= target) ->
  exists c, c ∈ offered prim target no_exceed /\ diff_hz c <= Z.abs (rate_of prim m d o - target).
Proof using Hprim Htarget.
  clear Hmax. intros (Hm & Hd & Ho & Hr) Hle.
  destruct (window_complete (prim * m / d) o (vco_nonneg m d ltac:(lia) ltac:(lia)) Ho) as (o' & Hw & Hab & Hx).
  eexists. split; [|instantiate (1 := {| diff_hz := Z.abs (rate_of prim m d o' - target); achieved_hz := rate_of prim m d o';
    cand_m := m; cand_d := d; cand_o := o'; fvco_hz := prim * m / d |}); exact Hab].
  apply elem_of_offered. exists m, d. split; [done|]. split; [done|]. split; [done|]. exists o'. split; [done|].
  apply candidate_spec. split; [|done]. intros Hne. apply Hx, Hle, Hne.
Qed.

Lemma generate_sound l : clock_driver_generate_candidates prim target max no_exceed = Some l -> Forall sound l.
Proof using Hprim Htarget Hmax.
  destruct generate_best as (? & -> & _ & _ & rest & Hp & _). intros [= ->]. apply Forall_forall. intros c Hc.
  apply offered_sound. rewrite Hp. apply elem_of_app. by left.
Qed.

(** C12: the search finds the best configuration.  It divides by nothing that is
    0, so there is a result: the candidates are sorted,
    they are the best [max] of all that the windows offer, each can be realised
    and carries the rate it gives, in round-down mode none is above the target,
    and the first is at least as close to the target as any configuration the
    hardware can realise (below the target in round-down mode); there is none
    only when no configuration can be realised. *)
Theorem search_optimal : exists l, clock_driver_generate_candidates prim target max no_exceed = Some l /\
  StronglySorted ranks l /\ best_of max (offered prim target no_exceed) l /\ Forall sound l /\
  forall m d o, realisable prim m d o -> (no_exceed = true -> rate_of prim m d o <= target) ->
    exists c, head l = Some c /\ diff_hz c <= Z.abs (rate_of prim m d o - target).
Proof using Hprim Htarget Hmax.
  destruct generate_best as (l & El & Hs & Hb). exists l. split; [done|]. split; [done|]. split; [done|].
  split; [by apply generate_sound|].
  intros m d o Hr Hle. destruct (offered_complete m d o Hr Hle) as (x & Hx & Hd).
  destruct Hb as (Hlen & rest & Hp & Hrest).
  destruct l as [|c l].
  - rewrite Hp in Hx. cbn in Hlen, Hx. apply list_elem_of_lookup in Hx as [k Hk%lookup_lt_Some].
    apply Permutation_length in Hp. cbn in Hp. lia.
  - exists c. split; [done|]. etrans; [|exact Hd]. apply ranks_diff. rewrite Hp in Hx.
    apply elem_of_app in Hx as [[->|Hx]%elem_of_cons|Hx]; [apply ranks_refl| |by apply Hrest; [left|]].
    apply StronglySorted_inv in Hs as [_ Hs]. rewrite Forall_forall in Hs. by apply Hs.
Qed.
End search.

(** The default reference and 250 MHz, which is hit exactly. *)
Lemma search_optimal_witness : exists l c,
  clock_driver_generate_candidates CLOCK_DRIVER_DEFAULT_PRIM_IN_HZ 250000000 50 true = Some l /\
  head l = Some c /\ diff_hz c <= 0.
Proof.
  destruct (search_optimal CLOCK_DRIVER_DEFAULT_PRIM_IN_HZ 250000000 50 true) as (l & El & _ & _ & _ & Hbest);
    [split; by vm_compute|split; by vm_compute|done|].
  destruct (Hbest 40 1 16) as (c & Hc & Hd); [repeat split; by vm_compute|by vm_compute|].
  exists l, c. split; [exact El|]. split; [exact Hc|exact Hd].
Defined.
