(* ===== verification/ClockTheorems.v ===== *)
(** * Programming the clock wizards

    Every register access of the driver is inside the mapped BAR, for any
    hardware; with a clock that advances, setting a rate returns.  On
    registers that hold what is written, reading back what was programmed
    gives the configuration, and a rate that is reported is the rate of a
    realisable configuration, at most the request in round-down mode.

    The lock bit is polled at the address of the divider counts of output 0,
    so on such registers the divider decides whether a configuration locks. *)

From S2P Require Import Prelude Except Clock ClockSearch.
From stdpp Require Import list sets.
Open Scope Z_scope.

(** ** Encodings *)

Lemma checked_range (P : Z -> bool) lo n : forallb P (seqZ lo n) = true -> forall z, lo <= z < lo + n -> P z = true.
Proof. rewrite forallb_forall. intros H z Hz. apply H, list_elem_of_In, elem_of_seqZ. lia. Qed.

(** The counts of a divider and its odd bit add up to it. *)
Lemma counts_roundtrip n : 0 <= n < 512 ->
  let counts := u32 (Z.lor (n / 2) (Z.shiftl (n / 2) 8)) in low_count counts + high_count counts = 2 * (n / 2).
Proof.
  intros Hn. cbv zeta. apply Z.eqb_eq.
  exact (checked_range (fun n => let c := u32 (Z.lor (n / 2) (Z.shiftl (n / 2) 8)) in low_count c + high_count c =? 2 * (n / 2))
    0 512 eq_refl n Hn).
Qed.

(** The output divider that is decoded is the one that was encoded. *)
Lemma leaf_roundtrip o : 1 <= o ->
  clock_wizard_decode_leaf (clock_wizard_encode_leaf o).1 (clock_wizard_encode_leaf o).2 = Z.min o XCLK_O_MAX.
Proof.
  intros Ho. assert (Hs : forall o, 1 <= o < 512 ->
    clock_wizard_decode_leaf (clock_wizard_encode_leaf o).1 (clock_wizard_encode_leaf o).2 = o).
  { intros x Hx. apply Z.eqb_eq. exact (checked_range (fun o => clock_wizard_decode_leaf (clock_wizard_encode_leaf o).1
      (clock_wizard_encode_leaf o).2 =? o) 1 511 eq_refl x Hx). }
  destruct (Z.ltb_spec XCLK_O_MAX o) as [Hlt|Hge].
  - rewrite Z.min_r by lia. rewrite <-(Hs XCLK_O_MAX) by (unfold XCLK_O_MAX; lia). unfold clock_wizard_encode_leaf.
    destruct (Z.ltb_spec XCLK_O_MAX o); [|lia]. by destruct (Z.ltb_spec XCLK_O_MAX XCLK_O_MAX); [lia|].
  - rewrite Z.min_l by lia. apply Hs. unfold XCLK_O_MAX in *. lia.
Qed.

(** The low bit of the counts of an output divider. *)
Lemma leaf_low_bit o : XCLK_O_MIN <= o <= XCLK_O_MAX ->
  negb (Z.land (clock_wizard_encode_leaf o).2 XCLK_WIZ_LOCK =? 0) = Z.odd (o / 4).
Proof.
  unfold XCLK_O_MIN, XCLK_O_MAX. intros Ho. apply eqb_prop.
  exact (checked_range (fun o => eqb (negb (Z.land (clock_wizard_encode_leaf o).2 XCLK_WIZ_LOCK =? 0)) (Z.odd (o / 4))) 2 510 eq_refl o
    ltac:(lia)).
Qed.

Lemma edge_roundtrip n : bit_of (Z.shiftl (n mod 2) 10) XCLK_WIZ_EDGE_MASK = n mod 2.
Proof. pose proof (Z.mod_pos_bound n 2 ltac:(lia)). assert (n mod 2 = 0 \/ n mod 2 = 1) as [-> | ->] by lia; done. Qed.

Lemma feedback_edge_roundtrip n :
  let reg := Z.lor (Z.lor XCLK_WIZ_REG1_PREDIV2 XCLK_WIZ_REG1_EN) XCLK_WIZ_REG1_MX in
  bit_of (if n mod 2 =? 0 then Z.ldiff reg (Z.shiftl 1 8) else Z.lor reg (Z.shiftl 1 8)) XCLK_WIZ_REG1_EDGE_MASK = n mod 2.
Proof. pose proof (Z.mod_pos_bound n 2 ltac:(lia)). assert (n mod 2 = 0 \/ n mod 2 = 1) as [-> | ->] by lia; done. Qed.

(** ** Access rules *)

(** The wizards and the registers the driver uses in them. *)
Definition wizard (off : Z) : Prop :=
  off = CLOCK_DRIVER_USER_REGION_WIZARD_OFFSET \/ off = CLOCK_DRIVER_SERVICE_REGION_WIZARD_OFFSET.

(** The register file of wizard [off] is mapped. *)
Definition mapped {W} (off : Z) (s : clock_driver W) : Prop :=
  regs_mapped s = true /\ off + XCLK_WIZ_REG26_OFFSET + 4 <= bar_len s.

Section access.
Context {W : Type} `{!Wizard W} {ub nf : Prop} (off : Z).
Implicit Types (s : clock_driver W) (X : clock_errno -> clock_driver W -> Prop).

Lemma ewp_r32 a s (Q : Z -> clock_driver W -> Prop) X : mapped off s ->
  0 <= a <= off + XCLK_WIZ_REG26_OFFSET -> a mod 4 = 0 ->
  Q (wz_read a (ck_hw s)).1 (set_ck_hw (wz_read a (ck_hw s)).2 s) -> ewp ub nf (clock_driver_r32 a) s Q X.
Proof.
  intros [Hm Hl] Ha Ha4 HQ. unfold clock_driver_r32. ewp_step. ewp_step. unfold id.
  assert (a / 4 * 4 = a) as -> by (pose proof (Z.div_mod a 4); lia). rewrite Hm.
  destruct (Z.leb_spec (a + 4) (bar_len s)); [|lia]. cbn [andb]. ewp_step. ewp_step. by ewp_step.
Qed.

Lemma ewp_w32 a v s (Q : unit -> clock_driver W -> Prop) X : mapped off s ->
  0 <= a <= off + XCLK_WIZ_REG26_OFFSET -> a mod 4 = 0 ->
  Q tt (set_ck_hw (wz_write a v (ck_hw s)) s) -> ewp ub nf (clock_driver_w32 a v) s Q X.
Proof.
  intros [Hm Hl] Ha Ha4 HQ. unfold clock_driver_w32. ewp_step. ewp_step. unfold id.
  assert (a / 4 * 4 = a) as -> by (pose proof (Z.div_mod a 4); lia). rewrite Hm.
  destruct (Z.leb_spec (a + 4) (bar_len s)); [|lia]. cbn [andb]. by ewp_step.
Qed.

Lemma ewp_gettime s (Q : Z * Z -> clock_driver W -> Prop) X :
  let s' := set_ck_hw (wz_gettime (ck_hw s)).2 s in
  (forall t, (wz_gettime (ck_hw s)).1 = Some t -> Q t s') -> X E_GETTIME s' -> ewp ub nf clock_gettime s Q X.
Proof.
  intros s' HQ HX. unfold clock_gettime. ewp_step. ewp_step. ewp_step. ewp_step. unfold id. fold s'.
  destruct (wz_gettime (ck_hw s)).1 as [t|]; ewp_step; auto.
Qed.
End access.

Lemma reg_addr off r : wizard off -> 0 <= r <= XCLK_WIZ_REG26_OFFSET -> clock_driver_reg off r = off + r.
Proof.
  unfold wizard, CLOCK_DRIVER_USER_REGION_WIZARD_OFFSET, CLOCK_DRIVER_SERVICE_REGION_WIZARD_OFFSET, XCLK_WIZ_REG26_OFFSET.
  intros Ho Hr. unfold clock_driver_reg, add32. apply u32_small. unfold is_u32. lia.
Qed.

(** The counts of output 0 are at the address of the status register. *)
Lemma leaf_addr off : wizard off ->
  clock_driver_reg off (clock_wizard_leaf_offset CLOCK_DRIVER_WIZARD_CLKOUT_ID) = clock_driver_reg off XCLK_WIZ_REG3_OFFSET /\
  add32 (clock_driver_reg off (clock_wizard_leaf_offset CLOCK_DRIVER_WIZARD_CLKOUT_ID)) 4 = clock_driver_reg off XCLK_WIZ_REG4_OFFSET.
Proof. by intros [-> | ->]. Qed.

(** A register offset of a wizard. *)
Definition reg_offset (r : Z) : bool := (0 <=? r) && (r <=? XCLK_WIZ_REG26_OFFSET) && (r mod 4 =? 0).

Section access_reg.
Context {W : Type} `{!Wizard W} {ub nf : Prop} (off : Z) (Hoff : wizard off).
Implicit Types (s : clock_driver W) (X : clock_errno -> clock_driver W -> Prop).

Lemma reg_ok r : reg_offset r = true ->
  clock_driver_reg off r = off + r /\ 0 <= off + r <= off + XCLK_WIZ_REG26_OFFSET /\ (off + r) mod 4 = 0.
Proof using Hoff.
  unfold reg_offset. intros H. assert (0 <= off /\ off mod 4 = 0) as [H0 H4] by (by destruct Hoff as [-> | ->]).
  split; [apply reg_addr; [done|lia]|]. split; [lia|]. rewrite Z.add_mod, H4 by lia. assert (r mod 4 = 0) as -> by lia. done.
Qed.

Lemma ewp_reg_r32 r s (Q : Z -> clock_driver W -> Prop) X : mapped off s -> reg_offset r = true ->
  Q (wz_read (off + r) (ck_hw s)).1 (set_ck_hw (wz_read (off + r) (ck_hw s)).2 s) ->
  ewp ub nf (clock_driver_r32 (clock_driver_reg off r)) s Q X.
Proof using Hoff. intros Hm Hr HQ. destruct (reg_ok r Hr) as (-> & Ha & H4). by apply (ewp_r32 off). Qed.

Lemma ewp_reg_w32 r v s (Q : unit -> clock_driver W -> Prop) X : mapped off s -> reg_offset r = true ->
  Q tt (set_ck_hw (wz_write (off + r) v (ck_hw s)) s) ->
  ewp ub nf (clock_driver_w32 (clock_driver_reg off r) v) s Q X.
Proof using Hoff. intros Hm Hr HQ. destruct (reg_ok r Hr) as (-> & Ha & H4). by apply (ewp_w32 off). Qed.
End access_reg.

(** ** Memory safety and termination *)

(** [if (div == 0) div = 1;] *)
Lemma guarded_divisor z : (if z =? 0 then 1 else z) <> 0.
Proof. by destruct (Z.eqb_spec z 0). Qed.

(** [s'] differs from [s] in the hardware only. *)
Definition hw_only {W} (s s' : clock_driver W) : Prop := exists w, s' = set_ck_hw w s.

#[export] Instance hw_only_preorder {W} : PreOrder (@hw_only W).
Proof.
  split; [intros [w ? ? ? ? ? ? ?]; by exists w|]. intros s1 s2 s3 [w ->] [w' ->]. by exists w'.
Qed.

Lemma hw_only_mapped {W} off (s s' : clock_driver W) : hw_only s s' -> mapped off s -> mapped off s'.
Proof. by intros [w ->]. Qed.

(** [s'] differs from [s] in the hardware only, of which [P] holds. *)
Definition polled {W} (P : W -> Prop) (s s' : clock_driver W) : Prop := hw_only s s' /\ P (ck_hw s').

Section safety.
Context {W : Type} `{!Wizard W} {ub nf : Prop} (off : Z) (Hoff : wizard off) (P : W -> Prop).
Implicit Types (s : clock_driver W) (X : clock_errno -> clock_driver W -> Prop).

(** [m] stays inside the register file of the wizard, changes only the
    hardware, keeps [P], and does not throw. *)
Definition local {A} (m : EM clock_errno (clock_driver W) A) : Prop :=
  forall s X, mapped off s -> P (ck_hw s) -> ewp ub nf m s (fun _ s' => polled P s s') X.

Lemma local_bind {A B} (m : EM clock_errno (clock_driver W) A) (k : A -> EM clock_errno (clock_driver W) B) :
  local m -> (forall a, local (k a)) -> local (m ≫= k).
Proof using Type.
  intros Hm Hk s X Hs HP. ewp_step. eapply ewp_mono; [by apply Hm| |done]. intros a s' [H1 HP1].
  eapply ewp_mono; [by apply Hk; [apply (hw_only_mapped off s s' H1 Hs)|]| |done]. intros b s2 [H2 HP2].
  split; [etrans; [exact H1|exact H2]|done].
Qed.

Lemma local_ret {A} (a : A) : local (mret a).
Proof using Type. intros s X _ HP. ewp_step. split; [reflexivity|done]. Qed.

Lemma local_asks {A} (f : clock_driver W -> A) : local (asks f).
Proof using Type. intros s X _ HP. ewp_step. split; [reflexivity|done]. Qed.

(** A division whose divisor was replaced by 1 where it is 0. *)
Lemma local_udiv a b : b <> 0 -> local (defined (udiv a b)).
Proof using Type. intros Hb. rewrite udiv_some by done. apply local_ret. Qed.

Lemma local_r32 r : (forall a w, P w -> P (wz_read a w).2) -> reg_offset r = true ->
  local (clock_driver_r32 (clock_driver_reg off r)).
Proof using Hoff. intros HPr Hr s X Hs HP. apply ewp_reg_r32; [done..|]. split; [by eexists|by apply HPr]. Qed.

Lemma local_w32 r v : (forall a v w, P w -> P (wz_write a v w)) -> reg_offset r = true ->
  local (clock_driver_w32 (clock_driver_reg off r) v).
Proof using Hoff. intros HPw Hr s X Hs HP. apply ewp_reg_w32; [done..|]. split; [by eexists|by apply HPw]. Qed.

Lemma local_each {A} (l : list A) (body : A -> EM clock_errno (clock_driver W) unit) :
  Forall (fun x => local (body x)) l -> local (each l body).
Proof using Type. induction 1; [apply local_ret|]. by apply local_bind. Qed.
End safety.

Ltac local_step := first
  [ apply local_r32; done | apply local_w32; done | apply local_ret | apply local_asks
  | apply local_udiv; apply guarded_divisor | apply local_bind; [|intros ?] | progress cbv zeta ].

Section reads.
Context {W : Type} `{!Wizard W} {ub nf : Prop} (off : Z) (Hoff : wizard off).
Context (P : W -> Prop) (HP : forall a w, P w -> P (wz_read a w).2).
Abbreviation local m := (local (ub := ub) (nf := nf) off P m).

Lemma local_get_vco : local (clock_driver_get_vco_hz off).
Proof using Hoff HP. unfold clock_driver_get_vco_hz. repeat local_step. Qed.

Lemma local_get_rate : local (clock_driver_get_rate_hz off CLOCK_DRIVER_WIZARD_CLKOUT_ID).
Proof using Hoff HP.
  unfold clock_driver_get_rate_hz. destruct (leaf_addr off Hoff) as [-> _]. apply local_bind; [apply local_get_vco|intros f].
  cbv zeta. replace (add32 (clock_driver_reg off XCLK_WIZ_REG3_OFFSET) 4) with (clock_driver_reg off XCLK_WIZ_REG4_OFFSET)
    by (by destruct Hoff as [-> | ->]). repeat local_step.
Qed.

Lemma local_log_state : local (clock_driver_log_state off CLOCK_DRIVER_WIZARD_CLKOUT_ID).
Proof using Hoff HP.
  unfold clock_driver_log_state. cbv zeta. replace (add32 (clock_driver_reg off _) 4) with (clock_driver_reg off XCLK_WIZ_REG4_OFFSET)
    by (by destruct Hoff as [-> | ->]).
  apply local_bind; [|intros ?; apply local_bind; [apply local_get_vco|intros ?; apply local_bind; [apply local_get_rate|intros ?; apply local_ret]]].
  apply local_each. repeat constructor; repeat local_step.
Qed.
End reads.

(** A monotonic clock in nanoseconds: no call sets it back or takes longer
    than [slack], and [usleep(100)] takes at least 100 microseconds. *)
Definition slack : Z := 10 ^ 15.

Class Ticking (W : Type) `{!Wizard W} := {
  now : W -> Z;
  tick_gettime w : (wz_gettime w).1 = Some (now w / 10 ^ 9, now w mod 10 ^ 9);
  tick_gettime_now w : now w <= now (wz_gettime w).2 <= now w + slack;
  tick_read a w : now w <= now (wz_read a w).2 <= now w + slack;
  tick_usleep w : now w + 100000 <= now (wz_usleep w) <= now w + slack
}.

(** The polls within the lock timeout, and the one that ends it. *)
Definition lock_polls : nat := 2011.

Lemma elapsed_split t0 t : t0 <= t < t0 + 10 ^ 18 ->
  elapsed_ms (t0 / 10 ^ 9, t0 mod 10 ^ 9) (t / 10 ^ 9, t mod 10 ^ 9) = (t - t0) / 10 ^ 6.
Proof.
  intros Ht. unfold elapsed_ms, add64, u64. cbn [fst snd].
  pose proof (Z.div_mod t0 (10 ^ 9) ltac:(lia)). pose proof (Z.mod_pos_bound t0 (10 ^ 9) ltac:(lia)).
  pose proof (Z.div_mod t (10 ^ 9) ltac:(lia)). pose proof (Z.mod_pos_bound t (10 ^ 9) ltac:(lia)).
  set (q0 := t0 / 10 ^ 9) in *. set (q := t / 10 ^ 9) in *. set (r0 := t0 mod 10 ^ 9) in *. set (r := t mod 10 ^ 9) in *.
  clearbody q0 q r0 r.
  set (sec := if r - r0 <? 0 then q - q0 - 1 else q - q0).
  set (ns := if r - r0 <? 0 then r - r0 + 1000000000 else r - r0).
  assert (0 <= ns < 10 ^ 9 /\ t - t0 = 10 ^ 9 * sec + ns /\ 0 <= sec <= 10 ^ 9) as (Hns & Hs & Hsec).
  { unfold sec, ns. destruct (Z.ltb_spec (r - r0) 0); lia. }
  clearbody sec ns. rewrite !(Z.mod_small sec), !(Z.mod_small ns), (Z.mod_small (sec * 1000)) by lia.
  rewrite Hs. replace (10 ^ 9 * sec + ns) with (sec * 1000 * 10 ^ 6 + ns) by lia. rewrite Z.div_add_l by lia.
  change 1000000 with (10 ^ 6). pose proof (Z.div_lt_upper_bound ns (10 ^ 6) 1000 ltac:(lia) ltac:(lia)).
  pose proof (Z.div_pos ns (10 ^ 6) ltac:(lia) ltac:(lia)). apply Z.mod_small. lia.
Qed.

Section run.
Context {W : Type} `{!Wizard W} (off : Z) (Hoff : wizard off).
Implicit Types (s : clock_driver W).

(** Waiting for lock: one poll. *)
Lemma ewp_lock_loop {ub nf : Prop} fuel timeout start s (Q : unit -> clock_driver W -> Prop) X : mapped off s ->
  let a := off + XCLK_WIZ_REG4_OFFSET in
  let s1 := set_ck_hw (wz_read a (ck_hw s)).2 s in
  let s2 := set_ck_hw (wz_gettime (ck_hw s1)).2 s1 in
  let s3 := set_ck_hw (wz_usleep (ck_hw s2)) s2 in
  (Z.land (wz_read a (ck_hw s)).1 XCLK_WIZ_LOCK <> 0 -> Q tt s1) ->
  (Z.land (wz_read a (ck_hw s)).1 XCLK_WIZ_LOCK = 0 ->
     X E_GETTIME s2 /\
     forall t, (wz_gettime (ck_hw s1)).1 = Some t ->
       (timeout < elapsed_ms start t -> X E_TIMEDOUT s2) /\
       (elapsed_ms start t <= timeout -> ewp ub nf (lock_loop fuel off timeout start) s3 Q X)) ->
  ewp ub nf (lock_loop (S fuel) off timeout start) s Q X.
Proof using Hoff.
  intros Hm a s1 s2 s3 Hlock Hwait. cbn [lock_loop]. ewp_step. apply ewp_reg_r32; [done..|]. fold a s1.
  destruct (Z.eqb_spec (Z.land (wz_read a (ck_hw s)).1 XCLK_WIZ_LOCK) 0) as [E|E]; cbn [negb]; [|ewp_step; auto].
  destruct (Hwait E) as [Hx Ht]. ewp_step. apply ewp_gettime; [|done]. intros t Et. destruct (Ht t Et) as [H1 H2].
  ewp_step. ewp_step; [apply H1; lia|]. ewp_step. ewp_step. apply H2. lia.
Qed.

(** A fact [P] of the hardware that polling keeps, and what [R] the lock bit is
    under it. *)
Record steady (P : W -> Prop) (R : bool -> Prop) : Prop := {
  steady_read w : P w -> P (wz_read (off + XCLK_WIZ_REG4_OFFSET) w).2;
  steady_gettime w : P w -> P (wz_gettime w).2;
  steady_usleep w : P w -> P (wz_usleep w);
  steady_bit w : P w -> R (negb (Z.land (wz_read (off + XCLK_WIZ_REG4_OFFSET) w).1 XCLK_WIZ_LOCK =? 0))
}.

Section polling.
Context (P : W -> Prop) (R : bool -> Prop) (HP : steady P R).

Abbreviation polled := (polled P).

Lemma polled_trans w s s' : polled (set_ck_hw w s) s' -> polled s s'.
Proof using Type. intros [[w' ->] H]. split; [by exists w'|exact H]. Qed.

Lemma steady_locked s : P (ck_hw s) ->
  Z.land (wz_read (off + XCLK_WIZ_REG4_OFFSET) (ck_hw s)).1 XCLK_WIZ_LOCK <> 0 -> R true.
Proof using HP. intros Hs E. pose proof (steady_bit _ _ HP _ Hs) as H. by rewrite (proj2 (Z.eqb_neq _ _) E) in H. Qed.

Lemma steady_unlocked s : P (ck_hw s) ->
  Z.land (wz_read (off + XCLK_WIZ_REG4_OFFSET) (ck_hw s)).1 XCLK_WIZ_LOCK = 0 -> R false.
Proof using HP. intros Hs E. pose proof (steady_bit _ _ HP _ Hs) as H. by rewrite E in H. Qed.

Lemma lock_loop_safe fuel timeout start : forall s, mapped off s -> P (ck_hw s) ->
  ewp False True (lock_loop fuel off timeout start) s (fun _ s' => polled s s' /\ R true) (fun _ => polled s).
Proof using Hoff HP.
  induction fuel as [|fuel IH]; intros s Hs HPs; [done|].
  pose proof (steady_read _ _ HP _ HPs) as H1. pose proof (steady_gettime _ _ HP _ H1) as H2.
  apply ewp_lock_loop; [done|intros E; split; [split; [by eexists|done]|by eapply steady_locked]|]. intros _.
  split; [split; [by eexists|done]|]. intros t _. split; [split; [by eexists|done]|]. intros _.
  eapply ewp_mono; [apply IH; [done|by apply (steady_usleep _ _ HP)]| |]; cbn beta.
  - intros _ s' [H ?]. split; [|done]. by eapply polled_trans.
  - intros _ s' H. by eapply polled_trans.
Qed.

Lemma lock_loop_total `{!Ticking W} fuel t0 : forall s, mapped off s -> P (ck_hw s) ->
  t0 <= now (ck_hw s) <= t0 + 201 * 10 ^ 6 + 2 * slack ->
  201 * 10 ^ 6 <= now (ck_hw s) - t0 + (Z.of_nat fuel - 1) * 100000 -> fuel <> 0%nat ->
  ewp False False (lock_loop fuel off CLOCK_DRIVER_DEFAULT_LOCK_TIMEOUT_MS (t0 / 10 ^ 9, t0 mod 10 ^ 9)) s
    (fun _ s' => polled s s' /\ R true) (fun _ s' => polled s s' /\ R false).
Proof using Hoff HP.
  induction fuel as [|fuel IH]; intros s Hs HPs Ht Hf H0; [done|].
  pose proof (steady_read _ _ HP _ HPs) as H1. pose proof (steady_gettime _ _ HP _ H1) as H2.
  apply ewp_lock_loop; [done|intros E; split; [split; [by eexists|done]|by eapply steady_locked]|]. intros E.
  pose proof (steady_unlocked s HPs E) as HR.
  split; [split; [split; [by eexists|done]|done]|]. cbn [ck_hw set_ck_hw]. set (w1 := (wz_read _ (ck_hw s)).2) in *.
  assert (Hw1 : now (ck_hw s) <= now w1 <= now (ck_hw s) + slack) by apply tick_read. intros t. rewrite tick_gettime. intros [= <-].
  unfold slack in *. rewrite elapsed_split by lia. split; [split; [split; [by eexists|done]|done]|]. intros He.
  assert (now w1 - t0 < 201 * 10 ^ 6).
  { unfold CLOCK_DRIVER_DEFAULT_LOCK_TIMEOUT_MS in He. pose proof (Z.mul_succ_div_gt (now w1 - t0) (10 ^ 6) ltac:(lia)). lia. }
  pose proof (tick_gettime_now w1). pose proof (tick_usleep (wz_gettime w1).2). unfold slack in *.
  eapply ewp_mono; [apply IH; cbn [ck_hw set_ck_hw]; [done|by apply (steady_usleep _ _ HP)|lia|lia|lia]| |]; cbn beta;
    intros _ s' [Hp ?]; (split; [by eapply polled_trans|done]).
Qed.

(** Waiting stays inside the registers and keeps [P]; [nf] says whether it may
    exhaust its polls or lack a clock. *)
Definition waits (nf : Prop) (fuel : nat) : Prop := forall s, mapped off s -> P (ck_hw s) ->
  ewp False nf (clock_driver_wait_for_lock fuel off CLOCK_DRIVER_DEFAULT_LOCK_TIMEOUT_MS) s
    (fun _ s' => polled s s' /\ R true) (fun _ s' => polled s s' /\ (nf \/ R false)).

Lemma waits_safe fuel : waits True fuel.
Proof using Hoff HP.
  intros s Hs HPs. pose proof (steady_gettime _ _ HP _ HPs) as H1. unfold clock_driver_wait_for_lock. ewp_step.
  apply ewp_gettime; [|split; [split; [by eexists|done]|by left]]. intros t _.
  eapply ewp_mono; [by apply lock_loop_safe| |]; cbn beta.
  - intros _ s' [H ?]. split; [|done]. by eapply polled_trans.
  - intros _ s' H. split; [by eapply polled_trans|by left].
Qed.

Lemma waits_total `{!Ticking W} fuel : (lock_polls <= fuel)%nat -> waits False fuel.
Proof using Hoff HP.
  unfold lock_polls. intros Hf s Hs HPs. pose proof (steady_gettime _ _ HP _ HPs) as H1.
  unfold clock_driver_wait_for_lock, clock_gettime. do 3 ewp_step. unfold id. do 2 ewp_step.
  rewrite tick_gettime. ewp_step. pose proof (tick_gettime_now (ck_hw s)). unfold slack in *.
  eapply ewp_mono; [apply lock_loop_total; cbn [ck_hw set_ck_hw]; [done|done|unfold slack; lia|lia|lia]| |]; cbn beta;
    intros _ s' [H' ?]; (split; [by eapply polled_trans|auto]).
Qed.
End polling.

Section configured.
Context {nf : Prop} (fuel : nat) (Hwaits : waits (fun _ => True) (fun _ => True) nf fuel).

Lemma local_program : local (ub := False) (nf := nf) off (fun _ => True)
  (clock_driver_program_mdo_and_reconfig fuel off CLOCK_DRIVER_WIZARD_CLKOUT_ID CLOCK_DRIVER_DEFAULT_LOCK_TIMEOUT_MS).
Proof using Hoff Hwaits.
  unfold clock_driver_program_mdo_and_reconfig, clock_driver_update_o, clock_driver_update_d, clock_driver_update_m,
    clock_driver_program_common_tail, clock_driver_trigger_reconfig. destruct (leaf_addr off Hoff) as [-> ->].
  do 6 (apply local_bind; [repeat local_step|intros ?]). apply local_bind.
  - intros s X Hs _. specialize (Hwaits s Hs I). unfold ewp, post in *.
    by destruct (clock_driver_wait_for_lock fuel off _ s) as [[] s'| |]; try apply Hwaits.
  - intros [|]; [|apply local_ret]. apply local_bind; [by apply local_get_rate|intros ?; apply local_ret].
Qed.

(** What a call leaves alone besides the hardware and the divisors. *)
Definition same_driver (s s' : clock_driver W) : Prop :=
  regs_mapped s' = regs_mapped s /\ bar_len s' = bar_len s /\ prim_in_hz s' = prim_in_hz s.

Lemma try_candidates_safe cands : forall s, mapped off s ->
  ewp False nf (try_candidates fuel off CLOCK_DRIVER_WIZARD_CLKOUT_ID cands) s
    (fun _ => same_driver s) (fun _ => same_driver s).
Proof using Hoff Hwaits.
  induction cands as [|c cands IH]; intros s Hs; cbn [try_candidates]; [by ewp_step|].
  ewp_step. ewp_step. ewp_step. eapply ewp_mono; [by apply (local_log_state off Hoff (fun _ => True))| |intros ? ? Hx; exact Hx]. intros _ s1 [[w1 ->] _].
  ewp_step. eapply ewp_mono; [by apply local_program| |intros ? ? Hx; exact Hx]. intros r s2 [[w2 ->] _].
  ewp_step. eapply ewp_mono; [by apply (local_log_state off Hoff (fun _ => True))| |intros ? ? Hx; exact Hx]. intros _ s3 [[w3 ->] _].
  destruct r; [by ewp_step|]. eapply ewp_mono; [by apply IH| |]; by intros ? s' (? & ? & ?).
Qed.

Lemma set_region_safe rate no_exceed s :
  ewp False nf (set_region_rate_hz fuel off rate no_exceed) s (fun _ => same_driver s) (fun _ => same_driver s).
Proof using Hoff Hwaits.
  unfold set_region_rate_hz, clock_driver_check_wizard_bounds, clock_driver_check_bounds, clock_driver_try_set_rate_hz.
  ewp_step. ewp_step. ewp_step. unfold id. ewp_step. ewp_step; [done|]. ewp_step; [done|].
  ewp_step. ewp_step; [done|]. ewp_step. ewp_step. ewp_step.
  destruct (generate_total (prim_in_hz s) rate CLOCK_DRIVER_DEFAULT_MAX_CANDIDATES no_exceed) as [cands Ecands].
  apply (ewp_defined _ _ _ _ _ Ecands). ewp_step. ewp_step; [done|].
  apply try_candidates_safe. split; [by destruct (regs_mapped s)|]. rewrite reg_addr in * by (done || by vm_compute). lia.
Qed.
End configured.

Lemma get_region_safe s : ewp False False (get_region_rate_hz off) s (fun _ => hw_only s) (fun _ s' => s' = s).
Proof using Hoff.
  unfold get_region_rate_hz, clock_driver_check_wizard_bounds, clock_driver_check_bounds.
  ewp_step. ewp_step. ewp_step. unfold id. ewp_step. ewp_step; [done|]. ewp_step; [done|]. ewp_step.
  eapply ewp_mono; [apply (local_get_rate off Hoff (fun _ => True)); [done| |done]| |].
  - split; [by destruct (regs_mapped s)|]. rewrite reg_addr in * by (done || by vm_compute). lia.
  - intros r s' [Hs _]. by ewp_step.
  - intros ? ? Hx. exact Hx.
Qed.
End run.

(** ** What is programmed *)

(** The registers of a wizard that hold a configuration. *)
Definition config_regs : list Z :=
  [XCLK_WIZ_REG1_OFFSET; XCLK_WIZ_REG2_OFFSET; XCLK_WIZ_REG3_OFFSET; XCLK_WIZ_REG4_OFFSET; XCLK_WIZ_REG12_OFFSET; XCLK_WIZ_REG13_OFFSET].

(** Hardware whose configuration registers hold what was written last: only a
    write to a register changes it. *)
Class Holds (W : Type) `{!Wizard W} := {
  contents : W -> Z -> Z;
  holds_read off r w : wizard off -> r ∈ config_regs -> (wz_read (off + r) w).1 = contents w (off + r);
  holds_read_keeps off r a w : wizard off -> r ∈ config_regs -> contents (wz_read a w).2 (off + r) = contents w (off + r);
  holds_write off r a v w : wizard off -> r ∈ config_regs ->
    contents (wz_write a v w) (off + r) = if a =? off + r then v else contents w (off + r);
  holds_gettime off r w : wizard off -> r ∈ config_regs -> contents (wz_gettime w).2 (off + r) = contents w (off + r);
  holds_usleep off r w : wizard off -> r ∈ config_regs -> contents (wz_usleep w) (off + r) = contents w (off + r)
}.

(** The values the driver writes for a configuration. *)
Definition config_value (m d o r : Z) : Z :=
  if r =? XCLK_WIZ_REG1_OFFSET then
    let reg := Z.lor (Z.lor XCLK_WIZ_REG1_PREDIV2 XCLK_WIZ_REG1_EN) XCLK_WIZ_REG1_MX in
    if m mod 2 =? 0 then Z.ldiff reg (Z.shiftl 1 8) else Z.lor reg (Z.shiftl 1 8)
  else if r =? XCLK_WIZ_REG2_OFFSET then u32 (Z.lor (m / 2) (Z.shiftl (m / 2) 8))
  else if r =? XCLK_WIZ_REG3_OFFSET then (clock_wizard_encode_leaf o).1
  else if r =? XCLK_WIZ_REG4_OFFSET then (clock_wizard_encode_leaf o).2
  else if r =? XCLK_WIZ_REG12_OFFSET then Z.shiftl (d mod 2) 10
  else u32 (Z.lor (d / 2) (Z.shiftl (d / 2) 8)).

Lemma config_multiplier m d o : 0 <= m < 512 ->
  low_count (config_value m d o XCLK_WIZ_REG2_OFFSET) + high_count (config_value m d o XCLK_WIZ_REG2_OFFSET) +
  bit_of (config_value m d o XCLK_WIZ_REG1_OFFSET) XCLK_WIZ_REG1_EDGE_MASK = m.
Proof.
  intros Hm. pose proof (Z.div_mod m 2 ltac:(lia)) as E. pose proof (counts_roundtrip m Hm) as H. cbv zeta in H.
  pose proof (feedback_edge_roundtrip m) as H'. cbv zeta in H'. unfold config_value. cbn [Z.eqb Pos.eqb]. cbv zeta.
  etrans; [exact (f_equal2 Z.add H H')|lia].
Qed.

Lemma config_divider m d o : 0 <= d < 512 ->
  low_count (config_value m d o XCLK_WIZ_REG13_OFFSET) + high_count (config_value m d o XCLK_WIZ_REG13_OFFSET) +
  bit_of (config_value m d o XCLK_WIZ_REG12_OFFSET) XCLK_WIZ_EDGE_MASK = d.
Proof.
  intros Hd. pose proof (Z.div_mod d 2 ltac:(lia)) as E. pose proof (counts_roundtrip d Hd) as H. cbv zeta in H.
  pose proof (edge_roundtrip d) as H'. etrans; [exact (f_equal2 Z.add H H')|lia].
Qed.

(** The candidates of a request; the search has a result, see [generate_total]. *)
Abbreviation offers rate no_exceed s :=
  (default [] (clock_driver_generate_candidates (prim_in_hz s) rate CLOCK_DRIVER_DEFAULT_MAX_CANDIDATES no_exceed)).

(** Whether the lock bit reads 1 for a configuration. *)
Definition locks (c : clock_candidate) : bool := Z.odd (cand_o c / 4).

Section programmed.
Context {W : Type} `{!Wizard W} `{!Holds W} (off : Z) (Hoff : wizard off).
Implicit Types (s : clock_driver W).

Definition programmed (m d o : Z) (w : W) : Prop :=
  forall r, r ∈ config_regs -> contents w (off + r) = config_value m d o r.

Lemma programmed_read m d o a w : programmed m d o w -> programmed m d o (wz_read a w).2.
Proof using Hoff. intros H r Hr. rewrite holds_read_keeps by done. auto. Qed.

Lemma programmed_steady m d o : XCLK_O_MIN <= o <= XCLK_O_MAX ->
  steady off (programmed m d o) (fun b => b = Z.odd (o / 4)).
Proof using Hoff.
  intros Ho. split.
  - intros w. apply programmed_read.
  - intros w H r Hr. rewrite holds_gettime by done. auto.
  - intros w H r Hr. rewrite holds_usleep by done. auto.
  - intros w H. rewrite <-leaf_low_bit, holds_read, H by (done || set_solver). done.
Qed.

Lemma ewp_config_r32 {ub nf : Prop} m d o r s (Q : Z -> clock_driver W -> Prop) X : mapped off s -> r ∈ config_regs ->
  programmed m d o (ck_hw s) ->
  (forall w, programmed m d o w -> Q (config_value m d o r) (set_ck_hw w s)) ->
  ewp ub nf (clock_driver_r32 (clock_driver_reg off r)) s Q X.
Proof using Hoff.
  intros Hs Hr Hp HQ. assert (reg_offset r = true) by (unfold config_regs in Hr; set_unfold; naive_solver).
  apply ewp_reg_r32; [done..|]. rewrite holds_read, Hp by done. by apply HQ, programmed_read.
Qed.

(** Reading the rate of a configuration that is programmed. *)
Lemma get_rate_programmed {ub nf : Prop} m d o s X : realisable (prim_in_hz s) m d o -> mapped off s ->
  is_u64 (prim_in_hz s * m) -> programmed m d o (ck_hw s) ->
  ewp ub nf (clock_driver_get_rate_hz off CLOCK_DRIVER_WIZARD_CLKOUT_ID) s
    (fun r s' => r = rate_of (prim_in_hz s) m d o /\ exists w, s' = set_ck_hw w s /\ programmed m d o w) X.
Proof using Hoff.
  intros (Hm & Hd & Ho & _) Hs H64 Hp. unfold XCLK_M_MIN, XCLK_M_MAX, XCLK_D_MIN, XCLK_D_MAX, XCLK_O_MIN, XCLK_O_MAX in *.
  unfold clock_driver_get_rate_hz, clock_driver_get_vco_hz. cbv zeta.
  destruct (leaf_addr off Hoff) as [-> _].
  replace (add32 (clock_driver_reg off XCLK_WIZ_REG3_OFFSET) 4) with (clock_driver_reg off XCLK_WIZ_REG4_OFFSET)
    by (by destruct Hoff as [-> | ->]).
  ewp_step.
  ewp_step. apply (ewp_config_r32 m d o); [done|set_solver|done|]. intros w1 Hw1.
  ewp_step. apply (ewp_config_r32 m d o); [done|set_solver|done|]. intros w2 Hw2.
  ewp_step. apply (ewp_config_r32 m d o); [done|set_solver|done|]. intros w3 Hw3.
  ewp_step. apply (ewp_config_r32 m d o); [done|set_solver|done|]. intros w4 Hw4.
  ewp_step. ewp_step. rewrite config_multiplier, config_divider by lia. rewrite !(proj2 (Z.eqb_neq _ _)) by lia.
  change (prim_in_hz (set_ck_hw w4 _)) with (prim_in_hz s). unfold u64. rewrite Z.mod_small by exact H64.
  apply (ewp_defined _ _ _ _ _ (udiv_some _ d ltac:(lia))).
  ewp_step. apply (ewp_config_r32 m d o); [done|set_solver|done|]. intros w5 Hw5.
  ewp_step. apply (ewp_config_r32 m d o); [done|set_solver|done|]. intros w6 Hw6.
  assert (Hleaf : clock_wizard_decode_leaf (config_value m d o XCLK_WIZ_REG3_OFFSET) (config_value m d o XCLK_WIZ_REG4_OFFSET) = o).
  { etrans; [exact (leaf_roundtrip o ltac:(lia))|unfold XCLK_O_MAX; lia]. }
  rewrite Hleaf. apply (ewp_defined _ _ _ _ _ (udiv_some _ o ltac:(lia))). by split; [|exists w6].
Qed.

(** One write to a register. *)
Definition written (r v : Z) (w w' : W) : Prop :=
  forall r', r' ∈ config_regs -> contents w' (off + r') = if r =? r' then v else contents w (off + r').

Lemma ewp_written {ub nf : Prop} r v w s (Q : unit -> clock_driver W -> Prop) X : mapped off s -> reg_offset r = true ->
  (forall w', written r v w w' -> Q tt (set_ck_hw w' s)) ->
  ewp ub nf (clock_driver_w32 (clock_driver_reg off r) v) (set_ck_hw w s) Q X.
Proof using Hoff.
  intros Hs Hr HQ. apply ewp_reg_w32; [done..|]. apply HQ. intros r' Hr'. cbn [ck_hw set_ck_hw]. rewrite holds_write by done.
  by destruct (Z.eqb_spec r r'), (Z.eqb_spec (off + r) (off + r')); try lia.
Qed.

(** The writes of a configuration. *)
Lemma configure_programs {ub nf : Prop} w s (k : EM clock_errno (clock_driver W) (option Z)) Q X : mapped off s ->
  (forall w', programmed (ck_m s) (ck_d s) (ck_o s) w' -> ewp ub nf k (set_ck_hw w' s) Q X) ->
  ewp ub nf (clock_driver_w32 (clock_driver_reg off XCLK_WIZ_REG25_OFFSET) 0;;
    clock_driver_update_o off CLOCK_DRIVER_WIZARD_CLKOUT_ID;; clock_driver_update_d off;; clock_driver_update_m off;;
    clock_driver_program_common_tail off;; clock_driver_trigger_reconfig off;; k) (set_ck_hw w s) Q X.
Proof using Hoff.
  intros Hs Hk. unfold clock_driver_update_o, clock_driver_update_d,
    clock_driver_update_m, clock_driver_program_common_tail, clock_driver_trigger_reconfig.
  destruct (leaf_addr off Hoff) as [-> ->]. cbv zeta.
  repeat first [apply ewp_written; [done..|intros ? ?] | ewp_step]. apply Hk. intros r Hr.
  repeat match goal with H : written _ _ _ ?w |- context [contents ?w _] => rewrite (H r Hr); clear H end.
  unfold config_regs in Hr. repeat (apply elem_of_cons in Hr as [-> | Hr]; [reflexivity|]). by apply elem_of_nil in Hr.
Qed.

(** The writes, then the wait for lock. *)
Lemma program_reports {nf : Prop} fuel s X : let m := ck_m s in let d := ck_d s in let o := ck_o s in
  realisable (prim_in_hz s) m d o -> mapped off s -> is_u64 (prim_in_hz s * m) ->
  waits off (programmed m d o) (fun b => b = Z.odd (o / 4)) nf fuel ->
  ewp False nf (clock_driver_program_mdo_and_reconfig fuel off CLOCK_DRIVER_WIZARD_CLKOUT_ID CLOCK_DRIVER_DEFAULT_LOCK_TIMEOUT_MS) s
    (fun r s' => (exists w, s' = set_ck_hw w s /\ programmed m d o w) /\
                 match r with
                 | Some rate => rate = rate_of (prim_in_hz s) m d o /\ Z.odd (o / 4) = true
                 | None => nf \/ Z.odd (o / 4) = false
                 end) X.
Proof using Hoff.
  intros m d o Hr Hs H64 Hw. unfold clock_driver_program_mdo_and_reconfig.
  replace s with (set_ck_hw (ck_hw s) s) at 1 by (by destruct s). apply configure_programs; [done|]. intros w Hp.
  ewp_step. specialize (Hw (set_ck_hw w s) Hs Hp). unfold ewp at 1, post at 1. unfold ewp, post in Hw.
  destruct (clock_driver_wait_for_lock fuel off _ _) as [[u|e] s'| |]; [| |exact Hw..].
  - destruct Hw as [[[w' ->] Hw'] Hb]. ewp_step. eapply ewp_mono; [by apply (get_rate_programmed m d o)| |intros ? ? Hx; exact Hx].
    intros rate s' (-> & w2 & -> & H2). ewp_step. split; [by exists w2|done].
  - destruct Hw as [[[w' ->] Hw'] Hb]. ewp_step. split; [by exists w'|]. by destruct Hb; [left|right].
Qed.

(** The driver after it has programmed [c]. *)
Definition runs_at (c : clock_candidate) s s' : Prop := exists w,
  s' = set_ck_hw w (set_mdo (cand_m c) (cand_d c) (cand_o c) s) /\ programmed (cand_m c) (cand_d c) (cand_o c) w.

Lemma realisable_u64 prim m d o : is_u32 prim -> realisable prim m d o -> is_u64 (prim * m).
Proof using Type. unfold realisable, XCLK_M_MIN, XCLK_M_MAX, is_u32, is_u64. intros. nia. Qed.

Lemma rate_u32 prim m d o : realisable prim m d o -> u32 (rate_of prim m d o) = rate_of prim m d o.
Proof using Type.
  unfold realisable, in_range, rate_of, XCLK_VCO_MIN, XCLK_VCO_MAX, XCLK_MHZ, XCLK_O_MIN. intros (_ & _ & Ho & Hv).
  apply u32_small. unfold is_u32. split; [apply Z.div_pos; lia|]. apply Z.div_lt_upper_bound; nia.
Qed.

Lemma try_candidates_exact {nf : Prop} fuel cands : forall s, mapped off s -> is_u32 (prim_in_hz s) ->
  Forall (fun c => realisable (prim_in_hz s) (cand_m c) (cand_d c) (cand_o c)) cands ->
  (forall m d o, XCLK_O_MIN <= o <= XCLK_O_MAX -> waits off (programmed m d o) (fun b => b = Z.odd (o / 4)) nf fuel) ->
  ewp False nf (try_candidates fuel off CLOCK_DRIVER_WIZARD_CLKOUT_ID cands) s
    (fun r s' => exists c, c ∈ cands /\ (nf \/ find locks cands = Some c) /\ runs_at c s s' /\
                           r = rate_of (prim_in_hz s) (cand_m c) (cand_d c) (cand_o c))
    (fun e _ => e = E_TIMEDOUT /\ (nf \/ find locks cands = None)).
Proof using Hoff.
  induction cands as [|c cands IH]; intros s Hs H32 Hr Hw; cbn [try_candidates].
  { ewp_step. split; [done|by right]. }
  apply Forall_cons in Hr as [Hc Hr]. ewp_step. ewp_step.
  ewp_step. eapply ewp_mono; [by apply (local_log_state off Hoff (fun _ => True))| |intros ? ? Hx; exact Hx]. intros _ s1 [[w1 ->] _].
  set (s1 := set_ck_hw w1 _). ewp_step. eapply ewp_mono; [apply program_reports| |intros ? ? Hx; exact Hx].
  1-2: done.
  1: by eapply realisable_u64.
  1: apply Hw, Hc.
  intros r s2 [(w2 & -> & Hp) Hres].
  ewp_step. eapply ewp_mono; [apply (local_log_state off Hoff (programmed (cand_m c) (cand_d c) (cand_o c)))| |intros ? ? Hx; exact Hx].
  1: apply programmed_read.
  1-2: done.
  intros _ s3 [[w3 ->] Hp3]. change (Z.odd (ck_o s1 / 4)) with (locks c) in Hres. destruct r as [rate|].
  - destruct Hres as [-> Hodd]. ewp_step. exists c. split; [left|]. split; [right; cbn [find]; by rewrite Hodd|].
    split; [by exists w3|]. by apply rate_u32.
  - eapply ewp_mono; [by apply IH| |]; cbn beta.
    + intros r s' (c' & Hin & Hf & (w & -> & Hw') & ->). exists c'. split; [by right|]. split; [|split; [by exists w|done]].
      destruct Hf as [|Hf]; [by left|]. destruct Hres as [|Hl]; [by left|]. right. cbn [find]. by rewrite Hl.
    + intros e s' [-> Hf]. split; [done|]. destruct Hf as [|Hf]; [by left|]. destruct Hres as [|Hl]; [by left|].
      right. cbn [find]. by rewrite Hl.
Qed.

Lemma set_region_exact {nf : Prop} fuel rate no_exceed s : mapped off s -> is_u32 (prim_in_hz s) -> 0 < rate < 2 ^ 32 ->
  (forall m d o, XCLK_O_MIN <= o <= XCLK_O_MAX -> waits off (programmed m d o) (fun b => b = Z.odd (o / 4)) nf fuel) ->
  ewp False nf (set_region_rate_hz fuel off rate no_exceed) s
    (fun r s' => exists c, sound (prim_in_hz s) rate no_exceed c /\
                           (nf \/ find locks (offers rate no_exceed s) = Some c) /\ runs_at c s s' /\ r = achieved_hz c)
    (fun e _ => e = E_RANGE /\ offers rate no_exceed s = [] \/
                e = E_TIMEDOUT /\ offers rate no_exceed s <> [] /\ (nf \/ find locks (offers rate no_exceed s) = None)).
Proof using Hoff.
  intros Hs H32 Hrate Hw. pose proof Hs as [Hm Hl].
  destruct (generate_total (prim_in_hz s) rate CLOCK_DRIVER_DEFAULT_MAX_CANDIDATES no_exceed) as [cands Ecands].
  pose proof (generate_sound (prim_in_hz s) rate CLOCK_DRIVER_DEFAULT_MAX_CANDIDATES no_exceed H32 Hrate ltac:(done) cands Ecands) as Hsound.
  unfold set_region_rate_hz, clock_driver_check_wizard_bounds, clock_driver_check_bounds, clock_driver_try_set_rate_hz.
  rewrite reg_addr by (done || by vm_compute).
  ewp_step. ewp_step. ewp_step. unfold id. ewp_step. rewrite Hm. ewp_step; [done|]. ewp_step; [lia|].
  ewp_step. ewp_step; [lia|]. ewp_step. ewp_step. ewp_step. apply (ewp_defined _ _ _ _ _ Ecands). ewp_step.
  rewrite Ecands. cbn [default].
  ewp_step; [left; split; [done|by destruct cands]|]. eapply ewp_mono; [apply try_candidates_exact; [done..| |done]| |]; cbn beta.
  - eapply Forall_impl; [exact Hsound|]. by intros c [? _].
  - intros r s' (c & Hc & Hf & Hrun & ->). exists c. rewrite Forall_forall in Hsound. pose proof (Hsound c Hc) as Hcs.
    split; [done|]. split; [done|]. split; [done|]. symmetry. apply Hcs.
  - intros e s' [-> Hf]. right. split; [done|]. split; [by destruct cands|done].
Qed.

Lemma get_region_programmed {ub nf : Prop} c s s' : mapped off s -> is_u32 (prim_in_hz s) ->
  realisable (prim_in_hz s) (cand_m c) (cand_d c) (cand_o c) -> runs_at c s s' ->
  ewp ub nf (get_region_rate_hz off) s' (fun r _ => r = rate_of (prim_in_hz s) (cand_m c) (cand_d c) (cand_o c)) (fun _ _ => False).
Proof using Hoff.
  intros [Hm Hl] H32 Hr (w & -> & Hp). unfold get_region_rate_hz, clock_driver_check_wizard_bounds, clock_driver_check_bounds.
  rewrite reg_addr by (done || by vm_compute). set (s' := set_ck_hw _ _).
  ewp_step. ewp_step. ewp_step. unfold id. ewp_step. change (regs_mapped s') with (regs_mapped s).
  change (bar_len s') with (bar_len s). rewrite Hm. ewp_step; [done|]. ewp_step; [lia|]. ewp_step.
  eapply ewp_mono; [apply (get_rate_programmed (cand_m c) (cand_d c) (cand_o c)); [done|by split| |done]| |intros ? ? Hx; exact Hx].
  - by eapply realisable_u64.
  - intros r s2 [-> _]. ewp_step. by apply rate_u32.
Qed.

Lemma programmed_waits_total `{!Ticking W} fuel m d o : (lock_polls <= fuel)%nat -> XCLK_O_MIN <= o <= XCLK_O_MAX ->
  waits off (programmed m d o) (fun b => b = Z.odd (o / 4)) False fuel.
Proof using Hoff. intros Hf Ho. apply waits_total; try done. by apply programmed_steady. Qed.
End programmed.

(** ** A board whose registers hold what is written *)

Record board := { board_regs : Z -> Z; board_time : Z }.

#[export] Instance board_wizard : Wizard board := {|
  wz_read a w := (board_regs w a, w);
  wz_write a v w := {| board_regs := fun b => if a =? b then v else board_regs w b; board_time := board_time w |};
  wz_gettime w := (Some (board_time w / 10 ^ 9, board_time w mod 10 ^ 9), w);
  wz_usleep w := {| board_regs := board_regs w; board_time := board_time w + 150000 |}
|}.

#[export] Instance board_ticking : Ticking board.
Proof. by refine {| now := board_time |}; cbn; unfold slack; intros; try lia. Defined.

#[export] Instance board_holds : Holds board.
Proof. by refine {| contents := board_regs |}. Defined.

(** The driver as [clock_driver_init] leaves it. *)
Definition board_driver : clock_driver board :=
  mkDriver {| board_regs := fun _ => 0; board_time := 5 * 10 ^ 9 |} true 0x20000 CLOCK_DRIVER_DEFAULT_PRIM_IN_HZ 0 0 0
    CLOCK_DRIVER_DEFAULT_MIN_ERR_HZ.

(** C27: the driver is memory safe and always returns.  For any hardware and
    any register contents, reading and setting the rate of a region accesses no
    word outside the mapped BAR (a BAR too short is refused), divides by
    nothing that is 0, and leaves the mapping and the reference rate alone;
    reading returns, and on a clock that advances setting returns when each
    wait may poll [lock_polls] times. *)
Theorem clock_calls_return {W} `{!Wizard W} off rate no_exceed (s : clock_driver W) : wizard off ->
  ewp False False (get_region_rate_hz off) s (fun _ => hw_only s) (fun _ s' => s' = s) /\
  (forall fuel, ewp False True (set_region_rate_hz fuel off rate no_exceed) s (fun _ => same_driver s) (fun _ => same_driver s)) /\
  forall (Htick : Ticking W) fuel, (lock_polls <= fuel)%nat ->
    ewp False False (set_region_rate_hz fuel off rate no_exceed) s (fun _ => same_driver s) (fun _ => same_driver s).
Proof.
  intros Hoff. split; [by apply get_region_safe|]. split.
  - intros fuel. apply set_region_safe; [done|]. by apply waits_safe.
  - intros Htick fuel Hf. apply set_region_safe; [done|]. by apply waits_total.
Qed.

Lemma clock_calls_return_witness :
  ewp False False (set_region_rate_hz lock_polls CLOCK_DRIVER_USER_REGION_WIZARD_OFFSET 250000000 true) board_driver
    (fun _ => same_driver board_driver) (fun _ => same_driver board_driver).
Proof.
  destruct (clock_calls_return CLOCK_DRIVER_USER_REGION_WIZARD_OFFSET 250000000 true board_driver (or_introl eq_refl)) as (_ & _ & H).
  exact (H _ lock_polls (le_n _)).
Defined.

(** C26: a rate that is reported is the rate that runs.  On registers that hold
    what is written, the result of setting a rate is the rate of a
    configuration the hardware can realise, not truncated, in round-down mode
    at most the request; the registers hold that configuration, and reading the
    rate of the region gives the same value.  Otherwise the error says that no
    configuration exists or that none locked. *)
Theorem set_rate_sound {W} `{!Wizard W, !Holds W} off rate no_exceed (s : clock_driver W) :
  wizard off -> mapped off s -> is_u32 (prim_in_hz s) -> 0 < rate < 2 ^ 32 ->
  let Q r s' := exists m d o, realisable (prim_in_hz s) m d o /\ r = rate_of (prim_in_hz s) m d o /\
    (no_exceed = true -> r <= rate) /\ programmed off m d o (ck_hw s') /\
    ewp False False (get_region_rate_hz off) s' (fun r' _ => r' = r) (fun _ _ => False) in
  let X e (_ : clock_driver W) := e = E_RANGE \/ e = E_TIMEDOUT in
  (forall fuel, ewp False True (set_region_rate_hz fuel off rate no_exceed) s Q X) /\
  forall (Htick : Ticking W) fuel, (lock_polls <= fuel)%nat -> ewp False False (set_region_rate_hz fuel off rate no_exceed) s Q X.
Proof.
  intros Hoff Hs H32 Hrate Q X.
  assert (forall (nf : Prop) c r s', sound (prim_in_hz s) rate no_exceed c /\
    (nf \/ find locks (offers rate no_exceed s) = Some c) /\ runs_at off c s s' /\ r = achieved_hz c -> Q r s') as HQ.
  { intros nf c r s' ((Hr & Ha & _ & Hle) & _ & Hrun & ->). exists (cand_m c), (cand_d c), (cand_o c).
    split; [done|]. split; [done|]. split; [done|]. split; [by destruct Hrun as (w & -> & Hp)|].
    rewrite Ha. by apply get_region_programmed with (s := s). }
  split; [intros fuel|intros Htick fuel Hf]; (eapply ewp_mono; [apply set_region_exact; [done..|]| |]; cbn beta;
    [|by intros r s' (c & Hc); eapply HQ|by intros e s' [[-> _]|[-> _]]; [left|right]]); intros m d o Ho.
  - apply waits_safe; [done|]. by apply programmed_steady.
  - by apply programmed_waits_total.
Qed.

Lemma set_rate_sound_witness :
  ewp False False (set_region_rate_hz lock_polls CLOCK_DRIVER_SERVICE_REGION_WIZARD_OFFSET 250000000 true) board_driver
    (fun r s' => exists m d o, realisable 100000000 m d o /\ r = rate_of 100000000 m d o /\ (true = true -> r <= 250000000) /\
       programmed CLOCK_DRIVER_SERVICE_REGION_WIZARD_OFFSET m d o (ck_hw s') /\
       ewp False False (get_region_rate_hz CLOCK_DRIVER_SERVICE_REGION_WIZARD_OFFSET) s' (fun r' _ => r' = r) (fun _ _ => False))
    (fun e _ => e = E_RANGE \/ e = E_TIMEDOUT).
Proof.
  destruct (set_rate_sound CLOCK_DRIVER_SERVICE_REGION_WIZARD_OFFSET 250000000 true board_driver (or_intror eq_refl)) as (_ & H);
    [split; [done|by vm_compute]|split; by vm_compute|split; by vm_compute|].
  exact (H _ lock_polls (le_n _)).
Defined.

(** On registers that hold what is written, the divider decides what
    locks.  The driver settles on the first candidate whose output divider
    divided by 4 is odd, whatever the oscillator does, and times out when there
    is none: the status it polls is the counts register it has just written. *)
Theorem lock_is_divider_bit {W} `{!Wizard W, !Holds W, !Ticking W} off fuel rate no_exceed (s : clock_driver W) :
  wizard off -> mapped off s -> is_u32 (prim_in_hz s) -> 0 < rate < 2 ^ 32 -> (lock_polls <= fuel)%nat ->
  ewp False False (set_region_rate_hz fuel off rate no_exceed) s
    (fun r s' => exists c, find locks (offers rate no_exceed s) = Some c /\ runs_at off c s s' /\ r = achieved_hz c)
    (fun e _ => find locks (offers rate no_exceed s) = None /\ e = if decide (offers rate no_exceed s = []) then E_RANGE else E_TIMEDOUT).
Proof.
  intros Hoff Hs H32 Hrate Hf. eapply ewp_mono; [apply set_region_exact; [done..|]| |]; cbn beta.
  - intros m d o Ho. by apply programmed_waits_total.
  - intros r s' (c & _ & [[]|Hc] & ? & ?). by exists c.
  - intros e s' [[-> E]|(-> & Hne & [[]|E])].
    + by rewrite E, decide_True.
    + split; [done|]. by rewrite decide_False.
Qed.

Lemma lock_is_divider_bit_witness :
  ewp False False (set_region_rate_hz lock_polls CLOCK_DRIVER_USER_REGION_WIZARD_OFFSET 250000000 true) board_driver
    (fun r s' => exists c, find locks (offers 250000000 true board_driver) = Some c /\
                           runs_at CLOCK_DRIVER_USER_REGION_WIZARD_OFFSET c board_driver s' /\ r = achieved_hz c)
    (fun e _ => find locks (offers 250000000 true board_driver) = None /\
                e = if decide (offers 250000000 true board_driver = []) then E_RANGE else E_TIMEDOUT).
Proof.
  apply lock_is_divider_bit; [by left|split; [done|by vm_compute]|split; by vm_compute|split; by vm_compute|exact (le_n _)].
Defined.
