(* ===== verification/Policy.v ===== *)
(** * The access policy of the daemon

    Model of [src/vrt/vrtd/src/config.c] and [config.h]: roles with per-device
    permissions, the users and groups that have them, and the loading of the
    configuration files.  A function that returns -1 is a computation that
    throws; what it changed before stays.  The operating system (canonical
    paths, globbing, the user and group databases, the environment) and the ini
    parser are the class [System]; of the parser only what its documentation
    says is used: it hands each key to the handler in order and returns the
    line of the first error.  A reference to a role is its position in
    [cfg_roles].  Memory allocation succeeds. *)

From S2P Require Import Prelude Except.
From Stdlib Require Import String Ascii.
From stdpp Require Import list strings.
Open Scope Z_scope.

(** ** C strings *)

(** [strchr], [strrchr]: what is before and after the character. *)
Fixpoint strchr (c : ascii) (s : string) : option (string * string) :=
  match s with
  | EmptyString => None
  | String a s' => if Ascii.eqb a c then Some (EmptyString, s')
                   else match strchr c s' with Some (b, r) => Some (String a b, r) | None => None end
  end.

Fixpoint strrchr (c : ascii) (s : string) : option (string * string) :=
  match s with
  | EmptyString => None
  | String a s' => match strrchr c s' with
                   | Some (b, r) => Some (String a b, r)
                   | None => if Ascii.eqb a c then Some (EmptyString, s') else None
                   end
  end.

Fixpoint count_char (c : ascii) (s : string) : nat :=
  match s with
  | EmptyString => 0
  | String a s' => (if Ascii.eqb a c then 1 else 0) + count_char c s'
  end.

Definition isspace (a : ascii) : bool :=
  let n := Z.of_nat (nat_of_ascii a) in (n =? 32) || (9 <=? n) && (n <=? 13).
Definition tolower (a : ascii) : ascii :=
  let n := nat_of_ascii a in if (65 <=? n)%nat && (n <=? 90)%nat then ascii_of_nat (n + 32) else a.

Fixpoint skip_space (l : list ascii) : list ascii :=
  match l with a :: l' => if isspace a then skip_space l' else l | [] => [] end.

Definition string_to_bool (s : string) : bool :=
  let l := reverse (skip_space (reverse (skip_space (list_ascii_of_string s)))) in
  let low := string_of_list_ascii (map tolower l) in
  if (length l =? 0)%nat then false
  else if (length l =? 1)%nat then String.eqb low "1" || String.eqb low "y"
  else String.eqb low "yes" || String.eqb low "true".

(** ** Roles *)

Inductive auth_subsystem :=
  | AUTH_SUBSYSTEM_BAR | AUTH_SUBSYSTEM_QDMA | AUTH_SUBSYSTEM_BUFFER | AUTH_SUBSYSTEM_DESIGN_WRITE
  | AUTH_SUBSYSTEM_CFGMEM_PROGRAM | AUTH_SUBSYSTEM_CLOCK | AUTH_SUBSYSTEM_PCIE_HOTPLUG | AUTH_SUBSYSTEM_RAW_MEM_ACCESS.

Record device_policy := {
  dp_bdf : string;
  dp_bar : bool; dp_qdma : bool; dp_buffer : bool; dp_design_write : bool;
  dp_cfgmem_program : bool; dp_clock : bool; dp_pcie_hotplug : bool; dp_raw_mem_access : bool
}.

Definition device_policy_check (dp : device_policy) (subsystem : auth_subsystem) : bool :=
  match subsystem with
  | AUTH_SUBSYSTEM_BAR => dp_bar dp
  | AUTH_SUBSYSTEM_QDMA => dp_qdma dp
  | AUTH_SUBSYSTEM_BUFFER => dp_buffer dp
  | AUTH_SUBSYSTEM_DESIGN_WRITE => dp_design_write dp
  | AUTH_SUBSYSTEM_CFGMEM_PROGRAM => dp_cfgmem_program dp
  | AUTH_SUBSYSTEM_CLOCK => dp_clock dp
  | AUTH_SUBSYSTEM_PCIE_HOTPLUG => dp_pcie_hotplug dp
  | AUTH_SUBSYSTEM_RAW_MEM_ACCESS => dp_raw_mem_access dp
  end.

(** [dp->flag = b], for the flag [device_policy_check] reads. *)
Definition set_flag (f : auth_subsystem) (b : bool) (dp : device_policy) : device_policy :=
  let keep g := match f, g with
                | AUTH_SUBSYSTEM_BAR, AUTH_SUBSYSTEM_BAR | AUTH_SUBSYSTEM_QDMA, AUTH_SUBSYSTEM_QDMA
                | AUTH_SUBSYSTEM_BUFFER, AUTH_SUBSYSTEM_BUFFER
                | AUTH_SUBSYSTEM_DESIGN_WRITE, AUTH_SUBSYSTEM_DESIGN_WRITE
                | AUTH_SUBSYSTEM_CFGMEM_PROGRAM, AUTH_SUBSYSTEM_CFGMEM_PROGRAM
                | AUTH_SUBSYSTEM_CLOCK, AUTH_SUBSYSTEM_CLOCK
                | AUTH_SUBSYSTEM_PCIE_HOTPLUG, AUTH_SUBSYSTEM_PCIE_HOTPLUG
                | AUTH_SUBSYSTEM_RAW_MEM_ACCESS, AUTH_SUBSYSTEM_RAW_MEM_ACCESS => b
                | _, _ => device_policy_check dp g
                end in
  {| dp_bdf := dp_bdf dp; dp_bar := keep AUTH_SUBSYSTEM_BAR; dp_qdma := keep AUTH_SUBSYSTEM_QDMA;
     dp_buffer := keep AUTH_SUBSYSTEM_BUFFER; dp_design_write := keep AUTH_SUBSYSTEM_DESIGN_WRITE;
     dp_cfgmem_program := keep AUTH_SUBSYSTEM_CFGMEM_PROGRAM; dp_clock := keep AUTH_SUBSYSTEM_CLOCK;
     dp_pcie_hotplug := keep AUTH_SUBSYSTEM_PCIE_HOTPLUG; dp_raw_mem_access := keep AUTH_SUBSYSTEM_RAW_MEM_ACCESS |}.

Definition new_policy (bdf : string) : device_policy := {|
  dp_bdf := bdf; dp_bar := false; dp_qdma := false; dp_buffer := false; dp_design_write := false;
  dp_cfgmem_program := false; dp_clock := false; dp_pcie_hotplug := false; dp_raw_mem_access := false |}.

Record role := { role_name : string; device_policies : list device_policy; role_query : bool }.

Definition new_role (name : string) : role := {| role_name := name; device_policies := []; role_query := false |}.
Definition set_policies (l : list device_policy) (r : role) : role :=
  {| role_name := role_name r; device_policies := l; role_query := role_query r |}.
Definition set_query (b : bool) (r : role) : role :=
  {| role_name := role_name r; device_policies := device_policies r; role_query := b |}.

Definition find_device_policy (policies : list device_policy) (bdf : string) : option (nat * device_policy) :=
  list_find (fun dp => dp_bdf dp = bdf) policies.

(** The policies, with one for [bdf], and where it is. *)
Definition find_or_create_device_policy (policies : list device_policy) (bdf : string)
    : list device_policy * (nat * device_policy) :=
  match find_device_policy policies bdf with
  | Some p => (policies, p)
  | None => (policies ++ [new_policy bdf], (length policies, new_policy bdf))
  end.

Definition or_policy (dst src : device_policy) : device_policy := {|
  dp_bdf := dp_bdf dst;
  dp_bar := dp_bar dst || dp_bar src; dp_qdma := dp_qdma dst || dp_qdma src;
  dp_buffer := dp_buffer dst || dp_buffer src; dp_design_write := dp_design_write dst || dp_design_write src;
  dp_cfgmem_program := dp_cfgmem_program dst || dp_cfgmem_program src; dp_clock := dp_clock dst || dp_clock src;
  dp_pcie_hotplug := dp_pcie_hotplug dst || dp_pcie_hotplug src;
  dp_raw_mem_access := dp_raw_mem_access dst || dp_raw_mem_access src |}.

Definition merge_policy (policies : list device_policy) (src : device_policy) : list device_policy :=
  let r := find_or_create_device_policy policies (dp_bdf src) in
  <[r.2.1 := or_policy r.2.2 src]> r.1.

Definition role_merge_new (name : string) : role := new_role name.
Definition role_merge_add_role (dst src : role) : role :=
  set_policies (foldl merge_policy (device_policies dst) (device_policies src))
    (set_query (role_query dst || role_query src) dst).

(** ** Configuration *)

(** [struct user_config] and [struct group_config]; [user_id] is the uid or gid. *)
Record user_config := { user_name : string; user_id : Z; role_names : list string; user_roles : list nat }.

Definition new_user (name : string) (id : Z) : user_config :=
  {| user_name := name; user_id := id; role_names := []; user_roles := [] |}.

Record config := {
  cfg_roles : list role; default_user : user_config; cfg_users : list user_config; cfg_groups : list user_config;
  mock_device : bool
}.

Definition set_roles (l : list role) (c : config) : config :=
  {| cfg_roles := l; default_user := default_user c; cfg_users := cfg_users c; cfg_groups := cfg_groups c;
     mock_device := mock_device c |}.
Definition set_default_user (u : user_config) (c : config) : config :=
  {| cfg_roles := cfg_roles c; default_user := u; cfg_users := cfg_users c; cfg_groups := cfg_groups c;
     mock_device := mock_device c |}.
Definition set_users (l : list user_config) (c : config) : config :=
  {| cfg_roles := cfg_roles c; default_user := default_user c; cfg_users := l; cfg_groups := cfg_groups c;
     mock_device := mock_device c |}.
Definition set_groups (l : list user_config) (c : config) : config :=
  {| cfg_roles := cfg_roles c; default_user := default_user c; cfg_users := cfg_users c; cfg_groups := l;
     mock_device := mock_device c |}.
Definition set_mock (b : bool) (c : config) : config :=
  {| cfg_roles := cfg_roles c; default_user := default_user c; cfg_users := cfg_users c; cfg_groups := cfg_groups c;
     mock_device := b |}.

Definition role_merge_add_array (roles : list role) (dst : role) (refs : list nat) : role :=
  foldl (fun dst i => match roles !! i with Some r => role_merge_add_role dst r | None => dst end) dst refs.

(** [None] is the return of -1. *)
Definition role_add_value (r : role) (name value : string) : option role :=
  if String.eqb name "query-devices" then
    if String.eqb value "yes" then Some (set_query true r)
    else if String.eqb value "no" then Some (set_query false r)
    else None
  else None.

Definition yes_no (f : auth_subsystem) (value : string) (dp : device_policy) : option device_policy :=
  if String.eqb value "yes" then Some (set_flag f true dp)
  else if String.eqb value "no" then Some (set_flag f false dp)
  else None.

Definition device_policy_add_value (dp : device_policy) (name value : string) : option device_policy :=
  if String.eqb name "bar-access" then
    if String.eqb value "full" then Some (set_flag AUTH_SUBSYSTEM_BAR true dp) else None
  else if String.eqb name "qdma" then yes_no AUTH_SUBSYSTEM_QDMA value dp
  else if String.eqb name "buffer" then yes_no AUTH_SUBSYSTEM_BUFFER value dp
  else if String.eqb name "design-write" then yes_no AUTH_SUBSYSTEM_DESIGN_WRITE value dp
  else if String.eqb name "cfgmem-program" then yes_no AUTH_SUBSYSTEM_CFGMEM_PROGRAM value dp
  else if String.eqb name "clock" then yes_no AUTH_SUBSYSTEM_CLOCK value dp
  else if String.eqb name "pcie-hotplug" then yes_no AUTH_SUBSYSTEM_PCIE_HOTPLUG value dp
  else if String.eqb name "raw-mem-access" then yes_no AUTH_SUBSYSTEM_RAW_MEM_ACCESS value dp
  else None.

Definition normalize_bdf (input : string) (out_len : nat) : option string :=
  if String.eqb input "any" then if (out_len <? 4)%nat then None else Some "any"%string
  else if (64 <=? String.length input)%nat then None
  else
    let buf := match strrchr "." input with Some (before, _) => before | None => input end in
    match count_char ":" buf with
    | 1%nat => let out := ("0000:" +:+ buf)%string in
               if (out_len <=? String.length out)%nat then None else Some out
    | 2%nat => if (out_len <=? String.length buf)%nat then None else Some buf
    | _ => None
    end.

(** ** Handlers of keys *)

Abbreviation CFM := (EM unit config).

Definition lift {S A} (o : option A) : EM unit S A := match o with Some a => mret a | None => throw tt end.

Definition find_role (name : string) (roles : list role) : option (nat * role) :=
  list_find (fun r => role_name r = name) roles.

Definition role_find_and_add_value (objname name value : string) : CFM unit :=
  roles ← asks cfg_roles;
  match find_role objname roles with
  | Some (i, r) => r' ← lift (role_add_value r name value); updates (set_roles (<[i := r']> roles))
  | None => r' ← lift (role_add_value (new_role objname) name value); updates (set_roles (roles ++ [r']))
  end.

Definition role_find_or_create (name : string) : CFM (nat * role) :=
  roles ← asks cfg_roles;
  match find_role name roles with
  | Some p => mret p
  | None => updates (set_roles (roles ++ [new_role name]));; mret (length roles, new_role name)
  end.

(** The policy is in the role before the value is checked. *)
Definition role_device_find_and_add_value (rname dev_selector name value : string) : CFM unit :=
  ir ← role_find_or_create rname;
  bdf ← lift (normalize_bdf dev_selector 32);
  let found := find_or_create_device_policy (device_policies ir.2) bdf in
  updates (fun c => set_roles (<[ir.1 := set_policies found.1 ir.2]> (cfg_roles c)) c);;
  dp ← lift (device_policy_add_value found.2.2 name value);
  updates (fun c => set_roles (<[ir.1 := set_policies (<[found.2.1 := dp]> found.1) ir.2]> (cfg_roles c)) c).

(** [user_add_value] and [group_add_value] *)
Definition user_add_value (u : user_config) (name value : string) : option user_config :=
  if String.eqb name "role" then
    Some {| user_name := user_name u; user_id := user_id u; role_names := role_names u ++ [value]; user_roles := user_roles u |}
  else None.

(** The search, creation and storing that users and groups share. *)
Definition entry_add_value (getid : string -> option Z) (entries : list user_config) (objname name value : string)
    : option (list user_config) :=
  match list_find (fun u => user_name u = objname) entries with
  | Some (i, u) => u' ← user_add_value u name value; mret (<[i := u']> entries)
  | None =>
      id ← getid objname;
      u' ← user_add_value (new_user objname id) name value;
      mret (entries ++ [u'])
  end.

(** ** Role references *)

Definition assign_roles (roles : list role) (u : user_config) : user_config :=
  {| user_name := user_name u; user_id := user_id u; role_names := role_names u;
     user_roles := user_roles u ++ omap (fun n => fst <$> find_role n roles) (role_names u) |}.
Definition assign_users_roles (c : config) : config :=
  set_users (assign_roles (cfg_roles c) <$> cfg_users c)
    (set_default_user (assign_roles (cfg_roles c) (default_user c)) c).
Definition assign_groups_roles (c : config) : config :=
  set_groups (assign_roles (cfg_roles c) <$> cfg_groups c) c.

(** ** Files *)

(** What the ini parser makes of a file: the keys it hands on, with the lines it
    rejects, or its negative result. *)
Record ini_line := { line_no : positive; line_pair : option (string * string * string) }.
Inductive ini_file := IniLines (l : list ini_line) | IniFails (code : positive).

Inductive glob_result := GlobPaths (l : list string) | GlobNoMatch | GlobError.

Class System := {
  realpath : string -> option string;
  glob : string -> glob_result;
  ini_read : string -> ini_file;
  ini_stop_on_first_error : bool;
  getpwnam : string -> option Z;
  getgrnam : string -> option Z;
  getenv_config : option string
}.

Record config_parse_state := { ps_config : config; visited_files : list string }.

Definition set_ps_config (c : config) (s : config_parse_state) : config_parse_state :=
  {| ps_config := c; visited_files := visited_files s |}.
Definition push_visited (p : string) (s : config_parse_state) : config_parse_state :=
  {| ps_config := ps_config s; visited_files := visited_files s ++ [p] |}.

Section files.
Context `{!System}.

Abbreviation PM := (EM unit config_parse_state).

Definition user_find_and_add_value (objname name value : string) : CFM unit :=
  if String.eqb objname "*" then
    u ← asks default_user; u' ← lift (user_add_value u name value); updates (set_default_user u')
  else
    users ← asks cfg_users; users' ← lift (entry_add_value getpwnam users objname name value); updates (set_users users').

Definition group_find_and_add_value (objname name value : string) : CFM unit :=
  groups ← asks cfg_groups; groups' ← lift (entry_add_value getgrnam groups objname name value); updates (set_groups groups').

(** Whether the computation returned 0. *)
Definition succeeds (m : PM unit) : PM bool := fun s =>
  match m s with
  | Ret (Val _) s' => Ret (Val true) s'
  | Ret (Exn _) s' => Ret (Val false) s'
  | Ub => Ub
  | NoFuel => NoFuel
  end.

(** [MATCH_OBJECT] *)
Definition match_object (kind section : string) : option string :=
  match strchr ":" section with
  | Some (before, after) => if String.eqb before kind && negb (String.eqb after "") then Some after else None
  | None => None
  end.

Definition resolve_relative_pattern (visited : list string) (pattern : string) : option string :=
  if String.prefix "/" pattern then None
  else match last visited with
       | None => None
       | Some current_file =>
           match strrchr "/" current_file with
           | None => None
           | Some (dir, _) => Some (dir +:+ "/" +:+ pattern)%string
           end
       end.

Definition on_config (m : CFM unit) : PM unit := zoom ps_config set_ps_config m.

(** One pass of the parser over the lines of a file: the line of the first
    error, or 0. *)
Fixpoint ini_lines (handler : string -> string -> string -> PM bool) (error : Z) (l : list ini_line) : PM Z :=
  match l with
  | [] => mret error
  | x :: l' =>
      ok ← match line_pair x with Some (section, name, value) => handler section name value | None => mret false end;
      let error := if negb ok && (error =? 0) then Z.pos (line_no x) else error in
      if ini_stop_on_first_error && negb (error =? 0) then mret error else ini_lines handler error l'
  end.

Definition ini_parse (path : string) (handler : string -> string -> string -> PM bool) : PM Z :=
  match ini_read path with
  | IniFails code => mret (Z.neg code)
  | IniLines l => ini_lines handler 0 l
  end.

Definition parse_file_unique (handler : string -> string -> string -> PM bool) (path : string) : PM unit :=
  ret ← ini_parse path handler;
  throw_if ((0 <? ret) || (ret =? -1) || (ret =? -2)) tt.

Definition parse_file_glob (parse_file : string -> PM unit) (pattern : string) : PM unit :=
  visited ← asks visited_files;
  let pattern := default pattern (resolve_relative_pattern visited pattern) in
  match glob pattern with
  | GlobNoMatch | GlobError => mret tt
  | GlobPaths l => each l parse_file
  end.

Definition parse_config_callback (parse_file : string -> PM unit) (section name value : string) : PM bool :=
  if String.eqb section "" && String.eqb name "include" then succeeds (parse_file value)
  else if String.eqb section "" && String.eqb name "include-glob" then succeeds (parse_file_glob parse_file value)
  else if String.eqb section "" && String.eqb name "enable-mock-device" then
    updates (fun s => set_ps_config (set_mock (string_to_bool value) (ps_config s)) s);; mret true
  else match match_object "role" section with
  | Some objname =>
      succeeds (on_config
        match strchr ":" objname with
        | Some (rname, dev_selector) => role_device_find_and_add_value rname dev_selector name value
        | None => role_find_and_add_value objname name value
        end)
  | None => match match_object "user" section with
  | Some objname => succeeds (on_config (user_find_and_add_value objname name value))
  | None => match match_object "group" section with
  | Some objname => succeeds (on_config (group_find_and_add_value objname name value))
  | None => mret true
  end end end.

Fixpoint parse_file (fuel : nat) (path : string) : PM unit :=
  match fuel with
  | O => out_of_fuel
  | S fuel' =>
      full_path ← lift (realpath path);
      visited ← asks visited_files;
      if existsb (String.eqb full_path) visited then mret tt
      else
        updates (push_visited full_path);;
        parse_file_unique (parse_config_callback (parse_file fuel')) full_path
  end.

Definition VRTD_DEFAULT_CONFIG_PATH : string := "/etc/vrt/vrtd.conf".

Definition initial_parse_state : config_parse_state := {|
  ps_config := {| cfg_roles := []; default_user := new_user "*" 0; cfg_users := []; cfg_groups := []; mock_device := false |};
  visited_files := [] |}.

Definition config_path : string :=
  match getenv_config with
  | Some p => if String.eqb p "" then VRTD_DEFAULT_CONFIG_PATH else p
  | None => VRTD_DEFAULT_CONFIG_PATH
  end.

Definition config_load (fuel : nat) : PM config :=
  parse_file fuel config_path;;
  updates (fun s => set_ps_config (assign_groups_roles (assign_users_roles (ps_config s))) s);;
  asks ps_config.
End files.
