(* ===== verification/Auth.v ===== *)
(** * Authorization of requests

    Model of [src/vrt/vrtd/src/auth.c]: the role of a client is the merge of
    the roles that apply to it, built at its first request, and every request
    is checked against it.  The answer 1 is [true]; logging is left out.

    What is let through one of the roles that apply to the client allows; a
    permission that a role gives in a policy for the device is never lost, one
    that it gives for any device only where another role has a policy for the
    device. *)

From S2P Require Import Prelude Except Policy.
From Stdlib Require Import String.
From stdpp Require Import list strings sets.
Open Scope Z_scope.

Record client := { cl_uid : Z; cl_gids : list Z; cl_role : option role }.

Section auth.
Context (cfg : config) (devices : list string).
Implicit Types (c : client).

Definition ensure_role c : role * client :=
  match cl_role c with
  | Some r => (r, c)
  | None =>
      let add := role_merge_add_array (cfg_roles cfg) in
      let r := add (role_merge_new "TODO: Change this string") (user_roles (default_user cfg)) in
      let r := foldl (fun r u => if user_id u =? cl_uid c then add r (user_roles u) else r) r (cfg_users cfg) in
      let r := foldl (fun r g => foldl (fun r gid => if user_id g =? gid then add r (user_roles g) else r) r (cl_gids c)) r
                 (cfg_groups cfg) in
      (r, {| cl_uid := cl_uid c; cl_gids := cl_gids c; cl_role := Some r |})
  end.

(** The loop over the policies: an exact match ends it, else the last one for
    any device. *)
Fixpoint find_policy (dev_bdf : string) (any_dp : option device_policy) (l : list device_policy) : option device_policy :=
  match l with
  | [] => any_dp
  | p :: l' => if String.eqb (dp_bdf p) dev_bdf then Some p
               else find_policy dev_bdf (if String.eqb (dp_bdf p) "any" then Some p else any_dp) l'
  end.

Definition auth_check_device_permission (r : role) (dev_number : Z) (subsystem : auth_subsystem) : bool :=
  if negb (role_query r) then false
  else if Z.of_nat (length devices) <=? dev_number then false
  else match devices !! Z.to_nat dev_number with
       | None => false
       | Some dev_bdf => match find_policy dev_bdf None (device_policies r) with
                         | None => false
                         | Some dp => device_policy_check dp subsystem
                         end
       end.

Definition auth_query c : bool * client := let (r, c') := ensure_role c in (role_query r, c').
Definition auth_device (subsystem : auth_subsystem) c (dev_number : Z) : bool * client :=
  let (r, c') := ensure_role c in (auth_check_device_permission r dev_number subsystem, c').

Definition auth_request_get_device_info c := auth_query c.
Definition auth_request_get_device_by_bdf c := auth_query c.
Definition auth_request_get_num_devices c := auth_query c.
Definition auth_request_get_bar_info c := auth_query c.
Definition auth_request_get_bar_fd := auth_device AUTH_SUBSYSTEM_BAR.
Definition auth_request_qdma_get_info c := auth_query c.
Definition auth_request_qdma_qpair_add := auth_device AUTH_SUBSYSTEM_QDMA.
Definition auth_request_qdma_qpair_op := auth_device AUTH_SUBSYSTEM_QDMA.
Definition auth_request_qdma_qpair_get_fd := auth_device AUTH_SUBSYSTEM_QDMA.
Definition auth_request_buffer_open := auth_device AUTH_SUBSYSTEM_BUFFER.
Definition auth_request_buffer_open_raw := auth_device AUTH_SUBSYSTEM_RAW_MEM_ACCESS.
Definition auth_request_buffer_close := auth_device AUTH_SUBSYSTEM_BUFFER.
Definition auth_request_design_write := auth_device AUTH_SUBSYSTEM_DESIGN_WRITE.
Definition auth_request_cfgmem_program := auth_device AUTH_SUBSYSTEM_CFGMEM_PROGRAM.
Definition auth_request_device_hotplug_op := auth_device AUTH_SUBSYSTEM_PCIE_HOTPLUG.
Definition auth_request_set_shell_state := auth_device AUTH_SUBSYSTEM_PCIE_HOTPLUG.
Definition auth_request_clock_op := auth_device AUTH_SUBSYSTEM_CLOCK.
Definition auth_request_get_sensor_info c := auth_query c.
End auth.

(** ** What the policies of a role grant *)

Definition grants (l : list device_policy) (bdf : string) (f : auth_subsystem) : Prop :=
  exists p, p ∈ l /\ dp_bdf p = bdf /\ device_policy_check p f = true.
Definition covers (l : list device_policy) (bdf : string) : Prop := bdf ∈ dp_bdf <$> l.

#[export] Instance covers_dec l b : Decision (covers l b).
Proof. unfold covers. apply _. Defined.

Lemma or_policy_check p q f : device_policy_check (or_policy p q) f = device_policy_check p f || device_policy_check q f.
Proof. by destruct f. Qed.

(** A merge replaces the policy that is found, or appends one. *)
Lemma merge_policy_cases l src :
  (exists l1 p l2, l = l1 ++ p :: l2 /\ dp_bdf p = dp_bdf src /\ merge_policy l src = l1 ++ or_policy p src :: l2) \/
  (~ covers l (dp_bdf src) /\ merge_policy l src = l ++ [or_policy (new_policy (dp_bdf src)) src]).
Proof.
  unfold merge_policy, find_or_create_device_policy, find_device_policy.
  destruct (list_find _ l) as [[i p]|] eqn:E; cbn [fst snd].
  - left. apply list_find_Some in E as (Hi & Hp & _). apply list_elem_of_split_length in Hi as (l1 & l2 & -> & ->).
    exists l1, p, l2. split; [done|]. split; [done|]. by rewrite insert_app_r_alt, Nat.sub_diag by lia.
  - right. apply list_find_None in E. split.
    + unfold covers. intros (p & Hp & Hin)%list_elem_of_fmap. rewrite Forall_forall in E. by apply (E p).
    + by rewrite insert_app_r_alt, Nat.sub_diag by lia.
Qed.

Lemma merge_policy_bdfs l src : NoDup (dp_bdf <$> l) -> NoDup (dp_bdf <$> merge_policy l src).
Proof.
  intros Hl. destruct (merge_policy_cases l src) as [(l1 & p & l2 & -> & Hp & ->)|[Hc ->]].
  - by rewrite fmap_app in *.
  - rewrite fmap_app. apply NoDup_app. split; [done|]. split; [|apply NoDup_singleton]. intros b Hb. by intros ->%list_elem_of_singleton.
Qed.

Lemma merge_policy_covers l src b : covers (merge_policy l src) b <-> covers l b \/ dp_bdf src = b.
Proof.
  unfold covers. destruct (merge_policy_cases l src) as [(l1 & p & l2 & -> & Hp & ->)|[Hc ->]]; rewrite !fmap_app; cbn; set_solver.
Qed.

Lemma grants_app l1 l2 b f : grants (l1 ++ l2) b f <-> grants l1 b f \/ grants l2 b f.
Proof. unfold grants. set_solver. Qed.

Lemma grants_cons p l b f : grants (p :: l) b f <-> dp_bdf p = b /\ device_policy_check p f = true \/ grants l b f.
Proof. unfold grants. set_solver. Qed.

Lemma grants_nil b f : ~ grants [] b f.
Proof. unfold grants. set_solver. Qed.

Lemma merge_policy_grants l src b f :
  grants (merge_policy l src) b f <-> grants l b f \/ dp_bdf src = b /\ device_policy_check src f = true.
Proof.
  destruct (merge_policy_cases l src) as [(l1 & p & l2 & -> & Hp & ->)|[Hc ->]];
    rewrite !grants_app, !grants_cons, or_policy_check, orb_true_iff; cbn [dp_bdf or_policy new_policy].
  - rewrite Hp. tauto.
  - pose proof (grants_nil b f). assert (device_policy_check (new_policy (dp_bdf src)) f = false) as -> by (by destruct f). naive_solver.
Qed.

(** ** The merge of the roles that apply *)

Section merge.
Context (cfg : config).
Implicit Types (r : role) (c : client).

(** A merged role: what it grants is what the roles merged so far grant. *)
Record merged (rs : list role) r : Prop := {
  merged_bdfs : NoDup (dp_bdf <$> device_policies r);
  merged_query : role_query r = existsb role_query rs;
  merged_covers b : covers (device_policies r) b <-> exists r', r' ∈ rs /\ covers (device_policies r') b;
  merged_grants b f : grants (device_policies r) b f <-> exists r', r' ∈ rs /\ grants (device_policies r') b f
}.

Lemma merged_new name : merged [] (role_merge_new name).
Proof using Type. split; [constructor|done|unfold covers; set_solver|unfold grants; set_solver]. Qed.

Lemma merge_policies src : forall l, NoDup (dp_bdf <$> l) ->
  NoDup (dp_bdf <$> foldl merge_policy l src) /\
  (forall b, covers (foldl merge_policy l src) b <-> covers l b \/ covers src b) /\
  (forall b f, grants (foldl merge_policy l src) b f <-> grants l b f \/ grants src b f).
Proof using Type.
  induction src as [|p src IH]; intros l Hl; cbn [foldl].
  - split; [done|]. split; [unfold covers; set_solver|]. intros b f. pose proof (grants_nil b f). tauto.
  - destruct (IH (merge_policy l p) (merge_policy_bdfs l p Hl)) as (H1 & H2 & H3). split; [done|]. split.
    + intros b. rewrite H2, merge_policy_covers. unfold covers. set_solver.
    + intros b f. rewrite H3, merge_policy_grants, grants_cons. tauto.
Qed.

Lemma merged_add rs r r' : merged rs r -> merged (rs ++ [r']) (role_merge_add_role r r').
Proof using Type.
  intros [Hb Hq Hc Hg]. destruct (merge_policies (device_policies r') (device_policies r) Hb) as (H1 & H2 & H3).
  unfold role_merge_add_role. split; cbn [device_policies role_query set_policies set_query].
  - done.
  - rewrite existsb_app, Hq. cbn. by rewrite orb_false_r.
  - intros b. rewrite H2, Hc. setoid_rewrite elem_of_app. setoid_rewrite list_elem_of_singleton. naive_solver.
  - intros b f. rewrite H3, Hg. setoid_rewrite elem_of_app. setoid_rewrite list_elem_of_singleton. naive_solver.
Qed.

(** The roles of references. *)
Definition roles_at (refs : list nat) : list role := omap (fun i => cfg_roles cfg !! i) refs.

Lemma merged_add_array refs : forall rs r, merged rs r ->
  merged (rs ++ roles_at refs) (role_merge_add_array (cfg_roles cfg) r refs).
Proof using Type.
  unfold role_merge_add_array. induction refs as [|i refs IH]; intros rs r Hr; cbn [foldl roles_at omap list_omap].
  - by rewrite app_nil_r.
  - destruct (cfg_roles cfg !! i) as [r'|] eqn:E; [|by apply IH].
    replace (rs ++ r' :: _) with ((rs ++ [r']) ++ roles_at refs) by (by rewrite <-(assoc_L (++))). by apply IH, merged_add.
Qed.

(** The roles that apply to a client: of the default user, of the users with
    its uid, of the groups with one of its gids. *)
Definition applicable c : list role :=
  roles_at (user_roles (default_user cfg)) ++
  (u ← filter (fun u => user_id u = cl_uid c) (cfg_users cfg); roles_at (user_roles u)) ++
  (g ← cfg_groups cfg; gid ← filter (fun gid => user_id g = gid) (cl_gids c); roles_at (user_roles g)).

Lemma merged_fold {A} (body : role -> A -> role) (rs_of : A -> list role) (l : list A) :
  (forall rs r x, merged rs r -> merged (rs ++ rs_of x) (body r x)) ->
  forall rs r, merged rs r -> merged (rs ++ (x ← l; rs_of x)) (foldl body r l).
Proof using Type.
  intros Hb. induction l as [|x l IH]; intros rs r Hr; cbn [foldl mbind list_bind]; [by rewrite app_nil_r|].
  rewrite (assoc_L (++)). by apply IH, Hb.
Qed.

Lemma merged_fold_filter {A} (P : A -> Prop) `{!forall x, Decision (P x)} (test : A -> bool) (refs : A -> list nat) (l : list A) :
  (forall x, test x = true <-> P x) -> forall rs r, merged rs r ->
  merged (rs ++ (x ← filter P l; roles_at (refs x)))
    (foldl (fun r x => if test x then role_merge_add_array (cfg_roles cfg) r (refs x) else r) r l).
Proof using Type.
  intros Ht. induction l as [|x l IH]; intros rs r Hr; cbn [foldl]; [by rewrite app_nil_r|].
  rewrite filter_cons. specialize (Ht x). destruct (test x), (decide (P x)); [|naive_solver..|].
  - cbn [mbind list_bind]. rewrite (assoc_L (++)). by apply IH, merged_add_array.
  - by apply IH.
Qed.

Lemma ensure_role_merged c : cl_role c = None -> merged (applicable c) (ensure_role cfg c).1.
Proof using Type.
  intros Hc. unfold ensure_role, applicable. rewrite Hc. cbn [fst]. rewrite (assoc_L (++)). apply merged_fold.
  - intros rs r g Hr. apply (merged_fold_filter (fun gid => user_id g = gid) (fun gid => user_id g =? gid) (fun _ => user_roles g));
      [intros gid; apply Z.eqb_eq|done].
  - apply (merged_fold_filter (fun u => user_id u = cl_uid c) (fun u => user_id u =? cl_uid c) user_roles); [intros u; apply Z.eqb_eq|].
    apply (merged_add_array _ []), merged_new.
Qed.
End merge.

(** ** Lookup *)

Lemma find_policy_exact bdf l : forall any, NoDup (dp_bdf <$> l) -> covers l bdf ->
  exists p, find_policy bdf any l = Some p /\ forall f, device_policy_check p f = true <-> grants l bdf f.
Proof.
  induction l as [|q l IH]; intros any Hnd Hc; [by apply elem_of_nil in Hc|]. cbn [find_policy].
  rewrite fmap_cons in Hnd. apply NoDup_cons in Hnd as [Hq Hnd]. destruct (String.eqb_spec (dp_bdf q) bdf) as [E|E].
  - exists q. split; [done|]. intros f. rewrite grants_cons. split; [tauto|]. intros [[_ H]|(p & Hp & Hb & _)]; [done|].
    destruct Hq. apply list_elem_of_fmap. exists p. by rewrite Hb.
  - destruct (IH (if String.eqb (dp_bdf q) "any" then Some q else any) Hnd) as (p & Hp & Hf).
    { unfold covers in *. set_solver. }
    exists p. split; [done|]. intros f. rewrite Hf, grants_cons. tauto.
Qed.

Lemma find_policy_other bdf l : forall any, NoDup (dp_bdf <$> l) -> ~ covers l bdf ->
  (covers l "any" -> exists p, find_policy bdf any l = Some p /\ forall f, device_policy_check p f = true <-> grants l "any" f) /\
  (~ covers l "any" -> find_policy bdf any l = any).
Proof.
  induction l as [|q l IH]; intros any Hnd Hc; [unfold covers; set_solver|]. cbn [find_policy].
  rewrite fmap_cons in Hnd. apply NoDup_cons in Hnd as [Hq Hnd].
  destruct (String.eqb_spec (dp_bdf q) bdf) as [E0|_]; [unfold covers in Hc; set_solver|].
  destruct (IH (if String.eqb (dp_bdf q) "any" then Some q else any) Hnd) as [H1 H2]; [unfold covers in *; set_solver|].
  destruct (String.eqb_spec (dp_bdf q) "any") as [E|E].
  - split; [|unfold covers; set_solver]. intros _. assert (~ covers l "any") as Hl by (unfold covers; by rewrite <-E).
    exists q. split; [by apply H2|]. intros f. rewrite grants_cons. split; [tauto|]. intros [[_ H]|(p & Hp & Hb & _)]; [done|].
    destruct Hl. apply list_elem_of_fmap. exists p. by rewrite Hb.
  - split.
    + intros Hany. destruct H1 as (p & Hp & Hf); [unfold covers in *; set_solver|]. exists p. split; [done|].
      intros f. rewrite Hf, grants_cons. tauto.
    + intros Hany. apply H2. unfold covers in *. set_solver.
Qed.

(** What a set of roles grants on a device. *)
Definition granted (rs : list role) (bdf : string) (f : auth_subsystem) : Prop :=
  (exists r, r ∈ rs /\ role_query r = true) /\
  ((exists r, r ∈ rs /\ grants (device_policies r) bdf f) \/
   (forall r, r ∈ rs -> ~ covers (device_policies r) bdf) /\ exists r, r ∈ rs /\ grants (device_policies r) "any" f).

Lemma grants_covers l b f : grants l b f -> covers l b.
Proof. intros (p & Hp & <- & _). apply list_elem_of_fmap. by exists p. Qed.

Lemma merged_check rs r devices bdf dev f : merged rs r -> devices !! Z.to_nat dev = Some bdf -> 0 <= dev ->
  auth_check_device_permission devices r dev f = true <-> granted rs bdf f.
Proof.
  intros [Hnd Hq Hc Hg] Hdev H0. unfold auth_check_device_permission, granted. rewrite <-!Hg, Hdev.
  pose proof (lookup_lt_Some _ _ _ Hdev). destruct (Z.leb_spec (Z.of_nat (length devices)) dev); [lia|].
  assert (role_query r = true <-> exists r', r' ∈ rs /\ role_query r' = true) as Hq'.
  { rewrite Hq, existsb_exists. by setoid_rewrite <-list_elem_of_In. }
  rewrite <-Hq'. destruct (role_query r); cbn [negb]; [|naive_solver].
  destruct (decide (covers (device_policies r) bdf)) as [Hex|Hex].
  - destruct (find_policy_exact bdf _ None Hnd Hex) as (p & -> & ->). split; [naive_solver|].
    intros [_ [?|[Hno _]]]; [done|]. apply Hc in Hex as (r' & Hr' & Hex). by destruct (Hno r' Hr').
  - assert (forall r', r' ∈ rs -> ~ covers (device_policies r') bdf) as Hno by (intros r' Hr' Hr; apply Hex, Hc; eauto).
    assert (~ grants (device_policies r) bdf f) as Hng by (intros Hgr; by apply Hex, (grants_covers _ _ f)).
    destruct (find_policy_other bdf _ None Hnd Hex) as [Ho1 Ho2]. destruct (decide (covers (device_policies r) "any")) as [Ha|Ha].
    + destruct (Ho1 Ha) as (p & -> & ->). naive_solver.
    + rewrite (Ho2 Ha). split; [done|]. intros [_ [?|[_ Hany]]]; [done|]. by destruct Ha; eapply grants_covers.
Qed.

(** A client as it connects, and one that has made requests. *)
Definition fresh (c : client) : client := {| cl_uid := cl_uid c; cl_gids := cl_gids c; cl_role := None |}.
Definition served (cfg : config) (c : client) : Prop :=
  cl_role c = None \/ cl_role c = Some (ensure_role cfg (fresh c)).1.

Lemma served_role cfg c : served cfg c -> (ensure_role cfg c).1 = (ensure_role cfg (fresh c)).1 /\ served cfg (ensure_role cfg c).2.
Proof.
  intros Hs. destruct c as [uid gids r]. unfold served, fresh in *. cbn in *. destruct Hs as [-> | ->].
  - split; [done|]. by right.
  - split; [done|]. by right.
Qed.

Lemma served_merged cfg c : served cfg c -> merged (applicable cfg c) (ensure_role cfg c).1.
Proof. intros Hs. destruct (served_role cfg c Hs) as [-> _]. by apply (ensure_role_merged cfg (fresh c)). Qed.

(** What a role says of a permission on a device: its policy for the device
    decides, or the one for any device where it has none. *)
Definition role_allows (r : role) (bdf : string) (f : auth_subsystem) : Prop :=
  if decide (covers (device_policies r) bdf) then grants (device_policies r) bdf f else grants (device_policies r) "any" f.

(** Some role allows queries. *)
Definition may_query (rs : list role) : Prop := exists r, r ∈ rs /\ role_query r = true.

Lemma granted_allowed rs bdf f : granted rs bdf f -> may_query rs /\ exists r, r ∈ rs /\ role_allows r bdf f.
Proof.
  intros [Hq Hg]. split; [exact Hq|]. unfold role_allows. destruct Hg as [(r & Hr & Hg)|(Hno & r & Hr & Hg)]; exists r; (split; [done|]).
  - rewrite decide_True; [done|]. by eapply grants_covers.
  - rewrite decide_False; [done|]. by apply Hno.
Qed.

Lemma auth_device_granted cfg devices c dev f : served cfg c -> 0 <= dev ->
  (auth_device cfg devices f c dev).1 = true <-> exists bdf, devices !! Z.to_nat dev = Some bdf /\ granted (applicable cfg c) bdf f.
Proof.
  intros Hs H0. pose proof (served_merged cfg c Hs) as Hm. unfold auth_device. destruct (ensure_role cfg c) as [r c']. cbn [fst snd] in *. split.
  - intros Hok. assert (exists bdf, devices !! Z.to_nat dev = Some bdf) as [bdf Hb].
    { unfold auth_check_device_permission in Hok. destruct (role_query r), (_ <=? _), (devices !! Z.to_nat dev); eauto; done. }
    exists bdf. split; [done|]. by eapply merged_check.
  - intros (bdf & Hb & Hg). by eapply merged_check.
Qed.


(** One role for everyone, which allows buffers on any device. *)
Definition open_config : config := {|
  cfg_roles := [{| role_name := "all"; device_policies := [set_flag AUTH_SUBSYSTEM_BUFFER true (new_policy "any")]; role_query := true |}];
  default_user := {| user_name := "*"; user_id := 0; role_names := ["all"%string]; user_roles := [0%nat] |};
  cfg_users := []; cfg_groups := []; mock_device := false |}.

