(* ===== verification/PolicyTheorems.v ===== *)
(** * Loading the policy

    Loading ends on every finite file system, whatever the files include; each
    file is read at most once, and a configuration that loads is well formed:
    role names, users and groups are unique, device selectors are canonical,
    users and groups carry the ids of the system, and their references lead
    exactly to the roles they name.

    Two concrete configurations at the end show where the code and its comments
    differ. *)

From S2P Require Import Prelude Except Policy Auth.
From Stdlib Require Import String Ascii.
From stdpp Require Import list strings sets.
Open Scope Z_scope.

(** ** Lists with unique keys *)

Section keyed.
Context {A : Type} (key : A -> string).
Implicit Types (l : list A).

Lemma keyed_update l i x x' : l !! i = Some x -> key x' = key x -> key <$> <[i := x']> l = key <$> l.
Proof using Type. intros Hi Hk. rewrite list_fmap_insert, Hk. apply list_insert_id. by rewrite list_lookup_fmap, Hi. Qed.

Lemma keyed_append l x : NoDup (key <$> l) -> list_find (fun y => key y = key x) l = None -> NoDup (key <$> l ++ [x]).
Proof using Type.
  intros Hl Hn. rewrite fmap_app. apply NoDup_app. split; [done|]. split; [|apply NoDup_singleton].
  intros k (y & Ek & Hy)%list_elem_of_fmap Hk%list_elem_of_singleton. apply list_find_None in Hn.
  rewrite Forall_forall in Hn. apply (Hn y Hy). by rewrite <-Ek.
Qed.

Lemma keyed_find l i x : NoDup (key <$> l) -> l !! i = Some x -> list_find (fun y => key y = key x) l = Some (i, x).
Proof using Type.
  intros Hl Hi. apply list_find_Some. split; [done|]. split; [done|]. intros j y Hj Hlt Hk.
  assert (j = i); [|lia]. apply (NoDup_lookup _ j i (key x) Hl); rewrite list_lookup_fmap.
  - rewrite Hj. cbn. by f_equal.
  - by rewrite Hi.
Qed.
End keyed.

(** ** Well-formed configurations *)

(** What [normalize_bdf] makes of a selector. *)
Definition canonical (b : string) : Prop := b = "any" \/ count_char ":" b = 2%nat /\ (String.length b < 32)%nat.

Definition wf_role (r : role) : Prop :=
  NoDup (dp_bdf <$> device_policies r) /\ Forall (fun p => canonical (dp_bdf p)) (device_policies r).

(** The users or groups, resolved by [getid], before roles are assigned. *)
Definition wf_entries (getid : string -> option Z) (l : list user_config) : Prop :=
  NoDup (user_name <$> l) /\ Forall (fun u => getid (user_name u) = Some (user_id u) /\ user_roles u = []) l.

Definition wf_roles (l : list role) : Prop := NoDup (role_name <$> l) /\ Forall wf_role l.

Section wf.
Context `{!System}.

Definition wf_config (c : config) : Prop :=
  wf_roles (cfg_roles c) /\ user_roles (default_user c) = [] /\
  wf_entries getpwnam (cfg_users c) /\ wf_entries getgrnam (cfg_groups c).

Lemma count_app a b c : count_char c (a +:+ b)%string = (count_char c a + count_char c b)%nat.
Proof using Type.
  induction a as [|x a IH]; [done|].
  change (count_char c (String x a +:+ b)) with ((if Ascii.eqb x c then 1 else 0) + count_char c (a +:+ b))%nat.
  rewrite IH. cbn. lia.
Qed.

Lemma normalize_canonical input b : normalize_bdf input 32 = Some b -> canonical b.
Proof using Type.
  unfold normalize_bdf. destruct (String.eqb input "any"); [by intros [= <-]; left|].
  destruct (64 <=? _)%nat; [done|]. set (buf := match strrchr _ _ with Some _ => _ | None => _ end).
  destruct (count_char ":" buf) as [|[|[|]]] eqn:E; [done| | |done]; cbv zeta;
    (case_match eqn:Hl; [done|]); intros [= <-]; right; apply Nat.leb_gt in Hl; (split; [|exact Hl]).
  - rewrite count_app, E. done.
  - done.
Qed.

Lemma wf_roles_update l i r r' : wf_roles l -> l !! i = Some r -> role_name r' = role_name r -> wf_role r' -> wf_roles (<[i := r']> l).
Proof using Type.
  intros [Hn Hw] Hi Hr Hr'. split; [by rewrite (keyed_update role_name l i r)|]. by apply Forall_insert.
Qed.

Lemma wf_roles_append l r : wf_roles l -> find_role (role_name r) l = None -> wf_role r -> wf_roles (l ++ [r]).
Proof using Type. intros [Hn Hw] Hf Hr. split; [by apply keyed_append|]. apply Forall_app. split; [done|]. by constructor. Qed.

Lemma wf_role_policies r i p p' : wf_role r -> device_policies r !! i = Some p -> dp_bdf p' = dp_bdf p ->
  wf_role (set_policies (<[i := p']> (device_policies r)) r).
Proof using Type.
  intros [Hn Hc] Hi Hp. split; cbn [device_policies set_policies]; [by rewrite (keyed_update dp_bdf _ i p)|].
  apply Forall_insert; [done|]. rewrite Hp. rewrite Forall_forall in Hc. by eapply Hc, list_elem_of_lookup_2.
Qed.

Lemma role_add_value_wf r r' name value : role_add_value r name value = Some r' -> wf_role r -> role_name r' = role_name r /\ wf_role r'.
Proof using Type. unfold role_add_value. repeat case_match; intros [= <-] Hr; by split. Qed.

Lemma device_policy_add_value_bdf p p' name value : device_policy_add_value p name value = Some p' -> dp_bdf p' = dp_bdf p.
Proof using Type. unfold device_policy_add_value, yes_no. repeat case_match; by intros [= <-]. Qed.

Lemma ewp_lift {S A} {ub nf : Prop} (o : option A) (s : S) Q X :
  (forall a, o = Some a -> Q a s) -> X tt s -> ewp ub nf (lift o) s Q X.
Proof using Type. destruct o; cbn; auto. Qed.

(** ** Handlers keep it *)

Definition keeps_wf (m : EM unit config unit) : Prop := forall c, wf_config c -> ewp False False m c (fun _ => wf_config) (fun _ => wf_config).

Lemma wf_new_role name : wf_role (new_role name).
Proof using Type. split; [apply NoDup_nil_2|constructor]. Qed.

Lemma role_wf objname name value : keeps_wf (role_find_and_add_value objname name value).
Proof using Type.
  intros c (Hr & Hrest). unfold role_find_and_add_value. ewp_step. ewp_step.
  destruct (find_role objname (cfg_roles c)) as [[i r]|] eqn:E; ewp_step; apply ewp_lift; try done; intros r' Hr'; ewp_step.
  - apply list_find_Some in E as (Hi & Hn & _).
    destruct (role_add_value_wf _ _ _ _ Hr') as [Hn' Hw']; [apply (Forall_lookup_1 _ _ _ _ (proj2 Hr) Hi)|].
    split; [|done]. by apply (wf_roles_update _ i r).
  - destruct (role_add_value_wf _ _ _ _ Hr' (wf_new_role objname)) as [Hn' Hw']. split; [|done].
    apply wf_roles_append; [done| |done]. by rewrite Hn'.
Qed.

Lemma role_find_or_create_wf name c (Q : nat * role -> config -> Prop) X : wf_config c ->
  (forall i r c', wf_config c' -> cfg_roles c' !! i = Some r -> Q (i, r) c') ->
  ewp False False (role_find_or_create name) c Q X.
Proof using Type.
  intros (Hr & Hrest) HQ. unfold role_find_or_create. ewp_step. ewp_step.
  destruct (find_role name (cfg_roles c)) as [[i r]|] eqn:E.
  - ewp_step. apply list_find_Some in E as (Hi & _). by apply HQ.
  - ewp_step. ewp_step. ewp_step. apply HQ; [split; [|done]; apply wf_roles_append; [done|done|apply wf_new_role]|].
    cbn [cfg_roles set_roles]. by rewrite lookup_app_r, Nat.sub_diag by lia.
Qed.

(** The role with a policy for a selector. *)
Lemma find_or_create_wf r bdf : wf_role r -> canonical bdf ->
  let found := find_or_create_device_policy (device_policies r) bdf in
  wf_role (set_policies found.1 r) /\ found.1 !! found.2.1 = Some found.2.2.
Proof using Type.
  intros [Hn Hc] Hb. unfold find_or_create_device_policy. destruct (find_device_policy (device_policies r) bdf) as [[i p]|] eqn:E;
    cbn [fst snd].
  - apply list_find_Some in E as (Hi & _). by destruct r.
  - split; [|by rewrite lookup_app_r, Nat.sub_diag by lia]. split; cbn [device_policies set_policies].
    + by apply keyed_append.
    + apply Forall_app. split; [done|]. by constructor.
Qed.

Lemma role_device_wf rname dev_selector name value : keeps_wf (role_device_find_and_add_value rname dev_selector name value).
Proof using Type.
  intros c Hc. unfold role_device_find_and_add_value. ewp_step. apply role_find_or_create_wf; [done|]. intros i r c' Hc' Hi.
  cbn [fst snd]. ewp_step. apply ewp_lift; [|done]. intros bdf Hbdf. destruct Hc' as (Hr & Hrest).
  pose proof (Forall_lookup_1 _ _ _ _ (proj2 Hr) Hi) as Hri.
  destruct (find_or_create_wf r bdf Hri (normalize_canonical _ _ Hbdf)) as [Hw Hf]. cbv zeta.
  set (found := find_or_create_device_policy _ _) in *.
  assert (wf_roles (<[i := set_policies found.1 r]> (cfg_roles c'))) as Hr1 by (by apply (wf_roles_update _ i r)).
  ewp_step. ewp_step. ewp_step. apply ewp_lift; [|by split]. intros dp Hdp. ewp_step. split; [|done].
  cbn [cfg_roles set_roles]. rewrite list_insert_insert, decide_True by done. apply (wf_roles_update _ i r); [done|done|done|].
  apply (wf_role_policies (set_policies found.1 r) _ _ _ Hw Hf). by eapply device_policy_add_value_bdf.
Qed.

Lemma entry_wf getid l l' objname name value : wf_entries getid l ->
  entry_add_value getid l objname name value = Some l' -> wf_entries getid l'.
Proof using Type.
  intros [Hn Hw] E. unfold entry_add_value, user_add_value in E.
  destruct (list_find _ l) as [[i u]|] eqn:F.
  - destruct (String.eqb name "role"); [|done]. injection E as <-. apply list_find_Some in F as (Hi & Hu & _).
    split; [by rewrite (keyed_update user_name l i u)|]. apply Forall_insert; [done|]. apply (Forall_lookup_1 _ _ _ _ Hw Hi).
  - destruct (getid objname) as [id|] eqn:G; [|done]. destruct (String.eqb name "role"); [|done]. injection E as <-.
    split; [by apply keyed_append|]. apply Forall_app. split; [done|]. by constructor.
Qed.

Lemma user_wf objname name value : keeps_wf (user_find_and_add_value objname name value).
Proof using Type.
  intros c (Hr & Hd & Hu & Hg). unfold user_find_and_add_value. ewp_step; do 3 ewp_step; (apply ewp_lift; [|done]).
  - intros u' E. ewp_step. unfold user_add_value in E. destruct (String.eqb name "role"); [|done]. by injection E as <-.
  - intros l' E. ewp_step. split; [done|]. split; [done|]. split; [by eapply entry_wf|done].
Qed.

Lemma group_wf objname name value : keeps_wf (group_find_and_add_value objname name value).
Proof using Type.
  intros c (Hr & Hd & Hu & Hg). unfold group_find_and_add_value. do 3 ewp_step. apply ewp_lift; [|done].
  intros l' E. ewp_step. split; [done|]. split; [done|]. split; [done|by eapply entry_wf].
Qed.
End wf.

(** ** Loading *)

Section load.
Context `{!System} (files : list string) (Hfiles : forall p q, realpath p = Some q -> q ∈ files).
Implicit Types (s : config_parse_state).
Abbreviation PM := (EM unit config_parse_state).

(** The configuration so far, and files of the system without repetition. *)
Definition parsing s : Prop :=
  wf_config (ps_config s) /\ NoDup (visited_files s) /\ forall f, f ∈ visited_files s -> f ∈ files.
Definition grown s s' : Prop := parsing s' /\ (length (visited_files s) <= length (visited_files s'))%nat.

(** [m] returns when [n] files more can be nested. *)
Definition parses (n : nat) {A} (m : PM A) : Prop := forall s, parsing s -> (length files < n + length (visited_files s))%nat ->
  ewp False False m s (fun _ => grown s) (fun _ => grown s).

Lemma parses_ret n {A} (a : A) : parses n (mret a).
Proof using Type. intros s Hs _. ewp_step. by split. Qed.

Lemma parses_bind n {A B} (m : PM A) (k : A -> PM B) : parses n m -> (forall a, parses n (k a)) -> parses n (m ≫= k).
Proof using Type.
  intros Hm Hk s Hs Hn. ewp_step. eapply ewp_mono; [by apply Hm| |done]. intros a s' [Hs' Hl].
  eapply ewp_mono; [apply Hk; [done|lia]| |]; intros ? s2 [H2 Hl2]; (split; [done|lia]).
Qed.

Lemma parses_succeeds n (m : PM unit) : parses n m -> parses n (succeeds m).
Proof using Type.
  intros Hm s Hs Hn. specialize (Hm s Hs Hn). unfold ewp, post, succeeds in *. by destruct (m s) as [[]| |].
Qed.

Lemma parses_on_config n m : keeps_wf m -> parses n (on_config m).
Proof using Type.
  intros Hm s (Hw & Hv) Hn. unfold on_config. ewp_step. eapply ewp_mono; [by apply Hm| |]; intros ? c Hc; (split; [split; [done|exact Hv]|done]).
Qed.

Lemma parses_each n {A} (body : A -> PM unit) l : (forall x, parses n (body x)) -> parses n (each l body).
Proof using Type. intros Hb. induction l; [apply parses_ret|]. by apply parses_bind. Qed.

Lemma parses_ini_lines n handler l : (forall a b c, parses n (handler a b c)) -> forall error, parses n (ini_lines handler error l).
Proof using Type.
  intros Hh. induction l as [|x l IH]; intros error; [apply parses_ret|]. cbn [ini_lines]. apply parses_bind.
  - destruct (line_pair x) as [[[a b] c]|]; [apply Hh|apply parses_ret].
  - intros ok. cbv zeta. destruct (_ && _); [apply parses_ret|apply IH].
Qed.

Lemma parses_unique n handler path : (forall a b c, parses n (handler a b c)) -> parses n (parse_file_unique handler path).
Proof using Type.
  intros Hh. apply parses_bind.
  - unfold ini_parse. destruct (ini_read path); [by apply parses_ini_lines|apply parses_ret].
  - intros ret s Hs _. ewp_step; by split.
Qed.

Lemma parses_callback n parse_file section name value : (forall p, parses n (parse_file p)) ->
  parses n (parse_config_callback parse_file section name value).
Proof using Type.
  intros Hp. unfold parse_config_callback. destruct (_ && _); [by apply parses_succeeds|]. destruct (_ && _).
  { apply parses_succeeds. intros s. unfold parse_file_glob. intros Hs Hn. ewp_step. ewp_step. cbv zeta.
    destruct (glob _); [by apply (parses_each n)|by apply (parses_ret n)..]. }
  destruct (_ && _).
  { intros s Hs Hn. ewp_step. ewp_step. ewp_step. by split. }
  destruct (match_object "role" section) as [objname|].
  { apply parses_succeeds, parses_on_config. destruct (strchr ":" objname) as [[]|]; [apply role_device_wf|apply role_wf]. }
  destruct (match_object "user" section); [apply parses_succeeds, parses_on_config, user_wf|].
  destruct (match_object "group" section); [apply parses_succeeds, parses_on_config, group_wf|apply parses_ret].
Qed.

Lemma parsing_bound s : parsing s -> (length (visited_files s) <= length files)%nat.
Proof using Type. intros (_ & Hn & Hf). by apply submseteq_length, NoDup_submseteq. Qed.

Lemma parses_file n : forall path, parses n (parse_file n path).
Proof using Hfiles.
  induction n as [|n IH]; intros path s Hs Hn.
  { pose proof (parsing_bound s Hs). lia. }
  cbn [parse_file]. ewp_step. apply ewp_lift; [|by split]. intros full Hfull. ewp_step. ewp_step. apply ewp_if; intros Hnew; [ewp_step; by split|].
  ewp_step. ewp_step. destruct Hs as (Hw & Hv & Hf).
  assert (parsing (push_visited full s)) as Hs1.
  { split; [done|]. cbn [visited_files push_visited]. split.
    - apply NoDup_app. split; [done|]. split; [|apply NoDup_singleton]. intros f Hin ->%list_elem_of_singleton.
      rewrite list_elem_of_In in Hin. assert (existsb (String.eqb full) (visited_files s) = true); [|congruence].
      apply existsb_exists. exists full. split; [done|apply String.eqb_refl].
    - intros f [?| ->%list_elem_of_singleton]%elem_of_app; [by apply Hf|by eapply Hfiles]. }
  eapply ewp_mono; [apply (parses_unique n); [intros; by apply parses_callback|done|]| |].
  { cbn [visited_files push_visited]. rewrite length_app. cbn. lia. }
  all: intros ? s' [Hs' Hl]; (split; [done|]); cbn [visited_files push_visited] in Hl; rewrite length_app in Hl; lia.
Qed.

(** What a loaded configuration satisfies. *)
Definition resolved (roles : list role) (u : user_config) : Prop :=
  forall i, i ∈ user_roles u <-> exists r, roles !! i = Some r /\ role_name r ∈ role_names u.

Record loaded (cfg : config) : Prop := {
  loaded_roles : wf_roles (cfg_roles cfg);
  loaded_users : NoDup (user_name <$> cfg_users cfg) /\
    Forall (fun u => getpwnam (user_name u) = Some (user_id u)) (cfg_users cfg);
  loaded_groups : NoDup (user_name <$> cfg_groups cfg) /\
    Forall (fun g => getgrnam (user_name g) = Some (user_id g)) (cfg_groups cfg);
  loaded_refs : Forall (resolved (cfg_roles cfg)) (default_user cfg :: cfg_users cfg ++ cfg_groups cfg)
}.

Lemma assign_resolved roles u : wf_roles roles -> user_roles u = [] -> resolved roles (assign_roles roles u).
Proof using Type.
  intros [Hn _] Hu i. unfold assign_roles. cbn [user_roles role_names]. rewrite Hu, app_nil_l, list_elem_of_omap. split.
  - intros (n & Hin & Hf). unfold find_role in Hf. destruct (list_find _ roles) as [[j r]|] eqn:E; [|done]. injection Hf as ->.
    apply list_find_Some in E as (Hi & <- & _). by exists r.
  - intros (r & Hi & Hin). exists (role_name r). split; [done|]. unfold find_role. by rewrite (keyed_find role_name roles i r).
Qed.

Lemma assign_loaded c : wf_config c -> loaded (assign_groups_roles (assign_users_roles c)).
Proof using Type.
  intros (Hr & Hd & [Hun Hu] & [Hgn Hg]).
  assert (forall l : list user_config, user_name <$> (assign_roles (cfg_roles c) <$> l) = user_name <$> l) as Hnames.
  { intros l. rewrite <-list_fmap_compose. by apply list_fmap_ext. }
  split; cbn [cfg_roles cfg_users cfg_groups default_user assign_groups_roles assign_users_roles set_groups set_users set_default_user].
  - done.
  - rewrite Hnames. split; [done|]. apply Forall_fmap. eapply Forall_impl; [exact Hu|]. by intros u [].
  - rewrite Hnames. split; [done|]. apply Forall_fmap. eapply Forall_impl; [exact Hg|]. by intros u [].
  - constructor; [by apply assign_resolved|]. apply Forall_app. split; apply Forall_fmap.
    + eapply Forall_impl; [exact Hu|]. intros u []. by apply assign_resolved.
    + eapply Forall_impl; [exact Hg|]. intros u []. by apply assign_resolved.
Qed.

Lemma resolved_roles cfg u r : resolved (cfg_roles cfg) u ->
  r ∈ roles_at cfg (user_roles u) <-> r ∈ cfg_roles cfg /\ role_name r ∈ role_names u.
Proof using Type.
  intros Hu. unfold roles_at. rewrite list_elem_of_omap. split.
  - intros (i & Hi & Hr). split; [by eapply list_elem_of_lookup_2|]. apply Hu in Hi as (r' & Hr' & Hin). by simplify_eq.
  - intros ([i Hi]%list_elem_of_lookup & Hin). exists i. split; [|done]. apply Hu. by exists r.
Qed.

Lemma initial_parsing : parsing initial_parse_state.
Proof using Type. by repeat split; try constructor; try (intros ? ?%elem_of_nil). Qed.

Lemma config_load_spec fuel : (length files < fuel)%nat ->
  ewp False False (config_load fuel) initial_parse_state (fun cfg s' => loaded cfg /\ NoDup (visited_files s'))
    (fun _ s' => NoDup (visited_files s')).
Proof using Hfiles.
  intros Hf. unfold config_load. ewp_step.
  eapply ewp_mono; [apply (parses_file fuel); [apply initial_parsing|cbn; lia]| |].
  - intros _ s' [(Hw & Hv & _) _]. ewp_step. ewp_step. ewp_step. split; [by apply assign_loaded|done].
  - by intros _ s' [(_ & Hv & _) _].
Qed.
End load.

(** C25: loading the configuration ends.  On any system with finitely many
    files, however they include each other and whichever way the parser treats
    errors, loading returns a configuration or an error, without undefined
    behaviour, having read each file at most once: one level of recursion more
    than there are files is enough. *)
Theorem config_load_returns `{!System} files fuel : (forall p q, realpath p = Some q -> q ∈ files) -> (length files < fuel)%nat ->
  exists r s', config_load fuel initial_parse_state = Ret r s' /\ NoDup (visited_files s').
Proof.
  intros Hfiles Hf. pose proof (config_load_spec files Hfiles fuel Hf) as Hspec. unfold ewp, post in Hspec.
  destruct (config_load fuel initial_parse_state) as [[cfg|e] s'| |]; [| |done..].
  - destruct Hspec as [_ Hv]. by exists (Val cfg), s'.
  - by exists (Exn e), s'.
Qed.


(** ** A site *)

Definition site_files : list string := ["/etc/vrt/vrtd.conf"; "/opt/site/roles.conf"; "/etc/vrt/vrtd.conf.d/group.conf"]%string.

Definition pair (section name value : string) : ini_line := {| line_no := 1; line_pair := Some (section, name, value) |}.

(** The main file includes a fragment, which includes the main file again, and
    then the fragments next to it; [lab] says whether user ann also has the role
    of the lab. *)
Definition site (lab : bool) : System := {|
  realpath p := if existsb (String.eqb p) site_files then Some p else None;
  glob p := if String.eqb p "/etc/vrt/vrtd.conf.d/*.conf" then GlobPaths ["/etc/vrt/vrtd.conf.d/group.conf"]%string else GlobNoMatch;
  ini_read p :=
    IniLines
      (if String.eqb p "/etc/vrt/vrtd.conf" then
         [pair "" "include" "/opt/site/roles.conf"; pair "" "include-glob" "vrtd.conf.d/*.conf"; pair "user:ann" "role" "base"]
         ++ (if lab then [pair "user:ann" "role" "lab"] else [])
       else if String.eqb p "/opt/site/roles.conf" then
         [pair "" "include" "/etc/vrt/vrtd.conf"; pair "role:base" "query-devices" "yes"; pair "role:base:any" "buffer" "yes";
          pair "role:lab:03:00.0" "clock" "yes"]
       else [pair "group:staff" "role" "base"]);
  ini_stop_on_first_error := false;
  getpwnam n := if String.eqb n "ann" then Some 1000 else None;
  getgrnam n := if String.eqb n "staff" then Some 50 else None;
  getenv_config := None
|}.

(** A test of the configuration of the site and the files that were read. *)
Definition site_test (lab : bool) (P : config -> list string -> bool) : bool :=
  match @config_load (site lab) 5 initial_parse_state with
  | Ret (Val cfg) s => P cfg (visited_files s)
  | _ => false
  end.

Definition ann : client := {| cl_uid := 1000; cl_gids := [1000]; cl_role := None |}.

Lemma site_finite lab p q : @realpath (site lab) p = Some q -> q ∈ site_files.
Proof.
  cbn. destruct (String.eqb_spec p "/etc/vrt/vrtd.conf") as [->|_]; [intros [= <-]; set_solver|].
  destruct (String.eqb_spec p "/opt/site/roles.conf") as [->|_]; [intros [= <-]; set_solver|].
  destruct (String.eqb_spec p "/etc/vrt/vrtd.conf.d/group.conf") as [->|_]; [intros [= <-]; set_solver|done].
Qed.

Lemma config_load_returns_witness : exists r s', @config_load (site true) 4 initial_parse_state = Ret r s' /\ NoDup (visited_files s').
Proof. exact (@config_load_returns (site true) site_files 4 (site_finite true) (le_n 4)). Defined.


(** ** Where the comments differ *)

(** A role that is added can take a permission away.  The comments say that
    roles are merged by union and that what one grants no other revokes; but a
    policy for the device, of any role, hides the policies for any device of
    all others.  User ann may open buffers with the role base; with the role lab
    as well, which allows clocks on one device, no longer on that device. *)
Lemma additional_role_revokes :
  site_test false (fun cfg _ => (auth_request_buffer_open cfg ["0000:03:00"]%string ann 0).1) = true /\
  site_test true (fun cfg _ => negb (auth_request_buffer_open cfg ["0000:03:00"]%string ann 0).1
                               && (auth_request_clock_op cfg ["0000:03:00"]%string ann 0).1) = true.
Proof. by vm_compute. Qed.

(** A relative pattern is resolved against the directory of the file that was
    entered last, which after an include is the included file: the fragments
    next to the main file are not read. *)
Lemma relative_glob_misses :
  @glob (site false) "/etc/vrt/vrtd.conf.d/*.conf" = GlobPaths ["/etc/vrt/vrtd.conf.d/group.conf"]%string /\
  site_test false (fun cfg visited => bool_decide (visited = ["/etc/vrt/vrtd.conf"; "/opt/site/roles.conf"]%string)
                                      && bool_decide (cfg_groups cfg = [])) = true.
Proof. by vm_compute. Qed.
