(* ===== verification/Daemon.v ===== *)
(** * Buffers and connections of the daemon

    Model of [src/vrt/vrtd/src/buffer.c], of the buffer handlers and the
    clean-up of connections in [serve.c], of [cleanup_device] in [device.c] and
    of the acceptance of connections in [accept.c].  The QDMA library is the
    class [Qdma].  A request handler that returns an error code is a computation
    that throws it; a buffer pointer that is NULL is a throw of the partial
    buffer that was cleaned up.  Logging is left out, memory allocation
    succeeds, and the device array has no NULL entry. *)

From S2P Require Import Prelude Except MemoryMap Policy Auth.
From Stdlib Require Import String.
From stdpp Require Import list strings.
Open Scope Z_scope.

(** ** Buffers *)

(** The QDMA library and [close]: adding a queue pair with its direction mask
    and channel gives its id; [qd_errno] is [errno] after the last call. *)
Class Qdma (Q : Type) := {
  qd_add : Z -> Z -> Q -> option Z * Q;
  qd_start : Z -> Q -> bool * Q;
  qd_stop : Z -> Q -> bool * Q;
  qd_del : Z -> Q -> bool * Q;
  qd_get_fd : list Z -> Q -> Z * Q;
  qd_close : Z -> Q -> bool * Q;
  qd_errno : Q -> Z
}.

Definition EINVAL : Z := 22.
Definition ENOMEM : Z := 12.

(** [struct buffer]; [b_map] is [map != NULL], [qpair_count] the length of [b_qids]. *)
Record buffer := mkBuffer {
  b_map : bool; b_type : allocation_type; b_client : Z; b_addr : Z; b_size : Z; b_qids : list Z; b_fd : Z;
  allocation_valid : bool; qpair_created : bool
}.

Definition set_allocation (type : allocation_type) (addr size : Z) (b : buffer) : buffer :=
  mkBuffer (b_map b) type (b_client b) addr size (b_qids b) (b_fd b) true (qpair_created b).
Definition push_qid (q : Z) (b : buffer) : buffer :=
  mkBuffer (b_map b) (b_type b) (b_client b) (b_addr b) (b_size b) (b_qids b ++ [q]) (b_fd b) (allocation_valid b) true.
Definition set_fd (fd : Z) (b : buffer) : buffer :=
  mkBuffer (b_map b) (b_type b) (b_client b) (b_addr b) (b_size b) (b_qids b) fd (allocation_valid b) (qpair_created b).

(** The library, [errno], and the memory map of the device, if it has one. *)
Record benv (Q : Type) := mkEnv { e_map : option device_memory_map; e_q : Q; e_errno : Z }.
Arguments mkEnv {Q}.
Arguments e_map {Q}.
Arguments e_q {Q}.
Arguments e_errno {Q}.

Definition SLASH_QDMA_MM_CHANNEL_AUTO : Z := 0.
Definition SLASH_QDMA_MM_CHANNEL_0 : Z := 1.
Definition SLASH_QDMA_MM_CHANNEL_1 : Z := 2.

Definition buffer_plan_qpair_channels (mm_channel : Z) : list Z :=
  if mm_channel =? SLASH_QDMA_MM_CHANNEL_AUTO then [SLASH_QDMA_MM_CHANNEL_0; SLASH_QDMA_MM_CHANNEL_1] else [mm_channel].

(** The direction mask of [enum vrtd_alloc_dir]. *)
Definition dir_mask (alloc_dir : Z) : option Z :=
  if alloc_dir =? 0 then Some 3 else if alloc_dir =? 1 then Some 1 else if alloc_dir =? 2 then Some 2 else None.

(** [enum allocation_type] *)
Definition allocation_type_of (t : Z) : option allocation_type :=
  if t =? 0 then Some ALLOCATION_TYPE_DDR else if t =? 1 then Some ALLOCATION_TYPE_HBM
  else if t =? 2 then Some ALLOCATION_TYPE_HBM_VNOC else None.

Section buffer.
Context {Q : Type} `{!Qdma Q}.

Definition call {E A} (f : Q -> A * Q) : EM E (benv Q) A := fun e =>
  let r := f (e_q e) in Ret (Val r.1) (mkEnv (e_map e) r.2 (qd_errno r.2)).
Definition call_ {A} (f : Q -> A * Q) (e : benv Q) : benv Q :=
  let r := f (e_q e) in mkEnv (e_map e) r.2 (qd_errno r.2).
Definition set_errno (n : Z) (e : benv Q) : benv Q := mkEnv (e_map e) (e_q e) n.

Definition cleanup_buffer (b : buffer) (e : benv Q) : benv Q :=
  let e := if 0 <=? b_fd b then call_ (qd_close (b_fd b)) e else e in
  let e := if qpair_created b then foldl (fun e q => call_ (qd_del q) (call_ (qd_stop q) e)) e (b_qids b) else e in
  if allocation_valid b && b_map b then
    match e_map e with
    | Some m => mkEnv (Some (device_memory_map_free m (b_type b) (b_addr b) (b_size b) (b_client b)).1) (e_q e) (e_errno e)
    | None => e
    end
  else e.

(** The loop over the channels; a failure throws the buffer as it is. *)
Fixpoint add_qpairs (dir : Z) (channels : list Z) (b : buffer) : EM buffer (benv Q) buffer :=
  match channels with
  | [] => mret b
  | ch :: channels' =>
      qid ← call (qd_add dir ch);
      match qid with
      | None => throw b
      | Some q =>
          ok ← call (qd_start q);
          if ok : bool then add_qpairs dir channels' (push_qid q b) else throw (push_qid q b)
      end
  end.

Definition get_fd (b : buffer) : EM buffer (benv Q) buffer :=
  fd ← call (qd_get_fd (b_qids b));
  if fd <? 0 then throw (set_fd fd b) else mret (set_fd fd b).

(** [goto fail] *)
Definition or_cleanup (m : EM buffer (benv Q) buffer) : EM unit (benv Q) buffer := fun e =>
  match m e with
  | Ret (Val b) e' => Ret (Val b) e'
  | Ret (Exn b) e' => Ret (Exn tt) (cleanup_buffer b e')
  | Ub => Ub
  | NoFuel => NoFuel
  end.

Definition buffer_init (alloc_type alloc_dir size alloc_arg client_id mm_channel : Z) : EM buffer (benv Q) buffer :=
  let b := mkBuffer true ALLOCATION_TYPE_DDR client_id 0 0 [] (-1) false false in
  if (size =? 0) || (client_id =? 0) then updates (set_errno EINVAL);; throw b
  else match dir_mask alloc_dir with
  | None => updates (set_errno EINVAL);; throw b
  | Some dir =>
      map ← asks e_map;
      match map, allocation_type_of alloc_type with
      | Some m, Some type =>
          let r := device_memory_map_allocate m type size alloc_arg client_id in
          match r.2 with
          | Allocated addr size' =>
              updates (fun e => mkEnv (Some r.1) (e_q e) (e_errno e));;
              b ← add_qpairs dir (buffer_plan_qpair_channels mm_channel) (set_allocation type addr size' b);
              get_fd b
          | NoMemory => updates (set_errno ENOMEM);; throw b
          | BadArgument => updates (set_errno EINVAL);; throw b
          end
      | _, _ => updates (set_errno EINVAL);; throw b
      end
  end.

Definition buffer_create (alloc_type alloc_dir size alloc_arg client_id mm_channel : Z) : EM unit (benv Q) buffer :=
  or_cleanup (buffer_init alloc_type alloc_dir size alloc_arg client_id mm_channel).

Definition buffer_create_raw (phys_addr size alloc_dir client_id mm_channel : Z) : EM unit (benv Q) buffer :=
  if size =? 0 then updates (set_errno EINVAL);; throw tt
  else match dir_mask alloc_dir with
  | None => updates (set_errno EINVAL);; throw tt
  | Some dir =>
      or_cleanup (
        b ← add_qpairs dir (buffer_plan_qpair_channels mm_channel)
              (mkBuffer false ALLOCATION_TYPE_DDR client_id phys_addr size [] (-1) false false);
        get_fd b)
  end.
End buffer.

(** ** The daemon *)

Inductive vrtd_ret := RET_BAD_REQUEST | RET_INVALID_ARGUMENT | RET_NOEXIST | RET_INTERNAL_ERROR | RET_AUTH_ERROR | RET_BUSY.

(** The parts of [struct device] that buffers use; [d_qdma] is [qdma != NULL]. *)
Record device := mkDevice { d_bdf : string; d_qdma : bool; d_map : option device_memory_map; d_buffers : list buffer }.

Record connection := { conn_id : Z; conn_client : client }.

Record vrtd (Q : Type) := mkVrtd {
  v_config : config; v_clients : list connection; next_conn_id : Z; v_devices : list device; v_q : Q; v_errno : Z;
  async_device_op_in_progress : bool; deferred_conn_ids : list Z
}.
Arguments mkVrtd {Q}.
Arguments v_config {Q}.
Arguments v_clients {Q}.
Arguments next_conn_id {Q}.
Arguments v_devices {Q}.
Arguments v_q {Q}.
Arguments v_errno {Q}.
Arguments async_device_op_in_progress {Q}.
Arguments deferred_conn_ids {Q}.

Section daemon.
Context {Q : Type} `{!Qdma Q}.
Implicit Types (v : vrtd Q) (d : device).

Definition set_clients (l : list connection) v : vrtd Q :=
  mkVrtd (v_config v) l (next_conn_id v) (v_devices v) (v_q v) (v_errno v) (async_device_op_in_progress v) (deferred_conn_ids v).
Definition set_devices (l : list device) v : vrtd Q :=
  mkVrtd (v_config v) (v_clients v) (next_conn_id v) l (v_q v) (v_errno v) (async_device_op_in_progress v) (deferred_conn_ids v).
Definition set_async (b : bool) (deferred : list Z) v : vrtd Q :=
  mkVrtd (v_config v) (v_clients v) (next_conn_id v) (v_devices v) (v_q v) (v_errno v) b deferred.

(** The library and the map of device [i]. *)
Definition dev_env (i : nat) v : benv Q := mkEnv (v_devices v !! i ≫= d_map) (v_q v) (v_errno v).
Definition put_env (i : nat) (e : benv Q) v : vrtd Q :=
  mkVrtd (v_config v) (v_clients v) (next_conn_id v)
    (alter (fun d => mkDevice (d_bdf d) (d_qdma d) (e_map e) (d_buffers d)) i (v_devices v))
    (e_q e) (e_errno e) (async_device_op_in_progress v) (deferred_conn_ids v).
Definition put_buffers (i : nat) (l : list buffer) v : vrtd Q :=
  set_devices (alter (fun d => mkDevice (d_bdf d) (d_qdma d) (d_map d) l) i (v_devices v)) v.

Abbreviation DM := (EM vrtd_ret (vrtd Q)).

(** The authorization of connection [k], which caches its role. *)
Definition authorize (k : nat) (check : config -> list string -> client -> bool * client) : DM connection :=
  v ← asks id;
  match v_clients v !! k with
  | None => undefined
  | Some c =>
      let r := check (v_config v) (d_bdf <$> v_devices v) (conn_client c) in
      let c' := {| conn_id := conn_id c; conn_client := r.2 |} in
      updates (fun v => set_clients (<[k := c']> (v_clients v)) v);;
      throw_if (negb r.1) RET_AUTH_ERROR;;
      mret c'
  end.

(** [struct vrtd_req_buffer_open]; [ro_len] is the size of the message. *)
Record req_buffer_open := {
  ro_len : Z; ro_dev : Z; ro_type : Z; ro_dir : Z; ro_channel : Z; ro_arg : Z; ro_size : Z
}.

Definition dev_at (dev_number : Z) v : option device := v_devices v !! Z.to_nat dev_number.

(** A created buffer enters the list of the device. *)
Definition track (i : nat) (b : buffer) : DM unit :=
  throw_if ((length (b_qids b) =? 0)%nat || (2 <? length (b_qids b))%nat || (b_fd b <? 0)) RET_INTERNAL_ERROR;;
  v ← asks id;
  match v_devices v !! i with
  | None => undefined
  | Some d => updates (put_buffers i (d_buffers d ++ [b]))
  end.

(** The return code for a NULL buffer. *)
Definition create_error (raw : bool) : DM buffer :=
  errno ← asks v_errno;
  if errno =? EINVAL then throw RET_INVALID_ARGUMENT
  else if negb raw && (errno =? ENOMEM) then throw RET_BUSY
  else throw RET_INTERNAL_ERROR.

Definition created (i : nat) (raw : bool) (m : EM unit (benv Q) buffer) : DM buffer := fun v =>
  match m (dev_env i v) with
  | Ret (Val b) e => Ret (Val b) (put_env i e v)
  | Ret (Exn _) e => create_error raw (put_env i e v)
  | Ub => Ub
  | NoFuel => NoFuel
  end.

(** The response: size, address, number of queue pairs, descriptor. *)
Definition client_handle_request_buffer_open (k : nat) (r : req_buffer_open) : DM (Z * Z * nat * Z) :=
  c ← authorize k (fun cfg devices c => auth_request_buffer_open cfg devices c (ro_dev r));
  throw_if (ro_len r <? 32) RET_BAD_REQUEST;;
  v ← asks id;
  throw_if (Z.of_nat (length (v_devices v)) <=? ro_dev r) RET_NOEXIST;;
  throw_if (ro_size r =? 0) RET_INVALID_ARGUMENT;;
  throw_if (SLASH_QDMA_MM_CHANNEL_1 <? ro_channel r) RET_INVALID_ARGUMENT;;
  match dev_at (ro_dev r) v with
  | None => undefined
  | Some d =>
      throw_if (negb (d_qdma d) || bool_decide (d_map d = None)) RET_NOEXIST;;
      throw_if (conn_id c =? 0) RET_INTERNAL_ERROR;;
      let i := Z.to_nat (ro_dev r) in
      b ← created i false (buffer_create (ro_type r) (ro_dir r) (ro_size r) (ro_arg r) (conn_id c) (ro_channel r));
      track i b;;
      mret (b_size b, b_addr b, length (b_qids b), b_fd b)
  end.

(** [struct vrtd_req_buffer_open_raw] *)
Record req_buffer_open_raw := { rr_len : Z; rr_dev : Z; rr_dir : Z; rr_channel : Z; rr_addr : Z; rr_size : Z }.

Definition client_handle_request_buffer_open_raw (k : nat) (r : req_buffer_open_raw) : DM (nat * Z) :=
  c ← authorize k (fun cfg devices c => auth_request_buffer_open_raw cfg devices c (rr_dev r));
  throw_if (rr_len r <? 28) RET_BAD_REQUEST;;
  v ← asks id;
  throw_if (Z.of_nat (length (v_devices v)) <=? rr_dev r) RET_NOEXIST;;
  throw_if (rr_size r =? 0) RET_INVALID_ARGUMENT;;
  throw_if (SLASH_QDMA_MM_CHANNEL_1 <? rr_channel r) RET_INVALID_ARGUMENT;;
  match dev_at (rr_dev r) v with
  | None => undefined
  | Some d =>
      throw_if (negb (d_qdma d)) RET_NOEXIST;;
      throw_if (conn_id c =? 0) RET_INTERNAL_ERROR;;
      let i := Z.to_nat (rr_dev r) in
      b ← created i true (buffer_create_raw (rr_addr r) (rr_size r) (rr_dir r) (conn_id c) (rr_channel r));
      track i b;;
      mret (length (b_qids b), b_fd b)
  end.

(** [struct vrtd_req_buffer_close] *)
Record req_buffer_close := { rc_len : Z; rc_dev : Z; rc_addr : Z; rc_size : Z }.

(** The search: the position of the buffer of the connection, or the code. *)
Fixpoint find_buffer (conn addr size : Z) (foreign mismatch : bool) (i : nat) (l : list buffer) : except vrtd_ret nat :=
  match l with
  | [] => Exn (if foreign then RET_AUTH_ERROR else if mismatch then RET_INVALID_ARGUMENT else RET_NOEXIST)
  | b :: l' =>
      if negb (b_addr b =? addr) then find_buffer conn addr size foreign mismatch (S i) l'
      else if negb (b_size b =? size) then find_buffer conn addr size foreign true (S i) l'
      else if negb (b_client b =? conn) then find_buffer conn addr size true mismatch (S i) l'
      else Val i
  end.

Definition client_handle_request_buffer_close (k : nat) (r : req_buffer_close) : DM unit :=
  c ← authorize k (fun cfg devices c => auth_request_buffer_close cfg devices c (rc_dev r));
  throw_if (rc_len r <? 20) RET_BAD_REQUEST;;
  v ← asks id;
  throw_if (Z.of_nat (length (v_devices v)) <=? rc_dev r) RET_NOEXIST;;
  throw_if (rc_size r =? 0) RET_INVALID_ARGUMENT;;
  match dev_at (rc_dev r) v with
  | None => undefined
  | Some d =>
      match find_buffer (conn_id c) (rc_addr r) (rc_size r) false false 0 (d_buffers d) with
      | Exn code => throw code
      | Val j =>
          match d_buffers d !! j with
          | None => undefined
          | Some b =>
              let i := Z.to_nat (rc_dev r) in
              updates (fun v => put_buffers i (delete j (d_buffers d)) (put_env i (cleanup_buffer b (dev_env i v)) v))
          end
      end
  end.

(** ** Connections *)

Fixpoint clean_buffers (keep : buffer -> bool) (l : list buffer) (e : benv Q) : list buffer * benv Q :=
  match l with
  | [] => ([], e)
  | b :: l' => if keep b then let r := clean_buffers keep l' e in (b :: r.1, r.2)
               else clean_buffers keep l' (cleanup_buffer b e)
  end.

Definition clean_device (keep : buffer -> bool) v (i : nat) : vrtd Q :=
  match v_devices v !! i with
  | None => v
  | Some d => let r := clean_buffers keep (d_buffers d) (dev_env i v) in put_buffers i r.1 (put_env i r.2 v)
  end.

Definition cleanup_buffers_for_conn_id (conn : Z) v : vrtd Q :=
  if conn =? 0 then v
  else foldl (clean_device (fun b => negb (b_client b =? conn))) v (seq 0 (length (v_devices v))).

Definition defer_buffer_cleanup (conn : Z) v : vrtd Q :=
  if (conn =? 0) || existsb (Z.eqb conn) (deferred_conn_ids v) then v
  else set_async (async_device_op_in_progress v) (deferred_conn_ids v ++ [conn]) v.

Definition cleanup_client_buffers (conn : Z) v : vrtd Q :=
  if conn =? 0 then v
  else if async_device_op_in_progress v then defer_buffer_cleanup conn v
  else cleanup_buffers_for_conn_id conn v.

(** The disconnection of connection [k]. *)
Definition cleanup_client (k : nat) v : vrtd Q :=
  match v_clients v !! k with
  | None => v
  | Some c => let v := cleanup_client_buffers (conn_id c) v in set_clients (delete k (v_clients v)) v
  end.

Definition drain_deferred_buffer_cleanups v : vrtd Q :=
  let v' := foldl (fun v conn => cleanup_buffers_for_conn_id conn v) v (deferred_conn_ids v) in
  set_async (async_device_op_in_progress v') [] v'.

(** The end of a device operation: [process_async_device_op_completion]. *)
Definition async_completed v : vrtd Q :=
  drain_deferred_buffer_cleanups (set_async false (deferred_conn_ids v) v).

(** A device that a reset removes, and one it discovers. *)
Definition cleanup_device (i : nat) v : vrtd Q :=
  let v := clean_device (fun _ => false) v i in set_devices (delete i (v_devices v)) v.
Definition discovered (d : device) v : vrtd Q := set_devices (v_devices v ++ [d]) v.

(** A new connection, with the next id. *)
Definition connect (uid : Z) (gids : list Z) v : vrtd Q :=
  let n := u64 (next_conn_id v + 1) in
  let n := if n =? 0 then 1 else n in
  mkVrtd (v_config v) (v_clients v ++ [{| conn_id := n; conn_client := {| cl_uid := uid; cl_gids := gids; cl_role := None |} |}])
    n (v_devices v) (v_q v) (v_errno v) (async_device_op_in_progress v) (deferred_conn_ids v).
End daemon.
