(* ===== verification/DaemonMemory.v ===== *)
(** * The allocations of a memory map

    What a client of [MemoryMap] that frees whole allocations can rely on: the
    map accounts for the allocations that are outstanding.  They are disjoint
    blocks of subregions, each recorded as its client's, and every other
    subregion is free.  Allocating adds one, and freeing one removes it. *)

From S2P Require Import Prelude MemoryMap.
From stdpp Require Import list.
Open Scope Z_scope.

Record live := { lv_type : allocation_type; lv_addr : Z; lv_size : Z; lv_client : Z }.

(** The first byte of a subregion lies in the allocation. *)
Definition covers (a : live) (t : allocation_type) (r sub : nat) : Prop :=
  lv_addr a <= block_address (class_base t) r sub < lv_addr a + lv_size a.

Definition apart (a b : live) : Prop :=
  lv_addr a + lv_size a <= lv_addr b \/ lv_addr b + lv_size b <= lv_addr a.

Record live_block (a : live) (r start num : nat) : Prop := {
  lb_addr : lv_addr a = block_address (class_base (lv_type a)) r start;
  lb_size : lv_size a = Z.of_nat num * SUBREGION_SIZE;
  lb_bounds : (0 < num)%nat /\ (r < 64)%nat /\ (start + num <= 8)%nat;
  lb_client : lv_client a <> 0
}.

(** What holds between the map and the outstanding allocations. *)
Record accounted (m : device_memory_map) (L : list live) : Prop := {
  ac_wf : map_wf m;
  ac_blocks a : a ∈ L -> exists r start num, live_block a r start num;
  ac_apart a b L' : L ≡ₚ a :: b :: L' -> apart a b;
  ac_owned a t r sub : a ∈ L -> (r < 64)%nat -> (sub < 8)%nat ->
    covers a t r sub -> owner m t r sub = Some (lv_client a);
  ac_free t r sub : (r < 64)%nat -> (sub < 8)%nat ->
    (forall a, a ∈ L -> ~ covers a t r sub) -> owner m t r sub = Some 0
}.

#[export] Instance accounted_proper m : Proper (Permutation ==> iff) (accounted m).
Proof.
  assert (forall L L', L ≡ₚ L' -> accounted m L -> accounted m L') as H; [|by split; apply H].
  intros L L' HL [H1 H2 H3 H4 H5]. split; [done|..].
  - intros a. rewrite <-HL. apply H2.
  - intros a b L2. rewrite <-HL. apply H3.
  - intros a t r sub. rewrite <-HL. apply H4.
  - intros t r sub Hr Hs Hn. apply H5; [done..|]. intros a. rewrite HL. apply Hn.
Qed.

Lemma covers_block a r start num t r' sub :
  live_block a r start num -> (r' < 64)%nat -> (sub < 8)%nat ->
  covers a t r' sub <-> same_memory (lv_type a) t && in_block r start num r' sub = true.
Proof.
  intros [Ha Hs Hb _] Hr' Hsub. unfold covers, in_block. rewrite Ha, Hs.
  unfold block_address, class_base, REGION_SIZE, SUBREGION_SIZE, DDR_START_ADDRESS,
    HBM_START_ADDRESS.
  rewrite !andb_true_iff, Nat.eqb_eq, Nat.leb_le, Nat.ltb_lt.
  destruct (lv_type a), t; cbn [same_memory]; lia.
Qed.

(** Two blocks that share no subregion are apart as address ranges. *)
Lemma blocks_apart a b r start num r' start' num' :
  live_block a r start num -> live_block b r' start' num' ->
  (forall t r0 sub, (r0 < 64)%nat -> (sub < 8)%nat -> covers a t r0 sub -> ~ covers b t r0 sub) ->
  apart a b.
Proof.
  intros Ba Bb Hno.
  specialize (Hno (lv_type a) r (Nat.max start start')).
  rewrite (covers_block _ _ _ _ _ _ _ Ba), (covers_block _ _ _ _ _ _ _ Bb) in Hno
    by (destruct Ba as [_ _ ? _], Bb as [_ _ ? _]; lia).
  destruct Ba as [Ha Hsa Hba _], Bb as [Hb Hsb Hbb _].
  specialize (Hno ltac:(lia) ltac:(lia)). unfold in_block in Hno.
  unfold apart. rewrite Ha, Hb, Hsa, Hsb.
  rewrite !andb_true_iff, !Nat.eqb_eq, !Nat.leb_le, !Nat.ltb_lt in Hno.
  unfold block_address, class_base, REGION_SIZE, SUBREGION_SIZE, DDR_START_ADDRESS,
    HBM_START_ADDRESS.
  destruct (lv_type a), (lv_type b); cbn [same_memory] in Hno; lia.
Qed.

Lemma apart_sym a b : apart a b -> apart b a.
Proof. unfold apart. tauto. Qed.

Lemma apart_no_share a b t r sub : apart a b -> covers a t r sub -> ~ covers b t r sub.
Proof. unfold apart, covers. lia. Qed.

Lemma create_accounted : accounted device_memory_map_create [].
Proof.
  split; [apply create_wf|..].
  - by intros a ?%not_elem_of_nil.
  - by intros a b L' H%Permutation_nil_l.
  - by intros a t r sub ?%not_elem_of_nil.
  - intros t r sub Hr Hsub _. rewrite (rc_owner _ _ create_recorded t r sub (block_address (class_base t) r sub)); [done..|].
    unfold in_subregion, SUBREGION_SIZE. lia.
Qed.

(** A free block shares nothing with an outstanding allocation. *)
Lemma free_block_apart m L a r start num b :
  accounted m L -> live_block a r start num ->
  (forall sub, (start <= sub < start + num)%nat -> owner m (lv_type a) r sub = Some 0) ->
  b ∈ L -> apart a b.
Proof.
  intros Hac Ba Hfree Hb. destruct (ac_blocks _ _ Hac _ Hb) as (r' & start' & num' & Bb).
  apply (blocks_apart a b r start num r' start' num' Ba Bb). intros t r0 sub Hr0 Hsub Hca Hcb.
  pose proof (ac_owned _ _ Hac _ _ _ _ Hb Hr0 Hsub Hcb) as Ho. destruct Bb as [_ _ _ Hcl].
  rewrite (covers_block _ _ _ _ _ _ _ Ba Hr0 Hsub) in Hca.
  apply andb_true_iff in Hca as [Ht Hin]. unfold in_block in Hin.
  rewrite !andb_true_iff, Nat.eqb_eq, Nat.leb_le, Nat.ltb_lt in Hin.
  destruct Hin as [[-> ?] ?]. specialize (Hfree sub ltac:(lia)).
  assert (owner m t r sub = owner m (lv_type a) r sub) by (by destruct (lv_type a), t).
  congruence.
Qed.

(** A pair of a list with one more element. *)
Lemma pair_cons {A} (x a b : A) L L' : x :: L ≡ₚ a :: b :: L' ->
  x = a /\ b ∈ L \/ x = b /\ a ∈ L \/ exists L2, L ≡ₚ a :: b :: L2.
Proof.
  intros H. assert (x ∈ a :: b :: L') as Hx by (rewrite <-H; left). apply elem_of_cons in Hx as [->|Hx].
  - left. split; [done|]. apply Permutation_cons_inv in H. rewrite H. left.
  - apply elem_of_cons in Hx as [->|Hx].
    + right; left. split; [done|]. rewrite Permutation_swap in H. apply Permutation_cons_inv in H. rewrite H. left.
    + right; right. apply elem_of_Permutation in Hx as [L2 HL']. exists L2. apply (Permutation_cons_inv (a := x)).
      rewrite H, HL'. rewrite (Permutation_swap x b), (Permutation_swap x a). done.
Qed.

Lemma allocate_accounted m L type size arg client m' addr size' :
  accounted m L -> is_u64 size -> is_u64 arg ->
  device_memory_map_allocate m type size arg client = (m', Allocated addr size') ->
  accounted m' ({| lv_type := type; lv_addr := addr; lv_size := size'; lv_client := client |} :: L).
Proof.
  intros Hac Hs Ha E.
  destruct (allocate_success _ _ _ _ _ _ _ _ (ac_wf _ _ Hac) Hs Ha E)
    as (r & st & num & [Haddr [Hsize _] Hbnd _ Hfree Heff _] & Hm & Hc & _).
  set (a := {| lv_type := type; lv_addr := addr; lv_size := size'; lv_client := client |}).
  assert (Ba : live_block a r st num) by (by split).
  pose proof (fun t r0 sub => covers_block _ _ _ _ t r0 sub Ba) as Hcov. cbn [lv_type a] in Hcov.
  pose proof (fun b => free_block_apart m L a r st num b Hac Ba Hfree) as Happ.
  split.
  - rewrite Hm. specialize (Hfree st ltac:(lia)). unfold owner in Hfree.
    destruct (class_regions type m !! r) eqn:El; [|done].
    eapply with_regions_wf; [apply Hac|done].
  - intros b [->|Hb]%elem_of_cons; [eauto|]. by eapply ac_blocks.
  - intros b c L' [[<- Hin]|[[<- Hin]|[L2 HL]]]%pair_cons; [by apply Happ|by apply apart_sym, Happ|by eapply ac_apart].
  - intros b t r0 sub Hb Hr0 Hsub Hcb. rewrite Heff. specialize (Hcov t r0 sub Hr0 Hsub).
    apply elem_of_cons in Hb as [->|Hb].
    + apply Hcov in Hcb. by rewrite Hcb.
    + destruct (same_memory type t && in_block r st num r0 sub); [|by eapply ac_owned].
      destruct (apart_no_share a b t r0 sub (Happ b Hb)); [by apply Hcov|done].
  - intros t r0 sub Hr0 Hsub Hnone. rewrite Heff. specialize (Hcov t r0 sub Hr0 Hsub).
    destruct (same_memory type t && in_block r st num r0 sub).
    + destruct (Hnone a); [left|by apply Hcov].
    + apply (ac_free _ _ Hac); [done..|]. intros b Hb. apply Hnone. by right.
Qed.

(** The client of an outstanding allocation can free it. *)
Lemma free_live m L a : accounted m L -> a ∈ L ->
  exists r start num l, live_block a r start num /\ class_regions (lv_type a) m !! r = Some l /\
    device_memory_map_free m (lv_type a) (lv_addr a) (lv_size a) (lv_client a) =
    (with_regions (lv_type a) (alter (stamp num start 0) r (class_regions (lv_type a) m)) m, Freed).
Proof.
  intros Hac Hin. destruct (ac_blocks _ _ Hac _ Hin) as (r & st & num & Ba).
  assert (Ho : forall sub, (st <= sub < st + num)%nat ->
    owner m (lv_type a) r sub = Some (lv_client a)).
  { intros sub Hsub. destruct (lb_bounds _ _ _ _ Ba).
    eapply (ac_owned _ _ Hac); [done|lia|lia|]. rewrite covers_block by (done || lia).
    unfold in_block. rewrite Nat.eqb_refl, (proj2 (Nat.leb_le _ _)), (proj2 (Nat.ltb_lt _ _)) by lia.
    by destruct (lv_type a). }
  destruct (lb_bounds _ _ _ _ Ba) as (Hn & Hr & Hst).
  pose proof (Ho st ltac:(lia)) as Hst0. unfold owner in Hst0.
  destruct (class_regions (lv_type a) m !! r) as [l|] eqn:El; [|done].
  exists r, st, num, l. split; [done|]. split; [done|].
  rewrite (lb_addr _ _ _ _ Ba), (lb_size _ _ _ _ Ba).
  rewrite (free_block m (lv_type a) r st num _ (lv_client a) l);
    [|unfold SUBREGION_SIZE; lia|apply num_subregions_exact; lia|lia|done|done|by apply (lb_client _ _ _ _ Ba)|done].
  rewrite (proj2 (all_owned_spec num st (lv_client a) l)); [done|].
  intros sub Hsub. specialize (Ho sub Hsub). unfold owner in Ho. by rewrite El in Ho.
Qed.

(** Freeing an outstanding allocation. *)
Lemma free_accounted m a L : accounted m (a :: L) ->
  accounted (device_memory_map_free m (lv_type a) (lv_addr a) (lv_size a) (lv_client a)).1 L.
Proof.
  intros Hac. destruct (free_live m (a :: L) a Hac) as (r & st & num & l & Ba & Hl & ->); [left|]. cbn [fst].
  destruct (class_region_length _ _ _ _ (ac_wf _ _ Hac) Hl) as [_ Hlen].
  change (Z.to_nat SUBREGIONS_PER_REGION) with 8%nat in Hlen.
  pose proof (lb_bounds _ _ _ _ Ba) as Hbnd.
  pose proof (fun t r0 sub => owner_stamped (lv_type a) t m r st num 0 r0 sub l Hl ltac:(lia)) as Heff.
  pose proof (fun t r0 sub => covers_block _ _ _ _ t r0 sub Ba) as Hcov.
  split.
  - eapply with_regions_wf; [apply Hac|done].
  - intros b Hb. apply (ac_blocks _ _ Hac). by right.
  - intros b c L' HL. apply (ac_apart _ _ Hac b c (a :: L')). rewrite HL, (Permutation_swap a c), (Permutation_swap a b). done.
  - intros b t r0 sub Hb Hr0 Hsub Hcb. rewrite Heff. specialize (Hcov t r0 sub Hr0 Hsub).
    destruct (_ && _); [|by eapply ac_owned; [|right|..]].
    apply elem_of_Permutation in Hb as [L' HL].
    destruct (apart_no_share a b t r0 sub); [apply (ac_apart _ _ Hac a b L'); by rewrite HL|by apply Hcov|done].
  - intros t r0 sub Hr0 Hsub Hnone. rewrite Heff. specialize (Hcov t r0 sub Hr0 Hsub).
    destruct (_ && _); [done|]. apply (ac_free _ _ Hac); [done..|].
    intros b [->|Hb]%elem_of_cons; [by rewrite Hcov|by apply Hnone].
Qed.
