(* ===== verification/DaemonTheorems.v ===== *)
(** * No buffer leaks

    In every state that connections, buffer requests and device operations
    reach, with any number of clients that come, open, close and go, and any
    failures of the QDMA library, the buffers the daemon tracks are exactly what
    is in use: each belongs to a client that is connected, or whose clean-up
    waits for a device operation to end; the memory maps account for them and
    nothing else; the queue pairs and descriptors that are open are theirs,
    except the queue pairs the library refused to delete, which the daemon
    gives up.
    Handlers run without undefined behaviour; a connection that ends leaves
    nothing and touches nothing of others.  The requests of the [qdma]
    permission, which work on queue pairs directly, are not steps here. *)

From S2P Require Import Prelude Except MemoryMap Policy Auth Daemon DaemonMemory.
From stdpp Require Import list sets relations strings.
Open Scope Z_scope.

(** ** A ledger of the library

    Any library, with the queue pairs that were added and not deleted since, the
    deletions that failed, and the descriptors that were handed out and not
    closed since.  A call to [close] releases the descriptor whatever it
    returns, as on Linux. *)

Fixpoint remove1 (x : Z) (l : list Z) : list Z :=
  match l with
  | [] => []
  | y :: l' => if x =? y then l' else y :: remove1 x l'
  end.

Record ledger (Q : Type) := mkLedger { lg_q : Q; lg_qids : list Z; lg_failed : list Z; lg_fds : list Z }.
Arguments mkLedger {Q}.
Arguments lg_q {Q}.
Arguments lg_qids {Q}.
Arguments lg_failed {Q}.
Arguments lg_fds {Q}.

#[export] Instance ledger_qdma {Q} `{!Qdma Q} : Qdma (ledger Q) := {|
  qd_add dir ch w := let r := qd_add dir ch (lg_q w) in
    (r.1, mkLedger r.2 (match r.1 with Some q => q :: lg_qids w | None => lg_qids w end) (lg_failed w) (lg_fds w));
  qd_start q w := let r := qd_start q (lg_q w) in (r.1, mkLedger r.2 (lg_qids w) (lg_failed w) (lg_fds w));
  qd_stop q w := let r := qd_stop q (lg_q w) in (r.1, mkLedger r.2 (lg_qids w) (lg_failed w) (lg_fds w));
  qd_del q w := let r := qd_del q (lg_q w) in
    (r.1, if r.1 then mkLedger r.2 (remove1 q (lg_qids w)) (lg_failed w) (lg_fds w)
          else mkLedger r.2 (lg_qids w) (q :: lg_failed w) (lg_fds w));
  qd_get_fd qids w := let r := qd_get_fd qids (lg_q w) in
    (r.1, mkLedger r.2 (lg_qids w) (lg_failed w) (if r.1 <? 0 then lg_fds w else r.1 :: lg_fds w));
  qd_close fd w := let r := qd_close fd (lg_q w) in (r.1, mkLedger r.2 (lg_qids w) (lg_failed w) (remove1 fd (lg_fds w)));
  qd_errno w := qd_errno (lg_q w)
|}.

Lemma remove1_permutation x l l' : l ≡ₚ x :: l' -> remove1 x l ≡ₚ l'.
Proof.
  intros H. assert (x ∈ l) as Hx by (rewrite H; left). assert (l ≡ₚ x :: remove1 x l) as Hr.
  { clear H. induction l as [|y l IH]; [by apply elem_of_nil in Hx|]. cbn. destruct (Z.eqb_spec x y) as [->|Hne]; [done|].
    apply elem_of_cons in Hx as [?|Hx]; [done|]. rewrite Permutation_swap. constructor. by apply IH. }
  apply (Permutation_cons_inv (a := x)). etrans; [symmetry; exact Hr|exact H].
Qed.

(** ** Buffers *)

(** The allocation a buffer stands for. *)
Definition live_of (b : buffer) : live :=
  {| lv_type := b_type b; lv_addr := b_addr b; lv_size := b_size b; lv_client := b_client b |}.

(** The outstanding allocations of a map are those of the buffers. *)
Definition backs (map : option device_memory_map) (l : list buffer) : Prop :=
  match map with
  | Some m => accounted m (live_of <$> filter (fun b => allocation_valid b = true) l)
  | None => filter (fun b => allocation_valid b = true) l = []
  end.

(** The descriptor of a buffer, if it has one. *)
Definition fd_of (b : buffer) : list Z := if 0 <=? b_fd b then [b_fd b] else [].

(** A library that deletes every queue pair it is asked to. *)
Definition deletes (Q : Type) `{!Qdma Q} : Prop := forall q (w : Q), (qd_del q w).1 = true.

(** What is open is of the buffers [l] and what is in [qs], [fds], and the queue
    pairs whose deletion failed. *)
Definition holds {Q} `{!Qdma Q} (w : ledger Q) (l : list buffer) (qs fds : list Z) : Prop :=
  lg_qids w ≡ₚ (b ← l; b_qids b) ++ qs ++ lg_failed w /\ lg_fds w ≡ₚ (b ← l; fd_of b) ++ fds /\
  (deletes Q -> lg_failed w = []).

(** A buffer, perhaps in construction. *)
Record partial (client : Z) (b : buffer) : Prop := {
  partial_client : b_client b = client;
  partial_created : b_qids b <> [] -> qpair_created b = true;
  partial_map : allocation_valid b = true -> b_map b = true
}.

Record good (b : buffer) : Prop := {
  good_partial : partial (b_client b) b;
  good_client : b_client b <> 0;
  good_fd : 0 <= b_fd b;
  good_qids : (0 < length (b_qids b) <= 2)%nat
}.

Section buffers.
Context {Q : Type} `{!Qdma Q}.
Implicit Types (e : benv (ledger Q)) (b : buffer) (l : list buffer).

Lemma backs_free m b l : backs (Some m) (b :: l) -> allocation_valid b = true ->
  backs (Some (device_memory_map_free m (b_type b) (b_addr b) (b_size b) (b_client b)).1) l.
Proof using Type. intros Hb Hv. unfold backs in Hb. rewrite filter_cons_True, fmap_cons in Hb by done. exact (free_accounted _ _ _ Hb). Qed.

(** Deleting the queue pairs of a list: each is gone, or its deletion failed. *)
Lemma delete_qpairs (ids : list Z) : forall e qs, lg_qids (e_q e) ≡ₚ ids ++ qs ++ lg_failed (e_q e) -> (deletes Q -> lg_failed (e_q e) = []) ->
  let e' := foldl (fun e q => call_ (qd_del q) (call_ (qd_stop q) e)) e ids in
  lg_qids (e_q e') ≡ₚ qs ++ lg_failed (e_q e') /\ (deletes Q -> lg_failed (e_q e') = []) /\
  lg_fds (e_q e') = lg_fds (e_q e) /\ e_map e' = e_map e.
Proof using Type.
  induction ids as [|q ids IH]; intros e qs Hq Hd; cbn [foldl]; [done|].
  set (e1 := call_ (qd_del q) (call_ (qd_stop q) e)).
  assert (lg_qids (e_q e1) ≡ₚ ids ++ qs ++ lg_failed (e_q e1) /\ (deletes Q -> lg_failed (e_q e1) = []) /\
    lg_fds (e_q e1) = lg_fds (e_q e) /\ e_map e1 = e_map e) as (Hq1 & Hd1 & Hf1 & Hm1).
  { unfold e1. cbn. destruct ((qd_del q _).1) eqn:E; cbn.
    - split; [by apply remove1_permutation|done].
    - split; [|split; [|done]]; [|intros Hall; by rewrite Hall in E]. rewrite Hq. cbn. by rewrite !(assoc_L (++)), Permutation_middle. }
  clearbody e1. destruct (IH e1 qs Hq1 Hd1) as (H1 & H2 & H3 & H4). split_and!; [exact H1|exact H2|congruence|congruence].
Qed.

Lemma cleanup_spec client b e l qs fds : partial client b -> backs (e_map e) (b :: l) -> holds (e_q e) (b :: l) qs fds ->
  backs (e_map (cleanup_buffer b e)) l /\ holds (e_q (cleanup_buffer b e)) l qs fds.
Proof using Type.
  intros [_ Hcr Hmap] Hb (Hq & Hf & Hd). unfold cleanup_buffer. cbn [mbind list_bind] in Hq, Hf. rewrite <-(assoc_L (++)) in Hq, Hf.
  set (e1 := if 0 <=? b_fd b then call_ (qd_close (b_fd b)) e else e).
  assert (lg_qids (e_q e1) = lg_qids (e_q e) /\ lg_failed (e_q e1) = lg_failed (e_q e) /\
    lg_fds (e_q e1) ≡ₚ (b ← l; fd_of b) ++ fds /\ e_map e1 = e_map e) as (Hq1 & Hd1 & Hf1 & Hm1).
  { unfold e1, fd_of in *. destruct (0 <=? b_fd b); [|done]. split; [done|]. split; [done|]. split; [|done]. cbn. by apply remove1_permutation. }
  clearbody e1. rewrite <-Hq1, <-Hd1 in Hq. rewrite <-Hd1 in Hd. rewrite <-Hm1 in Hb.
  set (e2 := if qpair_created b then foldl _ e1 (b_qids b) else e1).
  assert (lg_qids (e_q e2) ≡ₚ (b ← l; b_qids b) ++ qs ++ lg_failed (e_q e2) /\ (deletes Q -> lg_failed (e_q e2) = []) /\
    lg_fds (e_q e2) = lg_fds (e_q e1) /\ e_map e2 = e_map e1) as (Hq2 & Hd2 & Hf2 & Hm2).
  { unfold e2. destruct (qpair_created b) eqn:Ec.
    - rewrite (assoc_L (++) _ qs). apply delete_qpairs; [by rewrite <-(assoc_L (++) _ qs)|done].
    - destruct (b_qids b); [done|]. by discriminate (Hcr ltac:(done)). }
  clearbody e2. rewrite <-Hf2 in Hf1. rewrite <-Hm2 in Hb.
  destruct (allocation_valid b) eqn:Ev; cbn [andb].
  - rewrite (Hmap eq_refl). destruct (e_map e2) as [m|] eqn:Em.
    + split; [by apply backs_free|done].
    + unfold backs in Hb. by rewrite filter_cons_True in Hb.
  - split; [|done]. unfold backs in *. rewrite filter_cons_False in Hb by (by rewrite Ev). done.
Qed.

Lemma backs_same map b b' l : live_of b' = live_of b -> allocation_valid b' = allocation_valid b -> backs map (b :: l) -> backs map (b' :: l).
Proof using Type.
  intros Hl Hv. unfold backs. rewrite !filter_cons, Hv. destruct (decide _); [|done].
  destruct map; [|done]. by rewrite !fmap_cons, Hl.
Qed.

(** A buffer in construction beside the buffers [l]. *)
Definition building (client : Z) (l : list buffer) (qs fds : list Z) b e : Prop :=
  partial client b /\ backs (e_map e) (b :: l) /\ holds (e_q e) (b :: l) qs fds.

Lemma building_cleanup client l qs fds b e : building client l qs fds b e ->
  backs (e_map (cleanup_buffer b e)) l /\ holds (e_q (cleanup_buffer b e)) l qs fds.
Proof using Type. intros (Hp & Hb & Hh). by eapply cleanup_spec. Qed.

Lemma building_push client l qs fds b e q w errno : building client l qs fds b e ->
  lg_qids w = q :: lg_qids (e_q e) -> lg_failed w = lg_failed (e_q e) -> lg_fds w = lg_fds (e_q e) ->
  building client l qs fds (push_qid q b) (mkEnv (e_map e) w errno).
Proof using Type.
  intros ([Hc Hcr Hm] & Hb & Hq & Hf & Hd) Eq Ed Ef. split; [by split|]. split; [by apply (backs_same _ b)|].
  split; cbn [e_q]; [|by rewrite Ef, Ed]. rewrite Eq, Ed, Hq. cbn [mbind list_bind b_qids push_qid].
  rewrite <-!(assoc_L (++)). cbn. by rewrite Permutation_middle.
Qed.

Lemma ewp_qcall {E A} {ub nf : Prop} (f : ledger Q -> A * ledger Q) e (P : A -> benv (ledger Q) -> Prop) (X : E -> benv (ledger Q) -> Prop) :
  P (f (e_q e)).1 (mkEnv (e_map e) (f (e_q e)).2 (qd_errno (f (e_q e)).2)) -> ewp ub nf (call f) e P X.
Proof using Type. done. Qed.

Lemma add_qpairs_spec client l qs fds dir ch : forall b e, building client l qs fds b e -> b_fd b = -1 ->
  ewp False False (add_qpairs dir ch b) e
    (fun b' e' => building client l qs fds b' e' /\ b_fd b' = -1 /\ length (b_qids b') = (length (b_qids b) + length ch)%nat)
    (building client l qs fds).
Proof using Type.
  induction ch as [|c ch IH]; intros b e Hb Hfd; cbn [add_qpairs]; [ewp_step; cbn; by rewrite Nat.add_0_r|].
  ewp_step. apply ewp_qcall. cbn [qd_add ledger_qdma fst snd]. destruct (qd_add dir c (lg_q (e_q e))) as [[q|] w]; cbn [fst snd].
  - ewp_step. apply ewp_qcall. cbn [qd_start ledger_qdma fst snd e_q lg_q lg_qids lg_fds e_map].
    destruct (qd_start q w) as [[|] w']; cbn [fst snd].
    + eapply ewp_mono; [apply IH; [by apply (building_push _ _ _ _ _ e)|done]| |intros ? ? Hx; exact Hx].
      intros b' e' (H1 & H2 & H3). split; [done|]. split; [done|]. rewrite H3. cbn. rewrite length_app. cbn. lia.
    + ewp_step. by apply (building_push _ _ _ _ _ e).
  - ewp_step. by destruct Hb as (? & ? & ? & ? & ?).
Qed.

Lemma get_fd_spec client l qs fds b e : building client l qs fds b e -> b_fd b = -1 ->
  ewp False False (get_fd b) e (fun b' e' => building client l qs fds b' e' /\ 0 <= b_fd b' /\ b_qids b' = b_qids b) (building client l qs fds).
Proof using Type.
  intros ([Hc Hcr Hm] & Hb & Hq & Hf & Hd) Hfd. unfold get_fd. ewp_step. apply ewp_qcall. cbn [qd_get_fd qd_errno ledger_qdma fst snd].
  destruct (qd_get_fd (b_qids b) (lg_q (e_q e))) as [fd w]. cbn [fst snd lg_q].
  assert (building client l qs fds (set_fd fd b)
    (mkEnv (e_map e) (mkLedger w (lg_qids (e_q e)) (lg_failed (e_q e)) (if fd <? 0 then lg_fds (e_q e) else fd :: lg_fds (e_q e))) (qd_errno w))) as H.
  { split; [by split|]. split; [by apply (backs_same _ b)|]. split; [done|]. split; [|done]. cbn. cbn in Hf. unfold fd_of in *. rewrite Hfd in Hf. cbn in *.
    destruct (Z.ltb_spec fd 0), (Z.leb_spec 0 fd); try lia; [done|]. cbn. by constructor. }
  destruct (Z.ltb_spec fd 0); ewp_step; [exact H|]. split; [exact H|done].
Qed.

Lemma building_start client l qs fds type m addr size e errno : backs (e_map e) l -> holds (e_q e) l qs fds ->
  building client l qs fds (mkBuffer m type client addr size [] (-1) false false) (mkEnv (e_map e) (e_q e) errno).
Proof using Type.
  intros Hb Hh. split; [by split|]. split; [|done]. unfold backs in *. by rewrite filter_cons_False.
Qed.

Definition made (client : Z) (l : list buffer) (qs fds : list Z) b e : Prop :=
  good b /\ b_client b = client /\ backs (e_map e) (b :: l) /\ holds (e_q e) (b :: l) qs fds.

(** The queue pairs and the descriptor of a buffer. *)
Lemma connect_spec client l qs fds dir ch b e : building client l qs fds b e -> b_fd b = -1 -> b_qids b = [] -> client <> 0 ->
  ewp False False (b ← add_qpairs dir (buffer_plan_qpair_channels ch) b; get_fd b) e (made client l qs fds) (building client l qs fds).
Proof using Type.
  intros Hb Hfd Hq Hc. ewp_step. eapply ewp_mono; [by apply add_qpairs_spec| |intros ? ? Hx; exact Hx].
  intros b1 e1 (H1 & Hfd1 & Hlen). eapply ewp_mono; [by apply get_fd_spec| |intros ? ? Hx; exact Hx].
  intros b2 e2 ((Hp & Hbk & Hh) & Hfd2 & Hq2). destruct Hp as [Hcl Hcr Hm]. split; [|done].
  split; [by split|by rewrite Hcl|done|]. rewrite Hq2, Hlen, Hq. unfold buffer_plan_qpair_channels. destruct (_ =? _); cbn; lia.
Qed.

Lemma or_cleanup_spec client l qs fds (m : EM buffer (benv (ledger Q)) buffer) e :
  ewp False False m e (made client l qs fds) (building client l qs fds) ->
  ewp False False (or_cleanup m) e (made client l qs fds) (fun _ e' => backs (e_map e') l /\ holds (e_q e') l qs fds).
Proof using Type.
  unfold ewp, post, or_cleanup. destruct (m e) as [[b|b] e'| |]; [done| |done|done]. intros H. by eapply building_cleanup.
Qed.

Lemma buffer_create_spec type dir size arg client ch l qs fds e : is_u64 size -> is_u64 arg ->
  backs (e_map e) l -> holds (e_q e) l qs fds ->
  ewp False False (buffer_create type dir size arg client ch) e (made client l qs fds) (fun _ e' => backs (e_map e') l /\ holds (e_q e') l qs fds).
Proof using Type.
  intros Hs Ha Hb Hh. apply or_cleanup_spec. unfold buffer_init. cbv zeta.
  assert (forall n, building client l qs fds (mkBuffer true ALLOCATION_TYPE_DDR client 0 0 [] (-1) false false) (set_errno n e)) as Hfail
    by (intros n; by apply building_start).
  apply ewp_if; intros Hz; [ewp_step; ewp_step; ewp_step; apply Hfail|].
  destruct (dir_mask dir) as [mask|]; [|ewp_step; ewp_step; ewp_step; apply Hfail].
  ewp_step. ewp_step. destruct (e_map e) as [m|] eqn:Em; [|ewp_step; ewp_step; ewp_step; apply Hfail].
  destruct (allocation_type_of type) as [t|]; [|ewp_step; ewp_step; ewp_step; apply Hfail]. cbv zeta.
  destruct (device_memory_map_allocate m t size arg client) as [m' [addr size'| |]] eqn:Ea; cbn [fst snd];
    [|ewp_step; ewp_step; ewp_step; apply Hfail..].
  pose proof (allocate_accounted _ _ _ _ _ _ _ _ _ Hb Hs Ha Ea) as Hb'.
  ewp_step. ewp_step. apply connect_spec; [|done|done|lia]. split; [by split|]. split; [|done].
  cbn [e_map]. unfold backs. rewrite filter_cons_True by done. exact Hb'.
Qed.

Lemma buffer_create_raw_spec addr size dir client ch l qs fds e : client <> 0 -> backs (e_map e) l -> holds (e_q e) l qs fds ->
  ewp False False (buffer_create_raw addr size dir client ch) e (made client l qs fds) (fun _ e' => backs (e_map e') l /\ holds (e_q e') l qs fds).
Proof using Type.
  intros Hc Hb Hh. unfold buffer_create_raw. apply ewp_if; intros Hz; [ewp_step; ewp_step; by ewp_step|].
  destruct (dir_mask dir) as [mask|]; [|ewp_step; ewp_step; by ewp_step]. apply or_cleanup_spec, connect_spec; [|done..].
  replace e with (mkEnv (e_map e) (e_q e) (e_errno e)) by (by destruct e). by apply building_start.
Qed.

Lemma backs_perm map l l' : l ≡ₚ l' -> backs map l -> backs map l'.
Proof using Type.
  intros Hp. unfold backs. destruct map as [m|].
  - by rewrite Hp.
  - intros Hn. apply Permutation_nil. rewrite <-Hn. by rewrite Hp.
Qed.

Lemma holds_perm (w : ledger Q) l l' qs fds : l ≡ₚ l' -> holds w l qs fds -> holds w l' qs fds.
Proof using Type. intros Hp (Hq & Hf & Hd). split_and!; [by rewrite <-Hp..|done]. Qed.

Lemma holds_app (w : ledger Q) l l' : holds w (l ++ l') [] [] <-> holds w l (b ← l'; b_qids b) (b ← l'; fd_of b).
Proof using Type. unfold holds. by rewrite !bind_app, !app_nil_r, <-!(assoc_L (++)). Qed.

Lemma clean_buffers_spec keep l : forall e k qs fds, Forall good l -> backs (e_map e) (l ++ k) -> holds (e_q e) (l ++ k) qs fds ->
  let r := clean_buffers keep l e in
  r.1 = filter (fun b => keep b = true) l /\ backs (e_map r.2) (r.1 ++ k) /\ holds (e_q r.2) (r.1 ++ k) qs fds.
Proof using Type.
  induction l as [|b l IH]; intros e k qs fds Hg Hb Hh; [done|]. apply Forall_cons in Hg as [Hgb Hg].
  cbn [clean_buffers]. rewrite filter_cons. destruct (keep b); cbn [decide].
  - rewrite decide_True by done. assert ((b :: l) ++ k ≡ₚ l ++ b :: k) as Hp by apply Permutation_middle.
    destruct (IH e (b :: k) qs fds Hg) as (H1 & H2 & H3); [by eapply backs_perm|by eapply holds_perm|]. cbv zeta. cbn [fst snd].
    rewrite <-H1. split; [done|].
    split; [eapply backs_perm; [|exact H2]|eapply holds_perm; [|exact H3]]; symmetry; apply Permutation_middle.
  - rewrite decide_False by done. destruct (cleanup_spec (b_client b) b e (l ++ k) qs fds (good_partial _ Hgb) Hb Hh) as [Hb' Hh'].
    by apply IH.
Qed.
End buffers.

(** ** The invariant *)

Section daemon.
Context {Q : Type} `{!Qdma Q}.
Implicit Types (v : vrtd (ledger Q)) (b : buffer).

Definition buffers_of (ds : list device) : list buffer := d ← ds; d_buffers d.

(** Who may have a buffer. *)
Definition entitled v (conn : Z) : Prop :=
  conn ∈ conn_id <$> v_clients v \/ async_device_op_in_progress v = true /\ conn ∈ deferred_conn_ids v.

Record daemon_ok v : Prop := {
  ok_backs : Forall (fun d => backs (d_map d) (d_buffers d)) (v_devices v);
  ok_good : Forall (fun d => Forall good (d_buffers d)) (v_devices v);
  ok_holds : holds (v_q v) (buffers_of (v_devices v)) [] [];
  ok_owned b : b ∈ buffers_of (v_devices v) -> entitled v (b_client b);
  ok_deferred : async_device_op_in_progress v = false -> deferred_conn_ids v = [];
  ok_unique : NoDup ((conn_id <$> v_clients v) ++ deferred_conn_ids v);
  ok_ids : Forall (fun n => 0 < n <= next_conn_id v) ((conn_id <$> v_clients v) ++ deferred_conn_ids v)
}.

Lemma buffers_split ds i d : ds !! i = Some d -> buffers_of ds ≡ₚ d_buffers d ++ buffers_of (delete i ds).
Proof using Type. intros Hi. unfold buffers_of. by rewrite (delete_Permutation ds i d Hi) at 1. Qed.

(** What the other devices hold. *)
Definition others_q v i : list Z := b ← buffers_of (delete i (v_devices v)); b_qids b.
Definition others_fd v i : list Z := b ← buffers_of (delete i (v_devices v)); fd_of b.

Lemma ok_device v i d : daemon_ok v -> v_devices v !! i = Some d ->
  backs (d_map d) (d_buffers d) /\ Forall good (d_buffers d) /\ holds (v_q v) (d_buffers d) (others_q v i) (others_fd v i) /\
  forall b, b ∈ d_buffers d -> entitled v (b_client b).
Proof using Type.
  intros [Hb Hg Hh Ho _ _ _] Hi. pose proof (buffers_split _ _ _ Hi) as Hp.
  split; [by apply (Forall_lookup_1 _ _ _ _ Hb Hi)|]. split; [by apply (Forall_lookup_1 _ _ _ _ Hg Hi)|].
  split; [apply holds_app; by eapply holds_perm|]. intros b Hin. apply Ho. rewrite Hp. apply elem_of_app. by left.
Qed.

Lemma alter_insert {A} (f : A -> A) (l : list A) i x : l !! i = Some x -> alter f i l = <[i := f x]> l.
Proof using Type. revert i. induction l as [|y l IH]; intros [|i] Hi; [done..|by injection Hi as ->|]. cbn. f_equal. by apply IH. Qed.

Lemma put_devices i d e l v : v_devices v !! i = Some d ->
  v_devices (put_buffers i l (put_env i e v)) = <[i := mkDevice (d_bdf d) (d_qdma d) (e_map e) l]> (v_devices v).
Proof using Type.
  intros Hi. cbn [put_buffers put_env v_devices set_devices]. rewrite (alter_insert _ _ i d Hi).
  erewrite alter_insert by (apply list_lookup_insert_eq; by eapply lookup_lt_Some).
  by rewrite list_insert_insert, decide_True.
Qed.

Lemma delete_insert_same {A} (l : list A) i x : delete i (<[i := x]> l) = delete i l.
Proof using Type. revert i. induction l as [|y l IH]; intros [|i]; cbn; [done..|]. f_equal. apply IH. Qed.

Lemma ok_update v i d e l : daemon_ok v -> v_devices v !! i = Some d ->
  backs (e_map e) l -> Forall good l -> holds (e_q e) l (others_q v i) (others_fd v i) -> (forall b, b ∈ l -> entitled v (b_client b)) ->
  daemon_ok (put_buffers i l (put_env i e v)).
Proof using Type.
  intros [Hb Hg Hh Ho Hd Hun Hids] Hi Hbl Hgl Hhl Hol. pose proof (put_devices i d e l v Hi) as Hds.
  set (v' := put_buffers i l (put_env i e v)) in *. assert (v_q v' = e_q e) as Hq by done.
  assert (v_devices v' !! i = Some (mkDevice (d_bdf d) (d_qdma d) (e_map e) l)) as Hi'.
  { rewrite Hds. apply list_lookup_insert_eq. by eapply lookup_lt_Some. }
  pose proof (buffers_split _ _ _ Hi') as Hp. rewrite Hds, delete_insert_same in Hp. rewrite <-Hds in Hp. cbn [d_buffers] in Hp.
  split; [..|exact Hd|exact Hun|exact Hids].
  - rewrite Hds. by apply Forall_insert.
  - rewrite Hds. by apply Forall_insert.
  - rewrite Hq. eapply holds_perm; [symmetry; exact Hp|]. by apply holds_app.
  - intros b Hin. change (entitled v (b_client b)). rewrite Hp in Hin. apply elem_of_app in Hin as [Hin|Hin]; [by apply Hol|].
    apply Ho. rewrite (buffers_split _ _ _ Hi). apply elem_of_app. by right.
Qed.

(** ** Handlers *)

Lemma ok_clients v l : daemon_ok v -> conn_id <$> l = conn_id <$> v_clients v -> daemon_ok (set_clients l v).
Proof using Type.
  intros [Hb Hg Hh Ho Hd Hun Hids] Hl. split; [exact Hb|exact Hg|exact Hh| |exact Hd|..].
  - intros b Hin. destruct (Ho b Hin) as [H|H]; [left|right; exact H]. cbn [set_clients v_clients]. by rewrite Hl.
  - cbn [set_clients v_clients deferred_conn_ids]. by rewrite Hl.
  - cbn [set_clients v_clients deferred_conn_ids next_conn_id]. by rewrite Hl.
Qed.

(** Authorization finds the connection, and changes only its cached role. *)
Lemma authorize_devices k check c v (P : connection -> vrtd (ledger Q) -> Prop) (X : vrtd_ret -> vrtd (ledger Q) -> Prop) :
  v_clients v !! k = Some c ->
  (forall c' l, conn_id c' = conn_id c -> conn_id <$> l = conn_id <$> v_clients v -> P c' (set_clients l v)) ->
  (forall l, conn_id <$> l = conn_id <$> v_clients v -> X RET_AUTH_ERROR (set_clients l v)) ->
  ewp False False (authorize k check) v P X.
Proof using Type.
  intros Hk HP HX. unfold authorize. ewp_step. ewp_step. unfold id. rewrite Hk. cbv zeta.
  set (c' := {| conn_id := _; conn_client := _ |}).
  assert (conn_id <$> <[k := c']> (v_clients v) = conn_id <$> v_clients v) as Hl.
  { rewrite list_fmap_insert. apply list_insert_id. by rewrite list_lookup_fmap, Hk. }
  ewp_step. ewp_step. ewp_step. ewp_step; [by apply HX|]. ewp_step. by apply HP.
Qed.

Lemma authorize_spec k check c v (P : connection -> vrtd (ledger Q) -> Prop) X : daemon_ok v -> v_clients v !! k = Some c ->
  (forall c' l, conn_id c' = conn_id c -> conn_id <$> l = conn_id <$> v_clients v -> daemon_ok (set_clients l v) ->
     P c' (set_clients l v)) ->
  (forall v', daemon_ok v' -> X RET_AUTH_ERROR v') ->
  ewp False False (authorize k check) v P X.
Proof using Type.
  intros Hok Hk HP HX. apply (authorize_devices k check c v); [done| |].
  - intros c' l Hc Hl. by apply HP, ok_clients.
  - intros l Hl. by apply HX, ok_clients.
Qed.

Lemma put_env_buffers i d e v : v_devices v !! i = Some d -> put_buffers i (d_buffers d) (put_env i e v) = put_env i e v.
Proof using Type.
  intros Hi. unfold put_buffers, put_env, set_devices. cbn [v_devices v_config v_clients next_conn_id v_q v_errno
    async_device_op_in_progress deferred_conn_ids]. f_equal.
  rewrite (alter_insert _ _ i d Hi). erewrite alter_insert by (apply list_lookup_insert_eq; by eapply lookup_lt_Some).
  by rewrite list_insert_insert, decide_True.
Qed.

Lemma create_error_throws raw v : exists code, create_error raw v = Ret (Exn code) v.
Proof using Type.
  unfold create_error, mbind, EM_bind, asks. destruct (v_errno v =? EINVAL); [by eexists|]. destruct (_ && _); by eexists.
Qed.

(** Creating a buffer for a device and tracking it. *)
Lemma create_and_track {A} i d raw client m (f : buffer -> A) v : daemon_ok v ->
  v_devices v !! i = Some d -> entitled v client ->
  ewp False False m (dev_env i v) (made client (d_buffers d) (others_q v i) (others_fd v i))
    (fun _ e' => backs (e_map e') (d_buffers d) /\ holds (e_q e') (d_buffers d) (others_q v i) (others_fd v i)) ->
  ewp False False (b ← created i raw m; track i b;; mret (f b)) v (fun _ => daemon_ok) (fun _ => daemon_ok).
Proof using Type.
  intros Hok Hi Hent Hm. pose proof (ok_device v i d Hok Hi) as (Hb & Hg & Hh & Ho). ewp_step.
  unfold ewp at 1, post at 1, created at 1. unfold ewp, post in Hm. destruct (m (dev_env i v)) as [[b|u] e| |]; [| |done..].
  - destruct Hm as (Hgood & Hcl & Hb' & Hh'). pose proof (good_qids _ Hgood). pose proof (good_fd _ Hgood).
    assert (b :: d_buffers d ≡ₚ d_buffers d ++ [b]) as Hp by apply Permutation_cons_append.
    assert (daemon_ok (put_buffers i (d_buffers d ++ [b]) (put_env i e v))) as Hok'.
    { apply (ok_update v i d); [done|done|by eapply backs_perm|apply Forall_app; split; [done|by apply Forall_singleton]|by eapply holds_perm|].
      intros b' [Hin| ->%list_elem_of_singleton]%elem_of_app; [by apply Ho|]. by rewrite Hcl. }
    assert (v_devices (put_env i e v) !! i = Some (mkDevice (d_bdf d) (d_qdma d) (e_map e) (d_buffers d))) as Hi'.
    { cbn [put_env v_devices]. rewrite (alter_insert _ _ i d Hi). apply list_lookup_insert_eq. by eapply lookup_lt_Some. }
    unfold track. ewp_step. ewp_step. ewp_step.
    + exfalso. destruct (length (b_qids b)) as [|[|[|n]]]; cbn in *; lia.
    + ewp_step. ewp_step. unfold id. rewrite Hi'. ewp_step. ewp_step. exact Hok'.
  - destruct Hm as [Hb' Hh']. assert (daemon_ok (put_env i e v)) as Hok'.
    { rewrite <-(put_env_buffers i d e v Hi). by apply (ok_update v i d). }
    destruct (create_error_throws raw (put_env i e v)) as [code ->]. exact Hok'.
Qed.

Lemma entitled_client v k c : v_clients v !! k = Some c -> entitled v (conn_id c).
Proof using Type. intros Hk. left. apply list_elem_of_fmap. exists c. split; [done|]. by eapply list_elem_of_lookup_2. Qed.

Lemma ok_client v k c : daemon_ok v -> v_clients v !! k = Some c -> conn_id c <> 0.
Proof using Type.
  intros [_ _ _ _ _ _ Hids] Hk. rewrite Forall_forall in Hids. assert (0 < conn_id c <= next_conn_id v); [|lia].
  apply Hids, elem_of_app. left. apply list_elem_of_fmap. exists c. split; [done|]. by eapply list_elem_of_lookup_2.
Qed.

Lemma dev_exists n v : 0 <= n -> (Z.of_nat (length (v_devices v)) <=? n) = false -> exists d, dev_at n v = Some d.
Proof using Type. intros H0 Hn. apply lookup_lt_is_Some. lia. Qed.

Lemma open_ok k c r v : daemon_ok v -> v_clients v !! k = Some c -> 0 <= ro_dev r -> is_u64 (ro_size r) -> is_u64 (ro_arg r) ->
  ewp False False (client_handle_request_buffer_open k r) v (fun _ => daemon_ok) (fun _ => daemon_ok).
Proof using Type.
  intros Hok Hk Hdev Hs Ha. pose proof (ok_client _ _ _ Hok Hk) as Hid. unfold client_handle_request_buffer_open. ewp_step.
  apply (authorize_spec k _ c v); [done|done| |done]. intros c' l Hc' Hl Hok'.
  ewp_step. ewp_step; [done|]. ewp_step. ewp_step. unfold id. ewp_step. ewp_step; [done|]. ewp_step. ewp_step; [done|].
  ewp_step. ewp_step; [done|]. destruct (dev_exists (ro_dev r) (set_clients l v)) as [d Hd]; [done|done|]. rewrite Hd.
  ewp_step. ewp_step; [done|]. ewp_step. ewp_step; [done|]. cbv zeta. apply (create_and_track _ d _ (conn_id c')); [done|done| |].
  - left. cbn [set_clients v_clients]. rewrite Hl, Hc'. apply list_elem_of_fmap. exists c. split; [done|]. by eapply list_elem_of_lookup_2.
  - destruct (ok_device _ _ d Hok' Hd) as (Hb & _ & Hh & _). apply buffer_create_spec; [done|done| |done].
    unfold dev_env. cbn [e_map]. unfold dev_at in Hd. by rewrite Hd.
Qed.

Lemma open_raw_ok k c r v : daemon_ok v -> v_clients v !! k = Some c -> 0 <= rr_dev r ->
  ewp False False (client_handle_request_buffer_open_raw k r) v (fun _ => daemon_ok) (fun _ => daemon_ok).
Proof using Type.
  intros Hok Hk Hdev. pose proof (ok_client _ _ _ Hok Hk) as Hid. unfold client_handle_request_buffer_open_raw. ewp_step.
  apply (authorize_spec k _ c v); [done|done| |done]. intros c' l Hc' Hl Hok'.
  ewp_step. ewp_step; [done|]. ewp_step. ewp_step. unfold id. ewp_step. ewp_step; [done|]. ewp_step. ewp_step; [done|].
  ewp_step. ewp_step; [done|]. destruct (dev_exists (rr_dev r) (set_clients l v)) as [d Hd]; [done|done|]. rewrite Hd.
  ewp_step. ewp_step; [done|]. ewp_step. ewp_step; [done|]. cbv zeta. apply (create_and_track _ d _ (conn_id c')); [done|done| |].
  - left. cbn [set_clients v_clients]. rewrite Hl, Hc'. apply list_elem_of_fmap. exists c. split; [done|]. by eapply list_elem_of_lookup_2.
  - destruct (ok_device _ _ d Hok' Hd) as (Hb & _ & Hh & _). apply buffer_create_raw_spec; [by rewrite Hc'| |done].
    unfold dev_env. cbn [e_map]. unfold dev_at in Hd. by rewrite Hd.
Qed.

Lemma find_buffer_spec conn addr size l : forall foreign mismatch i j,
  find_buffer conn addr size foreign mismatch i l = Val j ->
  exists n b, j = (i + n)%nat /\ l !! n = Some b /\ b_client b = conn /\ b_addr b = addr /\ b_size b = size.
Proof using Type.
  induction l as [|b l IH]; intros foreign mismatch i j; cbn [find_buffer]; [done|].
  assert (forall f m, find_buffer conn addr size f m (S i) l = Val j ->
    exists n b', j = (i + n)%nat /\ (b :: l) !! n = Some b' /\ b_client b' = conn /\ b_addr b' = addr /\ b_size b' = size) as Hrec.
  { intros f m E. destruct (IH f m (S i) j E) as (n & b' & -> & Hn & H). exists (S n), b'. split; [lia|done]. }
  destruct (Z.eqb_spec (b_addr b) addr); cbn [negb]; [|by apply Hrec].
  destruct (Z.eqb_spec (b_size b) size); cbn [negb]; [|by apply Hrec].
  destruct (Z.eqb_spec (b_client b) conn); cbn [negb]; [|by apply Hrec].
  intros [= <-]. exists 0%nat, b. split; [lia|done].
Qed.

Lemma close_ok k c r v : daemon_ok v -> v_clients v !! k = Some c -> 0 <= rc_dev r ->
  ewp False False (client_handle_request_buffer_close k r) v (fun _ => daemon_ok) (fun _ => daemon_ok).
Proof using Type.
  intros Hok Hk Hdev. unfold client_handle_request_buffer_close. ewp_step.
  apply (authorize_spec k _ c v); [done|done| |done]. intros c' l Hc' Hl Hok'. set (v1 := set_clients l v) in *.
  ewp_step. ewp_step; [done|]. ewp_step. ewp_step. unfold id. ewp_step. ewp_step; [done|]. ewp_step. ewp_step; [done|].
  destruct (dev_exists (rc_dev r) v1) as [d Hd]; [done|done|]. rewrite Hd.
  destruct (find_buffer _ _ _ _ _ _ _) as [j|code] eqn:Ef; [|by ewp_step].
  apply find_buffer_spec in Ef as (n & b & -> & Hn & _). cbn [Nat.add]. rewrite Hn. ewp_step.
  destruct (ok_device _ _ d Hok' Hd) as (Hb & Hg & Hh & Ho). pose proof (delete_Permutation _ _ _ Hn) as Hp.
  pose proof (Forall_lookup_1 _ _ _ _ Hg Hn) as Hgb.
  destruct (cleanup_spec (b_client b) b (dev_env (Z.to_nat (rc_dev r)) v1) (delete n (d_buffers d)) (others_q v1 (Z.to_nat (rc_dev r)))
    (others_fd v1 (Z.to_nat (rc_dev r))) (good_partial _ Hgb)) as [Hb' Hh'].
  - unfold dev_env. cbn [e_map]. unfold dev_at in Hd. rewrite Hd. by eapply backs_perm.
  - by eapply holds_perm.
  - apply (ok_update v1 _ d); [done|done|done| |done|].
    + rewrite Hp in Hg. by apply Forall_cons in Hg as [_ Hg].
    + intros b' Hin. apply Ho. rewrite Hp. by right.
Qed.

(** ** Connections and devices *)

Lemma list_filter_all {A} (P : A -> Prop) `{!forall x, Decision (P x)} (l : list A) : (forall x, x ∈ l -> P x) -> filter P l = l.
Proof using Type.
  induction l as [|x l IH]; intros Hl; [done|]. rewrite filter_cons_True by (apply Hl; left). f_equal. apply IH. intros y Hy. apply Hl. by right.
Qed.

(** [v'] is [v] with the buffers that [keep] does not keep cleaned up. *)
Record pruned (keep : nat -> buffer -> bool) v v' : Prop := {
  pruned_buffers i : d_buffers <$> v_devices v' !! i = filter (fun b => keep i b = true) ∘ d_buffers <$> v_devices v !! i;
  pruned_bdfs : d_bdf <$> v_devices v' = d_bdf <$> v_devices v;
  pruned_clients : v_clients v' = v_clients v;
  pruned_async : async_device_op_in_progress v' = async_device_op_in_progress v;
  pruned_deferred : deferred_conn_ids v' = deferred_conn_ids v;
  pruned_next : next_conn_id v' = next_conn_id v
}.

Lemma clean_device_spec keep v i : daemon_ok v -> (i < length (v_devices v))%nat ->
  daemon_ok (clean_device keep v i) /\ pruned (fun j b => negb (i =? j)%nat || keep b) v (clean_device keep v i).
Proof using Type.
  intros Hok [d Hi]%lookup_lt_is_Some_2. unfold clean_device. rewrite Hi.
  destruct (ok_device v i d Hok Hi) as (Hb & Hg & Hh & Ho).
  destruct (clean_buffers_spec keep (d_buffers d) (dev_env i v) [] (others_q v i) (others_fd v i) Hg) as (H1 & H2 & H3).
  { unfold dev_env. cbn [e_map]. by rewrite Hi, app_nil_r. }
  { by rewrite app_nil_r. }
  cbv zeta in *. rewrite app_nil_r in *. set (r := clean_buffers keep (d_buffers d) (dev_env i v)) in *.
  assert (forall b, b ∈ r.1 -> b ∈ d_buffers d) as Hsub by (intros b; rewrite H1, list_elem_of_filter; tauto).
  split; [apply (ok_update v i d); [done|done|done| |done|]|].
  - rewrite H1. rewrite Forall_forall in *. intros b [_ Hin]%list_elem_of_filter. by apply Hg.
  - intros b Hin. by apply Ho, Hsub.
  - split; [intros j| |done..]; rewrite (put_devices i d _ _ v Hi).
    + destruct (decide (i = j)) as [<-|Hne].
      * rewrite list_lookup_insert_eq by (by eapply lookup_lt_Some). rewrite Hi. cbn. f_equal. rewrite H1.
        apply list_filter_iff. intros b. by rewrite Nat.eqb_refl.
      * rewrite list_lookup_insert_ne by done. destruct (v_devices v !! j); [|done]. cbn. f_equal. symmetry.
        apply list_filter_all. intros b _. by rewrite (proj2 (Nat.eqb_neq i j)).
    + rewrite list_fmap_insert. apply list_insert_id. by rewrite list_lookup_fmap, Hi.
Qed.

Lemma pruned_trans keep1 keep2 v v1 v2 : pruned keep1 v v1 -> pruned keep2 v1 v2 -> pruned (fun i b => keep1 i b && keep2 i b) v v2.
Proof using Type.
  intros [B1 D1 C1 A1 F1 N1] [B2 D2 C2 A2 F2 N2]. split; [|congruence..]. intros i. rewrite B2. specialize (B1 i).
  destruct (v_devices v1 !! i) as [d1|], (v_devices v !! i) as [d|]; try done. cbn in *. injection B1 as ->. f_equal.
  rewrite list_filter_filter. apply list_filter_iff. intros b. rewrite andb_true_iff. tauto.
Qed.

Lemma pruned_length keep v v' : pruned keep v v' -> length (v_devices v') = length (v_devices v).
Proof using Type. intros [_ D _ _ _ _]. by rewrite <-(length_fmap d_bdf), D, length_fmap. Qed.

Lemma pruned_ext keep1 keep2 v v' : (forall i b, (i < length (v_devices v))%nat -> keep1 i b = keep2 i b) -> pruned keep1 v v' -> pruned keep2 v v'.
Proof using Type.
  intros He [B D C A F N]. split; [|done..]. intros i. rewrite B. destruct (v_devices v !! i) as [d|] eqn:E; [|done]. cbn. f_equal.
  apply list_filter_iff. intros b. rewrite He; [done|]. by eapply lookup_lt_Some.
Qed.

Lemma clean_devices_spec keep v n : daemon_ok v -> (n <= length (v_devices v))%nat ->
  let v' := foldl (clean_device keep) v (seq 0 n) in daemon_ok v' /\ pruned (fun i b => negb (i <? n)%nat || keep b) v v'.
Proof using Type.
  intros Hok. induction n as [|n IH]; intros Hn.
  { split; [done|]. split; [|done..]. intros i. cbn [seq foldl]. destruct (v_devices v !! i); [|done]. cbn. f_equal.
    symmetry. by apply list_filter_all. }
  destruct (IH ltac:(lia)) as [Hok1 Hp1]. rewrite seq_S, foldl_app. cbn [foldl Nat.add]. set (v1 := foldl _ v (seq 0 n)) in *.
  destruct (clean_device_spec keep v1 n Hok1) as [Hok2 Hp2]; [rewrite (pruned_length _ _ _ Hp1); lia|]. split; [done|].
  eapply pruned_ext; [|exact (pruned_trans _ _ _ _ _ Hp1 Hp2)]. intros i b _. cbn beta.
  destruct (Nat.ltb_spec i n), (Nat.ltb_spec i (S n)), (Nat.eqb_spec n i); try lia; by destruct (keep b).
Qed.

Lemma cleanup_conn_spec conn v : daemon_ok v -> conn <> 0 ->
  daemon_ok (cleanup_buffers_for_conn_id conn v) /\
  pruned (fun _ b => negb (b_client b =? conn)) v (cleanup_buffers_for_conn_id conn v).
Proof using Type.
  intros Hok Hc. unfold cleanup_buffers_for_conn_id. rewrite (proj2 (Z.eqb_neq conn 0) Hc).
  destruct (clean_devices_spec (fun b => negb (b_client b =? conn)) v (length (v_devices v)) Hok (le_n _)) as [H1 H2].
  split; [exact H1|]. eapply pruned_ext; [|exact H2]. intros i b Hi. cbn beta. by rewrite (proj2 (Nat.ltb_lt _ _)).
Qed.

Lemma pruned_elem keep v v' b : pruned keep v v' -> b ∈ buffers_of (v_devices v') <->
  exists i d, v_devices v !! i = Some d /\ b ∈ d_buffers d /\ keep i b = true.
Proof using Type.
  intros [B _ _ _ _ _]. unfold buffers_of. rewrite list_elem_of_bind. split.
  - intros (d' & Hb & [i Hi]%list_elem_of_lookup). specialize (B i). rewrite Hi in B. destruct (v_devices v !! i) as [d|] eqn:E; [|done].
    injection B as B. rewrite B in Hb. apply list_elem_of_filter in Hb as [? ?]. by exists i, d.
  - intros (i & d & Hi & Hb & Hk). specialize (B i). rewrite Hi in B. destruct (v_devices v' !! i) as [d'|] eqn:E; [|done].
    injection B as B. exists d'. split; [|by eapply list_elem_of_lookup_2]. rewrite B. by apply list_elem_of_filter.
Qed.

(** Cleaning up changes nothing that it does not read. *)
Lemma clean_device_async keep on l v i : clean_device keep (set_async on l v) i = set_async on l (clean_device keep v i).
Proof using Type.
  unfold clean_device. change (v_devices (set_async on l v)) with (v_devices v). by destruct (v_devices v !! i).
Qed.

Lemma clean_devices_async keep on l idx : forall v,
  foldl (clean_device keep) (set_async on l v) idx = set_async on l (foldl (clean_device keep) v idx).
Proof using Type. induction idx as [|i idx IH]; intros v; cbn [foldl]; [done|]. by rewrite clean_device_async, IH. Qed.

Lemma cleanup_conn_async conn on l v :
  cleanup_buffers_for_conn_id conn (set_async on l v) = set_async on l (cleanup_buffers_for_conn_id conn v).
Proof using Type. unfold cleanup_buffers_for_conn_id. destruct (conn =? 0); [done|]. apply clean_devices_async. Qed.

Lemma cleanup_conns_async conns on l : forall v, foldl (fun v conn => cleanup_buffers_for_conn_id conn v) (set_async on l v) conns =
  set_async on l (foldl (fun v conn => cleanup_buffers_for_conn_id conn v) v conns).
Proof using Type. induction conns as [|c conns IH]; intros v; cbn [foldl]; [done|]. by rewrite cleanup_conn_async, IH. Qed.

Lemma cleanup_conns_spec conns : forall v, daemon_ok v -> Forall (fun n => n <> 0) conns ->
  let v' := foldl (fun v conn => cleanup_buffers_for_conn_id conn v) v conns in
  daemon_ok v' /\ pruned (fun _ b => negb (existsb (Z.eqb (b_client b)) conns)) v v'.
Proof using Type.
  induction conns as [|c conns IH]; intros v Hok Hc; cbn [foldl].
  { split; [done|]. split; [|done..]. intros i. destruct (v_devices v !! i); [|done]. cbn. f_equal. symmetry. by apply list_filter_all. }
  apply Forall_cons in Hc as [Hc Hcs]. destruct (cleanup_conn_spec c v Hok Hc) as [Hok1 Hp1].
  destruct (IH _ Hok1 Hcs) as [Hok2 Hp2]. split; [done|]. eapply pruned_ext; [|exact (pruned_trans _ _ _ _ _ Hp1 Hp2)].
  intros i b _. cbn [existsb]. by rewrite negb_orb.
Qed.

Lemma buffers_elem v b : b ∈ buffers_of (v_devices v) <-> exists i d, v_devices v !! i = Some d /\ b ∈ d_buffers d.
Proof using Type.
  unfold buffers_of. rewrite list_elem_of_bind. split.
  - intros (d & Hb & [i Hi]%list_elem_of_lookup). by exists i, d.
  - intros (i & d & Hi & Hb). exists d. split; [done|]. by eapply list_elem_of_lookup_2.
Qed.

(** A change of the connections alone. *)
Lemma ok_connections v clients next on deferred : daemon_ok v ->
  let v' := mkVrtd (v_config v) clients next (v_devices v) (v_q v) (v_errno v) on deferred in
  (forall buf, buf ∈ buffers_of (v_devices v) -> entitled v (b_client buf) -> entitled v' (b_client buf)) ->
  (on = false -> deferred = []) -> NoDup ((conn_id <$> clients) ++ deferred) ->
  Forall (fun n => 0 < n <= next) ((conn_id <$> clients) ++ deferred) -> daemon_ok v'.
Proof using Type.
  intros [Hb Hg Hh Ho _ _ _] v' He Hd Hn Hi. split; [exact Hb|exact Hg|exact Hh| |exact Hd|exact Hn|exact Hi].
  intros buf Hin. by apply He, Ho.
Qed.

Lemma delete_elem {A} (l : list A) k x y : l !! k = Some x -> y ∈ l -> y <> x -> y ∈ delete k l.
Proof using Type. intros Hk Hy Hne. rewrite (delete_Permutation l k x Hk) in Hy. by apply elem_of_cons in Hy as [?|?]. Qed.

(** The connections without connection [k]. *)
Lemma ids_delete v k c : daemon_ok v -> v_clients v !! k = Some c ->
  (conn_id <$> v_clients v) ++ deferred_conn_ids v ≡ₚ conn_id c :: (conn_id <$> delete k (v_clients v)) ++ deferred_conn_ids v.
Proof using Type. intros _ Hk. by rewrite (delete_Permutation _ _ _ Hk) at 1. Qed.

(** The end of a connection: its buffers are cleaned up, or wait. *)
Lemma disconnect_ok v k c : daemon_ok v -> v_clients v !! k = Some c ->
  daemon_ok (cleanup_client k v) /\
  (async_device_op_in_progress v = false ->
   pruned (fun _ b => negb (b_client b =? conn_id c)) v (set_clients (v_clients v) (cleanup_client k v))) /\
  v_clients (cleanup_client k v) = delete k (v_clients v).
Proof using Type.
  intros Hok Hk. pose proof (ok_client _ _ _ Hok Hk) as Hid. unfold cleanup_client. rewrite Hk. unfold cleanup_client_buffers.
  rewrite (proj2 (Z.eqb_neq _ _) Hid). pose proof (ids_delete v k c Hok Hk) as Hids.
  pose proof (ok_unique _ Hok) as Hun. pose proof (ok_ids _ Hok) as Hb. rewrite Hids in Hun, Hb.
  apply NoDup_cons in Hun as [Hnin Hun]. apply Forall_cons in Hb as [Hcb Hb].
  destruct (async_device_op_in_progress v) eqn:Ea.
  - split; [|split; [done|by unfold defer_buffer_cleanup; destruct (_ || _)]].
    unfold defer_buffer_cleanup. rewrite (proj2 (Z.eqb_neq _ _) Hid). cbn [orb].
    assert (existsb (Z.eqb (conn_id c)) (deferred_conn_ids v) = false) as ->.
    { apply not_true_is_false. rewrite existsb_exists. intros (n & Hn & Heq%Z.eqb_eq). subst n.
      apply Hnin, elem_of_app. right. by apply list_elem_of_In. }
    apply (ok_connections v); [done| |by rewrite Ea| |].
    + intros b _ [Hc|[_ Hd]]; [|right; split; [done|apply elem_of_app; by left]].
      destruct (decide (b_client b = conn_id c)) as [E|E]; [right; split; [done|]; rewrite E; apply elem_of_app; right; by apply list_elem_of_singleton|].
      left. apply list_elem_of_fmap in Hc as (c' & Hc' & Hin). rewrite Hc'. apply list_elem_of_fmap. exists c'. split; [done|].
      apply (delete_elem _ _ c); [done|done|]. intros ->. by rewrite Hc' in E.
    + change (NoDup ((conn_id <$> delete k (v_clients v)) ++ deferred_conn_ids v ++ [conn_id c])).
      rewrite (assoc_L (++)), <-Permutation_cons_append. by apply NoDup_cons.
    + change (Forall (fun n => 0 < n <= next_conn_id v) ((conn_id <$> delete k (v_clients v)) ++ deferred_conn_ids v ++ [conn_id c])).
      rewrite (assoc_L (++)), <-Permutation_cons_append. by apply Forall_cons.
  - destruct (cleanup_conn_spec (conn_id c) v Hok Hid) as [Hok1 Hp1]. set (v1 := cleanup_buffers_for_conn_id (conn_id c) v) in *.
    pose proof Hp1 as [Hbuf Hbdf Hcl Has Hdef Hnx]. split; [|split; [|by cbn [set_clients v_clients]; rewrite Hcl]].
    + apply (ok_connections v1); [done| | | |].
      * intros b Hin [Hc|Hd]; [left|right; exact Hd]. apply (pruned_elem _ _ _ b Hp1) in Hin as (i & d & _ & _ & Hne).
        rewrite Hcl in Hc. cbn [set_clients v_clients]. rewrite Hcl. apply list_elem_of_fmap in Hc as (c' & Hc' & Hin'). rewrite Hc' in *.
        apply list_elem_of_fmap. exists c'. split; [done|]. apply (delete_elem _ _ c); [done|done|]. intros ->. rewrite Z.eqb_refl in Hne. done.
      * rewrite Has, Hdef. by apply ok_deferred.
      * by rewrite Hcl, Hdef.
      * by rewrite Hcl, Hdef, Hnx.
    + by split.
Qed.

Lemma async_start_ok v : daemon_ok v -> async_device_op_in_progress v = false -> daemon_ok (set_async true (deferred_conn_ids v) v).
Proof using Type.
  intros Hok Ha. apply (ok_connections v); [done| |done|apply Hok|apply Hok].
  intros b _ [?|[Hf _]]; [by left|]. by rewrite Ha in Hf.
Qed.

Lemma async_completed_ok v : daemon_ok v -> async_device_op_in_progress v = true ->
  daemon_ok (async_completed v) /\ async_device_op_in_progress (async_completed v) = false.
Proof using Type.
  intros Hok Ha. unfold async_completed, drain_deferred_buffer_cleanups. cbv zeta.
  change (deferred_conn_ids (set_async false (deferred_conn_ids v) v)) with (deferred_conn_ids v).
  rewrite cleanup_conns_async. pose proof (ok_ids _ Hok) as Hids. apply Forall_app in Hids as [_ Hids].
  destruct (cleanup_conns_spec (deferred_conn_ids v) v Hok) as [Hok1 Hp1]; [eapply Forall_impl; [exact Hids|cbn; lia]|].
  set (v1 := foldl _ v (deferred_conn_ids v)) in *. cbv zeta in *. destruct Hp1 as [Hbuf Hbdf Hcl Has Hdef Hnx] eqn:Ep. clear Ep.
  split; [|done]. pose proof (ok_unique _ Hok1) as Hun. pose proof (ok_ids _ Hok1) as Hi1.
  apply (ok_connections v1); [done| |done| |].
  - intros b Hin [Hc|[_ Hd]]; [by left|]. exfalso.
    assert (pruned (fun _ b => negb (existsb (Z.eqb (b_client b)) (deferred_conn_ids v))) v v1) as Hp by (by split).
    apply (pruned_elem _ _ _ b Hp) in Hin as (i & d & _ & _ & Hne). rewrite Hdef in Hd.
    apply negb_true_iff, not_true_iff_false in Hne. apply Hne, existsb_exists. exists (b_client b).
    split; [by apply list_elem_of_In|apply Z.eqb_refl].
  - rewrite app_nil_r. by apply NoDup_app in Hun as [? _].
  - rewrite app_nil_r. by apply Forall_app in Hi1 as [? _].
Qed.

(** Devices that have no buffers. *)
Lemma ok_devices v ds : daemon_ok v -> Forall (fun d => backs (d_map d) (d_buffers d) /\ Forall good (d_buffers d)) ds ->
  buffers_of ds ≡ₚ buffers_of (v_devices v) -> daemon_ok (set_devices ds v).
Proof using Type.
  intros [Hb Hg Hh Ho Hd Hun Hids] Hds Hp. apply Forall_and in Hds as [Hdb Hdg]. split; [exact Hdb|exact Hdg| | |exact Hd|exact Hun|exact Hids].
  - eapply holds_perm; [symmetry; exact Hp|exact Hh].
  - intros b Hin. apply Ho. by rewrite <-Hp.
Qed.

Lemma cleanup_device_ok v i : daemon_ok v -> (i < length (v_devices v))%nat -> daemon_ok (cleanup_device i v).
Proof using Type.
  intros Hok Hi. destruct (clean_device_spec (fun _ => false) v i Hok Hi) as [Hok1 Hp1]. unfold cleanup_device. cbv zeta.
  set (v1 := clean_device _ v i) in *. assert (exists d, v_devices v1 !! i = Some d /\ d_buffers d = []) as (d & Hd & He).
  { pose proof (pruned_length _ _ _ Hp1) as Hl. pose proof (pruned_buffers _ _ _ Hp1 i) as Hb.
    destruct (lookup_lt_is_Some_2 (v_devices v1) i ltac:(lia)) as [d Hd]. destruct (lookup_lt_is_Some_2 _ _ Hi) as [d0 Hd0].
    rewrite Hd, Hd0 in Hb. cbn in Hb. exists d. split; [done|]. injection Hb as ->. rewrite Nat.eqb_refl. cbn. by induction (d_buffers d0). }
  apply ok_devices; [done| |].
  - apply Forall_delete, Forall_and. split; apply Hok1.
  - rewrite (buffers_split (v_devices v1) i d Hd), He. done.
Qed.

Definition fresh_device (d : device) : Prop := d_buffers d = [] /\ (d_map d = None \/ d_map d = Some device_memory_map_create).

Lemma fresh_device_ok d : fresh_device d -> backs (d_map d) (d_buffers d) /\ Forall good (d_buffers d).
Proof using Type. intros [-> [-> | ->]]; (split; [|constructor]); [done|]. exact create_accounted. Qed.

Lemma discovered_ok v d : daemon_ok v -> fresh_device d -> daemon_ok (discovered d v).
Proof using Type.
  intros Hok Hf. apply ok_devices; [done| |].
  - apply Forall_app. split; [apply Forall_and; split; apply Hok|]. apply Forall_singleton. by apply fresh_device_ok.
  - unfold buffers_of. rewrite bind_app. destruct Hf as [He _]. cbn. by rewrite He, !app_nil_r.
Qed.

Lemma connect_ok v uid gids : daemon_ok v -> 0 <= next_conn_id v < 2 ^ 64 - 1 -> daemon_ok (connect uid gids v).
Proof using Type.
  intros Hok Hn. pose proof (ok_ids _ Hok) as Hids. unfold connect. cbv zeta.
  assert (u64 (next_conn_id v + 1) = next_conn_id v + 1) as -> by (apply Z.mod_small; lia). rewrite (proj2 (Z.eqb_neq _ _)) by lia.
  assert ((conn_id <$> v_clients v ++ [{| conn_id := next_conn_id v + 1; conn_client := {| cl_uid := uid; cl_gids := gids; cl_role := None |} |}])
    ++ deferred_conn_ids v ≡ₚ (next_conn_id v + 1) :: (conn_id <$> v_clients v) ++ deferred_conn_ids v) as Hp.
  { rewrite fmap_app. cbn. rewrite <-(assoc_L (++)). symmetry. apply Permutation_middle. }
  apply (ok_connections v); [done| |apply Hok|rewrite Hp|rewrite Hp].
  - intros b _ [Hc|Hd]; [left|right; exact Hd]. cbn [v_clients]. rewrite fmap_app. apply elem_of_app. by left.
  - apply NoDup_cons. split; [|apply Hok]. intros Hin. rewrite Forall_forall in Hids. specialize (Hids _ Hin). lia.
  - apply Forall_cons. split; [lia|]. eapply Forall_impl; [exact Hids|]. cbn. lia.
Qed.

(** ** Reachable states *)

(** What can happen: connections, requests when no device operation runs,
    device operations and their end, and devices that go and come, in an
    operation or by a hotplug request. *)
Inductive step : vrtd (ledger Q) -> vrtd (ledger Q) -> Prop :=
  | step_connect v uid gids : 0 <= next_conn_id v < 2 ^ 64 - 1 -> step v (connect uid gids v)
  | step_disconnect v k c : v_clients v !! k = Some c -> step v (cleanup_client k v)
  | step_open v k c r a v' : v_clients v !! k = Some c -> async_device_op_in_progress v = false -> 0 <= ro_dev r ->
      is_u64 (ro_size r) -> is_u64 (ro_arg r) -> client_handle_request_buffer_open k r v = Ret a v' -> step v v'
  | step_open_raw v k c r a v' : v_clients v !! k = Some c -> async_device_op_in_progress v = false -> 0 <= rr_dev r ->
      client_handle_request_buffer_open_raw k r v = Ret a v' -> step v v'
  | step_close v k c r a v' : v_clients v !! k = Some c -> async_device_op_in_progress v = false -> 0 <= rc_dev r ->
      client_handle_request_buffer_close k r v = Ret a v' -> step v v'
  | step_async v : async_device_op_in_progress v = false -> step v (set_async true (deferred_conn_ids v) v)
  | step_removed v i : (i < length (v_devices v))%nat -> step v (cleanup_device i v)
  | step_discovered v d : fresh_device d -> step v (discovered d v)
  | step_completed v : async_device_op_in_progress v = true -> step v (async_completed v).

Definition started (cfg : config) (ds : list device) (q : Q) (errno : Z) : vrtd (ledger Q) :=
  mkVrtd cfg [] 0 ds (mkLedger q [] [] []) errno false [].

Definition reachable cfg ds q errno v : Prop := rtc step (started cfg ds q errno) v.

Lemma started_ok cfg ds q errno : Forall fresh_device ds -> daemon_ok (started cfg ds q errno).
Proof using Type.
  intros Hds. assert (buffers_of ds = []) as He.
  { induction Hds as [|d ds [Hd _] _ IH]; [done|]. unfold buffers_of in *. cbn. by rewrite Hd, IH. }
  split; cbn [started v_devices v_clients v_q deferred_conn_ids async_device_op_in_progress next_conn_id].
  - eapply Forall_impl; [exact Hds|]. intros d Hd. by apply fresh_device_ok.
  - eapply Forall_impl; [exact Hds|]. intros d Hd. by apply fresh_device_ok.
  - by rewrite He.
  - rewrite He. intros b Hb. by apply elem_of_nil in Hb.
  - done.
  - apply NoDup_nil_2.
  - constructor.
Qed.

Lemma step_ok v v' : step v v' -> daemon_ok v -> daemon_ok v'.
Proof using Type.
  intros Hs Hok. destruct Hs as [v uid gids Hn|v k c Hk|v k c r a v' Hk Ha Hd Hsz Harg E|v k c r a v' Hk Ha Hd E|
    v k c r a v' Hk Ha Hd E|v Ha|v i Hi|v d Hf|v Ha].
  - by apply connect_ok.
  - by eapply disconnect_ok.
  - pose proof (ewp_run _ _ _ _ _ _ (open_ok k c r v Hok Hk Hd Hsz Harg) E). by destruct a.
  - pose proof (ewp_run _ _ _ _ _ _ (open_raw_ok k c r v Hok Hk Hd) E). by destruct a.
  - pose proof (ewp_run _ _ _ _ _ _ (close_ok k c r v Hok Hk Hd) E). by destruct a.
  - by apply async_start_ok.
  - by apply cleanup_device_ok.
  - by apply discovered_ok.
  - by apply async_completed_ok.
Qed.

Lemma reachable_ok cfg ds q errno v : Forall fresh_device ds -> reachable cfg ds q errno v -> daemon_ok v.
Proof using Type.
  intros Hds Hr. assert (daemon_ok (started cfg ds q errno)) as H0 by (by apply started_ok). revert H0.
  induction Hr as [|v1 v2 v3 Hs _ IH]; [done|]. intros H1. by apply IH, (step_ok v1).
Qed.

(** ** What holds in every reachable state *)

Lemma backs_apart map l b1 b2 l' : backs map l -> l ≡ₚ b1 :: b2 :: l' -> allocation_valid b1 = true -> allocation_valid b2 = true ->
  apart (live_of b1) (live_of b2).
Proof using Type.
  intros Hb Hp H1 H2. apply (backs_perm _ _ _ Hp) in Hb. unfold backs in Hb. rewrite !filter_cons_True in Hb by done.
  destruct map as [m|]; [|done]. rewrite !fmap_cons in Hb. by eapply ac_apart.
Qed.

Lemma fds_of l : Forall good l -> (b ← l; fd_of b) = b_fd <$> l.
Proof using Type.
  induction 1 as [|b l [_ _ Hfd _] _ IH]; [done|]. change (fd_of b ++ (b ← l; fd_of b) = b_fd b :: (b_fd <$> l)). rewrite IH.
  unfold fd_of. by rewrite (proj2 (Z.leb_le _ _) Hfd).
Qed.


Lemma ewp_returns {E S A} (m : EM E S A) s Qv X : ewp False False m s Qv X -> exists r s', m s = Ret r s'.
Proof using Type. unfold ewp, post. destruct (m s); [eauto|done..]. Qed.

(** C21: in each such state each buffer request of a connected client is
    answered: with a result or an error code, for every outcome of the library,
    and never by undefined behaviour. *)
Theorem handlers_return cfg ds q errno v k c : Forall fresh_device ds -> reachable cfg ds q errno v -> v_clients v !! k = Some c ->
  (forall r, 0 <= ro_dev r -> is_u64 (ro_size r) -> is_u64 (ro_arg r) -> exists a v', client_handle_request_buffer_open k r v = Ret a v') /\
  (forall r, 0 <= rr_dev r -> exists a v', client_handle_request_buffer_open_raw k r v = Ret a v') /\
  (forall r, 0 <= rc_dev r -> exists a v', client_handle_request_buffer_close k r v = Ret a v').
Proof using Type.
  intros Hds Hr Hk. pose proof (reachable_ok _ _ _ _ _ Hds Hr) as Hok. split; [|split]; intros r ?; intros;
    eapply ewp_returns; [by eapply open_ok|by eapply open_raw_ok|by eapply close_ok].
Qed.

(** C22: when a client disconnects while no device operation runs, each device
    keeps exactly the buffers of the other clients, in their order; the open
    descriptors are theirs, and the open queue pairs are theirs and those whose
    deletion failed, which are none if the library deletes what it is asked to;
    the devices and the other clients are as before. *)
Theorem disconnect_exact cfg ds q errno v k c : Forall fresh_device ds -> reachable cfg ds q errno v ->
  v_clients v !! k = Some c -> async_device_op_in_progress v = false ->
  let v' := cleanup_client k v in
  (forall i, d_buffers <$> v_devices v' !! i = filter (fun b => b_client b <> conn_id c) ∘ d_buffers <$> v_devices v !! i) /\
  lg_qids (v_q v') ≡ₚ (b ← buffers_of (v_devices v'); b_qids b) ++ lg_failed (v_q v') /\ (deletes Q -> lg_failed (v_q v') = []) /\
  lg_fds (v_q v') ≡ₚ (b ← buffers_of (v_devices v'); fd_of b) /\
  d_bdf <$> v_devices v' = d_bdf <$> v_devices v /\ v_clients v' = delete k (v_clients v).
Proof using Type.
  intros Hds Hr Hk Ha v'. pose proof (reachable_ok _ _ _ _ _ Hds Hr) as Hok.
  destruct (disconnect_ok v k c Hok Hk) as (Hok' & Hp & Hcl). destruct (Hp Ha) as [Hb Hbdf _ _ _ _].
  destruct (ok_holds _ Hok') as (Hq & Hf & Hd). rewrite app_nil_r in Hf. split; [|by split_and!].
  intros i. specialize (Hb i). cbn [set_clients v_devices] in Hb. fold v' in Hb. rewrite Hb. destruct (v_devices v !! i) as [d|]; [|done].
  cbn. f_equal. apply list_filter_iff. intros b. rewrite negb_true_iff. apply Z.eqb_neq.
Qed.

(** C23: isolation.  A close request that succeeds closes one buffer, which is
    the client's own and has the address and the size of the request; one that
    is refused closes nothing. *)
Theorem close_only_own cfg ds q errno v k c r a v' : Forall fresh_device ds -> reachable cfg ds q errno v -> v_clients v !! k = Some c ->
  0 <= rc_dev r -> client_handle_request_buffer_close k r v = Ret a v' ->
  let i := Z.to_nat (rc_dev r) in
  match a with
  | Val _ => exists d j b, v_devices v !! i = Some d /\ d_buffers d !! j = Some b /\
      b_client b = conn_id c /\ b_addr b = rc_addr r /\ b_size b = rc_size r /\
      forall i', d_buffers <$> v_devices v' !! i' = if (i' =? i)%nat then Some (delete j (d_buffers d)) else d_buffers <$> v_devices v !! i'
  | Exn _ => v_devices v' = v_devices v
  end.
Proof using Type.
  intros Hds Hr Hk Hdev E i. pose proof (reachable_ok _ _ _ _ _ Hds Hr) as Hok.
  assert (ewp False False (client_handle_request_buffer_close k r) v (fun _ v' => exists d j b,
    v_devices v !! i = Some d /\ d_buffers d !! j = Some b /\ b_client b = conn_id c /\ b_addr b = rc_addr r /\ b_size b = rc_size r /\
    forall i', d_buffers <$> v_devices v' !! i' = if (i' =? i)%nat then Some (delete j (d_buffers d)) else d_buffers <$> v_devices v !! i')
    (fun _ v' => v_devices v' = v_devices v)) as Hw; [|pose proof (ewp_run _ _ _ _ _ _ Hw E); by destruct a].
  unfold client_handle_request_buffer_close. ewp_step. apply (authorize_devices k _ c v); [done| |done].
  intros c' l Hc' _. set (v1 := set_clients l v).
  ewp_step. ewp_step; [done|]. ewp_step. ewp_step. unfold id. ewp_step. ewp_step; [done|]. ewp_step. ewp_step; [done|].
  destruct (dev_exists (rc_dev r) v1) as [d Hd]; [done|done|]. rewrite Hd.
  destruct (find_buffer _ _ _ _ _ _ _) as [j|code] eqn:Ef; [|by ewp_step].
  apply find_buffer_spec in Ef as (n & b & -> & Hn & Hcl & Ha & Hs). cbn [Nat.add]. rewrite Hn. ewp_step.
  exists d, n, b. split_and!; [exact Hd|exact Hn|congruence|exact Ha|exact Hs|]. intros i'.
  rewrite (put_devices i d _ _ v1 Hd). fold i. destruct (Nat.eqb_spec i' i) as [->|Hne].
  - by rewrite list_lookup_insert_eq by (by eapply lookup_lt_Some).
  - by rewrite list_lookup_insert_ne.
Qed.
End daemon.

(** ** A device and two clients *)

(** A library that numbers the queue pairs, whose descriptors start at 100. *)
#[local] Instance counting : Qdma Z := {|
  qd_add _ _ n := (Some n, n + 1);
  qd_start _ n := (true, n);
  qd_stop _ n := (true, n);
  qd_del _ n := (true, n);
  qd_get_fd qids n := (100 + n, n);
  qd_close _ n := (true, n);
  qd_errno _ := 0
|}.

Definition card : device := mkDevice "0000:03:00" true (Some device_memory_map_create) [].
Definition ask : req_buffer_open := {| ro_len := 32; ro_dev := 0; ro_type := 0; ro_dir := 0; ro_channel := 0; ro_arg := 0; ro_size := 1000 |}.

(** Two clients, each with a buffer. *)
Definition after {A} (r : res (vrtd (ledger Z)) A) (v : vrtd (ledger Z)) : vrtd (ledger Z) := match r with Ret _ v' => v' | _ => v end.
Definition day0 : vrtd (ledger Z) := connect 8 [] (connect 7 [] (started open_config [card] 0 0)).
Definition day1 : vrtd (ledger Z) := after (client_handle_request_buffer_open 0 ask day0) day0.
Definition day2 : vrtd (ledger Z) := after (client_handle_request_buffer_open 1 ask day1) day1.

Lemma cards_fresh : Forall fresh_device [card].
Proof. constructor; [|constructor]. split; [reflexivity|right; reflexivity]. Qed.

Lemma served_step k c r (v : vrtd (ledger Z)) : v_clients v !! k = Some c -> async_device_op_in_progress v = false -> 0 <= ro_dev r ->
  is_u64 (ro_size r) -> is_u64 (ro_arg r) -> rtc step v (after (client_handle_request_buffer_open k r v) v).
Proof.
  intros Hk Ha Hd Hs Harg. destruct (client_handle_request_buffer_open k r v) as [a v'| |] eqn:E; [|apply rtc_refl..].
  apply rtc_once. by eapply step_open.
Qed.

Lemma day2_reachable : reachable open_config [card] 0 0 day2.
Proof.
  unfold reachable. eapply rtc_l; [apply step_connect; vm_compute; split; congruence|].
  eapply rtc_l; [apply step_connect; vm_compute; split; congruence|]. transitivity day1.
  - eapply (served_step 0); [reflexivity|reflexivity|done|split; vm_compute; congruence..].
  - eapply (served_step 1); [vm_compute; reflexivity|vm_compute; reflexivity|done|split; vm_compute; congruence..].
Qed.


Lemma handlers_return_witness : exists a v', client_handle_request_buffer_open 0 ask day2 = Ret a v'.
Proof.
  destruct (v_clients day2 !! 0%nat) as [c|] eqn:Hc; [|by vm_compute in Hc].
  destruct (handlers_return open_config [card] 0 0 day2 0 c cards_fresh day2_reachable Hc) as [Ho _].
  apply Ho; [done|split; vm_compute; congruence..].
Defined.

Lemma disconnect_exact_witness :
  d_buffers <$> v_devices (cleanup_client 0 day2) !! 0%nat = filter (fun b => b_client b <> 1) ∘ d_buffers <$> v_devices day2 !! 0%nat.
Proof.
  destruct (v_clients day2 !! 0%nat) as [c|] eqn:Hc; [|by vm_compute in Hc].
  destruct (disconnect_exact open_config [card] 0 0 day2 0 c cards_fresh day2_reachable Hc) as [Hb _]; [vm_compute; reflexivity|].
  assert (conn_id c = 1) as Hid by (vm_compute in Hc; injection Hc as <-; reflexivity). rewrite (Hb 0%nat), Hid. reflexivity.
Defined.

(** The second client asks to close the buffer of the first. *)
Definition foreign : req_buffer_close := {| rc_len := 20; rc_dev := 0; rc_addr := DDR_START_ADDRESS; rc_size := SUBREGION_SIZE |}.
Lemma close_only_own_witness : v_devices (after (client_handle_request_buffer_close 1 foreign day2) day2) = v_devices day2.
Proof.
  destruct (v_clients day2 !! 1%nat) as [c|] eqn:Hc; [|by vm_compute in Hc].
  destruct (client_handle_request_buffer_close 1 foreign day2) as [[u|code] v'| |] eqn:E; [exfalso; vm_compute in E; congruence| |reflexivity..].
  exact (close_only_own open_config [card] 0 0 day2 1 c foreign (Exn code) v' cards_fresh day2_reachable Hc (Z.le_refl 0) E).
Defined.
