(* ===== verification/Accept.v ===== *)
(** * Accepting a connection

    Model of [on_event_new_connection], [create_client_event] and [populate_uid_gid] in
    [src/vrt/vrtd/src/accept.c] for one connection, with [cleanup_client] of
    [serve.c] for a client that is not yet in the list.  The client structure
    is one heap cell, which is allocated and freed; a use of it after it was
    freed is undefined.  What the system answers is the record [peer]; logging
    and a failing [malloc] are left out.

    A connection whose set-up succeeds is [connect]; one whose set-up fails is
    undefined behaviour. *)

From S2P Require Import Prelude Except MemoryMap Policy Auth Daemon.
From stdpp Require Import list strings.
Open Scope Z_scope.

(** The fields of [struct client] that the clean-up reads. *)
Record client_cell := mkCell {
  cell_fd : Z; cell_in_fd : Z; cell_conn_id : Z; cell_state : bool; cell_uid : Z; cell_gids : list Z
}.

(** [calloc] *)
Definition zeroed : client_cell := mkCell 0 0 0 false 0 [].

(** What the system answers: the event of the listener, the results of
    [sd_event_add_io] and [asprintf], the credentials of the peer, the name of a
    user, the groups of a name, and the result of
    [sd_event_source_set_description]. *)
Record peer := {
  pr_event : bool; pr_add_io : Z; pr_asprintf : Z; pr_cred : option (Z * Z); pr_name : Z -> option string;
  pr_groups : string -> Z -> list Z; pr_describe : Z
}.

Record accepting (Q : Type) := mkAccepting { ac_v : vrtd Q; ac_cell : option client_cell; ac_closed : list Z }.
Arguments mkAccepting {Q}.
Arguments ac_v {Q}.
Arguments ac_cell {Q}.
Arguments ac_closed {Q}.

Section accept.
Context {Q : Type}.

Abbreviation AM := (EM unit (accepting Q)).

Definition set_cell (c : option client_cell) (s : accepting Q) : accepting Q := mkAccepting (ac_v s) c (ac_closed s).
Definition close (fd : Z) (s : accepting Q) : accepting Q := mkAccepting (ac_v s) (ac_cell s) (ac_closed s ++ [fd]).

(** A read of the cell. *)
Definition deref : AM client_cell := fun s => match ac_cell s with Some c => Ret (Val c) s | None => Ub end.

(** [cleanup_client] on a client whose [state] is not yet set: it has no
    buffers. *)
Definition cleanup_cell : AM unit :=
  c ← deref;
  ewhen (0 <=? cell_in_fd c) (updates (close (cell_in_fd c)));;
  ewhen (0 <=? cell_fd c) (updates (close (cell_fd c)));;
  updates (set_cell None).

Definition populate_uid_gid (p : peer) (cfd : Z) : AM unit :=
  throw_if (cfd <? 0) tt;;
  match pr_cred p with
  | None => throw tt
  | Some (uid, gid) =>
      match pr_name p uid with
      | None => throw tt
      | Some name =>
          let groups := pr_groups p name gid in
          throw_if (bool_decide (groups = [])) tt;;
          c ← deref;
          updates (set_cell (Some (mkCell (cell_fd c) (cell_in_fd c) (cell_conn_id c) (cell_state c) uid groups)))
      end
  end.

(** [PROPAGATE_ERROR_SD_LOG]: negative results are errors;
    [PROPAGATE_ERROR_STDC_LOG]: only -1 is. *)
Definition propagate_error_sd (ret : Z) : AM unit := throw_if (ret <? 0) tt.
Definition propagate_error_stdc (ret : Z) : AM unit := throw_if (ret =? -1) tt.

(** The steps after the allocation. *)
Definition create_client (p : peer) (cfd : Z) : AM unit :=
  throw_if (negb (pr_event p)) tt;;
  propagate_error_sd (pr_add_io p);;
  propagate_error_stdc (pr_asprintf p);;
  populate_uid_gid p cfd;;
  propagate_error_stdc (pr_describe p);;
  updates (fun s =>
    let v := ac_v s in
    let n := u64 (next_conn_id v + 1) in
    let n := if n =? 0 then 1 else n in
    mkAccepting (mkVrtd (v_config v) (v_clients v) n (v_devices v) (v_q v) (v_errno v) (async_device_op_in_progress v)
      (deferred_conn_ids v)) (ac_cell s) (ac_closed s));;
  c ← deref;
  n ← asks (fun s => next_conn_id (ac_v s));
  updates (set_cell (Some (mkCell cfd (-1) n true (cell_uid c) (cell_gids c)))).

(** The clean-up of the local [client], which runs when the body returns -1. *)
Definition or_cleanup_client (m : AM unit) : AM bool := fun s =>
  match m s with
  | Ret (Val _) s' => Ret (Val true) s'
  | Ret (Exn _) s' => (cleanup_cell;; mret false) s'
  | Ub => Ub
  | NoFuel => NoFuel
  end.

(** Whether it returns 0. *)
Definition create_client_event (p : peer) (cfd : Z) : AM bool :=
  updates (set_cell (Some zeroed));;
  or_cleanup_client (create_client p cfd).

(** The round of the loop of [on_event_new_connection] for the socket [cfd]: [*clientp] is
    set as soon as the client is allocated, and the clean-up of [client] at the
    end of the round runs unless the client moved into the list. *)
Definition accept_one (p : peer) (cfd : Z) : AM unit :=
  ok ← create_client_event p cfd;
  if ok : bool then
    c ← deref;
    updates (fun s => mkAccepting
      (set_clients (v_clients (ac_v s) ++ [{| conn_id := cell_conn_id c;
         conn_client := {| cl_uid := cell_uid c; cl_gids := cell_gids c; cl_role := None |} |}]) (ac_v s)) None (ac_closed s))
  else updates (close cfd);; cleanup_cell.

(** The credentials of the peer, if the set-up gets them. *)
Definition identified (p : peer) : option (Z * list Z) :=
  '(uid, gid) ← pr_cred p;
  name ← pr_name p uid;
  match pr_groups p name gid with [] => None | groups => Some (uid, groups) end.

(** The set-up of the event source: a description that is refused with another
    error than -1 goes unnoticed. *)
Definition registered (p : peer) : bool :=
  pr_event p && (0 <=? pr_add_io p) && negb (pr_asprintf p =? -1) && negb (pr_describe p =? -1).

(** C37: accepting a connection adds the client, with the user and the groups
    the system names for the peer and the next non-zero connection number, when
    the event source is registered and the peer is identified.  In every other
    case [cleanup_client] runs a second time on a client that is freed, which is
    undefined: a peer whose user has no entry in the password database is
    enough.  Of the result of [sd_event_source_set_description] only -1 counts as
    a failure; the call reports an error as any negative [errno]. *)
Theorem accept_exact (p : peer) (cfd : Z) (s : accepting Q) : 0 <= cfd ->
  accept_one p cfd s =
    match identified p with
    | Some (uid, gids) =>
        if registered p then Ret (Val tt) (mkAccepting (connect uid gids (ac_v s)) None (ac_closed s)) else Ub
    | None => Ub
    end.
Proof.
  intros Hfd. unfold accept_one, create_client_event, create_client, propagate_error_sd, propagate_error_stdc,
    populate_uid_gid, identified, registered. rewrite (proj2 (Z.ltb_ge cfd 0) Hfd), Z.leb_antisym.
  destruct (pr_event p), (pr_add_io p <? 0), (pr_asprintf p =? -1), (pr_cred p) as [[uid gid]|]; try reflexivity; cbn;
    destruct (pr_name p uid) as [name|]; try reflexivity; cbn;
    destruct (pr_groups p name gid) as [|g gids]; try reflexivity; destruct (pr_describe p =? -1); reflexivity.
Qed.
End accept.

(** A user without an entry, and one whose description is refused with
    [-ENOMEM]. *)
Definition stranger : peer := {|
  pr_event := true; pr_add_io := 0; pr_asprintf := 30; pr_cred := Some (4242, 100); pr_name := fun _ => None;
  pr_groups := fun _ _ => []; pr_describe := 0 |}.
Definition undescribed : peer := {|
  pr_event := true; pr_add_io := 0; pr_asprintf := 30; pr_cred := Some (1000, 100); pr_name := fun _ => Some "user"%string;
  pr_groups := fun _ gid => [gid]; pr_describe := -12 |}.

Lemma accept_exact_witness : let v := mkVrtd open_config [] 0 [] tt 0 false [] in
  accept_one stranger 9 (mkAccepting v None []) = Ub /\
  accept_one undescribed 9 (mkAccepting v None []) = Ret (Val tt) (mkAccepting (connect 1000 [100] v) None []).
Proof. split; (rewrite accept_exact; [reflexivity|lia]). Defined.
