(* ===== verification/Serve.v ===== *)
(** * The request loop of the daemon

    Model of the state machine of a client in [src/vrt/vrtd/src/serve.c]
    ([on_client_io] and what it calls, the timer [on_event_deferred_work]), of
    its handlers that work in the background or change the list of devices
    ([design_write], [set_shell_state], [cfgmem_program], [device_hotplug_op]),
    and of the two workers [design_writer.c] and [flash_worker.c] as the event
    loop sees them.  The other handlers are the operation [other] of the class
    [Outside], with the system calls, the hotplug library, [reset_with_ami] and
    the discovery of devices: any answers of theirs are considered.

    A callback that returns -1 throws; a failed [assert] and a use of a device
    that was freed are undefined.  A pointer to a device is the identity of its
    allocation.  [EINTR] is retried inside the system calls.  Logging, memory
    exhaustion, the failure of mutexes and the stop of the workers at shutdown
    are left out.  [sc_received], [sc_dispatched] and [sc_sent] are the history
    of a client, for the statements only. *)

From S2P Require Import Prelude Except Policy Auth.
From Stdlib Require Import String Ascii.
From stdpp Require Import list strings.
Open Scope Z_scope.

Definition VRTD_MSG_MAX_SIZE : Z := 4096.
Definition EPOLLIN : Z := 1.
Definition EPOLLOUT : Z := 4.
Definition EPOLLERR : Z := 8.
Definition EPOLLHUP : Z := 16.
Definition EPOLLRDHUP : Z := 8192.

Definition ENODEV : Z := 19.
Definition EIO : Z := 5.

(** [enum vrtd_ret] on the wire *)
Definition VRTD_RET_OK : Z := 0.
Definition VRTD_RET_BAD_REQUEST : Z := 3.
Definition VRTD_RET_INVALID_ARGUMENT : Z := 4.
Definition VRTD_RET_NOEXIST : Z := 5.
Definition VRTD_RET_INTERNAL_ERROR : Z := 6.
Definition VRTD_RET_AUTH_ERROR : Z := 7.
Definition VRTD_RET_BUSY : Z := 8.
Definition VRTD_RET_SHELL_LOCKED : Z := 9.

(** The opcodes with a handler here. *)
Definition VRTD_REQ_DESIGN_WRITE : Z := 8.
Definition VRTD_REQ_DEVICE_HOTPLUG_OP : Z := 13.
Definition VRTD_REQ_CFGMEM_PROGRAM : Z := 16.
Definition VRTD_REQ_CFGMEM_PROGRAM_START : Z := 17.
Definition VRTD_REQ_CFGMEM_PROGRAM_STATUS : Z := 18.
Definition VRTD_REQ_SET_SHELL_STATE : Z := 19.

(** ** Shells and addresses *)

Definition VRTD_SHELL_UNKNOWN : Z := 0.

Definition shell_boot_partition (shell : Z) : option Z :=
  if shell =? 1 then Some 0 else if shell =? 2 then Some 1 else None.
Definition shell_reset_required (current required : Z) : bool :=
  (current =? VRTD_SHELL_UNKNOWN) || negb (current =? required).
Definition shell_switch_blocked_by_jtag (current required : Z) (jtag : bool) : bool :=
  jtag && shell_reset_required current required.

Definition hotplug_errno_to_vrtd_ret (err : Z) : Z :=
  if err =? 22 then VRTD_RET_INVALID_ARGUMENT
  else if err =? ENODEV then VRTD_RET_NOEXIST
  else if err =? 16 then VRTD_RET_BUSY
  else if (err =? 1) || (err =? 13) then VRTD_RET_AUTH_ERROR
  else VRTD_RET_INTERNAL_ERROR.

Definition VRTD_PCI_BDF_LEN : nat := 32.

Definition pci_bdf_set_function (bdf : string) (func : Z) : option string :=
  let len := String.length bdf in
  if (7 <? func) || (len =? 0)%nat || (VRTD_PCI_BDF_LEN <=? len)%nat then None
  else
    let prefix := match strrchr "." bdf with
                  | Some (EmptyString, _) | None => bdf
                  | Some (prefix, _) => prefix
                  end in
    if (VRTD_PCI_BDF_LEN <=? String.length prefix + 2)%nat then None
    else Some (prefix ++ "." ++ String (ascii_of_nat (48 + Z.to_nat func)) EmptyString)%string.

(** ** The workers *)

(** [struct design_writer]: the slot of the producer and the consumer. *)
Record design_writer := mkWriter { dw_input_fd : Z; dw_busy : bool; dw_last_error : Z }.

Definition design_writer_is_busy (w : option design_writer) : bool :=
  match w with Some w => dw_busy w | None => false end.
Definition design_writer_submit_fd_async (w : design_writer) (fd : Z) : option design_writer :=
  if (fd <? 0) || dw_busy w || (0 <=? dw_input_fd w) then None else Some (mkWriter fd true 0).
Definition design_writer_poll_result (w : design_writer) : bool * Z := (negb (dw_busy w), dw_last_error w).

(** The end of a transfer in the thread, with the [errno] of the transfer. *)
Definition design_writer_publish (transfer_errno : Z) (w : design_writer) : design_writer := mkWriter (-1) false transfer_errno.

Inductive flash_worker_job_kind := FLASH_WORKER_JOB_NONE | FLASH_WORKER_JOB_PROGRAM | FLASH_WORKER_JOB_RESET.

Record flash_worker := mkFlash {
  fw_busy : bool; fw_queued : bool; fw_kind : flash_worker_job_kind; fw_input_fd : Z; fw_device : option nat; fw_boot_device : Z;
  fw_partition : Z; fw_next_job_id : Z; fw_job_id : Z; fw_owner : Z; fw_state : Z; fw_phase : Z; fw_result : Z
}.

(** [flash_worker_init] *)
Definition flash_worker_create : flash_worker :=
  mkFlash false false FLASH_WORKER_JOB_NONE (-1) None 0 0 1 0 0 2 9 VRTD_RET_INTERNAL_ERROR.

Definition flash_worker_submit_job_async (w : flash_worker) (dev : nat) (kind : flash_worker_job_kind) (fd boot_device partition owner : Z) :
    option (Z * flash_worker) :=
  let kind_ok := match kind with
                 | FLASH_WORKER_JOB_PROGRAM => 0 <=? fd
                 | FLASH_WORKER_JOB_RESET => true
                 | FLASH_WORKER_JOB_NONE => false
                 end in
  if negb kind_ok || fw_busy w || fw_queued w then None
  else
    let id := fw_next_job_id w in
    let next := u64 (id + 1) in
    Some (id, mkFlash true true kind fd (Some dev) boot_device partition (if next =? 0 then 1 else next) id owner 0 0
                VRTD_RET_INTERNAL_ERROR).

(** The thread takes the job, and publishes its result. *)
Definition flash_worker_take (w : flash_worker) : flash_worker :=
  mkFlash (fw_busy w) false (fw_kind w) (fw_input_fd w) (fw_device w) (fw_boot_device w) (fw_partition w) (fw_next_job_id w)
    (fw_job_id w) (fw_owner w) (fw_state w) (fw_phase w) (fw_result w).
Definition flash_worker_publish (result : Z) (w : flash_worker) : flash_worker :=
  let ok := result =? VRTD_RET_OK in
  mkFlash false (fw_queued w) FLASH_WORKER_JOB_NONE (-1) None (fw_boot_device w) (fw_partition w) (fw_next_job_id w)
    (fw_job_id w) (fw_owner w) (if ok then 2 else 3) (if ok then 9 else 10) result.

Definition flash_worker_poll_result (w : flash_worker) : bool * Z := (negb (fw_busy w), fw_result w).

(** 0, or the code of the handler. *)
Definition flash_worker_poll_status_for_owner (w : flash_worker) (job_id owner : Z) : Z :=
  if (job_id =? 0) || negb (job_id =? fw_job_id w) then VRTD_RET_NOEXIST
  else if negb (owner =? 0) && negb (owner =? fw_owner w) then VRTD_RET_AUTH_ERROR
  else VRTD_RET_OK.

(** ** Clients and devices *)

Record resp_header := { r_size : Z; r_ret : Z; r_seqno : Z }.

(** [struct client], with the event source of its socket: the events it is armed
    for, and whether it is enabled; and the history. *)
Record sclient := mkClient {
  sc_conn : Z; sc_auth : client; sc_inb : list Z; sc_in_fd : Z; have_in_fd : bool;
  sc_out : resp_header; sc_out_fds : list Z; have_out_fd : bool;
  have_request : bool; have_response : bool; have_new_response : bool;
  pending_design_write : bool; pending_design_write_device : option nat; pending_async_device_op : bool;
  wanted_epoll_events : Z; sc_armed : Z; sc_enabled : bool;
  sc_received : list (Z * nat); sc_dispatched : list Z; sc_sent : list Z
}.

Definition with_auth (a : client) (c : sclient) : sclient :=
  mkClient (sc_conn c) a (sc_inb c) (sc_in_fd c) (have_in_fd c) (sc_out c) (sc_out_fds c) (have_out_fd c) (have_request c) (have_response c)
    (have_new_response c) (pending_design_write c) (pending_design_write_device c) (pending_async_device_op c) (wanted_epoll_events c)
    (sc_armed c) (sc_enabled c) (sc_received c) (sc_dispatched c) (sc_sent c).
Definition with_in_fd (fd : Z) (have : bool) (c : sclient) : sclient :=
  mkClient (sc_conn c) (sc_auth c) (sc_inb c) fd have (sc_out c) (sc_out_fds c) (have_out_fd c) (have_request c) (have_response c)
    (have_new_response c) (pending_design_write c) (pending_design_write_device c) (pending_async_device_op c) (wanted_epoll_events c)
    (sc_armed c) (sc_enabled c) (sc_received c) (sc_dispatched c) (sc_sent c).
Definition with_out (h : resp_header) (fds : list Z) (have : bool) (c : sclient) : sclient :=
  mkClient (sc_conn c) (sc_auth c) (sc_inb c) (sc_in_fd c) (have_in_fd c) h fds have (have_request c) (have_response c)
    (have_new_response c) (pending_design_write c) (pending_design_write_device c) (pending_async_device_op c) (wanted_epoll_events c)
    (sc_armed c) (sc_enabled c) (sc_received c) (sc_dispatched c) (sc_sent c).
Definition with_state (req resp new dw : bool) (dev : option nat) (async : bool) (c : sclient) : sclient :=
  mkClient (sc_conn c) (sc_auth c) (sc_inb c) (sc_in_fd c) (have_in_fd c) (sc_out c) (sc_out_fds c) (have_out_fd c) req resp
    new dw dev async (wanted_epoll_events c) (sc_armed c) (sc_enabled c) (sc_received c) (sc_dispatched c) (sc_sent c).
Definition with_events (wanted armed : Z) (enabled : bool) (c : sclient) : sclient :=
  mkClient (sc_conn c) (sc_auth c) (sc_inb c) (sc_in_fd c) (have_in_fd c) (sc_out c) (sc_out_fds c) (have_out_fd c) (have_request c)
    (have_response c) (have_new_response c) (pending_design_write c) (pending_design_write_device c) (pending_async_device_op c)
    wanted armed enabled (sc_received c) (sc_dispatched c) (sc_sent c).
Definition with_inb (inb : list Z) (received : list (Z * nat)) (c : sclient) : sclient :=
  mkClient (sc_conn c) (sc_auth c) inb (sc_in_fd c) (have_in_fd c) (sc_out c) (sc_out_fds c) (have_out_fd c) (have_request c)
    (have_response c) (have_new_response c) (pending_design_write c) (pending_design_write_device c) (pending_async_device_op c)
    (wanted_epoll_events c) (sc_armed c) (sc_enabled c) received (sc_dispatched c) (sc_sent c).
Definition with_history (dispatched sent : list Z) (c : sclient) : sclient :=
  mkClient (sc_conn c) (sc_auth c) (sc_inb c) (sc_in_fd c) (have_in_fd c) (sc_out c) (sc_out_fds c) (have_out_fd c) (have_request c)
    (have_response c) (have_new_response c) (pending_design_write c) (pending_design_write_device c) (pending_async_device_op c)
    (wanted_epoll_events c) (sc_armed c) (sc_enabled c) (sc_received c) dispatched sent.

(** [create_client_event]: the source is armed, nothing was wanted yet. *)
Definition accepted (conn : Z) (a : client) : sclient :=
  mkClient conn a (replicate (Z.to_nat VRTD_MSG_MAX_SIZE) 0) (-1) false {| r_size := 0; r_ret := 0; r_seqno := 0 |} [] false
    false false false false None false 0 (Z.lor EPOLLIN EPOLLRDHUP) true [] [] [].

(** The request header and body in [inb]. *)
Definition rq_size (c : sclient) : Z := ld 2 0 (sc_inb c).
Definition rq_opcode (c : sclient) : Z := ld 2 2 (sc_inb c).
Definition rq_seqno (c : sclient) : Z := ld 4 4 (sc_inb c).
Definition rq_field (width off : nat) (c : sclient) : Z := ld width (8 + off) (sc_inb c).

(** The parts of [struct device] that these handlers use. *)
Record sdevice := mkSDevice { sd_ptr : nat; sd_bdf : string; sd_writer : option design_writer; sd_shell : Z; sd_jtag : bool }.

(** ** The system *)

(** An element of the control data: descriptors with the length of the data, or
    something else. *)
Inductive cmsg := CmsgRights (data_len : Z) (fds : list Z) | CmsgOther.
Inductive recv := RecvAgain | RecvFailed | Received (truncated : bool) (control : list cmsg) (data : list Z).
Inductive send := SendAgain | SendFailed | Sent (n : Z).

(** 0 or an [errno] for the hotplug library; the devices that are discovered;
    the code and the devices after [reset_with_ami]; the code, the size and the
    descriptors of an answer. *)
Class Outside (W : Type) := {
  recvmsg : Z -> W -> recv * W;
  sendmsg : Z -> resp_header -> list Z -> W -> send * W;
  set_io_events : Z -> Z -> W -> bool * W;
  set_timer : W -> bool * W;
  hp_rescan : W -> Z * W;
  hp_remove : string -> W -> Z * W;
  hp_toggle_sbr : string -> W -> Z * W;
  hp_hotplug : string -> W -> Z * W;
  discover : list sdevice -> W -> list sdevice * W;
  reset_with_ami : nat -> Z -> list sdevice -> W -> (Z * list sdevice) * W;
  refresh_pf2 : string -> W -> Z * W;
  other : Z -> Z -> list Z -> W -> (Z * Z * list Z) * W;
  AMI_BOOT_DEVICES_MAX : Z
}.

Record serve (W : Type) := mkServe {
  sv_config : config; sv_w : W; sv_clients : list sclient; sv_devices : list sdevice; sv_flash : option flash_worker;
  sv_async : bool; sv_timer : bool; sv_closed : list Z
}.
Arguments mkServe {W}.
Arguments sv_config {W}.
Arguments sv_w {W}.
Arguments sv_clients {W}.
Arguments sv_devices {W}.
Arguments sv_flash {W}.
Arguments sv_async {W}.
Arguments sv_timer {W}.
Arguments sv_closed {W}.

Section serve.
Context {W : Type} `{!Outside W}.
Implicit Types (s : serve W) (c : sclient) (k : nat).

Definition set_w (w : W) s : serve W :=
  mkServe (sv_config s) w (sv_clients s) (sv_devices s) (sv_flash s) (sv_async s) (sv_timer s) (sv_closed s).
Definition set_sclients (l : list sclient) s : serve W :=
  mkServe (sv_config s) (sv_w s) l (sv_devices s) (sv_flash s) (sv_async s) (sv_timer s) (sv_closed s).
Definition set_sdevices (l : list sdevice) s : serve W :=
  mkServe (sv_config s) (sv_w s) (sv_clients s) l (sv_flash s) (sv_async s) (sv_timer s) (sv_closed s).
Definition set_flash (f : option flash_worker) (async : bool) s : serve W :=
  mkServe (sv_config s) (sv_w s) (sv_clients s) (sv_devices s) f async (sv_timer s) (sv_closed s).
Definition disable_timer s : serve W :=
  mkServe (sv_config s) (sv_w s) (sv_clients s) (sv_devices s) (sv_flash s) (sv_async s) false (sv_closed s).
Definition close_fds (fds : list Z) s : serve W :=
  mkServe (sv_config s) (sv_w s) (sv_clients s) (sv_devices s) (sv_flash s) (sv_async s) (sv_timer s) (sv_closed s ++ fds).

(** A callback, and a handler, which throws the code of its error. *)
Abbreviation CM := (EM unit (serve W)).
Abbreviation HM := (EM Z (serve W)).

Definition world {E A} (f : W -> A * W) : EM E (serve W) A := fun s => let r := f (sv_w s) in Ret (Val r.1) (set_w r.2 s).
Definition the_client {E} k : EM E (serve W) sclient := fun s =>
  match sv_clients s !! k with Some c => Ret (Val c) s | None => Ub end.
Definition on_client {E} k (f : sclient -> sclient) : EM E (serve W) unit :=
  updates (fun s => set_sclients (alter f k (sv_clients s)) s).
Definition assert {E} (b : bool) : EM E (serve W) unit := if b then mret tt else undefined.

(** ** Receiving and sending *)

(** The walk over the control data. *)
Definition take_rights k (m : cmsg) : CM unit :=
  match m with
  | CmsgOther => mret tt
  | CmsgRights data_len fds =>
      c ← the_client k;
      if (data_len <? 4) || negb (data_len mod 4 =? 0) || negb (length fds =? 1)%nat || have_in_fd c
      then updates (close_fds fds);; throw tt
      else on_client k (with_in_fd (default (-1) (head fds)) true)
  end.

(** The new content of [inb], an array of [uint8_t], after a message of [data]. *)
Definition overwrite (data inb : list Z) : list Z := (u8 <$> data) ++ drop (length data) inb.

Definition client_handle_in k : CM unit :=
  c ← the_client k;
  assert (negb (have_request c));;
  ewhen (0 <=? sc_in_fd c) (updates (close_fds [sc_in_fd c]);; on_client k (with_in_fd (-1) false));;
  r ← world (recvmsg (sc_conn c));
  match r with
  | RecvAgain => mret tt
  | RecvFailed => throw tt
  | Received truncated control data =>
      on_client k (fun c => with_inb (overwrite data (sc_inb c)) (sc_received c) c);;
      throw_if truncated tt;;
      on_client k (with_in_fd (-1) false);;
      each control (take_rights k);;
      c ← the_client k;
      let n := Z.of_nat (length data) in
      throw_if ((n <? 8) || negb (rq_size c + 8 =? n) || (VRTD_MSG_MAX_SIZE - 8 <? rq_size c)) tt;;
      on_client k (fun c => with_inb (sc_inb c) (sc_received c ++ [(rq_seqno c, length (sc_sent c))])
        (with_state true (have_response c) (have_new_response c) (pending_design_write c) (pending_design_write_device c)
          (pending_async_device_op c) c))
  end.

Definition client_handle_out k : CM unit :=
  c ← the_client k;
  assert (have_response c);;
  let count := if (length (sc_out_fds c) =? 0)%nat then 1%nat else length (sc_out_fds c) in
  throw_if (have_out_fd c && (2 <? count)%nat) tt;;
  r ← world (sendmsg (sc_conn c) (sc_out c) (if have_out_fd c then sc_out_fds c else []));
  match r with
  | SendAgain => mret tt
  | SendFailed => throw tt
  | Sent n =>
      throw_if (negb (n =? 8 + r_size (sc_out c))) tt;;
      on_client k (fun c => with_history (sc_dispatched c) (sc_sent c ++ [r_seqno (sc_out c)])
        (with_out (sc_out c) [] false
          (with_state (have_request c) false (have_new_response c) (pending_design_write c) (pending_design_write_device c)
            (pending_async_device_op c) c)))
  end.

(** The events that a client waits for. *)
Definition events_of c : Z :=
  Z.lor EPOLLRDHUP (Z.lor (if have_request c then 0 else EPOLLIN) (if have_response c then EPOLLOUT else 0)).

Definition client_update_wanted_epoll_events k : CM unit :=
  c ← the_client k;
  let events := events_of c in
  if events =? wanted_epoll_events c then mret tt
  else
    on_client k (fun c => with_events events (sc_armed c) (sc_enabled c) c);;
    ok ← world (set_io_events (sc_conn c) events);
    throw_if (negb ok) tt;;
    on_client k (fun c => with_events events events (sc_enabled c) c).

(** ** Handlers *)

Definition authorise k (check : config -> list string -> client -> bool * client) : HM unit :=
  c ← the_client k;
  r ← asks (fun s => check (sv_config s) (sd_bdf <$> sv_devices s) (sc_auth c));
  on_client k (with_auth r.2);;
  throw_if (negb r.1) VRTD_RET_AUTH_ERROR.

(** The device of a request: [devices.d[dev_number]]. *)
Definition device_of (dev_number : Z) : HM sdevice :=
  devices ← asks sv_devices;
  throw_if (Z.of_nat (length devices) <=? dev_number) VRTD_RET_NOEXIST;;
  match devices !! Z.to_nat dev_number with Some d => mret d | None => undefined end.

Definition device_ptr_array_find_by_bdf (devices : list sdevice) (bdf : string) : option sdevice :=
  snd <$> list_find (fun d => sd_bdf d = bdf) devices.

(** [device_ptr_array_rm_by_reference], which frees the device. *)
Definition rm_device (p : nat) s : serve W := set_sdevices (filter (fun d => sd_ptr d <> p) (sv_devices s)) s.
Definition on_device (p : nat) (f : sdevice -> sdevice) s : serve W :=
  set_sdevices ((fun d => if (sd_ptr d =? p)%nat then f d else d) <$> sv_devices s) s.

(** The descriptor went to a worker. *)
Definition consume_fd k : HM unit := on_client k (with_in_fd (-1) false).

(** The shell switch before a design write. *)
Definition switch_shell (d : sdevice) (required : Z) : HM sdevice :=
  if shell_reset_required (sd_shell d) required then
    devices ← asks sv_devices;
    r ← world (reset_with_ami (sd_ptr d) required devices);
    updates (set_sdevices r.2);;
    throw_if (negb (r.1 =? VRTD_RET_OK)) r.1;;
    match device_ptr_array_find_by_bdf r.2 (sd_bdf d) with
    | None => throw VRTD_RET_NOEXIST
    | Some d' => throw_if (bool_decide (sd_writer d' = None)) VRTD_RET_NOEXIST;; mret d'
    end
  else mret d.

Definition client_handle_request_design_write k : HM Z :=
  c ← the_client k;
  authorise k (fun cfg devices a => auth_request_design_write cfg devices a (rq_field 4 0 c));;
  throw_if (rq_size c <? 5) VRTD_RET_BAD_REQUEST;;
  d ← device_of (rq_field 4 0 c);
  throw_if (bool_decide (sd_writer d = None)) VRTD_RET_NOEXIST;;
  throw_if (negb (have_in_fd c) || (sc_in_fd c <? 0)) VRTD_RET_BAD_REQUEST;;
  let required := rq_field 1 4 c in
  throw_if (bool_decide (shell_boot_partition required = None)) VRTD_RET_INVALID_ARGUMENT;;
  throw_if (design_writer_is_busy (sd_writer d)) VRTD_RET_BUSY;;
  throw_if (shell_switch_blocked_by_jtag (sd_shell d) required (sd_jtag d)) VRTD_RET_SHELL_LOCKED;;
  d ← switch_shell d required;
  match sd_writer d ≫= fun w => design_writer_submit_fd_async w (sc_in_fd c) with
  | None => throw (if design_writer_is_busy (sd_writer d) then VRTD_RET_BUSY else VRTD_RET_INTERNAL_ERROR)
  | Some w =>
      updates (on_device (sd_ptr d) (fun d => mkSDevice (sd_ptr d) (sd_bdf d) (Some w) (sd_shell d) (sd_jtag d)));;
      consume_fd k;;
      on_client k (fun c => with_state (have_request c) (have_response c) (have_new_response c) true (Some (sd_ptr d))
        (pending_async_device_op c) c);;
      mret 0
  end.

Definition client_handle_request_set_shell_state k : HM Z :=
  c ← the_client k;
  throw_if (rq_size c <? 6) VRTD_RET_BAD_REQUEST;;
  authorise k (fun cfg devices a => auth_request_set_shell_state cfg devices a (rq_field 4 0 c));;
  d ← device_of (rq_field 4 0 c);
  let shell := rq_field 1 4 c in
  let jtag := negb (rq_field 1 5 c =? 0) in
  throw_if (bool_decide (shell_boot_partition shell = None)) VRTD_RET_INVALID_ARGUMENT;;
  throw_if (negb (sd_shell d =? VRTD_SHELL_UNKNOWN) && negb (sd_shell d =? shell)) VRTD_RET_BUSY;;
  throw_if (negb jtag && sd_jtag d) VRTD_RET_BUSY;;
  updates (on_device (sd_ptr d) (fun d => mkSDevice (sd_ptr d) (sd_bdf d) (sd_writer d) shell jtag));;
  mret 1.

Definition any_design_write_active s : bool :=
  existsb (fun d => design_writer_is_busy (sd_writer d)) (sv_devices s) || existsb pending_design_write (sv_clients s).

Definition VRTD_CFGMEM_MAX_PARTITION : Z := 15.

(** The checks before a job of the flash worker, and its submission. *)
Definition submit_job k (dev : nat) (kind : flash_worker_job_kind) (fd boot_device partition : Z) : HM Z :=
  s ← asks id;
  c ← the_client k;
  throw_if (sv_async s) VRTD_RET_BUSY;;
  throw_if (any_design_write_active s) VRTD_RET_BUSY;;
  match sv_flash s with
  | None => throw VRTD_RET_INTERNAL_ERROR
  | Some w =>
      match flash_worker_submit_job_async w dev kind fd boot_device partition (sc_conn c) with
      | None => throw VRTD_RET_BUSY
      | Some (job, w') => updates (set_flash (Some w') true);; mret job
      end
  end.

Definition client_submit_cfgmem_program k (dev_number boot_device reserved partition : Z) : HM Z :=
  authorise k (fun cfg devices a => auth_request_cfgmem_program cfg devices a dev_number);;
  d ← device_of dev_number;
  c ← the_client k;
  throw_if (negb (have_in_fd c) || (sc_in_fd c <? 0)) VRTD_RET_BAD_REQUEST;;
  throw_if (AMI_BOOT_DEVICES_MAX <=? boot_device) VRTD_RET_INVALID_ARGUMENT;;
  throw_if (VRTD_CFGMEM_MAX_PARTITION <? partition) VRTD_RET_INVALID_ARGUMENT;;
  throw_if (negb (reserved =? 0)) VRTD_RET_INVALID_ARGUMENT;;
  job ← submit_job k (sd_ptr d) FLASH_WORKER_JOB_PROGRAM (sc_in_fd c) boot_device partition;
  consume_fd k;;
  mret job.

Definition await_async k : HM unit :=
  on_client k (fun c => with_state (have_request c) (have_response c) (have_new_response c) (pending_design_write c)
    (pending_design_write_device c) true c).

Definition client_handle_request_cfgmem_program k : HM Z :=
  c ← the_client k;
  throw_if (rq_size c <? 12) VRTD_RET_BAD_REQUEST;;
  client_submit_cfgmem_program k (rq_field 4 0 c) (rq_field 1 4 c) (rq_field 3 5 c) (rq_field 4 8 c);;
  await_async k;;
  mret 0.

Definition client_handle_request_cfgmem_program_start k : HM Z :=
  c ← the_client k;
  throw_if (rq_size c <? 12) VRTD_RET_BAD_REQUEST;;
  client_submit_cfgmem_program k (rq_field 4 0 c) (rq_field 1 4 c) (rq_field 3 5 c) (rq_field 4 8 c);;
  mret 8.

Definition client_handle_request_cfgmem_program_status k : HM Z :=
  c ← the_client k;
  throw_if (rq_size c <? 8) VRTD_RET_BAD_REQUEST;;
  flash ← asks sv_flash;
  match flash with
  | None => throw VRTD_RET_INTERNAL_ERROR
  | Some w =>
      let code := flash_worker_poll_status_for_owner w (rq_field 8 0 c) (sc_conn c) in
      throw_if (negb (code =? VRTD_RET_OK)) code;;
      mret 42
  end.

Definition client_submit_device_reset k (d : sdevice) (partition : Z) : HM Z :=
  submit_job k (sd_ptr d) FLASH_WORKER_JOB_RESET (-1) 0 partition;;
  await_async k;;
  mret 0.

Definition VRTD_DEVICE_HOTPLUG_FUNCTION_ALL : Z := 255.

(** [devices_discover_and_open] *)
Definition rediscover : HM unit :=
  devices ← asks sv_devices;
  new ← world (discover devices);
  updates (fun s => set_sdevices (sv_devices s ++ new) s).

(** The functions of the board, one after the other. *)
Fixpoint remove_functions (d : sdevice) (funcs : list Z) (any_removed : bool) : HM unit :=
  match funcs with
  | [] => mret tt
  | func :: funcs' =>
      match pci_bdf_set_function (sd_bdf d) func with
      | None => throw VRTD_RET_INTERNAL_ERROR
      | Some bdf =>
          err ← world (hp_remove bdf);
          if negb (err =? 0) && negb (err =? ENODEV)
          then ewhen any_removed (updates (rm_device (sd_ptr d)));; throw (hotplug_errno_to_vrtd_ret err)
          else remove_functions d funcs' true
      end
  end.

Definition hotplug_all (d : sdevice) (op : Z) : HM unit :=
  throw_if (op =? 2) VRTD_RET_INVALID_ARGUMENT;;
  remove_functions d [0; 1; 2] false;;
  updates (rm_device (sd_ptr d));;
  ewhen (op =? 3) (
    err ← world hp_rescan;
    throw_if (negb (err =? 0)) (hotplug_errno_to_vrtd_ret err);;
    rediscover).

Definition hotplug_one (d : sdevice) (op func : Z) : HM unit :=
  throw_if (7 <? func) VRTD_RET_INVALID_ARGUMENT;;
  match pci_bdf_set_function (sd_bdf d) func with
  | None => throw VRTD_RET_INTERNAL_ERROR
  | Some bdf =>
      err ← world (if op =? 1 then hp_remove bdf else if op =? 2 then hp_toggle_sbr bdf else hp_hotplug bdf);
      ewhen ((op =? 1) && (err =? 0)) (updates (rm_device (sd_ptr d)));;
      throw_if (negb (err =? 0)) (hotplug_errno_to_vrtd_ret err)
  end.

Definition client_handle_request_device_hotplug_op k : HM Z :=
  c ← the_client k;
  throw_if (rq_size c <? 7) VRTD_RET_BAD_REQUEST;;
  let op := rq_field 1 4 c in
  let func := rq_field 1 5 c in
  if op =? 0 then
    err ← world hp_rescan;
    throw_if (negb (err =? 0)) (hotplug_errno_to_vrtd_ret err);;
    rediscover;;
    mret 1
  else
    authorise k (fun cfg devices a => auth_request_device_hotplug_op cfg devices a (rq_field 4 0 c));;
    d ← device_of (rq_field 4 0 c);
    if (1 <=? op) && (op <=? 3) then
      (if func =? VRTD_DEVICE_HOTPLUG_FUNCTION_ALL then hotplug_all d op else hotplug_one d op func);;
      mret 1
    else if op =? 4 then
      match shell_boot_partition (rq_field 1 6 c) with
      | None => throw VRTD_RET_INVALID_ARGUMENT
      | Some partition => client_submit_device_reset k d partition
      end
    else throw VRTD_RET_INVALID_ARGUMENT.

(** ** Dispatch *)

(** A handler of another part of the daemon; an unknown opcode is refused. *)
Definition handle_other k (opcode : Z) : HM Z :=
  if 19 <? opcode then throw VRTD_RET_BAD_REQUEST
  else
    c ← the_client k;
    r ← world (other opcode (sc_conn c) (sc_inb c));
    ewhen (negb (bool_decide (r.2 = []))) (on_client k (fun c => with_out (sc_out c) r.2 true c));;
    throw_if (negb (r.1.1 =? VRTD_RET_OK)) r.1.1;;
    mret r.1.2.

Definition dispatch k (opcode : Z) : HM Z :=
  if opcode =? VRTD_REQ_DESIGN_WRITE then client_handle_request_design_write k
  else if opcode =? VRTD_REQ_SET_SHELL_STATE then client_handle_request_set_shell_state k
  else if opcode =? VRTD_REQ_CFGMEM_PROGRAM then client_handle_request_cfgmem_program k
  else if opcode =? VRTD_REQ_CFGMEM_PROGRAM_START then client_handle_request_cfgmem_program_start k
  else if opcode =? VRTD_REQ_CFGMEM_PROGRAM_STATUS then client_handle_request_cfgmem_program_status k
  else if opcode =? VRTD_REQ_DEVICE_HOTPLUG_OP then client_handle_request_device_hotplug_op k
  else handle_other k opcode.

(** The return code and the size of the response body. *)
Definition handled (m : HM Z) : CM (Z * Z) := fun s =>
  match m s with
  | Ret (Val size) s' => Ret (Val (VRTD_RET_OK, size)) s'
  | Ret (Exn code) s' => Ret (Val (code, 0)) s'
  | Ub => Ub
  | NoFuel => NoFuel
  end.

Definition client_handle_request k : CM unit :=
  c ← the_client k;
  assert (have_request c);;
  assert (negb (have_response c));;
  let seqno := rq_seqno c in
  on_client k (fun c => with_history (sc_dispatched c ++ [seqno]) (sc_sent c)
    (with_out {| r_size := r_size (sc_out c); r_ret := r_ret (sc_out c); r_seqno := seqno |} (sc_out_fds c) (have_out_fd c) c));;
  r ← handled (dispatch k (rq_opcode c));
  c ← the_client k;
  if pending_design_write c || pending_async_device_op c then mret tt
  else
    ewhen (have_in_fd c) (updates (close_fds [sc_in_fd c]);; on_client k (with_in_fd (-1) false));;
    on_client k (fun c =>
      with_out {| r_size := r.2; r_ret := r.1; r_seqno := r_seqno (sc_out c) |} (sc_out_fds c) (have_out_fd c)
        (with_state false true true (pending_design_write c) (pending_design_write_device c) (pending_async_device_op c) c)).

Definition client_request_is_cfgmem_status c : bool := have_request c && (rq_opcode c =? VRTD_REQ_CFGMEM_PROGRAM_STATUS).

(** [client_ptr_array_rm_by_reference], which frees the client. *)
Definition rm_client k : CM unit :=
  c ← the_client k;
  ewhen (0 <=? sc_in_fd c) (updates (close_fds [sc_in_fd c]));;
  updates (fun s => set_sclients (delete k (sv_clients s)) s).

Definition on_client_io k (revents : Z) : CM unit :=
  c ← the_client k;
  if has_flag revents (Z.lor EPOLLERR (Z.lor EPOLLHUP EPOLLRDHUP)) then rm_client k
  else
    ewhen (negb (have_request c) && has_flag revents EPOLLIN) (client_handle_in k);;
    c ← the_client k;
    async ← asks sv_async;
    ewhen (have_request c && negb (have_response c) && (negb async || client_request_is_cfgmem_status c)) (client_handle_request k);;
    c ← the_client k;
    ewhen ((have_response c && has_flag revents EPOLLOUT) || have_new_response c) (
      on_client k (fun c => with_state (have_request c) (have_response c) false (pending_design_write c) (pending_design_write_device c)
        (pending_async_device_op c) c);;
      client_handle_out k);;
    client_update_wanted_epoll_events k.

(** ** The timer *)

(** The answer to a request that worked in the background. *)
Definition deliver k (ret size : Z) : CM unit :=
  on_client k (fun c => with_out {| r_size := if ret =? VRTD_RET_OK then size else 0; r_ret := ret; r_seqno := rq_seqno c |} (sc_out_fds c)
    (have_out_fd c) (with_state false true true (pending_design_write c) (pending_design_write_device c) (pending_async_device_op c) c)).

(** Whether the write of client [c] is over, with its error: the device is
    read, which is undefined when it was freed. *)
Definition poll_design_write c : CM (bool * Z * option sdevice) :=
  match pending_design_write_device c with
  | None => mret (true, EIO, None)
  | Some p =>
      devices ← asks sv_devices;
      match list_find (fun d => sd_ptr d = p) devices with
      | None => undefined
      | Some (_, d) => mret (match sd_writer d with Some w => design_writer_poll_result w | None => (true, EIO) end, Some d)
      end
  end.

(** Whether the write completed. *)
Definition client_finalize_pending_design_write k : CM bool :=
  c ← the_client k;
  if negb (pending_design_write c) then mret false
  else
    r ← poll_design_write c;
    if negb r.1.1 then mret false
    else
      ret ← match r.2 with
            | Some d => if r.1.2 =? 0 then world (refresh_pf2 (sd_bdf d)) else mret VRTD_RET_INTERNAL_ERROR
            | None => mret VRTD_RET_INTERNAL_ERROR
            end;
      deliver k ret 1;;
      on_client k (fun c => with_state (have_request c) (have_response c) (have_new_response c) false None (pending_async_device_op c) c);;
      mret true.

Definition client_deliver_async_device_op_result k (result : Z) : CM unit :=
  deliver k result 1;;
  on_client k (fun c => with_state (have_request c) (have_response c) (have_new_response c) (pending_design_write c)
    (pending_design_write_device c) false c).

Definition process_async_device_op_completion : CM unit :=
  flash ← asks sv_flash;
  match flash with
  | None => updates (fun s => set_flash None false s)
  | Some w =>
      let r := flash_worker_poll_result w in
      ewhen r.1 (
        updates (fun s => set_flash (sv_flash s) false s);;
        n ← asks (fun s => length (sv_clients s));
        each (seq 0 n) (fun k =>
          c ← the_client k;
          ewhen (pending_async_device_op c) (
            client_deliver_async_device_op_result k r.2;;
            client_update_wanted_epoll_events k)))
  end.

(** The round over the clients, which ends when a device operation starts. *)
Fixpoint drain_from (ks : list nat) : CM unit :=
  match ks with
  | [] => mret tt
  | k :: ks' =>
      c ← the_client k;
      if negb (have_request c) || have_response c || pending_design_write c || pending_async_device_op c then drain_from ks'
      else
        client_handle_request k;;
        client_update_wanted_epoll_events k;;
        async ← asks sv_async;
        if async : bool then mret tt else drain_from ks'
  end.

Definition drain_deferred_requests : CM unit :=
  n ← asks (fun s => length (sv_clients s));
  drain_from (seq 0 n).

Definition on_event_deferred_work : CM unit :=
  ok ← world set_timer;
  throw_if (negb ok) tt;;
  ok ← world set_timer;
  throw_if (negb ok) tt;;
  async ← asks sv_async;
  if async : bool then
    process_async_device_op_completion;;
    async ← asks sv_async;
    ewhen (negb async) drain_deferred_requests
  else
    n ← asks (fun s => length (sv_clients s));
    each (seq 0 n) (fun k =>
      done ← client_finalize_pending_design_write k;
      ewhen done (client_update_wanted_epoll_events k)).
End serve.
