(* ===== verification/ServeTheorems.v ===== *)
(** * Every request is answered once, and in order

    For any behaviour of the system, of the other handlers and of the workers:
    a request that was received is dispatched at most once and answered at most
    once, in the order of arrival and with its own sequence number; callbacks
    end without undefined behaviour, unless a device was freed that a design
    write still refers to; and a client that waits for each answer is never
    forgotten.

    Three theorems show what the code does not ensure: a second request behind
    an unsent answer waits for a device operation to end, a device can be freed under a design write,
    and a design write can be answered with the result of another. *)

From S2P Require Import Prelude Except Policy Auth Serve.
From Stdlib Require Import String.
From stdpp Require Import list strings relations.
Open Scope Z_scope.

(** ** The invariant of a client *)

(** Its request works in the background, or waits to be dispatched. *)
Definition pending (c : sclient) : bool := pending_design_write c || pending_async_device_op c.
Definition waiting (c : sclient) : bool := have_request c && negb (pending c).

(** Each request arrived when all earlier ones were answered. *)
Definition one_at_a_time (c : sclient) : Prop := snd <$> sc_received c = seq 0 (length (sc_received c)).

Record client_ok (c : sclient) : Prop := {
  co_received : fst <$> sc_received c = sc_dispatched c ++ (if waiting c then [rq_seqno c] else []);
  co_dispatched : sc_dispatched c = sc_sent c ++ (if have_response c then [r_seqno (sc_out c)] else []) ++
    (if pending c then [rq_seqno c] else []);
  co_pending : pending c = true -> have_request c = true /\ have_response c = false;
  co_new : have_new_response c = true -> have_response c = true;
  co_alone : one_at_a_time c -> have_request c = true -> have_response c = false;
  co_one : pending_design_write c = true -> pending_async_device_op c = false;
  co_bytes : Forall is_u8 (sc_inb c)
}.

(** The events that can reach the client are those it waits for, or none but
    hang-ups. *)
Definition armed_ok (c : sclient) : Prop := sc_enabled c = true ->
  (wanted_epoll_events c = events_of c /\ (sc_armed c = events_of c \/ sc_armed c = EPOLLRDHUP)) \/
  (wanted_epoll_events c = 0 /\ sc_armed c = Z.lor EPOLLIN EPOLLRDHUP /\ have_request c = false /\ have_response c = false).

(** What a handler leaves as it is. *)
Record kept (c c' : sclient) : Prop := {
  k_conn : sc_conn c' = sc_conn c;
  k_inb : sc_inb c' = sc_inb c;
  k_request : have_request c' = have_request c;
  k_response : have_response c' = have_response c;
  k_new : have_new_response c' = have_new_response c;
  k_out : sc_out c' = sc_out c;
  k_wanted : wanted_epoll_events c' = wanted_epoll_events c;
  k_armed : sc_armed c' = sc_armed c;
  k_enabled : sc_enabled c' = sc_enabled c;
  k_received : sc_received c' = sc_received c;
  k_dispatched : sc_dispatched c' = sc_dispatched c;
  k_sent : sc_sent c' = sc_sent c
}.

#[export] Instance kept_preorder : PreOrder kept.
Proof.
  split; [intros c; by split|]. intros c1 c2 c3 H12 H23. destruct H12, H23. split; congruence.
Qed.

(** Handlers of one kind start at most one kind of background work. *)
Definition keeps_async (c c' : sclient) : Prop := kept c c' /\ pending_async_device_op c' = pending_async_device_op c.
Definition keeps_write (c c' : sclient) : Prop := kept c c' /\ pending_design_write c' = pending_design_write c.

Class Framing (K : relation sclient) : Prop := {
  #[export] framing_preorder :: PreOrder K;
  framing_kept c c' : K c c' -> kept c c';
  framing_auth a c : K c (with_auth a c);
  framing_in_fd fd have c : K c (with_in_fd fd have c);
  framing_out_fds fds have c : K c (with_out (sc_out c) fds have c)
}.

#[export] Instance framing_async : Framing keeps_async.
Proof.
  split; [split| |by split..]; [by intros c|..].
  - intros c1 c2 c3 [H12 E12] [H23 E23]. split; [by etrans|congruence].
  - by intros c c' [].
Qed.

#[export] Instance framing_write : Framing keeps_write.
Proof.
  split; [split| |by split..]; [by intros c|..].
  - intros c1 c2 c3 [H12 E12] [H23 E23]. split; [by etrans|congruence].
  - by intros c c' [].
Qed.

Lemma accepted_ok conn a : client_ok (accepted conn a) /\ armed_ok (accepted conn a).
Proof.
  split; [|intros _; by right]. split; cbn; try done. apply Forall_replicate. split; by vm_compute.
Qed.

(** ** Specifications over the list of clients *)

Section serve.
Context {W : Type} `{!Outside W}.
Implicit Types (s : serve W) (c : sclient) (k : nat) (l : list sclient).

(** The clients are [l] with [c] at [k]. *)
Definition has k l c s : Prop := sv_clients s = <[k := c]> l /\ (k < length l)%nat.

Lemma has_lookup k l c s : has k l c s -> sv_clients s !! k = Some c.
Proof using Type. intros [-> Hk]. by apply list_lookup_insert_eq. Qed.

Lemma has_start k c s : sv_clients s !! k = Some c -> has k (sv_clients s) c s.
Proof using Type. intros Hk. split; [by rewrite list_insert_id|by eapply lookup_lt_Some]. Qed.

Lemma ewp_the_client {ub nf : Prop} {E} k l c s (Q : sclient -> serve W -> Prop) (X : E -> serve W -> Prop) :
  has k l c s -> Q c s -> ewp ub nf (the_client k) s Q X.
Proof using Type. intros Hh HQ. unfold ewp, post, the_client. by rewrite (has_lookup _ _ _ _ Hh). Qed.

Lemma ewp_world {ub nf : Prop} {E A} (f : W -> A * W) s (Q : A -> serve W -> Prop) (X : E -> serve W -> Prop) :
  (forall a w, Q a (set_w w s)) -> ewp ub nf (world f) s Q X.
Proof using Type. intros HQ. apply HQ. Qed.

Lemma ewp_ub {ub : Prop} {E A} (m : EM E (serve W) A) s Q X : ewp False False m s Q X -> ewp ub False m s Q X.
Proof using Type. unfold ewp, post. by destruct (m s). Qed.

Lemma has_alter k l c (f : sclient -> sclient) s : has k l c s -> has k l (f c) (set_sclients (alter f k (sv_clients s)) s).
Proof using Type.
  intros [Hs Hk]. split; [|done]. cbn [set_sclients sv_clients]. rewrite Hs.
  assert (alter f k (<[k := c]> l) = <[k := f c]> (<[k := c]> l)) as ->; [|by rewrite list_insert_insert, decide_True].
  apply list_eq. intros i. destruct (decide (i = k)) as [->|Hne].
  - by rewrite list_lookup_alter_eq, !list_lookup_insert_eq by (rewrite ?length_insert; done).
  - by rewrite list_lookup_alter_ne, (list_lookup_insert_ne (<[k := c]> l)) by done.
Qed.

Lemma ewp_on_client {ub nf : Prop} {E} k l c (f : sclient -> sclient) s (Q : unit -> serve W -> Prop) (X : E -> serve W -> Prop) :
  has k l c s -> (forall s', has k l (f c) s' -> sv_async s' = sv_async s -> sv_timer s' = sv_timer s -> sv_devices s' = sv_devices s ->
    Q tt s') ->
  ewp ub nf (on_client k f) s Q X.
Proof using Type. intros Hh HQ. unfold on_client. apply ewp_updates, HQ; [by apply has_alter|done..]. Qed.

(** ** Handlers *)

(** The client is [c] but for what a handler may change; a device operation may
    have started. *)
Definition during (K : relation sclient) k l c s0 s : Prop :=
  exists c', K c c' /\ has k l c' s /\ (sv_async s0 = true -> sv_async s = true) /\ sv_timer s = sv_timer s0.

(** A handler of client [k] returns, and keeps this. *)
Definition quiet (K : relation sclient) {E A} k (m : EM E (serve W) A) : Prop := forall l c s0 s, Forall is_u8 (sc_inb c) -> during K k l c s0 s ->
  ewp False False m s (fun _ => during K k l c s0) (fun _ => during K k l c s0).

Section quiet.
Context (K : relation sclient) `{!Framing K}.

Lemma quiet_ret {E A} k (a : A) : quiet K k (mret a : EM E (serve W) A).
Proof using Type. intros l c s0 s _ Hd. by apply ewp_ret. Qed.

Lemma quiet_throw {E A} k (e : E) : quiet K k (throw e : EM E (serve W) A).
Proof using Type. intros l c s0 s _ Hd. by apply ewp_throw. Qed.

Lemma quiet_bind {E A B} k (m : EM E (serve W) A) (f : A -> EM E (serve W) B) : quiet K k m -> (forall a, quiet K k (f a)) -> quiet K k (m ≫= f).
Proof using Type.
  intros Hm Hf l c s0 s Hb Hd. ewp_step. eapply ewp_mono; [by eapply Hm| |by intros ? ? Hx; exact Hx].
  intros a s' Hd'. by apply Hf.
Qed.

Lemma quiet_asks {E A} k (f : serve W -> A) : quiet K k (asks f : EM E (serve W) A).
Proof using Type. intros l c s0 s _ Hd. by apply ewp_asks. Qed.

Lemma quiet_throw_if {E} k (on : bool) (e : E) : quiet K k (throw_if on e : EM E (serve W) unit).
Proof using Type. intros l c s0 s _ Hd. by apply ewp_throw_if. Qed.

Lemma quiet_ewhen {E} k (on : bool) (m : EM E (serve W) unit) : quiet K k m -> quiet K k (ewhen on m).
Proof using Type. intros Hm l c s0 s Hb Hd. apply ewp_ewhen; [intros _; by apply Hm|done]. Qed.

Lemma quiet_client_bind {E A} k (f : sclient -> EM E (serve W) A) :
  (forall c, Forall is_u8 (sc_inb c) -> quiet K k (f c)) -> quiet K k (the_client k ≫= f).
Proof using Framing0.
  intros Hf l c s0 s Hb Hd. destruct Hd as (c' & Hk & Hh & Ha). ewp_step. apply (ewp_the_client k l c'); [done|].
  apply Hf; [by rewrite (k_inb _ _ (framing_kept _ _ Hk))|done|]. by exists c'.
Qed.

Lemma quiet_world {E A} k (f : W -> A * W) : quiet K k (world f : EM E (serve W) A).
Proof using Type. intros l c s0 s _ Hd. apply ewp_world. intros a w. exact Hd. Qed.

Lemma quiet_on_client {E} k (f : sclient -> sclient) : (forall c, K c (f c)) -> quiet K k (on_client k f : EM E (serve W) unit).
Proof using Framing0.
  intros Hf l c s0 s _ (c' & Hk & Hh & Ha & Ht). apply (ewp_on_client k l c'); [done|]. intros s' Hh' Ha' Ht' _.
  exists (f c'). split; [by etrans|]. split; [done|]. split; [by rewrite Ha'|congruence].
Qed.

Lemma quiet_updates {E} k (f : serve W -> serve W) :
  (forall s, sv_clients (f s) = sv_clients s /\ (sv_async s = true -> sv_async (f s) = true) /\ sv_timer (f s) = sv_timer s) ->
  quiet K k (updates f : EM E (serve W) unit).
Proof using Type.
  intros Hf l c s0 s _ (c' & Hk & Hh & Ha & Ht). apply ewp_updates. destruct (Hf s) as (Hc & Ha' & Ht'). exists c'.
  split; [done|]. split; [by unfold has; rewrite Hc|]. split; [tauto|congruence].
Qed.

Lemma field_nonneg w off c : Forall is_u8 (sc_inb c) -> 0 <= rq_field w off c.
Proof using Type. intros Hb. unfold rq_field, ld. apply le_val_range. by apply Forall_take, Forall_drop. Qed.

Lemma quiet_device_of k dev : 0 <= dev -> quiet K k (device_of dev).
Proof using Type.
  intros H0. apply quiet_bind; [apply quiet_asks|]. intros devices l c s0 s Hb Hd. ewp_step. ewp_step; [done|].
  destruct (lookup_lt_is_Some_2 devices (Z.to_nat dev)) as [d ->]; [lia|]. by ewp_step.
Qed.

Lemma quiet_authorise k check : quiet K k (authorise k check).
Proof using Framing0.
  apply quiet_client_bind. intros c _. apply quiet_bind; [apply quiet_asks|]. intros r. apply quiet_bind; [|intros _; apply quiet_throw_if].
  apply quiet_on_client. intros c'. apply framing_auth.
Qed.
End quiet.

Ltac quiet_step :=
  lazymatch goal with
  | |- quiet _ _ (the_client _ ≫= _) => apply quiet_client_bind; [apply _|intros ? ?]
  | |- quiet _ _ (_ ≫= _) => apply quiet_bind; [|intros ?]
  | |- quiet _ _ (mret _) => apply quiet_ret
  | |- quiet _ _ (throw _) => apply quiet_throw
  | |- quiet _ _ (asks _) => apply quiet_asks
  | |- quiet _ _ (throw_if _ _) => apply quiet_throw_if
  | |- quiet _ _ (ewhen _ _) => apply quiet_ewhen
  | |- quiet _ _ (world _) => apply quiet_world
  | |- quiet _ _ (on_client _ _) => apply quiet_on_client; [apply _|intros ?; first [apply framing_in_fd|apply framing_out_fds|by split]]
  | |- quiet _ _ (updates _) => apply quiet_updates; by intros
  | |- quiet _ _ (authorise _ _) => apply quiet_authorise; apply _
  | |- quiet _ _ (device_of _) => apply quiet_device_of; by apply field_nonneg
  | |- quiet _ _ (let _ := _ in _) => cbv zeta
  | |- quiet _ _ (match ?x with _ => _ end) => destruct x
  | |- Framing _ => apply _
  | H : forall _, quiet _ _ _ |- quiet _ _ _ => apply H
  end.

Lemma quiet_design_write k : quiet keeps_async k (client_handle_request_design_write k).
Proof using Type. unfold client_handle_request_design_write, switch_shell, consume_fd. repeat quiet_step. Qed.

Lemma quiet_shell_state (K : relation sclient) `{!Framing K} k : quiet K k (client_handle_request_set_shell_state k).
Proof using Type. unfold client_handle_request_set_shell_state. repeat quiet_step. Qed.

Lemma quiet_submit_job (K : relation sclient) `{!Framing K} k dev kind fd boot partition : quiet K k (submit_job k dev kind fd boot partition).
Proof using Type. unfold submit_job. repeat quiet_step. Qed.

Lemma quiet_submit_cfgmem (K : relation sclient) `{!Framing K} k dev boot reserved partition : 0 <= dev -> quiet K k (client_submit_cfgmem_program k dev boot reserved partition).
Proof using Type.
  intros H0. unfold client_submit_cfgmem_program, consume_fd. repeat (quiet_step || apply quiet_device_of || apply quiet_submit_job); done.
Qed.

Lemma quiet_cfgmem k : quiet keeps_write k (client_handle_request_cfgmem_program k).
Proof using Type.
  unfold client_handle_request_cfgmem_program, await_async.
  repeat (quiet_step || (apply quiet_submit_cfgmem; [apply _|by apply field_nonneg])).
Qed.

Lemma quiet_cfgmem_start (K : relation sclient) `{!Framing K} k : quiet K k (client_handle_request_cfgmem_program_start k).
Proof using Type.
  unfold client_handle_request_cfgmem_program_start.
  repeat (quiet_step || (apply quiet_submit_cfgmem; [apply _|by apply field_nonneg])).
Qed.

Lemma quiet_cfgmem_status (K : relation sclient) `{!Framing K} k : quiet K k (client_handle_request_cfgmem_program_status k).
Proof using Type. unfold client_handle_request_cfgmem_program_status. repeat quiet_step. Qed.

Lemma quiet_rediscover (K : relation sclient) `{!Framing K} k : quiet K k (rediscover : EM Z (serve W) unit).
Proof using Type. unfold rediscover. repeat quiet_step. Qed.

Lemma quiet_remove_functions (K : relation sclient) `{!Framing K} k d funcs : forall any, quiet K k (remove_functions d funcs any : EM Z (serve W) unit).
Proof using Type. induction funcs as [|func funcs IH]; intros any; cbn [remove_functions]; repeat quiet_step. Qed.

Lemma quiet_hotplug k : quiet keeps_write k (client_handle_request_device_hotplug_op k).
Proof using Type.
  unfold client_handle_request_device_hotplug_op, hotplug_all, hotplug_one, client_submit_device_reset, await_async.
  repeat (quiet_step || apply quiet_rediscover || apply quiet_remove_functions || apply quiet_submit_job).
Qed.

Lemma quiet_other (K : relation sclient) `{!Framing K} k opcode : quiet K k (handle_other k opcode).
Proof using Type. unfold handle_other. repeat quiet_step. Qed.

Lemma quiet_dispatch k opcode : quiet keeps_async k (dispatch k opcode) \/ quiet keeps_write k (dispatch k opcode).
Proof using Type.
  unfold dispatch. destruct (opcode =? VRTD_REQ_DESIGN_WRITE); [left; apply quiet_design_write|right].
  repeat (quiet_step || apply quiet_shell_state || apply quiet_cfgmem || apply quiet_cfgmem_start || apply quiet_cfgmem_status ||
    apply quiet_hotplug || apply quiet_other); apply _.
Qed.

(** ** The steps of a callback *)

(** Client [k] is now some [c'] with [P], with the event mask of [c]. *)
Definition reached k l c s0 (P : sclient -> Prop) s : Prop := exists c', has k l c' s /\ client_ok c' /\ P c' /\
  wanted_epoll_events c' = wanted_epoll_events c /\ sc_armed c' = sc_armed c /\ sc_enabled c' = sc_enabled c /\
  (sv_async s0 = true -> sv_async s = true) /\ sv_timer s = sv_timer s0.

(** A request that is dispatched. *)
Definition noted c : sclient := with_history (sc_dispatched c ++ [rq_seqno c]) (sc_sent c)
  (with_out {| r_size := r_size (sc_out c); r_ret := r_ret (sc_out c); r_seqno := rq_seqno c |} (sc_out_fds c) (have_out_fd c) c).

Lemma dispatched_one c c' : pending c = false -> keeps_async (noted c) c' \/ keeps_write (noted c) c' ->
  kept (noted c) c' /\ (pending_design_write c' = true -> pending_async_device_op c' = false).
Proof using Type.
  intros [H1 H2]%orb_false_iff [[Hk E]|[Hk E]]; (split; [exact Hk|]); cbn in E; congruence.
Qed.

Section dispatched.
Context (c c' : sclient) (Hok : client_ok c) (Hpe : pending c = false) (Hre : have_response c = false) (Hrq : have_request c = true).
Context (Hk : kept (noted c) c') (Hone : pending_design_write c' = true -> pending_async_device_op c' = false).

Lemma ok_pending : pending c' = true -> client_ok c'.
Proof using Hok Hpe Hre Hrq Hk Hone.
  intros Hp. destruct Hok as [Hr Hd _ Hn Ha Ho Hb]. destruct Hk as [_ Ki Kq Kp Kn Ko _ _ _ Kr Kd Ks]. cbn in Ki, Kq, Kp, Kn, Ko, Kr, Kd, Ks.
  unfold waiting in Hr. rewrite Hpe, Hrq in Hr. rewrite Hpe, Hre in Hd. cbn in Hr, Hd. rewrite app_nil_r in Hd.
  assert (rq_seqno c' = rq_seqno c) as Hs by (unfold rq_seqno; by rewrite Ki).
  split; unfold waiting, one_at_a_time; rewrite ?Hp, ?Kq, ?Kp, ?Kn, ?Kr, ?Kd, ?Ks, ?Ki, ?Hs, ?Hre, ?Hrq; cbn; try done.
  - by rewrite app_nil_r.
  - by rewrite Hd.
  - intros Hx. apply Hn in Hx. congruence.
Qed.

Lemma ok_answered ret size : pending c' = false ->
  client_ok (with_out {| r_size := size; r_ret := ret; r_seqno := r_seqno (sc_out c') |} (sc_out_fds c') (have_out_fd c')
    (with_state false true true (pending_design_write c') (pending_design_write_device c') (pending_async_device_op c') c')).
Proof using Hok Hpe Hre Hrq Hk Hone.
  intros Hp. destruct Hok as [Hr Hd _ Hn Ha Ho Hb]. destruct Hk as [_ Ki Kq Kp Kn Ko _ _ _ Kr Kd Ks]. cbn in Ki, Kq, Kp, Kn, Ko, Kr, Kd, Ks.
  unfold waiting in Hr. rewrite Hpe, Hrq in Hr. rewrite Hpe, Hre in Hd. cbn in Hr, Hd. rewrite app_nil_r in Hd. unfold pending in Hp.
  split; unfold waiting, pending, one_at_a_time; cbn; rewrite ?Hp, ?Kr, ?Kd, ?Ks, ?Ki, ?Ko; cbn; try done.
  - by rewrite app_nil_r.
  - by rewrite Hd.
Qed.
End dispatched.

Lemma ewp_handled {A} (m : EM Z (serve W) Z) (s : serve W) (R : serve W -> Prop) (f : Z * Z -> EM unit (serve W) A) Q X :
  ewp False False m s (fun _ => R) (fun _ => R) -> (forall r s', R s' -> ewp False False (f r) s' Q X) ->
  ewp False False (handled m ≫= f) s Q X.
Proof using Type.
  intros Hm Hf. ewp_step. unfold ewp, post in Hm |- *. unfold handled. destruct (m s) as [[a|e] s'| |]; [| |done..]; by apply Hf.
Qed.

(** The client after the handler of a request of [c]. *)
Definition served k l c s0 s : Prop := exists c', kept (noted c) c' /\
  (pending_design_write c' = true -> pending_async_device_op c' = false) /\ has k l c' s /\
  (sv_async s0 = true -> sv_async s = true) /\ sv_timer s = sv_timer s0.

Lemma dispatch_spec k l c s opcode : has k l (noted c) s -> client_ok c -> pending c = false ->
  ewp False False (dispatch k opcode) s (fun _ => served k l c s) (fun _ => served k l c s).
Proof using Type.
  intros Hh Hok Hpe. assert (forall K, Framing K -> (forall c', K (noted c) c' -> keeps_async (noted c) c' \/ keeps_write (noted c) c') ->
    quiet K k (dispatch k opcode) -> ewp False False (dispatch k opcode) s (fun _ => served k l c s) (fun _ => served k l c s)) as Hgen.
  { intros K HK HKc Hq. assert (forall s', during K k l (noted c) s s' -> served k l c s s') as HR.
    { intros s' (c' & Hc & Hh' & Ha' & Ht'). destruct (dispatched_one c c' Hpe (HKc _ Hc)) as [Hk Hone]. by exists c'. }
    eapply ewp_mono; [apply (Hq l (noted c) s s)| |]; [apply Hok| |by intros; apply HR..].
    exists (noted c). split_and!; [reflexivity|done..]. }
  destruct (quiet_dispatch k opcode) as [Hq|Hq]; eapply Hgen; try exact Hq; try apply _; auto.
Qed.

(** What follows the handler of a request that is answered at once. *)
Lemma answer_spec k l c c2 s0 s (r : Z * Z) : client_ok c -> pending c = false -> have_response c = false -> have_request c = true ->
  kept (noted c) c2 -> pending c2 = false -> has k l c2 s -> (sv_async s0 = true -> sv_async s = true) -> sv_timer s = sv_timer s0 ->
  ewp False False (on_client k (fun c => with_out {| r_size := r.2; r_ret := r.1; r_seqno := r_seqno (sc_out c) |} (sc_out_fds c)
    (have_out_fd c) (with_state false true true (pending_design_write c) (pending_design_write_device c) (pending_async_device_op c) c)) :
    EM unit (serve W) unit) s
    (fun _ => reached k l c s0 (fun c' => waiting c' = false /\ sc_received c' = sc_received c)) (fun _ _ => False).
Proof using Type.
  intros Hok Hpe Hre Hrq Hk Hp Hh Ha Ht. apply (ewp_on_client k l c2); [done|]. intros s' Hh' Ha' Ht' _.
  eexists. split; [exact Hh'|]. split; [apply (ok_answered c c2); try done; by apply orb_false_iff in Hp as [-> _]|].
  split_and!; [done|apply Hk|apply Hk|apply Hk|apply Hk|by rewrite Ha'|congruence].
Qed.

Lemma request_spec k l c s : has k l c s -> client_ok c -> pending c = false -> have_response c = false -> have_request c = true ->
  ewp False False (client_handle_request k) s (fun _ => reached k l c s (fun c' => waiting c' = false /\ sc_received c' = sc_received c))
    (fun _ _ => False).
Proof using Type.
  intros Hh Hok Hpe Hre Hrq. unfold client_handle_request. ewp_step. apply (ewp_the_client k l c); [done|].
  rewrite Hrq, Hre. cbn [assert negb]. ewp_step. ewp_step. ewp_step. ewp_step. cbv zeta. ewp_step.
  apply (ewp_on_client k l c); [done|]. intros s1 Hh1 Ha1 Ht1 _. cbn beta in Hh1. fold (noted c) in Hh1.
  eapply ewp_handled; [by apply dispatch_spec|]. intros r s2 (c2 & Hk & Hone & Hh2 & Ha2 & Ht2). rewrite Ha1 in Ha2. rewrite Ht1 in Ht2.
  ewp_step. apply (ewp_the_client k l c2); [done|]. fold (pending c2). destruct (pending c2) eqn:Hp2.
  - ewp_step. exists c2. split_and!; [done|by eapply ok_pending| |apply Hk|apply Hk|apply Hk|apply Hk|done|done].
    unfold waiting. by rewrite Hp2, andb_false_r.
  - ewp_step. ewp_step.
    + ewp_step. ewp_step. apply (ewp_on_client k l c2); [done|]. intros s3 Hh3 Ha3 Ht3 _.
      apply (answer_spec k l c (with_in_fd (-1) false c2)); try done; [by etrans|by rewrite Ha3|by rewrite Ht3].
    + by apply (answer_spec k l c c2).
Qed.

(** ** Receiving *)

(** The client with another content of its buffer and another descriptor. *)
Definition refilled inb fd (have : bool) c : sclient := with_in_fd fd have (with_inb inb (sc_received c) c).

Lemma idle_pending c : client_ok c -> have_request c = false -> pending c = false.
Proof using Type. intros Hok Hrq. destruct (pending c) eqn:E; [|done]. apply (co_pending _ Hok) in E as [E _]. congruence. Qed.

Lemma ok_refilled inb fd have c : client_ok c -> have_request c = false -> Forall is_u8 inb -> client_ok (refilled inb fd have c).
Proof using Type.
  intros Hok Hrq Hb. pose proof (idle_pending c Hok Hrq) as Hp. destruct Hok as [Hr Hd _ Hn Ha Ho _].
  unfold waiting in Hr. rewrite Hrq in Hr. rewrite Hp in Hd.
  split; unfold waiting, one_at_a_time; change (pending (refilled inb fd have c)) with (pending c); cbn; rewrite ?Hrq, ?Hp; try done.
Qed.

(** A message that is accepted. *)
Lemma ok_received c : client_ok c -> have_request c = false ->
  client_ok (with_inb (sc_inb c) (sc_received c ++ [(rq_seqno c, length (sc_sent c))])
    (with_state true (have_response c) (have_new_response c) (pending_design_write c) (pending_design_write_device c)
      (pending_async_device_op c) c)).
Proof using Type.
  intros Hok Hrq. pose proof (idle_pending c Hok Hrq) as Hp. destruct Hok as [Hr Hd _ Hn Ha Ho Hb].
  unfold waiting in Hr. rewrite Hrq in Hr. rewrite Hp in Hd. cbn in Hr. rewrite !app_nil_r in *.
  set (c' := with_inb _ _ _). assert (pending c' = false) as Hp' by exact Hp.
  split; unfold waiting; rewrite ?Hp'; cbn; try done.
  - by rewrite fmap_app, Hr.
  - by rewrite app_nil_r.
  - unfold one_at_a_time. cbn. rewrite fmap_app, length_app, seq_app. cbn. intros [_ E]%app_inj_2 _; [|done].
    injection E as E. destruct (have_response c); [|done]. apply (f_equal length) in Hr. apply (f_equal length) in Hd.
    rewrite length_fmap in Hr. rewrite length_app in Hd. cbn in Hd. lia.
Qed.

(** The client is refilled; the rest of the state is as before. *)
Definition refilling k l c s0 s : Prop := exists inb fd have, Forall is_u8 inb /\ has k l (refilled inb fd have c) s /\
  sv_async s = sv_async s0 /\ sv_timer s = sv_timer s0.

Lemma refilling_on_client {E} k l c s0 s f (Q : unit -> serve W -> Prop) (X : E -> serve W -> Prop) :
  refilling k l c s0 s ->
  (forall inb fd have, Forall is_u8 inb -> exists inb' fd' have', f (refilled inb fd have c) = refilled inb' fd' have' c /\ Forall is_u8 inb') ->
  (forall s', refilling k l c s0 s' -> Q tt s') -> ewp False False (on_client k f) s Q X.
Proof using Type.
  intros (inb & fd & have & Hb & Hh & Ha & Ht) Hf HQ. eapply ewp_on_client; [exact Hh|]. intros s' Hh' Ha' Ht' _. apply HQ.
  destruct (Hf inb fd have Hb) as (inb' & fd' & have' & Ef & Hb'). rewrite Ef in Hh'. exists inb', fd', have'. split_and!; congruence || done.
Qed.

Lemma take_rights_spec k l c s0 s m : refilling k l c s0 s ->
  ewp False False (take_rights k m) s (fun _ => refilling k l c s0) (fun _ => refilling k l c s0).
Proof using Type.
  intros Hr. destruct m as [len fds|]; cbn [take_rights]; [|by ewp_step]. pose proof Hr as (inb & fd & have & _ & Hh & _). ewp_step.
  eapply ewp_the_client; [exact Hh|]. ewp_step.
  - ewp_step. ewp_step. by ewp_step.
  - eapply refilling_on_client; [exact Hr| |done]. intros inb' fd' have' Hb'. by eexists inb', _, _.
Qed.

Lemma overwrite_bytes data inb : Forall is_u8 inb -> Forall is_u8 (overwrite data inb).
Proof using Type.
  intros Hb. apply Forall_app. split; [|by apply Forall_drop]. apply Forall_fmap, Forall_true. intros x. apply Z.mod_pos_bound. lia.
Qed.

Definition not_pending_as c (c' : sclient) : Prop :=
  pending c' = false /\ have_response c' = have_response c /\ have_new_response c' = have_new_response c.

Lemma refilling_reached k l c s0 s : client_ok c -> have_request c = false -> refilling k l c s0 s ->
  reached k l c s0 (fun c' => not_pending_as c c' /\ waiting c' = false) s.
Proof using Type.
  intros Hok Hrq (inb & fd & have & Hb & Hh & Ha & Ht). exists (refilled inb fd have c). split; [done|]. split; [by apply ok_refilled|].
  pose proof (idle_pending c Hok Hrq) as Hp. split; [split; [done|unfold waiting; cbn; by rewrite Hrq]|].
  split_and!; try done. by rewrite Ha.
Qed.

Lemma handle_in_spec k l c s : has k l c s -> client_ok c -> have_request c = false ->
  ewp False False (client_handle_in k) s (fun _ => reached k l c s (not_pending_as c))
    (fun _ => reached k l c s (fun c' => waiting c' = false)).
Proof using Type.
  intros Hh Hok Hrq. unfold client_handle_in. ewp_step. apply (ewp_the_client k l c); [done|]. rewrite Hrq. cbn [assert negb]. ewp_step. ewp_step.
  assert (refilling k l c s s) as Hr0.
  { exists (sc_inb c), (sc_in_fd c), (have_in_fd c). split; [apply Hok|]. split; [|done]. by destruct c. }
  assert (forall s1, refilling k l c s s1 -> reached k l c s (not_pending_as c) s1 /\ reached k l c s (fun c' => waiting c' = false) s1) as Hend.
  { intros s1 (c1 & Hh1 & Hok1 & [Hn Hw] & Hrest)%refilling_reached; [|done..]. split; by exists c1. }
  ewp_step. apply (ewp_mono _ _ (fun _ => refilling k l c s) _ (fun _ => refilling k l c s)); [| |by intros; apply Hend].
  { ewp_step; [|exact Hr0]. ewp_step. ewp_step. eapply refilling_on_client; [exact Hr0| |done].
    intros inb fd have Hb. by eexists inb, _, _. }
  intros _ s1 Hr1. ewp_step. apply ewp_world. intros r w. destruct r as [| |truncated control data]; [ewp_step; by apply Hend..|].
  ewp_step. eapply refilling_on_client; [exact Hr1| |].
  { intros inb fd have Hb. exists (overwrite data inb), fd, have. split; [done|by apply overwrite_bytes]. }
  intros s2 Hr2. ewp_step. ewp_step; [by apply Hend|]. ewp_step. eapply refilling_on_client; [exact Hr2| |].
  { intros inb fd have Hb. by eexists inb, _, _. }
  intros s3 Hr3. ewp_step. eapply ewp_mono; [apply (ewp_each _ (fun _ => refilling k l c s) (fun _ => refilling k l c s)); [exact Hr3|]| |].
  { intros m ms s' _ Hr. by apply take_rights_spec. }
  2: { intros ? s4 Hr4. by apply Hend. }
  intros _ s4 (inb & fd & have & Hb & Hh4 & Ha4 & Ht4). ewp_step. eapply ewp_the_client; [exact Hh4|]. cbv zeta. ewp_step. ewp_step.
  { apply Hend. by exists inb, fd, have. }
  eapply ewp_on_client; [exact Hh4|]. intros s5 Hh5 Ha5 Ht5 _. eexists. split; [exact Hh5|].
  split; [apply ok_received; [by apply ok_refilled|done]|]. split; [split; [exact (idle_pending c Hok Hrq)|done]|].
  split_and!; try done; [by rewrite Ha5, Ha4|congruence].
Qed.

(** ** Sending *)

Lemma ok_told c : client_ok c -> client_ok (with_state (have_request c) (have_response c) false (pending_design_write c)
  (pending_design_write_device c) (pending_async_device_op c) c).
Proof using Type. intros [Hr Hd Hp Hn Ha Ho Hb]. by split. Qed.

Lemma ok_sent c fds have : client_ok c -> have_response c = true -> have_new_response c = false ->
  client_ok (with_history (sc_dispatched c) (sc_sent c ++ [r_seqno (sc_out c)]) (with_out (sc_out c) fds have
    (with_state (have_request c) false (have_new_response c) (pending_design_write c) (pending_design_write_device c)
      (pending_async_device_op c) c))).
Proof using Type.
  intros [Hr Hd Hp Hn Ha Ho Hb] Hre Hnew. set (c' := with_history _ _ _). rewrite Hre in Hd.
  assert (pending c' = pending c /\ waiting c' = waiting c) as [Ep Ew] by done.
  split; rewrite ?Ep, ?Ew; cbn; try done; [by rewrite Hd, (assoc_L (++))|intros [? _]%Hp; done|congruence].
Qed.

Definition same_requests c (c' : sclient) : Prop := waiting c' = waiting c /\ sc_received c' = sc_received c.

Lemma handle_out_spec k l c s : has k l c s -> client_ok c -> have_response c = true -> have_new_response c = false ->
  ewp False False (client_handle_out k) s (fun _ => reached k l c s (same_requests c)) (fun _ => reached k l c s (same_requests c)).
Proof using Type.
  intros Hh Hok Hre Hnew. assert (forall w, reached k l c s (same_requests c) (set_w w s)) as Hsame by (intros w; by exists c).
  unfold client_handle_out. ewp_step. apply (ewp_the_client k l c); [done|]. rewrite Hre. cbn [assert]. ewp_step. ewp_step. cbv zeta.
  ewp_step. ewp_step; [by exists c|]. ewp_step. apply ewp_world. intros r w. destruct r as [| |n]; [by ewp_step..|].
  ewp_step. ewp_step; [done|]. apply (ewp_on_client k l c); [done|]. intros s' Hh' Ha' Ht' _. eexists. split; [exact Hh'|].
  split; [by apply ok_sent|]. split_and!; try done. by rewrite Ha'.
Qed.

(** ** The event mask *)

Definition tracked c : Prop := sc_enabled c = true ->
  sc_armed c = wanted_epoll_events c \/ sc_armed c = EPOLLRDHUP \/ wanted_epoll_events c = 0.

Lemma armed_tracked c : armed_ok c -> tracked c.
Proof using Type. intros Ha He. destruct (Ha He) as [[H1 [H2|H2]]|(H1 & _)]; [left; congruence|by right; left|by right; right]. Qed.

Lemma ok_events c wanted armed on : client_ok c -> client_ok (with_events wanted armed on c).
Proof using Type. intros [Hr Hd Hp Hn Ha Ho Hb]. by split. Qed.

Lemma events_nonzero c : events_of c <> 0.
Proof using Type. unfold events_of. by destruct (have_request c), (have_response c). Qed.

(** The client with another mask. *)
Definition remasked k l c s0 (P : sclient -> Prop) s : Prop := exists wanted armed on, has k l (with_events wanted armed on c) s /\
  P (with_events wanted armed on c) /\ sv_async s = sv_async s0 /\ sv_timer s = sv_timer s0 /\ sv_devices s = sv_devices s0.

Lemma update_spec k l c s : has k l c s -> tracked c ->
  ewp False False (client_update_wanted_epoll_events k) s (fun _ => remasked k l c s armed_ok)
    (fun _ => remasked k l c s (fun c' => sc_armed c' = sc_armed c /\ wanted_epoll_events c' = events_of c /\ sc_enabled c' = sc_enabled c)).
Proof using Type.
  intros Hh Ht. unfold client_update_wanted_epoll_events. ewp_step. apply (ewp_the_client k l c); [done|]. cbv zeta. ewp_step.
  - ewp_step. exists (wanted_epoll_events c), (sc_armed c), (sc_enabled c). split; [by destruct c|]. split; [|done].
    intros He. left. pose proof (events_nonzero c). assert (events_of c = wanted_epoll_events c) as Ew by lia.
    change (wanted_epoll_events c = events_of c /\ (sc_armed c = events_of c \/ sc_armed c = EPOLLRDHUP)).
    destruct (Ht He) as [?|[?|?]]; [split; [congruence|left; congruence]|split; [congruence|by right]|congruence].
  - ewp_step. apply (ewp_on_client k l c); [done|]. intros s1 Hh1 Ha1 Ht1 Hd1. ewp_step. apply ewp_world. intros ok w. ewp_step. ewp_step.
    + by exists (events_of c), (sc_armed c), (sc_enabled c).
    + eapply ewp_on_client; [exact Hh1|]. intros s2 Hh2 Ha2 Ht2 Hd2. exists (events_of c), (events_of c), (sc_enabled c).
      split; [done|]. split; [intros He; left; split; [done|by left]|]. cbn in Ha2, Ht2, Hd2. split_and!; congruence.
Qed.

(** ** The callback of a client *)

(** The events that the event loop reports. *)
Definition allowed c (revents : Z) : Prop :=
  sc_enabled c = true /\ revents <> 0 /\ Z.land revents (Z.lor (sc_armed c) (Z.lor EPOLLERR EPOLLHUP)) = revents.

(** A client that waits for its answers is not left waiting. *)
Definition attended c s : Prop := one_at_a_time c -> waiting c = true -> sv_async s = true.

(** A client whose request works in the background hears of hang-ups only. *)
Lemma event_not_pending c revents : client_ok c -> armed_ok c -> allowed c revents ->
  has_flag revents (Z.lor EPOLLERR (Z.lor EPOLLHUP EPOLLRDHUP)) = false -> pending c = false.
Proof using Type.
  intros Hok Ha (He & Hne & Hall) Hflag. destruct (pending c) eqn:Hp; [|done]. exfalso. apply Hne.
  destruct (co_pending _ Hok Hp) as [Hrq Hre]. assert (sc_armed c = EPOLLRDHUP) as Harm.
  { destruct (Ha He) as [[_ [Hx|Hx]]|(_ & _ & Hx & _)]; [|done|congruence]. rewrite Hx. unfold events_of. by rewrite Hrq, Hre. }
  unfold has_flag in Hflag. apply negb_false_iff, Z.eqb_eq in Hflag. rewrite <-Hall, Harm. exact Hflag.
Qed.

(** The client after the callback. *)
Definition settled k l s0 (P : sclient -> Prop) s : Prop := exists c', has k l c' s /\ client_ok c' /\ P c' /\ attended c' s /\
  (sv_async s0 = true -> sv_async s = true) /\ sv_timer s = sv_timer s0.

Definition left_as k l c s0 (P : sclient -> serve W -> Prop) s : Prop := exists c', has k l c' s /\ client_ok c' /\ P c' s /\
  wanted_epoll_events c' = wanted_epoll_events c /\ sc_armed c' = sc_armed c /\ sc_enabled c' = sc_enabled c /\
  (sv_async s0 = true -> sv_async s = true) /\ sv_timer s = sv_timer s0.

Lemma io_receive k l c s revents : has k l c s -> client_ok c -> pending c = false ->
  ewp False False (ewhen (negb (have_request c) && has_flag revents EPOLLIN) (client_handle_in k)) s
    (fun _ => left_as k l c s (fun c' _ => pending c' = false))
    (fun _ => settled k l s (fun _ => True)).
Proof using Type.
  intros Hh Hok Hp. ewp_step; [|by exists c]. match goal with H : _ && _ = true |- _ => apply andb_true_iff in H as [Hrq _] end.
  apply negb_true_iff in Hrq. eapply ewp_mono; [by apply handle_in_spec| |].
  - intros _ s' (c' & Hh' & Hok' & (Hp' & _) & Hrest). by exists c'.
  - intros _ s' (c' & Hh' & Hok' & Hw & _ & _ & _ & Ha & Ht). exists c'. split_and!; try done. intros _ Hx. congruence.
Qed.

Lemma io_dispatch k l c s : has k l c s -> client_ok c -> pending c = false ->
  ewp False False (ewhen (have_request c && negb (have_response c) && (negb (sv_async s) || client_request_is_cfgmem_status c))
      (client_handle_request k)) s
    (fun _ => left_as k l c s (fun c' s' => waiting c' = true -> have_response c' = true \/ sv_async s' = true)) (fun _ _ => False).
Proof using Type.
  intros Hh Hok Hp. ewp_step.
  - match goal with H : _ && _ && _ = true |- _ => apply andb_true_iff in H as [[Hrq Hre%negb_true_iff]%andb_true_iff _] end.
    eapply ewp_mono; [by apply request_spec| |done]. intros _ s' (c' & Hh' & Hok' & [Hw _] & Hrest). exists c'. split; [done|]. split; [done|].
    split; [congruence|done].
  - exists c. split_and!; try done. intros [Hrq _]%andb_true_iff. rewrite Hrq in *.
    destruct (have_response c), (sv_async s); [by left|by left|by right|done].
Qed.

Lemma io_send k l c s revents : has k l c s -> client_ok c -> (waiting c = true -> have_response c = true \/ sv_async s = true) ->
  ewp False False (ewhen ((have_response c && has_flag revents EPOLLOUT) || have_new_response c) (
      on_client k (fun c => with_state (have_request c) (have_response c) false (pending_design_write c) (pending_design_write_device c)
        (pending_async_device_op c) c);;
      client_handle_out k)) s
    (fun _ => left_as k l c s attended) (fun _ => settled k l s (fun _ => True)).
Proof using Type.
  intros Hh Hok Hw. assert (forall c' s', sc_received c' = sc_received c -> waiting c' = waiting c -> (sv_async s = true -> sv_async s' = true) ->
    attended c' s') as Hatt.
  { intros c' s' Er Ew Ha Hone Hx. unfold one_at_a_time in Hone. rewrite Er in Hone. rewrite Ew in Hx. destruct (Hw Hx) as [Hre|]; [|by apply Ha].
    apply andb_true_iff in Hx as [Hrq _]. pose proof (co_alone _ Hok Hone Hrq). congruence. }
  ewp_step; [|exists c; split_and!; try done; by apply Hatt]. assert (have_response c = true) as Hre.
  { match goal with H : _ || _ = true |- _ => apply orb_true_iff in H as [[? _]%andb_true_iff|?] end; [done|by apply (co_new _ Hok)]. }
  ewp_step. apply (ewp_on_client k l c); [done|]. intros s1 Hh1 Ha1 Ht1 _.
  eapply ewp_mono; [apply (handle_out_spec k l _ s1 Hh1); [by apply ok_told|done|done]| |].
  - intros _ s' (c' & Hh' & Hok' & [Ew Er] & E1 & E2 & E3 & Ha & Ht). exists c'. rewrite Ha1 in Ha.
    split_and!; try done; [by apply Hatt|congruence].
  - intros _ s' (c' & Hh' & Hok' & [Ew Er] & _ & _ & _ & Ha & Ht). exists c'. rewrite Ha1 in Ha.
    split_and!; try done; [by apply Hatt|congruence].
Qed.

Lemma io_spec k c s revents : sv_clients s !! k = Some c -> client_ok c -> armed_ok c -> allowed c revents ->
  ewp False False (on_client_io k revents) s
    (fun _ s' => sv_clients s' = delete k (sv_clients s) /\ sv_async s' = sv_async s /\ sv_timer s' = sv_timer s \/
       settled k (sv_clients s) s armed_ok s')
    (fun _ => settled k (sv_clients s) s (fun _ => True)).
Proof using Type.
  intros Hk Hok Harm Hall. pose proof (has_start k c s Hk) as Hh. unfold on_client_io. ewp_step. apply (ewp_the_client k (sv_clients s) c); [done|].
  set (l := sv_clients s) in *. apply ewp_if; intros Hflag.
  { unfold rm_client. ewp_step. apply (ewp_the_client k l c); [done|]. ewp_step. ewp_step; [ewp_step|]; ewp_step; by left. }
  pose proof (event_not_pending c revents Hok Harm Hall Hflag) as Hp. ewp_step. eapply ewp_mono; [by apply io_receive| |done].
  intros _ s1 (c1 & Hh1 & Hok1 & Hp1 & Ew1 & Ea1 & Ee1 & Ha1 & Ht1). ewp_step. apply (ewp_the_client k l c1); [done|]. ewp_step. ewp_step. ewp_step.
  eapply ewp_mono; [by apply io_dispatch| |done].
  intros _ s2 (c2 & Hh2 & Hok2 & Hw2 & Ew2 & Ea2 & Ee2 & Ha2 & Ht2). ewp_step. apply (ewp_the_client k l c2); [done|]. ewp_step.
  eapply ewp_mono; [by apply io_send| |].
  2: { intros _ s3 (c3 & Hh3 & Hok3 & Hx & Hatt & Ha3 & Ht3). exists c3. split_and!; try done; [auto|congruence]. }
  intros _ s3 (c3 & Hh3 & Hok3 & Hatt & Ew3 & Ea3 & Ee3 & Ha3 & Ht3).
  assert (tracked c3) as Htr.
  { intros He. rewrite Ew3, Ew2, Ew1, Ea3, Ea2, Ea1. apply (armed_tracked c Harm). congruence. }
  assert (sv_async s = true -> sv_async s3 = true) as Hmono by auto. assert (sv_timer s3 = sv_timer s) as Hti by congruence.
  eapply ewp_mono; [by apply update_spec| |].
  - intros _ s4 (w & a & on & Hh4 & Harm4 & Ha4 & Ht4 & _). right. eexists. split; [exact Hh4|]. split; [by apply ok_events|].
    split; [done|]. split; [unfold attended; rewrite Ha4; exact Hatt|]. split; [by rewrite Ha4|congruence].
  - intros _ s4 (w & a & on & Hh4 & _ & Ha4 & Ht4 & _). eexists. split; [exact Hh4|]. split; [by apply ok_events|].
    split; [done|]. split; [unfold attended; rewrite Ha4; exact Hatt|]. split; [by rewrite Ha4|congruence].
Qed.

(** ** The timer *)

(** A client that only hears of hang-ups. *)
Definition deaf c : Prop := sc_enabled c = true -> sc_armed c = EPOLLRDHUP.

Lemma busy_deaf c : armed_ok c -> have_request c = true -> have_response c = false -> deaf c.
Proof using Type.
  intros Ha Hrq Hre He. destruct (Ha He) as [[_ [Hx|Hx]]|(_ & _ & Hx & _)]; [|done|congruence].
  rewrite Hx. unfold events_of. by rewrite Hrq, Hre.
Qed.

Lemma update_deaf k l c s : has k l c s -> client_ok c -> deaf c ->
  let R := fun s' => exists c', has k l c' s' /\ client_ok c' /\ armed_ok c' /\ waiting c' = waiting c /\ have_response c' = have_response c /\
    sc_received c' = sc_received c /\ pending_design_write c' = pending_design_write c /\
    sv_async s' = sv_async s /\ sv_timer s' = sv_timer s /\ sv_devices s' = sv_devices s in
  ewp False False (client_update_wanted_epoll_events k) s (fun _ => R) (fun _ => R).
Proof using Type.
  intros Hh Hok Hd R. eapply ewp_mono; [apply (update_spec k l c s Hh)| |]; [intros He; right; left; by apply Hd|..].
  - intros _ s' (w & a & on & Hh' & Ha & Has & Hti & Hde). eexists. split; [exact Hh'|]. split; [by apply ok_events|]. by split_and!.
  - intros _ s' (w & a & on & Hh' & (Ea & Ew & Ee) & Has & Hti & Hde). eexists. split; [exact Hh'|]. split; [by apply ok_events|].
    split; [|by split_and!]. intros He. left. rewrite Ee in He. split; [exact Ew|]. right. rewrite Ea. by apply Hd.
Qed.

(** The answer to work in the background, whose kind is then cleared. *)
Lemma ok_delivered c dw dev async ret size : client_ok c -> pending c = true -> dw || async = false ->
  client_ok (with_state false true true dw dev async
    (with_out {| r_size := size; r_ret := ret; r_seqno := rq_seqno c |} (sc_out_fds c) (have_out_fd c)
      (with_state false true true (pending_design_write c) (pending_design_write_device c) (pending_async_device_op c) c))).
Proof using Type.
  intros [Hr Hd Hp Hn Ha Ho Hb] Hpe Hno. destruct (Hp Hpe) as [Hrq Hre]. unfold waiting in Hr. rewrite Hpe, Hrq in Hr. rewrite Hpe, Hre in Hd.
  apply orb_false_iff in Hno as [-> ->]. split; unfold waiting, pending, one_at_a_time; cbn; cbn in Hr, Hd; try done.
Qed.

(** What a round of the timer leaves: the clients are [l] with [c'] at [k]. *)
Definition rung k s0 (P : sclient -> Prop) s : Prop := exists c', has k (sv_clients s0) c' s /\ client_ok c' /\ armed_ok c' /\ P c' /\
  sv_timer s = sv_timer s0.

Definition live_write s c : Prop := pending_design_write c = true ->
  match pending_design_write_device c with Some p => p ∈ sd_ptr <$> sv_devices s | None => True end.

Lemma poll_spec {ub : Prop} c s (Q : bool * Z * option sdevice -> serve W -> Prop) X : pending_design_write c = true -> ub \/ live_write s c ->
  (forall r, Q r s) -> ewp ub False (poll_design_write c) s Q X.
Proof using Type.
  intros Hp Hl HQ. unfold poll_design_write, live_write in *. destruct (pending_design_write_device c) as [p|]; [|ewp_step; by apply HQ].
  ewp_step. ewp_step. destruct (list_find _ (sv_devices s)) as [[i d]|] eqn:Ef; [ewp_step; by apply HQ|]. destruct Hl as [Hu|Hl]; [exact Hu|].
  specialize (Hl Hp). apply list_elem_of_fmap in Hl as (d & -> & Hd). apply list_find_None in Ef. rewrite Forall_forall in Ef. by destruct (Ef d Hd).
Qed.

(** The client after the delivery of [ret]. *)
Definition delivered c dw dev async ret size : sclient := with_state false true true dw dev async
  (with_out {| r_size := size; r_ret := ret; r_seqno := rq_seqno c |} (sc_out_fds c) (have_out_fd c)
    (with_state false true true (pending_design_write c) (pending_design_write_device c) (pending_async_device_op c) c)).

Definition same_rest s0 s : Prop := sv_devices s = sv_devices s0 /\ sv_async s = sv_async s0 /\ sv_timer s = sv_timer s0.

Lemma delivered_spec k c s s1 dw dev async ret size :
  has k (sv_clients s) (delivered c dw dev async ret size) s1 -> same_rest s s1 ->
  client_ok c -> armed_ok c -> pending c = true -> dw || async = false ->
  let R := fun s' => rung k s (fun c' => waiting c' = false /\ pending_design_write c' = false) s' /\
    sv_devices s' = sv_devices s /\ sv_async s' = sv_async s in
  ewp False False (client_update_wanted_epoll_events k) s1 (fun _ => R) (fun _ => R).
Proof using Type.
  intros Hh (Ed & Ea & Et) Hok Harm Hp Hno R. destruct (co_pending _ Hok Hp) as [Hrq Hre]. pose proof (busy_deaf c Harm Hrq Hre) as Hdeaf.
  eapply ewp_mono; [apply (update_deaf k _ _ s1 Hh); [by apply ok_delivered|exact Hdeaf]|..];
    intros _ s' (c' & Hh' & Hok' & Harm' & Hw & _ & _ & Hd' & Ea' & Et' & Ed'); (split; [exists c'|split; congruence]);
    apply orb_false_iff in Hno as [-> _]; by split_and!; try congruence.
Qed.

Lemma finalize_spec {ub : Prop} k c s : sv_clients s !! k = Some c -> client_ok c -> armed_ok c -> ub \/ live_write s c ->
  let R := fun s' => rung k s (fun c' => waiting c' = false /\ pending_design_write c' = false \/ c' = c) s' /\
    sv_devices s' = sv_devices s /\ sv_async s' = sv_async s in
  ewp ub False (done ← client_finalize_pending_design_write k; ewhen done (client_update_wanted_epoll_events k)) s (fun _ => R) (fun _ => R).
Proof using Type.
  intros Hk Hok Harm Hlive R. pose proof (has_start k c s Hk) as Hh. assert (R s) as Hstay.
  { split; [|done]. exists c. split_and!; try done. by right. }
  ewp_step. unfold client_finalize_pending_design_write. ewp_step. apply (ewp_the_client k (sv_clients s) c); [done|]. apply ewp_if; intros Hpd.
  { ewp_step. by ewp_step. }
  apply negb_false_iff in Hpd. ewp_step. apply poll_spec; [done|done|]. intros r. apply ewp_if; intros Hdone; [ewp_step; by ewp_step|].
  assert (forall ret w, ewp ub False (deliver k ret 1;; on_client k (fun c => with_state (have_request c) (have_response c) (have_new_response c)
    false None (pending_async_device_op c) c);; mret true) (set_w w s) (fun done s' => ewp ub False
    (ewhen done (client_update_wanted_epoll_events k)) s' (fun _ => R) (fun _ => R)) (fun _ => R)) as Hdel.
  { intros ret w. unfold deliver. ewp_step. apply (ewp_on_client k (sv_clients s) c); [done|]. intros s2 Hh2 Ea2 Et2 Ed2. ewp_step.
    eapply ewp_on_client; [exact Hh2|]. intros s3 Hh3 Ea3 Et3 Ed3. ewp_step. cbn [ewhen].
    eapply ewp_mono; [apply ewp_ub; eapply (delivered_spec k c s s3 false None (pending_async_device_op c)); [exact Hh3| |done|done| |]| |].
    - cbn in Ea2, Et2, Ed2. split_and!; congruence.
    - unfold pending. by rewrite Hpd.
    - by rewrite (co_one _ Hok Hpd).
    - intros _ s' ((c' & Hc') & Hrest). split; [|done]. exists c'. destruct Hc' as (H1 & H2 & H3 & H4 & H5). split_and!; try done. by left.
    - intros _ s' ((c' & Hc') & Hrest). split; [|done]. exists c'. destruct Hc' as (H1 & H2 & H3 & H4 & H5). split_and!; try done. by left. }
  ewp_step. destruct r.2 as [d|]; [apply ewp_if; intros Herr|].
  - apply ewp_world. intros ret w. apply Hdel.
  - ewp_step. apply (Hdel VRTD_RET_INTERNAL_ERROR (sv_w s)).
  - ewp_step. apply (Hdel VRTD_RET_INTERNAL_ERROR (sv_w s)).
Qed.

(** All clients are in order. *)
Definition good s : Prop := Forall client_ok (sv_clients s) /\ Forall armed_ok (sv_clients s).

Lemma good_at s k c : good s -> sv_clients s !! k = Some c -> client_ok c /\ armed_ok c.
Proof using Type. intros [H1 H2] Hk. split; by eapply Forall_lookup_1. Qed.

Lemma good_has s s' k c : good s -> has k (sv_clients s) c s' -> client_ok c -> armed_ok c ->
  good s' /\ length (sv_clients s') = length (sv_clients s).
Proof using Type. intros [H1 H2] [E Hk] Hok Ha. unfold good. rewrite E, length_insert. split; [|done]. split; by apply Forall_insert. Qed.

Lemma seq_suffix k ks n : k :: ks `suffix_of` seq 0 n -> (k < n)%nat.
Proof using Type.
  intros [pre E]. assert (k ∈ seq 0 n) as Hk by (rewrite E; apply elem_of_app; right; left). apply elem_of_seq in Hk. lia.
Qed.

Lemma deliver_round k c s result : good s -> sv_clients s !! k = Some c ->
  let R := fun s' => good s' /\ length (sv_clients s') = length (sv_clients s) /\ sv_timer s' = sv_timer s /\ sv_async s' = sv_async s in
  ewp False False (ewhen (pending_async_device_op c) (client_deliver_async_device_op_result k result;; client_update_wanted_epoll_events k)) s
    (fun _ => R) (fun _ => R).
Proof using Type.
  intros Hg Hk R. destruct (good_at s k c Hg Hk) as [Hok Harm]. pose proof (has_start k c s Hk) as Hh. apply ewp_ewhen; intros Hpa; [|done].
  assert (pending_design_write c = false) as Hpd.
  { destruct (pending_design_write c) eqn:E; [|done]. pose proof (co_one _ Hok E). congruence. }
  unfold client_deliver_async_device_op_result, deliver. ewp_step. ewp_step. apply (ewp_on_client k (sv_clients s) c); [done|].
  intros s1 Hh1 Ea1 Et1 Ed1. eapply ewp_on_client; [exact Hh1|]. intros s2 Hh2 Ea2 Et2 Ed2.
  eapply ewp_mono; [eapply (delivered_spec k c s s2 (pending_design_write c) (pending_design_write_device c) false);
    [exact Hh2|split_and!; congruence|done|done|by unfold pending; rewrite Hpa, orb_true_r|by rewrite Hpd]|..];
  intros _ s' ((c' & Hh' & Hok' & Harm' & _ & Et') & _ & Ea'); destruct (good_has s s' k c' Hg Hh' Hok' Harm'); by split_and!.
Qed.

Lemma process_spec s : good s ->
  ewp False False process_async_device_op_completion s
    (fun _ s' => good s' /\ sv_timer s' = sv_timer s /\ (sv_async s' = true -> s' = s)) (fun _ s' => good s').
Proof using Type.
  intros Hg. unfold process_async_device_op_completion. ewp_step. ewp_step. destruct (sv_flash s) as [w|]; [|ewp_step; by split_and!].
  cbv zeta. ewp_step; [|by split_and!]. ewp_step. ewp_step. ewp_step. ewp_step.
  set (n := length _). eapply ewp_mono; [apply (ewp_each _ (fun _ s' => good s' /\ length (sv_clients s') = n /\ sv_timer s' = sv_timer s /\
    sv_async s' = false) (fun _ s' => good s')); [by split_and!|]| |done].
  - intros k ks s1 Hk%seq_suffix (Hg1 & Hn & Ht & Ha). destruct (lookup_lt_is_Some_2 (sv_clients s1) k) as [c Hc]; [lia|].
    ewp_step. apply (ewp_the_client k (sv_clients s1) c); [by apply has_start|].
    eapply ewp_mono; [by apply deliver_round|..]; intros _ s2 (Hg2 & Hn2 & Ht2 & Ha2); [split_and!; [done|congruence..]|done].
  - intros _ s' (Hg' & _ & Ht' & Ha'). split_and!; [done|done|congruence].
Qed.

Lemma drain_spec ks : forall s, good s -> Forall (fun k => (k < length (sv_clients s))%nat) ks ->
  (forall j c, sv_clients s !! j = Some c -> j ∉ ks -> attended c s) ->
  ewp False False (drain_from ks) s (fun _ s' => good s' /\ sv_timer s' = sv_timer s /\ Forall (fun c => attended c s') (sv_clients s'))
    (fun _ s' => good s').
Proof using Type.
  induction ks as [|k ks IH]; intros s Hg Hks Hatt; cbn [drain_from].
  { ewp_step. split_and!; [done|done|]. apply Forall_lookup_2. intros j c Hj. apply (Hatt j); [done|by apply not_elem_of_nil]. }
  apply Forall_cons in Hks as [Hk Hks]. destruct (lookup_lt_is_Some_2 _ _ Hk) as [c Hc]. destruct (good_at s k c Hg Hc) as [Hok Harm].
  ewp_step. apply (ewp_the_client k (sv_clients s) c); [by apply has_start|]. apply ewp_if; intros Hcase.
  { apply IH; [done|done|]. intros j c' Hj Hn. destruct (decide (j = k)) as [->|Hne]; [|by apply (Hatt j); [|apply not_elem_of_cons]].
    rewrite Hc in Hj. injection Hj as <-. intros Hone [Hrq Hp%negb_true_iff]%andb_true_iff. pose proof (co_alone _ Hok Hone Hrq) as Hre.
    unfold pending in Hp. rewrite <-!orb_assoc, Hrq, Hre, Hp in Hcase. done. }
  rewrite <-!orb_assoc in Hcase. apply orb_false_iff in Hcase as [Hrq%negb_false_iff [Hre Hp]%orb_false_iff]. ewp_step.
  eapply ewp_mono; [by apply (request_spec k (sv_clients s) c); [apply has_start|..]| |done].
  intros _ s1 (c1 & Hh1 & Hok1 & [Hw1 _] & Ew1 & Ea1 & Ee1 & Hm1 & Ht1). pose proof (busy_deaf c Harm Hrq Hre) as Hdeaf.
  ewp_step. eapply ewp_mono; [apply (update_deaf k (sv_clients s) c1 s1 Hh1 Hok1); unfold deaf; rewrite Ee1, Ea1; exact Hdeaf|..];
    intros _ s2 (c2 & Hh2 & Hok2 & Harm2 & Hw2 & _ & _ & _ & Ha2 & Ht2 & _); destruct (good_has s s2 k c2 Hg Hh2 Hok2 Harm2) as [Hg2 Hn2]; [|done].
  ewp_step. ewp_step. apply ewp_if; intros Has.
  { ewp_step. split_and!; [done|congruence|]. apply Forall_true. intros c' _ _. exact Has. }
  eapply ewp_mono; [apply IH; [done|by rewrite Hn2|]|..]; [|intros _ s3 (? & ? & ?); split_and!; [done|congruence|done]|done].
  intros j c' Hj Hn. destruct Hh2 as [E2 _]. rewrite E2 in Hj. destruct (decide (j = k)) as [->|Hne].
  - rewrite list_lookup_insert_eq in Hj by done. injection Hj as <-. intros _ Hx. congruence.
  - rewrite list_lookup_insert_ne in Hj by done. intros Hone Hx. rewrite Ha2. apply Hm1. apply (Hatt j c'); [done|by apply not_elem_of_cons|done|done].
Qed.

Definition all_attended s : Prop := Forall (fun c => attended c s) (sv_clients s).

Lemma timer_spec {ub : Prop} s : good s -> (sv_async s = false -> ub \/ Forall (live_write s) (sv_clients s)) -> all_attended s ->
  ewp ub False on_event_deferred_work s (fun _ s' => good s' /\ sv_timer s' = sv_timer s /\ all_attended s') (fun _ s' => good s').
Proof using Type.
  intros Hg Hlive Hatt. unfold on_event_deferred_work. ewp_step. apply ewp_world. intros ok1 w1. ewp_step. ewp_step; [done|]. ewp_step.
  apply ewp_world. intros ok2 w2. ewp_step. ewp_step; [done|]. set (s0 := set_w w2 (set_w w1 s)). ewp_step. ewp_step.
  assert (good s0 /\ all_attended s0) as [Hg0 Hatt0] by done. assert (sv_async s0 = false -> ub \/ Forall (live_write s0) (sv_clients s0)) as Hlive0 by exact Hlive.
  change (sv_timer s) with (sv_timer s0). apply ewp_if; intros Ha.
  - ewp_step. eapply ewp_mono; [by apply ewp_ub, process_spec| |done]. intros _ s1 (Hg1 & Ht1 & Hs1). ewp_step. ewp_step. apply ewp_ewhen; intros Ha1.
    + unfold drain_deferred_requests. ewp_step. ewp_step. eapply ewp_mono; [apply ewp_ub, drain_spec; [done| |]|..]; [| |by intros _ s2 (? & ? & ?); split_and!; [|congruence|]|done].
      * apply Forall_forall. intros j Hj%elem_of_seq. lia.
      * intros j c Hj Hn. exfalso. apply Hn, elem_of_seq. apply lookup_lt_Some in Hj. lia.
    + apply negb_false_iff in Ha1. split_and!; [done|done|]. by rewrite (Hs1 Ha1).
  - ewp_step. ewp_step. set (n := length (sv_clients s0)). specialize (Hlive0 Ha).
    set (I := fun (_ : list nat) s' => good s' /\ length (sv_clients s') = n /\ sv_timer s' = sv_timer s0 /\ (ub \/ Forall (live_write s') (sv_clients s')) /\
      all_attended s').
    apply (ewp_mono _ _ (fun _ => I []) _ (fun _ s' => good s')); [|intros _ s' (? & _ & ? & _ & ?); by split_and!|done].
    apply (ewp_each _ I); [by split_and!|].
    intros k ks s1 Hk%seq_suffix (Hg1 & Hn & Ht & Hl & Hat). destruct (lookup_lt_is_Some_2 (sv_clients s1) k) as [c Hc]; [lia|].
    destruct (good_at s1 k c Hg1 Hc) as [Hok Harm].
    eapply ewp_mono; [apply (finalize_spec k c s1); [done|done|done|destruct Hl as [?|Hl]; [by left|right; by eapply (Forall_lookup_1 _ _ _ _ Hl)]]|..];
      intros _ s2 ((c2 & Hh2 & Hok2 & Harm2 & Hc2 & Ht2) & Hd2 & Ha2); destruct (good_has s1 s2 k c2 Hg1 Hh2 Hok2 Harm2) as [Hg2 Hn2]; [|done].
    destruct Hh2 as [E2 _]. split_and!; [done|congruence|congruence| |].
    + destruct Hl as [?|Hl]; [by left|right]. rewrite E2. unfold live_write in *. rewrite Hd2. apply Forall_insert; [done|]. intros Hp.
      destruct Hc2 as [[_ ?]| ->]; [congruence|]. by apply (Forall_lookup_1 _ _ _ _ Hl Hc).
    + unfold all_attended, attended in *. rewrite E2, Ha2. apply Forall_insert; [done|]. intros Hone Hw.
      destruct Hc2 as [[? _]| ->]; [congruence|]. by apply (Forall_lookup_1 _ _ _ _ Hat Hc).
Qed.

(** ** Reachable states *)

(** The event loop stops calling a callback that failed. *)
Definition disable k s : serve W := set_sclients (alter (fun c => with_events (wanted_epoll_events c) (sc_armed c) false c) k (sv_clients s)) s.

(** The thread of the writer of device [p] ends a transfer. *)
Definition transferred (p : nat) (errno : Z) s : serve W :=
  on_device p (fun d => mkSDevice (sd_ptr d) (sd_bdf d) (design_writer_publish errno <$> sd_writer d) (sd_shell d) (sd_jtag d)) s.

Inductive step : serve W -> serve W -> Prop :=
  | step_accept s conn a : step s (set_sclients (sv_clients s ++ [accepted conn a]) s)
  | step_io s k c revents s' : sv_clients s !! k = Some c -> allowed c revents -> on_client_io k revents s = Ret (Val tt) s' -> step s s'
  | step_io_failed s k c revents s' : sv_clients s !! k = Some c -> allowed c revents -> on_client_io k revents s = Ret (Exn tt) s' ->
      step s (disable k s')
  | step_timer s s' : sv_timer s = true -> on_event_deferred_work s = Ret (Val tt) s' -> step s s'
  | step_timer_failed s s' : sv_timer s = true -> on_event_deferred_work s = Ret (Exn tt) s' -> step s (disable_timer s')
  | step_transferred s p errno : step s (transferred p errno s)
  | step_flash_take s w : sv_flash s = Some w -> step s (set_flash (Some (flash_worker_take w)) (sv_async s) s)
  | step_flash_devices s w ds : sv_flash s = Some w -> fw_busy w = true -> fw_queued w = false -> step s (set_sdevices ds s)
  | step_flash_publish s w result : sv_flash s = Some w -> fw_busy w = true -> fw_queued w = false ->
      step s (set_flash (Some (flash_worker_publish result w)) (sv_async s) s)
  | step_world s w : step s (set_w w s).

Definition booted (cfg : config) (w : W) (ds : list sdevice) : serve W :=
  mkServe cfg w [] ds (Some flash_worker_create) false true [].

Definition serving cfg w ds s : Prop := rtc step (booted cfg w ds) s.

Record serve_ok s : Prop := { so_good : good s; so_attended : sv_timer s = true -> all_attended s }.

Lemma ok_settled k s s' (P : sclient -> Prop) (f : sclient -> sclient) : serve_ok s -> settled k (sv_clients s) s P s' ->
  (forall c, client_ok c -> P c -> client_ok (f c) /\ armed_ok (f c) /\ (attended c s' -> attended (f c) s')) ->
  serve_ok (set_sclients (alter f k (sv_clients s')) s').
Proof using Type.
  intros [Hg Hat] (c & Hh & Hok & HP & Hc & Ha & Ht) Hf. destruct (Hf c Hok HP) as (Hok' & Harm' & Hc'). pose proof (has_alter _ _ _ f _ Hh) as Hh'.
  split; [by eapply good_has|]. intros Htm. destruct Hh' as [E _]. unfold all_attended. rewrite E. apply Forall_insert; [|by apply Hc'].
  cbn in Htm. rewrite Ht in Htm. eapply Forall_impl; [by apply Hat|]. intros c' Hatt Hone Hw. apply Ha. by apply Hatt.
Qed.

Lemma set_same s : set_sclients (sv_clients s) s = s.
Proof using Type. by destruct s. Qed.

Lemma io_step_ok s k c revents r s' : serve_ok s -> sv_clients s !! k = Some c -> allowed c revents -> on_client_io k revents s = Ret r s' ->
  serve_ok (match r with Val _ => s' | Exn _ => disable k s' end).
Proof using Type.
  intros Hok Hk Hall E. destruct (good_at s k c (so_good _ Hok) Hk) as [Hc Harm]. pose proof (io_spec k c s revents Hk Hc Harm Hall) as Hw.
  apply (ewp_run _ _ _ _ _ _ Hw) in E. destruct r as [u|u].
  - destruct E as [(E & Ha & Ht)|E].
    + destruct Hok as [[H1 H2] Hat]. split; [unfold good; rewrite E; split; by apply Forall_delete|]. intros Htm. unfold all_attended, attended.
      rewrite E, Ha. apply Forall_delete. apply Hat. congruence.
    + rewrite <-(set_same s'). rewrite <-(list_alter_id id (sv_clients s') k) by done.
      apply (ok_settled k s s' armed_ok id Hok E). intros c' H1 H2. by split_and!.
  - apply (ok_settled k s s' _ _ Hok E). intros c' H1 _. split; [by apply ok_events|]. split; [by intros ?|done].
Qed.


Lemma other_clients_ok s s' : serve_ok s -> sv_clients s' = sv_clients s -> sv_async s' = sv_async s -> sv_timer s' = sv_timer s -> serve_ok s'.
Proof using Type.
  intros [Hg Hat] Ec Ea Et. unfold good, all_attended, attended in *. split; unfold good, all_attended, attended; by rewrite Ec, ?Ea, ?Et.
Qed.

Lemma serve_step_ok s s' : step s s' -> serve_ok s -> serve_ok s'.
Proof using Type.
  intros Hs Hok. destruct Hs as [s conn a|s k c revents s' Hk Hall E|s k c revents s' Hk Hall E|s s' Ht E|s s' Ht E|s p errno|s w _|
    s w ds _ _ _|s w result _ _ _|s w]; [..|by apply (other_clients_ok s)|by apply (other_clients_ok s)|by apply (other_clients_ok s)|
    by apply (other_clients_ok s)|by apply (other_clients_ok s)].
  - destruct (accepted_ok conn a) as [H1 H2]. destruct Hok as [[Hg1 Hg2] Hat]. split.
    + split; apply Forall_app; by rewrite Forall_singleton.
    + intros Ht. apply Forall_app. split; [by apply Hat|]. by apply Forall_singleton.
  - by eapply (io_step_ok s k c revents (Val tt)).
  - by eapply (io_step_ok s k c revents (Exn tt)).
  - destruct Hok as [Hg Hat]. pose proof (timer_spec (ub := True) s Hg (fun _ => or_introl I) (Hat Ht)) as Hw.
    apply (ewp_run _ _ _ _ _ _ Hw) in E as (Hg' & Ht' & Hat'). by split.
  - destruct Hok as [Hg Hat]. pose proof (timer_spec (ub := True) s Hg (fun _ => or_introl I) (Hat Ht)) as Hw.
    apply (ewp_run _ _ _ _ _ _ Hw) in E. by split.
Qed.

Lemma serving_ok cfg w ds s : serving cfg w ds s -> serve_ok s.
Proof using Type.
  assert (serve_ok (booted cfg w ds)) as H0 by (split; [by split|]; intros _; constructor). intros Hr. revert H0.
  induction Hr as [|s1 s2 s3 Hs _ IH]; [done|]. intros H1. by apply IH, (serve_step_ok s1).
Qed.

(** ** What is ensured *)

(** C7: of every client of every reachable state: the requests that arrived are,
    in order, those whose answers were sent, the one whose answer is ready, and
    the one in the buffer; the answers carry the sequence numbers of their
    requests; and the requests that were dispatched are the answered ones and
    the one that works in the background.  So no request is dispatched or
    answered twice, out of order, or for another. *)
Theorem answers_in_order cfg w ds s c : serving cfg w ds s -> c ∈ sv_clients s ->
  fst <$> sc_received c = sc_sent c ++ (if have_response c then [r_seqno (sc_out c)] else []) ++ (if have_request c then [rq_seqno c] else []) /\
  sc_dispatched c = sc_sent c ++ (if have_response c then [r_seqno (sc_out c)] else []) ++ (if pending c then [rq_seqno c] else []).
Proof using Type.
  intros Hs Hc. destruct (so_good _ (serving_ok _ _ _ _ Hs)) as [Hg _]. rewrite Forall_forall in Hg. destruct (Hg c Hc) as [Hr Hd Hp _ _ _ _].
  split; [|exact Hd]. rewrite Hr, Hd. unfold waiting. destruct (pending c) eqn:E.
  - destruct (Hp eq_refl) as [-> _]. cbn. by rewrite <-!(assoc_L (++)).
  - cbn. rewrite andb_true_r, app_nil_r. by rewrite <-(assoc_L (++)).
Qed.

(** C19: callbacks return in every reachable state: that of a client for every
    event it can get, and the timer when each design write in progress refers
    to a device that exists. *)
Theorem callbacks_return cfg w ds s : serving cfg w ds s ->
  (forall k c revents, sv_clients s !! k = Some c -> allowed c revents -> exists r s', on_client_io k revents s = Ret r s') /\
  (sv_timer s = true -> Forall (live_write s) (sv_clients s) -> exists r s', on_event_deferred_work s = Ret r s').
Proof using Type.
  intros Hs. pose proof (serving_ok _ _ _ _ Hs) as [Hg Hat]. split.
  - intros k c revents Hk Hall. destruct (good_at s k c Hg Hk) as [Hc Harm]. pose proof (io_spec k c s revents Hk Hc Harm Hall) as Hw.
    unfold ewp, post in Hw. destruct (on_client_io k revents s); [eauto|done..].
  - intros Ht Hl. pose proof (timer_spec (ub := False) s Hg (fun _ => or_intror Hl) (Hat Ht)) as Hw.
    unfold ewp, post in Hw. destruct (on_event_deferred_work s); [eauto|done..].
Qed.

(** C20: a client that sends each request after the answer to the one before is
    never forgotten: in every reachable state where the timer runs, its request
    works in the background, or waits for a device operation in progress, at
    whose end it is dispatched. *)
Theorem patient_client_attended cfg w ds s c : serving cfg w ds s -> sv_timer s = true -> c ∈ sv_clients s -> one_at_a_time c ->
  have_request c = true -> have_response c = false /\ (pending c = true \/ sv_async s = true).
Proof using Type.
  intros Hs Ht Hc Hone Hrq. destruct (serving_ok _ _ _ _ Hs) as [[Hg _] Hat]. rewrite Forall_forall in Hg. specialize (Hat Ht).
  unfold all_attended in Hat. rewrite Forall_forall in Hat. split; [by apply (co_alone _ (Hg c Hc))|].
  destruct (pending c) eqn:Hp; [by left|right]. apply (Hat c Hc Hone). unfold waiting. by rewrite Hrq, Hp.
Qed.

(** ** What is not ensured *)

Lemma ewp_world_exact {E A} (f : W -> A * W) s a w (Q : A -> serve W -> Prop) (X : E -> serve W -> Prop) :
  f (sv_w s) = (a, w) -> Q a (set_w w s) -> ewp False False (world f) s Q X.
Proof using Type. unfold ewp, post, world. by intros ->. Qed.

(** The client when its answer was sent. *)
Definition after_send c : sclient := with_events EPOLLRDHUP EPOLLRDHUP true (with_history (sc_dispatched c) (sc_sent c ++ [r_seqno (sc_out c)])
  (with_out (sc_out c) [] false
    (with_state true false false (pending_design_write c) (pending_design_write_device c) (pending_async_device_op c) c))).

Lemma send_run s k c w1 w2 : sv_clients s !! k = Some c -> sc_enabled c = true ->
  have_request c = true -> have_response c = true -> have_out_fd c = false -> wanted_epoll_events c = Z.lor EPOLLRDHUP EPOLLOUT ->
  sendmsg (sc_conn c) (sc_out c) [] (sv_w s) = (Sent (8 + r_size (sc_out c)), w1) ->
  set_io_events (sc_conn c) EPOLLRDHUP w1 = (true, w2) ->
  ewp False False (on_client_io k EPOLLOUT) s (fun _ s' => has k (sv_clients s) (after_send c) s' /\ sv_async s' = sv_async s) (fun _ _ => False).
Proof using Type.
  intros Hk He Hrq Hre Hfd Hw Hsend Hset. pose proof (has_start k c s Hk) as Hh. set (l := sv_clients s) in *.
  unfold on_client_io. ewp_step. apply (ewp_the_client k l c); [done|]. apply ewp_if; intros Hx; [done|]. clear Hx.
  ewp_step. apply ewp_ewhen; intros Hx; [by rewrite Hrq in Hx|]. clear Hx. ewp_step. apply (ewp_the_client k l c); [done|].
  ewp_step. ewp_step. ewp_step. apply ewp_ewhen; intros Hx; [by rewrite Hrq, Hre in Hx|]. clear Hx. ewp_step.
  apply (ewp_the_client k l c); [done|]. ewp_step. apply ewp_ewhen; intros Hx; [|by rewrite Hre in Hx]. clear Hx. ewp_step. unfold on_client at 1. ewp_step.
  set (s1 := set_sclients _ s). pose proof (has_alter _ _ _ _ _ Hh : has k l _ s1) as Hh1. cbn beta in Hh1. set (c1 := with_state _ _ _ _ _ _ c) in Hh1.
  unfold client_handle_out. ewp_step. apply (ewp_the_client k l c1); [done|]. change (have_response c1) with (have_response c). rewrite Hre. cbn [assert].
  ewp_step. ewp_step. cbv zeta. change (have_out_fd c1) with (have_out_fd c). rewrite Hfd. cbn [andb]. ewp_step. ewp_step; [done|]. ewp_step.
  eapply ewp_world_exact; [exact Hsend|]. cbv beta iota. ewp_step. apply ewp_throw_if; intros Hx; [cbn in Hx; lia|]. clear Hx. unfold on_client at 1. ewp_step.
  set (s2 := set_sclients _ _). pose proof (has_alter _ _ _ _ (set_w w1 s1) Hh1 : has k l _ s2) as Hh2. cbn beta in Hh2.
  set (c2 := with_history _ _ _) in Hh2. unfold client_update_wanted_epoll_events. ewp_step. apply (ewp_the_client k l c2); [done|]. cbv zeta.
  assert (events_of c2 = EPOLLRDHUP) as Hev by (unfold events_of; cbn; by rewrite Hrq). rewrite Hev. apply ewp_if; intros Hx.
  { change (wanted_epoll_events c2) with (wanted_epoll_events c) in Hx. by rewrite Hw in Hx. }
  ewp_step. unfold on_client at 1. ewp_step. set (s3 := set_sclients _ s2). pose proof (has_alter _ _ _ _ s2 Hh2 : has k l _ s3) as Hh3.
  ewp_step. eapply ewp_world_exact; [exact Hset|]. ewp_step. ewp_step; [done|]. unfold on_client. ewp_step. split; [|done].
  pose proof (has_alter _ _ _ (fun c => with_events EPOLLRDHUP EPOLLRDHUP (sc_enabled c) c) (set_w w2 s3) Hh3) as Hh4.
  replace (after_send c) with (with_events EPOLLRDHUP EPOLLRDHUP (sc_enabled c) c2); [exact Hh4|]. unfold after_send, c2, c1. by rewrite He, Hrq.
Qed.

(** A step that starts while no device operation runs. *)
Definition idle_step s s' : Prop := sv_async s = false /\ step s s'.

(** A request that nothing works on, of a client that hears of hang-ups only. *)
Definition stranded c : Prop :=
  sc_armed c = EPOLLRDHUP /\ have_request c = true /\ have_response c = false /\ pending c = false.

(** In the run from [s] to [s'] a hang-up disconnects the client [c]. *)
Definition hung_up c s s' : Prop := exists k revents s1 s2, rtc idle_step s s1 /\ sv_clients s1 !! k = Some c /\
  has_flag revents (Z.lor EPOLLERR (Z.lor EPOLLHUP EPOLLRDHUP)) = true /\ on_client_io k revents s1 = Ret (Val tt) s2 /\ rtc idle_step s2 s'.

Lemma stranded_event c revents : stranded c -> allowed c revents ->
  has_flag revents (Z.lor EPOLLERR (Z.lor EPOLLHUP EPOLLRDHUP)) = true.
Proof using Type.
  intros (Harm & _) (_ & Hne & Hall). apply negb_true_iff, Z.eqb_neq. intros E. apply Hne. rewrite <-Hall, Harm. exact E.
Qed.

Lemma hang_up_runs k c revents s : sv_clients s !! k = Some c ->
  has_flag revents (Z.lor EPOLLERR (Z.lor EPOLLHUP EPOLLRDHUP)) = true -> exists s', on_client_io k revents s = Ret (Val tt) s'.
Proof using Type.
  intros Hk Hf. unfold on_client_io. erewrite bind_exact by (unfold the_client; by rewrite Hk). rewrite Hf.
  unfold rm_client. erewrite bind_exact by (unfold the_client; by rewrite Hk). by destruct (0 <=? sc_in_fd c); eexists.
Qed.

Lemma elem_of_delete_ne {A} (l : list A) i k x : l !! k = Some x -> i <> k -> x ∈ delete i l.
Proof using Type.
  intros Hk Hne. apply list_elem_of_lookup. destruct (decide (k < i)%nat) as [Hlt|Hge].
  - exists k. by rewrite list_lookup_delete_lt.
  - exists (k - 1)%nat. rewrite list_lookup_delete_ge by lia. by replace (S (k - 1)) with k by lia.
Qed.

Lemma settled_elem i k c s0 s (P : sclient -> Prop) (f : sclient -> sclient) : settled i (sv_clients s0) s0 P s ->
  sv_clients s0 !! k = Some c -> i <> k -> c ∈ alter f i (sv_clients s).
Proof using Type.
  intros (c' & [E _] & _) Hk Hne. apply (list_elem_of_lookup_2 _ k). by rewrite list_lookup_alter_ne, E, list_lookup_insert_ne.
Qed.

(** The timer works on design writes only while no device operation runs. *)
Lemma timer_idle s k c : good s -> sv_async s = false -> sv_clients s !! k = Some c -> pending_design_write c = false ->
  ewp True False on_event_deferred_work s (fun _ s' => c ∈ sv_clients s') (fun _ s' => c ∈ sv_clients s').
Proof using Type.
  intros Hg Ha Hk Hp. pose proof (list_elem_of_lookup_2 _ _ _ Hk) as Hin. unfold on_event_deferred_work.
  ewp_step. apply ewp_world. intros ok1 w1. ewp_step. ewp_step; [done|]. ewp_step.
  apply ewp_world. intros ok2 w2. ewp_step. ewp_step; [done|]. set (s0 := set_w w2 (set_w w1 s)). ewp_step. ewp_step.
  change (sv_async s0) with (sv_async s). rewrite Ha. ewp_step. ewp_step. set (n := length (sv_clients s0)).
  set (I := fun (_ : list nat) s' => good s' /\ length (sv_clients s') = n /\ sv_clients s' !! k = Some c).
  apply (ewp_mono _ _ (fun _ => I []) _ (fun _ s' => I [] s')).
  2-3: intros _ s' (_ & _ & H'); by eapply list_elem_of_lookup_2.
  apply (ewp_each _ I); [by split_and!|]. intros i ks s1 Hi%seq_suffix (Hg1 & Hn & Hk1).
  destruct (decide (i = k)) as [->|Hne].
  { ewp_step. unfold client_finalize_pending_design_write. ewp_step. apply (ewp_the_client k (sv_clients s1) c); [by apply has_start|].
    rewrite Hp. cbn [negb]. ewp_step. by cbn [ewhen]; ewp_step. }
  destruct (lookup_lt_is_Some_2 (sv_clients s1) i) as [ci Hci]; [lia|]. destruct (good_at s1 i ci Hg1 Hci) as [Hok Harm].
  eapply ewp_mono; [by apply (finalize_spec (ub := True) i ci s1); [..|left]|..];
    intros _ s2 ((c2 & Hh2 & Hok2 & Harm2 & _) & _); destruct (good_has s1 s2 i c2 Hg1 Hh2 Hok2 Harm2) as [Hg2 Hn2];
    (split_and!; [done|congruence|]); destruct Hh2 as [-> _]; by rewrite list_lookup_insert_ne.
Qed.

(** One step: the client is as it was, or a hang-up removed it. *)
Lemma stranded_step s s' c : serve_ok s -> idle_step s s' -> stranded c -> c ∈ sv_clients s ->
  c ∈ sv_clients s' \/ exists k revents, sv_clients s !! k = Some c /\
    has_flag revents (Z.lor EPOLLERR (Z.lor EPOLLHUP EPOLLRDHUP)) = true /\ on_client_io k revents s = Ret (Val tt) s'.
Proof using Type.
  intros Hok [Ha Hs] Hc Hin. pose proof Hin as [k Hk]%list_elem_of_lookup. assert (pending_design_write c = false) as Hp.
  { destruct Hc as (_ & _ & _ & [? _]%orb_false_iff). done. }
  destruct Hs as [s conn a|s i ci revents s' Hi Hall E|s i ci revents s' Hi Hall E|s s' Ht E|s s' Ht E|s p errno|s w _|
    s w ds _ _ _|s w result _ _ _|s w]; try (by left); [left; apply elem_of_app; by left|..].
  - destruct (good_at s i ci (so_good _ Hok) Hi) as [Hci Harm]. destruct (decide (i = k)) as [->|Hne].
    + rewrite Hi in Hk. injection Hk as ->. right. exists k, revents. split; [done|]. split; [by eapply stranded_event|done].
    + left. pose proof (ewp_run _ _ _ _ _ _ (io_spec i ci s revents Hi Hci Harm Hall) E) as [(-> & _)|Hset]; [by eapply elem_of_delete_ne|].
      rewrite <-(list_alter_id id (sv_clients s') i) by done. by eapply settled_elem.
  - destruct (good_at s i ci (so_good _ Hok) Hi) as [Hci Harm]. destruct (decide (i = k)) as [->|Hne].
    + rewrite Hi in Hk. injection Hk as ->. destruct (hang_up_runs k c revents s Hi (stranded_event _ _ Hc Hall)) as [? Hx]. congruence.
    + left. pose proof (ewp_run _ _ _ _ _ _ (io_spec i ci s revents Hi Hci Harm Hall) E) as Hset. exact (settled_elem i k c s s' _ _ Hset Hk Hne).
  - left. by apply (ewp_run _ _ _ _ _ _ (timer_idle s k c (so_good _ Hok) Ha Hk Hp) E).
  - left. by apply (ewp_run _ _ _ _ _ _ (timer_idle s k c (so_good _ Hok) Ha Hk Hp) E).
Qed.

Lemma stranded_run s s' c : serve_ok s -> rtc idle_step s s' -> stranded c -> c ∈ sv_clients s -> c ∈ sv_clients s' \/ hung_up c s s'.
Proof using Type.
  intros Hok Hr Hc. induction Hr as [s|s s1 s2 Hs Hr IH]; intros Hin; [by left|].
  destruct (stranded_step s s1 c Hok Hs Hc Hin) as [Hin1|(k & revents & Hk & Hf & E)].
  - destruct IH as [?|(k & revents & t1 & t2 & H1 & H2)]; [by eapply serve_step_ok; [apply Hs|]|done|by left|right].
    exists k, revents, t1, t2. split; [by eapply rtc_l|done].
  - right. by exists k, revents, s, s1.
Qed.

(** C38: a second request that arrives behind an unsent answer is left waiting.
    In a reachable state where the socket of such a client takes the answer,
    sending it leaves the second request in the buffer, not dispatched, and the
    client deaf to everything but hang-ups.  Over every run of callbacks,
    workers and system events in which no step starts during a device operation
    (a reset or a flash job, of any client), the client stays exactly like that,
    unless a hang-up disconnects it.  Only the end of a device operation, which
    drains all waiting requests, can still dispatch the request. *)
Theorem second_request_waits cfg w ds s k c w1 w2 : serving cfg w ds s -> sv_clients s !! k = Some c -> allowed c EPOLLOUT ->
  have_request c = true -> have_response c = true -> have_out_fd c = false ->
  sendmsg (sc_conn c) (sc_out c) [] (sv_w s) = (Sent (8 + r_size (sc_out c)), w1) ->
  set_io_events (sc_conn c) EPOLLRDHUP w1 = (true, w2) ->
  exists s' c', on_client_io k EPOLLOUT s = Ret (Val tt) s' /\ sv_clients s' !! k = Some c' /\
    stranded c' /\ rq_seqno c' = rq_seqno c /\ sc_dispatched c' = sc_dispatched c /\ sc_sent c' = sc_sent c ++ [r_seqno (sc_out c)] /\
    forall s'', rtc idle_step s' s'' -> c' ∈ sv_clients s'' \/ hung_up c' s' s''.
Proof using Type.
  intros Hs Hk Hall Hrq Hre Hfd Hsend Hset. pose proof (serving_ok _ _ _ _ Hs) as Hok.
  destruct (good_at s k c (so_good _ Hok) Hk) as [Hc Harm]. pose proof Hall as [He _].
  assert (pending c = false) as Hp by (destruct (pending c) eqn:Hp; [destruct (co_pending _ Hc Hp); congruence|done]).
  assert (wanted_epoll_events c = Z.lor EPOLLRDHUP EPOLLOUT) as Hw.
  { destruct (Harm He) as [[-> _]|(_ & _ & Hx & _)]; [unfold events_of; by rewrite Hrq, Hre|congruence]. }
  pose proof (send_run s k c w1 w2 Hk He Hrq Hre Hfd Hw Hsend Hset) as Hrun.
  unfold ewp, post in Hrun. destruct (on_client_io k EPOLLOUT s) as [[[]|e] s'| |] eqn:E; [|done..]. destruct Hrun as [Hh _].
  exists s', (after_send c). pose proof (has_lookup _ _ _ _ Hh) as Hl. assert (stranded (after_send c)) as Hst by done.
  split_and!; try done. intros s'' Hr. apply (stranded_run s' s''); [|done|done|by eapply list_elem_of_lookup_2].
  by apply (serve_step_ok s s'); [eapply step_io|].
Qed.

(** ** Devices under a design write *)

Definition same_devices s s' : Prop := sv_devices s' = sv_devices s.

Lemma authorise_devices k check s (Q : unit -> serve W -> Prop) (X : Z -> serve W -> Prop) :
  (forall s', same_devices s s' -> Q tt s') -> (forall s' e, same_devices s s' -> X e s') -> ewp True True (authorise k check) s Q X.
Proof using Type.
  intros HQ HX. unfold authorise. ewp_step. unfold ewp, post, the_client. destruct (sv_clients s !! k) as [c|]; [|done].
  change (ewp True True (r ← asks (fun s => check (sv_config s) (sd_bdf <$> sv_devices s) (sc_auth c)); on_client k (with_auth r.2);;
    throw_if (negb r.1) VRTD_RET_AUTH_ERROR) s Q X). ewp_step. ewp_step. ewp_step. unfold on_client. ewp_step. ewp_step; [by apply HX|by apply HQ].
Qed.

Lemma remove_functions_devices d funcs : forall any s, ewp True True (remove_functions d funcs any : EM Z (serve W) unit) s
  (fun _ => same_devices s) (fun _ _ => True).
Proof using Type.
  induction funcs as [|func funcs IH]; intros any s; cbn [remove_functions]; [by ewp_step|].
  destruct (pci_bdf_set_function (sd_bdf d) func) as [bdf|]; [|by ewp_step]. ewp_step. apply ewp_world. intros err w. ewp_step.
  - ewp_step. apply ewp_ewhen; intros _; [ewp_step|]; by ewp_step.
  - eapply ewp_mono; [apply IH|done|done].
Qed.

Lemma device_of_exact n d s (Q : sdevice -> serve W -> Prop) (X : Z -> serve W -> Prop) : sv_devices s !! Z.to_nat n = Some d ->
  Q d s -> (forall e, X e s) -> ewp True True (device_of n) s Q X.
Proof using Type. intros Hd HQ HX. unfold device_of. ewp_step. ewp_step. ewp_step. ewp_step; [by apply HX|]. rewrite Hd. by ewp_step. Qed.

Lemma hotplug_remove_spec k c d s : sv_clients s !! k = Some c -> rq_field 1 4 c = 1 -> sv_devices s !! Z.to_nat (rq_field 4 0 c) = Some d ->
  ewp True True (client_handle_request_device_hotplug_op k) s
    (fun _ s' => sv_devices s' = filter (fun d' => sd_ptr d' <> sd_ptr d) (sv_devices s)) (fun _ _ => True).
Proof using Type.
  intros Hk Hop Hd. unfold client_handle_request_device_hotplug_op. ewp_step. apply (ewp_the_client k (sv_clients s) c); [by apply has_start|].
  ewp_step. ewp_step; [done|]. cbv zeta. rewrite Hop. cbn [Z.eqb Z.leb Z.compare Pos.compare Pos.compare_cont andb].
  ewp_step. apply authorise_devices; [|done]. intros s1 Hs1. ewp_step. apply (device_of_exact _ d); [by rewrite Hs1| |done].
  ewp_step. apply ewp_if; intros _.
  - unfold hotplug_all. ewp_step. ewp_step; [done|]. ewp_step. eapply ewp_mono; [apply remove_functions_devices| |done].
    intros ? s2 Hs2. ewp_step. ewp_step. apply ewp_ewhen; intros Hx; [done|]. ewp_step. cbn. by rewrite Hs2, Hs1.
  - unfold hotplug_one. ewp_step. ewp_step; [done|]. destruct (pci_bdf_set_function _ _) as [bdf|]; [|by ewp_step]. ewp_step.
    apply ewp_world. intros err w. ewp_step. apply ewp_ewhen; intros Herr; [ewp_step|]; (ewp_step; [done|]); ewp_step.
    + cbn. by rewrite Hs1.
    + by destruct (err =? 0).
Qed.

(** A handler of another client leaves client [k] as it is. *)
Lemma quiet_other_client K `{!Framing K} {A} j k cj c (m : EM Z (serve W) A) s r s' : quiet K j m -> sv_clients s !! j = Some cj ->
  Forall is_u8 (sc_inb cj) -> sv_clients s !! k = Some c -> k <> j -> m s = Ret r s' -> sv_clients s' !! k = Some c.
Proof using Type.
  intros Hq Hj Hb Hk Hne E. assert (during K j (sv_clients s) cj s s) as Hd by (exists cj; split; [reflexivity|]; by split; [apply has_start|]).
  pose proof (Hq (sv_clients s) cj s s Hb Hd) as Hw. apply (ewp_run _ _ _ _ _ _ Hw) in E.
  assert (during K j (sv_clients s) cj s s') as (c' & _ & [-> _] & _) by (by destruct r). by rewrite list_lookup_insert_ne.
Qed.

(** C39: a hotplug request can free a device while the design write of another
    client refers to it, and the next run of the timer for that client reads
    the freed device. *)
Theorem removed_device_is_used s j cj k c d size s' : sv_clients s !! j = Some cj -> Forall is_u8 (sc_inb cj) -> rq_field 1 4 cj = 1 ->
  sv_devices s !! Z.to_nat (rq_field 4 0 cj) = Some d ->
  sv_clients s !! k = Some c -> k <> j -> pending_design_write c = true -> pending_design_write_device c = Some (sd_ptr d) ->
  client_handle_request_device_hotplug_op j s = Ret (Val size) s' ->
  client_finalize_pending_design_write k s' = Ub.
Proof using Type.
  intros Hj Hb Hop Hd Hk Hne Hp Hdev E. pose proof (quiet_other_client _ _ _ _ _ _ _ _ _ (quiet_hotplug j) Hj Hb Hk Hne E) as Hk'.
  pose proof (ewp_run _ _ _ _ _ _ (hotplug_remove_spec j cj d s Hj Hop Hd) E) as Hds. cbn beta iota in Hds.
  unfold client_finalize_pending_design_write. erewrite bind_exact by (unfold the_client; by rewrite Hk'). rewrite Hp. cbn [negb].
  assert (poll_design_write c s' = Ub) as Hu; [|unfold mbind, EM_bind; by rewrite Hu].
  unfold poll_design_write. rewrite Hdev. erewrite bind_exact by reflexivity. rewrite Hds.
  assert (list_find (fun d' => sd_ptr d' = sd_ptr d) (filter (fun d' => sd_ptr d' <> sd_ptr d) (sv_devices s)) = None) as ->; [|done].
  apply list_find_None, Forall_forall. intros d' [Hn _]%list_elem_of_filter. exact Hn.
Qed.

(** The writer of device [p] is [w]. *)
Definition with_writer (p : nat) (w : design_writer) (d : sdevice) : sdevice :=
  if (sd_ptr d =? p)%nat then mkSDevice (sd_ptr d) (sd_bdf d) (Some w) (sd_shell d) (sd_jtag d) else d.

Lemma design_write_spec k c d s : sv_clients s !! k = Some c -> sv_devices s !! Z.to_nat (rq_field 4 0 c) = Some d ->
  shell_reset_required (sd_shell d) (rq_field 1 4 c) = false ->
  ewp True True (client_handle_request_design_write k) s
    (fun _ s' => sv_devices s' = with_writer (sd_ptr d) (mkWriter (sc_in_fd c) true 0) <$> sv_devices s) (fun _ _ => True).
Proof using Type.
  intros Hk Hd Hsh. unfold client_handle_request_design_write. ewp_step. apply (ewp_the_client k (sv_clients s) c); [by apply has_start|].
  ewp_step. apply authorise_devices; [|done]. intros s1 Hs1. ewp_step. ewp_step; [done|]. ewp_step.
  apply (device_of_exact _ d); [by rewrite Hs1| |done]. ewp_step. ewp_step; [done|]. ewp_step. ewp_step; [done|]. cbv zeta.
  ewp_step. ewp_step; [done|]. ewp_step. ewp_step; [done|]. ewp_step. ewp_step; [done|]. unfold switch_shell. rewrite Hsh. ewp_step. ewp_step.
  destruct (sd_writer d) as [w|]; cbn [mbind option_bind]; [|by ewp_step]. unfold design_writer_submit_fd_async.
  destruct ((sc_in_fd c <? 0) || dw_busy w || (0 <=? dw_input_fd w)); [by ewp_step|].
  ewp_step. ewp_step. ewp_step. unfold consume_fd, on_client. ewp_step. ewp_step. ewp_step. ewp_step. cbn. by rewrite Hs1.
Qed.

Lemma find_written p w ds : p ∈ sd_ptr <$> ds ->
  exists i d, list_find (fun d => sd_ptr d = p) (with_writer p w <$> ds) = Some (i, d) /\ sd_writer d = Some w.
Proof using Type.
  intros (d & -> & Hd)%list_elem_of_fmap. unfold with_writer.
  destruct (list_find_elem_of (fun d' => sd_ptr d' = sd_ptr d) (with_writer (sd_ptr d) w <$> ds) (with_writer (sd_ptr d) w d)) as [[i d'] Ef].
  - apply list_elem_of_fmap. by exists d.
  - unfold with_writer. by rewrite Nat.eqb_refl.
  - exists i, d'. split; [exact Ef|]. apply list_find_Some in Ef as (Hi & Hp & _). rewrite list_lookup_fmap in Hi.
    destruct (ds !! i) as [d0|]; [|done]. injection Hi as <-. unfold with_writer in *.
    destruct (sd_ptr d0 =? sd_ptr d)%nat eqn:E; [done|]. rewrite Hp, Nat.eqb_refl in E. done.
Qed.

Lemma transferred_devices p w errno s ds : sv_devices s = with_writer p w <$> ds ->
  sv_devices (transferred p errno s) = with_writer p (design_writer_publish errno w) <$> ds.
Proof using Type.
  intros E. cbn. rewrite E, <-list_fmap_compose. apply list_fmap_ext. intros i d _. unfold compose, with_writer.
  by destruct (sd_ptr d =? p)%nat eqn:Ep; cbn; rewrite Ep.
Qed.

Lemma find_unique ds i d : NoDup (sd_ptr <$> ds) -> ds !! i = Some d -> list_find (fun d' => sd_ptr d' = sd_ptr d) ds = Some (i, d).
Proof using Type.
  intros Hn Hi. apply list_find_Some. split_and!; [done|done|]. intros j d' Hj Hlt E. assert (j = i); [|lia].
  apply (NoDup_lookup _ _ _ (sd_ptr d) Hn); rewrite list_lookup_fmap; [rewrite Hj|rewrite Hi]; cbn; congruence.
Qed.

(** The design write of a client can be answered with the result of another
    client's: when the first one is over and the second client starts one on
    the same device before the timer runs, the first client is answered with
    the error of the second write, although its own succeeded. *)
Theorem write_answered_for_another s ka ca kb cb d w size s1 errno : sv_clients s !! ka = Some ca -> sv_clients s !! kb = Some cb -> ka <> kb ->
  Forall is_u8 (sc_inb cb) -> NoDup (sd_ptr <$> sv_devices s) -> sv_devices s !! Z.to_nat (rq_field 4 0 cb) = Some d ->
  pending_design_write ca = true -> pending_design_write_device ca = Some (sd_ptr d) ->
  sd_writer d = Some w -> design_writer_poll_result w = (true, 0) ->
  shell_reset_required (sd_shell d) (rq_field 1 4 cb) = false ->
  client_handle_request_design_write kb s = Ret (Val size) s1 -> errno <> 0 ->
  poll_design_write ca s = Ret (Val (true, 0, Some d)) s /\
  exists s3 c3, client_finalize_pending_design_write ka (transferred (sd_ptr d) errno s1) = Ret (Val true) s3 /\
    sv_clients s3 !! ka = Some c3 /\ have_response c3 = true /\ r_seqno (sc_out c3) = rq_seqno ca /\ r_ret (sc_out c3) = VRTD_RET_INTERNAL_ERROR.
Proof using Type.
  intros Ha Hb Hne Hby Hnd Hd Hp Hpd Hsw Hok Hsh E He. split.
  { unfold poll_design_write. rewrite Hpd. erewrite bind_exact by reflexivity. by rewrite (find_unique _ _ d Hnd Hd), Hsw, Hok. }
  pose proof (quiet_other_client _ _ _ _ _ _ _ _ _ (quiet_design_write kb) Hb Hby Ha Hne E) as Ha1.
  pose proof (ewp_run _ _ _ _ _ _ (design_write_spec kb cb d s Hb Hd Hsh) E) as Hds. cbn beta iota in Hds.
  apply (transferred_devices _ _ errno) in Hds. set (s2 := transferred _ errno s1) in *.
  destruct (find_written (sd_ptr d) (design_writer_publish errno (mkWriter (sc_in_fd cb) true 0)) (sv_devices s)) as (i & d' & Ef & Hw).
  { apply list_elem_of_fmap. exists d. split; [done|]. by eapply list_elem_of_lookup_2. }
  assert (poll_design_write ca s2 = Ret (Val (true, errno, Some d')) s2) as Hpoll.
  { unfold poll_design_write. rewrite Hpd. erewrite bind_exact by reflexivity. rewrite Hds, Ef, Hw. done. }
  unfold client_finalize_pending_design_write. erewrite bind_exact by (unfold the_client; change (sv_clients s2) with (sv_clients s1); by rewrite Ha1).
  rewrite Hp. cbn [negb]. erewrite bind_exact by exact Hpoll. cbn [fst snd negb]. rewrite (proj2 (Z.eqb_neq _ _) He).
  eexists _, _. split; [reflexivity|]. cbn. rewrite !list_lookup_alter_eq, Ha1. by split_and!.
Qed.
End serve.

(** ** Runs *)

(** A system that follows a script: what is received, and what happens to what
    is sent; everything else succeeds. *)
Record script := mkScript { sr_recvs : list recv; sr_sends : list send }.

#[local] Instance scripted : Outside script := {|
  recvmsg _ w := match sr_recvs w with [] => (RecvAgain, w) | r :: l => (r, mkScript l (sr_sends w)) end;
  sendmsg _ h _ w := match sr_sends w with [] => (Sent (8 + r_size h), w) | r :: l => (r, mkScript (sr_recvs w) l) end;
  set_io_events _ _ w := (true, w);
  set_timer w := (true, w);
  hp_rescan w := (0, w);
  hp_remove _ w := (0, w);
  hp_toggle_sbr _ w := (0, w);
  hp_hotplug _ w := (0, w);
  discover _ w := ([], w);
  reset_with_ami _ _ ds w := ((0, ds), w);
  refresh_pf2 _ w := (0, w);
  other _ _ _ w := ((0, 4, []), w);
  AMI_BOOT_DEVICES_MAX := 2
|}.

(** Everyone may do everything on any device. *)
Definition all_config : config := {|
  cfg_roles := [{| role_name := "all"; device_policies := [{| dp_bdf := "any"; dp_bar := true; dp_qdma := true; dp_buffer := true;
    dp_design_write := true; dp_cfgmem_program := true; dp_clock := true; dp_pcie_hotplug := true; dp_raw_mem_access := true |}]; role_query := true |}];
  default_user := {| user_name := "*"; user_id := 0; role_names := ["all"%string]; user_roles := [0%nat] |};
  cfg_users := []; cfg_groups := []; mock_device := false |}.

Definition someone : client := {| cl_uid := 7; cl_gids := []; cl_role := None |}.
Definition board : sdevice := mkSDevice 40 "0000:03:00" (Some (mkWriter (-1) false 0)) 1 false.

(** Requests: the number of devices, a design write, the removal of a device. *)
Definition count_request (seqno : Z) : recv := Received false [] [1; 0; 0; 0; seqno; 0; 0; 0; 0].
Definition write_request (seqno fd : Z) : recv := Received false [CmsgRights 4 [fd]] [5; 0; 8; 0; seqno; 0; 0; 0; 0; 0; 0; 0; 1].
Definition remove_request (seqno : Z) : recv := Received false [] [7; 0; 13; 0; seqno; 0; 0; 0; 0; 0; 0; 0; 1; 0; 0].

Definition start (w : script) : serve script := booted all_config w [board].
Definition join (conn : Z) (s : serve script) : serve script := set_sclients (sv_clients s ++ [accepted conn someone]) s.
Definition client_at (k : nat) (s : serve script) : sclient := default (accepted 0 someone) (sv_clients s !! k).

Definition after {A} (r : res (serve script) A) (s : serve script) : serve script := match r with Ret _ s' => s' | _ => s end.
Definition io (k : nat) (revents : Z) (s : serve script) : serve script := after (on_client_io k revents s) s.

(** Whether the event can come, and the callback succeeds. *)
Definition io_can (k : nat) (revents : Z) (s : serve script) : bool :=
  let c := client_at k s in
  (k <? length (sv_clients s))%nat && sc_enabled c && negb (revents =? 0) &&
  (Z.land revents (Z.lor (sc_armed c) (Z.lor EPOLLERR EPOLLHUP)) =? revents) &&
  match on_client_io k revents s with Ret (Val _) _ => true | _ => false end.

Lemma client_at_lookup k (s : serve script) : (k <? length (sv_clients s))%nat = true -> sv_clients s !! k = Some (client_at k s).
Proof. intros Hk%Nat.ltb_lt. unfold client_at. by destruct (lookup_lt_is_Some_2 _ _ Hk) as [c ->]. Qed.

Lemma io_can_step k revents s : io_can k revents s = true -> step s (io k revents s).
Proof.
  unfold io_can. intros [[[[Hk He]%andb_true_iff Hn]%andb_true_iff Hl]%andb_true_iff Hr]%andb_true_iff.
  unfold io. destruct (on_client_io k revents s) as [[[]|e] s'| |] eqn:E; [|done..]. apply (step_io s k (client_at k s) revents).
  - by apply client_at_lookup.
  - split; [done|]. split; [|by apply Z.eqb_eq]. by apply negb_true_iff, Z.eqb_neq in Hn.
  - exact E.
Qed.

Lemma bytes_check (l : list Z) : forallb (fun b => (0 <=? b) && (b <? 256)) l = true -> Forall is_u8 l.
Proof. intros H. apply Forall_forall. intros b Hb%list_elem_of_In. rewrite forallb_forall in H. specialize (H b Hb). unfold is_u8. lia. Qed.

(** A client whose answer cannot be sent at once sends a second request. *)
Definition chat : script := mkScript [count_request 5; count_request 6] [SendAgain].
Definition chat0 : serve script := join 1 (start chat).
Definition chat1 : serve script := io 0 EPOLLIN chat0.
Definition chat2 : serve script := io 0 EPOLLIN chat1.

Lemma chat2_serving : serving all_config chat [board] chat2.
Proof.
  apply (rtc_l _ _ chat0); [exact (step_accept (start chat) 1 someone)|].
  apply (rtc_l _ _ chat1); [apply (io_can_step 0 EPOLLIN); vm_compute; reflexivity|].
  apply rtc_once. apply (io_can_step 0 EPOLLIN); vm_compute; reflexivity.
Qed.

Lemma chat2_client : sv_clients chat2 !! 0%nat = Some (client_at 0 chat2).
Proof. apply client_at_lookup. vm_compute. reflexivity. Qed.

Lemma answers_in_order_witness : let c := client_at 0 chat2 in
  fst <$> sc_received c = sc_sent c ++ (if have_response c then [r_seqno (sc_out c)] else []) ++ (if have_request c then [rq_seqno c] else []) /\
  fst <$> sc_received c = [5; 6] /\ sc_dispatched c = [5].
Proof.
  destruct (answers_in_order all_config chat [board] chat2 (client_at 0 chat2) chat2_serving (list_elem_of_lookup_2 _ _ _ chat2_client)) as [H _].
  split; [exact H|]. split; vm_compute; reflexivity.
Defined.

Lemma callbacks_return_witness : (exists r s', on_client_io 0 EPOLLOUT chat2 = Ret r s') /\ (exists r s', on_event_deferred_work chat2 = Ret r s').
Proof.
  destruct (callbacks_return all_config chat [board] chat2 chat2_serving) as [Hio Ht]. split.
  - apply (Hio 0%nat (client_at 0 chat2) EPOLLOUT chat2_client). split; [vm_compute; reflexivity|]. split; [vm_compute; congruence|vm_compute; reflexivity].
  - apply Ht; [vm_compute; reflexivity|]. apply Forall_forall. intros c Hc Hp. exfalso. revert Hp. apply not_true_iff_false.
    assert (forallb (fun c => negb (pending_design_write c)) (sv_clients chat2) = true) as Hall by (vm_compute; reflexivity).
    rewrite forallb_forall in Hall. apply negb_true_iff, Hall. by apply list_elem_of_In.
Defined.

Lemma second_request_waits_witness : exists s' c', on_client_io 0 EPOLLOUT chat2 = Ret (Val tt) s' /\ sv_clients s' !! 0%nat = Some c' /\
  stranded c' /\ rq_seqno c' = 6 /\ sc_dispatched c' = [5] /\ forall s'', rtc idle_step s' s'' -> c' ∈ sv_clients s'' \/ hung_up c' s' s''.
Proof.
  destruct (second_request_waits all_config chat [board] chat2 0 (client_at 0 chat2) (sv_w chat2) (sv_w chat2) chat2_serving chat2_client) as
    (s' & c' & H1 & H2 & H3 & H4 & H5 & _ & H7);
    [split; [vm_compute; reflexivity|split; [vm_compute; congruence|vm_compute; reflexivity]]|vm_compute; reflexivity..|].
  exists s', c'. split; [exact H1|]. split; [exact H2|]. split; [exact H3|]. split; [rewrite H4; vm_compute; reflexivity|].
  split; [rewrite H5; vm_compute; reflexivity|exact H7].
Defined.

(** A client starts a design write. *)
Definition busy (second : recv) : serve script := io 0 EPOLLIN (join 2 (join 1 (start (mkScript [write_request 5 30; second] [])))).

Lemma busy_serving second : io_can 0 EPOLLIN (join 2 (join 1 (start (mkScript [write_request 5 30; second] [])))) = true ->
  serving all_config (mkScript [write_request 5 30; second] []) [board] (busy second).
Proof.
  intros Hc. apply (rtc_l _ _ (join 1 (start (mkScript [write_request 5 30; second] [])))); [exact (step_accept _ 1 someone)|].
  apply (rtc_l _ _ (join 2 (join 1 (start (mkScript [write_request 5 30; second] []))))); [exact (step_accept _ 2 someone)|].
  apply rtc_once. by apply (io_can_step 0 EPOLLIN).
Qed.

Lemma patient_client_attended_witness : let c := client_at 0 (busy (remove_request 9)) in
  have_response c = false /\ (pending c = true \/ sv_async (busy (remove_request 9)) = true).
Proof.
  apply (patient_client_attended all_config (mkScript [write_request 5 30; remove_request 9] []) [board] (busy (remove_request 9))).
  - apply busy_serving. vm_compute. reflexivity.
  - vm_compute. reflexivity.
  - apply (list_elem_of_lookup_2 _ 0), client_at_lookup. vm_compute. reflexivity.
  - vm_compute. reflexivity.
  - vm_compute. reflexivity.
Defined.

(** The other client asks to remove the device. *)
Definition removing : serve script := after (client_handle_in 1 (busy (remove_request 9))) (busy (remove_request 9)).

Definition writing_board (fd : Z) : sdevice := with_writer 40 (mkWriter fd true 0) board.

Lemma removed_device_is_used_witness :
  client_finalize_pending_design_write 0 (after (client_handle_request_device_hotplug_op 1 removing) removing) = Ub.
Proof.
  destruct (client_handle_request_device_hotplug_op 1 removing) as [[size|e] s'| |] eqn:E;
    [|exfalso; apply (f_equal (fun r => match r with Ret (Val _) _ => true | _ => false end)) in E; vm_compute in E; congruence..].
  apply (removed_device_is_used removing 1 (client_at 1 removing) 0 (client_at 0 removing) (writing_board 30) size s'); try exact E;
    try (apply client_at_lookup; vm_compute; reflexivity); try (vm_compute; reflexivity); [apply bytes_check; vm_compute; reflexivity|lia].
Defined.

(** The write of the first client succeeded, and the other one asks for one. *)
Definition over : serve script := transferred 40 0 (busy (write_request 9 31)).
Definition asking : serve script := after (client_handle_in 1 over) over.

Lemma write_answered_for_another_witness : exists s3 c3,
  client_finalize_pending_design_write 0 (transferred 40 5 (after (client_handle_request_design_write 1 asking) asking)) = Ret (Val true) s3 /\
  sv_clients s3 !! 0%nat = Some c3 /\ r_seqno (sc_out c3) = 5 /\ r_ret (sc_out c3) = VRTD_RET_INTERNAL_ERROR.
Proof.
  destruct (client_handle_request_design_write 1 asking) as [[size|e] s'| |] eqn:E;
    [|exfalso; apply (f_equal (fun r => match r with Ret (Val _) _ => true | _ => false end)) in E; vm_compute in E; congruence..].
  destruct (write_answered_for_another asking 0 (client_at 0 asking) 1 (client_at 1 asking) board (mkWriter (-1) false 0) size s' 5) as
    (_ & s3 & c3 & H1 & H2 & _ & H4 & H5); try exact E; try (apply client_at_lookup; vm_compute; reflexivity); try (vm_compute; reflexivity); try lia.
  - apply bytes_check. vm_compute. reflexivity.
  - apply NoDup_singleton.
  - exists s3, c3. split; [exact H1|]. split; [exact H2|]. split; [|exact H5]. rewrite H4. vm_compute. reflexivity.
Defined.
